(* ===== verification/_CoqProject ===== *)
-Q . S2P
Prelude.v
Lsn.v
XlogUtils.v
TermHistory.v
Membership.v
SkState.v
Safekeeper.v
ControlFile.v
WalStorage.v
WalStream.v
WalGenerator.v
WalDurability.v
SafekeeperFacts.v
SkProperties.v
Key.v
Shard.v
KeySpace.v
KeySpaceFacts.v
KeySpaceSets.v
OrdMap.v
LayerCoverage.v
LayerCoverageFacts.v
LayerName.v
LayerMap.v
LayerMapUpdates.v
LayerMapFacts.v
RangeSearchFacts.v
LayerVisibility.v
LayerVisibilityFacts.v
DiskBtree.v
DiskBtreeFacts.v
DiskBtreeSearch.v
IndexPart.v
UploadQueue.v
RemoteClient.v
UploadQueueFacts.v
UploadQueueSafety.v
RemoteClientFacts.v
RemoteSafety.v
RemoteRuns.v
UploadQueueLiveness.v
RemoteCompletion.v
VecMap.v
BlobIo.v
BlobIoFacts.v
PlannerFacts.v
ReconstructState.v
LayerFile.v
ReconstructFacts.v
LayerFileFacts.v
LayerReadFacts.v
LayerWriteFacts.v
EphemeralFile.v
EphemeralFacts.v
DioRead.v
DioReadFacts.v
SerializedBatch.v
GlobalResources.v
InMemoryLayer.v
InMemoryFacts.v
InMemoryReadFacts.v
InMemoryFlushFacts.v
