(* ===== verification/Prelude.v ===== *)
(** * A verification development for the Neon storage system

    Neon separates the storage of a Postgres database from its compute.  Safekeepers
    receive the WAL from the compute and agree on it; pageservers take the WAL from
    the safekeepers, cut it into layers (delta layers with WAL records, image layers
    with pages), keep the layers in remote storage and answer requests for the page
    of a key at an LSN; the storage controller places tenants, cut into shards, on
    pageservers.  This library models the parts of these programs in which their
    correctness is decided, translated from the Rust sources, and proves that they do
    what their callers rely on.

    ** How the code is translated

    - A machine integer is a [Z]; operations that may leave the range of their type are
      written out ([wrap], checked operations that return [None]).  Bytes are
      [list byte].
    - A panic (a failed assertion, an [unwrap] of nothing, arithmetic that leaves its
      type in a checked build) is [None] in pure code and [Panic] in an [outcome] or
      in the state and error monad [M] below; an [anyhow] error is [Err].  A
      computation in [M] keeps the state it has reached when it fails, as Rust does
      with [&mut self].
    - A loop whose end is not structural takes fuel; a theorem of the component says
      that the fuel given is enough, or gives one that is.  Fuel is the number of
      items left to process wherever there is one (operations of the queue, changes
      of a coverage, entries of a page).
    - Third-party packages and generated code are classes whose fields are what the
      code calls and whose laws are what it relies on: [HexCrate] (hex), [Itertools]
      (merge_by), [RbMap] (rpds), [RangeSet] (range-set-blaze), [XlogBindings] (the C
      structs of Postgres and crc32c), [StateCodec], [ValueCodec] and [SummaryCodec]
      (bincode), [Zstd] (zstd), [Peeking] (peeking_take_while of itertools), [BitField]
      (bit_field).  Each has a concrete instance, which the witnesses use.
    - A hash map is an association list, or a [gmap] where no order is observed; a
      clock is an argument; the two ends of a channel are a number.  Where the code
      iterates over a hash map, the order is an argument or any permutation.
    - The I/O that a read of layers spawns is done where it is spawned.

    ** Components

    Safekeeper ([safekeeper/src]):
    - [TermHistory]: histories of term switches and their highest common point.
    - [Membership], [SkState], [Safekeeper]: configurations, the state of a timeline
      and the handler of every proposer message, as computations over the state with
      the writes of the control file and of the WAL that each makes.
    - [ControlFile]: the format of the control file, its upgrades, and its atomic
      replacement on a file system with crashes.
    - [WalStorage]: segments of WAL on a file system in which every call may fail and
      a crash loses what was not synced.
    - [SafekeeperFacts], [SkProperties], [WalDurability]: at most one proposer is
      elected per term; terms and the persisted commit LSN never go back; flushed WAL
      survives crashes and the I/O errors that the code does not mistake for something
      else; writing appends and truncation cuts.

    WAL formats ([libs/postgres_ffi], [libs/utils/src/lsn.rs]):
    - [Lsn], [XlogUtils]: positions, file names, transaction ids, pages.
    - [WalStream]: the decoder that reassembles records from a stream of pages;
      [WalGenerator]: generated WAL decodes to the records written, however the stream
      is cut into chunks.

    Keys and sharding ([libs/pageserver_api], [libs/utils]):
    - [Key]: the key, its forms and the layout of the key space; [Shard]: which shard
      holds a key, and splits; [KeySpace] with [KeySpaceFacts] and [KeySpaceSets]:
      sets of keys as sorted ranges, their union, difference and partitioning.

    Layers of a timeline ([pageserver/src/tenant]):
    - [OrdMap], [LayerCoverage], [LayerCoverageFacts]: which layer covers a key, for
      each LSN, refining an ordered map of all layers.
    - [LayerName]: names and descriptors.
    - [LayerMap] with [LayerMapUpdates], [LayerMapFacts], [RangeSearchFacts]: updates,
      the search for one key and for a range, garbage collection's question, the count
      of deltas.
    - [LayerVisibility], [LayerVisibilityFacts]: which layers reads can reach.
    - [DiskBtree], [DiskBtreeFacts], [DiskBtreeSearch]: the index of a layer file,
      built page by page and read back.

    Contents of layers ([pageserver/src/tenant], [libs/wal_decoder]):
    - [VecMap]: the vector sorted by keys that indexes the versions of a page.
    - [BlobIo] with [BlobIoFacts] and [PlannerFacts]: blobs with their headers and
      compression, and the planning of vectored reads.
    - [ReconstructState], [ReconstructFacts]: values, and what a read has collected of
      each key.
    - [LayerFile] with [LayerFileFacts], [LayerReadFacts], [LayerWriteFacts]: writers,
      loading and reads of delta and image layers.
    - [EphemeralFile], [EphemeralFacts]: the buffered writer with its flush task, and
      the file that is read while it is written; the task is a list of steps that any
      schedule interleaves with the writes.
    - [DioRead], [DioReadFacts]: many reads of a file as few reads of aligned chunks.
    - [SerializedBatch]: the batches of values that ingestion hands over.
    - [GlobalResources]: the accounting of all in-memory layers, as calls and as
      interleaved atomic steps.
    - [InMemoryLayer] with [InMemoryFacts], [InMemoryReadFacts], [InMemoryFlushFacts]:
      the layer that takes the newest WAL, its reads, and writing it to disk, composed
      of the vector map, batches, ephemeral file, chunked reads and delta writer above.

    Remote storage of a timeline ([pageserver/src/tenant]):
    - [IndexPart]: the index that lists the layers of a timeline in remote storage.
    - [UploadQueue]: the queue of uploads, deletions and index updates and what may
      overtake what; [RemoteClient]: every call that schedules something, and the
      tasks, as steps of a [World] that has the queue, remote storage and the
      deletion queue.  An attempt of a task is one step; its result, also one that
      fails after having taken effect, is part of the step.
    - [UploadQueueFacts], [UploadQueueSafety], [RemoteClientFacts], [RemoteSafety]: in
      every run the index in remote storage names only layers that are there, and no
      assertion fails.  Callers keep a contract ([allowed]): new layers have paths not
      used before, and layers to be deleted have been unlinked.
    - [RemoteRuns], [UploadQueueLiveness], [RemoteCompletion]: no operation starves,
      the queue drains, and a barrier is notified only when everything before it has
      completed.

    ** What the theorems show

    The main theorems carry a number in the comment before them.  Safety and
    invariants over runs: the acceptor, WAL storage, the control file, the remote
    client.  Refinement and equivalence with a reference: the layer coverage, range search,
    key-space operations, WAL chunks; an in-memory layer that is flushed is read as it
    was before.  Functional behaviour: what is put into an in-memory layer, written to
    an ephemeral file or asked of a vectored read is what is read.  Round trips: WAL,
    B-tree, delta and image layers, control file, layer names.  Liveness and termination: the upload queue, [fragment], [count_deltas].
    Some theorems state what the code does where it does not do what it means to; they
    are the findings of the manifest.

    ** Not modelled

    - The async runtime, tracing, metrics, HTTP and gRPC handlers and configuration
      parsing: they decide nothing that the modelled parts rely on.
    - Remote storage and the file system beyond what the models of them above have;
      the page cache and [VirtualFile].
    - WAL ingestion ([walingest.rs], [pgdatadir_mapping.rs]), WAL redo, base backups,
      compaction, garbage collection and the life cycle of tenants and timelines
      ([tenant.rs], [timeline.rs], with the walk of a read over the layers), and the
      secondary downloader: large state machines over the parts that are modelled.
    - Of the safekeeper the tasks around the acceptor (broker, backup, eviction, peer
      recovery); of the storage controller everything but the choice of a split.
    - The proxy, the compute tools, the storage broker, the scrubber and the Postgres
      extension. *)

From stdpp Require Export base tactics list numbers option gmap strings.
From Stdlib Require Export Strings.Byte.
From Stdlib Require Export Lia ZArith Sorted.

#[export] Set Default Goal Selector "!".
Open Scope Z_scope.

(** ** Machine integers

    A Rust [uN] is a [Z]; an operator that may leave the range of its type is
    written out with [wrap]. *)

Definition u8_max : Z := 2 ^ 8 - 1.
Definition u16_max : Z := 2 ^ 16 - 1.
Definition u32_max : Z := 2 ^ 32 - 1.
Definition u64_max : Z := 2 ^ 64 - 1.

Definition wrap (w z : Z) : Z := z mod 2 ^ w.

(** The value of a [w]-bit word read as a two's complement signed integer. *)
Definition as_signed (w z : Z) : Z :=
  let u := wrap w z in if decide (u < 2 ^ (w - 1)) then u else u - 2 ^ w.

Definition in_u (w z : Z) : Prop := 0 <= z < 2 ^ w.

Lemma wrap_small w z : in_u w z -> wrap w z = z.
Proof. apply Z.mod_small. Qed.

Lemma wrap_in_u w z : 0 <= w -> in_u w (wrap w z).
Proof. intros. apply Z.mod_pos_bound, Z.pow_pos_nonneg; lia. Qed.

(** Clearing the low [k] bits of a non-negative word rounds it down to a
    multiple of [2 ^ k]. *)
Lemma ldiff_ones_round z k :
  0 <= k -> Z.ldiff z (Z.ones k) = z - z mod 2 ^ k.
Proof.
  intros Hk. rewrite Z.ldiff_ones_r by done.
  rewrite Z.shiftl_mul_pow2, Z.shiftr_div_pow2 by done.
  pose proof (Z.div_mod z (2 ^ k)). lia.
Qed.

(** A disjoint [lor] of a shifted high part and a low part is a sum. *)
Lemma lor_shiftl_add h l k :
  0 <= k -> 0 <= l < 2 ^ k -> Z.lor (Z.shiftl h k) l = h * 2 ^ k + l.
Proof.
  intros Hk Hl. pose proof (Z.add_lor_land (Z.shiftl h k) l) as E.
  assert (Z.land (Z.shiftl h k) l = 0) as E0.
  { rewrite <- (Z.mod_small l (2 ^ k)) by done.
    rewrite <- Z.land_ones by done.
    apply Z.bits_inj'. intros n Hn. rewrite !Z.land_spec, Z.bits_0.
    destruct (decide (n < k)).
    - by rewrite Z.shiftl_spec_low.
    - by rewrite Z.ones_spec_high, !andb_false_r by lia. }
  rewrite Z.shiftl_mul_pow2 in * by done. lia.
Qed.

(** ** Bytes

    A byte buffer is a [list byte]; [le_bytes]/[be_bytes] are the [n]-byte
    little- and big-endian encodings, [le_Z]/[be_Z] their readers. *)

Definition byte_Z (b : byte) : Z := Z.of_N (Byte.to_N b).

Definition Z_byte (z : Z) : byte :=
  default Byte.x00 (Byte.of_N (Z.to_N (z mod 256))).

Fixpoint le_bytes (n : nat) (z : Z) : list byte :=
  match n with
  | O => []
  | S n => Z_byte z :: le_bytes n (z / 256)
  end.

Fixpoint le_Z (bs : list byte) : Z :=
  match bs with
  | [] => 0
  | b :: bs => byte_Z b + 256 * le_Z bs
  end.

Definition be_bytes (n : nat) (z : Z) : list byte := rev (le_bytes n z).
Definition be_Z (bs : list byte) : Z := le_Z (rev bs).

(** The bytes of a string literal. *)
Definition str (s : string) : list byte := String.list_byte_of_string s.

Lemma byte_Z_bound b : 0 <= byte_Z b < 256.
Proof. unfold byte_Z. pose proof (Byte.to_N_bounded b). lia. Qed.

Lemma byte_Z_Z_byte z : byte_Z (Z_byte z) = z mod 256.
Proof.
  unfold byte_Z, Z_byte. pose proof (Z.mod_pos_bound z 256).
  destruct (Byte.of_N (Z.to_N (z mod 256))) as [b|] eqn:E; simpl.
  - apply Byte.to_of_N in E. rewrite E. lia.
  - apply Byte.of_N_None_iff in E. lia.
Qed.

Lemma Z_byte_byte_Z b : Z_byte (byte_Z b) = b.
Proof.
  unfold Z_byte. rewrite Z.mod_small by apply byte_Z_bound.
  unfold byte_Z. by rewrite N2Z.id, Byte.of_to_N.
Qed.

Lemma byte_Z_inj b1 b2 : byte_Z b1 = byte_Z b2 -> b1 = b2.
Proof. intros H. rewrite <- (Z_byte_byte_Z b1), H. apply Z_byte_byte_Z. Qed.

#[global] Instance byte_eq_dec : EqDecision byte := Byte.byte_eq_dec.

Lemma length_le_bytes n z : length (le_bytes n z) = n.
Proof. revert z; induction n; simpl; auto. Qed.

Lemma length_be_bytes n z : length (be_bytes n z) = n.
Proof. unfold be_bytes. by rewrite length_rev, length_le_bytes. Qed.

Lemma le_Z_bound bs : 0 <= le_Z bs < 2 ^ (8 * Z.of_nat (length bs)).
Proof.
  induction bs as [|b bs IH]; [simpl; lia|].
  cbn [le_Z length]. pose proof (byte_Z_bound b).
  replace (8 * Z.of_nat (S (length bs)))
    with (8 * Z.of_nat (length bs) + 8) by lia.
  rewrite Z.pow_add_r by lia. change (2 ^ 8) with 256. lia.
Qed.

Lemma le_Z_le_bytes n z : le_Z (le_bytes n z) = z mod 2 ^ (8 * Z.of_nat n).
Proof.
  revert z; induction n as [|n IH]; intros z.
  { simpl. by rewrite Z.mod_1_r. }
  cbn [le_bytes le_Z]. rewrite IH, byte_Z_Z_byte.
  replace (8 * Z.of_nat (S n)) with (8 + 8 * Z.of_nat n) by lia.
  rewrite Z.pow_add_r by lia. change (2 ^ 8) with 256.
  rewrite Z.rem_mul_r by lia. lia.
Qed.

Lemma le_Z_le_bytes_small n z :
  0 <= z < 2 ^ (8 * Z.of_nat n) -> le_Z (le_bytes n z) = z.
Proof. intros. rewrite le_Z_le_bytes. by apply Z.mod_small. Qed.

Lemma le_bytes_le_Z bs : le_bytes (length bs) (le_Z bs) = bs.
Proof.
  induction bs as [|b bs IH]; [done|]. cbn [length le_Z le_bytes].
  pose proof (byte_Z_bound b).
  rewrite (Z.mul_comm 256), Z.div_add, Z.div_small, Z.add_0_l, IH by lia.
  f_equal. apply byte_Z_inj. rewrite byte_Z_Z_byte, Z.mod_add by lia.
  by apply Z.mod_small.
Qed.

Lemma be_Z_be_bytes_small n z :
  0 <= z < 2 ^ (8 * Z.of_nat n) -> be_Z (be_bytes n z) = z.
Proof.
  intros. unfold be_Z, be_bytes. rewrite rev_involutive.
  by apply le_Z_le_bytes_small.
Qed.

Lemma be_Z_bound bs : 0 <= be_Z bs < 2 ^ (8 * Z.of_nat (length bs)).
Proof. unfold be_Z. rewrite <- length_rev. apply le_Z_bound. Qed.

(** ** Fallible stateful code

    A Rust method on [&mut self] that returns [Result] is a function from the
    state to an outcome and the state left behind.  The state reached before an
    early return with [?] is kept, as it is in Rust; [Panic] is a failed
    [assert!], [unwrap] or checked arithmetic operation. *)

Inductive outcome (E A : Type) : Type :=
| Ok (a : A)
| Err (e : E)
| Panic.
Arguments Ok {E A} a.
Arguments Err {E A} e.
Arguments Panic {E A}.

Definition M (E S A : Type) : Type := S -> outcome E A * S.

#[global] Instance M_ret {E S} : MRet (M E S) := fun A a s => (Ok a, s).

#[global] Instance M_bind {E S} : MBind (M E S) := fun A B k m s =>
  match m s with
  | (Ok a, s') => k a s'
  | (Err e, s') => (Err e, s')
  | (Panic, s') => (Panic, s')
  end.

Definition get {E S} : M E S S := fun s => (Ok s, s).
Definition gets {E S A} (f : S -> A) : M E S A := fun s => (Ok (f s), s).
Definition modify {E S} (f : S -> S) : M E S unit := fun s => (Ok tt, f s).
Definition bail {E S A} (e : E) : M E S A := fun s => (Err e, s).
Definition panic {E S A} : M E S A := fun s => (Panic, s).
Definition assert {E S} (b : bool) : M E S unit :=
  if b then mret tt else panic.

(** [unwrap] of an [Option], and [ok_or]/[context] followed by [?]. *)
Definition unwrap {E S A} (o : option A) : M E S A :=
  match o with Some a => mret a | None => panic end.
Definition ok_or {E S A} (e : E) (o : option A) : M E S A :=
  match o with Some a => mret a | None => bail e end.

(** A method call on a field of the state. *)
Definition zoom {E S T A} (proj : S -> T) (upd : T -> S -> S) (m : M E T A) : M E S A :=
  fun s => let '(o, t) := m (proj s) in (o, upd t s).

(** [?] with a conversion of the error. *)
Definition map_err {E E' S A} (f : E -> E') (m : M E S A) : M E' S A := fun s =>
  match m s with
  | (Ok a, s') => (Ok a, s')
  | (Err e, s') => (Err (f e), s')
  | (Panic, s') => (Panic, s')
  end.

(** A handler for the error. *)
Definition catch {E S A} (m : M E S A) (handle : E -> M E S A) : M E S A := fun s =>
  match m s with
  | (Err e, s') => handle e s'
  | r => r
  end.

(** Weakest precondition: [Q] holds of the outcome and of the state left. *)
Definition wp {E S A} (m : M E S A) (Q : outcome E A -> S -> Prop) (s : S) : Prop :=
  Q (m s).1 (m s).2.
Arguments wp : simpl never.

Section wp.
Context {E S A B : Type}.
Implicit Types (s : S).

Lemma wp_mono (m : M E S A) (Q Q' : outcome E A -> S -> Prop) s :
  wp m Q s -> (forall o s', Q o s' -> Q' o s') -> wp m Q' s.
Proof. unfold wp. auto. Qed.

Lemma wp_intro (m : M E S A) (Q : outcome E A -> S -> Prop) s :
  (forall o s', m s = (o, s') -> Q o s') -> wp m Q s.
Proof. unfold wp. intros H. apply H. by destruct (m s). Qed.

Lemma wp_elim (m : M E S A) (Q : outcome E A -> S -> Prop) s o s' :
  wp m Q s -> m s = (o, s') -> Q o s'.
Proof. unfold wp. intros H E0. by rewrite E0 in H. Qed.

Lemma wp_ret (a : A) (Q : outcome E A -> S -> Prop) s :
  Q (Ok a) s -> wp (mret a) Q s.
Proof. done. Qed.

Lemma wp_bind (m : M E S A) (k : A -> M E S B) (Q : outcome E B -> S -> Prop) s :
  wp m (fun o s' => match o with
                    | Ok a => wp (k a) Q s'
                    | Err e => Q (Err e) s'
                    | Panic => Q Panic s'
                    end) s ->
  wp (m ≫= k) Q s.
Proof.
  unfold wp, mbind, M_bind. by destruct (m s) as [[a|e|] s'].
Qed.

Lemma wp_gets (f : S -> A) (Q : outcome E A -> S -> Prop) s :
  Q (Ok (f s)) s -> wp (gets f) Q s.
Proof. done. Qed.

Lemma wp_modify (f : S -> S) (Q : outcome E unit -> S -> Prop) s :
  Q (Ok tt) (f s) -> wp (modify f) Q s.
Proof. done. Qed.

Lemma wp_bail (e : E) (Q : outcome E A -> S -> Prop) s :
  Q (Err e) s -> wp (bail e) Q s.
Proof. done. Qed.

Lemma wp_assert (b : bool) (Q : outcome E unit -> S -> Prop) s :
  (b = true -> Q (Ok tt) s) -> (b = false -> Q Panic s) -> wp (assert b) Q s.
Proof. unfold assert. destruct b; intros H1 H2; [by apply H1|by apply H2]. Qed.
End wp.

Lemma wp_zoom {E S T A} (proj : S -> T) (upd : T -> S -> S) (m : M E T A) Q s :
  wp m (fun o t => Q o (upd t s)) (proj s) -> wp (zoom proj upd m) Q s.
Proof. unfold wp, zoom. by destruct (m (proj s)). Qed.

Lemma wp_catch {E S A} (m : M E S A) handle Q s :
  wp m (fun o s' => match o with Err e => wp (handle e) Q s' | _ => Q o s' end) s ->
  wp (catch m handle) Q s.
Proof. unfold wp, catch. by destruct (m s) as [[a|e|] s']. Qed.

Lemma bind_ok {E S A B} (m : M E S A) (k : A -> M E S B) s b s' :
  (m ≫= k) s = (Ok b, s') -> exists a s1, m s = (Ok a, s1) /\ k a s1 = (Ok b, s').
Proof.
  unfold mbind, M_bind. destruct (m s) as [[a|e|] s1]; [eauto|done|done].
Qed.

(** Pure fallible code returns an [outcome]; [lift] runs it in a stateful
    method. *)

#[global] Instance outcome_ret {E} : MRet (outcome E) := fun A a => Ok a.
#[global] Instance outcome_bind {E} : MBind (outcome E) := fun A B k m =>
  match m with
  | Ok a => k a
  | Err e => Err e
  | Panic => Panic
  end.

#[global] Instance outcome_fmap {E} : FMap (outcome E) := fun A B f m =>
  match m with
  | Ok a => Ok (f a)
  | Err e => Err e
  | Panic => Panic
  end.

Lemma ok_bind {E A B} (a : A) (k : A -> outcome E B) : (Ok a ≫= k) = k a.
Proof. done. Qed.

(** A failed [unwrap], slice or assertion in such code. *)
Definition of_option {E A} (o : option A) : outcome E A :=
  match o with Some a => Ok a | None => Panic end.

(** A loop that has used up its fuel. *)
Inductive fuel_error : Set := OutOfFuel.

Definition lift {E S A} (o : outcome E A) : M E S A := fun s => (o, s).

Lemma wp_lift {E S A} (o : outcome E A) (Q : outcome E A -> S -> Prop) s :
  Q o s -> wp (lift o) Q s.
Proof. done. Qed.

(** ** System calls

    A state that performs I/O carries a script of faults: [None] lets the next
    call succeed, [Some n] makes it fail after [n] units of progress; past the
    end of the script calls succeed.  A theorem over all states is a theorem
    over all scripts. *)

Class Faulty (S : Type) := {
  faults : S -> list (option nat);
  set_faults : list (option nat) -> S -> S
}.

Definition sys {S} `{!Faulty S} (e : string) (ok : S -> S) (fail : nat -> S -> S) :
    M string S unit := fun s =>
  match faults s with
  | [] => (Ok tt, ok (set_faults [] s))
  | None :: r => (Ok tt, ok (set_faults r s))
  | Some n :: r => (Err e, fail n (set_faults r s))
  end.

Lemma wp_sys {S} `{!Faulty S} e ok fail (Q : outcome string unit -> S -> Prop) s :
  (forall r, Q (Ok tt) (ok (set_faults r s))) ->
  (forall n r, Q (Err e) (fail n (set_faults r s))) ->
  wp (sys e ok fail) Q s.
Proof. unfold wp, sys. intros H1 H2. destruct (faults s) as [|[n|] r]; simpl; auto. Qed.

(** The step of a proof over [wp]: look through binds and primitive commands. *)
Ltac wp_step :=
  lazymatch goal with
  | |- wp (_ ≫= _) _ _ => apply wp_bind
  | |- wp (mret _) _ _ => apply wp_ret
  | |- wp (gets _) _ _ => apply wp_gets
  | |- wp get _ _ => apply wp_gets
  | |- wp (modify _) _ _ => apply wp_modify
  | |- wp (bail _) _ _ => apply wp_bail
  | |- wp (assert _) _ _ => apply wp_assert; intros ?
  | |- wp (sys _ _ _) _ _ => apply wp_sys; intros
  | |- wp (if decide ?P then _ else _) _ _ =>
      let E := fresh "E" in destruct (decide P) as [E|E]
  | |- wp (if ?b then _ else _) _ _ => let E := fresh "E" in destruct b eqn:E
  | |- wp (match ?x with Some _ => _ | None => _ end) _ _ =>
      let E := fresh "E" in destruct x eqn:E
  end.
Ltac wp_steps := repeat (wp_step; simpl).

(** ** Lists *)

Lemma StronglySorted_app_cons_inv {A} (R : A -> A -> Prop) l1 x l2 :
  StronglySorted R (l1 ++ x :: l2) ->
  Forall (fun y => R y x) l1 /\ Forall (R x) l2.
Proof.
  induction l1 as [|y l1 IH]; simpl; intros H; inversion_clear H as [|?? Hs Hf].
  - split; [constructor|done].
  - destruct (IH Hs). split; [|done]. constructor; [|done].
    rewrite Forall_app, Forall_cons in Hf. tauto.
Qed.

Lemma StronglySorted_app_inv {A} (R : A -> A -> Prop) l1 l2 :
  StronglySorted R (l1 ++ l2) ->
  StronglySorted R l1 /\ StronglySorted R l2 /\ (forall x y, x ∈ l1 -> y ∈ l2 -> R x y).
Proof.
  induction l1 as [|z l1 IH]; simpl; intros H.
  - split_and!; [constructor|done|]. intros ?? []%not_elem_of_nil.
  - inversion_clear H as [|?? Hs Hf]. destruct (IH Hs) as (H1 & H2 & H3).
    rewrite Forall_app in Hf. destruct Hf as [Hf1 Hf2].
    split_and!; [by constructor|done|].
    intros x y [->|Hx]%elem_of_cons Hy; [|eauto].
    rewrite Forall_forall in Hf2. eauto.
Qed.

(** Filters that keep everything, nothing, or the same. *)
Lemma filter_all {A} (P : A -> Prop) `{!forall x, Decision (P x)} (l : list A) :
  (forall x, x ∈ l -> P x) -> filter P l = l.
Proof.
  induction l as [|x l IH]; intros Hl; [done|]. rewrite filter_cons_True by (apply Hl; left).
  f_equal. apply IH. intros y Hy. apply Hl. by right.
Qed.

Lemma filter_none {A} (P : A -> Prop) `{!forall x, Decision (P x)} (l : list A) :
  (forall x, x ∈ l -> ~ P x) -> filter P l = [].
Proof.
  induction l as [|x l IH]; intros Hl; [done|]. rewrite filter_cons_False by (apply Hl; left).
  apply IH. intros y Hy. apply Hl. by right.
Qed.

Lemma filter_ext_in {A} (P Q : A -> Prop) `{!forall x, Decision (P x), !forall x, Decision (Q x)} (l : list A) :
  (forall x, x ∈ l -> P x <-> Q x) -> filter P l = filter Q l.
Proof.
  induction l as [|x l IH]; intros Hx; [done|]. rewrite !filter_cons, IH by set_solver.
  destruct (decide (P x)), (decide (Q x)); try done; exfalso; set_solver.
Qed.
