(* ===== verification/Lsn.v ===== *)
(** * Log sequence numbers ([libs/utils/src/lsn.rs])

    An [Lsn] is a [u64]; the record wrapper of the source is dropped, so a value
    of the model is a [Z] that is in [in_u 64].  This file has the segment and
    page arithmetic, the checked and saturating operations, and the textual
    form [{:X}/{:X}] with its parser. *)

From S2P Require Import Prelude.

Abbreviation Lsn := Z (only parsing).

Definition XLOG_BLCKSZ : Z := 8192.

Definition LSN_MAX : Lsn := u64_max.
Definition LSN_INVALID : Lsn := 0.

(** ** Arithmetic *)

Definition checked_sub (self other : Z) : option Lsn :=
  if decide (other <= self) then Some (self - other) else None.

Definition saturating_sub (self other : Z) : Lsn := Z.max 0 (self - other).

Definition widening_sub (self other : Z) : Z := self - other.

(** [Add<u64> for Lsn]: [checked_add(..).unwrap()], [None] is the panic. *)
Definition lsn_add (self other : Z) : option Lsn :=
  if decide (self + other <= u64_max) then Some (self + other) else None.

Definition segment_offset (self seg_sz : Z) : Z := self mod seg_sz.
Definition segment_lsn (self seg_sz : Z) : Lsn := self - self mod seg_sz.
Definition segment_number (self seg_sz : Z) : Z := self / seg_sz.
Definition block_offset (self : Lsn) : Z := self mod XLOG_BLCKSZ.
Definition page_lsn (self : Lsn) : Lsn := self - block_offset self.
Definition page_offset_in_segment (self seg_sz : Z) : Z :=
  (self - block_offset self) - segment_lsn self seg_sz.
Definition remaining_in_block (self : Lsn) : Z := XLOG_BLCKSZ - self mod XLOG_BLCKSZ.

(** [sz.wrapping_sub(self.0) % sz]. *)
Definition calc_padding (self sz : Z) : Z := wrap 64 (sz - self) mod sz.

(** [(self.0 + 7) & !7]: [!7] clears the three low bits of the word. *)
Definition align (self : Lsn) : Lsn := Z.ldiff (wrap 64 (self + 7)) (Z.ones 3).
Definition is_aligned (self : Lsn) : bool := bool_decide (self = align self).
Definition is_valid (self : Lsn) : bool := negb (bool_decide (self = LSN_INVALID)).

(** ** Hexadecimal text *)

(** [char::to_digit(16)] on a byte of the string. *)
Definition hex_digit (b : byte) : option Z :=
  let c := byte_Z b in
  if decide (48 <= c <= 57) then Some (c - 48)
  else if decide (65 <= c <= 70) then Some (c - 55)
  else if decide (97 <= c <= 102) then Some (c - 87)
  else None.

(** The digits of [uN::from_str_radix(_, 16)], most significant first; the
    accumulator is checked against [2 ^ w] at every digit. *)
Fixpoint hex_digits (w : Z) (acc : Z) (s : list byte) : option Z :=
  match s with
  | [] => Some acc
  | b :: s =>
      d ← hex_digit b;
      let acc := acc * 16 + d in
      if decide (acc < 2 ^ w) then hex_digits w acc s else None
  end.

(** [uN::from_str_radix(s, 16)]: an empty string and a lone sign are refused, a
    leading plus is skipped. *)
Definition from_str_radix_16 (w : Z) (s : list byte) : option Z :=
  match s with
  | [] => None
  | b :: s' =>
      if decide (byte_Z b = 43) then
        match s' with [] => None | _ => hex_digits w 0 s' end
      else hex_digits w 0 s
  end.

Inductive LsnParseError : Set := LsnParseErr.

Definition from_hex (s : list byte) : sum LsnParseError Lsn :=
  match from_str_radix_16 64 s with
  | Some n => inr n
  | None => inl LsnParseErr
  end.

(** The UTF-8 encodings of the characters of the Unicode property White_Space,
    which is what [str::trim] removes. *)
Definition whitespace_encodings : list (list byte) :=
  map (fun c => [Z_byte c]) [9; 10; 11; 12; 13; 32]
  ++ map (fun c => [Byte.xc2; Z_byte c]) [133; 160]
  ++ [[Byte.xe1; Byte.x9a; Byte.x80]]
  ++ map (fun c => [Byte.xe2; Byte.x80; Z_byte c])
       [128; 129; 130; 131; 132; 133; 134; 135; 136; 137; 138; 168; 169; 175]
  ++ [[Byte.xe2; Byte.x81; Byte.x9f]; [Byte.xe3; Byte.x80; Byte.x80]].

Fixpoint strip_prefix (p s : list byte) : option (list byte) :=
  match p, s with
  | [], _ => Some s
  | a :: p, b :: s => if decide (a = b) then strip_prefix p s else None
  | _ :: _, [] => None
  end.

Fixpoint strip_any (ps : list (list byte)) (s : list byte) : option (list byte) :=
  match ps with
  | [] => None
  | p :: ps => match strip_prefix p s with Some s' => Some s' | None => strip_any ps s end
  end.

(** Repeat [strip_any]; every encoding is non-empty, so [length s] rounds are
    enough. *)
Fixpoint strip_all (fuel : nat) (ps : list (list byte)) (s : list byte) : list byte :=
  match fuel with
  | O => s
  | S fuel => match strip_any ps s with Some s' => strip_all fuel ps s' | None => s end
  end.

Definition trim (s : list byte) : list byte :=
  let s := strip_all (length s) whitespace_encodings s in
  rev (strip_all (length s) (map (@rev byte) whitespace_encodings) (rev s)).

(** [str::split] on a one-byte separator: always at least one piece. *)
Fixpoint split_on (sep : byte) (s : list byte) : list (list byte) :=
  match s with
  | [] => [[]]
  | b :: s =>
      if decide (b = sep) then [] :: split_on sep s
      else match split_on sep s with
           | [] => [[b]]
           | p :: ps => (b :: p) :: ps
           end
  end.

Definition slash : byte := Byte.x2f.

(** [FromStr for Lsn]: exactly two pieces around the slash, each a [u32]. *)
Definition lsn_from_str (s : list byte) : sum LsnParseError Lsn :=
  match split_on slash (trim s) with
  | [left_str; right_str] =>
      match from_str_radix_16 32 left_str, from_str_radix_16 32 right_str with
      | Some left_num, Some right_num => inr (Z.lor (Z.shiftl left_num 32) right_num)
      | _, _ => inl LsnParseErr
      end
  | _ => inl LsnParseErr
  end.

(** [{:X}] of a [u64]: upper case, no leading zeros, a single zero for 0. *)
Definition hex_char (d : Z) : byte := Z_byte (if decide (d < 10) then 48 + d else 55 + d).

Fixpoint fmt_hex_aux (fuel : nat) (n : Z) (acc : list byte) : list byte :=
  match fuel with
  | O => acc
  | S fuel =>
      let acc := hex_char (n mod 16) :: acc in
      if decide (n / 16 = 0) then acc else fmt_hex_aux fuel (n / 16) acc
  end.

(** Sixteen digits hold every [u64]. *)
Definition fmt_hex (n : Z) : list byte := fmt_hex_aux 16 n [].

Definition lsn_fmt (self : Lsn) : list byte :=
  fmt_hex (Z.shiftr self 32) ++ [slash] ++ fmt_hex (Z.land self u32_max).

(** ** [AtomicLsn] and [RecordLsn]: sequential behaviour *)

Definition fetch_add (inner val : Z) : option (Lsn * Z) :=
  if decide (inner + val <= u64_max) then Some (inner, inner + val) else None.

Definition fetch_max (inner lsn : Z) : Lsn * Z := (inner, Z.max inner lsn).

Record RecordLsn := { rl_last : Lsn; rl_prev : Lsn }.

(** [None] is the failed assertion [self.last <= lsn]. *)
Definition cnt_advance (self : RecordLsn) (lsn : Lsn) : option RecordLsn :=
  if decide (rl_last self <= lsn) then Some {| rl_last := lsn; rl_prev := rl_last self |}
  else None.

(** ** Alignment and padding *)

(** Rounding up to the next multiple of 8, as WAL records are laid out. *)
Lemma align_round l :
  0 <= l -> l + 7 <= u64_max -> align l = l + (- l) mod 8.
Proof.
  intros H0 H1. unfold align. rewrite wrap_small by (unfold in_u, u64_max in *; lia).
  rewrite ldiff_ones_round by lia. change (2 ^ 3) with 8.
  pose proof (Z.mod_pos_bound l 8). pose proof (Z.div_mod l 8).
  pose proof (Z.mod_pos_bound (l + 7) 8). pose proof (Z.div_mod (l + 7) 8).
  pose proof (Z.mod_pos_bound (- l) 8). pose proof (Z.div_mod (- l) 8). lia.
Qed.

(** [Lsn::align] returns the least multiple of 8 that is not below the LSN,
    as long as the [u64] addition does not wrap, and [is_aligned] holds of
    exactly the multiples of 8 in that range. *)
Theorem align_least_multiple (l : Lsn) :
  0 <= l -> l + 7 <= u64_max ->
  align l mod 8 = 0 /\ l <= align l < l + 8
  /\ (forall m, l <= m -> m mod 8 = 0 -> align l <= m)
  /\ (is_aligned l = true <-> l mod 8 = 0).
Proof.
  intros H0 H1. unfold is_aligned. rewrite bool_decide_eq_true, align_round by done.
  pose proof (Z.mod_pos_bound (- l) 8). pose proof (Z.div_mod (- l) 8).
  pose proof (Z.mod_pos_bound l 8). pose proof (Z.div_mod l 8).
  pose proof (Z.mod_pos_bound (l + - l mod 8) 8).
  pose proof (Z.div_mod (l + - l mod 8) 8).
  repeat split; try lia.
  intros m ? ?. pose proof (Z.div_mod m 8). lia.
Qed.

Lemma align_least_multiple_witness :
  align 0x3C490F1 mod 8 = 0 /\ is_aligned 0x3C490F8 = true.
Proof.
  split.
  - apply (align_least_multiple 0x3C490F1); vm_compute; congruence.
  - apply (align_least_multiple 0x3C490F8); vm_compute; congruence.
Defined.

(** [Lsn::calc_padding] is the distance to the next chunk boundary for every
    chunk size that divides [2^64] (the code uses 8 and the segment size). *)
Theorem calc_padding_fills_chunk (l sz : Z) :
  in_u 64 l -> 0 < sz -> (sz | 2 ^ 64) ->
  0 <= calc_padding l sz < sz /\ (l + calc_padding l sz) mod sz = 0.
Proof.
  intros Hl Hsz Hdiv. unfold calc_padding, wrap.
  split; [by apply Z.mod_pos_bound|].
  rewrite Z.mod_mod_divide by done.
  rewrite Zplus_mod_idemp_r. replace (l + (sz - l)) with (1 * sz) by lia.
  by apply Z.mod_mul; lia.
Qed.

Lemma calc_padding_fills_chunk_witness :
  (0xffff01 + calc_padding 0xffff01 8) mod 8 = 0.
Proof.
  apply (calc_padding_fills_chunk 0xffff01 8).
  - vm_compute. split; congruence.
  - reflexivity.
  - exists (2 ^ 61). reflexivity.
Defined.

(** For a chunk size that does not divide [2^64] and an LSN above it,
    [calc_padding] is not the distance to the boundary: at LSN 4 with chunks of
    3 bytes it returns 0. *)
Theorem calc_padding_wraps_for_other_sizes :
  calc_padding 4 3 = 0 /\ 4 mod 3 <> 0.
Proof. vm_compute. split; congruence. Qed.

(** ** The textual form round-trips *)

Definition is_hex (b : byte) : Prop := is_Some (hex_digit b).

Lemma hex_char_digit d : 0 <= d < 16 -> hex_digit (hex_char d) = Some d.
Proof.
  intros. unfold hex_digit, hex_char. rewrite byte_Z_Z_byte.
  repeat case_decide; try rewrite Z.mod_small in * by lia; try lia; f_equal; lia.
Qed.

Lemma hex_digits_fmt w fuel n acc :
  0 <= n < 2 ^ w -> n < 16 ^ Z.of_nat (S fuel) ->
  hex_digits w 0 (fmt_hex_aux (S fuel) n acc) = hex_digits w n acc.
Proof.
  revert n acc; induction fuel as [|fuel IH]; intros n acc Hn Hf;
    pose proof (Z.mod_pos_bound n 16); pose proof (Z.div_mod n 16);
    set (f := fmt_hex_aux) in *; cbn [fmt_hex_aux] in *.
  - change (16 ^ Z.of_nat 1) with 16 in Hf.
    unfold f. cbn [fmt_hex_aux]. assert (n / 16 = 0) by lia.
    rewrite decide_True by done. cbn [hex_digits].
    rewrite hex_char_digit by lia. simpl.
    rewrite decide_True by lia. f_equal. lia.
  - replace (f (S (S fuel)) n acc) with
      (if decide (n / 16 = 0) then hex_char (n mod 16) :: acc
       else f (S fuel) (n / 16) (hex_char (n mod 16) :: acc)) by reflexivity.
    case_decide as Hd.
    + cbn [hex_digits]. rewrite hex_char_digit by lia. simpl.
      rewrite decide_True by lia. f_equal. lia.
    + rewrite IH.
      * cbn [hex_digits]. rewrite hex_char_digit by lia. simpl.
        rewrite decide_True by lia. f_equal. lia.
      * lia.
      * rewrite Nat2Z.inj_succ, Z.pow_succ_r in Hf by lia. lia.
Qed.

Lemma fmt_hex_aux_hex fuel n acc :
  Forall is_hex acc -> Forall is_hex (fmt_hex_aux fuel n acc).
Proof.
  revert n acc; induction fuel as [|fuel IH]; intros n acc H; [done|].
  cbn [fmt_hex_aux].
  assert (is_hex (hex_char (n mod 16))) as Hc.
  { eexists. apply hex_char_digit, Z.mod_pos_bound. lia. }
  case_decide; [by constructor|]. apply IH. by constructor.
Qed.

Lemma fmt_hex_aux_nonempty fuel n acc :
  acc <> [] -> fmt_hex_aux fuel n acc <> [].
Proof.
  revert n acc; induction fuel as [|fuel IH]; intros n acc H; [done|].
  cbn [fmt_hex_aux]. case_decide; [done|]. by apply IH.
Qed.

Lemma fmt_hex_nonempty n : fmt_hex n <> [].
Proof.
  unfold fmt_hex. cbn [fmt_hex_aux]. case_decide; [done|].
  by apply (fmt_hex_aux_nonempty 15).
Qed.

Lemma fmt_hex_hex n : Forall is_hex (fmt_hex n).
Proof. by apply fmt_hex_aux_hex. Qed.

Lemma is_hex_not_slash b : is_hex b -> b <> slash.
Proof. intros [d H] ->. vm_compute in H. done. Qed.

Lemma is_hex_not_plus b : is_hex b -> byte_Z b <> 43.
Proof. intros [d H] E. unfold hex_digit in H. rewrite E in H. done. Qed.

Lemma from_str_radix_fmt w n :
  0 <= n < 2 ^ w -> n < 16 ^ 16 -> from_str_radix_16 w (fmt_hex n) = Some n.
Proof.
  intros Hw H16. unfold from_str_radix_16.
  pose proof (fmt_hex_nonempty n). pose proof (fmt_hex_hex n) as Hhex.
  destruct (fmt_hex n) as [|b s] eqn:E; [done|].
  apply Forall_cons in Hhex as [Hb _]. rewrite decide_False by by apply is_hex_not_plus.
  rewrite <- E. unfold fmt_hex. by rewrite hex_digits_fmt.
Qed.

Lemma strip_any_hex b s : is_hex b -> strip_any whitespace_encodings (b :: s) = None.
Proof. intros [d H]. destruct b; try discriminate H; reflexivity. Qed.

Lemma strip_any_rev_hex b s :
  is_hex b -> strip_any (map (@rev byte) whitespace_encodings) (b :: s) = None.
Proof. intros [d H]. destruct b; try discriminate H; reflexivity. Qed.

Lemma strip_all_none fuel ps s : strip_any ps s = None -> strip_all fuel ps s = s.
Proof. destruct fuel; simpl; [done|]. by intros ->. Qed.

(** A string that starts and ends with a hexadecimal digit has nothing to trim. *)
Lemma trim_hex b1 s b2 : is_hex b1 -> is_hex b2 -> trim (b1 :: s ++ [b2]) = b1 :: s ++ [b2].
Proof.
  intros H1 H2. unfold trim.
  rewrite (strip_all_none _ whitespace_encodings) by by apply strip_any_hex.
  rewrite strip_all_none.
  - by rewrite rev_involutive.
  - rewrite app_comm_cons, rev_app_distr. by apply strip_any_rev_hex.
Qed.

Lemma split_on_none sep s : Forall (fun b => b <> sep) s -> split_on sep s = [s].
Proof.
  induction 1 as [|b s Hb _ IH]; [done|]. simpl. rewrite decide_False by done.
  by rewrite IH.
Qed.

Lemma split_on_app sep s1 s2 :
  Forall (fun b => b <> sep) s1 -> split_on sep (s1 ++ sep :: s2) = s1 :: split_on sep s2.
Proof.
  induction 1 as [|b s Hb _ IH]; simpl.
  - by rewrite decide_True.
  - rewrite decide_False by done. by rewrite IH.
Qed.

Lemma trim_lsn_fmt l : trim (lsn_fmt l) = lsn_fmt l.
Proof.
  unfold lsn_fmt. set (a := Z.shiftr l 32). set (b := Z.land l u32_max).
  pose proof (fmt_hex_nonempty a). pose proof (fmt_hex_hex a) as Ha.
  pose proof (fmt_hex_nonempty b). pose proof (fmt_hex_hex b) as Hb.
  destruct (fmt_hex a) as [|x xs]; [done|].
  destruct (fmt_hex b) as [|y ys _] eqn:E using rev_ind; [done|].
  apply Forall_cons in Ha as [Hx _].
  apply Forall_app in Hb as [_ Hy]. apply Forall_cons in Hy as [Hy _].
  replace ((x :: xs) ++ [slash] ++ ys ++ [y]) with (x :: (xs ++ [slash] ++ ys) ++ [y])
    by (cbn [app]; by rewrite <- !app_assoc).
  by apply trim_hex.
Qed.

(** Parsing the displayed form of an LSN gives the LSN back, for every
    [u64] value; so the display is injective. *)
Theorem lsn_from_str_fmt (l : Lsn) : in_u 64 l -> lsn_from_str (lsn_fmt l) = inr l.
Proof.
  intros Hl. unfold lsn_from_str. rewrite trim_lsn_fmt. unfold lsn_fmt.
  change u32_max with (Z.ones 32). rewrite Z.land_ones, Z.shiftr_div_pow2 by lia.
  unfold in_u in Hl. pose proof (Z.div_mod l (2 ^ 32)).
  pose proof (Z.mod_pos_bound l (2 ^ 32)).
  assert (0 <= l / 2 ^ 32 < 2 ^ 32).
  { split; [apply Z.div_pos; lia|]. apply Z.div_lt_upper_bound; lia. }
  assert (2 ^ 32 < 16 ^ 16) by done.
  cbn [app]. rewrite split_on_app, split_on_none.
  - rewrite !from_str_radix_fmt by lia. rewrite lor_shiftl_add by lia. f_equal. lia.
  - eapply Forall_impl; [apply fmt_hex_hex|]. intros. by apply is_hex_not_slash.
  - eapply Forall_impl; [apply fmt_hex_hex|]. intros. by apply is_hex_not_slash.
Qed.

Lemma lsn_from_str_fmt_witness :
  lsn_from_str (lsn_fmt 0x12345678AAAA5555) = inr 0x12345678AAAA5555.
Proof. apply lsn_from_str_fmt. vm_compute. split; congruence. Defined.

Example lsn_from_str_ex : lsn_from_str (str " 0/3C490F8 ") = inr 0x3C490F8.
Proof. vm_compute. reflexivity. Qed.
Example lsn_fmt_ex : lsn_fmt 0x12345678AAAA5555 = str "12345678/AAAA5555".
Proof. vm_compute. reflexivity. Qed.
