(* ===== verification/XlogUtils.v ===== *)
(** * WAL file names and transaction ids ([libs/postgres_ffi/src])

    [xlog_utils.rs]: names of WAL segment files, the position of the first record
    of a page, the next transaction id of a checkpoint; [lib.rs]: the order of
    transaction ids and the LSN of a page; [nonrelfile_utils.rs]: transaction
    status in CLOG pages and the position of multixact members.  A file name that
    is not UTF-8 is refused by the source before the functions below. *)

From S2P Require Import Prelude Lsn.

(** ** Segment files *)

Definition XLOG_FNAME_LEN : nat := 24.

Definition XLogSegmentsPerXLogId (wal_segsz_bytes : Z) : Z := 0x100000000 / wal_segsz_bytes.

(** The product and the sum are on [u64]. *)
Definition XLogSegNoOffsetToRecPtr (segno offset wal_segsz_bytes : Z) : Z :=
  wrap 64 (wrap 64 (segno * wal_segsz_bytes) + offset).

(** [{:>0kX}]: padded with zeros on the left to [k] digits. *)
Definition fmt_hex_pad (k : nat) (n : Z) : list byte :=
  let s := fmt_hex n in replicate (k - length s) Byte.x30 ++ s.

Definition fmt_hex8 (n : Z) : list byte := fmt_hex_pad 8 n.

Definition XLogFileName (tli logSegNo wal_segsz_bytes : Z) : list byte :=
  fmt_hex8 tli
  ++ fmt_hex8 (logSegNo / XLogSegmentsPerXLogId wal_segsz_bytes)
  ++ fmt_hex8 (logSegNo mod XLogSegmentsPerXLogId wal_segsz_bytes).

(** [&s[a..b]]: [None] is the panic on a slice out of range (or, in a name that
    is not ASCII, inside a character). *)
Definition slice (a b : nat) (s : list byte) : option (list byte) :=
  if decide (a <= b <= length s)%nat then Some (take (b - a) (drop a s)) else None.

Inductive name_error : Set := ParseIntError.

(** [u32::from_str_radix(&s[a..b], 16)?]. *)
Definition hex_field (a b : nat) (s : list byte) : outcome name_error Z :=
  match slice a b s with
  | None => Panic
  | Some f => match from_str_radix_16 32 f with Some n => Ok n | None => Err ParseIntError end
  end.

Definition XLogFromFileName (fname : list byte) (wal_seg_size : Z) : outcome name_error (Z * Z) :=
  tli ← hex_field 0 8 fname;
  log ← hex_field 8 16 fname;
  seg ← hex_field 16 24 fname;
  Ok (wrap 64 (wrap 64 (log * XLogSegmentsPerXLogId wal_seg_size) + seg), tli).

Definition IsXLogFileName (fname : list byte) : bool :=
  bool_decide (length fname = XLOG_FNAME_LEN)
  && forallb (fun b => bool_decide (is_Some (hex_digit b))) fname.

Definition partial_suffix : list byte := str ".partial".

Definition IsPartialXLogFileName (fname : list byte) : bool :=
  match strip_prefix (rev partial_suffix) (rev fname) with
  | Some r => IsXLogFileName (rev r)
  | None => false
  end.

(** [normalize_lsn]; the header sizes come from the Postgres bindings. *)
Definition normalize_lsn (short_phd long_phd : Z) (lsn : Lsn) (seg_sz : Z) : option Lsn :=
  if decide (lsn mod XLOG_BLCKSZ = 0) then
    lsn_add lsn (if decide (lsn mod seg_sz = 0) then long_phd else short_phd)
  else Some (align lsn).

(** ** Transaction ids *)

Definition FIRST_NORMAL_TRANSACTION_ID : Z := 3.
Definition XID_CHECKPOINT_INTERVAL : Z := 1024.

Definition transaction_id_is_normal (id : Z) : bool := bool_decide (FIRST_NORMAL_TRANSACTION_ID < id).

Definition transaction_id_precedes (id1 id2 : Z) : bool :=
  if negb (transaction_id_is_normal id1) || negb (transaction_id_is_normal id2)
  then bool_decide (id1 < id2)
  else bool_decide (as_signed 32 (id1 - id2) < 0).

(** The fields of [CheckPoint] that the methods below touch. *)
Record CheckPoint := { nextXid : Z; nextMulti : Z; nextMultiOffset : Z }.

(** [CheckPoint::update_next_xid]. *)
Definition update_next_xid (c : CheckPoint) (xid : Z) : bool * CheckPoint :=
  let new_xid := Z.max (wrap 32 (xid + 1)) FIRST_NORMAL_TRANSACTION_ID in
  let new_xid := Z.ldiff (wrap 32 (new_xid + (XID_CHECKPOINT_INTERVAL - 1))) (XID_CHECKPOINT_INTERVAL - 1) in
  let full_xid := nextXid c in
  let old_xid := wrap 32 full_xid in
  if decide (0 < as_signed 32 (new_xid - old_xid)) then
    let epoch := Z.shiftr full_xid 32 in
    let epoch := if decide (new_xid < old_xid) then wrap 64 (epoch + 1) else epoch in
    let next := Z.lor (wrap 64 (Z.shiftl epoch 32)) new_xid in
    if decide (next <> nextXid c) then
      (true, {| nextXid := next; nextMulti := nextMulti c; nextMultiOffset := nextMultiOffset c |})
    else (false, c)
  else (false, c).

(** [CheckPoint::update_next_multixid]. *)
Definition update_next_multixid (c : CheckPoint) (multi_xid multi_offset : Z) : bool * CheckPoint :=
  let m1 := bool_decide (0 < as_signed 32 (multi_xid - nextMulti c)) in
  let m2 := bool_decide (0 < as_signed 32 (multi_offset - nextMultiOffset c)) in
  (m1 || m2, {| nextXid := nextXid c;
                nextMulti := if m1 then multi_xid else nextMulti c;
                nextMultiOffset := if m2 then multi_offset else nextMultiOffset c |}).

(** ** CLOG pages *)

Definition BLCKSZ : Z := 8192.
Definition CLOG_XACTS_PER_BYTE : Z := 4.
Definition CLOG_XACTS_PER_PAGE : Z := BLCKSZ * CLOG_XACTS_PER_BYTE.
Definition CLOG_BITS_PER_XACT : Z := 2.
Definition CLOG_XACT_BITMASK : Z := 3.
Definition SLRU_PAGES_PER_SEGMENT : Z := 32.

Definition clog_byteno (xid : Z) : nat := Z.to_nat (xid mod CLOG_XACTS_PER_PAGE / CLOG_XACTS_PER_BYTE).
Definition clog_bshift (xid : Z) : Z := xid mod CLOG_XACTS_PER_BYTE * CLOG_BITS_PER_XACT.

(** [page[byteno] = v]; [None] is the panic out of range.  The shifts are on a
    [u8]. *)
Definition transaction_id_set_status (xid status : Z) (page : list byte) : option (list byte) :=
  b ← page !! clog_byteno xid;
  Some (<[clog_byteno xid := Z_byte
           (Z.lor (Z.ldiff (byte_Z b) (wrap 8 (Z.shiftl CLOG_XACT_BITMASK (clog_bshift xid))))
                  (wrap 8 (Z.shiftl status (clog_bshift xid))))]> page).

Definition transaction_id_get_status (xid : Z) (page : list byte) : option Z :=
  b ← page !! clog_byteno xid;
  Some (Z.land (Z.shiftr (byte_Z b) (clog_bshift xid)) CLOG_XACT_BITMASK).

Definition clogpage_precedes (page1 page2 : Z) : bool :=
  let xid1 := wrap 32 (page1 * CLOG_XACTS_PER_PAGE + FIRST_NORMAL_TRANSACTION_ID + 1) in
  let xid2 := wrap 32 (page2 * CLOG_XACTS_PER_PAGE + FIRST_NORMAL_TRANSACTION_ID + 1) in
  transaction_id_precedes xid1 xid2
  && transaction_id_precedes xid1 (wrap 32 (xid2 + CLOG_XACTS_PER_PAGE - 1)).

(** [None] is the assertion that [segpage] starts a segment. *)
Definition slru_may_delete_clogsegment (segpage cutoff_page : Z) : option bool :=
  let seg_last_page := wrap 32 (segpage + SLRU_PAGES_PER_SEGMENT - 1) in
  if decide (segpage mod SLRU_PAGES_PER_SEGMENT = 0) then
    Some (clogpage_precedes segpage cutoff_page && clogpage_precedes seg_last_page cutoff_page)
  else None.

(** ** Multixact member pages *)

Definition MXACT_MEMBER_BITS_PER_XACT : Z := 8.
Definition MXACT_MEMBER_FLAGS_PER_BYTE : Z := 1.
Definition MULTIXACT_FLAGBYTES_PER_GROUP : Z := 4.
Definition MULTIXACT_MEMBERS_PER_MEMBERGROUP : Z := MULTIXACT_FLAGBYTES_PER_GROUP * MXACT_MEMBER_FLAGS_PER_BYTE.
Definition MULTIXACT_MEMBERGROUP_SIZE : Z := 4 * MULTIXACT_MEMBERS_PER_MEMBERGROUP + MULTIXACT_FLAGBYTES_PER_GROUP.
Definition MULTIXACT_MEMBERGROUPS_PER_PAGE : Z := BLCKSZ / MULTIXACT_MEMBERGROUP_SIZE.
Definition MULTIXACT_MEMBERS_PER_PAGE : Z := MULTIXACT_MEMBERGROUPS_PER_PAGE * MULTIXACT_MEMBERS_PER_MEMBERGROUP.

Definition mx_offset_to_flags_offset (xid : Z) : Z :=
  (xid / MULTIXACT_MEMBERS_PER_MEMBERGROUP) mod MULTIXACT_MEMBERGROUPS_PER_PAGE * MULTIXACT_MEMBERGROUP_SIZE.

Definition mx_offset_to_flags_bitshift (xid : Z) : Z :=
  wrap 16 xid mod MULTIXACT_MEMBERS_PER_MEMBERGROUP * MXACT_MEMBER_BITS_PER_XACT.

Definition mx_offset_to_member_offset (xid : Z) : Z :=
  mx_offset_to_flags_offset xid
  + (MULTIXACT_FLAGBYTES_PER_GROUP + wrap 16 xid mod MULTIXACT_MEMBERS_PER_MEMBERGROUP * 4).

Definition mx_offset_to_member_page (xid : Z) : Z := xid / MULTIXACT_MEMBERS_PER_PAGE.

Definition mx_offset_to_member_segment (xid : Z) : Z :=
  as_signed 32 (mx_offset_to_member_page xid / SLRU_PAGES_PER_SEGMENT).

(** ** Pages *)

(** [None] is the panic on a page that is too short. *)
Definition page_get_lsn (pg : list byte) : option Lsn :=
  if decide (8 <= length pg)%nat then
    Some (Z.lor (Z.shiftl (le_Z (take 4 pg)) 32) (le_Z (take 4 (drop 4 pg))))
  else None.

Definition page_set_lsn (pg : list byte) (lsn : Lsn) : option (list byte) :=
  if decide (8 <= length pg)%nat then
    Some (le_bytes 4 (Z.shiftr lsn 32) ++ le_bytes 4 (wrap 32 lsn) ++ drop 8 pg)
  else None.

(** ** File names *)

Lemma hex_digits_zeros w k n s :
  0 < 2 ^ w -> hex_digits w 0 s = Some n -> hex_digits w 0 (replicate k Byte.x30 ++ s) = Some n.
Proof.
  intros Hw Hs. induction k as [|k IH]; [done|]. cbn [replicate app hex_digits].
  change (hex_digit Byte.x30) with (Some 0). cbn [mbind option_bind].
  change (0 * 16 + 0) with 0. rewrite decide_True by done. exact IH.
Qed.

Lemma fmt_hex_aux_length fuel k n acc :
  (1 <= k <= fuel)%nat -> 0 <= n < 16 ^ Z.of_nat k ->
  (length (fmt_hex_aux fuel n acc) <= k + length acc)%nat.
Proof.
  revert fuel n acc. induction k as [|k IH]; intros fuel n acc Hk Hn; [lia|].
  destruct fuel as [|fuel]; [lia|]. cbn [fmt_hex_aux].
  assert (n / 16 < 16 ^ Z.of_nat k).
  { apply Z.div_lt_upper_bound; [lia|]. rewrite <- Z.pow_succ_r by lia. rewrite <- Nat2Z.inj_succ. lia. }
  pose proof (Z.div_pos n 16). case_decide; [simpl; lia|].
  destruct k as [|k]; [simpl in *; lia|].
  specialize (IH fuel (n / 16) (hex_char (n mod 16) :: acc)). simpl length in *. lia.
Qed.

Lemma fmt_hex_pad_spec k w n :
  (1 <= k <= 16)%nat -> 4 * Z.of_nat k <= w -> 0 <= n < 16 ^ Z.of_nat k ->
  length (fmt_hex_pad k n) = k /\ from_str_radix_16 w (fmt_hex_pad k n) = Some n
  /\ Forall is_hex (fmt_hex_pad k n).
Proof.
  intros Hk Hw Hn. unfold fmt_hex_pad.
  assert (16 ^ Z.of_nat k <= 2 ^ w) as Hpw.
  { change 16 with (2 ^ 4). rewrite <- Z.pow_mul_r by lia. apply Z.pow_le_mono_r; lia. }
  assert (16 ^ Z.of_nat k <= 16 ^ 16) by (apply Z.pow_le_mono_r; lia).
  assert (length (fmt_hex n) <= k)%nat as Hlen.
  { unfold fmt_hex. pose proof (fmt_hex_aux_length 16 k n []). simpl length in *. lia. }
  assert (Forall is_hex (replicate (k - length (fmt_hex n)) Byte.x30 ++ fmt_hex n)) as Hhex.
  { apply Forall_app. split; [apply Forall_replicate; by exists 0|apply fmt_hex_hex]. }
  split_and!; [rewrite length_app, length_replicate; lia| |done].
  pose proof (from_str_radix_fmt w n ltac:(lia) ltac:(lia)) as Hf.
  assert (hex_digits w 0 (fmt_hex n) = Some n) as Hd.
  { unfold from_str_radix_16 in Hf. pose proof (fmt_hex_hex n) as Hx.
    destruct (fmt_hex n) as [|b s]; [done|]. apply Forall_cons in Hx as [Hb _].
    by rewrite decide_False in Hf by by apply is_hex_not_plus. }
  apply (hex_digits_zeros w (k - length (fmt_hex n))) in Hd; [|lia].
  unfold from_str_radix_16. destruct (replicate _ _ ++ _) as [|b s] eqn:E.
  { apply (f_equal length) in E. rewrite length_app, length_replicate in E. simpl in E.
    pose proof (fmt_hex_nonempty n). destruct (fmt_hex n); simpl in *; lia || done. }
  apply Forall_cons in Hhex as [Hb _]. by rewrite decide_False by by apply is_hex_not_plus.
Qed.

Lemma fmt_hex8_spec n :
  in_u 32 n -> length (fmt_hex8 n) = 8%nat /\ from_str_radix_16 32 (fmt_hex8 n) = Some n
  /\ Forall is_hex (fmt_hex8 n).
Proof. intros Hn. by apply fmt_hex_pad_spec; [lia|lia|]. Qed.

Lemma slice_app_l (s1 s2 : list byte) n : length s1 = n -> slice 0 n (s1 ++ s2) = Some s1.
Proof.
  intros <-. unfold slice. rewrite decide_True by (rewrite length_app; lia).
  by rewrite Nat.sub_0_r, drop_0, take_app_length.
Qed.

Lemma slice_skip (s1 s2 : list byte) a b :
  (length s1 <= a <= b)%nat -> slice a b (s1 ++ s2) = slice (a - length s1) (b - length s1) s2.
Proof.
  intros Ha. unfold slice. rewrite length_app. repeat case_decide; try done; try lia.
  f_equal. rewrite drop_app_ge by lia. f_equal. lia.
Qed.

Lemma strip_prefix_app p s : strip_prefix p (p ++ s) = Some s.
Proof. induction p as [|b p IH]; [done|]. simpl. by rewrite decide_True. Qed.

Lemma is_xlog_hex name : Forall is_hex name -> length name = 24%nat -> IsXLogFileName name = true.
Proof.
  intros Hx Hl. unfold IsXLogFileName. rewrite Hl. simpl. apply forallb_forall. intros b Hb.
  apply bool_decide_eq_true. rewrite Forall_forall in Hx. by apply Hx, list_elem_of_In.
Qed.

(** The suffix ends in a letter that is no digit. *)
Lemma hex_not_partial name : Forall is_hex name -> IsPartialXLogFileName name = false.
Proof.
  intros Hx%Forall_rev. unfold IsPartialXLogFileName.
  destruct (rev name) as [|b r]; [done|]. apply Forall_cons in Hx as [[d Hb] _].
  by destruct b; try discriminate Hb.
Qed.

(** The segment sizes Postgres allows: powers of two from 1 MB to 1 GB. *)
Definition seg_size_ok (seg : Z) : Prop := exists k, 20 <= k <= 30 /\ seg = 2 ^ k.

(** A segment's file name is recognised and parses back to the segment number
    and timeline, for every segment of the 64-bit LSN space; and the [.partial]
    name is recognised as such and never as a full segment. *)
Theorem xlog_file_name_round_trip (tli segno seg : Z) :
  in_u 32 tli -> seg_size_ok seg -> 0 <= segno * seg <= u64_max ->
  let name := XLogFileName tli segno seg in
  XLogFromFileName name seg = Ok (segno, tli)
  /\ IsXLogFileName name = true /\ IsPartialXLogFileName name = false
  /\ IsPartialXLogFileName (name ++ partial_suffix) = true
  /\ IsXLogFileName (name ++ partial_suffix) = false
  /\ XLogFromFileName (name ++ partial_suffix) seg = Ok (segno, tli).
Proof.
  intros Ht (k & Hk & ->) Hs name. set (p := XLogSegmentsPerXLogId (2 ^ k)).
  assert (p = 2 ^ (32 - k)) as Hp.
  { subst p. unfold XLogSegmentsPerXLogId. change 0x100000000 with (2 ^ 32).
    rewrite <- Z.pow_sub_r by lia. done. }
  assert (0 < p) by (rewrite Hp; apply Z.pow_pos_nonneg; lia).
  assert (p * 2 ^ k = 2 ^ 32) as Hpk by (rewrite Hp, <- Z.pow_add_r by lia; f_equal; lia).
  assert (0 < 2 ^ k) by (apply Z.pow_pos_nonneg; lia).
  assert (p <= 2 ^ 32) by nia.
  pose proof (Z.mod_pos_bound segno p ltac:(lia)) as Hm. pose proof (Z.div_mod segno p ltac:(lia)) as Hd.
  assert (0 <= segno < 2 ^ 64 /\ segno mod p <= segno) as [Hs64 Hle].
  { unfold u64_max in *. assert (0 <= segno < 2 ^ 64) by nia. split; [done|]. apply Z.mod_le; lia. }
  assert (in_u 32 (segno / p)) as Hlog.
  { unfold in_u, u64_max in *. assert (0 <= segno) by nia. split; [apply Z.div_pos; lia|].
    apply Z.div_lt_upper_bound; [lia|]. assert (segno * 2 ^ k < 2 ^ 32 * (p * 2 ^ k)); nia. }
  assert (in_u 32 (segno mod p)) as Hseg by (unfold in_u; lia).
  destruct (fmt_hex8_spec _ Ht) as (L1 & P1 & X1), (fmt_hex8_spec _ Hlog) as (L2 & P2 & X2),
    (fmt_hex8_spec _ Hseg) as (L3 & P3 & X3).
  assert (forall rest, XLogFromFileName (name ++ rest) (2 ^ k) = Ok (segno, tli)) as Hfrom.
  { intros rest. subst name. unfold XLogFromFileName, XLogFileName, hex_field. fold p.
    rewrite <- !app_assoc. rewrite slice_app_l, P1 by done. cbn [mbind outcome_bind].
    rewrite (slice_skip _ _ 8 16), L1 by lia. cbn [Nat.sub]. rewrite slice_app_l, P2 by done. cbn [mbind outcome_bind].
    rewrite slice_skip, L1 by lia. cbn [Nat.sub]. rewrite slice_skip, L2 by lia. cbn [Nat.sub].
    rewrite slice_app_l, P3 by done. cbn [mbind outcome_bind].
    assert (segno / p * p = segno - segno mod p) as -> by lia.
    rewrite (wrap_small 64 (segno - _)) by (unfold in_u; lia). rewrite wrap_small by (unfold in_u; lia). do 2 f_equal. lia. }
  assert (Forall is_hex name /\ length name = 24%nat) as [Hx Hl].
  { subst name. unfold XLogFileName. fold p. rewrite !Forall_app, !length_app, L1, L2, L3. done. }
  split_and!; [by rewrite <- (Hfrom []), app_nil_r| | | | |apply Hfrom]; clearbody name.
  - by apply is_xlog_hex.
  - by apply hex_not_partial.
  - unfold IsPartialXLogFileName. rewrite rev_app_distr, strip_prefix_app, rev_involutive. by apply is_xlog_hex.
  - unfold IsXLogFileName. rewrite length_app, Hl. done.
Qed.

Lemma xlog_file_name_round_trip_witness :
  XLogFileName 1 0x1234567 (2 ^ 24) = str "000000010001234500000067"
  /\ XLogFromFileName (str "000000010001234500000067") (2 ^ 24) = Ok (0x1234567, 1).
Proof.
  split; [vm_compute; reflexivity|].
  apply (xlog_file_name_round_trip 1 0x1234567 (2 ^ 24)).
  - vm_compute. split; [discriminate|reflexivity].
  - exists 24. split; [lia|reflexivity].
  - vm_compute. split; discriminate.
Defined.

(** ** The next transaction id *)

(** The 64-bit transaction id that the rounded [new_xid] stands for. *)
Definition full_next (x : Z) : Z :=
  let y := (x + 1) mod 2 ^ 32 in
  x + 1 - y + (Z.max y 3 + 1023) / 1024 * 1024.

Lemma full_next_bounds x : x < full_next x <= x + 1025.
Proof.
  unfold full_next. pose proof (Z.mod_pos_bound (x + 1) (2 ^ 32)). set (y := (x + 1) mod 2 ^ 32) in *.
  pose proof (Z.div_mod (Z.max y 3 + 1023) 1024). pose proof (Z.mod_pos_bound (Z.max y 3 + 1023) 1024).
  destruct (decide (y <= 2)); [|lia]. rewrite Z.max_r by lia. change ((3 + 1023) / 1024) with 1. lia.
Qed.

Lemma new_xid_spec x :
  0 <= x ->
  Z.ldiff (wrap 32 (Z.max (wrap 32 (wrap 32 x + 1)) 3 + (1024 - 1))) (1024 - 1) = full_next x mod 2 ^ 32.
Proof.
  intros Hx. unfold wrap, full_next. rewrite Zplus_mod_idemp_l.
  pose proof (Z.mod_pos_bound (x + 1) (2 ^ 32)). pose proof (Z.div_mod (x + 1) (2 ^ 32)).
  set (y := (x + 1) mod 2 ^ 32) in *. set (m := Z.max y 3).
  change (1024 - 1) with (Z.ones 10) at 2. rewrite ldiff_ones_round by lia. change (2 ^ 10) with 1024.
  replace (x + 1 - y + _) with ((m + 1023) / 1024 * 1024 + (x + 1) / 2 ^ 32 * 2 ^ 32) by (unfold m; lia).
  rewrite Z.mod_add by lia. change (1024 - 1) with 1023.
  pose proof (Z.div_mod (m + 1023) 1024). pose proof (Z.mod_pos_bound (m + 1023) 1024).
  destruct (decide (m + 1023 < 2 ^ 32)).
  - rewrite (Z.mod_small (m + 1023) (2 ^ 32)) by lia.
    rewrite (Z.mod_small ((m + 1023) / 1024 * 1024)) by lia. lia.
  - replace ((m + 1023) mod 2 ^ 32) with (m + 1023 - 2 ^ 32)
      by (apply (Z.mod_unique_pos _ _ 1); lia).
    assert (m + 1023 - 2 ^ 32 < 1024) by lia. rewrite (Z.mod_small _ 1024) by lia.
    replace ((m + 1023) / 1024 * 1024) with (2 ^ 32); [rewrite Z.mod_same; lia|].
    assert ((m + 1023) / 1024 = 4194304) as ->; [|lia]. symmetry.
    apply (Z.div_unique_pos _ _ _ (m + 1023 - 2 ^ 32)); lia.
Qed.

(** The signed difference of two ids that are less than 2^31 apart. *)
Lemma as_signed_diff g n :
  - 2 ^ 31 <= g - n < 2 ^ 31 -> as_signed 32 (g mod 2 ^ 32 - n mod 2 ^ 32) = g - n.
Proof.
  intros Hd. unfold as_signed, wrap. rewrite <- Zminus_mod. change (32 - 1) with 31. case_decide as H.
  - destruct (decide (0 <= g - n)); [by rewrite Z.mod_small by lia|].
    rewrite <- (Z.mod_add _ 1), Z.mod_small in H by lia. lia.
  - destruct (decide (0 <= g - n)); [rewrite Z.mod_small in H by lia; lia|].
    rewrite <- (Z.mod_add _ 1), Z.mod_small by lia. lia.
Qed.

(** Rebuilding a 64-bit id from the epoch of a lower one. *)
Lemma rebuild_full g n :
  0 <= n < 2 ^ 63 -> n < g < n + 2 ^ 31 ->
  Z.lor (wrap 64 (Z.shiftl (if decide (g mod 2 ^ 32 < n mod 2 ^ 32) then wrap 64 (Z.shiftr n 32 + 1)
                            else Z.shiftr n 32) 32)) (g mod 2 ^ 32) = g.
Proof.
  intros Hn Hg. rewrite Z.shiftr_div_pow2 by lia.
  pose proof (Z.div_mod n (2 ^ 32)). pose proof (Z.mod_pos_bound n (2 ^ 32)).
  pose proof (Z.div_mod g (2 ^ 32)). pose proof (Z.mod_pos_bound g (2 ^ 32)).
  assert (0 <= n / 2 ^ 32) by (apply Z.div_pos; lia).
  assert (g / 2 ^ 32 = if decide (g mod 2 ^ 32 < n mod 2 ^ 32) then n / 2 ^ 32 + 1 else n / 2 ^ 32) as E
    by (case_decide; lia).
  replace (if decide _ then wrap 64 _ else _) with (g / 2 ^ 32).
  - rewrite wrap_small; [|unfold in_u; rewrite Z.shiftl_mul_pow2 by lia; lia].
    rewrite lor_shiftl_add by lia. lia.
  - rewrite E. case_decide; [|done]. by rewrite wrap_small by (unfold in_u; lia).
Qed.

(** [update_next_xid] keeps [nextXid] ahead of every transaction id seen, over
    32-bit wraparound.  For a 64-bit transaction id [x] within 2^31 of [nextXid]
    (less a margin for rounding) of which the WAL only has the low 32 bits, the
    new [nextXid] is above [x] and not below the old one, overshoots [x] by at
    most 1025, and the result says whether it changed. *)
Theorem update_next_xid_ahead (c : CheckPoint) (x : Z) :
  0 <= x -> 0 <= nextXid c < 2 ^ 63 -> - 2 ^ 31 < x - nextXid c < 2 ^ 31 - 1025 ->
  let '(changed, c') := update_next_xid c (wrap 32 x) in
  x < nextXid c' /\ nextXid c <= nextXid c' <= Z.max (nextXid c) (x + 1025)
  /\ (changed = true <-> nextXid c' <> nextXid c).
Proof.
  intros Hx Hn Hd. unfold update_next_xid, XID_CHECKPOINT_INTERVAL, FIRST_NORMAL_TRANSACTION_ID.
  pose proof (full_next_bounds x) as Hb. rewrite new_xid_spec by done.
  change (wrap 32 (nextXid c)) with (nextXid c mod 2 ^ 32). rewrite as_signed_diff by lia.
  case_decide as H1; [|split_and!; [lia..|]; split; [done|lia]].
  rewrite rebuild_full by lia. rewrite decide_True by lia. simpl. split_and!; [lia..|]. split; [lia|done].
Qed.

(** The id is past the wraparound, [nextXid] is not. *)
Lemma update_next_xid_ahead_witness :
  2 ^ 32 + 7 < nextXid (update_next_xid {| nextXid := 2 ^ 32 - 5; nextMulti := 0; nextMultiOffset := 0 |}
                          (wrap 32 (2 ^ 32 + 7))).2.
Proof.
  pose proof (update_next_xid_ahead {| nextXid := 2 ^ 32 - 5; nextMulti := 0; nextMultiOffset := 0 |}
    (2 ^ 32 + 7) ltac:(lia) ltac:(simpl; lia) ltac:(simpl; lia)) as H.
  destruct (update_next_xid _ _) as [changed c']. exact (proj1 H).
Defined.

(** ** Transaction status *)

(** A transaction is given by its byte and its shift. *)
Lemma clog_position xid :
  0 <= xid ->
  2 * (xid mod CLOG_XACTS_PER_PAGE) = 8 * Z.of_nat (clog_byteno xid) + clog_bshift xid
  /\ (clog_bshift xid = 0 \/ clog_bshift xid = 2 \/ clog_bshift xid = 4 \/ clog_bshift xid = 6).
Proof.
  intros Hx. unfold clog_byteno, clog_bshift, CLOG_XACTS_PER_PAGE, CLOG_XACTS_PER_BYTE, CLOG_BITS_PER_XACT, BLCKSZ.
  rewrite Z2Nat.id by (apply Z.div_pos; [apply Z.mod_pos_bound|]; lia).
  pose proof (Z.mod_pos_bound xid 4). split; [|lia].
  replace (xid mod 4) with (xid mod (8192 * 4) mod 4);
    [pose proof (Z.div_mod (xid mod (8192 * 4)) 4); lia|].
  symmetry. apply Znumtheory.Zmod_div_mod; [lia..|]. by exists 8192.
Qed.

(** Two bits of a byte, changed at one shift and read at another. *)
Definition clog_bits_ok (b : byte) (status k k' : Z) : bool :=
  bool_decide
    (Z.land (Z.shiftr (byte_Z (Z_byte (Z.lor (Z.ldiff (byte_Z b) (wrap 8 (Z.shiftl CLOG_XACT_BITMASK k)))
       (wrap 8 (Z.shiftl status k))))) k') CLOG_XACT_BITMASK
     = if decide (k' = k) then status else Z.land (Z.shiftr (byte_Z b) k') CLOG_XACT_BITMASK).

Lemma clog_bits_all :
  forallb (fun b => forallb (fun s => forallb (fun k => forallb (clog_bits_ok (Z_byte b) s k)
    [0; 2; 4; 6]) [0; 2; 4; 6]) [0; 1; 2; 3]) (seqZ 0 256) = true.
Proof. vm_compute. reflexivity. Qed.

Lemma clog_bits b status k k' :
  0 <= status <= 3 -> (k = 0 \/ k = 2 \/ k = 4 \/ k = 6) -> (k' = 0 \/ k' = 2 \/ k' = 4 \/ k' = 6) ->
  clog_bits_ok b status k k' = true.
Proof.
  intros Hs Hk Hk'. pose proof clog_bits_all as H. rewrite <- (Z_byte_byte_Z b).
  rewrite forallb_forall in H. specialize (H (byte_Z b)).
  rewrite <- list_elem_of_In, elem_of_seqZ in H. specialize (H ltac:(pose proof (byte_Z_bound b); lia)).
  rewrite forallb_forall in H. specialize (H status ltac:(simpl; lia)).
  rewrite forallb_forall in H. specialize (H k ltac:(simpl; lia)).
  rewrite forallb_forall in H. exact (H k' ltac:(simpl; lia)).
Qed.

(** The status of a transaction reads back as it was set, and setting it
    leaves the status of every other transaction of the page. *)
Theorem clog_set_get xid xid' status page page' :
  0 <= xid -> 0 <= xid' -> 0 <= status <= 3 -> transaction_id_set_status xid status page = Some page' ->
  transaction_id_get_status xid' page' =
    if decide (xid' mod CLOG_XACTS_PER_PAGE = xid mod CLOG_XACTS_PER_PAGE) then Some status
    else transaction_id_get_status xid' page.
Proof.
  intros Hx Hx' Hs. unfold transaction_id_set_status, transaction_id_get_status.
  destruct (page !! clog_byteno xid) as [b|] eqn:Eb; [|done]. intros [= <-].
  destruct (clog_position xid Hx) as [H1 H2], (clog_position xid' Hx') as [H1' H2'].
  destruct (decide (clog_byteno xid' = clog_byteno xid)) as [E|Hne].
  - rewrite E, list_lookup_insert_eq, Eb by (by eapply lookup_lt_Some). cbn [mbind option_bind]. pose proof (clog_bits b status _ _ Hs H2 H2') as Hbits. apply bool_decide_eq_true in Hbits.
    rewrite Hbits. rewrite E in H1'. repeat case_decide; try done; exfalso; lia.
  - rewrite list_lookup_insert_ne by done. case_decide as E; [|done].
    exfalso. apply Hne. unfold clog_byteno. by rewrite E.
Qed.

Lemma clog_set_get_witness :
  exists page', transaction_id_set_status 5 2 (replicate 8192 Byte.x55) = Some page'
    /\ transaction_id_get_status 5 page' = Some 2 /\ transaction_id_get_status 6 page' = Some 1.
Proof.
  eexists. split; [vm_compute; reflexivity|]. split.
  - rewrite (clog_set_get 5 5 2 (replicate 8192 Byte.x55)); [reflexivity|lia..|vm_compute; reflexivity].
  - rewrite (clog_set_get 5 6 2 (replicate 8192 Byte.x55)); [reflexivity|lia..|vm_compute; reflexivity].
Defined.

(** ** Order of transaction ids *)

(** The first normal transaction id is not treated as normal.  Ids 4 and up
    are ordered modulo 2^32, so that an id shortly before the wraparound precedes
    one shortly after it; id 3 is compared as a plain number and is found before
    every other. *)
Theorem transaction_id_3_not_normal (id : Z) :
  2 ^ 31 + 4 <= id < 2 ^ 32 -> transaction_id_precedes id 3 = false /\ transaction_id_precedes id 4 = true.
Proof.
  intros Hid. unfold transaction_id_precedes, transaction_id_is_normal, FIRST_NORMAL_TRANSACTION_ID.
  rewrite (bool_decide_true (3 < id)) by lia. split.
  - rewrite (bool_decide_false (3 < 3)) by lia. simpl. rewrite bool_decide_false by lia. done.
  - simpl. apply bool_decide_true. unfold as_signed, wrap. rewrite Z.mod_small by lia. case_decide; lia.
Qed.

Lemma transaction_id_3_not_normal_witness :
  transaction_id_precedes (2 ^ 32 - 1) 3 = false /\ transaction_id_precedes (2 ^ 32 - 1) 4 = true.
Proof. apply (transaction_id_3_not_normal (2 ^ 32 - 1)). lia. Defined.

(** ** Page LSNs *)

(** The LSN stored in a page header reads back, and the rest of the page
    stays. *)
Theorem page_lsn_round_trip pg lsn :
  in_u 64 lsn -> (8 <= length pg)%nat ->
  exists pg', page_set_lsn pg lsn = Some pg' /\ page_get_lsn pg' = Some lsn
    /\ length pg' = length pg /\ drop 8 pg' = drop 8 pg.
Proof.
  intros Hl Hlen. unfold page_set_lsn. rewrite decide_True by done. eexists. split; [reflexivity|].
  unfold page_get_lsn. rewrite !length_app, !length_le_bytes, length_drop.
  rewrite decide_True by lia. split_and!; [|lia|].
  - rewrite (take_app_length' _ _ 4), (drop_app_length' _ _ 4) by (by rewrite length_le_bytes).
    rewrite (take_app_length' _ _ 4) by (by rewrite length_le_bytes).
    rewrite !le_Z_le_bytes. change (8 * Z.of_nat 4) with 32. unfold wrap. rewrite Z.mod_mod by lia.
    unfold in_u in Hl. rewrite Z.shiftr_div_pow2 by lia.
    assert (0 <= lsn / 2 ^ 32 < 2 ^ 32).
    { split; [apply Z.div_pos; lia|apply Z.div_lt_upper_bound; lia]. }
    rewrite (Z.mod_small (lsn / 2 ^ 32)) by lia. rewrite lor_shiftl_add; [|lia|apply Z.mod_pos_bound; lia].
    f_equal. pose proof (Z.div_mod lsn (2 ^ 32)). lia.
  - rewrite app_assoc. rewrite drop_app_length'; [done|]. by rewrite length_app, !length_le_bytes.
Qed.

Lemma page_lsn_round_trip_witness :
  exists pg', page_set_lsn (replicate 16 Byte.xff) 0x123456789abcdef0 = Some pg'
    /\ page_get_lsn pg' = Some 0x123456789abcdef0.
Proof.
  destruct (page_lsn_round_trip (replicate 16 Byte.xff) 0x123456789abcdef0) as (pg' & H1 & H2 & _).
  - vm_compute. split; [discriminate|reflexivity].
  - vm_compute. lia.
  - exists pg'. split; assumption.
Defined.

(** ** Multixact members *)

(** The position of a member by its group and its place in the group. *)
Lemma mx_member_position x :
  0 <= x ->
  let g := x / 4 mod 409 in let k := x mod 4 in
  0 <= g < 409 /\ 0 <= k < 4 /\ x = 1636 * mx_offset_to_member_page x + 4 * g + k
  /\ mx_offset_to_flags_offset x = 20 * g /\ mx_offset_to_member_offset x = 20 * g + 4 + 4 * k
  /\ mx_offset_to_flags_bitshift x = 8 * k.
Proof.
  intros Hx g k. unfold mx_offset_to_member_offset, mx_offset_to_flags_bitshift, wrap.
  rewrite Z.mod_mod_divide by (by exists (2 ^ 14)).
  unfold mx_offset_to_member_page, mx_offset_to_flags_offset.
  change MULTIXACT_MEMBERS_PER_PAGE with (4 * 409). change MULTIXACT_MEMBERS_PER_MEMBERGROUP with 4.
  change MULTIXACT_MEMBERGROUPS_PER_PAGE with 409. change MULTIXACT_MEMBERGROUP_SIZE with 20.
  change MULTIXACT_FLAGBYTES_PER_GROUP with 4. change MXACT_MEMBER_BITS_PER_XACT with 8.
  fold g k. pose proof (Z.mod_pos_bound (x / 4) 409 ltac:(lia)). pose proof (Z.mod_pos_bound x 4 ltac:(lia)).
  pose proof (Z.div_mod x 4). pose proof (Z.div_mod (x / 4) 409). rewrite <- Z.div_div by lia.
  unfold g, k. lia.
Qed.

(** On a member page every member has four bytes and eight flag bits of its
    own: the slots lie within the page, two members do not share one, and no
    member slot overlaps a flag slot. *)
Theorem mx_member_slots_disjoint x y :
  0 <= x -> 0 <= y -> mx_offset_to_member_page x = mx_offset_to_member_page y ->
  0 <= mx_offset_to_flags_offset x /\ mx_offset_to_member_offset x + 4 <= BLCKSZ
  /\ (mx_offset_to_member_offset y + 4 <= mx_offset_to_flags_offset x
      \/ mx_offset_to_flags_offset x + 4 <= mx_offset_to_member_offset y)
  /\ (x <> y ->
      Z.abs (mx_offset_to_member_offset x - mx_offset_to_member_offset y) >= 4
      /\ Z.abs (8 * mx_offset_to_flags_offset x + mx_offset_to_flags_bitshift x
                - (8 * mx_offset_to_flags_offset y + mx_offset_to_flags_bitshift y)) >= 8).
Proof.
  intros Hx Hy Hp. destruct (mx_member_position x Hx) as (? & ? & ? & -> & -> & ->).
  destruct (mx_member_position y Hy) as (? & ? & ? & -> & -> & ->). unfold BLCKSZ. lia.
Qed.

Lemma mx_member_slots_disjoint_witness :
  mx_offset_to_member_offset 123456789 + 4 <= BLCKSZ
  /\ Z.abs (mx_offset_to_member_offset 123456789 - mx_offset_to_member_offset 123456790) >= 4.
Proof.
  destruct (mx_member_slots_disjoint 123456789 123456790) as (_ & H1 & _ & H2); [lia|lia|reflexivity|].
  split; [exact H1|apply H2; lia].
Defined.
