(* ===== verification/TermHistory.v ===== *)
(** * Term histories ([safekeeper/src/safekeeper.rs], [TermHistory])

    The safekeeper does not stamp WAL records with the term they were written
    in; it keeps the list of switches [(term, start LSN)].  This file has the
    operations on such histories, and shows that
    [find_highest_common_point] finds the first position at which the WAL of the
    safekeeper and the WAL of the proposer differ. *)

From S2P Require Import Prelude Lsn.

Abbreviation Term := Z (only parsing).
Definition INITIAL_TERM : Term := 0.

Record TermLsn := { tl_term : Term; tl_lsn : Lsn }.

#[global] Instance TermLsn_eq_dec : EqDecision TermLsn.
Proof. solve_decision. Defined.

Abbreviation TermHistory := (list TermLsn) (only parsing).

(** [TermHistory::up_to]: the loop breaks at the first switch after [lim]. *)
Fixpoint up_to (self : TermHistory) (lim : Lsn) : TermHistory :=
  match self with
  | [] => []
  | e :: rest => if decide (lim < tl_lsn e) then [] else e :: up_to rest lim
  end.

(** The loop of [find_highest_common_point] over the two histories: [i] is the
    index, [idx] is [last_common_idx]; [Panic] is the assertion that equal terms
    start at equal LSNs. *)
Fixpoint last_common_idx {E} (i : nat) (prop_th sk_th : TermHistory) (idx : option nat) :
    outcome E (option nat) :=
  match prop_th, sk_th with
  | p :: prop_th, s :: sk_th =>
      if decide (tl_term p = tl_term s) then
        if decide (tl_lsn p = tl_lsn s) then last_common_idx (S i) prop_th sk_th (Some i)
        else Panic
      else Ok idx
  | _, _ => Ok idx
  end.

Definition find_highest_common_point {E} (prop_th sk_th : TermHistory) (sk_wal_end : Lsn) :
    outcome E (option TermLsn) :=
  if match last sk_th with Some e => bool_decide (tl_lsn e <= sk_wal_end) | None => true end
  then
    idx ← last_common_idx 0 prop_th sk_th None;
    match idx with
    | None => Ok None
    | Some i =>
        match prop_th !! i with
        | None => Panic
        | Some e =>
            if decide (i = pred (length prop_th)) then
              Ok (Some {| tl_term := tl_term e; tl_lsn := sk_wal_end |})
            else
              match prop_th !! S i with
              | None => Panic
              | Some next =>
                  let prop_common_term_end := tl_lsn next in
                  let sk_common_term_end :=
                    match sk_th !! S i with Some e => tl_lsn e | None => sk_wal_end end in
                  Ok (Some {| tl_term := tl_term e;
                              tl_lsn := Z.min prop_common_term_end sk_common_term_end |})
              end
        end
    end
  else Panic.

(** Persistent consensus state of the acceptor. *)
Record AcceptorState := { term : Term; term_history : TermHistory }.

#[global] Instance AcceptorState_eq_dec : EqDecision AcceptorState.
Proof. solve_decision. Defined.

(** [AcceptorState::get_last_log_term]. *)
Definition last_log_term (self : AcceptorState) (flush_lsn : Lsn) : Term :=
  match last (up_to (term_history self) flush_lsn) with
  | Some e => tl_term e
  | None => 0
  end.

(** ** Well-formed histories *)

Definition th_lt (e1 e2 : TermLsn) : Prop := tl_term e1 < tl_term e2 /\ tl_lsn e1 <= tl_lsn e2.

(** Terms strictly increase, their starting points do not decrease. *)
Definition th_wf (th : TermHistory) : Prop := StronglySorted th_lt th.

(** Log matching: a term that occurs in both histories is reached through the
    same switches. *)
Definition histories_match (th1 th2 : TermHistory) : Prop :=
  forall i j e1 e2, th1 !! i = Some e1 -> th2 !! j = Some e2 ->
    tl_term e1 = tl_term e2 -> take (S i) th1 = take (S j) th2.

(** The term of the WAL byte at position [pos]. *)
Definition term_at (th : TermHistory) (pos : Lsn) : option Term :=
  tl_term <$> last (up_to th pos).

Lemma up_to_app_all th1 th2 lim :
  Forall (fun e => tl_lsn e <= lim) th1 -> up_to (th1 ++ th2) lim = th1 ++ up_to th2 lim.
Proof.
  induction 1 as [|e th1 He _ IH]; [done|]. simpl. rewrite decide_False by lia. by rewrite IH.
Qed.

Lemma up_to_app_stop th1 e th2 lim :
  lim < tl_lsn e -> up_to (th1 ++ e :: th2) lim = up_to th1 lim.
Proof.
  intros H. induction th1 as [|e' th1 IH]; simpl.
  - by rewrite decide_True.
  - case_decide; [done|]. by rewrite IH.
Qed.

Lemma up_to_prefix th lim : up_to th lim `prefix_of` th.
Proof.
  induction th as [|e th IH]; simpl; [done|]. case_decide.
  - apply prefix_nil.
  - by apply prefix_cons.
Qed.

Lemma up_to_incl th lim e : e ∈ up_to th lim -> e ∈ th /\ tl_lsn e <= lim.
Proof.
  induction th as [|e' th IH]; simpl; [by intros ?%not_elem_of_nil|].
  case_decide; [by intros ?%not_elem_of_nil|].
  rewrite !elem_of_cons. intros [->|?]; [split; [by left|lia]|]. tauto.
Qed.

Lemma th_wf_up_to th lim : th_wf th -> th_wf (up_to th lim).
Proof.
  intros H. destruct (up_to_prefix th lim) as [k Hk]. rewrite Hk in H.
  by apply StronglySorted_app_inv in H as [??].
Qed.

Lemma up_to_all th lim : Forall (fun e => tl_lsn e <= lim) th -> up_to th lim = th.
Proof. intros H. rewrite <- (app_nil_r th) at 1. rewrite up_to_app_all by done. apply app_nil_r. Qed.

Lemma up_to_idemp th l1 l2 : up_to (up_to th l1) l2 = up_to th (Z.min l1 l2).
Proof.
  induction th as [|e th IH]; simpl; [done|].
  destruct (decide (l1 < tl_lsn e)); simpl.
  - by rewrite decide_True by lia.
  - destruct (decide (l2 < tl_lsn e)).
    + by rewrite decide_True by lia.
    + rewrite decide_False by lia. by rewrite IH.
Qed.

(** ** The highest common point *)

(** The two histories split into a common part and tails that start with
    different terms. *)
Definition diverge (p s : TermHistory) : Prop :=
  match p, s with
  | a :: _, b :: _ => tl_term a <> tl_term b
  | _, _ => True
  end.

Lemma last_common_idx_split {E} prop_th sk_th i idx :
  (forall k e1 e2, prop_th !! k = Some e1 -> sk_th !! k = Some e2 ->
     tl_term e1 = tl_term e2 -> tl_lsn e1 = tl_lsn e2) ->
  exists c p s,
    prop_th = c ++ p /\ sk_th = c ++ s /\ diverge p s /\
    @last_common_idx E i prop_th sk_th idx =
      Ok (match length c with O => idx | S n => Some (i + n)%nat end).
Proof.
  revert sk_th i idx; induction prop_th as [|e1 prop_th IH]; intros sk_th i idx H.
  { exists [], [], sk_th. done. }
  destruct sk_th as [|e2 sk_th]; [exists [], (e1 :: prop_th), []; done|].
  simpl. case_decide as Ht.
  - assert (tl_lsn e1 = tl_lsn e2) as Hl by (by apply (H 0%nat)).
    rewrite decide_True by done.
    destruct (IH sk_th (S i) (Some i)) as (c & p & s & -> & -> & Hd & ->).
    { intros k. apply (H (S k)). }
    exists (e1 :: c), p, s. split_and!; [done| |done|].
    + destruct e1, e2; simpl in *; subst. done.
    + simpl. destruct (length c) as [|n]; [by rewrite Nat.add_0_r|].
      by rewrite Nat.add_succ_r.
  - exists [], (e1 :: prop_th), (e2 :: sk_th). done.
Qed.

Lemma histories_match_lsn th1 th2 k e1 e2 :
  histories_match th1 th2 -> th1 !! k = Some e1 -> th2 !! k = Some e2 ->
  tl_term e1 = tl_term e2 -> tl_lsn e1 = tl_lsn e2.
Proof.
  intros Hm H1 H2 Ht. pose proof (Hm k k e1 e2 H1 H2 Ht) as Heq.
  assert (take (S k) th1 !! k = Some e1) as E1 by (rewrite lookup_take; by case_decide; [|lia]).
  assert (take (S k) th2 !! k = Some e2) as E2 by (rewrite lookup_take; by case_decide; [|lia]).
  congruence.
Qed.

(** No term of the safekeeper's tail occurs in the proposer's tail. *)
Lemma histories_match_tails c a p b s e e' :
  histories_match (c ++ a :: p) (c ++ b :: s) -> tl_term a <> tl_term b ->
  e ∈ a :: p -> e' ∈ b :: s -> tl_term e <> tl_term e'.
Proof.
  intros Hm Hne [i Hi]%list_elem_of_lookup [j Hj]%list_elem_of_lookup Ht.
  pose proof (Hm (length c + i)%nat (length c + j)%nat e e') as H.
  rewrite !lookup_app_r in H by lia.
  replace (length c + i - length c)%nat with i in H by lia.
  replace (length c + j - length c)%nat with j in H by lia.
  specialize (H Hi Hj Ht).
  apply (f_equal (fun l => l !! length c)) in H.
  rewrite !lookup_take in H. repeat (case_decide; [|lia]).
  rewrite !lookup_app_r, !Nat.sub_diag in H by lia. simpl in H. congruence.
Qed.

Lemma last_up_to_elem th pos e : last (up_to th pos) = Some e -> e ∈ th.
Proof.
  intros H. apply (up_to_incl th pos). rewrite last_lookup in H.
  by eapply list_elem_of_lookup_2.
Qed.

(** The last switch up to [pos] of a history whose tail starts by [pos] lies in
    that tail. *)
Lemma last_up_to_tail c a p pos :
  th_wf (c ++ a :: p) -> tl_lsn a <= pos ->
  exists e, e ∈ a :: p /\ last (up_to (c ++ a :: p) pos) = Some e.
Proof.
  intros [Hc _]%StronglySorted_app_cons_inv Ha.
  rewrite up_to_app_all.
  - simpl. rewrite decide_False by lia. rewrite last_app_cons.
    destruct (last (a :: up_to p pos)) as [e|] eqn:E.
    + exists e. split; [|done].
      rewrite last_cons in E. destruct (last (up_to p pos)) as [e'|] eqn:E'.
      * injection E as ->. apply elem_of_cons. right. by eapply last_up_to_elem.
      * injection E as ->. by left.
    + rewrite last_cons in E. by destruct (last (up_to p pos)).
  - eapply Forall_impl; [exact Hc|]. intros e [_ ?]. lia.
Qed.

(** The history of the safekeeper continues that of the proposer. *)
Definition sk_ahead (prop_th sk_th : TermHistory) : Prop := exists e rest, sk_th = prop_th ++ e :: rest.

Lemma sk_ahead_iff prop_th sk_th :
  sk_ahead prop_th sk_th <-> prop_th `prefix_of` sk_th /\ (length prop_th < length sk_th)%nat.
Proof.
  split.
  - intros (e & rest & ->). split; [by apply prefix_app_r|]. rewrite length_app. cbn. lia.
  - intros [[k ->] Hl]. destruct k as [|e rest]; [rewrite app_nil_r in Hl; lia|]. by exists e, rest.
Qed.

#[global] Instance sk_ahead_dec prop_th sk_th : Decision (sk_ahead prop_th sk_th).
Proof.
  refine (cast_if (decide (prop_th `prefix_of` sk_th /\ (length prop_th < length sk_th)%nat))); by rewrite sk_ahead_iff.
Defined.

(** It does not when the last term of the proposer is not below any of the
    safekeeper's. *)
Lemma leading_not_ahead prop_th sk_th :
  th_wf sk_th -> (forall e, e ∈ sk_th -> exists e', last prop_th = Some e' /\ tl_term e <= tl_term e') -> ~ sk_ahead prop_th sk_th.
Proof.
  intros Hwf Hlead (b & s & ->). destruct (Hlead b) as (e & He & Hle); [apply elem_of_app; right; by left|].
  apply StronglySorted_app_cons_inv in Hwf as [Hlt _]. rewrite Forall_forall in Hlt.
  destruct (Hlt e) as [? _]; [|lia]. rewrite last_lookup in He. by eapply list_elem_of_lookup_2.
Qed.

Section common_point.
Context (prop_th sk_th : TermHistory) (sk_wal_end : Lsn).
Hypothesis prop_wf : th_wf prop_th.
Hypothesis sk_wf : th_wf sk_th.
Hypothesis matching : histories_match prop_th sk_th.
(** The safekeeper's history does not go beyond its WAL ([up_to] flush_lsn). *)
Hypothesis sk_end : Forall (fun e => tl_lsn e <= sk_wal_end) sk_th.
(** The safekeeper has not gone on with terms after those of the proposer. *)
Hypothesis not_ahead : ~ sk_ahead prop_th sk_th.

Lemma sk_end_assert :
  match last sk_th with Some e => bool_decide (tl_lsn e <= sk_wal_end) | None => true end = true.
Proof.
  destruct (last sk_th) as [e|] eqn:E; [|done]. apply bool_decide_eq_true.
  rewrite Forall_forall in sk_end. apply sk_end.
  rewrite last_lookup in E. by eapply list_elem_of_lookup_2.
Qed.

(** What [find_highest_common_point] computes, in terms of the common part. *)
Lemma find_highest_common_point_split {E} :
  exists c p s,
    prop_th = c ++ p /\ sk_th = c ++ s /\ diverge p s /\
    @find_highest_common_point E prop_th sk_th sk_wal_end =
      Ok (match last c with
          | None => None
          | Some e => Some {| tl_term := tl_term e; tl_lsn :=
               match p, s with
               | [], _ => sk_wal_end
               | a :: _, [] => Z.min (tl_lsn a) sk_wal_end
               | a :: _, b :: _ => Z.min (tl_lsn a) (tl_lsn b)
               end |}
          end).
Proof.
  destruct (@last_common_idx_split E prop_th sk_th 0 None) as (c & p & s & Hp & Hs & Hd & Hidx).
  { intros. by eapply histories_match_lsn. }
  exists c, p, s. split_and!; [done..|].
  unfold find_highest_common_point. rewrite sk_end_assert, Hidx, Hp, Hs.
  clear - Hd.
  destruct c as [|e c _] using rev_ind; [done|].
  rewrite last_snoc.
  replace (length (c ++ [e])) with (S (length c)) by (rewrite length_app; simpl; lia).
  rewrite <- !app_assoc. cbn [app mbind outcome_bind Nat.add].
  rewrite !list_lookup_middle by done.
  rewrite length_app. simpl. destruct p as [|a p].
  { simpl. rewrite decide_True by lia. done. }
  rewrite decide_False by (simpl; lia).
  assert (forall l, (c ++ e :: l) !! S (length c) = l !! 0%nat) as Hnext.
  { intros l. rewrite lookup_app_r by lia. by replace (S (length c) - length c)%nat with 1%nat by lia. }
  rewrite !Hnext. simpl. by destruct s.
Qed.

Lemma prop_ends_first c p s :
  prop_th = c ++ p -> sk_th = c ++ s -> p = [] -> s = [].
Proof.
  intros Hp Hs ->. destruct s as [|b s]; [done|]. exfalso. apply not_ahead. exists b, s. by rewrite Hs, Hp, app_nil_r.
Qed.

(** Below the common point the histories agree; above it they do not. *)
Lemma common_point_bounds c p s l :
  prop_th = c ++ p -> sk_th = c ++ s -> diverge p s -> c <> [] ->
  l = match p, s with
      | [], _ => sk_wal_end
      | a :: _, [] => Z.min (tl_lsn a) sk_wal_end
      | a :: _, b :: _ => Z.min (tl_lsn a) (tl_lsn b)
      end ->
  l <= sk_wal_end
  /\ (forall pos, pos < l -> term_at prop_th pos = term_at sk_th pos)
  /\ (l < sk_wal_end -> term_at prop_th l <> term_at sk_th l).
Proof.
  intros Hp Hs Hd Hc Hl. pose proof (prop_ends_first c p s Hp Hs) as Hends.
  destruct p as [|a p].
  { specialize (Hends eq_refl) as ->. subst l. rewrite Hp, Hs. split_and!; [done..|lia]. }
  destruct s as [|b s].
  - split_and!; [lia| |].
    + intros pos Hpos. unfold term_at. rewrite Hp, Hs, up_to_app_stop by lia. by rewrite app_nil_r.
    + intros Hlt Heq. assert (l = tl_lsn a) as -> by lia.
      unfold term_at in Heq. rewrite Hp, Hs, app_nil_r in Heq. rewrite Hp in prop_wf.
      destruct (last_up_to_tail c a p (tl_lsn a) prop_wf) as (e & He & Hlast); [lia|].
      rewrite Hlast in Heq. symmetry in Heq. apply fmap_Some in Heq as (e' & He' & Ht).
      apply last_up_to_elem in He'. simpl in Ht.
      apply StronglySorted_app_inv in prop_wf as (_ & _ & Hlt').
      destruct (Hlt' e' e He' He). lia.
  - assert (tl_lsn b <= sk_wal_end).
    { rewrite Hs, Forall_app, Forall_cons in sk_end. tauto. }
    split_and!; [lia| |].
    + intros pos Hpos. unfold term_at. rewrite Hp, Hs, !up_to_app_stop by lia. done.
    + intros Hlt Heq. unfold term_at in Heq. rewrite Hp, Hs in *. simpl in Hd.
      assert (forall e, e ∈ a :: p \/ e ∈ b :: s -> forall e', e' ∈ c -> tl_term e' < tl_term e) as Habove.
      { apply StronglySorted_app_inv in prop_wf as (_ & _ & H1).
        apply StronglySorted_app_inv in sk_wf as (_ & _ & H2).
        intros e [He|He] e' He'; [by apply (H1 e' e)|by apply (H2 e' e)]. }
      destruct (decide (tl_lsn a <= l)) as [Ha|Ha], (decide (tl_lsn b <= l)) as [Hb|Hb]; [| | |lia].
      * destruct (last_up_to_tail c a p l) as (e & He & E); [done..|].
        destruct (last_up_to_tail c b s l) as (e' & He' & E'); [done..|].
        rewrite E, E' in Heq. simpl in Heq. injection Heq as Heq.
        by eapply histories_match_tails in Heq.
      * destruct (last_up_to_tail c a p l) as (e & He & E); [done..|].
        rewrite E, up_to_app_stop in Heq by lia.
        symmetry in Heq. apply fmap_Some in Heq as (e' & He' & Ht).
        apply last_up_to_elem in He'. specialize (Habove e (or_introl He) e' He'). simpl in Ht. lia.
      * destruct (last_up_to_tail c b s l) as (e & He & E); [done..|].
        rewrite E, up_to_app_stop in Heq by lia.
        apply fmap_Some in Heq as (e' & He' & Ht).
        apply last_up_to_elem in He'. specialize (Habove e (or_intror He) e' He'). simpl in Ht. lia.
Qed.
End common_point.

(** C19: [TermHistory::find_highest_common_point], on histories that satisfy log
    matching, does not hit its assertions; [None] means that they share no switch.
    Unless the history of the safekeeper goes on after the last term of the proposer,
    which it does not when that term is the highest, the point returned is the first
    LSN at which the safekeeper's WAL is not the proposer's: below it every byte was
    written in the same term on both sides, and at it, unless the safekeeper's WAL ends
    there, the terms differ.  If it does go on, the end of the safekeeper's WAL is
    returned, whatever the later terms wrote. *)
Theorem find_highest_common_point_spec (prop_th sk_th : TermHistory) (sk_wal_end : Lsn) :
  th_wf prop_th -> th_wf sk_th -> histories_match prop_th sk_th ->
  Forall (fun e => tl_lsn e <= sk_wal_end) sk_th ->
  ((forall e, e ∈ sk_th -> exists e', last prop_th = Some e' /\ tl_term e <= tl_term e') -> ~ sk_ahead prop_th sk_th) /\
  exists r, @find_highest_common_point Empty_set prop_th sk_th sk_wal_end = Ok r /\
  match r with
  | None => forall e, e ∈ prop_th -> e ∉ sk_th
  | Some lcp =>
      (exists e, e ∈ prop_th /\ e ∈ sk_th /\ tl_term e = tl_term lcp)
      /\ if decide (sk_ahead prop_th sk_th) then tl_lsn lcp = sk_wal_end else
         tl_lsn lcp <= sk_wal_end
         /\ (forall pos, pos < tl_lsn lcp -> term_at prop_th pos = term_at sk_th pos)
         /\ (tl_lsn lcp < sk_wal_end -> term_at prop_th (tl_lsn lcp) <> term_at sk_th (tl_lsn lcp))
  end.
Proof.
  intros Hpw Hsw Hm He. split; [by apply leading_not_ahead|].
  destruct (@find_highest_common_point_split prop_th sk_th sk_wal_end Hm He Empty_set)
    as (c & p & s & Hp & Hs & Hd & Hr).
  eexists. split; [exact Hr|]. destruct (last c) as [e|] eqn:E.
  - assert (e ∈ c) as Hec by (rewrite last_lookup in E; by eapply list_elem_of_lookup_2). split.
    { exists e. subst. rewrite !elem_of_app. auto. }
    case_decide as Hahead; [|simpl; eapply common_point_bounds; try done; by intros ->].
    destruct p as [|a p]; [done|]. exfalso. destruct Hahead as (b & rest & Hah). rewrite Hs, Hp, <- app_assoc in Hah.
    apply app_inv_head in Hah. subst s. simpl in Hd. done.
  - apply last_None in E as ->. simpl in Hp, Hs. subst p s.
    intros e H1 H2. destruct prop_th as [|a p]; [by apply not_elem_of_nil in H1|].
    destruct sk_th as [|b s]; [by apply not_elem_of_nil in H2|].
    by apply (histories_match_tails [] a p b s e e Hm Hd H1 H2).
Qed.

(** The safekeeper has terms 2 and 3 where the proposer has 2 and 5. *)
Lemma find_highest_common_point_spec_witness :
  exists r, @find_highest_common_point Empty_set
    [{| tl_term := 0; tl_lsn := 10 |}; {| tl_term := 2; tl_lsn := 30 |}; {| tl_term := 5; tl_lsn := 60 |}]
    [{| tl_term := 0; tl_lsn := 10 |}; {| tl_term := 2; tl_lsn := 30 |}; {| tl_term := 3; tl_lsn := 50 |}] 70
    = Ok r.
Proof.
  edestruct (find_highest_common_point_spec
    [{| tl_term := 0; tl_lsn := 10 |}; {| tl_term := 2; tl_lsn := 30 |}; {| tl_term := 5; tl_lsn := 60 |}]
    [{| tl_term := 0; tl_lsn := 10 |}; {| tl_term := 2; tl_lsn := 30 |}; {| tl_term := 3; tl_lsn := 50 |}] 70)
    as (_ & r & H & _); [| | | |by exists r].
  - repeat constructor; simpl; lia.
  - repeat constructor; simpl; lia.
  - intros i j e1 e2 H1 H2 Ht.
    destruct i as [|[|[|i]]], j as [|[|[|j]]]; simplify_eq/=; done.
  - repeat constructor; simpl; lia.
Defined.
