(* ===== verification/Membership.v ===== *)
(** * Safekeeper membership and Postgres versions

    [libs/safekeeper_api/src/membership.rs]: generations, member sets and
    configurations; [libs/postgres_versioninfo/src/lib.rs]: version numbers;
    [libs/safekeeper_api/src/lib.rs]: [ServerInfo]. *)

From S2P Require Import Prelude Lsn.

Abbreviation NodeId := Z (only parsing).

(** ** Generations ([u32]) *)

Abbreviation SafekeeperGeneration := Z (only parsing).
Definition INVALID_GENERATION : SafekeeperGeneration := 0.
Definition INITIAL_GENERATION : SafekeeperGeneration := 1.

Definition generation_previous (self : SafekeeperGeneration) : option SafekeeperGeneration :=
  if decide (1 <= self) then Some (self - 1) else None.
Definition generation_next (self : SafekeeperGeneration) : SafekeeperGeneration :=
  wrap 32 (self + 1).

(** ** Member sets *)

Record SafekeeperId := {
  sk_id : NodeId;
  sk_host : list byte;
  sk_pg_port : Z
}.

#[global] Instance SafekeeperId_eq_dec : EqDecision SafekeeperId.
Proof. solve_decision. Defined.

Record MemberSet := { m : list SafekeeperId }.

#[global] Instance MemberSet_eq_dec : EqDecision MemberSet.
Proof. solve_decision. Defined.

Inductive membership_error : Set := DuplicateMember.

Definition member_set_empty : MemberSet := {| m := [] |}.

(** [MemberSet::new]: the [HashSet] of the ids must have as many elements as the
    vector. *)
Definition member_set_new (members : list SafekeeperId) : outcome membership_error MemberSet :=
  let hs : gset Z := list_to_set (sk_id <$> members) in
  if decide (size hs = length members) then Ok {| m := members |} else Err DuplicateMember.

Definition member_set_contains (self : MemberSet) (sk : NodeId) : bool :=
  existsb (fun x => bool_decide (sk_id x = sk)) (m self).

Definition member_set_add (self : MemberSet) (sk : SafekeeperId) :
    outcome membership_error MemberSet :=
  if member_set_contains self (sk_id sk) then Err DuplicateMember
  else Ok {| m := m self ++ [sk] |}.

(** ** Configurations *)

Record Configuration := {
  generation : SafekeeperGeneration;
  members : MemberSet;
  new_members : option MemberSet
}.

#[global] Instance Configuration_eq_dec : EqDecision Configuration.
Proof. solve_decision. Defined.

Definition configuration_empty : Configuration :=
  {| generation := INVALID_GENERATION; members := member_set_empty; new_members := None |}.

Definition configuration_new (members : MemberSet) : Configuration :=
  {| generation := INITIAL_GENERATION; members := members; new_members := None |}.

Definition configuration_contains (self : Configuration) (sk_id : NodeId) : bool :=
  member_set_contains (members self) sk_id
  || match new_members self with Some ms => member_set_contains ms sk_id | None => false end.

(** ** Postgres versions *)

Inductive PgMajorVersion : Set := PG14 | PG15 | PG16 | PG17.

#[global] Instance PgMajorVersion_eq_dec : EqDecision PgMajorVersion.
Proof. solve_decision. Defined.

Definition major_version_num (self : PgMajorVersion) : Z :=
  match self with PG14 => 14 | PG15 => 15 | PG16 => 16 | PG17 => 17 end.

(** A full version id in MMmmbb format. *)
Abbreviation PgVersionId := Z (only parsing).
Definition UNKNOWN_SERVER_VERSION : PgVersionId := 0.

(** [PgVersionId::from_full_pg_version]; [None] is the panic. *)
Definition from_full_pg_version (version : Z) : option PgVersionId :=
  if decide (version = 0) then Some version
  else if decide (140000 <= version < 180000) then Some version
  else None.

(** [TryFrom<PgVersionId> for PgMajorVersion]. *)
Definition pg_major_try_from (value : PgVersionId) : option PgMajorVersion :=
  let d := value / 10000 in
  if decide (d = 14) then Some PG14
  else if decide (d = 15) then Some PG15
  else if decide (d = 16) then Some PG16
  else if decide (d = 17) then Some PG17
  else None.

Definition pg_version_from_major (value : PgMajorVersion) : PgVersionId :=
  major_version_num value * 10000.

Record ServerInfo := {
  pg_version : PgVersionId;
  system_id : Z;
  wal_seg_size : Z
}.

#[global] Instance ServerInfo_eq_dec : EqDecision ServerInfo.
Proof. solve_decision. Defined.

(** ** Member sets have no duplicate ids *)

Definition ms_wf (ms : MemberSet) : Prop := NoDup (sk_id <$> m ms).

Lemma member_set_contains_spec ms sk :
  member_set_contains ms sk = true <-> sk ∈ sk_id <$> m ms.
Proof.
  unfold member_set_contains. rewrite existsb_exists, list_elem_of_fmap.
  setoid_rewrite bool_decide_eq_true. setoid_rewrite list_elem_of_In.
  split; intros (x & ? & ?); exists x; auto.
Qed.

Lemma size_list_to_set_NoDup (l : list Z) :
  size (list_to_set l : gset Z) = length l <-> NoDup l.
Proof.
  split; [|intros; by apply size_list_to_set].
  induction l as [|x l IH]; intros H; [constructor|].
  assert (size (list_to_set l : gset Z) <= length l)%nat as Hle.
  { clear. induction l as [|y l IH]; [done|]. simpl.
    rewrite size_union_alt, size_singleton.
    assert (size (list_to_set l ∖ {[y]} : gset Z) <= size (list_to_set l : gset Z))%nat
      by (apply subseteq_size; set_solver). lia. }
  simpl in H. destruct (decide (x ∈ (list_to_set l : gset Z))) as [Hin|Hin].
  - replace ({[x]} ∪ list_to_set l : gset Z) with (list_to_set l : gset Z) in H by set_solver. lia.
  - rewrite size_union, size_singleton in H by set_solver.
    constructor; [by rewrite <- (elem_of_list_to_set (C:=gset Z))|]. apply IH. lia.
Qed.

Lemma member_set_new_ok ms : member_set_new ms = Ok {| m := ms |} <-> NoDup (sk_id <$> ms).
Proof.
  unfold member_set_new. rewrite <- size_list_to_set_NoDup, length_fmap. by case_decide.
Qed.

Lemma member_set_add_wf ms sk ms' :
  ms_wf ms -> member_set_add ms sk = Ok ms' -> ms_wf ms'.
Proof.
  unfold member_set_add, ms_wf. destruct (member_set_contains ms (sk_id sk)) eqn:E; [done|].
  intros H [= <-]. simpl. rewrite fmap_app. apply NoDup_app. split_and!; [done| |].
  - intros x Hx Hx'. apply list_elem_of_singleton in Hx' as ->.
    apply not_true_iff_false in E. apply E. by apply member_set_contains_spec.
  - apply NoDup_singleton.
Qed.
