(* ===== verification/SkState.v ===== *)
(** * Safekeeper timeline state ([safekeeper/src/state.rs])

    The persistent state of a timeline (the contents of the control file), the
    in-memory layer over it, and the transactional API [start_change] /
    [finish_change].  The control file itself is the interface [ControlFile]
    (the trait [control_file::Storage]): what the state code relies on is the
    class [ControlFileLaws]; [ControlFile.v] discharges it for [FileStorage]. *)

From S2P Require Import Prelude Lsn TermHistory Membership.

(** [anyhow::Error]: the message says which check refused. *)
Abbreviation anyhow := string (only parsing).

(** ** Data *)

(** Remote partial segments, [wal_backup_partial.rs]. *)
Inductive UploadStatus : Set := InProgress | Uploaded | Deleting.

#[global] Instance UploadStatus_eq_dec : EqDecision UploadStatus.
Proof. solve_decision. Defined.

Record PartialRemoteSegment := {
  prs_status : UploadStatus;
  prs_name : list byte;
  prs_commit_lsn : Lsn;
  prs_flush_lsn : Lsn;
  prs_term : Term
}.

#[global] Instance PartialRemoteSegment_eq_dec : EqDecision PartialRemoteSegment.
Proof. solve_decision. Defined.

Inductive EvictionState : Set := Present | Offloaded (flush_lsn : Lsn).

#[global] Instance EvictionState_eq_dec : EqDecision EvictionState.
Proof. solve_decision. Defined.

(** [TimelinePersistentState]: ids and uuids are byte strings, [creation_ts] is
    a point in time. *)
Record TimelinePersistentState := {
  p_tenant_id : list byte;
  p_timeline_id : list byte;
  p_mconf : Configuration;
  p_acceptor_state : AcceptorState;
  p_server : ServerInfo;
  p_proposer_uuid : list byte;
  p_timeline_start_lsn : Lsn;
  p_local_start_lsn : Lsn;
  p_commit_lsn : Lsn;
  p_backup_lsn : Lsn;
  p_peer_horizon_lsn : Lsn;
  p_remote_consistent_lsn : Lsn;
  p_partial_backup : list PartialRemoteSegment;
  p_eviction_state : EvictionState;
  p_creation_ts : Z
}.

#[global] Instance TimelinePersistentState_eq_dec : EqDecision TimelinePersistentState.
Proof. solve_decision. Defined.

Record TimelineMemState := {
  i_commit_lsn : Lsn;
  i_backup_lsn : Lsn;
  i_peer_horizon_lsn : Lsn;
  i_remote_consistent_lsn : Lsn;
  i_proposer_uuid : list byte
}.

Record MembershipSwitchResult := { previous_conf : Configuration; current_conf : Configuration }.
Record TimelineTermBumpResponse := { previous_term : Term; current_term : Term }.

(** Field assignments [state.f = v]. *)

Definition set_mconf (v : Configuration) (s : TimelinePersistentState) : TimelinePersistentState :=
  {| p_tenant_id := p_tenant_id s; p_timeline_id := p_timeline_id s; p_mconf := v;
     p_acceptor_state := p_acceptor_state s; p_server := p_server s;
     p_proposer_uuid := p_proposer_uuid s; p_timeline_start_lsn := p_timeline_start_lsn s;
     p_local_start_lsn := p_local_start_lsn s; p_commit_lsn := p_commit_lsn s;
     p_backup_lsn := p_backup_lsn s; p_peer_horizon_lsn := p_peer_horizon_lsn s;
     p_remote_consistent_lsn := p_remote_consistent_lsn s;
     p_partial_backup := p_partial_backup s; p_eviction_state := p_eviction_state s;
     p_creation_ts := p_creation_ts s |}.

Definition set_acceptor_state (v : AcceptorState) (s : TimelinePersistentState) : TimelinePersistentState :=
  {| p_tenant_id := p_tenant_id s; p_timeline_id := p_timeline_id s; p_mconf := p_mconf s;
     p_acceptor_state := v; p_server := p_server s;
     p_proposer_uuid := p_proposer_uuid s; p_timeline_start_lsn := p_timeline_start_lsn s;
     p_local_start_lsn := p_local_start_lsn s; p_commit_lsn := p_commit_lsn s;
     p_backup_lsn := p_backup_lsn s; p_peer_horizon_lsn := p_peer_horizon_lsn s;
     p_remote_consistent_lsn := p_remote_consistent_lsn s;
     p_partial_backup := p_partial_backup s; p_eviction_state := p_eviction_state s;
     p_creation_ts := p_creation_ts s |}.

Definition set_server (v : ServerInfo) (s : TimelinePersistentState) : TimelinePersistentState :=
  {| p_tenant_id := p_tenant_id s; p_timeline_id := p_timeline_id s; p_mconf := p_mconf s;
     p_acceptor_state := p_acceptor_state s; p_server := v;
     p_proposer_uuid := p_proposer_uuid s; p_timeline_start_lsn := p_timeline_start_lsn s;
     p_local_start_lsn := p_local_start_lsn s; p_commit_lsn := p_commit_lsn s;
     p_backup_lsn := p_backup_lsn s; p_peer_horizon_lsn := p_peer_horizon_lsn s;
     p_remote_consistent_lsn := p_remote_consistent_lsn s;
     p_partial_backup := p_partial_backup s; p_eviction_state := p_eviction_state s;
     p_creation_ts := p_creation_ts s |}.

Definition set_term (t : Term) (s : TimelinePersistentState) : TimelinePersistentState :=
  set_acceptor_state
    {| term := t; term_history := term_history (p_acceptor_state s) |} s.

Definition set_term_history (th : TermHistory) (s : TimelinePersistentState) : TimelinePersistentState :=
  set_acceptor_state {| term := term (p_acceptor_state s); term_history := th |} s.

(** The LSN fields, all at once. *)
Definition set_lsns (timeline_start local_start commit backup peer_horizon remote_consistent : Lsn)
    (s : TimelinePersistentState) : TimelinePersistentState :=
  {| p_tenant_id := p_tenant_id s; p_timeline_id := p_timeline_id s; p_mconf := p_mconf s;
     p_acceptor_state := p_acceptor_state s; p_server := p_server s;
     p_proposer_uuid := p_proposer_uuid s; p_timeline_start_lsn := timeline_start;
     p_local_start_lsn := local_start; p_commit_lsn := commit;
     p_backup_lsn := backup; p_peer_horizon_lsn := peer_horizon;
     p_remote_consistent_lsn := remote_consistent;
     p_partial_backup := p_partial_backup s; p_eviction_state := p_eviction_state s;
     p_creation_ts := p_creation_ts s |}.

(** ** Creation *)

Definition zeros (n : nat) : list byte := replicate n Byte.x00.
Definition WAL_SEGMENT_SIZE : Z := 16 * 1024 * 1024.

(** [TimelinePersistentState::new]; [now] is [SystemTime::now()]. *)
Definition timeline_state_new (now : Z) (tenant_id timeline_id : list byte) (mconf : Configuration)
    (server_info : ServerInfo) (start_lsn commit_lsn : Lsn) :
    outcome anyhow TimelinePersistentState :=
  if decide (wal_seg_size server_info = 0) then Err "UninitializedWalSegSize"%string
  else if decide (pg_version server_info = UNKNOWN_SERVER_VERSION) then
    Err "UninitialinzedPgVersion"%string
  else if decide (commit_lsn < start_lsn) then Err "commit_lsn is smaller than start_lsn"%string
  else
    let th := if decide (commit_lsn <> LSN_INVALID)
              then [{| tl_term := INITIAL_TERM; tl_lsn := start_lsn |}] else [] in
    Ok {| p_tenant_id := tenant_id; p_timeline_id := timeline_id; p_mconf := mconf;
          p_acceptor_state := {| term := INITIAL_TERM; term_history := th |};
          p_server := server_info; p_proposer_uuid := zeros 16;
          p_timeline_start_lsn := start_lsn; p_local_start_lsn := start_lsn;
          p_commit_lsn := commit_lsn; p_backup_lsn := start_lsn; p_peer_horizon_lsn := start_lsn;
          p_remote_consistent_lsn := 0; p_partial_backup := []; p_eviction_state := Present;
          p_creation_ts := now |}.

(** [TimelinePersistentState::empty]. *)
Definition timeline_state_empty (now : Z) : outcome anyhow TimelinePersistentState :=
  timeline_state_new now (zeros 16) (zeros 16) configuration_empty
    {| pg_version := pg_version_from_major PG17; system_id := 0;
       wal_seg_size := WAL_SEGMENT_SIZE |} LSN_INVALID LSN_INVALID.

(** ** The control file *)

(** What reading a saved state gives back: a state without a membership
    generation is saved in the previous format, which has neither the
    configuration nor the creation time. *)
Definition saved_form (s : TimelinePersistentState) : TimelinePersistentState :=
  if decide (generation (p_mconf s) = INVALID_GENERATION) then
    {| p_tenant_id := p_tenant_id s; p_timeline_id := p_timeline_id s; p_mconf := configuration_empty;
       p_acceptor_state := p_acceptor_state s; p_server := p_server s;
       p_proposer_uuid := p_proposer_uuid s; p_timeline_start_lsn := p_timeline_start_lsn s;
       p_local_start_lsn := p_local_start_lsn s; p_commit_lsn := p_commit_lsn s;
       p_backup_lsn := p_backup_lsn s; p_peer_horizon_lsn := p_peer_horizon_lsn s;
       p_remote_consistent_lsn := p_remote_consistent_lsn s;
       p_partial_backup := p_partial_backup s; p_eviction_state := p_eviction_state s;
       p_creation_ts := 0 |}
  else s.

Lemma saved_form_same s :
  p_acceptor_state (saved_form s) = p_acceptor_state s
  /\ generation (p_mconf (saved_form s)) = generation (p_mconf s)
  /\ p_commit_lsn (saved_form s) = p_commit_lsn s.
Proof. unfold saved_form. case_decide as H; [|done]. simpl. auto. Qed.

(** The trait [control_file::Storage]: [cf_state] is [Deref], [persist] writes
    the state durably.  [may_recover c s] says that a process that starts after
    a crash in [c] can read [s] back; [cf_inv] is the consistency of the file. *)
Class ControlFile (C : Type) := {
  cf_state : C -> TimelinePersistentState;
  persist : TimelinePersistentState -> M anyhow C unit;
  may_recover : C -> TimelinePersistentState -> Prop;
  cf_inv : C -> Prop
}.

Class ControlFileLaws (C : Type) `{!ControlFile C} := {
  persist_ok s c c' : cf_inv c -> persist s c = (Ok tt, c') ->
    cf_inv c' /\ cf_state c' = s /\ (forall r, may_recover c' r -> r = saved_form s);
  persist_err s c e c' : cf_inv c -> persist s c = (Err e, c') ->
    cf_inv c' /\ cf_state c' = cf_state c
    /\ (forall r, may_recover c' r -> r = saved_form s \/ may_recover c r);
  persist_no_panic s c c' : cf_inv c -> persist s c <> (Panic, c')
}.

(** ** [TimelineState] *)

Record TimelineState (C : Type) := { inmem : TimelineMemState; pers : C }.
Arguments inmem {C}.
Arguments pers {C}.

Section timeline_state.
Context {C : Type} `{!ControlFile C}.
Implicit Types (ts : TimelineState C) (s : TimelinePersistentState).

(** [Deref] of [TimelineState] goes to the persistent part. *)
Definition pstate ts : TimelinePersistentState := cf_state (pers ts).

Definition inmem_of s : TimelineMemState :=
  {| i_commit_lsn := p_commit_lsn s; i_backup_lsn := p_backup_lsn s;
     i_peer_horizon_lsn := p_peer_horizon_lsn s;
     i_remote_consistent_lsn := p_remote_consistent_lsn s;
     i_proposer_uuid := p_proposer_uuid s |}.

Definition timeline_state_of (state : C) : TimelineState C :=
  {| inmem := inmem_of (cf_state state); pers := state |}.

(** [TimelineState::start_change]. *)
Definition start_change ts : TimelinePersistentState :=
  let s := pstate ts in
  {| p_tenant_id := p_tenant_id s; p_timeline_id := p_timeline_id s; p_mconf := p_mconf s;
     p_acceptor_state := p_acceptor_state s; p_server := p_server s;
     p_proposer_uuid := i_proposer_uuid (inmem ts);
     p_timeline_start_lsn := p_timeline_start_lsn s;
     p_local_start_lsn := p_local_start_lsn s; p_commit_lsn := i_commit_lsn (inmem ts);
     p_backup_lsn := i_backup_lsn (inmem ts); p_peer_horizon_lsn := i_peer_horizon_lsn (inmem ts);
     p_remote_consistent_lsn := i_remote_consistent_lsn (inmem ts);
     p_partial_backup := p_partial_backup s; p_eviction_state := p_eviction_state s;
     p_creation_ts := p_creation_ts s |}.

Definition set_pers (c : C) ts : TimelineState C := {| inmem := inmem ts; pers := c |}.
Definition set_inmem (i : TimelineMemState) ts : TimelineState C := {| inmem := i; pers := pers ts |}.

(** [TimelineState::finish_change]: persist unless nothing changed, then take
    over the in-memory values. *)
Definition finish_change s : M anyhow (TimelineState C) unit :=
  ts ← get;
  _ ← (if decide (s = pstate ts) then mret tt else zoom pers set_pers (persist s));
  modify (set_inmem (inmem_of s)).

(** [TimelineState::flush]. *)
Definition state_flush : M anyhow (TimelineState C) unit :=
  s ← gets start_change; finish_change s.

(** [TimelineState::term_bump]; the increment is on a [u64]. *)
Definition term_bump (to : option Term) : M anyhow (TimelineState C) TimelineTermBumpResponse :=
  before ← gets (fun ts => term (p_acceptor_state (pstate ts)));
  state ← gets start_change;
  let new := match to with
             | Some to => Z.max (term (p_acceptor_state state)) to
             | None => wrap 64 (term (p_acceptor_state state) + 1)
             end in
  _ ← (if decide (term (p_acceptor_state state) < new)
       then finish_change (set_term new state) else mret tt);
  after ← gets (fun ts => term (p_acceptor_state (pstate ts)));
  mret {| previous_term := before; current_term := after |}.

(** [TimelineState::membership_switch]. *)
Definition membership_switch (to : Configuration) :
    M anyhow (TimelineState C) MembershipSwitchResult :=
  before ← gets (fun ts => p_mconf (pstate ts));
  _ ← (if decide (generation to <= generation before) then mret tt
       else state ← gets start_change; finish_change (set_mconf to state));
  after ← gets (fun ts => p_mconf (pstate ts));
  mret {| previous_conf := before; current_conf := after |}.
End timeline_state.
