(* ===== verification/Safekeeper.v ===== *)
(** * The safekeeper acceptor ([safekeeper/src/safekeeper.rs])

    [SafeKeeper] is the acceptor of the WAL consensus protocol.  Its methods are
    commands of [M anyhow (SafeKeeper C W)]: the state reached before an early
    return is kept.  [C] is the control file ([SkState.ControlFile]) and [W] the
    WAL storage (the trait [wal_storage::Storage], class [WalStore] below). *)

From S2P Require Import Prelude Lsn TermHistory Membership SkState.

(** ** WAL storage *)

Class WalStore (W : Type) := {
  ws_write_lsn : W -> Lsn;
  ws_flush_lsn : W -> Lsn;
  initialize_first_segment : Lsn -> M anyhow W unit;
  write_wal : Lsn -> list byte -> M anyhow W unit;
  truncate_wal : Lsn -> M anyhow W unit;
  flush_wal : M anyhow W unit;
  (** [ws_open st w w']: a process that starts with the control file [st] on the
      disk [w] left behind by the previous one opens the storage [w']. *)
  ws_open : TimelinePersistentState -> W -> W -> Prop;
  (** Consistency of the storage, kept by every operation. *)
  ws_inv : W -> Prop
}.

(** What the acceptor relies on.  Every operation may fail half way; the laws
    say what is known of [flush_lsn] whatever the outcome.  They are for
    positions that are valid LSNs with room for alignment after them. *)
Class WalStoreLaws (W : Type) `{!WalStore W} := {
  initialize_first_segment_spec init_lsn w : ws_inv w ->
    wp (initialize_first_segment init_lsn) (fun _ w' =>
      ws_inv w' /\ ws_flush_lsn w' = ws_flush_lsn w) w;
  write_wal_spec startpos buf w :
    startpos + Z.of_nat (length buf) <= LSN_MAX - 7 -> ws_inv w ->
    wp (write_wal startpos buf) (fun _ w' =>
      ws_inv w' /\ ws_flush_lsn w <= ws_flush_lsn w') w;
  truncate_wal_spec end_pos w : 0 < end_pos -> ws_inv w ->
    wp (truncate_wal end_pos) (fun o w' =>
      ws_inv w' /\
      match o with
      | Ok _ => ws_flush_lsn w' = end_pos
      | _ => ws_flush_lsn w' = end_pos \/ ws_flush_lsn w' = ws_flush_lsn w
      end) w;
  flush_wal_spec w : ws_inv w ->
    wp flush_wal (fun _ w' =>
      ws_inv w' /\ ws_flush_lsn w <= ws_flush_lsn w') w;
  ws_open_spec st w w' : ws_inv w -> ws_open st w w' ->
    ws_inv w' /\ p_commit_lsn st <= ws_flush_lsn w'
}.

(** ** Messages *)

Record ProposerGreeting := {
  g_tenant_id : list byte;
  g_timeline_id : list byte;
  g_mconf : Configuration;
  g_pg_version : PgVersionId;
  g_system_id : Z;
  g_wal_seg_size : Z
}.

Record AcceptorGreeting := { ag_node_id : NodeId; ag_mconf : Configuration; ag_term : Term }.

Record VoteRequest := { vq_generation : SafekeeperGeneration; vq_term : Term }.

Record VoteResponse := {
  vr_generation : SafekeeperGeneration;
  vr_term : Term;
  vote_given : bool;
  vr_flush_lsn : Lsn;
  truncate_lsn : Lsn;
  vr_term_history : TermHistory
}.

Record ProposerElected := {
  pe_generation : SafekeeperGeneration;
  pe_term : Term;
  start_streaming_at : Lsn;
  pe_term_history : TermHistory
}.

Record AppendRequestHeader := {
  h_generation : SafekeeperGeneration;
  h_term : Term;
  begin_lsn : Lsn;
  end_lsn : Lsn;
  h_commit_lsn : Lsn;
  h_truncate_lsn : Lsn
}.

Record AppendRequest := { h : AppendRequestHeader; wal_data : list byte }.

Record HotStandbyFeedback := { ts : Z; xmin : Z; catalog_xmin : Z }.
Definition hs_feedback_empty : HotStandbyFeedback := {| ts := 0; xmin := 0; catalog_xmin := 0 |}.

(** [PageserverFeedback]; [replytime] in microseconds since the Postgres epoch. *)
Record PageserverFeedback := {
  current_timeline_size : Z;
  last_received_lsn : Lsn;
  disk_consistent_lsn : Lsn;
  remote_consistent_lsn : Lsn;
  replytime : Z;
  shard_number : Z;
  corruption_detected : bool
}.

Record AppendResponse := {
  ar_generation : SafekeeperGeneration;
  ar_term : Term;
  ar_flush_lsn : Lsn;
  ar_commit_lsn : Lsn;
  hs_feedback : HotStandbyFeedback;
  pageserver_feedback : option PageserverFeedback
}.

Definition append_response_term_only (g : SafekeeperGeneration) (t : Term) : AppendResponse :=
  {| ar_generation := g; ar_term := t; ar_flush_lsn := 0; ar_commit_lsn := 0;
     hs_feedback := hs_feedback_empty; pageserver_feedback := None |}.

Inductive ProposerAcceptorMessage :=
| PGreeting (msg : ProposerGreeting)
| PVoteRequest (msg : VoteRequest)
| PElected (msg : ProposerElected)
| PAppendRequest (msg : AppendRequest)
| PNoFlushAppendRequest (msg : AppendRequest)
| PFlushWAL.

Inductive AcceptorProposerMessage :=
| AGreeting (msg : AcceptorGreeting)
| AVoteResponse (msg : VoteResponse)
| AAppendResponse (msg : AppendResponse).

(** The fields of a broker message that [record_safekeeper_info] reads. *)
Record SafekeeperTimelineInfo := { si_last_log_term : Term; si_commit_lsn : Lsn }.

(** ** The acceptor *)

Record SafeKeeper (C W : Type) := {
  term_start_lsn : Lsn;
  state : TimelineState C;
  wal_store : W;
  node_id : NodeId
}.
Arguments term_start_lsn {C W}.
Arguments state {C W}.
Arguments wal_store {C W}.
Arguments node_id {C W}.

Section safekeeper.
Context {C W : Type} `{!ControlFile C} `{!WalStore W}.
Abbreviation SK := (SafeKeeper C W).
Implicit Types sk : SK.

Definition set_state (x : TimelineState C) sk : SK :=
  {| term_start_lsn := term_start_lsn sk; state := x; wal_store := wal_store sk; node_id := node_id sk |}.
Definition set_wal_store (x : W) sk : SK :=
  {| term_start_lsn := term_start_lsn sk; state := state sk; wal_store := x; node_id := node_id sk |}.
Definition set_term_start_lsn (x : Lsn) sk : SK :=
  {| term_start_lsn := x; state := state sk; wal_store := wal_store sk; node_id := node_id sk |}.

(** [self.state.method(..)] and [self.wal_store.method(..)]. *)
Definition on_state {A} (m : M anyhow (TimelineState C) A) : M anyhow SK A := zoom state set_state m.
Definition on_wal {A} (m : M anyhow W A) : M anyhow SK A := zoom wal_store set_wal_store m.

(** [self.state.<field>] through [Deref], and [self.state.inmem]. *)
Definition sk_pers sk : TimelinePersistentState := pstate (state sk).
Definition sk_inmem sk : TimelineMemState := inmem (state sk).
Definition sk_term sk : Term := term (p_acceptor_state (sk_pers sk)).
Definition sk_generation sk : SafekeeperGeneration := generation (p_mconf (sk_pers sk)).

(** [SafeKeeper::new]. *)
Definition safekeeper_new (st : TimelineState C) (ws : W) (nid : NodeId) : outcome anyhow SK :=
  if decide (p_tenant_id (pstate st) = zeros 16 \/ p_timeline_id (pstate st) = zeros 16)
  then Err "Calling SafeKeeper::new with empty tenant_id or timeline_id"%string
  else Ok {| term_start_lsn := 0; state := st; wal_store := ws; node_id := nid |}.

(** [SafeKeeper::flush_lsn]. *)
Definition flush_lsn sk : Lsn :=
  Z.max (ws_flush_lsn (wal_store sk)) (p_timeline_start_lsn (sk_pers sk)).

Definition get_term_history sk : TermHistory :=
  up_to (term_history (p_acceptor_state (sk_pers sk))) (flush_lsn sk).

Definition get_last_log_term sk : Term :=
  last_log_term (p_acceptor_state (sk_pers sk)) (flush_lsn sk).

Definition handle_greeting (msg : ProposerGreeting) : M anyhow SK (option AcceptorProposerMessage) :=
  server ← gets (fun sk => p_server (sk_pers sk));
  msg_major ← ok_or "InvalidPgVersion"%string (pg_major_try_from (g_pg_version msg));
  our_major ← ok_or "InvalidPgVersion"%string (pg_major_try_from (pg_version server));
  if bool_decide (msg_major <> our_major) && bool_decide (pg_version server <> UNKNOWN_SERVER_VERSION)
  then bail "incompatible server version"%string else
  sk ← get;
  if decide (g_tenant_id msg <> p_tenant_id (sk_pers sk)) then bail "invalid tenant ID"%string else
  if decide (g_timeline_id msg <> p_timeline_id (sk_pers sk)) then bail "invalid timeline ID"%string else
  if decide (wal_seg_size server <> g_wal_seg_size msg) then bail "invalid wal_seg_size"%string else
  _ ← (if bool_decide (system_id server <> g_system_id msg) && bool_decide (g_system_id msg <> 0) then
         st ← gets (fun sk => start_change (state sk));
         let server' :=
           {| pg_version := if decide (g_pg_version msg <> UNKNOWN_SERVER_VERSION)
                            then g_pg_version msg else pg_version (p_server st);
              system_id := g_system_id msg;
              wal_seg_size := wal_seg_size (p_server st) |} in
         on_state (finish_change (set_server server' st))
       else mret tt);
  sk ← get;
  if bool_decide (sk_generation sk < generation (g_mconf msg))
     && negb (configuration_contains (g_mconf msg) (node_id sk))
  then bail "refused to switch, node is not a member"%string else
  _ ← on_state (membership_switch (g_mconf msg));
  sk ← get;
  mret (Some (AGreeting {| ag_node_id := node_id sk; ag_mconf := p_mconf (sk_pers sk);
                           ag_term := sk_term sk |})).

Definition handle_vote_request (msg : VoteRequest) : M anyhow SK (option AcceptorProposerMessage) :=
  sk ← get;
  if decide (sk_generation sk <> vq_generation msg) then bail "generation mismatch"%string else
  _ ← on_wal flush_wal;
  sk ← get;
  let resp vt vg :=
    {| vr_generation := sk_generation sk; vr_term := vt; vote_given := vg;
       vr_flush_lsn := flush_lsn sk; truncate_lsn := i_peer_horizon_lsn (sk_inmem sk);
       vr_term_history := get_term_history sk |} in
  if decide (sk_term sk < vq_term msg) then
    let st := start_change (state sk) in
    _ ← on_state (finish_change (set_term (vq_term msg) st));
    t ← gets sk_term;
    mret (Some (AVoteResponse (resp t true)))
  else mret (Some (AVoteResponse (resp (sk_term sk) false))).

Definition append_response sk : AppendResponse :=
  {| ar_generation := sk_generation sk; ar_term := sk_term sk; ar_flush_lsn := flush_lsn sk;
     ar_commit_lsn := p_commit_lsn (sk_pers sk);
     hs_feedback := hs_feedback_empty; pageserver_feedback := None |}.

(** The state persisted when a proposer's history is adopted. *)
Definition adopt_term_history (msg : ProposerElected) (st : TimelinePersistentState) :
    TimelinePersistentState :=
  let timeline_start :=
    match pe_term_history msg with
    | e :: _ => if decide (p_timeline_start_lsn st = 0) then tl_lsn e else p_timeline_start_lsn st
    | [] => p_timeline_start_lsn st
    end in
  let peer_horizon :=
    if decide (p_peer_horizon_lsn st = 0) then timeline_start else p_peer_horizon_lsn st in
  let local_start :=
    if decide (p_local_start_lsn st = 0) then start_streaming_at msg else p_local_start_lsn st in
  set_term_history (pe_term_history msg)
    (set_lsns timeline_start local_start
       (Z.max (p_commit_lsn st) timeline_start)
       (Z.max (p_backup_lsn st) timeline_start)
       peer_horizon
       (Z.max (p_remote_consistent_lsn st) timeline_start) st).

Definition handle_elected (msg : ProposerElected) : M anyhow SK (option AcceptorProposerMessage) :=
  sk ← get;
  if decide (sk_generation sk <> pe_generation msg) then bail "generation mismatch"%string else
  _ ← (if decide (sk_term sk < pe_term msg) then
         on_state (finish_change (set_term (pe_term msg) (start_change (state sk))))
       else mret tt);
  sk ← get;
  if decide (pe_term msg < sk_term sk) then mret None else
  lcp ← lift (find_highest_common_point (pe_term_history msg) (get_term_history sk) (flush_lsn sk));
  last_common_point ←
    match lcp with
    | None => ok_or "empty walproposer term history"%string (head (pe_term_history msg))
    | Some lcp => mret lcp
    end;
  if decide (tl_lsn last_common_point <> start_streaming_at msg) then
    bail "refusing ProposerElected with unexpected truncation point"%string else
  _ ← assert (bool_decide (i_commit_lsn (sk_inmem sk) <= start_streaming_at msg));
  _ ← (if decide (ws_flush_lsn (wal_store sk) = LSN_INVALID) then
         on_wal (initialize_first_segment (start_streaming_at msg))
       else mret tt);
  _ ← on_wal (truncate_wal (start_streaming_at msg));
  st ← gets (fun sk => start_change (state sk));
  _ ← on_state (finish_change (adopt_term_history msg st));
  match last (pe_term_history msg) with
  | None => bail "proposer elected with empty term history"%string
  | Some e => _ ← modify (set_term_start_lsn (tl_lsn e)); mret None
  end.

Definition set_commit_lsn (c : Lsn) sk : SK :=
  set_state (set_inmem {| i_commit_lsn := c; i_backup_lsn := i_backup_lsn (sk_inmem sk);
                          i_peer_horizon_lsn := i_peer_horizon_lsn (sk_inmem sk);
                          i_remote_consistent_lsn := i_remote_consistent_lsn (sk_inmem sk);
                          i_proposer_uuid := i_proposer_uuid (sk_inmem sk) |} (state sk)) sk.

Definition set_peer_horizon_lsn (x : Lsn) sk : SK :=
  set_state (set_inmem {| i_commit_lsn := i_commit_lsn (sk_inmem sk);
                          i_backup_lsn := i_backup_lsn (sk_inmem sk);
                          i_peer_horizon_lsn := x;
                          i_remote_consistent_lsn := i_remote_consistent_lsn (sk_inmem sk);
                          i_proposer_uuid := i_proposer_uuid (sk_inmem sk) |} (state sk)) sk.

Definition update_commit_lsn (candidate : Lsn) : M anyhow SK unit :=
  sk ← get;
  let candidate := Z.max candidate (i_commit_lsn (sk_inmem sk)) in
  let commit := Z.min candidate (flush_lsn sk) in
  _ ← assert (bool_decide (i_commit_lsn (sk_inmem sk) <= commit));
  _ ← modify (set_commit_lsn commit);
  sk ← get;
  if bool_decide (term_start_lsn sk <= commit)
     && bool_decide (p_commit_lsn (sk_pers sk) < term_start_lsn sk)
  then on_state state_flush else mret tt.

Definition handle_append_request (msg : AppendRequest) (require_flush : bool) :
    M anyhow SK (option AcceptorProposerMessage) :=
  sk ← get;
  if decide (sk_generation sk <> h_generation (h msg)) then bail "generation mismatch"%string else
  if decide (sk_term sk < h_term (h msg)) then bail "got AppendRequest before ProposerElected"%string else
  if decide (h_term (h msg) < sk_term sk) then
    mret (Some (AAppendResponse (append_response_term_only (sk_generation sk) (sk_term sk)))) else
  let write_lsn := ws_write_lsn (wal_store sk) in
  let old_flush_lsn := ws_flush_lsn (wal_store sk) in
  if decide (begin_lsn (h msg) < write_lsn) then
    bail "append request rewrites WAL written before"%string else
  if decide (write_lsn < begin_lsn (h msg) /\ write_lsn <> 0) then
    bail "append request creates gap in written WAL"%string else
  _ ← (if decide (wal_data msg = []) then mret tt
       else on_wal (write_wal (begin_lsn (h msg)) (wal_data msg)));
  _ ← (if require_flush then on_wal flush_wal else mret tt);
  _ ← (if decide (h_commit_lsn (h msg) <> 0) then update_commit_lsn (h_commit_lsn (h msg)) else mret tt);
  _ ← modify (fun sk =>
        set_peer_horizon_lsn (Z.max (i_peer_horizon_lsn (sk_inmem sk)) (h_truncate_lsn (h msg))) sk);
  sk ← get;
  if negb require_flush && bool_decide (old_flush_lsn = flush_lsn sk) then mret None
  else mret (Some (AAppendResponse (append_response sk))).

Definition handle_flush : M anyhow SK (option AcceptorProposerMessage) :=
  _ ← on_wal flush_wal;
  sk ← get;
  mret (Some (AAppendResponse (append_response sk))).

Definition record_safekeeper_info (sk_info : SafekeeperTimelineInfo) : M anyhow SK unit :=
  if decide (si_commit_lsn sk_info <> LSN_INVALID) then
    sk ← get;
    if decide (si_last_log_term sk_info = get_last_log_term sk) then
      update_commit_lsn (si_commit_lsn sk_info)
    else mret tt
  else mret tt.

Definition process_msg (msg : ProposerAcceptorMessage) : M anyhow SK (option AcceptorProposerMessage) :=
  match msg with
  | PGreeting msg => handle_greeting msg
  | PVoteRequest msg => handle_vote_request msg
  | PElected msg => handle_elected msg
  | PAppendRequest msg => handle_append_request msg true
  | PNoFlushAppendRequest msg => handle_append_request msg false
  | PFlushWAL => handle_flush
  end.
End safekeeper.
