(* ===== verification/ControlFile.v ===== *)
(** * The control file ([safekeeper/src/control_file.rs], [control_file_upgrade.rs])

    [FileStorage] keeps the persistent state of a timeline in one file, replaced
    atomically by [durable_rename] ([libs/utils/src/crashsafe.rs]).  The file
    holds a magic number, a format version, the serialized state and a CRC.

    The serializer (bincode through [LeSer]) and the checksum are library code:
    the class [StateCodec], with what is relied on in [StateCodecLaws].  The file
    system is modelled by what the process sees and by the contents a crash can
    leave; every system call may fail, as a script of faults decides. *)

From S2P Require Import Prelude Lsn TermHistory Membership SkState.

(** ** Earlier formats *)

Record AcceptorStateV1 := { as1_term : Term; as1_epoch : Term }.

Record ServerInfoV2 := {
  si2_pg_version : PgVersionId;
  si2_system_id : Z;
  si2_tenant_id : list byte;
  si2_timeline_id : list byte;
  si2_wal_seg_size : Z
}.

Record SafeKeeperStateV1 := {
  v1_acceptor_state : AcceptorStateV1;
  v1_server : ServerInfoV2;
  v1_proposer_uuid : list byte;
  v1_commit_lsn : Lsn;
  v1_truncate_lsn : Lsn;
  v1_wal_start_lsn : Lsn
}.

(** Versions 2 and 3 have the same fields; 3 writes the ids in hex. *)
Record SafeKeeperStateV2 := {
  v2_acceptor_state : AcceptorState;
  v2_server : ServerInfoV2;
  v2_proposer_uuid : list byte;
  v2_commit_lsn : Lsn;
  v2_truncate_lsn : Lsn;
  v2_wal_start_lsn : Lsn
}.

Record PersistedPeerInfo := {
  pp_backup_lsn : Lsn;
  pp_term : Term;
  pp_flush_lsn : Lsn;
  pp_commit_lsn : Lsn
}.

#[global] Instance PersistedPeerInfo_eq_dec : EqDecision PersistedPeerInfo.
Proof. solve_decision. Defined.

Abbreviation PersistedPeers := (list (NodeId * PersistedPeerInfo)) (only parsing).

Record SafeKeeperStateV4 := {
  v4_tenant_id : list byte;
  v4_timeline_id : list byte;
  v4_acceptor_state : AcceptorState;
  v4_server : ServerInfo;
  v4_proposer_uuid : list byte;
  v4_commit_lsn : Lsn;
  v4_s3_wal_lsn : Lsn;
  v4_peer_horizon_lsn : Lsn;
  v4_remote_consistent_lsn : Lsn;
  v4_peers : PersistedPeers
}.

Record SafeKeeperStateV7 := {
  v7_tenant_id : list byte;
  v7_timeline_id : list byte;
  v7_acceptor_state : AcceptorState;
  v7_server : ServerInfo;
  v7_proposer_uuid : list byte;
  v7_timeline_start_lsn : Lsn;
  v7_local_start_lsn : Lsn;
  v7_commit_lsn : Lsn;
  v7_backup_lsn : Lsn;
  v7_peer_horizon_lsn : Lsn;
  v7_remote_consistent_lsn : Lsn;
  v7_peers : PersistedPeers
}.

Record SafeKeeperStateV8 := {
  v8_tenant_id : list byte;
  v8_timeline_id : list byte;
  v8_acceptor_state : AcceptorState;
  v8_server : ServerInfo;
  v8_proposer_uuid : list byte;
  v8_timeline_start_lsn : Lsn;
  v8_local_start_lsn : Lsn;
  v8_commit_lsn : Lsn;
  v8_backup_lsn : Lsn;
  v8_peer_horizon_lsn : Lsn;
  v8_remote_consistent_lsn : Lsn;
  v8_peers : PersistedPeers;
  v8_partial_backup : list PartialRemoteSegment
}.

Record TimelinePersistentStateV9 := {
  v9_tenant_id : list byte;
  v9_timeline_id : list byte;
  v9_acceptor_state : AcceptorState;
  v9_server : ServerInfo;
  v9_proposer_uuid : list byte;
  v9_timeline_start_lsn : Lsn;
  v9_local_start_lsn : Lsn;
  v9_commit_lsn : Lsn;
  v9_backup_lsn : Lsn;
  v9_peer_horizon_lsn : Lsn;
  v9_remote_consistent_lsn : Lsn;
  v9_peers : PersistedPeers;
  v9_partial_backup : list PartialRemoteSegment;
  v9_eviction_state : EvictionState
}.

(** ** Serialization *)

Class StateCodec := {
  ser10 : TimelinePersistentState -> list byte;
  des10 : list byte -> option TimelinePersistentState;
  ser9 : TimelinePersistentStateV9 -> list byte;
  des9 : list byte -> option TimelinePersistentStateV9;
  des8 : list byte -> option SafeKeeperStateV8;
  des7 : list byte -> option SafeKeeperStateV7;
  des4 : list byte -> option SafeKeeperStateV4;
  des3 : list byte -> option SafeKeeperStateV2;
  des2 : list byte -> option SafeKeeperStateV2;
  des1 : list byte -> option SafeKeeperStateV1;
  crc32c : list byte -> Z
}.

(** Reading what was written gives it back, the checksum is a [u32]. *)
Class StateCodecLaws `{!StateCodec} := {
  des10_ser10 s : des10 (ser10 s) = Some s;
  des9_ser9 s : des9 (ser9 s) = Some s;
  crc32c_u32 bs : 0 <= crc32c bs < 2 ^ 32
}.

Definition SK_MAGIC : Z := 0xcafeceef.
Definition SK_FORMAT_VERSION : Z := 10.
Definition CHECKSUM_SIZE : nat := 4.

(** [downgrade_v10_to_v9]; it is only called without a generation. *)
Definition downgrade_v10_to_v9 (s : TimelinePersistentState) : TimelinePersistentStateV9 :=
  {| v9_tenant_id := p_tenant_id s; v9_timeline_id := p_timeline_id s;
     v9_acceptor_state := p_acceptor_state s; v9_server := p_server s;
     v9_proposer_uuid := p_proposer_uuid s; v9_timeline_start_lsn := p_timeline_start_lsn s;
     v9_local_start_lsn := p_local_start_lsn s; v9_commit_lsn := p_commit_lsn s;
     v9_backup_lsn := p_backup_lsn s; v9_peer_horizon_lsn := p_peer_horizon_lsn s;
     v9_remote_consistent_lsn := p_remote_consistent_lsn s; v9_peers := [];
     v9_partial_backup := p_partial_backup s; v9_eviction_state := p_eviction_state s |}.

Section format.
Context `{!StateCodec}.

Definition server_info_of_v2 (si : ServerInfoV2) : ServerInfo :=
  {| pg_version := si2_pg_version si; system_id := si2_system_id si;
     wal_seg_size := si2_wal_seg_size si |}.

Definition upgrade_v2 (o : SafeKeeperStateV2) : TimelinePersistentState :=
  {| p_tenant_id := si2_tenant_id (v2_server o); p_timeline_id := si2_timeline_id (v2_server o);
     p_mconf := configuration_empty; p_acceptor_state := v2_acceptor_state o;
     p_server := server_info_of_v2 (v2_server o); p_proposer_uuid := v2_proposer_uuid o;
     p_timeline_start_lsn := 0; p_local_start_lsn := 0; p_commit_lsn := v2_commit_lsn o;
     p_backup_lsn := 0; p_peer_horizon_lsn := v2_truncate_lsn o; p_remote_consistent_lsn := 0;
     p_partial_backup := []; p_eviction_state := Present; p_creation_ts := 0 |}.

Definition upgrade_v1 (o : SafeKeeperStateV1) : TimelinePersistentState :=
  upgrade_v2
    {| v2_acceptor_state :=
         {| term := as1_term (v1_acceptor_state o);
            term_history := [{| tl_term := as1_epoch (v1_acceptor_state o); tl_lsn := 0 |}] |};
       v2_server := v1_server o; v2_proposer_uuid := v1_proposer_uuid o;
       v2_commit_lsn := v1_commit_lsn o; v2_truncate_lsn := v1_truncate_lsn o;
       v2_wal_start_lsn := v1_wal_start_lsn o |}.

Definition upgrade_v4 (o : SafeKeeperStateV4) : TimelinePersistentState :=
  {| p_tenant_id := v4_tenant_id o; p_timeline_id := v4_timeline_id o;
     p_mconf := configuration_empty; p_acceptor_state := v4_acceptor_state o;
     p_server := v4_server o; p_proposer_uuid := v4_proposer_uuid o;
     p_timeline_start_lsn := 0; p_local_start_lsn := 0; p_commit_lsn := v4_commit_lsn o;
     p_backup_lsn := LSN_INVALID; p_peer_horizon_lsn := v4_peer_horizon_lsn o;
     p_remote_consistent_lsn := 0; p_partial_backup := []; p_eviction_state := Present;
     p_creation_ts := 0 |}.

Definition upgrade_v5 (o : TimelinePersistentState) : TimelinePersistentState :=
  if decide (p_timeline_start_lsn o <> 0) then o
  else set_lsns 1 1 (p_commit_lsn o) (p_backup_lsn o) (p_peer_horizon_lsn o)
         (p_remote_consistent_lsn o) o.

Definition upgrade_v6 (o : TimelinePersistentState) : TimelinePersistentState :=
  if decide (pg_version (p_server o) <> UNKNOWN_SERVER_VERSION) then o
  else set_server {| pg_version := 140005; system_id := system_id (p_server o);
                     wal_seg_size := wal_seg_size (p_server o) |} o.

Definition upgrade_v9 (o : TimelinePersistentStateV9) : TimelinePersistentState :=
  {| p_tenant_id := v9_tenant_id o; p_timeline_id := v9_timeline_id o;
     p_mconf := configuration_empty; p_acceptor_state := v9_acceptor_state o;
     p_server := v9_server o; p_proposer_uuid := v9_proposer_uuid o;
     p_timeline_start_lsn := v9_timeline_start_lsn o; p_local_start_lsn := v9_local_start_lsn o;
     p_commit_lsn := v9_commit_lsn o; p_backup_lsn := v9_backup_lsn o;
     p_peer_horizon_lsn := v9_peer_horizon_lsn o;
     p_remote_consistent_lsn := v9_remote_consistent_lsn o;
     p_partial_backup := v9_partial_backup o; p_eviction_state := v9_eviction_state o;
     p_creation_ts := 0 |}.

Definition upgrade_v8 (o : SafeKeeperStateV8) : TimelinePersistentState :=
  upgrade_v9
    {| v9_tenant_id := v8_tenant_id o; v9_timeline_id := v8_timeline_id o;
       v9_acceptor_state := v8_acceptor_state o; v9_server := v8_server o;
       v9_proposer_uuid := v8_proposer_uuid o; v9_timeline_start_lsn := v8_timeline_start_lsn o;
       v9_local_start_lsn := v8_local_start_lsn o; v9_commit_lsn := v8_commit_lsn o;
       v9_backup_lsn := v8_backup_lsn o; v9_peer_horizon_lsn := v8_peer_horizon_lsn o;
       v9_remote_consistent_lsn := v8_remote_consistent_lsn o; v9_peers := v8_peers o;
       v9_partial_backup := v8_partial_backup o; v9_eviction_state := Present |}.

Definition upgrade_v7 (o : SafeKeeperStateV7) : TimelinePersistentState :=
  upgrade_v8
    {| v8_tenant_id := v7_tenant_id o; v8_timeline_id := v7_timeline_id o;
       v8_acceptor_state := v7_acceptor_state o; v8_server := v7_server o;
       v8_proposer_uuid := v7_proposer_uuid o; v8_timeline_start_lsn := v7_timeline_start_lsn o;
       v8_local_start_lsn := v7_local_start_lsn o; v8_commit_lsn := v7_commit_lsn o;
       v8_backup_lsn := v7_backup_lsn o; v8_peer_horizon_lsn := v7_peer_horizon_lsn o;
       v8_remote_consistent_lsn := v7_remote_consistent_lsn o; v8_peers := v7_peers o;
       v8_partial_backup := [] |}.

Definition des_with {A} (o : option A) : outcome anyhow A :=
  match o with Some a => Ok a | None => Err "DeserializeError"%string end.

(** [upgrade_control_file]; the literal [140005] of version 6 is a known
    version, so [from_full_pg_version] does not panic there. *)
Definition upgrade_control_file (buf : list byte) (version : Z) :
    outcome anyhow TimelinePersistentState :=
  if decide (version = 1) then upgrade_v1 <$> des_with (des1 buf)
  else if decide (version = 2) then upgrade_v2 <$> des_with (des2 buf)
  else if decide (version = 3) then upgrade_v2 <$> des_with (des3 buf)
  else if decide (version = 4) then upgrade_v4 <$> des_with (des4 buf)
  else if decide (version = 5) then upgrade_v5 <$> des_with (des10 buf)
  else if decide (version = 6) then upgrade_v6 <$> des_with (des10 buf)
  else if decide (version = 7) then upgrade_v7 <$> des_with (des7 buf)
  else if decide (version = 8) then upgrade_v8 <$> des_with (des8 buf)
  else if decide (version = 9) then upgrade_v9 <$> des_with (des9 buf)
  else Err "unsupported safekeeper control file version"%string.

(** [ReadBytesExt::read_u32::<LittleEndian>]: the value and what follows. *)
Definition read_u32_le (buf : list byte) : outcome anyhow (Z * list byte) :=
  if decide (length buf < 4)%nat then Err "failed to fill whole buffer"%string
  else Ok (le_Z (take 4 buf), drop 4 buf).

(** [FileStorage::deser_sk_state]. *)
Definition deser_sk_state (buf : list byte) : outcome anyhow TimelinePersistentState :=
  '(magic, buf) ← read_u32_le buf;
  if decide (magic <> SK_MAGIC) then Err "bad control file magic"%string else
  '(version, buf) ← read_u32_le buf;
  if decide (version = SK_FORMAT_VERSION) then des_with (des10 buf)
  else upgrade_control_file buf version.

(** [FileStorage::load_control_file], from the bytes of the file.  The slice
    [buf[..buf.len() - CHECKSUM_SIZE]] of a shorter file is out of range. *)
Definition load_control_file (buf : list byte) : outcome anyhow TimelinePersistentState :=
  if decide (length buf < CHECKSUM_SIZE)%nat then Panic else
  let body := take (length buf - CHECKSUM_SIZE) buf in
  let calculated_checksum := crc32c body in
  let expected_checksum := le_Z (drop (length buf - CHECKSUM_SIZE) buf) in
  if decide (calculated_checksum = expected_checksum) then deser_sk_state body
  else Err "safekeeper control file checksum mismatch"%string.

(** [TimelinePersistentState::write_to_buf]. *)
Definition write_to_buf (s : TimelinePersistentState) : list byte :=
  let buf := le_bytes 4 SK_MAGIC ++
    if decide (generation (p_mconf s) = INVALID_GENERATION)
    then le_bytes 4 9 ++ ser9 (downgrade_v10_to_v9 s)
    else le_bytes 4 SK_FORMAT_VERSION ++ ser10 s in
  buf ++ le_bytes 4 (crc32c buf).
End format.

(** ** The file *)

(** [fs_partial] and [fs_control] are the two files as the process sees them,
    [fs_synced] tells whether the contents of the first are on disk.  A crash can
    leave the control file with one of the contents [fs_crash]; once the directory
    is synced, one of [fs_renamed], those of the file last renamed to it. *)
Record FileStorage := {
  fs_no_sync : bool;
  fs_state : TimelinePersistentState;
  fs_partial : list byte;
  fs_synced : bool;
  fs_control : list byte;
  fs_renamed : list (list byte);
  fs_crash : list (list byte);
  fs_faults : list (option nat)
}.

#[global] Instance FileStorage_faulty : Faulty FileStorage := {|
  faults := fs_faults;
  set_faults r c := {| fs_no_sync := fs_no_sync c; fs_state := fs_state c;
                       fs_partial := fs_partial c; fs_synced := fs_synced c; fs_control := fs_control c;
                       fs_renamed := fs_renamed c; fs_crash := fs_crash c; fs_faults := r |}
|}.

Definition set_partial (b : list byte) (c : FileStorage) : FileStorage :=
  {| fs_no_sync := fs_no_sync c; fs_state := fs_state c; fs_partial := b; fs_synced := false;
     fs_control := fs_control c; fs_renamed := fs_renamed c; fs_crash := fs_crash c;
     fs_faults := fs_faults c |}.

Definition sync_partial (c : FileStorage) : FileStorage :=
  {| fs_no_sync := fs_no_sync c; fs_state := fs_state c; fs_partial := fs_partial c; fs_synced := true;
     fs_control := fs_control c; fs_renamed := fs_renamed c; fs_crash := fs_crash c;
     fs_faults := fs_faults c |}.

(** Of a file that is not synced a crash can leave any prefix. *)
Definition torn (synced : bool) (b : list byte) : list (list byte) :=
  if synced then [b] else map (fun n => take n b) (seq 0 (S (length b))).

(** After the rename a crash may leave the old or the new file, until the
    directory is synced. *)
Definition rename_partial (c : FileStorage) : FileStorage :=
  let left := torn (fs_synced c) (fs_partial c) in
  {| fs_no_sync := fs_no_sync c; fs_state := fs_state c; fs_partial := []; fs_synced := false;
     fs_control := fs_partial c; fs_renamed := left; fs_crash := left ++ fs_crash c;
     fs_faults := fs_faults c |}.

Definition sync_dir (c : FileStorage) : FileStorage :=
  {| fs_no_sync := fs_no_sync c; fs_state := fs_state c; fs_partial := fs_partial c;
     fs_synced := fs_synced c; fs_control := fs_control c; fs_renamed := fs_renamed c;
     fs_crash := fs_renamed c; fs_faults := fs_faults c |}.

Definition set_fs_state (s : TimelinePersistentState) (c : FileStorage) : FileStorage :=
  {| fs_no_sync := fs_no_sync c; fs_state := s; fs_partial := fs_partial c; fs_synced := fs_synced c;
     fs_control := fs_control c; fs_renamed := fs_renamed c; fs_crash := fs_crash c;
     fs_faults := fs_faults c |}.

(** [fsync_async_opt]. *)
Definition fsync_async_opt (do_fsync : bool) (synced : FileStorage -> FileStorage) :
    M anyhow FileStorage unit :=
  if do_fsync then sys "fsync failed"%string synced (fun _ c => c) else mret tt.

(** [durable_rename] of the partial file to the control file. *)
Definition durable_rename (do_fsync : bool) : M anyhow FileStorage unit :=
  _ ← fsync_async_opt do_fsync sync_partial;
  _ ← sys "rename failed"%string rename_partial (fun _ c => c);
  fsync_async_opt do_fsync sync_dir.

Section file_storage.
Context `{!StateCodec}.

(** [FileStorage::persist]. *)
Definition file_persist (s : TimelinePersistentState) : M anyhow FileStorage unit :=
  _ ← sys "failed to create partial control file"%string (set_partial []) (fun _ c => c);
  let buf := write_to_buf s in
  _ ← sys "failed to write safekeeper state into control file"%string
        (set_partial buf) (fun n => set_partial (take n buf));
  _ ← sys "failed to flush safekeeper state into control file"%string id (fun _ c => c);
  no_sync ← gets fs_no_sync;
  _ ← durable_rename (negb no_sync);
  modify (set_fs_state s).

(** [FileStorage::restore_new], on the contents [buf] found on disk. *)
Definition restore_new (buf : list byte) (no_sync : bool) (script : list (option nat)) :
    outcome anyhow FileStorage :=
  state ← load_control_file buf;
  Ok {| fs_no_sync := no_sync; fs_state := state; fs_partial := []; fs_synced := false;
        fs_control := buf; fs_renamed := [buf]; fs_crash := [buf]; fs_faults := script |}.

(** [FileStorage::create_new], in an empty directory. *)
Definition create_new (s : TimelinePersistentState) (no_sync : bool)
    (script : list (option nat)) : outcome anyhow FileStorage :=
  if decide (p_eviction_state s = Present) then
    match file_persist s {| fs_no_sync := no_sync; fs_state := s; fs_partial := [];
                            fs_synced := false; fs_control := []; fs_renamed := []; fs_crash := []; fs_faults := script |} with
    | (Ok _, c) => Ok c
    | (Err e, _) => Err e
    | (Panic, _) => Panic
    end
  else Panic.

#[global] Instance FileStorage_control_file : ControlFile FileStorage := {|
  cf_state := fs_state;
  persist := file_persist;
  may_recover c s := exists buf, buf ∈ fs_crash c /\ load_control_file buf = Ok s;
  cf_inv c := fs_no_sync c = false
|}.
End file_storage.

(** ** Theorems *)

Section file_storage_facts.
Context `{!StateCodec, !StateCodecLaws}.

Lemma read_u32_le_app n z rest :
  n = 4%nat -> in_u 32 z -> read_u32_le (le_bytes n z ++ rest) = Ok (z, rest).
Proof.
  intros -> Hz. unfold read_u32_le.
  rewrite decide_False by (rewrite length_app, length_le_bytes; lia).
  rewrite take_app_length', drop_app_length' by (by rewrite length_le_bytes).
  by rewrite le_Z_le_bytes_small.
Qed.

(** A state read back from its own bytes is the state as it is saved. *)
Lemma load_write_to_buf s : load_control_file (write_to_buf s) = Ok (saved_form s).
Proof.
  unfold load_control_file, write_to_buf. set (body := _ ++ (if decide _ then _ else _)).
  rewrite length_app, length_le_bytes, decide_False by (unfold CHECKSUM_SIZE; lia).
  replace (length body + 4 - CHECKSUM_SIZE)%nat with (length body) by (unfold CHECKSUM_SIZE; lia).
  rewrite take_app_length, drop_app_length, le_Z_le_bytes_small by apply crc32c_u32.
  rewrite decide_True by done. subst body. unfold deser_sk_state, saved_form.
  case_decide as Hg; rewrite read_u32_le_app by done; cbn [mbind outcome_bind];
    rewrite decide_False by congruence; rewrite read_u32_le_app by done; cbn [mbind outcome_bind].
  - rewrite decide_False by done. unfold upgrade_control_file.
    repeat (rewrite decide_False by done). rewrite decide_True by done.
    by rewrite des9_ser9.
  - by rewrite decide_True, des10_ser10.
Qed.

(** What every outcome of [persist] leaves. *)
Lemma file_persist_spec s c :
  fs_no_sync c = false ->
  wp (file_persist s) (fun o c' =>
    fs_no_sync c' = false /\
    match o with
    | Ok _ => fs_state c' = s /\ fs_control c' = write_to_buf s /\ fs_crash c' = [write_to_buf s]
    | Err _ => fs_state c' = fs_state c
               /\ (fs_crash c' = fs_crash c \/ fs_crash c' = write_to_buf s :: fs_crash c)
    | Panic => False
    end) c.
Proof.
  intros Hs. unfold file_persist, durable_rename, fsync_async_opt.
  repeat (wp_step; simpl; rewrite ?Hs); auto.
Qed.

#[global] Instance FileStorage_laws : ControlFileLaws FileStorage.
Proof.
  split; intros s c; simpl.
  - intros c' Hi E. eapply wp_elim in E as Hp; [|by apply file_persist_spec].
    destruct Hp as (? & ? & ? & Hc). split_and!; [done..|]. rewrite Hc.
    intros r (buf & ->%list_elem_of_singleton & Hl). rewrite load_write_to_buf in Hl. congruence.
  - intros e c' Hi E. eapply wp_elim in E as Hp; [|by apply file_persist_spec].
    destruct Hp as (? & ? & Hc). split_and!; [done..|].
    intros r (buf & Hb & Hl). destruct Hc as [Hc|Hc]; rewrite Hc in Hb; [eauto|].
    apply elem_of_cons in Hb as [->|Hb]; [|eauto].
    left. rewrite load_write_to_buf in Hl. congruence.
  - intros c' Hi E. eapply wp_elim in E as Hp; [|by apply file_persist_spec]. by destruct Hp.
Qed.
End file_storage_facts.

Section control_file_properties.
Context `{!StateCodec, !StateCodecLaws}.

(** C35: reading a control file back gives the state that was written, exactly
    when the state has a membership generation, or has neither a configuration
    nor a creation time to lose: the format written without a generation drops
    both. *)
Theorem control_file_round_trip s :
  load_control_file (write_to_buf s) = Ok (saved_form s)
  /\ (saved_form s = s <->
      generation (p_mconf s) <> INVALID_GENERATION
      \/ (p_mconf s = configuration_empty /\ p_creation_ts s = 0)).
Proof.
  split; [apply load_write_to_buf|]. unfold saved_form.
  destruct s as [? ? mc ? ? ? ? ? ? ? ? ? ? ? cr]. simpl. case_decide as Hg; split.
  - intros [= <- <-]. auto.
  - intros [Hn|[-> ->]]; [contradiction|done].
  - auto.
  - done.
Qed.

(** C22: [persist] is atomic under crashes and I/O errors.  Whatever system
    calls fail, a process that restarts on what a crash can leave reads the new
    state or a state readable before; after success it reads the new one. *)
Theorem persist_atomic s c :
  fs_no_sync c = false ->
  wp (file_persist s) (fun o c' =>
    o <> Panic /\
    forall buf no_sync script, buf ∈ fs_crash c' ->
      match o with
      | Ok _ => exists c2, restore_new buf no_sync script = Ok c2 /\ fs_state c2 = saved_form s
      | _ => fs_state c' = fs_state c /\
             (buf ∈ fs_crash c
              \/ exists c2, restore_new buf no_sync script = Ok c2 /\ fs_state c2 = saved_form s)
      end) c.
Proof.
  intros Hs. eapply wp_mono; [by apply file_persist_spec|]. intros o c' [_ Ho].
  assert (forall no_sync script, exists c2,
    restore_new (write_to_buf s) no_sync script = Ok c2 /\ fs_state c2 = saved_form s) as Hr.
  { intros. unfold restore_new. rewrite load_write_to_buf. eexists. split; [reflexivity|done]. }
  destruct o as [[]|e|]; [| |done]; (split; [done|]); intros buf no_sync script Hb.
  - destruct Ho as (_ & _ & Hc). rewrite Hc in Hb. apply list_elem_of_singleton in Hb as ->. apply Hr.
  - destruct Ho as [Hst [Hc|Hc]]; rewrite Hc in Hb; (split; [done|]); [auto|].
    apply elem_of_cons in Hb as [->|Hb]; auto.
Qed.
End control_file_properties.

(** ** A codec

    Any injective encoding satisfies the laws; this one, by trees of integers,
    shows that they can hold, with the sum of the bytes as the checksum. *)

Class Tree (A : Type) := {
  to_tree : A -> gen_tree Z;
  of_tree : gen_tree Z -> option A;
  of_to_tree x : of_tree (to_tree x) = Some x
}.

#[global] Instance Z_tree : Tree Z.
Proof. by refine {| to_tree := GenLeaf; of_tree t := match t with GenLeaf z => Some z | _ => None end |}. Defined.

#[global] Instance list_tree {A} `{!Tree A} : Tree (list A).
Proof.
  refine {| to_tree l := GenNode 0 (map to_tree l);
            of_tree t := match t with GenNode _ l => mapM of_tree l | _ => None end |}.
  intros l. induction l as [|x l IH]; [done|]. simpl. rewrite of_to_tree. simpl. by rewrite IH.
Defined.

#[global] Instance pair_tree {A B} `{!Tree A, !Tree B} : Tree (A * B).
Proof.
  refine {| to_tree p := GenNode 1 [to_tree p.1; to_tree p.2];
            of_tree t := match t with
                         | GenNode _ [a; b] => a ← of_tree a; b ← of_tree b; Some (a, b)
                         | _ => None
                         end |}.
  intros [a b]. simpl. rewrite of_to_tree. simpl. by rewrite of_to_tree.
Defined.

#[global] Instance option_tree {A} `{!Tree A} : Tree (option A).
Proof.
  refine {| to_tree o := match o with Some a => GenNode 2 [to_tree a] | None => GenNode 2 [] end;
            of_tree t := match t with
                         | GenNode _ [a] => Some <$> of_tree a
                         | GenNode _ [] => Some None
                         | _ => None
                         end |}.
  intros [a|]; [|done]. by rewrite of_to_tree.
Defined.

Program Definition inj_tree {A B} `{!Tree B} (f : A -> B) (g : B -> A) (Hg : forall x, g (f x) = x) : Tree A := {|
  to_tree x := to_tree (f x);
  of_tree t := g <$> of_tree t
|}.
Next Obligation. intros A B HB f g Hg x. simpl. rewrite of_to_tree. simpl. by rewrite Hg. Qed.

#[global] Instance byte_tree : Tree byte := inj_tree byte_Z Z_byte Z_byte_byte_Z.

#[global] Program Instance TermLsn_tree : Tree TermLsn :=
  inj_tree (fun x => (tl_term x, tl_lsn x)) (fun x => {| tl_term := x.1; tl_lsn := x.2 |}) _.
Next Obligation. by intros []. Qed.

#[global] Program Instance AcceptorState_tree : Tree AcceptorState :=
  inj_tree (fun x => (term x, term_history x)) (fun x => {| term := x.1; term_history := x.2 |}) _.
Next Obligation. by intros []. Qed.

#[global] Program Instance SafekeeperId_tree : Tree SafekeeperId :=
  inj_tree (fun x => (sk_id x, sk_host x, sk_pg_port x))
    (fun x => {| sk_id := x.1.1; sk_host := x.1.2; sk_pg_port := x.2 |}) _.
Next Obligation. by intros []. Qed.

#[global] Program Instance MemberSet_tree : Tree MemberSet :=
  inj_tree m (fun x => {| m := x |}) _.
Next Obligation. by intros []. Qed.

#[global] Program Instance Configuration_tree : Tree Configuration :=
  inj_tree (fun x => (generation x, members x, new_members x))
    (fun x => {| generation := x.1.1; members := x.1.2; new_members := x.2 |}) _.
Next Obligation. by intros []. Qed.

#[global] Program Instance ServerInfo_tree : Tree ServerInfo :=
  inj_tree (fun x => (pg_version x, system_id x, wal_seg_size x))
    (fun x => {| pg_version := x.1.1; system_id := x.1.2; wal_seg_size := x.2 |}) _.
Next Obligation. by intros []. Qed.

#[global] Program Instance UploadStatus_tree : Tree UploadStatus :=
  inj_tree (fun x => match x with InProgress => 0 | Uploaded => 1 | Deleting => 2 end)
    (fun z => if decide (z = 0) then InProgress else if decide (z = 1) then Uploaded else Deleting) _.
Next Obligation. by intros []. Qed.

#[global] Program Instance PartialRemoteSegment_tree : Tree PartialRemoteSegment :=
  inj_tree (fun x => (prs_status x, prs_name x, prs_commit_lsn x, prs_flush_lsn x, prs_term x))
    (fun x => {| prs_status := x.1.1.1.1; prs_name := x.1.1.1.2; prs_commit_lsn := x.1.1.2;
                 prs_flush_lsn := x.1.2; prs_term := x.2 |}) _.
Next Obligation. by intros []. Qed.

#[global] Program Instance EvictionState_tree : Tree EvictionState :=
  inj_tree (fun x => match x with Present => None | Offloaded l => Some l end)
    (fun o => match o with None => Present | Some l => Offloaded l end) _.
Next Obligation. by intros []. Qed.

#[global] Program Instance PersistedPeerInfo_tree : Tree PersistedPeerInfo :=
  inj_tree (fun x => (pp_backup_lsn x, pp_term x, pp_flush_lsn x, pp_commit_lsn x))
    (fun x => {| pp_backup_lsn := x.1.1.1; pp_term := x.1.1.2; pp_flush_lsn := x.1.2;
                 pp_commit_lsn := x.2 |}) _.
Next Obligation. by intros []. Qed.

(** Bits of a code, one per byte. *)
Fixpoint pos_bytes (p : positive) : list byte :=
  match p with
  | xH => []
  | xO p => Byte.x00 :: pos_bytes p
  | xI p => Byte.x01 :: pos_bytes p
  end.

Fixpoint bytes_pos (bs : list byte) : positive :=
  match bs with
  | [] => xH
  | b :: bs => if decide (b = Byte.x00) then xO (bytes_pos bs) else xI (bytes_pos bs)
  end.

Lemma bytes_pos_pos_bytes p : bytes_pos (pos_bytes p) = p.
Proof. induction p as [p IH|p IH|]; simpl; by rewrite ?IH. Qed.

Section tuples.
Implicit Types (s : TimelinePersistentState) (o : TimelinePersistentStateV9).

Definition tuple10 s :=
  (p_tenant_id s, p_timeline_id s, p_mconf s, p_acceptor_state s, p_server s, p_proposer_uuid s,
   [p_timeline_start_lsn s; p_local_start_lsn s; p_commit_lsn s; p_backup_lsn s;
    p_peer_horizon_lsn s; p_remote_consistent_lsn s; p_creation_ts s],
   p_partial_backup s, p_eviction_state s).

Definition tuple9 o :=
  (v9_tenant_id o, v9_timeline_id o, v9_acceptor_state o, v9_server o, v9_proposer_uuid o,
   [v9_timeline_start_lsn o; v9_local_start_lsn o; v9_commit_lsn o; v9_backup_lsn o;
    v9_peer_horizon_lsn o; v9_remote_consistent_lsn o],
   v9_peers o, v9_partial_backup o, v9_eviction_state o).
End tuples.

Definition codec_des10 (bs : list byte) : option TimelinePersistentState :=
  match (t ← decode (bytes_pos bs); of_tree t) with
  | Some (tenant, timeline, mconf, acc, server, uuid, [l1; l2; l3; l4; l5; l6; ts], partial, evict) =>
      Some {| p_tenant_id := tenant; p_timeline_id := timeline; p_mconf := mconf;
              p_acceptor_state := acc; p_server := server; p_proposer_uuid := uuid;
              p_timeline_start_lsn := l1; p_local_start_lsn := l2; p_commit_lsn := l3;
              p_backup_lsn := l4; p_peer_horizon_lsn := l5; p_remote_consistent_lsn := l6;
              p_partial_backup := partial; p_eviction_state := evict; p_creation_ts := ts |}
  | _ => None
  end.

Definition codec_des9 (bs : list byte) : option TimelinePersistentStateV9 :=
  match (t ← decode (bytes_pos bs); of_tree t) with
  | Some (tenant, timeline, acc, server, uuid, [l1; l2; l3; l4; l5; l6], peers, partial, evict) =>
      Some {| v9_tenant_id := tenant; v9_timeline_id := timeline; v9_acceptor_state := acc;
              v9_server := server; v9_proposer_uuid := uuid; v9_timeline_start_lsn := l1;
              v9_local_start_lsn := l2; v9_commit_lsn := l3; v9_backup_lsn := l4;
              v9_peer_horizon_lsn := l5; v9_remote_consistent_lsn := l6; v9_peers := peers;
              v9_partial_backup := partial; v9_eviction_state := evict |}
  | _ => None
  end.

Definition tree_codec : StateCodec := {|
  ser10 s := pos_bytes (encode (to_tree (tuple10 s)));
  des10 := codec_des10;
  ser9 o := pos_bytes (encode (to_tree (tuple9 o)));
  des9 := codec_des9;
  des8 _ := None; des7 _ := None; des4 _ := None; des3 _ := None; des2 _ := None; des1 _ := None;
  crc32c bs := wrap 32 (foldr (fun b z => byte_Z b + z) 0 bs)
|}.

Lemma decode_tree {A} `{!Tree A} (x : A) :
  (t ← decode (bytes_pos (pos_bytes (encode (to_tree x)))); of_tree t) = Some x.
Proof. rewrite bytes_pos_pos_bytes, decode_encode. apply of_to_tree. Qed.

Lemma tree_codec_laws : @StateCodecLaws tree_codec.
Proof.
  split.
  - intros s. unfold des10, ser10, tree_codec, codec_des10. rewrite decode_tree. by destruct s.
  - intros s. unfold des9, ser9, tree_codec, codec_des9. rewrite decode_tree. by destruct s.
  - intros bs. by apply wrap_in_u.
Qed.

(** A state with and one without a membership generation, and a control file
    whose second [fsync] fails. *)
Definition example_state (g : SafekeeperGeneration) (ts : Z) : TimelinePersistentState :=
  {| p_tenant_id := zeros 16; p_timeline_id := zeros 16;
     p_mconf := {| generation := g; members := member_set_empty; new_members := None |};
     p_acceptor_state := {| term := 3; term_history := [{| tl_term := 1; tl_lsn := 16 |}] |};
     p_server := {| pg_version := 160002; system_id := 7; wal_seg_size := WAL_SEGMENT_SIZE |};
     p_proposer_uuid := zeros 16; p_timeline_start_lsn := 16; p_local_start_lsn := 16;
     p_commit_lsn := 24; p_backup_lsn := 16; p_peer_horizon_lsn := 16;
     p_remote_consistent_lsn := 0; p_partial_backup := []; p_eviction_state := Present;
     p_creation_ts := ts |}.

Definition example_file (script : list (option nat)) : FileStorage :=
  {| fs_no_sync := false; fs_state := example_state 1 9; fs_partial := []; fs_synced := false;
     fs_control := []; fs_renamed := []; fs_crash := []; fs_faults := script |}.

Lemma control_file_round_trip_witness :
  @saved_form (example_state 1 9) = example_state 1 9 /\ saved_form (example_state 0 9) <> example_state 0 9.
Proof.
  split.
  - apply (@control_file_round_trip tree_codec tree_codec_laws). by left.
  - intros H. by apply (@control_file_round_trip tree_codec tree_codec_laws) in H as [[]|[? [=]]].
Defined.

Lemma persist_atomic_witness :
  wp (@file_persist tree_codec (example_state 2 9))
    (fun o _ => o <> Panic) (example_file [None; None; None; None; None; Some 0%nat]).
Proof.
  eapply wp_mono; [apply (@persist_atomic tree_codec tree_codec_laws); reflexivity|].
  intros o c' H. apply H.
Defined.
