(* ===== verification/WalStorage.v ===== *)
(** * WAL on disk ([safekeeper/src/wal_storage.rs])

    [PhysicalStorage] keeps the WAL in segment files; the last one has the
    suffix [.partial].  The decoder that finds record boundaries is the class
    [WalDecoder] (discharged in [WalStream.v]).

    The disk is modelled cell by cell: a byte carries a flag that tells whether
    it would survive a crash, a file carries a flag for its directory entry.
    Every system call may fail ([Prelude.Faulty]). *)

From S2P Require Import Prelude Lsn TermHistory Membership SkState Safekeeper.

(** ** The decoder, as the storage uses it *)

Class WalDecoder (D : Type) := {
  d_new : Lsn -> PgMajorVersion -> D;
  d_pg_version : D -> PgMajorVersion;
  d_available : D -> Lsn;
  d_feed : list byte -> D -> D;
  d_poll : M anyhow D (option (Lsn * list byte));
  (** [WAL_SEGMENT_SIZE]. *)
  d_seg : Z;
  (** The end of the last record returned or, past it, the position reached. *)
  d_pos : D -> Lsn;
  (** A bound on the number of records still to come from what was fed. *)
  d_fuel : D -> nat
}.

(** The first segment boundary at or after an LSN. *)
Definition seg_ceil (seg pos : Z) : Z := (pos + seg - 1) / seg * seg.

Class WalDecoderLaws (D : Type) `{!WalDecoder D} := {
  d_seg_pos : 0 < d_seg;
  d_available_new l v : d_available (d_new l v) = l;
  d_pos_new l v : d_pos (d_new l v) = l;
  d_available_feed bs d : d_available (d_feed bs d) = d_available d + Z.of_nat (length bs);
  d_pos_feed bs d : d_pos (d_feed bs d) = d_pos d;
  d_poll_spec d : 0 <= d_pos d -> d_available d <= LSN_MAX - 7 ->
    wp d_poll (fun o d' =>
      d_pos d <= d_pos d' /\
      match o with
      | Ok (Some (lsn, _)) =>
          d_available d' = d_available d /\ d_pos d' = lsn
          /\ d_pos d < lsn <= seg_ceil d_seg (d_available d) /\ (d_fuel d' < d_fuel d)%nat
      | Ok None => d_available d' = d_available d
      | _ => d_pos d' <= d_available d
      end) d
}.

(** [generate_wal_segment], by segment number, system id, version and LSN. *)
Class SegmentGenerator := {
  generate_wal_segment : Z -> Z -> PgMajorVersion -> Lsn -> outcome anyhow (list byte)
}.

(** ** Files *)

(** A byte and whether it is durable. *)
Abbreviation cell := (byte * bool)%type (only parsing).

Record SegFile := { cells : list cell; linked : bool }.

Definition zero_cell : cell := (Byte.x00, false).

(** Writing past the end fills the gap with zeros. *)
Definition write_at (pos : nat) (bs : list byte) (l : list cell) : list cell :=
  take pos (l ++ replicate (pos - length l) zero_cell)
  ++ map (fun b => (b, false)) bs ++ drop (pos + length bs) l.

Definition set_len (n : nat) (l : list cell) : list cell := take n l ++ replicate (n - length l) zero_cell.

Definition sync_cells (l : list cell) : list cell := map (fun c => (c.1, true)) l.

Definition map_cells (f : list cell -> list cell) (x : SegFile) : SegFile :=
  {| cells := f (cells x); linked := linked x |}.

(** A segment file is named by its number; [true] is the [.partial] name. *)
Abbreviation seg_name := (Z * bool)%type (only parsing).

(** The timeline directory.  [unhandled] is a second script of faults, for the
    calls whose failure the code takes for something else. *)
Record Disk := {
  full : gmap Z SegFile;
  partial : gmap Z SegFile;
  disk_faults : list (option nat);
  unhandled : list bool
}.

#[global] Instance Disk_faulty : Faulty Disk := {|
  faults := disk_faults;
  set_faults r d := {| full := full d; partial := partial d; disk_faults := r; unhandled := unhandled d |}
|}.

Definition set_files (f p : gmap Z SegFile) (d : Disk) : Disk :=
  {| full := f; partial := p; disk_faults := disk_faults d; unhandled := unhandled d |}.

(** The file behind a name, and a change of its contents; a handle to a file
    that was removed changes nothing that has a name. *)
Definition lookup_name (n : seg_name) (d : Disk) : option SegFile :=
  if n.2 then partial d !! n.1 else full d !! n.1.

Definition alter_file (g : SegFile -> SegFile) (n : seg_name) (d : Disk) : Disk :=
  if n.2 then set_files (full d) (alter g n.1 (partial d)) d
  else set_files (alter g n.1 (full d)) (partial d) d.

Definition remove_name (n : seg_name) (d : Disk) : Disk :=
  if n.2 then set_files (full d) (delete n.1 (partial d)) d
  else set_files (delete n.1 (full d)) (partial d) d.

(** [rename] between the two names of a segment. *)
Definition rename_to_full (segno : Z) (d : Disk) : Disk :=
  match partial d !! segno with
  | Some f => set_files (<[segno := f]> (full d)) (delete segno (partial d)) d
  | None => d
  end.

Definition rename_to_partial (segno : Z) (d : Disk) : Disk :=
  match full d !! segno with
  | Some f => set_files (delete segno (full d)) (<[segno := f]> (partial d)) d
  | None => d
  end.

Abbreviation IO A := (M anyhow Disk A) (only parsing).

(** A call that leaves the disk alone, such as [seek], and a read of the second
    script. *)
Definition sys_nop (e : string) : IO unit := sys e id (fun _ d => d).

Definition unhandled_fault : IO bool := fun d =>
  (Ok (hd false (unhandled d)),
   {| full := full d; partial := partial d; disk_faults := disk_faults d; unhandled := tl (unhandled d) |}).

(** [OpenOptions::open] of a name: any failure is an [Err]. *)
Definition open_name (n : seg_name) : IO bool :=
  fault ← unhandled_fault;
  f ← gets (lookup_name n);
  mret (negb fault && bool_decide (is_Some f)).

(** [fsync] and [fdatasync]; the size of a segment file does not change between
    its creation and the truncation that syncs it with [fsync]. *)
Definition fsync_name (no_sync : bool) (n : seg_name) : IO unit :=
  if no_sync then mret tt else sys "fsync failed"%string (alter_file (map_cells sync_cells) n) (fun _ d => d).

(** [durable_rename] of the new, zeroed segment [waltmp] to its [.partial] name. *)
Definition rename_new_segment (no_sync : bool) (wal_seg_size segno : Z) : IO unit :=
  let new synced :=
    {| cells := replicate (Z.to_nat wal_seg_size) (Byte.x00, synced); linked := false |} in
  _ ← (if no_sync then mret tt else sys_nop "fsync failed");
  _ ← sys "rename failed"%string
        (fun d => set_files (full d) (<[segno := new (negb no_sync)]> (partial d)) d) (fun _ d => d);
  if no_sync then mret tt
  else sys "fsync of the directory failed"%string
         (alter_file (fun f => {| cells := cells f; linked := true |}) (segno, true)) (fun _ d => d).

(** [PhysicalStorage::open_or_create]: the name of the file and [is_partial].
    The new file is [waltmp] until [durable_rename]. *)
Definition open_or_create (no_sync : bool) (wal_seg_size segno : Z) : IO seg_name :=
  is_full ← open_name (segno, false);
  if is_full : bool then mret (segno, false) else
  is_partial ← open_name (segno, true);
  if is_partial : bool then mret (segno, true) else
  _ ← sys_nop "Failed to open tmp wal file";
  _ ← sys_nop "set_len failed";
  _ ← catch (rename_new_segment no_sync wal_seg_size segno) (fun e =>
        (** Remove the file to avoid using it; a failure of that is returned with
            the file in place. *)
        fault ← unhandled_fault;
        if fault : bool then bail "remove_file failed"%string else
        _ ← modify (remove_name (segno, true)); bail e);
  mret (segno, true).

(** [remove_segments_from_disk], over the entries [names] of the directory. *)
Fixpoint remove_names (names : list seg_name) (remove_predicate : Z -> bool) : IO unit :=
  match names with
  | [] => mret tt
  | n :: names =>
      _ ← sys_nop "next_entry failed";
      _ ← (if remove_predicate n.1 then sys "remove_file failed"%string (remove_name n) (fun _ d => d)
           else mret tt);
      remove_names names remove_predicate
  end.

Definition dir_names (d : Disk) : list seg_name :=
  map (fun x => (x.1, false)) (map_to_list (full d)) ++ map (fun x => (x.1, true)) (map_to_list (partial d)).

Definition remove_segments_from_disk (remove_predicate : Z -> bool) : IO unit :=
  _ ← sys_nop "read_dir failed";
  names ← gets dir_names;
  remove_names names remove_predicate.

(** ** The storage *)

(** [ps_file] is the cached handle: the segment whose [.partial] file is open and
    the position in it. *)
Record PhysicalStorage (D : Type) := {
  ps_no_sync : bool;
  ps_wal_seg_size : Z;
  ps_pg_version : PgVersionId;
  ps_system_id : Z;
  ps_write_lsn : Lsn;
  ps_write_record_lsn : Lsn;
  ps_flush_lsn : Lsn;
  ps_flush_record_lsn : Lsn;
  ps_decoder : D;
  ps_file : option (Z * nat);
  ps_pending : bool;
  ps_disk : Disk
}.
Arguments ps_no_sync {D}.
Arguments ps_wal_seg_size {D}.
Arguments ps_pg_version {D}.
Arguments ps_system_id {D}.
Arguments ps_write_lsn {D}.
Arguments ps_write_record_lsn {D}.
Arguments ps_flush_lsn {D}.
Arguments ps_flush_record_lsn {D}.
Arguments ps_decoder {D}.
Arguments ps_file {D}.
Arguments ps_pending {D}.
Arguments ps_disk {D}.

Section storage.
Context {D : Type} {WD : WalDecoder D} {SG : SegmentGenerator}.
Abbreviation PS := (PhysicalStorage D).
Implicit Types w : PS.

Definition set_ps (w : PS) (write write_record flush flush_record : Lsn) (dec : D)
    (file : option (Z * nat)) (pending : bool) (disk : Disk) : PS :=
  {| ps_no_sync := ps_no_sync w; ps_wal_seg_size := ps_wal_seg_size w;
     ps_pg_version := ps_pg_version w; ps_system_id := ps_system_id w;
     ps_write_lsn := write; ps_write_record_lsn := write_record; ps_flush_lsn := flush;
     ps_flush_record_lsn := flush_record; ps_decoder := dec; ps_file := file;
     ps_pending := pending; ps_disk := disk |}.

Definition set_ps_lsns (write write_record flush flush_record : Lsn) w : PS :=
  set_ps w write write_record flush flush_record (ps_decoder w) (ps_file w) (ps_pending w) (ps_disk w).
Definition set_write_lsn (l : Lsn) w : PS :=
  set_ps_lsns l (ps_write_record_lsn w) (ps_flush_lsn w) (ps_flush_record_lsn w) w.
Definition set_flush_lsn (l : Lsn) w : PS :=
  set_ps_lsns (ps_write_lsn w) (ps_write_record_lsn w) l (ps_flush_record_lsn w) w.
Definition set_record_lsns (write_record flush_record : Lsn) w : PS :=
  set_ps_lsns (ps_write_lsn w) write_record (ps_flush_lsn w) flush_record w.
Definition set_decoder (d : D) w : PS :=
  set_ps w (ps_write_lsn w) (ps_write_record_lsn w) (ps_flush_lsn w) (ps_flush_record_lsn w) d
    (ps_file w) (ps_pending w) (ps_disk w).
Definition set_file (f : option (Z * nat)) w : PS :=
  set_ps w (ps_write_lsn w) (ps_write_record_lsn w) (ps_flush_lsn w) (ps_flush_record_lsn w)
    (ps_decoder w) f (ps_pending w) (ps_disk w).
Definition set_pending (p : bool) w : PS :=
  set_ps w (ps_write_lsn w) (ps_write_record_lsn w) (ps_flush_lsn w) (ps_flush_record_lsn w)
    (ps_decoder w) (ps_file w) p (ps_disk w).
Definition set_disk (d : Disk) w : PS :=
  set_ps w (ps_write_lsn w) (ps_write_record_lsn w) (ps_flush_lsn w) (ps_flush_record_lsn w)
    (ps_decoder w) (ps_file w) (ps_pending w) d.

Definition on_disk {A} (m : M anyhow Disk A) : M anyhow PS A := zoom ps_disk set_disk m.
Definition on_decoder {A} (m : M anyhow D A) : M anyhow PS A := zoom ps_decoder set_decoder m.

(** [self.file.take()]. *)
Definition take_file : M anyhow PS (option (Z * nat)) :=
  f ← gets ps_file; _ ← modify (set_file None); mret f.

Definition fdatasync_file (segno : Z) : M anyhow PS unit :=
  no_sync ← gets ps_no_sync;
  on_disk (fsync_name no_sync (segno, true)).

(** [PhysicalStorage::write_in_segment]; true when the segment was completed. *)
Definition write_in_segment (segno xlogoff : Z) (buf : list byte) : M anyhow PS bool :=
  w ← get;
  handle ← take_file;
  '(hseg, hpos) ←
    match handle with
    | Some file => mret file
    | None =>
        n ← on_disk (open_or_create (ps_no_sync w) (ps_wal_seg_size w) segno);
        _ ← assert n.2;
        _ ← on_disk (sys_nop "seek failed");
        mret (segno, Z.to_nat xlogoff)
    end;
  _ ← on_disk (sys "write failed"%string
        (alter_file (map_cells (write_at hpos buf)) (hseg, true))
        (fun k => alter_file (map_cells (write_at hpos (take k buf))) (hseg, true)));
  _ ← on_disk (sys_nop "flush failed");
  if decide (xlogoff + Z.of_nat (length buf) = ps_wal_seg_size w) then
    _ ← fdatasync_file hseg;
    _ ← on_disk (f ← gets (fun d => partial d !! segno);
                 if decide (is_Some f)
                 then sys "rename failed"%string (rename_to_full segno) (fun _ d => d)
                 else bail "rename failed"%string);
    mret true
  else
    _ ← modify (set_file (Some (hseg, (hpos + length buf)%nat)));
    mret false.

(** The loop of [write_exact]; every round writes at least one byte, so
    [length buf] rounds are enough. *)
Fixpoint write_loop (fuel : nat) (buf : list byte) : M anyhow PS unit :=
  match fuel, buf with
  | _, [] => mret tt
  | O, _ => panic
  | S fuel, _ =>
      w ← get;
      let xlogoff := segment_offset (ps_write_lsn w) (ps_wal_seg_size w) in
      let segno := segment_number (ps_write_lsn w) (ps_wal_seg_size w) in
      let bytes_write :=
        if decide (ps_wal_seg_size w < xlogoff + Z.of_nat (length buf))
        then ps_wal_seg_size w - xlogoff else Z.of_nat (length buf) in
      flushed ← write_in_segment segno xlogoff (take (Z.to_nat bytes_write) buf);
      lsn ← gets ps_write_lsn;
      lsn ← unwrap (lsn_add lsn bytes_write);
      _ ← modify (set_write_lsn lsn);
      _ ← (if flushed : bool then modify (fun w => set_flush_lsn (ps_write_lsn w) w) else mret tt);
      write_loop fuel (drop (Z.to_nat bytes_write) buf)
  end.

(** [PhysicalStorage::write_exact]. *)
Definition write_exact (pos : Lsn) (buf : list byte) : M anyhow PS unit :=
  w ← get;
  _ ← (if decide (ps_write_lsn w <> pos) then
         file ← take_file;
         _ ← match file with Some (s, _) => fdatasync_file s | None => mret tt end;
         modify (set_write_lsn pos)
       else mret tt);
  write_loop (length buf) buf.

(** [Storage::initialize_first_segment]. *)
Definition ps_initialize_first_segment (init_lsn : Lsn) : M anyhow PS unit :=
  w ← get;
  let segno := segment_number init_lsn (ps_wal_seg_size w) in
  n ← on_disk (open_or_create (ps_no_sync w) (ps_wal_seg_size w) segno);
  major_pg_version ← unwrap (pg_major_try_from (ps_pg_version w));
  wal_seg ← lift (generate_wal_segment segno (ps_system_id w) major_pg_version init_lsn);
  _ ← on_disk (sys_nop "seek failed");
  _ ← on_disk (sys "write failed"%string (alter_file (map_cells (write_at 0 wal_seg)) n)
                 (fun k => alter_file (map_cells (write_at 0 (take k wal_seg))) n));
  on_disk (sys_nop "flush failed").

(** The loop over [poll_decode] in [write_wal]. *)
Fixpoint decode_loop (fuel : nat) : M anyhow PS unit :=
  match fuel with
  | O => panic
  | S fuel =>
      r ← on_decoder d_poll;
      match r with
      | None => mret tt
      | Some (lsn, _) =>
          _ ← modify (fun w =>
                set_record_lsns lsn
                  (if decide (lsn <= ps_flush_lsn w) then lsn else ps_flush_record_lsn w) w);
          decode_loop fuel
      end
  end.

(** [Storage::write_wal]. *)
Definition ps_write_wal (startpos : Lsn) (buf : list byte) : M anyhow PS unit :=
  w ← get;
  if decide (startpos < ps_write_lsn w) then bail "write_wal rewrites WAL written before"%string else
  if decide (ps_write_lsn w < startpos /\ ps_write_lsn w <> 0) then
    bail "write_wal creates gap in written WAL"%string else
  if ps_pending w then bail "write_wal called with pending WAL truncation"%string else
  _ ← write_exact startpos buf;
  _ ← modify (fun w =>
        if decide (d_available (ps_decoder w) <> startpos)
        then set_decoder (d_new startpos (d_pg_version (ps_decoder w))) w else w);
  _ ← modify (fun w => set_decoder (d_feed buf (ps_decoder w)) w);
  _ ← modify (fun w =>
        if decide (ps_write_record_lsn w <= ps_flush_lsn w)
        then set_record_lsns (ps_write_record_lsn w) (ps_write_record_lsn w) w else w);
  fuel ← gets (fun w => d_fuel (ps_decoder w));
  decode_loop (S fuel).

(** [Storage::flush_wal]. *)
Definition ps_flush_wal : M anyhow PS unit :=
  w ← get;
  if decide (ps_flush_record_lsn w = ps_write_record_lsn w) then mret tt else
  file ← take_file;
  match file with
  | Some (s, p) =>
      _ ← fdatasync_file s;
      _ ← modify (set_file (Some (s, p)));
      modify (fun w => set_ps_lsns (ps_write_lsn w) (ps_write_record_lsn w) (ps_write_lsn w)
                         (ps_write_record_lsn w) w)
  | None => bail "unexpected unflushed data with no open file"%string
  end.

(** [Storage::truncate_wal]. *)
Definition ps_truncate_wal (end_pos : Lsn) : M anyhow PS unit :=
  w ← get;
  if decide (ps_write_record_lsn w <> 0 /\ ps_write_record_lsn w < end_pos) then
    bail "truncate_wal called on non-written WAL"%string else
  if negb (ps_pending w) && bool_decide (end_pos = ps_write_lsn w)
     && bool_decide (end_pos = ps_flush_record_lsn w) then mret tt else
  _ ← modify (set_pending true);
  _ ← modify (set_ps_lsns end_pos end_pos end_pos end_pos);
  file ← take_file;
  _ ← match file with Some (s, _) => fdatasync_file s | None => mret tt end;
  let xlogoff := segment_offset end_pos (ps_wal_seg_size w) in
  let segno := segment_number end_pos (ps_wal_seg_size w) in
  _ ← on_disk (remove_segments_from_disk (fun x => bool_decide (segno < x)));
  n ← on_disk (open_or_create (ps_no_sync w) (ps_wal_seg_size w) segno);
  _ ← on_disk (sys "set_len failed"%string
                 (alter_file (map_cells (set_len (Z.to_nat xlogoff))) n) (fun _ d => d));
  _ ← on_disk (sys "set_len failed"%string
                 (alter_file (map_cells (set_len (Z.to_nat (ps_wal_seg_size w)))) n) (fun _ d => d));
  _ ← on_disk (fsync_name (ps_no_sync w) n);
  _ ← (if negb n.2 then
         on_disk (sys "rename failed"%string (rename_to_partial segno) (fun _ d => d))
       else mret tt);
  modify (set_pending false).

(** [Storage::remove_up_to], run without the timeline lock. *)
Definition ps_remove_up_to (segno_up_to : Z) : M anyhow PS unit :=
  on_disk (remove_segments_from_disk (fun x => bool_decide (x <= segno_up_to))).

(** [Storage::close]. *)
Definition ps_close : M anyhow PS unit := modify (set_file None).

(** ** Opening *)

(** [open_wal_segment]: the [.partial] file, else the full one. *)
Definition open_wal_segment (d : Disk) (segno : Z) : option SegFile :=
  match partial d !! segno with Some f => Some f | None => full d !! segno end.

(** The innermost loop of [find_end_of_wal]: [inl] asks for more data, [inr] is
    the end of the WAL. *)
Fixpoint poll_all (fuel : nat) (d : D) (result : Lsn) : outcome anyhow (D * Lsn + Lsn) :=
  match fuel with
  | O => Panic
  | S fuel =>
      match d_poll d with
      | (Ok (Some (lsn, _)), d') => poll_all fuel d' lsn
      | (Ok None, d') => Ok (inl (d', result))
      | (Err _, _) => Ok (inr result)
      | (Panic, _) => Panic
      end
  end.

(** The loop inside a segment, on the bytes that follow the current offset; it
    reads a block at a time. *)
Fixpoint read_segment (fuel : nat) (seg segno : Z) (bytes : list byte)
    (d : D) (curr_lsn result : Lsn) : outcome anyhow (D * Lsn * Lsn + Lsn) :=
  if decide (segment_number curr_lsn seg <> segno) then Ok (inl (d, curr_lsn, result)) else
  match fuel, bytes with
  | _, [] => Ok (inr result)
  | O, _ => Panic
  | S fuel, _ =>
      let buf := take (Z.to_nat XLOG_BLCKSZ) bytes in
      match lsn_add curr_lsn (Z.of_nat (length buf)) with
      | None => Panic
      | Some curr_lsn =>
          let d := d_feed buf d in
          r ← poll_all (S (d_fuel d)) d result;
          match r with
          | inl (d, result) =>
              read_segment fuel seg segno (drop (Z.to_nat XLOG_BLCKSZ) bytes) d curr_lsn result
          | inr result => Ok (inr result)
          end
      end
  end.

(** The loop over segments.  Segment numbers grow, so the highest segment on
    disk bounds the number of rounds. *)
Fixpoint read_segments (fuel : nat) (disk : Disk) (seg : Z) (d : D) (curr_lsn result : Lsn) :
    outcome anyhow Lsn :=
  match fuel with
  | O => Panic
  | S fuel =>
      let segno := segment_number curr_lsn seg in
      match open_wal_segment disk segno with
      | None => Ok result
      | Some f =>
          let bytes := drop (Z.to_nat (segment_offset curr_lsn seg)) (map fst (cells f)) in
          r ← read_segment (length bytes) seg segno bytes d curr_lsn result;
          match r with
          | inl (d, curr_lsn, result) => read_segments fuel disk seg d curr_lsn result
          | inr result => Ok result
          end
      end
  end.

Definition max_segno (d : Disk) : Z :=
  foldr Z.max 0 (map fst (map_to_list (full d)) ++ map fst (map_to_list (partial d))).

(** [find_end_of_wal]. *)
Definition find_end_of_wal (disk : Disk) (wal_seg_size : Z) (version : PgMajorVersion)
    (start_lsn : Lsn) : outcome anyhow Lsn :=
  read_segments (S (S (Z.to_nat (max_segno disk - segment_number start_lsn wal_seg_size))))
    disk wal_seg_size (d_new start_lsn version) start_lsn start_lsn.

(** [PhysicalStorage::new]. *)
Definition physical_storage_new (disk : Disk) (st : TimelinePersistentState) (no_sync : bool) :
    outcome anyhow PS :=
  let seg := wal_seg_size (p_server st) in
  write_lsn ←
    (if decide (p_commit_lsn st = 0) then Ok 0 else
     match pg_major_try_from (pg_version (p_server st)) with
     | Some version => find_end_of_wal disk seg version (p_commit_lsn st)
     | None => Panic
     end);
  if decide (write_lsn < p_commit_lsn st) then Err "potential data loss"%string else
  match pg_major_try_from (pg_version (p_server st)) with
  | None => Panic
  | Some version =>
      Ok {| ps_no_sync := no_sync; ps_wal_seg_size := seg; ps_pg_version := pg_version (p_server st);
            ps_system_id := system_id (p_server st); ps_write_lsn := write_lsn;
            ps_write_record_lsn := write_lsn; ps_flush_lsn := write_lsn;
            ps_flush_record_lsn := write_lsn; ps_decoder := d_new write_lsn version;
            ps_file := None; ps_pending := true; ps_disk := disk |}
  end.

(** What a crash leaves of a file: every durable byte; of the directory: every
    file with a durable entry, under one of its names. *)
Definition crash_file (f g : SegFile) : Prop :=
  forall i b, cells f !! i = Some (b, true) -> exists fl, cells g !! i = Some (b, fl).

Definition crash_disk (d d' : Disk) : Prop :=
  (forall s f, full d !! s = Some f \/ partial d !! s = Some f -> linked f = true ->
     exists g, (full d' !! s = Some g \/ partial d' !! s = Some g) /\ crash_file f g)
  /\ full d' ##ₘ partial d'.
End storage.

(** ** The positions

    What the LSN fields promise whatever happens to the disk. *)

Section positions.
Context {D : Type} {WD : WalDecoder D} {WDL : WalDecoderLaws D} {SG : SegmentGenerator}.
Abbreviation PS := (PhysicalStorage D).
Implicit Types w : PS.

(** The record LSNs never pass the decoder, and pass the written bytes only up
    to the end of the segment, over padding the decoder skips. *)
Record lsn_inv w : Prop := {
  li_seg : ps_wal_seg_size w = d_seg;
  li_records : ps_flush_record_lsn w <= ps_write_record_lsn w;
  li_written : ps_write_record_lsn w <= ps_write_lsn w \/ d_available (ps_decoder w) = ps_write_lsn w;
  li_decoded : ps_write_record_lsn w <= d_pos (ps_decoder w)
               \/ (d_available (ps_decoder w) <= 0 /\ 0 < ps_write_lsn w);
  li_ceil : ps_write_record_lsn w <= seg_ceil d_seg (ps_write_lsn w);
  li_fresh : ps_write_record_lsn w <= 0 -> ps_pending w = true /\ d_available (ps_decoder w) <= 0
}.

Lemma seg_ceil_ge pos : pos <= seg_ceil d_seg pos.
Proof.
  unfold seg_ceil. pose proof d_seg_pos. pose proof (Z.div_mod (pos + d_seg - 1) d_seg).
  pose proof (Z.mod_pos_bound (pos + d_seg - 1) d_seg). lia.
Qed.

Lemma seg_ceil_mono p q : p <= q -> seg_ceil d_seg p <= seg_ceil d_seg q.
Proof.
  intros. pose proof d_seg_pos. apply Z.mul_le_mono_nonneg_r; [lia|]. apply Z.div_le_mono; lia.
Qed.

(** The rest of a segment ends at the next boundary. *)
Lemma seg_ceil_offset pos :
  seg_ceil d_seg pos <= pos + (d_seg - segment_offset pos d_seg).
Proof.
  unfold seg_ceil, segment_offset. pose proof d_seg_pos.
  pose proof (Z.div_mod pos d_seg). pose proof (Z.mod_pos_bound pos d_seg).
  assert ((pos + d_seg - 1) / d_seg < pos / d_seg + 2) as Hlt; [|nia].
  apply Z.div_lt_upper_bound; nia.
Qed.

(** Disk operations change nothing else. *)
Lemma wp_on_disk {A} (m : M anyhow Disk A) (Q : outcome anyhow A -> PS -> Prop) w :
  (forall o d, Q o (set_disk d w)) -> wp (on_disk m) Q w.
Proof. intros H. apply wp_zoom, wp_intro. auto. Qed.

(** The fields the writing of bytes leaves alone. *)
Definition same_records w w' : Prop :=
  ps_wal_seg_size w' = ps_wal_seg_size w /\ ps_write_record_lsn w' = ps_write_record_lsn w
  /\ ps_flush_record_lsn w' = ps_flush_record_lsn w /\ ps_decoder w' = ps_decoder w
  /\ ps_pending w' = ps_pending w.

Lemma write_in_segment_positions segno xlogoff buf w :
  wp (write_in_segment segno xlogoff buf) (fun _ w' =>
    same_records w w' /\ ps_write_lsn w' = ps_write_lsn w) w.
Proof.
  unfold write_in_segment, take_file, fdatasync_file.
  assert (same_records w w) as H0 by done.
  repeat first [wp_step | apply wp_on_disk; intros [] ? | progress simpl
               | progress case_match | done].
Qed.

Lemma write_loop_nil fuel : write_loop (D := D) fuel [] = mret tt.
Proof. by destruct fuel. Qed.

(** A write that fails half way stops at the end of a segment. *)
Lemma write_loop_positions fuel buf w :
  ps_wal_seg_size w = d_seg ->
  wp (write_loop fuel buf) (fun o w' =>
    same_records w w' /\
    match o with
    | Ok _ => ps_write_lsn w' = ps_write_lsn w + Z.of_nat (length buf)
    | _ => ps_write_lsn w' = ps_write_lsn w \/ seg_ceil d_seg (ps_write_lsn w) <= ps_write_lsn w'
    end) w.
Proof.
  revert buf w. induction fuel as [|fuel IH]; intros buf w Hseg.
  { destruct buf; (split; [done|]); simpl; [lia|by left]. }
  destruct buf as [|b buf]; [split; [done|simpl; lia]|]. cbn [write_loop].
  set (bs := b :: buf). wp_step. wp_step. wp_step. rewrite Hseg.
  set (n := if decide _ then _ else _).
  assert (0 <= n <= Z.of_nat (length bs) /\
          (n = Z.of_nat (length bs) \/ n = d_seg - segment_offset (ps_write_lsn w) d_seg)) as [Hn Hor].
  { subst n. pose proof d_seg_pos. unfold segment_offset.
    pose proof (Z.mod_pos_bound (ps_write_lsn w) d_seg). case_decide; [|lia]. split; [lia|by right]. }
  eapply wp_mono; [apply write_in_segment_positions|]. intros [flushed|e|] w1 [Hs1 Hl1]; [|by auto..].
  wp_step. wp_step. wp_step. unfold unwrap, lsn_add. case_decide; [|by split; [|left]].
  wp_step. wp_step. wp_step. wp_step.
  assert (forall w2, same_records w w2 -> ps_write_lsn w2 = ps_write_lsn w + n ->
    wp (write_loop fuel (drop (Z.to_nat n) bs)) (fun o w' =>
      same_records w w' /\
      match o with
      | Ok _ => ps_write_lsn w' = ps_write_lsn w + Z.of_nat (length bs)
      | _ => ps_write_lsn w' = ps_write_lsn w \/ seg_ceil d_seg (ps_write_lsn w) <= ps_write_lsn w'
      end) w2) as Hrec.
  { intros w2 Hs2 Hl2. destruct Hor as [Hor|Hor].
    - rewrite Hor, Nat2Z.id, drop_all, write_loop_nil. wp_step. split; [done|lia].
    - eapply wp_mono; [apply IH; by rewrite (proj1 Hs2)|]. intros o w' [Hs' Ho].
      split; [unfold same_records in *; intuition congruence|]. rewrite length_drop in Ho.
      pose proof (seg_ceil_offset (ps_write_lsn w)). pose proof (seg_ceil_ge (ps_write_lsn w2)).
      destruct o; lia. }
  destruct flushed; wp_step; apply Hrec; try done; simpl; lia.
Qed.

(** Records come out in order, up to the end of what was fed. *)
Lemma decode_loop_positions fuel w :
  lsn_inv w -> 0 < ps_write_record_lsn w -> ps_write_record_lsn w <= d_pos (ps_decoder w) ->
  d_available (ps_decoder w) = ps_write_lsn w -> ps_write_lsn w <= LSN_MAX - 7 ->
  wp (decode_loop fuel) (fun _ w' =>
    lsn_inv w' /\ ps_flush_record_lsn w <= ps_flush_record_lsn w') w.
Proof.
  revert w. induction fuel as [|fuel IH]; intros w Hw Hpos Hdec Hav Hmax; [split; [done|]; simpl; lia|].
  cbn [decode_loop]. wp_step. apply wp_zoom. eapply wp_mono; [apply d_poll_spec; lia|].
  intros o d' [Hmono Ho]. destruct Hw as [Hseg Hrec Hwr _ Hceil Hfr].
  destruct o as [[[lsn rec]|]|e|].
  - destruct Ho as (Hav' & Hpos' & Hlsn & _). wp_step. wp_step.
    eapply wp_mono; [apply IH; simpl; [|lia..]|].
    { split; simpl; try lia; [case_decide; lia|]. rewrite Hav in Hlsn. lia. }
    intros _ w' [Hw' Hf]. split; [done|]. simpl in Hf. case_decide; lia.
  - wp_step. split; [|simpl; lia]. split; simpl; lia.
  - split; [|simpl; lia]. split; simpl; lia.
  - split; [|simpl; lia]. split; simpl; lia.
Qed.

(** A write that passes the checks is at the end of the WAL. *)
Lemma writes_at_end w startpos :
  lsn_inv w -> ps_pending w = false -> ~ startpos < ps_write_lsn w ->
  ~ (ps_write_lsn w < startpos /\ ps_write_lsn w <> 0) ->
  0 < ps_write_record_lsn w /\ ps_write_lsn w = startpos.
Proof.
  intros [Hseg Hrec Hwr Hdec Hceil Hfr] Hp H1 H2.
  assert (0 < ps_write_record_lsn w) as Hpos.
  { destruct (Z.lt_ge_cases 0 (ps_write_record_lsn w)); [done|]. destruct Hfr; [lia|congruence]. }
  split; [done|]. destruct (decide (ps_write_lsn w = 0)) as [E'|E']; [|lia]. exfalso.
  rewrite E' in Hceil. unfold seg_ceil in Hceil. pose proof d_seg_pos.
  rewrite Z.div_small in Hceil; lia.
Qed.

Lemma ps_write_wal_positions startpos buf w :
  startpos + Z.of_nat (length buf) <= LSN_MAX - 7 -> lsn_inv w ->
  wp (ps_write_wal startpos buf) (fun _ w' =>
    lsn_inv w' /\ ps_flush_record_lsn w <= ps_flush_record_lsn w') w.
Proof.
  intros Hmax Hw. pose proof Hw as [Hseg Hrec Hwr Hdec Hceil Hfr].
  unfold ps_write_wal. wp_step. wp_step. wp_step; [wp_step; split; [done|lia]|].
  wp_step; [wp_step; split; [done|lia]|]. wp_step; [wp_step; split; [done|lia]|].
  destruct (writes_at_end w startpos) as [Hpos Hstart]; [done..|].
  wp_step. unfold write_exact. wp_step. wp_step. rewrite decide_False by congruence. wp_step. wp_step.
  eapply wp_mono; [by apply write_loop_positions|].
  intros o w1 [(S1 & S2 & S3 & S4 & S5) Ho]. pose proof (seg_ceil_ge (ps_write_lsn w1)).
  destruct o as [[]|e|].
  2,3: pose proof (seg_ceil_ge (ps_write_lsn w)); split; [|rewrite S3; lia]; split;
    rewrite ?S1, ?S2, ?S3, ?S4, ?S5; first [lia|exact Hfr|destruct Ho as [->|]; lia].
  wp_step. wp_step.
  set (w2 := if decide _ then _ else _).
  assert (ps_write_record_lsn w <= d_pos (ps_decoder w2) /\ d_available (ps_decoder w2) = startpos
          /\ same_records (set_decoder (ps_decoder w2) w) w2 /\ ps_write_lsn w2 = ps_write_lsn w1)
    as (D1 & D2 & (T1 & T2 & T3 & _ & T5) & D4).
  { subst w2. case_decide as Hd; rewrite S4 in Hd; simpl; rewrite ?d_pos_new, ?d_available_new, ?S4;
      (split_and!; [lia|lia|unfold same_records; simpl; tauto|done]). }
  simpl in T1, T2, T3, T5. clearbody w2. wp_step. wp_step. wp_step. wp_step. wp_step. wp_step.
  set (w3 := if decide _ then _ else _).
  assert (lsn_inv w3 /\ ps_flush_record_lsn w <= ps_flush_record_lsn w3
    /\ ps_write_record_lsn w3 = ps_write_record_lsn w /\ ps_write_lsn w3 = ps_write_lsn w1
    /\ ps_decoder w3 = d_feed buf (ps_decoder w2)) as (F1 & F2 & F3 & F4 & F5).
  { pose proof (seg_ceil_mono (ps_write_lsn w) (ps_write_lsn w1)).
    subst w3. case_decide; simpl; (split_and!; [split; simpl|..]);
      rewrite ?d_available_feed, ?d_pos_feed;
      rewrite ?D4; first [lia | congruence | intros; exfalso; lia]. }
  eapply wp_mono; [apply decode_loop_positions; rewrite ?F3, ?F4, ?F5, ?d_pos_feed, ?d_available_feed;
    done || lia|].
  intros _ w4 [Hw4 Hf]. split; [done|lia].
Qed.

Lemma ps_truncate_wal_positions end_pos w :
  0 < end_pos -> lsn_inv w ->
  wp (ps_truncate_wal end_pos) (fun o w' =>
    lsn_inv w' /\
    match o with
    | Ok _ => ps_flush_record_lsn w' = end_pos
    | _ => ps_flush_record_lsn w' = end_pos \/ ps_flush_record_lsn w' = ps_flush_record_lsn w
    end) w.
Proof.
  intros Hpos Hw. pose proof Hw as [Hseg Hrec Hwr Hdec Hceil Hfr].
  unfold ps_truncate_wal, take_file, fdatasync_file. wp_step. wp_step.
  wp_step; [wp_step; auto|]. wp_step.
  { wp_step. split; [done|]. rewrite !andb_true_iff, !bool_decide_eq_true in E0. symmetry. tauto. }
  assert (forall w', ps_wal_seg_size w' = d_seg -> ps_write_record_lsn w' = end_pos ->
    ps_flush_record_lsn w' = end_pos -> ps_write_lsn w' = end_pos ->
    ps_decoder w' = ps_decoder w -> lsn_inv w') as Hinv.
  { intros w' H1 H2 H3 H4 H5. pose proof (seg_ceil_ge end_pos).
    split; rewrite ?H1, ?H2, ?H3, ?H4, ?H5; [done|lia|lia| |done|lia].
    destruct (decide (ps_write_record_lsn w = 0)) as [E'|E']; [|lia].
    right. split; [apply Hfr; lia|done]. }
  repeat first [wp_step | apply wp_on_disk; intros [] ? | progress simpl | progress case_match];
    (split; [by apply Hinv|by auto]).
Qed.

Lemma ps_flush_wal_positions w :
  lsn_inv w ->
  wp ps_flush_wal (fun _ w' => lsn_inv w' /\ ps_flush_record_lsn w <= ps_flush_record_lsn w') w.
Proof.
  intros Hw. pose proof Hw as [Hseg Hrec Hwr Hdec Hceil Hfr].
  unfold ps_flush_wal, take_file, fdatasync_file.
  repeat first [wp_step | apply wp_on_disk; intros [] ? | progress simpl | progress case_match];
    (split; [split; simpl; done || lia|simpl; lia]).
Qed.

Lemma ps_initialize_positions init_lsn w :
  lsn_inv w ->
  wp (ps_initialize_first_segment init_lsn) (fun _ w' =>
    lsn_inv w' /\ ps_flush_record_lsn w' = ps_flush_record_lsn w) w.
Proof.
  intros Hw. pose proof Hw as [Hseg Hrec Hwr Hdec Hceil Hfr].
  unfold ps_initialize_first_segment, unwrap.
  repeat first [wp_step | apply wp_on_disk; intros [] ? | apply wp_lift | progress simpl
               | progress case_match]; (split; [by split|done]).
Qed.

Lemma physical_storage_new_positions disk st no_sync w :
  wal_seg_size (p_server st) = d_seg -> physical_storage_new disk st no_sync = Ok w ->
  lsn_inv w /\ p_commit_lsn st <= ps_flush_record_lsn w.
Proof.
  unfold physical_storage_new. intros Hseg. destruct (if decide _ then _ else _) as [l|e|]; [|done..].
  cbn [mbind outcome_bind]. case_decide as Hl; [done|].
  destruct (pg_major_try_from _) as [v|]; [|done]. intros [= <-]. pose proof (seg_ceil_ge l).
  split; [|simpl; lia]. split; simpl; rewrite ?d_available_new, ?d_pos_new; first [done | lia | by auto].

Qed.

(** ** The interface *)

#[global] Instance PhysicalStorage_wal_store : WalStore PS := {|
  ws_write_lsn := ps_write_lsn;
  ws_flush_lsn := ps_flush_record_lsn;
  initialize_first_segment := ps_initialize_first_segment;
  write_wal := ps_write_wal;
  truncate_wal := ps_truncate_wal;
  flush_wal := ps_flush_wal;
  ws_open st w w' := exists disk no_sync,
    crash_disk (ps_disk w) disk /\ wal_seg_size (p_server st) = d_seg
    /\ physical_storage_new disk st no_sync = Ok w';
  ws_inv := lsn_inv
|}.

#[global] Instance PhysicalStorage_laws : WalStoreLaws PS.
Proof.
  split; simpl.
  - intros. by apply ps_initialize_positions.
  - intros. by apply ps_write_wal_positions.
  - intros. by apply ps_truncate_wal_positions.
  - intros. by apply ps_flush_wal_positions.
  - intros st w w' _ (disk & no_sync & _ & Hseg & Hnew). by eapply physical_storage_new_positions.
Qed.
End positions.
