(* ===== verification/WalStream.v ===== *)
(** * The WAL stream ([libs/postgres_ffi/src/waldecoder_handler.rs], [wal_generator.rs])

    The state machine that finds record boundaries in a stream of WAL pages, the
    generator of such streams, and the first segment of a timeline
    ([xlog_utils.rs]).  The C structs of Postgres are generated by bindgen, and the
    checksum is the crate crc32c: both are the class [XlogBindings]. *)

From S2P Require Import Prelude Lsn XlogUtils TermHistory Membership SkState Safekeeper WalStorage.

(** ** Bindings *)

Definition XLP_BKP_REMOVABLE : Z := 0x0004.
Definition XLP_FIRST_IS_CONTRECORD : Z := 0x0001.
Definition XLP_LONG_HEADER : Z := 0x0002.
Definition XLOG_RECORD_CRC_OFFS : nat := 4 + 4 + 8 + 1 + 1 + 2.
Definition XLOG_SWITCH : Z := 0x40.
Definition RM_XLOG_ID : Z := 0.
Definition XLR_BLOCK_ID_DATA_SHORT : Z := 255.
Definition XLR_BLOCK_ID_DATA_LONG : Z := 254.
Definition PG_TLI : Z := 1.

(** The structs without their padding, which is written as zeros. *)
Record XLogPageHeaderData := {
  xlp_magic : Z; xlp_info : Z; xlp_tli : Z; xlp_pageaddr : Z; xlp_rem_len : Z
}.

Record XLogLongPageHeaderData := {
  std : XLogPageHeaderData; xlp_sysid : Z; xlp_seg_size : Z; xlp_xlog_blcksz : Z
}.

Record XLogRecord := {
  xl_tot_len : Z; xl_xid : Z; xl_prev : Z; xl_info : Z; xl_rmid : Z; xl_crc : Z
}.

Definition set_crc (crc : Z) (r : XLogRecord) : XLogRecord :=
  {| xl_tot_len := xl_tot_len r; xl_xid := xl_xid r; xl_prev := xl_prev r; xl_info := xl_info r;
     xl_rmid := xl_rmid r; xl_crc := crc |}.

(** The ranges of the fields. *)
Definition page_header_ok (h : XLogPageHeaderData) : Prop :=
  in_u 16 (xlp_magic h) /\ in_u 16 (xlp_info h) /\ in_u 32 (xlp_tli h) /\ in_u 64 (xlp_pageaddr h)
  /\ in_u 32 (xlp_rem_len h).

Definition long_header_ok (h : XLogLongPageHeaderData) : Prop :=
  page_header_ok (std h) /\ in_u 64 (xlp_sysid h) /\ in_u 32 (xlp_seg_size h) /\ in_u 32 (xlp_xlog_blcksz h).

Definition record_ok (r : XLogRecord) : Prop :=
  in_u 32 (xl_tot_len r) /\ in_u 32 (xl_xid r) /\ in_u 64 (xl_prev r) /\ in_u 8 (xl_info r)
  /\ in_u 8 (xl_rmid r) /\ in_u 32 (xl_crc r).

(** [des_*] read a struct from the front of a buffer ([from_bytes]). *)
Class XlogBindings := {
  XLOG_PAGE_MAGIC : PgMajorVersion -> Z;
  XLOG_SIZE_OF_XLOG_SHORT_PHD : nat;
  XLOG_SIZE_OF_XLOG_LONG_PHD : nat;
  XLOG_SIZE_OF_XLOG_RECORD : nat;
  ser_page_header : XLogPageHeaderData -> list byte;
  des_page_header : list byte -> option (XLogPageHeaderData * list byte);
  ser_long_header : XLogLongPageHeaderData -> list byte;
  des_long_header : list byte -> option (XLogLongPageHeaderData * list byte);
  ser_record : XLogRecord -> list byte;
  des_record : list byte -> option XLogRecord;
  crc32c_append : Z -> list byte -> Z
}.

(** The layout of the C structs on the supported platforms, bincode with fixed
    integers, and crc32c as a checksum that can be continued. *)
Class XlogBindingsLaws `{!XlogBindings} := {
  magic_u16 v : in_u 16 (XLOG_PAGE_MAGIC v);
  short_phd_size : XLOG_SIZE_OF_XLOG_SHORT_PHD = 24%nat;
  long_phd_size : XLOG_SIZE_OF_XLOG_LONG_PHD = 40%nat;
  record_size : XLOG_SIZE_OF_XLOG_RECORD = 24%nat;
  length_ser_page_header h : length (ser_page_header h) = XLOG_SIZE_OF_XLOG_SHORT_PHD;
  des_ser_page_header h r : page_header_ok h -> des_page_header (ser_page_header h ++ r) = Some (h, r);
  des_page_header_reads bs : (XLOG_SIZE_OF_XLOG_SHORT_PHD <= length bs)%nat ->
    exists h, forall r, des_page_header (bs ++ r) = Some (h, drop XLOG_SIZE_OF_XLOG_SHORT_PHD bs ++ r);
  length_ser_long_header h : length (ser_long_header h) = XLOG_SIZE_OF_XLOG_LONG_PHD;
  des_ser_long_header h r : long_header_ok h -> des_long_header (ser_long_header h ++ r) = Some (h, r);
  des_long_header_reads bs : (XLOG_SIZE_OF_XLOG_LONG_PHD <= length bs)%nat ->
    exists h, forall r, des_long_header (bs ++ r) = Some (h, drop XLOG_SIZE_OF_XLOG_LONG_PHD bs ++ r);
  length_ser_record r : length (ser_record r) = XLOG_SIZE_OF_XLOG_RECORD;
  des_ser_record r : record_ok r -> des_record (ser_record r) = Some r;
  ser_record_tot_len r : in_u 32 (xl_tot_len r) -> take 4 (ser_record r) = le_bytes 4 (xl_tot_len r);
  ser_record_crc_last r c : take XLOG_RECORD_CRC_OFFS (ser_record (set_crc c r)) = take XLOG_RECORD_CRC_OFFS (ser_record r);
  crc32c_u32 c bs : in_u 32 c -> in_u 32 (crc32c_append c bs);
  crc32c_app c bs bs' : crc32c_append c (bs ++ bs') = crc32c_append (crc32c_append c bs) bs'
}.

Definition is_xlog_switch_record (r : XLogRecord) : bool :=
  bool_decide (xl_info r = XLOG_SWITCH) && bool_decide (xl_rmid r = RM_XLOG_ID).

(** ** The decoder *)

Inductive State :=
| WaitingForRecord
| ReassemblingRecord (recordbuf : list byte) (contlen : positive)
| SkippingEverything (skip_until_lsn : Lsn).

Record WalStreamDecoder := {
  wd_lsn : Lsn;
  wd_pg_version : PgMajorVersion;
  wd_inputbuf : list byte;
  wd_state : State
}.

(** The messages of [WalDecodeError]. *)
Inductive WalDecodeMsg : Set :=
| InvalidMagic (xlp_magic expected : Z)
| InvalidPageaddr (xlp_pageaddr expected : Z)
| UnexpectedContrecord
| RemLenNotContrecord (xlp_rem_len : Z)
| ContrecordExpected
| InvalidRemLen (xlp_rem_len expected : Z)
| LongHeaderDeserialization
| HeaderDeserialization
| InvalidTotLen (xl_tot_len : Z)
| RecordDeserialization
| CrcMismatch.

Record WalDecodeError := { e_msg : WalDecodeMsg; e_lsn : Lsn }.

Definition set_lsn (l : Lsn) (d : WalStreamDecoder) : WalStreamDecoder :=
  {| wd_lsn := l; wd_pg_version := wd_pg_version d; wd_inputbuf := wd_inputbuf d; wd_state := wd_state d |}.
Definition set_inputbuf (b : list byte) (d : WalStreamDecoder) : WalStreamDecoder :=
  {| wd_lsn := wd_lsn d; wd_pg_version := wd_pg_version d; wd_inputbuf := b; wd_state := wd_state d |}.
Definition set_state (s : State) (d : WalStreamDecoder) : WalStreamDecoder :=
  {| wd_lsn := wd_lsn d; wd_pg_version := wd_pg_version d; wd_inputbuf := wd_inputbuf d; wd_state := s |}.

Definition decoder_new (lsn : Lsn) (pg_version : PgMajorVersion) : WalStreamDecoder :=
  {| wd_lsn := lsn; wd_pg_version := pg_version; wd_inputbuf := []; wd_state := WaitingForRecord |}.

(** The sum is checked in the source; it stays below [2 ^ 64] where it is used. *)
Definition available (d : WalStreamDecoder) : Lsn := wd_lsn d + Z.of_nat (length (wd_inputbuf d)).

Definition feed_bytes (buf : list byte) (d : WalStreamDecoder) : WalStreamDecoder :=
  set_inputbuf (wd_inputbuf d ++ buf) d.

Abbreviation DM := (M WalDecodeError WalStreamDecoder).

(** [Err(WalDecodeError { msg, lsn: self.lsn })]. *)
Definition decode_error {A} (msg : WalDecodeMsg) : DM A :=
  fun d => (Err {| e_msg := msg; e_lsn := wd_lsn d |}, d).

(** [self.lsn += n]. *)
Definition advance_lsn (n : Z) : DM unit := fun d =>
  match lsn_add (wd_lsn d) n with
  | Some l => (Ok tt, set_lsn l d)
  | None => (Panic, d)
  end.

(** [self.inputbuf.split_to(n)], which panics when there are fewer bytes. *)
Definition split_to (n : Z) : DM (list byte) := fun d =>
  if decide (n <= Z.of_nat (length (wd_inputbuf d))) then
    (Ok (take (Z.to_nat n) (wd_inputbuf d)), set_inputbuf (drop (Z.to_nat n) (wd_inputbuf d)) d)
  else (Panic, d).

Section decoder.
Context `{XB : XlogBindings}.

Definition validate_page_header (hdr : XLogPageHeaderData) : DM unit :=
  d ← get;
  let magic := wrap 16 (XLOG_PAGE_MAGIC (wd_pg_version d)) in
  if decide (xlp_magic hdr <> magic) then
    decode_error (InvalidMagic (xlp_magic hdr) (XLOG_PAGE_MAGIC (wd_pg_version d))) else
  if decide (xlp_pageaddr hdr <> wd_lsn d) then
    decode_error (InvalidPageaddr (xlp_pageaddr hdr) (wd_lsn d)) else
  match wd_state d with
  | WaitingForRecord =>
      if decide (Z.land (xlp_info hdr) XLP_FIRST_IS_CONTRECORD <> 0) then decode_error UnexpectedContrecord else
      if decide (xlp_rem_len hdr <> 0) then decode_error (RemLenNotContrecord (xlp_rem_len hdr)) else
      mret tt
  | ReassemblingRecord _ contlen =>
      if decide (Z.land (xlp_info hdr) XLP_FIRST_IS_CONTRECORD = 0) then decode_error ContrecordExpected else
      if decide (xlp_rem_len hdr <> Zpos contlen) then
        decode_error (InvalidRemLen (xlp_rem_len hdr) (Zpos contlen)) else
      mret tt
  | SkippingEverything _ => panic
  end.

Definition buffered (d : WalStreamDecoder) : Z := Z.of_nat (length (wd_inputbuf d)).

(** The first half of the loop body.  The result tells whether there was enough
    input. *)
Definition read_page_header : DM bool :=
  d ← get;
  match wd_state d with
  | SkippingEverything _ => mret true
  | _ =>
      if decide (segment_offset (wd_lsn d) WAL_SEGMENT_SIZE = 0) then
        if decide (buffered d < Z.of_nat XLOG_SIZE_OF_XLOG_LONG_PHD) then mret false else
        match des_long_header (wd_inputbuf d) with
        | None => decode_error LongHeaderDeserialization
        | Some (hdr, rest) =>
            _ ← modify (set_inputbuf rest);
            _ ← validate_page_header (std hdr);
            _ ← advance_lsn (Z.of_nat XLOG_SIZE_OF_XLOG_LONG_PHD);
            mret true
        end
      else if decide (block_offset (wd_lsn d) = 0) then
        if decide (buffered d < Z.of_nat XLOG_SIZE_OF_XLOG_SHORT_PHD) then mret false else
        match des_page_header (wd_inputbuf d) with
        | None => decode_error HeaderDeserialization
        | Some (hdr, rest) =>
            _ ← modify (set_inputbuf rest);
            _ ← validate_page_header hdr;
            _ ← advance_lsn (Z.of_nat XLOG_SIZE_OF_XLOG_SHORT_PHD);
            mret true
        end
      else mret true
  end.

Definition complete_record (recordbuf : list byte) : DM (Lsn * list byte) :=
  hdr ← unwrap (slice 0 XLOG_SIZE_OF_XLOG_RECORD recordbuf);
  match des_record hdr with
  | None => decode_error RecordDeserialization
  | Some xlogrec =>
      body ← unwrap (slice (XLOG_RECORD_CRC_OFFS + 4) (length recordbuf) recordbuf);
      front ← unwrap (slice 0 XLOG_RECORD_CRC_OFFS recordbuf);
      let crc := crc32c_append (crc32c_append 0 body) front in
      if decide (crc <> xl_crc xlogrec) then decode_error CrcMismatch else
      lsn ← gets wd_lsn;
      next_lsn ← (if is_xlog_switch_record xlogrec
                  then unwrap (lsn_add lsn (calc_padding lsn WAL_SEGMENT_SIZE))
                  else mret (align lsn));
      _ ← modify (set_state (SkippingEverything next_lsn));
      mret (next_lsn, recordbuf)
  end.

(** The second half: [None] goes round the loop, [Some r] returns [r]. *)
Definition read_contents : DM (option (option (Lsn * list byte))) :=
  d ← get;
  match wd_state d with
  | WaitingForRecord =>
      if decide (buffered d < 4) then mret (Some None) else
      let tot_len := le_Z (take 4 (wd_inputbuf d)) in
      if decide (tot_len < Z.of_nat XLOG_SIZE_OF_XLOG_RECORD) then decode_error (InvalidTotLen tot_len) else
      let pageleft := remaining_in_block (wd_lsn d) in
      if decide (tot_len <= buffered d /\ tot_len <= pageleft) then
        _ ← advance_lsn tot_len;
        recordbuf ← split_to tot_len;
        r ← complete_record recordbuf;
        mret (Some (Some r))
      else
        match tot_len with
        | Zpos contlen => _ ← modify (set_state (ReassemblingRecord [] contlen)); mret None
        | _ => panic
        end
  | ReassemblingRecord recordbuf contlen =>
      let pageleft := remaining_in_block (wd_lsn d) in
      let n := Z.min (Zpos contlen) pageleft in
      if decide (buffered d < n) then mret (Some None) else
      chunk ← split_to n;
      _ ← modify (set_state (ReassemblingRecord (recordbuf ++ chunk) contlen));
      _ ← advance_lsn n;
      match Zpos contlen - n with
      | Zpos x => _ ← modify (set_state (ReassemblingRecord (recordbuf ++ chunk) x)); mret None
      | _ =>
          _ ← modify (set_state (ReassemblingRecord [] contlen));
          r ← complete_record (recordbuf ++ chunk);
          mret (Some (Some r))
      end
  | SkippingEverything skip_until_lsn =>
      _ ← assert (bool_decide (wd_lsn d <= skip_until_lsn));
      let n := skip_until_lsn - wd_lsn d in
      if decide (buffered d < n) then mret (Some None) else
      _ ← split_to n;
      _ ← advance_lsn n;
      _ ← modify (set_state WaitingForRecord);
      mret None
  end.

Definition poll_step : DM (option (option (Lsn * list byte))) :=
  enough ← read_page_header;
  if enough : bool then read_contents else mret (Some None).

Fixpoint poll_loop (fuel : nat) : DM (option (Lsn * list byte)) :=
  match fuel with
  | O => panic
  | S fuel => r ← poll_step; match r with Some r => mret r | None => poll_loop fuel end
  end.

(** Every turn of the loop consumes input or moves on in the order skipping,
    waiting, reassembling. *)
Definition poll_measure (d : WalStreamDecoder) : nat :=
  3 * length (wd_inputbuf d)
  + match wd_state d with SkippingEverything _ => 2 | WaitingForRecord => 1 | ReassemblingRecord _ _ => 0 end.

Definition poll_decode : DM (option (Lsn * list byte)) :=
  fun d => poll_loop (S (poll_measure d)) d.
End decoder.

(** ** Its callers

    [while let Some(rec) = decoder.poll_decode()? { .. }]: the records, how the
    loop ended, and the decoder left.  A record takes at least a byte of input. *)
Section callers.
Context `{XB : XlogBindings}.

Abbreviation decoded := (list (Lsn * list byte) * outcome WalDecodeError unit * WalStreamDecoder)%type.

Fixpoint drain_loop (fuel : nat) (d : WalStreamDecoder) : decoded :=
  match fuel with
  | O => ([], Panic, d)
  | S fuel =>
      match poll_decode d with
      | (Ok None, d') => ([], Ok tt, d')
      | (Ok (Some r), d') => let '(rs, o, d'') := drain_loop fuel d' in (r :: rs, o, d'')
      | (Err e, d') => ([], Err e, d')
      | (Panic, d') => ([], Panic, d')
      end
  end.

Definition drain (d : WalStreamDecoder) : decoded := drain_loop (S (length (wd_inputbuf d))) d.

(** Chunks of the stream as they arrive, up to the first error. *)
Fixpoint drain_chunks (cs : list (list byte)) (d : WalStreamDecoder) : decoded :=
  match cs with
  | [] => ([], Ok tt, d)
  | c :: cs =>
      let '(rs, o, d') := drain (feed_bytes c d) in
      match o with
      | Ok _ => let '(rs', o', d'') := drain_chunks cs d' in (rs ++ rs', o', d'')
      | _ => (rs, o, d')
      end
  end.
End callers.

(** ** Page headers *)

(** The size of the page header expected next. *)
Definition page_start `{XlogBindings} (d : WalStreamDecoder) : option nat :=
  match wd_state d with
  | SkippingEverything _ => None
  | _ =>
      if decide (segment_offset (wd_lsn d) WAL_SEGMENT_SIZE = 0) then Some XLOG_SIZE_OF_XLOG_LONG_PHD
      else if decide (block_offset (wd_lsn d) = 0) then Some XLOG_SIZE_OF_XLOG_SHORT_PHD
      else None
  end.

(** The position up to which records were returned or are being read. *)
Definition wd_pos (d : WalStreamDecoder) : Lsn :=
  match wd_state d with SkippingEverything s => s | _ => wd_lsn d end.

Lemma feed_nil d : feed_bytes [] d = d.
Proof. destruct d. unfold feed_bytes, set_inputbuf. simpl. by rewrite app_nil_r. Qed.

Lemma feed_feed c c' d : feed_bytes c' (feed_bytes c d) = feed_bytes (c ++ c') d.
Proof. unfold feed_bytes, set_inputbuf. simpl. by rewrite <- app_assoc. Qed.

Lemma page_block lsn : segment_offset lsn WAL_SEGMENT_SIZE = 0 -> block_offset lsn = 0.
Proof.
  unfold segment_offset, block_offset, WAL_SEGMENT_SIZE, XLOG_BLCKSZ. intros H.
  apply Z.mod_divide in H; [|lia]. apply Z.mod_divide; [lia|]. etrans; [|done]. by exists 2048.
Qed.

Lemma seg_ceil_align l :
  0 <= l <= LSN_MAX - 7 -> l <= align l <= seg_ceil WAL_SEGMENT_SIZE l.
Proof.
  unfold LSN_MAX. intros Hl. rewrite align_round by lia. unfold seg_ceil, WAL_SEGMENT_SIZE.
  pose proof (Z.mod_pos_bound (- l) 8). pose proof (Z.div_mod (- l) 8).
  pose proof (Z.div_mod (l + 16 * 1024 * 1024 - 1) (16 * 1024 * 1024)).
  pose proof (Z.mod_pos_bound (l + 16 * 1024 * 1024 - 1) (16 * 1024 * 1024)). lia.
Qed.

Lemma seg_ceil_padding l :
  in_u 64 l -> l <= l + calc_padding l WAL_SEGMENT_SIZE <= seg_ceil WAL_SEGMENT_SIZE l.
Proof.
  unfold in_u. intros Hl. unfold calc_padding, wrap.
  rewrite Z.mod_mod_divide by (by exists (2 ^ 40)).
  unfold seg_ceil, WAL_SEGMENT_SIZE.
  pose proof (Z.mod_pos_bound (16 * 1024 * 1024 - l) (16 * 1024 * 1024)).
  pose proof (Z.div_mod (16 * 1024 * 1024 - l) (16 * 1024 * 1024)).
  pose proof (Z.div_mod (l + 16 * 1024 * 1024 - 1) (16 * 1024 * 1024)).
  pose proof (Z.mod_pos_bound (l + 16 * 1024 * 1024 - 1) (16 * 1024 * 1024)). lia.
Qed.

Section headers.
Context `{XB : XlogBindings} {XBL : XlogBindingsLaws}.
Implicit Types (d : WalStreamDecoder).

Lemma validate_page_header_pure hdr d b :
  validate_page_header hdr (set_inputbuf b d) =
    ((validate_page_header hdr d).1, set_inputbuf b d).
Proof.
  unfold validate_page_header, mbind, M_bind, get, decode_error. simpl.
  destruct (wd_state d); simpl; by repeat case_decide.
Qed.

Lemma validate_not_panic hdr d : is_Some (page_start d) -> (validate_page_header hdr d).1 <> Panic.
Proof.
  unfold validate_page_header, mbind, M_bind, get, decode_error, page_start. simpl. intros [n Hn].
  destruct (wd_state d); simpl; by repeat case_decide.
Qed.

Lemma header_none d : page_start d = None -> read_page_header d = (Ok true, d).
Proof.
  unfold page_start, read_page_header, mbind, M_bind, get.
  destruct (wd_state d); [| |done]; repeat case_decide; done.
Qed.

Lemma header_short d n :
  page_start d = Some n -> (length (wd_inputbuf d) < n)%nat -> read_page_header d = (Ok false, d).
Proof.
  unfold page_start, read_page_header, mbind, M_bind, get, buffered.
  intros E Hlen. destruct (wd_state d); [| |done]; repeat case_decide; simplify_eq; try done; lia.
Qed.

(** A header that is there is read, however much input follows it. *)
Lemma header_read d n :
  page_start d = Some n -> (n <= length (wd_inputbuf d))%nat ->
  exists o : outcome WalDecodeError unit, o <> Panic /\ forall c,
    let d1 := set_inputbuf (drop n (wd_inputbuf d) ++ c) d in
    read_page_header (feed_bytes c d) =
    match o with
    | Ok _ => match lsn_add (wd_lsn d) (Z.of_nat n) with
              | Some l => (Ok true, set_lsn l d1)
              | None => (Panic, d1)
              end
    | Err e => (Err e, d1)
    | Panic => (Panic, d1)
    end.
Proof.
  intros E Hlen. pose proof (fun h => validate_not_panic h d ltac:(by eexists)) as Hnp.
  unfold page_start in E. unfold read_page_header. simpl.
  destruct (wd_state d) eqn:Es; [| |done]; repeat case_decide; simplify_eq.
  all: first [destruct (des_long_header_reads _ Hlen) as [h Hh]
             |destruct (des_page_header_reads _ Hlen) as [h Hh]].
  all: first [exists (validate_page_header (std h) d).1|exists (validate_page_header h d).1];
    (split; [done|]); intros c; unfold mbind, M_bind, get, buffered; simpl; rewrite Es;
    rewrite ?decide_True by done; rewrite ?(decide_False (P := segment_offset _ _ = 0)) by done;
    rewrite ?(decide_True (P := block_offset _ = 0)) by done; rewrite decide_False
      by (rewrite length_app; lia); rewrite Hh; unfold modify;
    change (set_inputbuf ?b (feed_bytes c d)) with (set_inputbuf b d);
    rewrite validate_page_header_pure.
  all: match goal with |- context [(validate_page_header ?h ?x).1] =>
         destruct (validate_page_header h x).1 as [[]|e|] end; try done.
  all: unfold advance_lsn; simpl; by destruct (lsn_add _ _).
Qed.

(** Past its header a page starts no new one. *)
Lemma page_start_past d n b :
  page_start d = Some n -> page_start (set_lsn (wd_lsn d + Z.of_nat n) (set_inputbuf b d)) = None.
Proof.
  intros E. assert (block_offset (wd_lsn d) = 0 /\ 0 < Z.of_nat n < XLOG_BLCKSZ) as [Hb Hn].
  { unfold page_start in E. destruct (wd_state d); [| |done]; repeat case_decide; simplify_eq;
      (split; [first [done|by apply page_block]|]); rewrite ?short_phd_size, ?long_phd_size; done. }
  assert (block_offset (wd_lsn d + Z.of_nat n) <> 0) as Hne.
  { unfold block_offset in *. rewrite Z.add_mod, Hb, Z.add_0_l, Z.mod_mod, Z.mod_small by first [done|lia]. lia. }
  unfold page_start. simpl. rewrite (decide_False (P := segment_offset _ _ = 0)) by (by intros ?%page_block).
  rewrite decide_False by done. by destruct (wd_state d).
Qed.

(** *** Completing a record *)

(** The outcome depends on the bytes and the position only. *)
Definition completion (rb : list byte) (lsn : Lsn) : outcome WalDecodeError (Lsn * list byte) :=
  (complete_record rb (decoder_new lsn PG14)).1.

Lemma complete_record_at rb d :
  complete_record rb d = (completion rb (wd_lsn d),
    match completion rb (wd_lsn d) with
    | Ok (l, _) => set_state (SkippingEverything l) d
    | _ => d
    end).
Proof.
  unfold completion, complete_record, mbind, M_bind, unwrap, decode_error, gets, modify, panic, mret, M_ret.
  destruct (slice 0 XLOG_SIZE_OF_XLOG_RECORD rb); [|done]. destruct (des_record _) as [x|]; [|done].
  destruct (slice _ _ rb); [|done]. destruct (slice 0 _ rb); [|done]. simpl. case_decide; [done|].
  destruct (is_xlog_switch_record x); [|done]. by destruct (lsn_add _ _).
Qed.

Lemma completion_ok rb lsn l rb' :
  0 <= lsn <= LSN_MAX - 7 -> completion rb lsn = Ok (l, rb') ->
  rb' = rb /\ lsn <= l <= seg_ceil WAL_SEGMENT_SIZE lsn.
Proof.
  intros Hl. unfold completion, complete_record, mbind, M_bind, unwrap, decode_error, gets, modify, panic, mret, M_ret.
  destruct (slice 0 XLOG_SIZE_OF_XLOG_RECORD rb); [|done]. destruct (des_record _) as [x|]; [|done].
  destruct (slice _ _ rb); [|done]. destruct (slice 0 _ rb); [|done]. simpl. case_decide; [done|].
  destruct (is_xlog_switch_record x).
  - unfold lsn_add. case_decide as Hle; [|done]. intros [= <- <-]. split; [done|].
    apply seg_ceil_padding. unfold LSN_MAX, u64_max in Hl. unfold in_u. lia.
  - intros [= <- <-]. split; [done|]. apply seg_ceil_align; lia.
Qed.

(** *** One turn of the loop *)

Lemma remaining_in_block_pos l : 0 < remaining_in_block l <= XLOG_BLCKSZ.
Proof. unfold remaining_in_block, XLOG_BLCKSZ. pose proof (Z.mod_pos_bound l 8192). lia. Qed.

(** The record read at once, without a detour through [ReassemblingRecord]. *)
Definition fits_page d (contlen : positive) : Prop :=
  wd_state d = WaitingForRecord /\ Zpos contlen = le_Z (take 4 (wd_inputbuf d))
  /\ Z.of_nat XLOG_SIZE_OF_XLOG_RECORD <= Zpos contlen <= remaining_in_block (wd_lsn d)
  /\ 4 <= buffered d < Zpos contlen.

Ltac contents :=
  unfold read_contents, mbind, M_bind, get, decode_error, advance_lsn, split_to, modify, assert, panic,
    mret, M_ret in *; simpl in *.

Lemma contents_short d d' : read_contents d = (Ok (Some None), d') -> d' = d.
Proof.
  intros H. contents. repeat (case_match; simplify_eq; try done).
Qed.

Lemma contents_feed d c :
  match read_contents d with
  | (Ok (Some None), _) => True
  | (Ok (Some (Some r)), d') => read_contents (feed_bytes c d) = (Ok (Some (Some r)), feed_bytes c d')
  | (Ok None, d') =>
      read_contents (feed_bytes c d) = (Ok None, feed_bytes c d')
      \/ exists contlen, fits_page d contlen /\ d' = set_state (ReassemblingRecord [] contlen) d
  | (Err e, d') => read_contents (feed_bytes c d) = (Err e, feed_bytes c d')
  | (Panic, _) => (read_contents (feed_bytes c d)).1 = Panic
  end.
Proof.
  unfold read_contents, mbind, M_bind, get. simpl. destruct (wd_state d) eqn:Es.
  - unfold buffered. simpl. rewrite length_app.
    case_decide; [done|]. rewrite (decide_False (P := Z.of_nat (_ + _) < 4)) by lia.
    rewrite take_app_le by lia. set (tot := le_Z _). case_decide; [done|].
    case_decide as Hf.
    + rewrite decide_True by lia. unfold advance_lsn. simpl. destruct (lsn_add _ _) as [l|]; [|done].
      unfold split_to. simpl. rewrite length_app, !decide_True by lia. rewrite take_app_le by lia.
      rewrite drop_app_le by lia.
      rewrite !complete_record_at. simpl. by destruct (completion _ _) as [[]|e|].
    + pose proof record_size. destruct tot as [|p|p] eqn:Et; [lia| |lia].
      case_decide as Hf'; [|by left]. right. exists p. split; [|done].
      unfold fits_page, buffered. split_and!; try done; lia.
  - unfold buffered. simpl. rewrite length_app.
    pose proof (remaining_in_block_pos (wd_lsn d)). set (n := Z.min _ _).
    case_decide; [done|]. rewrite decide_False by lia. unfold split_to. simpl.
    rewrite length_app, !decide_True by lia. rewrite take_app_le, drop_app_le by lia.
    unfold modify, advance_lsn. simpl. destruct (lsn_add _ _) as [l|]; [|done].
    destruct (Z.pos contlen - n) as [|p|p]; [|by left|].
    all: rewrite !complete_record_at; simpl; by destruct (completion _ _) as [[]|e|].
  - unfold assert. case_bool_decide; [|done]. simpl. unfold buffered. simpl. rewrite length_app.
    case_decide; [done|]. rewrite decide_False by lia. unfold split_to. simpl.
    rewrite length_app, !decide_True by lia. rewrite drop_app_le by lia.
    unfold modify, advance_lsn. simpl. destruct (lsn_add _ _); [by left|done].
Qed.

Lemma wp_advance n (Q : outcome WalDecodeError unit -> WalStreamDecoder -> Prop) d :
  wd_lsn d + n <= u64_max -> Q (Ok tt) (set_lsn (wd_lsn d + n) d) -> wp (advance_lsn n) Q d.
Proof. intros Hn HQ. unfold wp, advance_lsn, lsn_add. by rewrite decide_True. Qed.

Lemma wp_split_to n (Q : outcome WalDecodeError (list byte) -> WalStreamDecoder -> Prop) d :
  n <= buffered d ->
  Q (Ok (take (Z.to_nat n) (wd_inputbuf d))) (set_inputbuf (drop (Z.to_nat n) (wd_inputbuf d)) d) ->
  wp (split_to n) Q d.
Proof. intros Hn HQ. unfold wp, split_to. by rewrite decide_True. Qed.

Definition step_post d (o : outcome WalDecodeError (option (option (Lsn * list byte)))) d' : Prop :=
  wd_pos d <= wd_pos d' /\
  match o with
  | Ok (Some (Some (l, _))) =>
      available d' = available d /\ wd_pos d' = l /\ wd_pos d < l <= seg_ceil WAL_SEGMENT_SIZE (available d)
      /\ (length (wd_inputbuf d') < length (wd_inputbuf d))%nat
  | Ok _ => available d' = available d /\ (length (wd_inputbuf d') <= length (wd_inputbuf d))%nat
  | _ => wd_pos d' <= available d
  end.

Lemma wal_seg_ceil_mono a b : a <= b -> seg_ceil WAL_SEGMENT_SIZE a <= seg_ceil WAL_SEGMENT_SIZE b.
Proof. intros H. unfold seg_ceil. apply Z.mul_le_mono_nonneg_r; [done|]. apply Z.div_le_mono; [done|lia]. Qed.

(** A record of [n] bytes completed at the front of the input. *)
Lemma completed_post d n rb s :
  0 <= wd_lsn d -> available d <= LSN_MAX - 7 -> 0 < n <= buffered d -> wd_pos d = wd_lsn d ->
  (forall b, s <> SkippingEverything b) ->
  wp (r ← complete_record rb; mret (Some (Some r))) (step_post d)
    (set_state s (set_lsn (wd_lsn d + n) (set_inputbuf (drop (Z.to_nat n) (wd_inputbuf d)) d))).
Proof.
  unfold buffered, available. intros Hl Ha Hn Hp Hs. wp_step. unfold wp at 1. rewrite complete_record_at. simpl.
  destruct (completion rb _) as [[l rb']|e|] eqn:Ec; simpl.
  - wp_step. apply completion_ok in Ec as [-> Hc]; [|lia]. unfold step_post, available. simpl.
    rewrite length_drop, Hp. pose proof (wal_seg_ceil_mono (wd_lsn d + n) (wd_lsn d + Z.of_nat (length (wd_inputbuf d)))).
    unfold wd_pos. simpl. lia.
  - unfold step_post, available. rewrite Hp. unfold wd_pos. simpl. destruct s; [lia..|by edestruct Hs].
  - unfold step_post, available. rewrite Hp. unfold wd_pos. simpl. destruct s; [lia..|by edestruct Hs].
Qed.

Lemma contents_spec d :
  0 <= wd_pos d -> available d <= LSN_MAX - 7 -> wp read_contents (step_post d) d.
Proof.
  intros Hp Ha. pose proof (remaining_in_block_pos (wd_lsn d)). pose proof record_size.
  unfold LSN_MAX in Ha. unfold read_contents. wp_step. wp_step. destruct (wd_state d) eqn:Es.
  - assert (wd_pos d = wd_lsn d) as Hpos by (unfold wd_pos; by rewrite Es).
    wp_step; [wp_step; unfold step_post; lia|]. set (tot := le_Z _).
    wp_step; [unfold decode_error, wp, step_post, available; simpl; lia|]. wp_step.
    + wp_step. unfold available, buffered in *.
      apply wp_advance; [lia|]. wp_step. apply wp_split_to; [unfold buffered; simpl; lia|].
      apply (completed_post d tot _ (wd_state d)); unfold buffered, available, LSN_MAX; [lia..|]. intros b. congruence.
    + unfold buffered, available in *. destruct tot as [|p|p]; [lia| |lia].
      wp_step. wp_step. wp_step. unfold step_post, available, wd_pos. simpl. rewrite Es. lia.
  - assert (wd_pos d = wd_lsn d) as Hpos by (unfold wd_pos; by rewrite Es). set (n := Z.min _ _).
    unfold buffered, available in *. wp_step; [wp_step; unfold step_post, available; lia|].
    wp_step. apply wp_split_to; [done || (unfold buffered; lia)|]. wp_step. wp_step.
    wp_step. apply wp_advance; [simpl; lia|].
    destruct (Z.pos contlen - n) as [|p|p] eqn:En.
    + wp_step. wp_step. apply (completed_post d n _ (ReassemblingRecord [] contlen));
        unfold buffered, available, LSN_MAX; [lia..|done].
    + wp_step. wp_step. wp_step. unfold step_post, available, wd_pos. simpl. rewrite Es, length_drop. lia.
    + wp_step. wp_step. apply (completed_post d n _ (ReassemblingRecord [] contlen));
        unfold buffered, available, LSN_MAX; [lia..|done].
  - assert (wd_pos d = skip_until_lsn) as Hpos by (unfold wd_pos; by rewrite Es).
    unfold buffered, available in *. wp_step; wp_step; case_bool_decide; try done;
      [|unfold step_post, available; lia].
    wp_step; [wp_step; unfold step_post, available; lia|].
    wp_step. apply wp_split_to; [done || (unfold buffered; lia)|].
    wp_step. apply wp_advance; [simpl; lia|].
    wp_step. wp_step. wp_step. unfold step_post, available, wd_pos. simpl. rewrite Es, length_drop. lia.
Qed.

Lemma contents_measure d d' : read_contents d = (Ok None, d') -> (poll_measure d' < poll_measure d)%nat.
Proof.
  pose proof (remaining_in_block_pos (wd_lsn d)).
  unfold read_contents, mbind, M_bind, get. simpl. destruct (wd_state d) eqn:Es.
  - case_decide; [done|]. case_decide; [done|]. case_decide.
    + unfold advance_lsn. destruct (lsn_add _ _); [|done]. unfold split_to. case_decide; [|done].
      rewrite complete_record_at. by destruct (completion _ _) as [[]|e|].
    + destruct (le_Z _); [done| |done]. intros [= <-]. unfold poll_measure. simpl. rewrite Es. lia.
  - case_decide; [done|]. unfold split_to. case_decide; [|done]. unfold modify, advance_lsn. simpl.
    destruct (lsn_add _ _); [|done].
    destruct (Z.pos contlen - _) as [|p|p] eqn:Ep.
    2: { intros [= <-]. unfold poll_measure, buffered in *. simpl. rewrite Es, length_drop. lia. }
    all: rewrite complete_record_at; by destruct (completion _ _) as [[]|e|].
  - unfold assert. case_bool_decide; [|done]. simpl. case_decide; [done|]. unfold split_to. case_decide; [|done].
    unfold modify, advance_lsn. simpl. destruct (lsn_add _ _); [|done]. intros [= <-].
    unfold poll_measure. simpl. rewrite Es, length_drop. lia.
Qed.

(** The header phase either changes nothing or consumes a header. *)
Lemma header_cases d :
  (exists b : bool, read_page_header d = (Ok b, d) /\ (b = true -> page_start d = None))
  \/ exists n, page_start d = Some n /\ (n <= length (wd_inputbuf d))%nat.
Proof.
  destruct (page_start d) as [n|] eqn:E; [|left; exists true; by rewrite header_none].
  destruct (decide (n <= length (wd_inputbuf d))%nat); [right; by exists n|].
  left. exists false. split; [|done]. apply (header_short d n); [done|lia].
Qed.

Lemma step_measure d d' : poll_step d = (Ok None, d') -> (poll_measure d' < poll_measure d)%nat.
Proof.
  unfold poll_step, mbind at 1, M_bind at 1.
  destruct (header_cases d) as [(b & -> & _)|(n & En & Hn)].
  - destruct b; [apply contents_measure|done].
  - destruct (header_read d n En Hn) as (o & _ & Ho). specialize (Ho []). rewrite feed_nil in Ho. rewrite Ho.
    destruct o as [[]|e|]; [|done..]. destruct (lsn_add _ _); [|done].
    intros H%contents_measure. etrans; [done|]. unfold poll_measure. simpl. rewrite app_nil_r, length_drop.
    assert (0 < n)%nat; [|lia]. unfold page_start in En. pose proof short_phd_size. pose proof long_phd_size.
    destruct (wd_state d); [| |done]; repeat case_decide; simplify_eq; lia.
Qed.

Lemma poll_loop_enough fuel fuel' d :
  (poll_measure d < fuel)%nat -> (poll_measure d < fuel')%nat -> poll_loop fuel d = poll_loop fuel' d.
Proof.
  revert fuel' d. induction fuel as [|fuel IH]; intros [|fuel'] d; [lia..|]. intros H1 H2.
  cbn [poll_loop]. unfold mbind, M_bind. destruct (poll_step d) as [[[r|]|e|] d'] eqn:E; [done| |done..].
  apply step_measure in E. apply IH; lia.
Qed.

(** The loop, without fuel. *)
Lemma poll_unfold d :
  poll_decode d =
    match poll_step d with
    | (Ok (Some r), d') => (Ok r, d')
    | (Ok None, d') => poll_decode d'
    | (Err e, d') => (Err e, d')
    | (Panic, d') => (Panic, d')
    end.
Proof.
  unfold poll_decode at 1. cbn [poll_loop]. unfold mbind at 1, M_bind at 1.
  destruct (poll_step d) as [[[r|]|e|] d'] eqn:E; [done| |done..].
  apply step_measure in E. unfold poll_decode. apply poll_loop_enough; lia.
Qed.

Lemma step_post_weaken d d1 o d' :
  available d1 = available d -> wd_pos d <= wd_pos d1 ->
  (length (wd_inputbuf d1) <= length (wd_inputbuf d))%nat -> step_post d1 o d' -> step_post d o d'.
Proof.
  unfold step_post. intros -> ?? [? H]. split; [lia|].
  destruct o as [[[[l rb]|]|]|e|]; [|lia..]. destruct H as (? & ? & ? & ?). split_and!; [done|done|lia..].
Qed.

Lemma page_start_pos d n : page_start d = Some n -> wd_pos d = wd_lsn d.
Proof. unfold page_start, wd_pos. by destruct (wd_state d). Qed.

Lemma step_spec d : 0 <= wd_pos d -> available d <= LSN_MAX - 7 -> wp poll_step (step_post d) d.
Proof.
  intros Hp Ha. unfold poll_step. wp_step. unfold wp at 1.
  destruct (header_cases d) as [(b & -> & _)|(n & En & Hn)]; simpl.
  - destruct b; [by apply contents_spec|]. wp_step. unfold step_post. lia.
  - destruct (header_read d n En Hn) as (o & Hnp & Ho). specialize (Ho []). rewrite feed_nil in Ho. rewrite Ho.
    pose proof (page_start_pos d n En) as E. rewrite E in Hp.
    assert (wd_pos (set_inputbuf (drop n (wd_inputbuf d) ++ []) d) = wd_lsn d) as E' by exact E.
    unfold available in *. destruct o as [[]|e|]; simpl; [| |done].
    + unfold lsn_add. unfold LSN_MAX in *. rewrite decide_True by lia. simpl.
      set (d1 := set_lsn _ _). assert (wd_pos d1 = wd_lsn d + Z.of_nat n) as Ep.
      { unfold wd_pos in *. simpl. destruct (wd_state d) eqn:Es; [done..|]. unfold page_start in En. by rewrite Es in En. }
      assert (available d1 = available d) as Ed1
        by (unfold available; simpl; rewrite app_nil_r, length_drop; lia).
      eapply wp_mono; [apply contents_spec; [lia|rewrite Ed1; unfold available, LSN_MAX; lia]|].
      intros o d'. apply step_post_weaken; [done|lia|]. simpl. rewrite app_nil_r, length_drop. lia.
    + unfold step_post, available. rewrite E, E'. simpl. lia.
Qed.

Lemma poll_spec d :
  0 <= wd_pos d -> available d <= LSN_MAX - 7 ->
  wp poll_decode (fun o d' => step_post d (Some <$> o) d') d.
Proof.
  remember (poll_measure d) as m eqn:Em. revert d Em.
  induction m as [m IH] using lt_wf_ind. intros d -> Hp Ha.
  pose proof (step_spec d Hp Ha) as H. unfold wp in *. rewrite poll_unfold.
  destruct (poll_step d) as [[[r|]|e|] d'] eqn:E; simpl in *; [done| |done..].
  destruct H as (H1 & H2 & H3). apply step_measure in E.
  eapply step_post_weaken; [done..|]. apply (IH (poll_measure d')); [done|done|lia|lia].
Qed.

(** *** More input *)

(** Two polls with the same result; after an error the states may differ. *)
Definition agree (r r' : outcome WalDecodeError (option (Lsn * list byte)) * WalStreamDecoder) : Prop :=
  r.1 = r'.1 /\ match r.1 with Ok _ => r.2 = r'.2 | _ => True end.

Lemma step_none d : page_start d = None -> poll_step d = read_contents d.
Proof. intros H. unfold poll_step, mbind, M_bind. by rewrite header_none. Qed.

Lemma step_via d :
  poll_step d = (Ok (Some None), d)
  \/ (exists d1, page_start d1 = None /\ forall c, poll_step (feed_bytes c d) = read_contents (feed_bytes c d1))
  \/ (exists o d1, (o = Panic \/ exists e, o = Err e) /\ forall c, poll_step (feed_bytes c d) = (o, feed_bytes c d1)).
Proof.
  destruct (header_cases d) as [([] & E & Hn)|(n & En & Hn)].
  - right. left. exists d. split; [by apply Hn|]. intros c. apply step_none. by apply Hn.
  - left. unfold poll_step, mbind, M_bind. by rewrite E.
  - right. destruct (header_read d n En Hn) as (o & _ & Ho). unfold poll_step, mbind, M_bind.
    destruct o as [[]|e|]; [unfold lsn_add in *; case_decide|..].
    + left. eexists. split; [exact (page_start_past d n (drop n (wd_inputbuf d)) En)|].
      intros c. by rewrite Ho.
    + right. exists Panic, (set_inputbuf (drop n (wd_inputbuf d)) d). split; [by left|]. intros c. by rewrite Ho.
    + right. exists (Err e), (set_inputbuf (drop n (wd_inputbuf d)) d). split; [eauto|]. intros c. by rewrite Ho.
    + right. exists Panic, (set_inputbuf (drop n (wd_inputbuf d)) d). split; [by left|]. intros c. by rewrite Ho.
Qed.

(** A record that waits for the rest of its page's bytes: reading it at once and
    reassembling it give the same. *)
Lemma fits_page_short d p :
  page_start d = None -> fits_page d p ->
  poll_step (set_state (ReassemblingRecord [] p) d) = (Ok (Some None), set_state (ReassemblingRecord [] p) d).
Proof.
  intros Hs (Es & _ & Hp & Hb). rewrite step_none by (unfold page_start in *; simpl; by rewrite Es in Hs).
  unfold read_contents, mbind, M_bind, get, buffered in *. simpl. by rewrite decide_True by lia.
Qed.

Lemma fits_page_feed d p c :
  page_start d = None -> fits_page d p ->
  read_contents (feed_bytes c d) = (Ok None, feed_bytes c (set_state (ReassemblingRecord [] p) d))
  \/ exists r, read_contents (feed_bytes c d) = r
       /\ match r with
          | (Ok r1, d1) => read_contents (feed_bytes c (set_state (ReassemblingRecord [] p) d)) = r
              /\ exists r2, r1 = Some (Some r2)
          | (o, _) => (read_contents (feed_bytes c (set_state (ReassemblingRecord [] p) d))).1 = o
          end.
Proof.
  intros Hs (Es & Ep & Hp & Hb).
  unfold read_contents, mbind, M_bind, get. simpl. rewrite Es. unfold buffered in *. simpl.
  rewrite length_app, take_app_le, <- Ep by lia. rewrite (decide_False (P := _ < 4)) by lia.
  rewrite (decide_False (P := Z.pos p < Z.of_nat XLOG_SIZE_OF_XLOG_RECORD)) by lia.
  rewrite Z.min_l, Z.sub_diag by lia. case_decide as Hc; [right|by left]. eexists. split; [done|].
  rewrite decide_False by lia. unfold split_to, advance_lsn, modify. simpl. rewrite length_app, !decide_True by lia.
  destruct (lsn_add _ _) as [l|]; simpl.
  - rewrite length_app, decide_True by lia. rewrite !complete_record_at. simpl.
    by destruct (completion _ _) as [[]|e|]; simpl; eauto 10.
  - done.
Qed.

(** A poll of more input gives the same record or error, and resumes where a poll
    that ran out of input stopped. *)
Lemma poll_feed d c :
  match poll_decode d with
  | (Ok None, d') => agree (poll_decode (feed_bytes c d)) (poll_decode (feed_bytes c d'))
  | (Ok (Some r), d') => poll_decode (feed_bytes c d) = (Ok (Some r), feed_bytes c d')
  | (o, _) => (poll_decode (feed_bytes c d)).1 = o
  end.
Proof.
  assert (forall r, agree r r) as Hrefl by (intros [[]?]; done).
  remember (poll_measure d) as m eqn:Em. revert d Em.
  induction m as [m IH] using lt_wf_ind. intros d ->. rewrite poll_unfold.
  destruct (step_via d) as [->|[(d1 & Hd1 & Hvia)|(o & d1 & Ho & Hvia)]]; [apply Hrefl| |].
  - pose proof (Hvia []) as E0. rewrite !feed_nil in E0. rewrite E0.
    pose proof (contents_feed d1 c) as Hc. rewrite <- E0 in Hc |- *.
    destruct (poll_step d) as [[[[r|]|]|e|] d'] eqn:E.
    + by rewrite poll_unfold, Hvia, Hc.
    + symmetry in E0. apply contents_short in E0 as ->. rewrite poll_unfold, Hvia.
      rewrite (poll_unfold (feed_bytes c d1)), step_none by done. apply Hrefl.
    + pose proof (step_measure _ _ E) as Hm. destruct Hc as [Hc|(p & Hp & ->)].
      * rewrite (poll_unfold (feed_bytes c d)), Hvia, Hc. by apply (IH _ Hm).
      * rewrite poll_unfold, fits_page_short by done. rewrite (poll_unfold (feed_bytes c d)), Hvia.
        rewrite (poll_unfold (feed_bytes c (set_state _ _))).
        rewrite (step_none (feed_bytes c (set_state _ _)))
          by (destruct Hp as [Es _]; unfold page_start in *; simpl; by rewrite Es in Hd1).
        destruct (fits_page_feed d1 p c Hd1 Hp) as [->|(r & -> & Hr)].
        -- rewrite poll_unfold. rewrite (step_none (feed_bytes c (set_state _ _)))
             by (destruct Hp as [Es _]; unfold page_start in *; simpl; by rewrite Es in Hd1). apply Hrefl.
        -- destruct r as [[r1|e|] d2]; [destruct Hr as [-> [r2 ->]]; apply Hrefl|..];
             destruct (read_contents (feed_bytes _ _)) as [o d3]; simpl in Hr; by subst o.
    + by rewrite poll_unfold, Hvia, Hc.
    + rewrite poll_unfold, Hvia. by destruct (read_contents (feed_bytes _ _)) as [o d2]; simpl in *; subst.
  - pose proof (Hvia []) as E0. rewrite feed_nil in E0. rewrite E0.
    destruct Ho as [->|[e ->]]; by rewrite poll_unfold, Hvia.
Qed.

(** *** Draining the input *)

Definition consumes d (o : outcome WalDecodeError (option (option (Lsn * list byte)))) d' : Prop :=
  (length (wd_inputbuf d') <= length (wd_inputbuf d))%nat
  /\ forall r, o = Ok (Some (Some r)) -> (length (wd_inputbuf d') < length (wd_inputbuf d))%nat.

Lemma completed_consumes d d0 n s l rb :
  wd_inputbuf d0 = drop n (wd_inputbuf d) -> (0 < n <= length (wd_inputbuf d))%nat ->
  wp (r ← complete_record rb; mret (Some (Some r))) (consumes d) (set_state s (set_lsn l d0)).
Proof.
  intros E Hn. unfold wp, mbind, M_bind. rewrite complete_record_at. unfold consumes.
  destruct (completion _ _) as [[]|e|]; simpl; rewrite E, length_drop; (split; [lia|]); intros; lia.
Qed.

Lemma contents_consumes d : wp read_contents (consumes d) d.
Proof.
  assert (forall o, (forall r, o <> Ok (Some (Some r))) -> consumes d o d) as Hsame.
  { intros o Ho. split; [done|]. intros r ?. by edestruct Ho. }
  pose proof (remaining_in_block_pos (wd_lsn d)). pose proof record_size.
  unfold read_contents. wp_step. wp_step. destruct (wd_state d) eqn:Es.
  - wp_step; [by apply Hsame|]. wp_step; [by apply Hsame|]. unfold buffered in *. wp_step.
    + wp_step. unfold wp at 1, advance_lsn. destruct (lsn_add _ _) as [l|]; simpl; [|by apply Hsame].
      wp_step. apply wp_split_to; [unfold buffered; simpl; lia|].
      apply (completed_consumes d (set_inputbuf (drop (Z.to_nat (le_Z (take 4 (wd_inputbuf d)))) (wd_inputbuf d)) d) (Z.to_nat (le_Z (take 4 (wd_inputbuf d)))) (wd_state d)); [done|lia].
    + destruct (le_Z _); [by apply Hsame| |by apply Hsame]. wp_step. wp_step. wp_step. split; [done|]. done.
  - unfold buffered in *. wp_step; [by apply Hsame|]. set (n := Z.min _ _) in *.
    wp_step. apply wp_split_to; [unfold buffered; simpl; lia|]. wp_step. wp_step. wp_step.
    unfold wp at 1, advance_lsn. destruct (lsn_add _ _) as [l|]; simpl; [|split; [simpl; rewrite length_drop; lia|done]].
    destruct (Z.pos contlen - n); wp_step; wp_step.
    2: { wp_step. split; [simpl; rewrite length_drop; lia|done]. }
    all: eapply (completed_consumes d (set_state _ (set_inputbuf _ _)) (Z.to_nat n)); [done|lia].
  - wp_step; wp_step; [|by apply Hsame]. case_bool_decide; [|done]. unfold buffered in *. wp_step; [by apply Hsame|].
    wp_step. apply wp_split_to; [unfold buffered; simpl; lia|]. wp_step. unfold wp at 1, advance_lsn.
    destruct (lsn_add _ _) as [l|]; simpl; [wp_step; wp_step; wp_step|]; (split; [simpl; rewrite length_drop; lia|done]).
Qed.

Lemma step_consumes d : wp poll_step (consumes d) d.
Proof.
  unfold poll_step. wp_step. unfold wp at 1. destruct (header_cases d) as [(b & -> & _)|(n & En & Hn)].
  - destruct b; [apply contents_consumes|]. by split.
  - destruct (header_read d n En Hn) as (o & _ & Ho). specialize (Ho []). rewrite feed_nil in Ho. rewrite Ho.
    assert (length (drop n (wd_inputbuf d) ++ []) <= length (wd_inputbuf d))%nat
      by (rewrite app_nil_r, length_drop; lia).
    destruct o as [[]|e|]; [|by split..]. destruct (lsn_add _ _); [|by split]. simpl.
    eapply wp_mono; [apply contents_consumes|]. intros o d' [H1 H2]. simpl in *.
    split; [lia|]. intros r Hr. specialize (H2 r Hr). lia.
Qed.

Lemma poll_consumes d r d' :
  poll_decode d = (Ok (Some r), d') -> (length (wd_inputbuf d') < length (wd_inputbuf d))%nat.
Proof.
  remember (poll_measure d) as m eqn:Em. revert d Em.
  induction m as [m IH] using lt_wf_ind. intros d ->. rewrite poll_unfold.
  pose proof (step_consumes d) as Hc. unfold wp in Hc.
  destruct (poll_step d) as [[[[r0|]|]|e|] d1] eqn:E; simpl in Hc; intros H; simplify_eq.
  - by eapply (proj2 Hc).
  - apply (IH _ (step_measure _ _ E)) in H; [|done]. destruct Hc. lia.
Qed.

Lemma drain_enough fuel fuel' d :
  (length (wd_inputbuf d) < fuel)%nat -> (length (wd_inputbuf d) < fuel')%nat ->
  drain_loop fuel d = drain_loop fuel' d.
Proof.
  revert fuel' d. induction fuel as [|fuel IH]; intros [|fuel'] d; [lia..|]. intros H1 H2. cbn [drain_loop].
  destruct (poll_decode d) as [[[r|]|e|] d'] eqn:E; [|done..]. apply poll_consumes in E.
  by rewrite (IH fuel') by lia.
Qed.

Lemma drain_unfold d :
  drain d =
    match poll_decode d with
    | (Ok None, d') => ([], Ok tt, d')
    | (Ok (Some r), d') => let '(rs, o, d'') := drain d' in (r :: rs, o, d'')
    | (Err e, d') => ([], Err e, d')
    | (Panic, d') => ([], Panic, d')
    end.
Proof.
  unfold drain at 1. cbn [drain_loop]. destruct (poll_decode d) as [[[r|]|e|] d'] eqn:E; [|done..].
  apply poll_consumes in E. unfold drain. by rewrite (drain_enough _ (S (length (wd_inputbuf d')))) by lia.
Qed.

(** The same records and the same end; after an error the states may differ. *)
Definition same_decoded (r r' : list (Lsn * list byte) * outcome WalDecodeError unit * WalStreamDecoder) : Prop :=
  r.1 = r'.1 /\ match r.1.2 with Ok _ => r.2 = r'.2 | _ => True end.

Definition prepend (rs : list (Lsn * list byte))
    (r : list (Lsn * list byte) * outcome WalDecodeError unit * WalStreamDecoder) :=
  (rs ++ r.1.1, r.1.2, r.2).

Lemma same_decoded_prepend rs r r' : same_decoded r r' -> same_decoded (prepend rs r) (prepend rs r').
Proof. unfold same_decoded, prepend. simpl. intros [-> H]. done. Qed.

Lemma drain_feed d c :
  match drain d with
  | (rs, Ok _, d') => same_decoded (drain (feed_bytes c d)) (prepend rs (drain (feed_bytes c d')))
  | (rs, o, _) => (drain (feed_bytes c d)).1 = (rs, o)
  end.
Proof.
  remember (length (wd_inputbuf d)) as m eqn:Em. revert d Em.
  induction m as [m IH] using lt_wf_ind. intros d ->. rewrite drain_unfold.
  pose proof (poll_feed d c) as Hf.
  destruct (poll_decode d) as [[[r|]|e|] d'] eqn:E.
  - apply poll_consumes in E. specialize (IH _ E d' eq_refl).
    rewrite (drain_unfold (feed_bytes c d)), Hf.
    destruct (drain d') as [[rs o] d'']. destruct o as [[]|e|].
    + destruct IH as [H1 H2], (drain (feed_bytes c d')) as [[rs' o'] d3]. unfold prepend in *. simpl in *.
      destruct (drain (feed_bytes c d'')) as [[rs2 o2] d4]. simpl in *. by simplify_eq.
    + by destruct (drain (feed_bytes c d')) as [[rs' o'] d3]; simpl in *; simplify_eq.
    + by destruct (drain (feed_bytes c d')) as [[rs' o'] d3]; simpl in *; simplify_eq.
  - destruct Hf as [H1 H2]. rewrite (drain_unfold (feed_bytes c d)), (drain_unfold (feed_bytes c d')).
    destruct (poll_decode (feed_bytes c d)) as [o1 d1], (poll_decode (feed_bytes c d')) as [o2 d2]. simpl in *. subst.
    destruct o2 as [[r|]|e|]; simplify_eq; try done. by destruct (drain d2) as [[rs [[]|e|]] d3].
  - rewrite drain_unfold. destruct (poll_decode (feed_bytes c d)) as [o d1]. simpl in Hf. by subst.
  - rewrite drain_unfold. destruct (poll_decode (feed_bytes c d)) as [o d1]. simpl in Hf. by subst.
Qed.

Lemma drain_chunks_cons c cs d :
  drain_chunks (c :: cs) d =
    match drain (feed_bytes c d) with
    | (rs, Ok _, d') => prepend rs (drain_chunks cs d')
    | r => r
    end.
Proof.
  cbn [drain_chunks]. destruct (drain (feed_bytes c d)) as [[rs [u|e|]] d']; [|done..].
  by destruct (drain_chunks cs d') as [[rs1 o1] d1].
Qed.

Lemma drain_chunks_whole c cs d :
  same_decoded (drain_chunks (c :: cs) d) (drain (feed_bytes (concat (c :: cs)) d)).
Proof.
  revert c d. induction cs as [|c' cs IH]; intros c d.
  - simpl. rewrite app_nil_r. destruct (drain _) as [[rs [[]|e|]] d']; by try rewrite app_nil_r.
  - change (concat (c :: c' :: cs)) with (c ++ concat (c' :: cs)). rewrite <- feed_feed.
    rewrite drain_chunks_cons. pose proof (drain_feed (feed_bytes c d) (concat (c' :: cs))) as H.
    destruct (drain (feed_bytes c d)) as [[rs o] d']. destruct o as [[]|e|].
    + specialize (IH c' d'). destruct (same_decoded_prepend rs _ _ IH) as [H1 H2], H as [H3 H4].
      split; [congruence|]. rewrite H1, <- H3 in *. destruct (drain _).1.2; congruence.
    + by split; [rewrite H|].
    + by split; [rewrite H|].
Qed.

(** C31: however the stream is cut into chunks, the decoder returns the records
    and ends with the error that it finds when it is given the whole stream; only
    after an error may the states differ. *)
Theorem chunks_do_not_matter c cs d :
  let '(rs, o, d1) := drain_chunks (c :: cs) d in
  let '(rs', o', d2) := drain (feed_bytes (concat (c :: cs)) d) in
  rs = rs' /\ o = o' /\ (o = Ok tt -> d1 = d2).
Proof.
  pose proof (drain_chunks_whole c cs d) as [H1 H2].
  destruct (drain_chunks _ _) as [[rs o] d1], (drain _) as [[rs' o'] d2]. simpl in *. simplify_eq.
  split_and!; [done..|]. by intros ->.
Qed.

(** A poll neither goes back nor loses its place: a returned record ends
    after the previous one and at most at the end of the last segment seen, the
    stream position is kept, and an error is found within the input. *)
Theorem poll_decode_progress d :
  0 <= wd_pos d -> available d <= LSN_MAX - 7 ->
  let '(o, d') := poll_decode d in
  wd_pos d <= wd_pos d' /\
  match o with
  | Ok (Some (l, _)) =>
      available d' = available d /\ wd_pos d' = l /\ wd_pos d < l <= seg_ceil WAL_SEGMENT_SIZE (available d)
      /\ (length (wd_inputbuf d') < length (wd_inputbuf d))%nat
  | Ok None => available d' = available d
  | _ => wd_pos d' <= available d
  end.
Proof.
  intros Hp Ha. pose proof (poll_spec d Hp Ha) as H. unfold wp, step_post in H.
  destruct (poll_decode d) as [[[[l r]|]|e|] d']; simpl in H; intuition.
Qed.

(** ** The decoder implements the interface of the storage *)

(** The message of the error, as [anyhow] keeps it. *)
Definition decode_error_msg (e : WalDecodeError) : string := "WAL decoding error".

#[global] Instance WalStreamDecoder_decoder : WalDecoder WalStreamDecoder := {|
  d_new := decoder_new;
  d_pg_version := wd_pg_version;
  d_available := available;
  d_feed := feed_bytes;
  d_poll := map_err decode_error_msg poll_decode;
  d_seg := WAL_SEGMENT_SIZE;
  d_pos := wd_pos;
  d_fuel d := length (wd_inputbuf d)
|}.

#[global] Instance WalStreamDecoder_laws : WalDecoderLaws WalStreamDecoder.
Proof.
  split; [done|intros; simpl; unfold available; simpl; lia|done|..].
  - intros bs d. simpl. unfold available. simpl. rewrite length_app. lia.
  - done.
  - intros d Hp Ha. pose proof (poll_spec d Hp Ha) as H. unfold wp, step_post in *. simpl. unfold map_err.
    destruct (poll_decode d) as [[[[l r]|]|e|] d']; simpl in *; tauto.
Qed.
End headers.

(** ** Concrete bindings

    The structs as a 64-bit little-endian C compiler lays them out, and the
    Castagnoli checksum bit by bit. *)
Lemma lxor_u w a b : 0 <= a < 2 ^ w -> 0 <= b < 2 ^ w -> 0 <= Z.lxor a b < 2 ^ w.
Proof.
  intros Ha Hb. assert (0 <= Z.lxor a b) as H0 by (apply Z.lxor_nonneg; lia). split; [done|].
  assert (0 <= w) by (destruct (Z.lt_ge_cases w 0); [rewrite Z.pow_neg_r in Ha by done; lia|done]).
  rewrite <- (Z.mod_small a (2 ^ w)), <- (Z.mod_small b (2 ^ w)), <- !Z.land_ones by done.
  replace (Z.lxor (Z.land a (Z.ones w)) (Z.land b (Z.ones w))) with (Z.land (Z.lxor a b) (Z.ones w)).
  - rewrite Z.land_ones by done. apply Z.mod_pos_bound. lia.
  - apply Z.bits_inj'. intros n Hn. rewrite !Z.land_spec, !Z.lxor_spec, !Z.land_spec.
    by destruct (Z.testbit a n), (Z.testbit b n), (Z.testbit (Z.ones w) n).
Qed.

Module CLayout.

Definition crc_bit (c : Z) : Z :=
  if Z.testbit c 0 then Z.lxor (Z.shiftr c 1) 0x82F63B78 else Z.shiftr c 1.

Definition crc_byte (c : Z) (b : byte) : Z := Nat.iter 8 crc_bit (Z.lxor c (byte_Z b)).

Definition crc32c (c : Z) (bs : list byte) : Z :=
  Z.lxor (fold_left crc_byte bs (Z.lxor c u32_max)) u32_max.

Definition page_magic (v : PgMajorVersion) : Z :=
  match v with PG14 => 0xD10D | PG15 => 0xD110 | PG16 => 0xD113 | PG17 => 0xD116 end.

Definition ser_page (h : XLogPageHeaderData) : list byte :=
  le_bytes 2 (xlp_magic h) ++ le_bytes 2 (xlp_info h) ++ le_bytes 4 (xlp_tli h)
  ++ le_bytes 8 (xlp_pageaddr h) ++ le_bytes 4 (xlp_rem_len h) ++ le_bytes 4 0.

(** The [n] bytes at offset [k]. *)
Definition field (k n : nat) (bs : list byte) : Z := le_Z (take n (drop k bs)).

Definition des_page (bs : list byte) : option (XLogPageHeaderData * list byte) :=
  if decide (24 <= length bs)%nat then
    Some ({| xlp_magic := field 0 2 bs; xlp_info := field 2 2 bs; xlp_tli := field 4 4 bs;
             xlp_pageaddr := field 8 8 bs; xlp_rem_len := field 16 4 bs |}, drop 24 bs)
  else None.

Definition ser_long (h : XLogLongPageHeaderData) : list byte :=
  ser_page (std h) ++ le_bytes 8 (xlp_sysid h) ++ le_bytes 4 (xlp_seg_size h) ++ le_bytes 4 (xlp_xlog_blcksz h).

Definition des_long (bs : list byte) : option (XLogLongPageHeaderData * list byte) :=
  if decide (40 <= length bs)%nat then
    '(h, _) ← des_page bs;
    Some ({| std := h; xlp_sysid := field 24 8 bs; xlp_seg_size := field 32 4 bs;
             xlp_xlog_blcksz := field 36 4 bs |}, drop 40 bs)
  else None.

Definition ser_rec (r : XLogRecord) : list byte :=
  le_bytes 4 (xl_tot_len r) ++ le_bytes 4 (xl_xid r) ++ le_bytes 8 (xl_prev r) ++ le_bytes 1 (xl_info r)
  ++ le_bytes 1 (xl_rmid r) ++ le_bytes 2 0 ++ le_bytes 4 (xl_crc r).

Definition des_rec (bs : list byte) : option XLogRecord :=
  if decide (length bs = 24)%nat then
    Some {| xl_tot_len := field 0 4 bs; xl_xid := field 4 4 bs; xl_prev := field 8 8 bs;
            xl_info := field 16 1 bs; xl_rmid := field 17 1 bs; xl_crc := field 20 4 bs |}
  else None.

#[export] Instance c_bindings : XlogBindings := {|
  XLOG_PAGE_MAGIC := page_magic;
  XLOG_SIZE_OF_XLOG_SHORT_PHD := 24;
  XLOG_SIZE_OF_XLOG_LONG_PHD := 40;
  XLOG_SIZE_OF_XLOG_RECORD := 24;
  ser_page_header := ser_page;
  des_page_header := des_page;
  ser_long_header := ser_long;
  des_long_header := des_long;
  ser_record := ser_rec;
  des_record := des_rec;
  crc32c_append := crc32c
|}.

Lemma field_app n z k (a b : list byte) m :
  length a = k -> n = m -> 0 <= z < 2 ^ (8 * Z.of_nat n) -> field k n (a ++ le_bytes m z ++ b) = z.
Proof.
  intros <- <- Hz. unfold field. rewrite drop_app_length, take_app_length' by (by rewrite length_le_bytes).
  by apply le_Z_le_bytes_small.
Qed.

Lemma field_prefix k n bs r : (k + n <= length bs)%nat -> field k n (bs ++ r) = field k n bs.
Proof. intros H. unfold field. rewrite drop_app_le by lia. rewrite take_app_le; [done|]. rewrite length_drop. lia. Qed.

Lemma crc_bit_u32 c : in_u 32 c -> in_u 32 (crc_bit c).
Proof.
  unfold in_u, crc_bit. intros Hc.
  assert (0 <= Z.shiftr c 1 < 2 ^ 32).
  { rewrite Z.shiftr_div_pow2 by lia. split; [apply Z.div_pos; lia|]. apply Z.div_lt_upper_bound; lia. }
  case_match; [|done]. by apply lxor_u.
Qed.

Lemma crc_fold_u32 bs c : in_u 32 c -> in_u 32 (fold_left crc_byte bs c).
Proof.
  revert c. induction bs as [|b bs IH]; intros c Hc; [done|]. simpl. apply IH. unfold crc_byte.
  generalize 8%nat. intros n. induction n as [|n IHn]; [|by apply crc_bit_u32].
  apply lxor_u; [done|]. pose proof (byte_Z_bound b). lia.
Qed.

Lemma lxor_cancel a b : Z.lxor (Z.lxor a b) b = a.
Proof. by rewrite Z.lxor_assoc, Z.lxor_nilpotent, Z.lxor_0_r. Qed.

Lemma des_ser_page h r : page_header_ok h -> des_page (ser_page h ++ r) = Some (h, r).
Proof.
  intros (H1 & H2 & H3 & H4 & H5). unfold des_page.
  assert (length (ser_page h) = 24)%nat as El by (unfold ser_page; by rewrite !length_app, !length_le_bytes).
  rewrite decide_True by (rewrite length_app; lia). rewrite drop_app_length' by done.
  rewrite !field_prefix by lia. f_equal. f_equal. destruct h.
  unfold ser_page; cbn [xlp_magic xlp_info xlp_tli xlp_pageaddr xlp_rem_len] in *. f_equal.
  - by apply (field_app _ _ 0 []).
  - by apply field_app; [rewrite length_le_bytes|..].
  - rewrite app_assoc. by apply field_app; [rewrite length_app, !length_le_bytes|..].
  - do 2 rewrite app_assoc. by apply field_app; [rewrite !length_app, !length_le_bytes|..].
  - do 3 rewrite app_assoc. by apply field_app; [rewrite !length_app, !length_le_bytes|..].
Qed.

Lemma des_page_prefix bs r :
  (24 <= length bs)%nat -> exists h, des_page bs = Some (h, drop 24 bs) /\ des_page (bs ++ r) = Some (h, drop 24 bs ++ r).
Proof.
  intros H. unfold des_page. rewrite !decide_True by (rewrite ?length_app; lia). eexists. split; [done|].
  by rewrite !field_prefix, drop_app_le by lia.
Qed.

#[export] Instance c_bindings_laws : XlogBindingsLaws.
Proof.
  split; try done.
  - by intros [].
  - apply des_ser_page.
  - intros bs H. simpl in *. unfold des_page. eexists. intros r. rewrite decide_True by (rewrite length_app; lia).
    by rewrite !field_prefix, drop_app_le by lia.
  - intros h r (H1 & H2 & H3 & H4). change (des_long (ser_long h ++ r) = Some (h, r)). unfold des_long.
    assert (length (ser_page (std h)) = 24)%nat as El by (unfold ser_page; by rewrite !length_app, !length_le_bytes).
    assert (length (ser_long h) = 40)%nat as El' by (unfold ser_long; by rewrite !length_app, !length_le_bytes, El).
    rewrite decide_True by (rewrite length_app; lia). rewrite drop_app_length' by done.
    rewrite !field_prefix by lia.
    replace (ser_long h ++ r) with (ser_page (std h) ++ drop 24 (ser_long h) ++ r)
      by (unfold ser_long; by rewrite drop_app_length', <- app_assoc by done).
    rewrite des_ser_page by done. cbn [mbind option_bind].
    f_equal. f_equal. destruct h. unfold ser_long; cbn [std xlp_sysid xlp_seg_size xlp_xlog_blcksz] in *. f_equal.
    + by apply field_app.
    + rewrite app_assoc. by apply field_app; [rewrite length_app, El, !length_le_bytes|..].
    + do 2 rewrite app_assoc. rewrite <- (app_nil_r (le_bytes 4 xlp_xlog_blcksz0)).
      by apply field_app; [rewrite !length_app, El, !length_le_bytes|..].
  - intros bs H. simpl in *. unfold des_long. eexists. intros r. rewrite decide_True by (rewrite length_app; lia).
    unfold des_page. rewrite decide_True by (rewrite length_app; lia). simpl.
    by rewrite !field_prefix, drop_app_le by lia.
  - intros r (H1 & H2 & H3 & H4 & H5 & H6). change (des_rec (ser_rec r) = Some r). unfold des_rec.
    rewrite decide_True by (unfold ser_rec; by rewrite !length_app, !length_le_bytes).
    f_equal. destruct r. unfold ser_rec; cbn [xl_tot_len xl_xid xl_prev xl_info xl_rmid xl_crc] in *. f_equal.
    + by apply (field_app _ _ 0 []).
    + by apply field_app; [rewrite length_le_bytes|..].
    + rewrite app_assoc. by apply field_app; [rewrite length_app, !length_le_bytes|..].
    + do 2 rewrite app_assoc. by apply field_app; [rewrite !length_app, !length_le_bytes|..].
    + do 3 rewrite app_assoc. by apply field_app; [rewrite !length_app, !length_le_bytes|..].
    + do 5 rewrite app_assoc. rewrite <- (app_nil_r (le_bytes 4 xl_crc0)).
      by apply field_app; [rewrite !length_app, !length_le_bytes|..].
  - intros c bs Hc. simpl. unfold crc32c. apply lxor_u; [|done]. apply crc_fold_u32, lxor_u; [exact Hc|done].
  - intros c bs bs'. simpl. unfold crc32c. by rewrite fold_left_app, lxor_cancel.
Qed.

(** The checksum of the RFC 3720 test vector. *)
Example crc32c_vector : crc32c 0 (str "123456789") = 0xE3069283.
Proof. vm_compute. reflexivity. Qed.
End CLayout.

(** A decoder that has read the first bytes of a page with a bad checksum. *)
Definition demo_decoder : WalStreamDecoder :=
  feed_bytes (CLayout.ser_page {| xlp_magic := 0xD113; xlp_info := 4; xlp_tli := 1; xlp_pageaddr := 8192;
                                  xlp_rem_len := 0 |} ++ le_bytes 4 24 ++ replicate 20 Byte.x00)
    (decoder_new 8192 PG16).

Lemma poll_decode_progress_witness :
  exists d', poll_decode (XB := CLayout.c_bindings) demo_decoder = (Err {| e_msg := CrcMismatch; e_lsn := 8240 |}, d')
    /\ 8192 <= wd_pos d' <= 8240.
Proof.
  pose proof (poll_decode_progress (XB := CLayout.c_bindings) (XBL := CLayout.c_bindings_laws) demo_decoder) as H.
  destruct (poll_decode demo_decoder) as [o d'] eqn:E. exists d'.
  assert (o = Err {| e_msg := CrcMismatch; e_lsn := 8240 |}) as ->
    by (transitivity (poll_decode (XB := CLayout.c_bindings) demo_decoder).1; [by rewrite E|vm_compute; reflexivity]).
  split; [reflexivity|]. apply H; vm_compute; congruence.
Defined.

Lemma chunks_do_not_matter_witness :
  let bytes := wd_inputbuf demo_decoder in
  (drain_chunks (XB := CLayout.c_bindings) [take 30 bytes; drop 30 bytes] (decoder_new 8192 PG16)).1
    = ([], Err {| e_msg := CrcMismatch; e_lsn := 8240 |}).
Proof.
  pose proof (chunks_do_not_matter (XB := CLayout.c_bindings) (XBL := CLayout.c_bindings_laws)
    (take 30 (wd_inputbuf demo_decoder)) [drop 30 (wd_inputbuf demo_decoder)] (decoder_new 8192 PG16)) as H.
  cbv zeta. destruct (drain_chunks _ _) as [[rs o] d1].
  destruct (drain (feed_bytes (concat _) _)) as [[rs' o'] d2] eqn:E. destruct H as (-> & -> & _).
  transitivity (drain (XB := CLayout.c_bindings) (feed_bytes (concat [take 30 (wd_inputbuf demo_decoder);
    drop 30 (wd_inputbuf demo_decoder)]) (decoder_new 8192 PG16))).1; [by rewrite E|]. vm_compute. reflexivity.
Defined.
