(* ===== verification/WalGenerator.v ===== *)
(** * The WAL generator ([libs/postgres_ffi/src/wal_generator.rs])

    WAL made record by record, with page headers and padding, and the proof that
    the decoder of [WalStream.v] reads back what it writes, however the stream is
    cut; the first segment of a timeline ([generate_wal_segment] of
    [xlog_utils.rs]). *)

From S2P Require Import Prelude Lsn XlogUtils TermHistory Membership SkState Safekeeper WalStorage WalStream.

(** ** Records *)

Record WalRecord := { r_rmid : Z; r_info : Z; r_data : list byte }.

(** Block id and length in front of the data. *)
Definition data_header (data : list byte) : list byte :=
  let n := Z.of_nat (length data) in
  if decide (n = 0) then []
  else if decide (n <= 255) then [Z_byte XLR_BLOCK_ID_DATA_SHORT; Z_byte n]
  else Z_byte XLR_BLOCK_ID_DATA_LONG :: le_bytes 4 n.

Section generator.
Context `{XB : XlogBindings}.

Definition record_encode (self : WalRecord) (prev_lsn : Lsn) : list byte :=
  let dh := data_header (r_data self) in
  let header :=
    {| xl_tot_len := wrap 32 (Z.of_nat (XLOG_SIZE_OF_XLOG_RECORD + length dh + length (r_data self)));
       xl_xid := 0; xl_prev := prev_lsn; xl_info := r_info self; xl_rmid := r_rmid self; xl_crc := 0 |} in
  let crc := crc32c_append (crc32c_append (crc32c_append 0 dh) (r_data self))
               (take XLOG_RECORD_CRC_OFFS (ser_record header)) in
  ser_record (set_crc crc header) ++ dh ++ r_data self.

(** ** Pages

    [None] is a panic of [lsn += n] past the end of the address space. *)

Definition GEN_SYS_ID : Z := 0.
Definition GEN_TIMELINE_ID : Z := 1.

Definition gen_page_header (v : PgMajorVersion) (total : nat) (remaining : list byte) (lsn : Lsn) :
    XLogPageHeaderData :=
  let cont := bool_decide (length remaining < total)%nat in
  let info := if cont then Z.lor XLP_BKP_REMOVABLE XLP_FIRST_IS_CONTRECORD else XLP_BKP_REMOVABLE in
  {| xlp_magic := wrap 16 (XLOG_PAGE_MAGIC v);
     xlp_info := if decide (segment_offset lsn WAL_SEGMENT_SIZE = 0) then Z.lor info XLP_LONG_HEADER else info;
     xlp_tli := GEN_TIMELINE_ID; xlp_pageaddr := lsn;
     xlp_rem_len := if cont then wrap 32 (Z.of_nat (length remaining)) else 0 |}.

(** The header bytes at the start of a page, and the position after them. *)
Definition page_header_at (v : PgMajorVersion) (total : nat) (remaining : list byte) (lsn : Lsn) :
    option (list byte * Lsn) :=
  if decide (block_offset lsn = 0) then
    let page_header := gen_page_header v total remaining lsn in
    let bytes :=
      if decide (segment_offset lsn WAL_SEGMENT_SIZE = 0) then
        ser_long_header {| std := page_header; xlp_sysid := GEN_SYS_ID;
                           xlp_seg_size := WAL_SEGMENT_SIZE; xlp_xlog_blcksz := XLOG_BLCKSZ |}
      else ser_page_header page_header in
    lsn' ← lsn_add lsn (Z.of_nat (length bytes)); Some (bytes, lsn')
  else Some ([], lsn).

(** [while !remaining.is_empty()]: an iteration takes at least one byte. *)
Fixpoint insert_loop (v : PgMajorVersion) (fuel total : nat) (remaining : list byte) (lsn : Lsn) :
    option (list byte) :=
  match remaining, fuel with
  | [], _ => Some []
  | _, O => None
  | _, S fuel =>
      '(header, lsn) ← page_header_at v total remaining lsn;
      let page_free := Z.to_nat (remaining_in_block lsn) in
      let chunk := take (Nat.min page_free (length remaining)) remaining in
      lsn ← lsn_add lsn (Z.of_nat (length chunk));
      pages ← insert_loop v fuel total (drop (length chunk) remaining) lsn;
      Some (header ++ chunk ++ pages)
  end.

Definition insert_pages (v : PgMajorVersion) (record : list byte) (lsn : Lsn) : option (list byte) :=
  if decide (Z.of_nat (length record) <= remaining_in_block lsn /\ 0 < block_offset lsn) then Some record
  else insert_loop v (length record) (length record) record lsn.

Definition pad_record (record : list byte) (lsn : Lsn) : option (list byte) :=
  lsn ← lsn_add lsn (Z.of_nat (length record));
  let padding := calc_padding lsn 8 in
  if decide (padding = 0) then Some record else Some (record ++ replicate (Z.to_nat padding) Byte.x00).

(** ** The generator *)

(** [record_generator] is what it will yield. *)
Record WalGenerator := { record_generator : list WalRecord; g_lsn : Lsn; g_prev_lsn : Lsn }.

Definition generator_new (record_generator : list WalRecord) (start_lsn : Lsn) : WalGenerator :=
  {| record_generator := record_generator; g_lsn := start_lsn; g_prev_lsn := start_lsn |}.

Definition append_record (v : PgMajorVersion) (record : WalRecord) (self : WalGenerator) :
    option (Lsn * list byte * WalGenerator) :=
  pages ← insert_pages v (record_encode record (g_prev_lsn self)) (g_lsn self);
  padded ← pad_record pages (g_lsn self);
  lsn ← lsn_add (g_lsn self) (Z.of_nat (length padded));
  Some (g_lsn self, padded,
        {| record_generator := record_generator self; g_lsn := lsn; g_prev_lsn := g_lsn self |}).

(** [Iterator::next]: [None] is the end of the iteration; the inner [None] a panic. *)
Definition generator_next (v : PgMajorVersion) (self : WalGenerator) :
    option (option (Lsn * list byte * WalGenerator)) :=
  match record_generator self with
  | [] => None
  | r :: rs =>
      Some (append_record v r {| record_generator := rs; g_lsn := g_lsn self; g_prev_lsn := g_prev_lsn self |})
  end.

(** The first [n] items of the iteration. *)
Fixpoint generate (v : PgMajorVersion) (n : nat) (self : WalGenerator) :
    option (list (Lsn * list byte) * WalGenerator) :=
  match n with
  | O => Some ([], self)
  | S n =>
      match generator_next v self with
      | None => Some ([], self)
      | Some item => '(lsn, bytes, self) ← item; '(items, self) ← generate v n self; Some ((lsn, bytes) :: items, self)
      end
  end.

(** ** Logical messages *)

Definition RM_LOGICALMSG_ID : Z := 21.
Definition XLOG_LOGICAL_MESSAGE : Z := 0x00.

Record XlLogicalMessage := { lm_db_id : Z; lm_transactional : Z; lm_prefix_size : Z; lm_message_size : Z }.

Definition logical_message_encode (self : XlLogicalMessage) : list byte :=
  le_bytes 4 (lm_db_id self) ++ le_bytes 4 (lm_transactional self) ++ le_bytes 8 (lm_prefix_size self)
  ++ le_bytes 8 (lm_message_size self).

Definition SIZE_OF_XL_LOGICAL_MESSAGE : nat := 24.

(** [prefix] is without its terminating NUL. *)
Definition message_encode (prefix message : list byte) : list byte :=
  let prefix := prefix ++ [Byte.x00] in
  logical_message_encode {| lm_db_id := 0; lm_transactional := 0; lm_prefix_size := Z.of_nat (length prefix);
                            lm_message_size := Z.of_nat (length message) |}
  ++ prefix ++ message.

Definition message_record (prefix message : list byte) : WalRecord :=
  {| r_rmid := RM_LOGICALMSG_ID; r_info := XLOG_LOGICAL_MESSAGE; r_data := message_encode prefix message |}.

(** The subtraction [record_size - xlog_header_size - 2] is on [usize]. *)
Definition make_value_size (record_size : Z) (prefix : list byte) : option Z :=
  let prefix_size := Z.of_nat (length prefix + 1) in
  let rest := wrap 64 (record_size - Z.of_nat XLOG_SIZE_OF_XLOG_RECORD - 2) in
  data_header_size ← (if decide (rest <= 255) then Some 2 else if decide (rest <= 258) then None else Some 5);
  checked_sub record_size
    (Z.of_nat XLOG_SIZE_OF_XLOG_RECORD + Z.of_nat SIZE_OF_XL_LOGICAL_MESSAGE + prefix_size + data_header_size).

Definition append_logical_message (v : PgMajorVersion) (prefix message : list byte) (self : WalGenerator) :
    option (Lsn * list byte * WalGenerator) :=
  append_record v (message_record prefix message) self.

Definition encode_logical_message (prefix message : list byte) : list byte :=
  record_encode (message_record (filter (fun b => b <> Byte.x00) prefix) message) 0.

(** ** The first segment *)

(** [Panic] is a failed assertion; the buffer is overwritten in place. *)
Definition generate_segment (segno system_id : Z) (v : PgMajorVersion) (lsn : Lsn) : outcome anyhow (list byte) :=
  let pageaddr := XLogSegNoOffsetToRecPtr segno 0 WAL_SEGMENT_SIZE in
  let page_off := block_offset lsn in
  let seg_off := segment_offset lsn WAL_SEGMENT_SIZE in
  let first_page_only := bool_decide (seg_off < XLOG_BLCKSZ) in
  '(shdr_rem_len, infoflags) ←
    (if first_page_only && bool_decide (0 < seg_off) then
       if decide (Z.of_nat XLOG_SIZE_OF_XLOG_LONG_PHD <= seg_off)
       then Ok (seg_off - Z.of_nat XLOG_SIZE_OF_XLOG_LONG_PHD, XLP_FIRST_IS_CONTRECORD) else Panic
     else Ok (0, 0));
  let hdr_bytes := ser_long_header
    {| std := {| xlp_magic := wrap 16 (XLOG_PAGE_MAGIC v); xlp_info := Z.lor XLP_LONG_HEADER infoflags;
                 xlp_tli := PG_TLI; xlp_pageaddr := pageaddr; xlp_rem_len := wrap 32 shdr_rem_len |};
       xlp_sysid := system_id; xlp_seg_size := WAL_SEGMENT_SIZE; xlp_xlog_blcksz := XLOG_BLCKSZ |} in
  let seg_buf := take (Z.to_nat WAL_SEGMENT_SIZE) hdr_bytes
                 ++ replicate (Z.to_nat WAL_SEGMENT_SIZE - length hdr_bytes) Byte.x00 in
  if first_page_only then Ok seg_buf else
  let block := Z.to_nat (page_offset_in_segment lsn WAL_SEGMENT_SIZE) in
  '(rem_len, info) ←
    (if decide (0 < page_off) then
       if decide (Z.of_nat XLOG_SIZE_OF_XLOG_SHORT_PHD <= page_off)
       then Ok (wrap 32 (page_off - Z.of_nat XLOG_SIZE_OF_XLOG_SHORT_PHD), XLP_FIRST_IS_CONTRECORD) else Panic
     else Ok (0, 0));
  let header := ser_page_header
    {| xlp_magic := wrap 16 (XLOG_PAGE_MAGIC v); xlp_info := info; xlp_tli := PG_TLI;
       xlp_pageaddr := page_lsn lsn; xlp_rem_len := rem_len |} in
  if decide (block + length header <= length seg_buf)%nat
  then Ok (take block seg_buf ++ header ++ drop (block + length header) seg_buf)
  else Panic.

#[global] Instance segment_generator : SegmentGenerator := {| generate_wal_segment := generate_segment |}.
End generator.

(** ** A record reads back *)

Section round_trip.
Context `{XB : XlogBindings} {XBL : XlogBindingsLaws}.
Implicit Types (r : WalRecord) (v : PgMajorVersion).

Record record_valid r : Prop := {
  rv_rmid : in_u 8 (r_rmid r);
  rv_info : in_u 8 (r_info r);
  rv_size : in_u 32 (Z.of_nat (XLOG_SIZE_OF_XLOG_RECORD + length (data_header (r_data r)) + length (r_data r)));
  (** A switch record is followed by the next segment, which the generator does
      not do. *)
  rv_no_switch : ~ (r_info r = XLOG_SWITCH /\ r_rmid r = RM_XLOG_ID)
}.

Lemma length_record_encode r prev :
  length (record_encode r prev) = (XLOG_SIZE_OF_XLOG_RECORD + length (data_header (r_data r)) + length (r_data r))%nat.
Proof. unfold record_encode. rewrite !length_app, length_ser_record. lia. Qed.

Lemma record_encode_tot_len r prev :
  record_valid r -> le_Z (take 4 (record_encode r prev)) = Z.of_nat (length (record_encode r prev)).
Proof.
  intros Hr. rewrite length_record_encode. unfold record_encode.
  rewrite take_app_le by (rewrite length_ser_record, record_size; lia).
  rewrite ser_record_tot_len; simpl; rewrite wrap_small by apply Hr; [|apply Hr].
  apply (le_Z_le_bytes_small 4). apply Hr.
Qed.

Lemma slice_all (a b : list byte) : slice 0 (length a) (a ++ b) = Some a.
Proof. unfold slice. rewrite decide_True by (rewrite length_app; lia). by rewrite Nat.sub_0_r, drop_0, take_app_length. Qed.

Lemma slice_rest (a b : list byte) k : length a = k -> slice k (length (a ++ b)) (a ++ b) = Some b.
Proof.
  intros <-. unfold slice. rewrite decide_True by (rewrite length_app; lia).
  rewrite drop_app_length, take_ge; [done|]. rewrite length_app. lia.
Qed.

Lemma slice_front (a b : list byte) k : (k <= length a)%nat -> slice 0 k (a ++ b) = Some (take k a).
Proof.
  intros H. unfold slice. rewrite decide_True by (rewrite length_app; lia).
  by rewrite Nat.sub_0_r, drop_0, take_app_le by lia.
Qed.

Lemma completion_encoded r prev lsn :
  record_valid r -> in_u 64 prev -> completion (record_encode r prev) lsn = Ok (align lsn, record_encode r prev).
Proof.
  intros Hr Hprev. unfold completion, complete_record, record_encode. set (dh := data_header (r_data r)).
  set (h := Build_XLogRecord _ _ _ _ _ 0). set (crc := crc32c_append _ (take _ _)).
  assert (length (ser_record (set_crc crc h)) = 24)%nat as El by (by rewrite length_ser_record, record_size).
  unfold mbind, M_bind. rewrite <- (length_ser_record (set_crc crc h)) at 1. rewrite slice_all. simpl.
  rewrite des_ser_record.
  2: { split_and!; simpl; try apply Hr; try done; [apply wrap_in_u; lia|].
       apply crc32c_u32, crc32c_u32, crc32c_u32. done. }
  rewrite slice_rest by done. simpl. rewrite slice_front by (rewrite El; unfold XLOG_RECORD_CRC_OFFS; lia). simpl.
  rewrite ser_record_crc_last, crc32c_app. rewrite decide_False by (intros Hne; by apply Hne).
  unfold gets, is_xlog_switch_record. simpl. pose proof (rv_no_switch r Hr).
  repeat case_bool_decide; simpl; try done. tauto.
Qed.

(** ** Pages read back *)

Lemma lsn_add_Some a b c : lsn_add a b = Some c -> c = a + b /\ a + b <= u64_max.
Proof. unfold lsn_add. case_decide; intros; by simplify_eq. Qed.

(** The decoder's state fits the page header about to be written. *)
Definition header_fits (st : State) (total : nat) (remaining : list byte) : Prop :=
  match st with
  | WaitingForRecord => length remaining = total
  | ReassemblingRecord _ p => Zpos p = Z.of_nat (length remaining) /\ (length remaining < total)%nat
  | SkippingEverything _ => False
  end.

Lemma gen_page_header_ok v total remaining lsn :
  in_u 64 lsn -> page_header_ok (gen_page_header v total remaining lsn).
Proof.
  intros Hl. unfold gen_page_header. split_and!; simpl; [apply wrap_in_u; lia|..|done|done|].
  - by case_bool_decide; case_decide.
  - case_bool_decide; [apply wrap_in_u; lia|done].
Qed.

Lemma validate_generated v total remaining d :
  wd_pg_version d = v -> Z.of_nat total < 2 ^ 32 -> header_fits (wd_state d) total remaining ->
  validate_page_header (gen_page_header v total remaining (wd_lsn d)) d = (Ok tt, d).
Proof.
  intros <- Htot Hfit. unfold validate_page_header, mbind, M_bind, get, gen_page_header. simpl.
  rewrite !decide_False by (intros Hne; by apply Hne).
  destruct (wd_state d) as [|rb p|]; [| |done]; simpl in Hfit.
  - rewrite (bool_decide_eq_false_2 (_ < _)%nat) by lia. by destruct (decide (segment_offset _ _ = 0)).
  - destruct Hfit as [Hp Hlt]. rewrite (bool_decide_eq_true_2 (_ < _)%nat) by lia.
    rewrite wrap_small by (unfold in_u; lia). rewrite (decide_False (P := Z.of_nat _ <> _)) by lia.
    by destruct (decide (segment_offset _ _ = 0)).
Qed.

Lemma header_generated v total remaining lsn hdr lsn' st tail :
  page_header_at v total remaining lsn = Some (hdr, lsn') -> 0 <= lsn ->
  Z.of_nat total < 2 ^ 32 -> (block_offset lsn = 0 -> header_fits st total remaining) ->
  (forall l, st <> SkippingEverything l) ->
  read_page_header {| wd_lsn := lsn; wd_pg_version := v; wd_inputbuf := hdr ++ tail; wd_state := st |}
    = (Ok true, {| wd_lsn := lsn'; wd_pg_version := v; wd_inputbuf := tail; wd_state := st |})
  /\ lsn' = lsn + Z.of_nat (length hdr) /\ block_offset lsn' <> 0 /\ lsn' mod 8 = lsn mod 8.
Proof.
  unfold page_header_at. case_decide as Hb.
  2: { intros [= <- <-] _ _ _ _. split_and!; [|simpl; lia|done|done].
       apply header_none. unfold page_start. simpl.
       rewrite (decide_False (P := segment_offset _ _ = 0)) by (by intros ?%page_block).
       rewrite decide_False by done. by destruct st. }
  intros H Hl Htot Hfit Hst. specialize (Hfit Hb).
  set (d := {| wd_lsn := lsn; wd_pg_version := v; wd_inputbuf := tail; wd_state := st |}).
  pose proof (validate_generated v total remaining d eq_refl Htot Hfit) as Hval.
  change (wd_lsn d) with lsn in Hval.
  destruct (lsn_add lsn _) as [l|] eqn:El; [|done]. cbn [mbind option_bind] in H.
  assert (hdr = if decide (segment_offset lsn WAL_SEGMENT_SIZE = 0) then
        ser_long_header {| std := gen_page_header v total remaining lsn; xlp_sysid := GEN_SYS_ID;
                           xlp_seg_size := WAL_SEGMENT_SIZE; xlp_xlog_blcksz := XLOG_BLCKSZ |}
      else ser_page_header (gen_page_header v total remaining lsn)) as Eh by congruence.
  assert (lsn' = l) as -> by congruence. rewrite <- Eh in El. clear H.
  pose proof (lsn_add_Some _ _ _ El) as [El' Hmax].
  assert (in_u 64 lsn) as Hu by (unfold in_u, u64_max in *; lia).
  pose proof (gen_page_header_ok v total remaining lsn Hu) as Hok.
  assert ((length hdr = 24 \/ length hdr = 40)%nat) as Hlen.
  { rewrite Eh. case_decide; [rewrite length_ser_long_header, long_phd_size|rewrite length_ser_page_header, short_phd_size]; tauto. }
  split_and!; [|done|..].
  - unfold read_page_header, mbind, M_bind, get, buffered. simpl.
    assert (forall n, length hdr = n -> ~ Z.of_nat (length (hdr ++ tail)) < Z.of_nat n) as Hnl
      by (intros n <-; rewrite length_app; lia).
    destruct (decide (segment_offset lsn WAL_SEGMENT_SIZE = 0)) as [Hs|Hs].
    + rewrite (decide_False (P := _ < Z.of_nat XLOG_SIZE_OF_XLOG_LONG_PHD))
        by (apply Hnl; by rewrite Eh, length_ser_long_header).
      rewrite Eh, des_ser_long_header by (split_and!; try done; by vm_compute).
      rewrite Eh, length_ser_long_header in El.
      destruct st; [| |by edestruct Hst]; unfold modify; simpl; change (set_inputbuf tail _) with d;
        rewrite Hval; unfold advance_lsn; change (wd_lsn d) with lsn; by rewrite El.
    + rewrite (decide_True (P := block_offset lsn = 0)) by done.
      rewrite (decide_False (P := _ < Z.of_nat XLOG_SIZE_OF_XLOG_SHORT_PHD))
        by (apply Hnl; by rewrite Eh, length_ser_page_header).
      rewrite Eh, des_ser_page_header by done.
      rewrite Eh, length_ser_page_header in El.
      destruct st; [| |by edestruct Hst]; unfold modify; simpl; change (set_inputbuf tail _) with d;
        rewrite Hval; unfold advance_lsn; change (wd_lsn d) with lsn; by rewrite El.
  - subst l. unfold block_offset, XLOG_BLCKSZ in *. rewrite Z.add_mod, Hb, Z.add_0_l, Z.mod_mod by lia.
    destruct Hlen as [->| ->]; by vm_compute.
  - subst l. destruct Hlen as [->| ->]; rewrite Z.add_mod by lia; simpl; rewrite Z.add_0_r; apply Z.mod_mod; lia.
Qed.

Abbreviation mk l v inp st := {| wd_lsn := l; wd_pg_version := v; wd_inputbuf := inp; wd_state := st |}.

(** What of [remaining] goes on the page of [lsn]. *)
Definition on_page (lsn : Lsn) (remaining : list byte) : nat :=
  Nat.min (Z.to_nat (remaining_in_block lsn)) (length remaining).

Lemma contents_reassemble lsn v buf p remaining tail :
  Zpos p = Z.of_nat (length remaining) -> lsn + Z.of_nat (on_page lsn remaining) <= u64_max ->
  let k := on_page lsn remaining in
  read_contents (mk lsn v (take k remaining ++ tail) (ReassemblingRecord buf p)) =
    if decide (k = length remaining) then
      match completion (buf ++ remaining) (lsn + Z.of_nat k) with
      | Ok r => (Ok (Some (Some r)), mk (lsn + Z.of_nat k) v tail (SkippingEverything r.1))
      | Err e => (Err e, mk (lsn + Z.of_nat k) v tail (ReassemblingRecord [] p))
      | Panic => (Panic, mk (lsn + Z.of_nat k) v tail (ReassemblingRecord [] p))
      end
    else (Ok None, mk (lsn + Z.of_nat k) v tail
            (ReassemblingRecord (buf ++ take k remaining) (Z.to_pos (Z.of_nat (length remaining - k))))).
Proof.
  intros Hp Hmax k. pose proof (remaining_in_block_pos lsn).
  assert (Z.min (Zpos p) (remaining_in_block lsn) = Z.of_nat k) as Ek by (unfold k, on_page; lia).
  assert (length (take k remaining) = k) as El by (rewrite length_take; unfold k, on_page; lia).
  unfold read_contents, mbind, M_bind, get, buffered. simpl. rewrite Ek.
  rewrite decide_False by (rewrite length_app; lia). unfold split_to. simpl.
  rewrite decide_True by (rewrite length_app; lia). rewrite Nat2Z.id.
  rewrite take_app_length', drop_app_length' by done. unfold modify, advance_lsn, lsn_add. simpl.
  rewrite decide_True by done. case_decide as Hk.
  - rewrite Hp, Hk, Z.sub_diag. rewrite take_ge by lia. rewrite complete_record_at. simpl.
    by destruct (completion _ _) as [[]|e|].
  - assert (k <= length remaining)%nat by (unfold k, on_page; lia).
    destruct (Z.pos p - Z.of_nat k) as [|q|q] eqn:Eq; [lia| |lia]. do 3 f_equal.
    replace (Z.of_nat (length remaining - k)) with (Z.pos q) by lia. done.
Qed.

Lemma insert_loop_step v fuel total remaining lsn w :
  insert_loop v fuel total remaining lsn = Some w -> remaining <> [] ->
  exists fuel' hdr lsn' pages, fuel = S fuel'
    /\ page_header_at v total remaining lsn = Some (hdr, lsn')
    /\ lsn' + Z.of_nat (on_page lsn' remaining) <= u64_max
    /\ insert_loop v fuel' total (drop (on_page lsn' remaining) remaining)
         (lsn' + Z.of_nat (on_page lsn' remaining)) = Some pages
    /\ w = hdr ++ take (on_page lsn' remaining) remaining ++ pages.
Proof.
  intros H Hne. destruct remaining as [|b rem]; [done|]. destruct fuel as [|fuel]; [done|].
  set (remaining := b :: rem) in *. cbn [insert_loop] in H. fold remaining in H.
  destruct (page_header_at _ _ _ _) as [[hdr lsn']|] eqn:Eh; [|done]. cbn [mbind option_bind] in H.
  fold (on_page lsn' remaining) in H.
  assert (length (take (on_page lsn' remaining) remaining) = on_page lsn' remaining) as El
    by (rewrite length_take; unfold on_page; lia).
  rewrite El in H. destruct (lsn_add _ _) as [l|] eqn:Ea; [|done]. apply lsn_add_Some in Ea as [-> Hmax].
  cbn [mbind option_bind] in H. destruct (insert_loop _ _ _ _ _) as [pages|] eqn:Ei; [|done].
  exists fuel, hdr, lsn', pages. split_and!; try done. by injection H.
Qed.

Lemma insert_loop_nil v fuel total lsn : insert_loop v fuel total [] lsn = Some [].
Proof. by destruct fuel. Qed.

Lemma page_end lsn : block_offset (lsn + remaining_in_block lsn) = 0.
Proof.
  unfold block_offset, remaining_in_block, XLOG_BLCKSZ.
  replace (lsn + (8192 - lsn mod 8192)) with (lsn - lsn mod 8192 + 1 * 8192) by lia.
  rewrite Z.mod_add by lia. rewrite Zminus_mod_idemp_r, Z.sub_diag. done.
Qed.

(** The rest of a record, from the point where the page header was read. *)
Lemma reassemble fuel d lsn v buf p remaining total pages rest l rb :
  read_page_header d
    = (Ok true, mk lsn v (take (on_page lsn remaining) remaining ++ pages ++ rest) (ReassemblingRecord buf p)) ->
  0 <= lsn -> Zpos p = Z.of_nat (length remaining) -> Z.of_nat total < 2 ^ 32 ->
  (length remaining <= total)%nat ->
  lsn + Z.of_nat (on_page lsn remaining) <= u64_max ->
  insert_loop v fuel total (drop (on_page lsn remaining) remaining) (lsn + Z.of_nat (on_page lsn remaining))
    = Some pages ->
  completion (buf ++ remaining) (lsn + Z.of_nat (on_page lsn remaining) + Z.of_nat (length pages)) = Ok (l, rb) ->
  poll_decode d
    = (Ok (Some (l, rb)),
       mk (lsn + Z.of_nat (on_page lsn remaining) + Z.of_nat (length pages)) v rest (SkippingEverything l)).
Proof.
  revert d lsn buf p remaining pages. induction fuel as [fuel IH] using lt_wf_ind.
  intros d lsn buf p remaining pages Hd Hl Hp Htot Hle Hmax Hins Hc. pose proof (remaining_in_block_pos lsn).
  rewrite poll_unfold. unfold poll_step, mbind at 1, M_bind at 1. rewrite Hd. cbn iota beta.
  rewrite contents_reassemble by done.
  set (k := on_page lsn remaining) in *. case_decide as Hk.
  - rewrite drop_ge, insert_loop_nil in Hins by lia. injection Hins as <-. simpl in *. rewrite Z.add_0_r in *.
    by rewrite Hc.
  - assert (k < length remaining)%nat as Hlt by (unfold k, on_page in *; lia).
    assert (Z.of_nat k = remaining_in_block lsn) as Ek by (unfold k, on_page in *; lia).
    assert (drop k remaining <> []) as Hne by (intros E%(f_equal length); rewrite length_drop in E; simpl in E; lia).
    destruct (insert_loop_step _ _ _ _ _ _ Hins Hne) as (fuel' & hdr & lsn' & pages' & -> & Hh & Hmax' & Hins' & ->).
    destruct (header_generated v total (drop k remaining) _ hdr lsn'
      (ReassemblingRecord (buf ++ take k remaining) (Z.to_pos (Z.of_nat (length remaining - k))))
      (take (on_page lsn' (drop k remaining)) (drop k remaining) ++ pages' ++ rest) Hh) as (Hr & El & _ & _);
      [lia|done| |done|].
    { intros _. simpl. rewrite length_drop. lia. }
    assert (lsn' + Z.of_nat (on_page lsn' (drop k remaining)) + Z.of_nat (length pages')
      = lsn + Z.of_nat k + Z.of_nat (length (hdr ++ take (on_page lsn' (drop k remaining)) (drop k remaining) ++ pages'))) as El2.
    { rewrite !length_app, length_take, El. unfold on_page. lia. }
    rewrite <- El2 in Hc |- *. rewrite <- !app_assoc.
    apply (IH fuel' ltac:(lia) _ lsn' (buf ++ take k remaining)
      (Z.to_pos (Z.of_nat (length remaining - k))) (drop k remaining)); try done; rewrite ?length_drop; try lia.
    by rewrite <- app_assoc, take_drop.
Qed.

Lemma aligned_page_room lsn : lsn mod 8 = 0 -> 8 <= remaining_in_block lsn.
Proof.
  intros H. unfold remaining_in_block, XLOG_BLCKSZ.
  pose proof (Z.mod_mod_divide lsn 8192 8 ltac:(by exists 1024)) as E. rewrite H in E.
  pose proof (Z.mod_pos_bound lsn 8192). pose proof (Z.div_mod (lsn mod 8192) 8). lia.
Qed.

Lemma record_decodes v fuel rec lsn w rest l rb :
  insert_loop v fuel (length rec) rec lsn = Some w -> (24 <= length rec)%nat ->
  Z.of_nat (length rec) < 2 ^ 32 -> le_Z (take 4 rec) = Z.of_nat (length rec) ->
  0 <= lsn -> lsn mod 8 = 0 -> completion rec (lsn + Z.of_nat (length w)) = Ok (l, rb) ->
  poll_decode (mk lsn v (w ++ rest) WaitingForRecord)
    = (Ok (Some (l, rb)), mk (lsn + Z.of_nat (length w)) v rest (SkippingEverything l)).
Proof.
  intros Hins Hmin Hmax Htot Hl Hal Hc.
  destruct (insert_loop_step _ _ _ _ _ _ Hins) as (fuel' & hdr & lsn' & pages & -> & Hh & Hmax' & Hins' & ->).
  { intros ->. simpl in Hmin. lia. }
  destruct (header_generated v (length rec) rec lsn hdr lsn' WaitingForRecord
    (take (on_page lsn' rec) rec ++ pages ++ rest) Hh) as (Hr & El & Hbo & Hal'); [done..|].
  pose proof (aligned_page_room lsn' ltac:(congruence)) as Hroom. set (k := on_page lsn' rec) in *.
  assert (8 <= k <= length rec)%nat as Hk by (unfold k, on_page; lia).
  assert (length (take k rec) = k) as Ek by (rewrite length_take; lia).
  assert (lsn + Z.of_nat (length (hdr ++ take k rec ++ pages)) = lsn' + Z.of_nat k + Z.of_nat (length pages)) as Ew
    by (rewrite !length_app, Ek, El; lia).
  rewrite Ew in Hc |- *. rewrite <- !app_assoc.
  rewrite poll_unfold. unfold poll_step, mbind at 1, M_bind at 1. rewrite Hr. cbn iota beta.
  assert (take 4 (take k rec ++ pages ++ rest) = take 4 rec) as E4.
  { rewrite take_app_le by lia. rewrite take_take. f_equal. lia. }
  unfold read_contents, mbind, M_bind, get, buffered. cbn [wd_state wd_inputbuf wd_lsn]. cbv beta iota.
  rewrite (decide_False (P := _ < 4)) by (rewrite length_app; lia). rewrite E4, Htot. pose proof record_size.
  rewrite (decide_False (P := _ < Z.of_nat XLOG_SIZE_OF_XLOG_RECORD)) by lia. case_decide as Hf.
  - assert (k = length rec) as E by (unfold k, on_page; lia). rewrite drop_ge, insert_loop_nil in Hins' by lia.
    injection Hins' as <-. rewrite Z.add_0_r in Hc |- *. unfold mbind, M_bind, advance_lsn, lsn_add. simpl.
    rewrite decide_True by lia. unfold split_to. simpl. rewrite decide_True by (rewrite length_app; lia).
    rewrite Nat2Z.id, take_app_length', drop_app_length', take_ge by lia.
    rewrite complete_record_at. simpl. rewrite <- E, Hc. done.
  - assert (remaining_in_block lsn' < Z.of_nat (length rec)) as Hlt.
    { destruct (Z.lt_ge_cases (remaining_in_block lsn') (Z.of_nat (length rec))); [done|].
      exfalso. apply Hf. assert (k = length rec) by (unfold k, on_page; lia). rewrite length_app. lia. }
    destruct (Z.of_nat (length rec)) as [|p|p] eqn:Ep; [lia| |lia].
    unfold mbind, M_bind, modify. simpl. apply (reassemble fuel' _ lsn' v [] p rec (length rec)); try done; try lia.
    apply header_none. unfold page_start. simpl.
    rewrite (decide_False (P := segment_offset _ _ = 0)) by (by intros ?%page_block). by rewrite decide_False.
Qed.

(** Padding is skipped on the next poll. *)
Lemma poll_skips lsn v pad rest l :
  l = lsn + Z.of_nat (length pad) -> l <= u64_max ->
  poll_decode (mk lsn v (pad ++ rest) (SkippingEverything l)) = poll_decode (mk l v rest WaitingForRecord).
Proof.
  intros -> Hmax. rewrite poll_unfold. unfold poll_step, mbind at 1, M_bind at 1. rewrite header_none by done.
  unfold read_contents, mbind, M_bind, get, assert. simpl.
  rewrite bool_decide_eq_true_2 by lia. simpl. unfold buffered. simpl. rewrite decide_False by (rewrite length_app; lia).
  unfold split_to. simpl. rewrite decide_True by (rewrite length_app; lia).
  unfold advance_lsn, lsn_add, modify. simpl. replace (lsn + (_ - lsn)) with (lsn + Z.of_nat (length pad)) by lia.
  rewrite decide_True by done. replace (Z.to_nat _) with (length pad) by lia. rewrite drop_app_length. done.
Qed.

Lemma insert_pages_loop v rec lsn w :
  insert_pages v rec lsn = Some w -> rec <> [] -> lsn + Z.of_nat (length w) <= u64_max ->
  insert_loop v (length rec) (length rec) rec lsn = Some w.
Proof.
  unfold insert_pages. case_decide as H; [|done]. intros [= <-] Hne Hmax. destruct rec as [|b rec]; [done|].
  cbn [insert_loop length] in *. unfold page_header_at. rewrite decide_False by lia. cbn [mbind option_bind].
  rewrite Nat.min_r by lia. rewrite take_ge by done. unfold lsn_add. rewrite decide_True by done. cbn [mbind option_bind].
  rewrite drop_ge, insert_loop_nil by done. cbn [mbind option_bind]. by rewrite app_nil_r.
Qed.

(** One appended record, in front of anything. *)
Lemma append_decodes v r g lsn bytes g' rest :
  append_record v r g = Some (lsn, bytes, g') -> record_valid r -> in_u 64 (g_prev_lsn g) ->
  0 <= g_lsn g -> g_lsn g mod 8 = 0 -> g_lsn g' <= LSN_MAX - 7 ->
  exists d, poll_decode (mk (g_lsn g) v (bytes ++ rest) WaitingForRecord)
      = (Ok (Some (g_lsn g', record_encode r (g_prev_lsn g))), d)
    /\ poll_decode d = poll_decode (mk (g_lsn g') v rest WaitingForRecord)
    /\ lsn = g_lsn g /\ g_lsn g' = lsn + Z.of_nat (length bytes) /\ g_lsn g' mod 8 = 0 /\ g_prev_lsn g' = lsn
    /\ record_generator g' = record_generator g.
Proof.
  intros H Hr Hprev Hl Hal Hmax. unfold append_record in H. set (rec := record_encode r (g_prev_lsn g)) in *.
  destruct (insert_pages v rec (g_lsn g)) as [w|] eqn:Ei; [|done]. cbn [mbind option_bind] in H.
  unfold pad_record in H. destruct (lsn_add _ (Z.of_nat (length w))) as [e|] eqn:Ee; [|done].
  apply lsn_add_Some in Ee as [-> Hmax1]. cbn [mbind option_bind] in H.
  remember (g_lsn g + Z.of_nat (length w)) as e eqn:Heqe.
  pose proof (align_round e) as Halign. unfold LSN_MAX in Hmax.
  assert (exists pad, bytes = w ++ pad /\ Z.of_nat (length pad) = calc_padding e 8 /\ lsn = g_lsn g
    /\ g' = {| record_generator := record_generator g; g_lsn := e + Z.of_nat (length pad); g_prev_lsn := g_lsn g |})
    as (pad & -> & Hpad & -> & ->).
  { assert (0 <= calc_padding e 8) by (unfold calc_padding; apply Z.mod_pos_bound; lia).
    case_decide as Hp; cbn [mbind option_bind] in H; destruct (lsn_add _ _) as [l|] eqn:Ea; try done;
      apply lsn_add_Some in Ea as [-> _]; cbn [mbind option_bind] in H; injection H as <- <- <-.
    - exists []. rewrite app_nil_r, Hp. simpl. split_and!; try done. f_equal. lia.
    - eexists. split; [done|]. rewrite length_replicate, Z2Nat.id by done. split_and!; try done. f_equal.
      rewrite length_app, length_replicate. lia. }
  simpl in *. assert (e <= u64_max - 7) as Hmaxe by lia.
  assert (calc_padding e 8 = (- e) mod 8) as Hcp.
  { unfold calc_padding, wrap. rewrite Z.mod_mod_divide by (by exists (2 ^ 61)).
    replace (8 - e) with (- e + 1 * 8) by lia. apply Z.mod_add. lia. }
  rewrite Hcp in Hpad.
  assert (length rec = XLOG_SIZE_OF_XLOG_RECORD + length (data_header (r_data r)) + length (r_data r))%nat as Elen
    by apply length_record_encode.
  pose proof (rv_size r Hr) as Hsz. rewrite <- Elen in Hsz. unfold in_u in Hsz.
  eexists. split_and!; [..|done|rewrite length_app; lia| |done|done].
  - rewrite <- app_assoc. apply (record_decodes v (length rec) rec (g_lsn g) w (pad ++ rest)); try done.
    + apply insert_pages_loop; [done| |by rewrite <- Heqe]. intros E. apply (f_equal length) in E. rewrite Elen, record_size in E. done.
    + rewrite Elen, record_size. lia.
    + lia.
    + by apply record_encode_tot_len.
    + rewrite <- Heqe. unfold rec at 1. rewrite completion_encoded by done. f_equal. f_equal. rewrite Halign by lia. lia.
  - apply poll_skips; lia.
  - rewrite Hpad, <- Z.add_mod_idemp_r by lia. rewrite Z.mod_mod by lia. rewrite Z.add_mod_idemp_r by lia.
    by rewrite Z.add_opp_diag_r.
Qed.

(** ** The stream reads back *)

(** The records with the positions at which their bytes end. *)
Fixpoint written (rs : list WalRecord) (items : list (Lsn * list byte)) (prev : Lsn) : list (Lsn * list byte) :=
  match rs, items with
  | r :: rs, (lsn, bytes) :: items =>
      (lsn + Z.of_nat (length bytes), record_encode r prev) :: written rs items lsn
  | _, _ => []
  end.

Lemma poll_empty lsn v :
  poll_decode (mk lsn v [] WaitingForRecord) = (Ok None, mk lsn v [] WaitingForRecord).
Proof.
  rewrite poll_unfold. unfold poll_step, mbind, M_bind.
  destruct (header_cases (mk lsn v [] WaitingForRecord)) as [([] & -> & _)|(n & En & Hn)]; [done..|].
  unfold page_start in En. pose proof short_phd_size. pose proof long_phd_size. simpl in *.
  repeat case_decide; simplify_eq; lia.
Qed.

Lemma generate_lsn_mono v n g items g' : generate v n g = Some (items, g') -> g_lsn g <= g_lsn g'.
Proof.
  revert g items. induction n as [|n IH]; intros g items; simpl; [intros [= <- <-]; lia|].
  unfold generator_next. destruct (record_generator g) as [|r rs]; [intros [= <- <-]; lia|].
  destruct (append_record _ _ _) as [[[lsn bytes] g1]|] eqn:Ea; [|done]. cbn [mbind option_bind].
  destruct (generate v n g1) as [[items1 g2]|] eqn:Eg; [|done]. intros [= <- <-]. apply IH in Eg.
  unfold append_record in Ea. destruct (insert_pages _ _ _); [|done]. cbn [mbind option_bind] in Ea.
  destruct (pad_record _ _); [|done]. cbn [mbind option_bind] in Ea.
  destruct (lsn_add _ _) eqn:El; [|done]. apply lsn_add_Some in El as [-> _].
  cbn [mbind option_bind] in Ea. injection Ea as <- <- <-. simpl in *. lia.
Qed.

Lemma drain_generated v n g items g' :
  generate v n g = Some (items, g') -> Forall record_valid (record_generator g) -> in_u 64 (g_prev_lsn g) ->
  0 <= g_lsn g -> g_lsn g mod 8 = 0 -> g_lsn g' <= LSN_MAX - 7 ->
  drain (mk (g_lsn g) v (concat (map snd items)) WaitingForRecord)
    = (written (record_generator g) items (g_prev_lsn g), Ok tt, mk (g_lsn g') v [] WaitingForRecord).
Proof.
  revert g items. induction n as [|n IH]; intros g items H Hv Hprev Hl Hal Hmax.
  { injection H as <- <-. simpl. rewrite drain_unfold, poll_empty. by destruct (record_generator g). }
  cbn [generate] in H. unfold generator_next in H. destruct (record_generator g) as [|r rs] eqn:Er.
  { injection H as <- <-. simpl. by rewrite drain_unfold, poll_empty. }
  apply Forall_cons in Hv as [Hr Hrs].
  destruct (append_record _ _ _) as [[[lsn bytes] g1]|] eqn:Ea; [|done]. cbn [mbind option_bind] in H.
  destruct (generate v n g1) as [[items1 g2]|] eqn:Eg; [|done]. injection H as <- <-.
  pose proof (generate_lsn_mono _ _ _ _ _ Eg).
  destruct (append_decodes _ _ _ _ _ _ (concat (map snd items1)) Ea) as (d & Hp & Hd & -> & El & Hal' & Ep & Eg1);
    simpl; try done; try lia. simpl in *.
  rewrite drain_unfold, Hp. rewrite drain_unfold, Hd, <- drain_unfold.
  rewrite IH; [|done|by rewrite Eg1|rewrite Ep; unfold in_u, LSN_MAX, u64_max in *; lia|lia|done|done].
  by rewrite Eg1, Ep, El.
Qed.

(** C30: what the generator writes, the decoder reads back: cut into chunks in any
    way, the stream of the first [n] records gives exactly these records, each with
    the position where the next one starts, and leaves the decoder waiting there. *)
Theorem wal_round_trip v n g items g' c cs :
  generate v n g = Some (items, g') -> concat (c :: cs) = concat (map snd items) ->
  Forall record_valid (record_generator g) -> in_u 64 (g_prev_lsn g) ->
  0 <= g_lsn g -> g_lsn g mod 8 = 0 -> g_lsn g' <= LSN_MAX - 7 ->
  drain_chunks (c :: cs) (decoder_new (g_lsn g) v)
    = (written (record_generator g) items (g_prev_lsn g), Ok tt, decoder_new (g_lsn g') v).
Proof.
  intros Hg Hc Hv Hprev Hl Hal Hmax. pose proof (drain_chunks_whole c cs (decoder_new (g_lsn g) v)) as [H1 H2].
  rewrite Hc in *. destruct (drain_chunks (c :: cs) _) as [[rs o] d1].
  unfold feed_bytes, set_inputbuf in *. simpl in *.
  rewrite (drain_generated v n g items g') in * by done. simpl in *. by simplify_eq.
Qed.
End round_trip.

(** ** Sizes of logical messages *)

Section sizes.
Context `{XB : XlogBindings} {XBL : XlogBindingsLaws}.

(** A message of the size that [make_value_size] computes gives a record of
    exactly the size asked for. *)
Theorem make_value_size_exact size prefix message n :
  0 <= size < 2 ^ 64 -> make_value_size size prefix = Some n -> Z.of_nat (length message) = n ->
  Z.of_nat (length (record_encode (message_record prefix message) 0)) = size.
Proof.
  intros Hs H <-. rewrite length_record_encode. unfold make_value_size in H. rewrite record_size in *.
  cbn [message_record r_data].
  assert (length (message_encode prefix message) = 24 + (length prefix + 1) + length message)%nat as El.
  { unfold message_encode, logical_message_encode. rewrite !length_app, !length_le_bytes. simpl. lia. }
  unfold data_header, SIZE_OF_XL_LOGICAL_MESSAGE, wrap in *. rewrite El.
  case_decide as H1; cbn [mbind option_bind] in H; [|case_decide as H2; [done|]; cbn [mbind option_bind] in H];
    unfold checked_sub in H; case_decide as H3; simplify_eq;
    rewrite Z.mod_small in * by lia; repeat case_decide; cbn [length]; rewrite ?length_le_bytes; lia.
Qed.
End sizes.

(** ** The first segment *)

Section segment.
Context `{XB : XlogBindings} {XBL : XlogBindingsLaws}.
Implicit Types (lsn : Lsn).

(** A record can start at [lsn]: not inside a page header. *)
Definition record_start lsn : Prop :=
  block_offset lsn = 0
  \/ (if decide (segment_offset lsn WAL_SEGMENT_SIZE < XLOG_BLCKSZ)
      then Z.of_nat XLOG_SIZE_OF_XLOG_LONG_PHD else Z.of_nat XLOG_SIZE_OF_XLOG_SHORT_PHD) <= block_offset lsn.

(** The first page says that a record continues up to [lsn], if it is there. *)
Definition first_header_ok (sysid : Z) lsn (h : XLogLongPageHeaderData) : Prop :=
  xlp_pageaddr (std h) = segment_lsn lsn WAL_SEGMENT_SIZE /\ xlp_sysid h = sysid
  /\ (0 < segment_offset lsn WAL_SEGMENT_SIZE < XLOG_BLCKSZ ->
      Z.of_nat XLOG_SIZE_OF_XLOG_LONG_PHD + xlp_rem_len (std h) = segment_offset lsn WAL_SEGMENT_SIZE).

(** Likewise the page of [lsn], if it is another one. *)
Definition page_header_before lsn (h : XLogPageHeaderData) : Prop :=
  xlp_pageaddr h = page_lsn lsn
  /\ (0 < block_offset lsn -> Z.of_nat XLOG_SIZE_OF_XLOG_SHORT_PHD + xlp_rem_len h = block_offset lsn).

Lemma block_in_segment lsn :
  0 <= lsn ->
  let so := segment_offset lsn WAL_SEGMENT_SIZE in
  let b := page_offset_in_segment lsn WAL_SEGMENT_SIZE in
  so = b + block_offset lsn /\ 0 <= b /\ b + XLOG_BLCKSZ <= WAL_SEGMENT_SIZE
  /\ (so < XLOG_BLCKSZ <-> b = 0) /\ (b <> 0 -> XLOG_BLCKSZ <= b).
Proof.
  intros Hl. unfold segment_offset, page_offset_in_segment, segment_lsn, block_offset, XLOG_BLCKSZ, WAL_SEGMENT_SIZE.
  set (S := 16 * 1024 * 1024).
  pose proof (Z.mod_mod_divide lsn S 8192 ltac:(by exists 2048)) as E.
  pose proof (Z.mod_pos_bound lsn S ltac:(done)). pose proof (Z.mod_pos_bound lsn 8192 ltac:(done)).
  pose proof (Z.div_mod (lsn mod S) 8192 ltac:(done)) as Hd. rewrite E in Hd. unfold S in *. lia.
Qed.

Lemma segment_start lsn :
  0 <= lsn < 2 ^ 64 ->
  XLogSegNoOffsetToRecPtr (segment_number lsn WAL_SEGMENT_SIZE) 0 WAL_SEGMENT_SIZE = segment_lsn lsn WAL_SEGMENT_SIZE.
Proof.
  intros Hl. unfold XLogSegNoOffsetToRecPtr, segment_number, segment_lsn.
  pose proof (Z.div_mod lsn WAL_SEGMENT_SIZE ltac:(done)). pose proof (Z.mod_pos_bound lsn WAL_SEGMENT_SIZE ltac:(done)).
  pose proof (Z.mod_le lsn WAL_SEGMENT_SIZE ltac:(lia) ltac:(done)).
  rewrite !wrap_small; unfold in_u; rewrite ?Z.add_0_r, ?wrap_small; unfold in_u; lia.
Qed.

Lemma segment_lsn_u64 lsn : 0 <= lsn < 2 ^ 64 -> in_u 64 (segment_lsn lsn WAL_SEGMENT_SIZE).
Proof.
  intros Hl. unfold segment_lsn, in_u. pose proof (Z.mod_pos_bound lsn WAL_SEGMENT_SIZE ltac:(done)).
  pose proof (Z.mod_le lsn WAL_SEGMENT_SIZE ltac:(lia) ltac:(done)). lia.
Qed.

Lemma page_lsn_u64 lsn : 0 <= lsn < 2 ^ 64 -> in_u 64 (page_lsn lsn).
Proof.
  intros Hl. unfold page_lsn, block_offset, in_u. pose proof (Z.mod_pos_bound lsn XLOG_BLCKSZ ltac:(done)).
  pose proof (Z.mod_le lsn XLOG_BLCKSZ ltac:(lia) ltac:(done)). lia.
Qed.

Lemma magic_wrap (v : PgMajorVersion) : in_u 16 (wrap 16 (XLOG_PAGE_MAGIC v)).
Proof. apply wrap_in_u. lia. Qed.

Ltac header_side :=
  unfold long_header_ok, page_header_ok, first_header_ok, page_header_before;
  cbn [std xlp_sysid xlp_seg_size xlp_xlog_blcksz xlp_magic xlp_info xlp_tli xlp_pageaddr xlp_rem_len];
  split_and!; try done.

(** What the theorem below says of a segment. *)
Record segment_leads_to (sysid : Z) lsn (seg : list byte) : Prop := {
  sl_length : Z.of_nat (length seg) = WAL_SEGMENT_SIZE;
  sl_first : exists h rest, des_long_header seg = Some (h, rest) /\ first_header_ok sysid lsn h;
  sl_page : XLOG_BLCKSZ <= segment_offset lsn WAL_SEGMENT_SIZE ->
    exists h rest, des_page_header (drop (Z.to_nat (page_offset_in_segment lsn WAL_SEGMENT_SIZE)) seg) = Some (h, rest)
      /\ page_header_before lsn h;
  sl_zeros : 0 < block_offset lsn ->
    Forall (fun b => b = Byte.x00) (drop (Z.to_nat (segment_offset lsn WAL_SEGMENT_SIZE)) seg)
}.

Lemma first_page_segment sysid lsn (h : XLogLongPageHeaderData) :
  0 <= lsn -> segment_offset lsn WAL_SEGMENT_SIZE < XLOG_BLCKSZ -> record_start lsn ->
  long_header_ok h -> first_header_ok sysid lsn h ->
  segment_leads_to sysid lsn (take (Z.to_nat WAL_SEGMENT_SIZE) (ser_long_header h)
    ++ replicate (Z.to_nat WAL_SEGMENT_SIZE - length (ser_long_header h)) Byte.x00).
Proof.
  intros Hl Hf Hs Hok Hh. pose proof (length_ser_long_header h) as El. rewrite long_phd_size in El.
  pose proof (Z2Nat.id WAL_SEGMENT_SIZE ltac:(done)) as EN.
  assert (40 < WAL_SEGMENT_SIZE) by done.
  destruct (block_in_segment lsn Hl) as (Eso & Hb0 & Hbmax & Hfirst & Hother).
  remember (Z.to_nat WAL_SEGMENT_SIZE) as N eqn:HN. clear HN.
  rewrite take_ge by lia. split.
  - rewrite length_app, length_replicate. lia.
  - exists h. eexists. split; [by apply des_ser_long_header|done].
  - lia.
  - intros Hbo. unfold record_start in Hs. rewrite decide_True, long_phd_size in Hs by done.
    rewrite drop_app_ge by lia. apply Forall_drop, Forall_replicate. done.
Qed.

Lemma other_page_segment sysid lsn (h : XLogLongPageHeaderData) (ph : XLogPageHeaderData) :
  0 <= lsn -> XLOG_BLCKSZ <= segment_offset lsn WAL_SEGMENT_SIZE -> record_start lsn ->
  long_header_ok h -> page_header_ok ph -> first_header_ok sysid lsn h -> page_header_before lsn ph ->
  let buf := take (Z.to_nat WAL_SEGMENT_SIZE) (ser_long_header h)
    ++ replicate (Z.to_nat WAL_SEGMENT_SIZE - length (ser_long_header h)) Byte.x00 in
  let block := Z.to_nat (page_offset_in_segment lsn WAL_SEGMENT_SIZE) in
  (block + length (ser_page_header ph) <= length buf)%nat
  /\ segment_leads_to sysid lsn
       (take block buf ++ ser_page_header ph ++ drop (block + length (ser_page_header ph)) buf).
Proof.
  intros Hl Hf Hs Hok Hpok Hh Hp. pose proof (length_ser_long_header h) as El. rewrite long_phd_size in El.
  pose proof (length_ser_page_header ph) as Es. rewrite short_phd_size in Es.
  pose proof (Z2Nat.id WAL_SEGMENT_SIZE ltac:(done)) as EN.
  assert (40 < WAL_SEGMENT_SIZE) by done. assert (40 < XLOG_BLCKSZ) by done.
  destruct (block_in_segment lsn Hl) as (Eso & Hb0 & Hbmax & Hfirst & Hother).
  remember (Z.to_nat WAL_SEGMENT_SIZE) as N eqn:HN. clear HN.
  rewrite take_ge by lia. intros buf block. rewrite Es.
  assert (length buf = N) as Ebuf by (unfold buf; rewrite length_app, length_replicate; lia).
  assert (40 <= block)%nat as Hblock by (unfold block; lia).
  split; [unfold block; lia|]. split.
  - rewrite !length_app, length_take, length_drop, Es. unfold block. lia.
  - exists h. unfold buf at 1. rewrite take_app_ge, El by lia. rewrite <- app_assoc. eexists.
    split; [by apply des_ser_long_header|done].
  - intros _. exists ph. rewrite drop_app_length' by (rewrite length_take; unfold block in *; lia). eexists.
    split; [by apply des_ser_page_header|done].
  - intros Hbo. unfold record_start in Hs. rewrite decide_False, short_phd_size in Hs by lia.
    rewrite drop_app_ge by (rewrite length_take; unfold block in *; lia). rewrite length_take.
    rewrite drop_app_ge by (unfold block in *; lia). apply Forall_drop. unfold buf.
    rewrite drop_app_ge by lia. by apply Forall_drop, Forall_replicate.
Qed.

(** The segment that a timeline starts with has the size of a segment; its
    first page, and the page of the start LSN, have headers from which a reader
    finds the LSN as the first place where a record may start; from the LSN on it
    is zeros. *)
Theorem generate_segment_leads_to_lsn sysid v lsn :
  in_u 64 lsn -> in_u 64 sysid -> record_start lsn ->
  exists seg, generate_segment (segment_number lsn WAL_SEGMENT_SIZE) sysid v lsn = Ok seg
    /\ segment_leads_to sysid lsn seg.
Proof.
  intros Hl Hsys Hstart. unfold in_u in Hl.
  destruct (block_in_segment lsn ltac:(lia)) as (Eso & Hb0 & Hbmax & Hfirst & Hother).
  pose proof (Z.mod_pos_bound lsn XLOG_BLCKSZ ltac:(done)) as Hbo. fold (block_offset lsn) in Hbo.
  pose proof (segment_lsn_u64 lsn Hl) as Hseg. pose proof (page_lsn_u64 lsn Hl) as Hpage.
  pose proof (magic_wrap v) as Hmagic.
  unfold generate_segment. rewrite segment_start by done.
  pose proof short_phd_size as Es. pose proof long_phd_size as El. assert (XLOG_BLCKSZ < 2 ^ 32) as Hblk by done.
  pose proof Hstart as Hstart'. unfold record_start in Hstart'.
  destruct (decide (segment_offset lsn WAL_SEGMENT_SIZE < XLOG_BLCKSZ)) as [Hf|Hf].
  - rewrite bool_decide_eq_true_2 by done.
    destruct (decide (0 < segment_offset lsn WAL_SEGMENT_SIZE)) as [Hp|Hp].
    + rewrite bool_decide_eq_true_2 by done. simpl andb. cbv iota. rewrite decide_True by lia.
      cbn [mbind outcome_bind]. eexists. split; [reflexivity|].
      assert (wrap 32 (segment_offset lsn WAL_SEGMENT_SIZE - Z.of_nat XLOG_SIZE_OF_XLOG_LONG_PHD)
        = segment_offset lsn WAL_SEGMENT_SIZE - Z.of_nat XLOG_SIZE_OF_XLOG_LONG_PHD) as -> by (apply wrap_small; unfold in_u; lia).
      apply first_page_segment; [lia|done|done|..]; header_side; unfold in_u; lia.
    + rewrite bool_decide_eq_false_2 by done. simpl andb. cbv iota. cbn [mbind outcome_bind]. change (wrap 32 0) with 0.
      eexists. split; [reflexivity|].
      apply first_page_segment; [lia|done|done|..]; header_side; unfold in_u; lia.
  - rewrite bool_decide_eq_false_2 by done. simpl andb. cbv iota. cbn [mbind outcome_bind]. change (wrap 32 0) with 0.
    destruct (decide (0 < block_offset lsn)) as [Hp|Hp].
    + rewrite (decide_True (P := Z.of_nat XLOG_SIZE_OF_XLOG_SHORT_PHD <= block_offset lsn)) by lia.
      cbn [mbind outcome_bind].
      assert (wrap 32 (block_offset lsn - Z.of_nat XLOG_SIZE_OF_XLOG_SHORT_PHD)
        = block_offset lsn - Z.of_nat XLOG_SIZE_OF_XLOG_SHORT_PHD) as -> by (apply wrap_small; unfold in_u; lia).
      match goal with |- context [ser_long_header ?h] => match goal with |- context [ser_page_header ?ph] =>
        destruct (other_page_segment sysid lsn h ph) as [H1 H2]; [lia|lia|done|..] end end;
        [header_side; unfold in_u; lia..|].
      rewrite decide_True by exact H1. eexists. split; [reflexivity|exact H2].
    + cbn [mbind outcome_bind].
      match goal with |- context [ser_long_header ?h] => match goal with |- context [ser_page_header ?ph] =>
        destruct (other_page_segment sysid lsn h ph) as [H1 H2]; [lia|lia|done|..] end end;
        [header_side; unfold in_u; lia..|].
      rewrite decide_True by exact H1. eexists. split; [reflexivity|exact H2].
Qed.
End segment.

(** ** Evaluation *)

(** Two messages, the first of which crosses a page boundary. *)
Definition demo_generator : WalGenerator :=
  generator_new [message_record (str "prefix") (str "message"); message_record (str "p") []] 8160.

Lemma wal_round_trip_witness :
  exists items g', generate (XB := CLayout.c_bindings) PG16 2 demo_generator = Some (items, g')
    /\ let wal := concat (map snd items) in
       drain_chunks (XB := CLayout.c_bindings) [take 50 wal; drop 50 wal] (decoder_new 8160 PG16)
       = (written (XB := CLayout.c_bindings) (record_generator demo_generator) items 8160, Ok tt,
          decoder_new (g_lsn g') PG16).
Proof.
  destruct (generate (XB := CLayout.c_bindings) PG16 2 demo_generator) as [[items g']|] eqn:E.
  2: { assert (is_Some (generate (XB := CLayout.c_bindings) PG16 2 demo_generator)) as [x Hx]
         by (vm_compute; eauto). congruence. }
  exists items, g'. split; [reflexivity|]. cbv zeta.
  apply (wal_round_trip (XB := CLayout.c_bindings) (XBL := CLayout.c_bindings_laws) PG16 2 demo_generator items g').
  - exact E.
  - simpl. rewrite app_nil_r. apply take_drop.
  - repeat constructor; try (vm_compute; congruence); vm_compute; intros [[=] _].
  - vm_compute. split; congruence.
  - vm_compute. congruence.
  - reflexivity.
  - assert (g_lsn <$> (snd <$> generate (XB := CLayout.c_bindings) PG16 2 demo_generator) = Some 8304) as Hl
      by (vm_compute; reflexivity).
    rewrite E in Hl. simpl in Hl. injection Hl as ->. vm_compute. congruence.
Defined.

Lemma make_value_size_exact_witness :
  Z.of_nat (length (record_encode (XB := CLayout.c_bindings) (message_record (str "prefix") (replicate 940 Byte.x00)) 0)) = 1000.
Proof.
  apply (make_value_size_exact (XB := CLayout.c_bindings) (XBL := CLayout.c_bindings_laws) 1000 (str "prefix") _ 940);
    [lia|vm_compute; reflexivity|by rewrite length_replicate].
Defined.

Lemma generate_segment_leads_to_lsn_witness :
  exists seg, generate_segment (XB := CLayout.c_bindings) (segment_number 0x16B5A50 WAL_SEGMENT_SIZE) 7 PG16 0x16B5A50 = Ok seg
    /\ segment_leads_to (XB := CLayout.c_bindings) 7 0x16B5A50 seg.
Proof.
  apply (generate_segment_leads_to_lsn (XB := CLayout.c_bindings) (XBL := CLayout.c_bindings_laws) 7 PG16 0x16B5A50);
    [vm_compute; split; congruence..|]. right. vm_compute. congruence.
Defined.
