(* ===== verification/WalDurability.v ===== *)
(** * What the WAL storage keeps

    The bytes below [write_lsn] are the bytes written, and the bytes below
    [flush_lsn] survive a crash, in the configuration with [no_sync] off, whatever
    system calls fail but two: [open_or_create] takes an error of the [open] of an
    existing segment for a missing file, and leaves a segment behind whose creation
    failed when its removal fails as well.  The theorems assume that the script of
    these errors is clear ([no_misread_errors]); the last section shows that WAL is
    lost when the first of them occurs. *)

From S2P Require Import Prelude Lsn TermHistory Membership SkState Safekeeper WalStorage.

(** ** Files and cells *)

Definition files (d : Disk) : gmap Z SegFile := full d ∪ partial d.

Definition cell_of (seg : Z) (d : Disk) (pos : Z) : option cell :=
  f ← files d !! segment_number pos seg; cells f !! Z.to_nat (segment_offset pos seg).

(** None of the calls whose errors the code misreads fails.  (An [open] of a file that
    does not exist reports so in any case: its entry in the script means nothing.) *)
Definition no_misread_errors (d : Disk) : Prop := Forall (fun b => b = false) (unhandled d).

(** A segment has one name, and its directory entry is durable. *)
Record disk_wf (d : Disk) : Prop := {
  wf_names : full d ##ₘ partial d;
  wf_linked : map_Forall (fun _ f => linked f = true) (files d)
}.

Record disk_ok (d : Disk) : Prop := {
  ok_unhandled : no_misread_errors d;
  ok_names : full d ##ₘ partial d;
  ok_linked : map_Forall (fun _ f => linked f = true) (files d)
}.

Lemma disk_ok_wf d : disk_ok d <-> disk_wf d /\ no_misread_errors d.
Proof. split; [intros [? ? ?]|intros [[? ?] ?]]; by repeat split. Qed.

Lemma lookup_name_files d n f :
  disk_ok d -> lookup_name n d = Some f -> files d !! n.1 = Some f.
Proof.
  intros Hd. unfold lookup_name, files. destruct n.2; [apply lookup_union_Some_r, Hd|apply lookup_union_Some_l].
Qed.

Lemma files_lookup_name d s f :
  files d !! s = Some f -> exists p, lookup_name (s, p) d = Some f.
Proof.
  unfold files. rewrite lookup_union_Some_raw. intros [H|[_ H]]; [by exists false|by exists true].
Qed.

(** A change of one file. *)
Lemma files_alter g n d f :
  disk_ok d -> lookup_name n d = Some f -> (linked f = true -> linked (g f) = true) ->
  files (alter_file g n d) = <[n.1 := g f]> (files d) /\ disk_ok (alter_file g n d)
  /\ (forall n', is_Some (lookup_name n' (alter_file g n d)) <-> is_Some (lookup_name n' d)).
Proof.
  intros Hd Hf Hg. pose proof (lookup_name_files _ _ _ Hd Hf) as Hff. destruct Hd as [Hu Hn Hl].
  assert (files (alter_file g n d) = <[n.1 := g f]> (files d)) as E.
  { unfold files, alter_file, lookup_name in *. destruct n as [s []]; simpl in *.
    - apply map_eq. intros s'. destruct (decide (s' = s)) as [->|Hne].
      + rewrite lookup_insert_eq, lookup_union_r, lookup_alter_eq, Hf by
          (by eapply map_disjoint_Some_r). done.
      + rewrite lookup_insert_ne, !lookup_union, lookup_alter_ne by done. done.
    - apply map_eq. intros s'. destruct (decide (s' = s)) as [->|Hne].
      + rewrite lookup_insert_eq. apply lookup_union_Some_l. by rewrite lookup_alter_eq, Hf.
      + rewrite lookup_insert_ne, !lookup_union, lookup_alter_ne by done. done. }
  split; [done|split].
  - split; [| |rewrite E; apply map_Forall_insert_2; [apply Hg; by eapply Hl|done]];
      unfold alter_file; destruct n as [s []]; simpl; try done;
      apply map_disjoint_spec; intros s' f1 f2;
      rewrite ?lookup_alter_Some; rewrite map_disjoint_spec in Hn; naive_solver.
  - intros [s' p']. unfold lookup_name, alter_file. destruct n as [s []], p'; simpl; try done;
      (destruct (decide (s' = s)) as [->|]; [rewrite lookup_alter_eq, fmap_is_Some|rewrite lookup_alter_ne]; done).
Qed.

Lemma alter_file_lookup g n n' d :
  lookup_name n' (alter_file g n d) = if decide (n' = n) then g <$> lookup_name n d else lookup_name n' d.
Proof.
  destruct n as [s []], n' as [s' []]; unfold lookup_name, alter_file; simpl; case_decide as H;
    simplify_eq; rewrite ?lookup_alter_eq; try done; rewrite lookup_alter_ne by congruence; done.
Qed.

(** Renames between the two names of a segment change no file. *)
Lemma files_rename_to_full s d :
  disk_ok d -> files (rename_to_full s d) = files d /\ disk_ok (rename_to_full s d)
  /\ (partial d !! s <> None -> is_Some (full (rename_to_full s d) !! s))
  /\ (forall s', s' <> s -> full (rename_to_full s d) !! s' = full d !! s').
Proof.
  intros [Hu Hn Hl]. unfold rename_to_full. destruct (partial d !! s) as [f|] eqn:Hf; [|by split_and!].
  assert (files (set_files (<[s := f]> (full d)) (delete s (partial d)) d) = files d) as E.
  { unfold files; simpl. rewrite <- insert_union_l, insert_union_r by
      (by eapply map_disjoint_Some_r). by rewrite insert_delete_eq, insert_id. }
  split_and!; [done| |intros _; simpl; rewrite lookup_insert_eq; eauto|
    intros; simpl; by rewrite lookup_insert_ne].
  split; [done| |by rewrite E]. simpl. apply map_disjoint_insert_l. split; [by apply lookup_delete_eq|].
  by apply map_disjoint_delete_r.
Qed.

(** [d'] has the bytes of [d] below [lim], and what was durable stays so. *)
Definition keeps (seg lim : Z) (d d' : Disk) : Prop := forall pos b fl,
  pos < lim -> cell_of seg d pos = Some (b, fl) ->
  exists fl', cell_of seg d' pos = Some (b, fl') /\ (fl = true -> fl' = true).

(** A byte a crash can lose. *)
Definition dirty (seg : Z) (d : Disk) (pos : Z) : Prop := exists b, cell_of seg d pos = Some (b, false).

Lemma keeps_refl seg lim d : keeps seg lim d d.
Proof. intros pos b fl _ H. eauto. Qed.

Lemma keeps_trans seg lim d1 d2 d3 : keeps seg lim d1 d2 -> keeps seg lim d2 d3 -> keeps seg lim d1 d3.
Proof.
  intros H1 H2 pos b fl Hp Hc. destruct (H1 _ _ _ Hp Hc) as (fl2 & Hc2 & Hf2).
  destruct (H2 _ _ _ Hp Hc2) as (fl3 & Hc3 & Hf3). exists fl3. auto.
Qed.

Lemma keeps_le seg lim lim' d d' : lim' <= lim -> keeps seg lim d d' -> keeps seg lim' d d'.
Proof. intros Hle H pos b fl Hp. apply H. lia. Qed.

Lemma keeps_files seg lim d d' : files d' = files d -> keeps seg lim d d'.
Proof. intros E pos b fl _ H. exists fl. unfold cell_of in *. by rewrite E. Qed.

Lemma dirty_files seg d d' pos : files d' = files d -> dirty seg d' pos <-> dirty seg d pos.
Proof. intros E. unfold dirty, cell_of. by rewrite E. Qed.

Lemma cell_of_insert seg d d' s f pos :
  files d' = <[s := f]> (files d) ->
  cell_of seg d' pos =
    if decide (segment_number pos seg = s) then cells f !! Z.to_nat (segment_offset pos seg)
    else cell_of seg d pos.
Proof.
  intros E. unfold cell_of. rewrite E. case_decide as Hs.
  - by rewrite Hs, lookup_insert_eq.
  - by rewrite lookup_insert_ne.
Qed.

Lemma files_rename_to_partial s d :
  disk_ok d -> files (rename_to_partial s d) = files d /\ disk_ok (rename_to_partial s d)
  /\ full (rename_to_partial s d) = delete s (full d).
Proof.
  intros [Hu Hn Hl]. unfold rename_to_partial. destruct (full d !! s) as [f|] eqn:Hf.
  2: { split_and!; [done|done|]. by rewrite delete_id. }
  assert (partial d !! s = None) as Hp by (by eapply map_disjoint_Some_l).
  assert (files (set_files (delete s (full d)) (<[s := f]> (partial d)) d) = files d) as E.
  { unfold files; simpl. rewrite <- insert_union_r by apply lookup_delete_eq.
    rewrite insert_union_l. by rewrite insert_delete_eq, insert_id. }
  split_and!; [done| |done].
  split; [done| |by rewrite E]. simpl. apply map_disjoint_insert_r. split; [by apply lookup_delete_eq|].
  by apply map_disjoint_delete_l.
Qed.

Section cells.
Context (seg : Z) (Hseg : 0 < seg).

Lemma segment_bound pos : 0 <= segment_offset pos seg < seg.
Proof. apply Z.mod_pos_bound. lia. Qed.

Lemma segment_split pos : pos = segment_number pos seg * seg + segment_offset pos seg.
Proof. unfold segment_number, segment_offset. pose proof (Z.div_mod pos seg). lia. Qed.

Lemma segment_add l i :
  0 <= i -> segment_offset l seg + i < seg ->
  segment_number (l + i) seg = segment_number l seg
  /\ segment_offset (l + i) seg = segment_offset l seg + i.
Proof.
  intros Hi Hlt. pose proof (segment_bound l). pose proof (segment_split l) as E.
  unfold segment_number, segment_offset in *.
  split; [symmetry; apply Z.div_unique_pos with (l mod seg + i)
         |symmetry; apply Z.mod_unique_pos with (l / seg)]; lia.
Qed.

Lemma segment_same_lt p q :
  p < q -> segment_number p seg = segment_number q seg -> segment_offset p seg < segment_offset q seg.
Proof. pose proof (segment_split p). pose proof (segment_split q). nia. Qed.

Lemma segment_number_mono p q : p <= q -> segment_number p seg <= segment_number q seg.
Proof. intros. by apply Z.div_le_mono. Qed.

(** Writing the rest of a segment leads to the next one. *)
Lemma segment_next l n :
  segment_offset l seg + n = seg ->
  segment_number (l + n) seg = segment_number l seg + 1 /\ segment_offset (l + n) seg = 0.
Proof.
  intros E. pose proof (segment_split l) as E'. unfold segment_number, segment_offset in *.
  split; [symmetry; apply Z.div_unique_pos with 0|symmetry; apply Z.mod_unique_pos with (l / seg + 1)]; nia.
Qed.

Lemma write_at_lookup p bs l i :
  write_at p bs l !! i =
    if decide (i < p)%nat then (l ++ replicate (p - length l) zero_cell) !! i
    else if decide (i < p + length bs)%nat then (fun b => (b, false)) <$> bs !! (i - p)%nat
    else l !! i.
Proof.
  unfold write_at.
  assert (length (take p (l ++ replicate (p - length l) zero_cell)) = p) as Hlen.
  { rewrite length_take, length_app, length_replicate. lia. }
  case_decide; [|case_decide].
  - rewrite lookup_app_l by lia. by rewrite lookup_take_lt.
  - rewrite lookup_app_r, Hlen, lookup_app_l by (rewrite ?length_map; lia). apply list_lookup_fmap.
  - rewrite lookup_app_r, Hlen, lookup_app_r, length_map, lookup_drop by (rewrite ?length_map; lia).
    f_equal. lia.
Qed.

Lemma length_write_at p bs l :
  (p + length bs <= length l)%nat -> length (write_at p bs l) = length l.
Proof.
  intros. unfold write_at.
  rewrite !length_app, length_take, length_app, length_replicate, length_map, length_drop. lia.
Qed.

Lemma write_cells d n f p bs l0 :
  disk_ok d -> lookup_name n d = Some f -> segment_number l0 seg = n.1 ->
  Z.of_nat p = segment_offset l0 seg -> Z.of_nat (length (cells f)) = seg ->
  segment_offset l0 seg + Z.of_nat (length bs) <= seg ->
  let d' := alter_file (map_cells (write_at p bs)) n d in
  keeps seg l0 d d'
  /\ (forall pos, dirty seg d' pos -> dirty seg d pos \/ (segment_number pos seg = n.1 /\ l0 <= pos))
  /\ (forall i b, bs !! i = Some b -> cell_of seg d' (l0 + Z.of_nat i) = Some (b, false)).
Proof.
  intros Hd Hf Hs Hp Hlen Hfit d'. pose proof (lookup_name_files _ _ _ Hd Hf) as Hff.
  destruct (files_alter (map_cells (write_at p bs)) n d f Hd Hf) as (E & _ & _); [done|].
  pose proof (fun pos => cell_of_insert seg d d' n.1 _ pos E) as Hc.
  assert (forall pos, segment_number pos seg = n.1 -> pos < l0 ->
    cells (map_cells (write_at p bs) f) !! Z.to_nat (segment_offset pos seg) = cell_of seg d pos) as Hold.
  { intros pos Hs' Hpos. simpl. rewrite write_at_lookup. unfold cell_of. rewrite Hs', Hff. simpl.
    rewrite <- Hs in Hs'. apply segment_same_lt in Hs'; [|done]. pose proof (segment_bound pos).
    rewrite decide_True by lia. by rewrite lookup_app_l by lia. }
  split_and!.
  - intros pos b fl Hpos H. exists fl. split; [|done]. rewrite Hc. case_decide as Hs'; [|done].
    by rewrite Hold.
  - intros pos [b H]. rewrite Hc in H. case_decide as Hs'; [|left; by exists b].
    destruct (Z.le_gt_cases l0 pos); [by right|]. left. exists b. by rewrite Hold in H.
  - intros i b Hi. pose proof (lookup_lt_Some _ _ _ Hi).
    destruct (segment_add l0 (Z.of_nat i)) as [E1 E2]; [lia..|].
    pose proof (segment_bound l0). rewrite Hc, E1, E2. rewrite decide_True by done. simpl.
    rewrite write_at_lookup. rewrite decide_False, decide_True by lia.
    replace (_ - p)%nat with i by lia. by rewrite Hi.
Qed.

Lemma sync_file d n f :
  disk_ok d -> lookup_name n d = Some f ->
  let d' := alter_file (map_cells sync_cells) n d in
  (forall lim, keeps seg lim d d')
  /\ (forall pos, dirty seg d' pos -> dirty seg d pos /\ segment_number pos seg <> n.1).
Proof.
  intros Hd Hf d'. pose proof (lookup_name_files _ _ _ Hd Hf) as Hff.
  destruct (files_alter (map_cells sync_cells) n d f Hd Hf) as (E & _ & _); [done|].
  pose proof (fun pos => cell_of_insert seg d d' n.1 _ pos E) as Hc. split.
  - intros lim pos b fl _ H. rewrite Hc. case_decide as Hs; [|eauto].
    unfold cell_of in H. rewrite Hs, Hff in H. simpl in H. exists true. split; [|done].
    simpl. unfold sync_cells. rewrite list_lookup_fmap, H. done.
  - intros pos [b H]. rewrite Hc in H. case_decide as Hs; [|split; [by exists b|done]].
    simpl in H. unfold sync_cells in H. rewrite list_lookup_fmap in H.
    by destruct (cells f !! _).
Qed.

Lemma set_len_cells d n f k l0 :
  disk_ok d -> lookup_name n d = Some f -> segment_number l0 seg = n.1 ->
  segment_offset l0 seg <= Z.of_nat k ->
  let d' := alter_file (map_cells (set_len k)) n d in
  keeps seg l0 d d'
  /\ (forall pos, dirty seg d' pos -> dirty seg d pos \/ segment_number pos seg = n.1).
Proof.
  intros Hd Hf Hs Hk d'. pose proof (lookup_name_files _ _ _ Hd Hf) as Hff.
  destruct (files_alter (map_cells (set_len k)) n d f Hd Hf) as (E & _ & _); [done|].
  pose proof (fun pos => cell_of_insert seg d d' n.1 _ pos E) as Hc. split.
  - intros pos b fl Hpos H. exists fl. split; [|done]. rewrite Hc. case_decide as Hs'; [|done].
    unfold cell_of in H. rewrite Hs', Hff in H. simpl in H. simpl. unfold set_len.
    rewrite <- Hs in Hs'. apply segment_same_lt in Hs'; [|done]. pose proof (segment_bound pos).
    apply lookup_lt_Some in H as Hlt. rewrite lookup_app_l by (rewrite length_take; lia).
    by rewrite lookup_take_lt by lia.
  - intros pos [b H]. rewrite Hc in H. case_decide; [by right|]. left. by exists b.
Qed.

Lemma length_set_len k l : length (set_len k l) = k.
Proof. unfold set_len. rewrite length_app, length_take, length_replicate. lia. Qed.

(** Extending a file adds zeros. *)
Lemma set_len_zeros k l i c : (length l <= i)%nat -> set_len k l !! i = Some c -> c.1 = Byte.x00.
Proof.
  intros Hi. unfold set_len. rewrite lookup_app_r by (rewrite length_take; lia).
  intros H. by apply lookup_replicate in H as [-> _].
Qed.

(** ** Opening and creating *)

Lemma unhandled_fault_ok d :
  disk_ok d -> wp unhandled_fault (fun o d' =>
    o = Ok false /\ disk_ok d' /\ full d' = full d /\ partial d' = partial d) d.
Proof.
  intros [Hu Hn Hl]. unfold wp, unhandled_fault. simpl. unfold no_misread_errors in Hu. destruct Hu as [|b l -> Hu];
    (split; [done|]; split; [|done]; split; [|done|done]; by unfold no_misread_errors).
Qed.

(** A disk that differs in the script only. *)
Definition same_dir (d d' : Disk) : Prop := full d' = full d /\ partial d' = partial d.

Lemma same_dir_ok d d' : disk_ok d -> same_dir d d' -> no_misread_errors d' -> disk_ok d'.
Proof. intros [Hu Hn Hl] [E1 E2] Hu'. split; [done|..]; unfold files in *; by rewrite E1, E2. Qed.

Lemma open_name_ok n d :
  disk_ok d -> wp (open_name n) (fun o d' =>
    o = Ok (bool_decide (is_Some (lookup_name n d))) /\ disk_ok d' /\ same_dir d d') d.
Proof.
  intros Hd. unfold open_name. wp_step. eapply wp_mono; [by apply unhandled_fault_ok|].
  intros o d1 (-> & Hd1 & E1 & E2). wp_step. wp_step. wp_step. simpl. split; [|done].
  unfold lookup_name. by rewrite E1, E2.
Qed.

(** The new directory has one more, zeroed and durable, segment. *)
Definition new_segment (s : Z) (d d' : Disk) : Prop :=
  files d !! s = None /\ full d' = full d /\
  partial d' = <[s := {| cells := replicate (Z.to_nat seg) (Byte.x00, true); linked := true |}]> (partial d).

Lemma new_segment_facts s d d' :
  disk_ok d -> new_segment s d d' -> no_misread_errors d' ->
  disk_ok d' /\ (forall lim, keeps seg lim d d') /\ (forall pos, dirty seg d' pos -> dirty seg d pos).
Proof.
  intros [Hu Hn Hl] (Hs & E1 & E2) Hu'. unfold files in Hs. apply lookup_union_None in Hs as [Hs1 Hs2].
  set (f := {| cells := _; linked := true |}) in *.
  assert (files d' = <[s := f]> (files d)) as E.
  { unfold files. by rewrite E1, E2, insert_union_r. }
  pose proof (fun pos => cell_of_insert seg d d' s _ pos E) as Hc. split_and!.
  - split; [done|rewrite E1, E2; by apply map_disjoint_insert_r|]. rewrite E. by apply map_Forall_insert_2.
  - intros lim pos b fl _ H. exists fl. split; [|done]. rewrite Hc. case_decide as Hs'; [|done].
    unfold cell_of, files in H. rewrite Hs', (proj2 (lookup_union_None _ _ _)) in H by done. done.
  - intros pos [b H]. rewrite Hc in H. case_decide; [|by exists b]. simpl in H.
    apply lookup_replicate in H as [[=] _].
Qed.

(** The error handler of [open_or_create] restores the directory. *)
Lemma cleanup_ok s (e : string) d d' :
  disk_ok d -> no_misread_errors d' -> full d' = full d ->
  delete s (partial d') = partial d ->
  wp (fault ← unhandled_fault; if fault : bool then bail "remove_file failed"%string
      else _ ← modify (remove_name (s, true)); bail e)
    (fun (o : outcome anyhow unit) d'' => o = Err e /\ disk_ok d'' /\ same_dir d d'') d'.
Proof.
  intros Hd Hu E1 E2. wp_step. unfold wp at 1, unhandled_fault. simpl. unfold no_misread_errors in Hu.
  destruct Hu as [|b l -> Hu]; simpl; repeat wp_step;
    (split; [done|split; [eapply same_dir_ok; [done|by split|by unfold no_misread_errors]|by split]]).
Qed.

Lemma rename_new_segment_ok s d d0 :
  disk_ok d -> same_dir d d0 -> disk_ok d0 -> files d !! s = None ->
  wp (rename_new_segment false seg s) (fun o d' =>
    no_misread_errors d' /\
    match o with
    | Ok _ => new_segment s d d'
    | Err _ => full d' = full d /\ delete s (partial d') = partial d
    | Panic => False
    end) d0.
Proof.
  intros Hd [E1 E2] [Hu0 _ _] Hs. unfold files in Hs. apply lookup_union_None in Hs as [Hs1 Hs2].
  unfold rename_new_segment, sys_nop. repeat (wp_step; simpl); (split; [done|]).
  - unfold new_segment, alter_file, files. simpl. rewrite E1, E2. split_and!; [by apply lookup_union_None|done|].
    rewrite alter_insert_eq. done.
  - rewrite E1, E2. split; [done|]. by rewrite delete_insert_id.
  - rewrite E1, E2. split; [done|]. by rewrite delete_id.
  - rewrite E1, E2. split; [done|]. by rewrite delete_id.
Qed.

Lemma open_or_create_ok s d :
  disk_ok d -> wp (open_or_create false seg s) (fun o d' =>
    disk_ok d' /\
    match o with
    | Ok n => n.1 = s /\ is_Some (lookup_name n d') /\ (same_dir d d' \/ new_segment s d d')
              /\ (n.2 = false <-> is_Some (full d !! s))
    | Err _ => same_dir d d'
    | Panic => False
    end) d.
Proof.
  intros Hd. unfold open_or_create. wp_step. eapply wp_mono; [by apply open_name_ok|].
  intros o d1 (-> & Hd1 & E1 & E2). case_bool_decide as Hf.
  { wp_step. simpl. unfold lookup_name in *. simpl in *. rewrite E1. unfold same_dir. tauto. }
  wp_step. eapply wp_mono; [by apply open_name_ok|].
  intros o d2 (-> & Hd2 & E3 & E4). case_bool_decide as Hp.
  { wp_step. simpl. unfold lookup_name in *. simpl in *. unfold same_dir. rewrite E3, E4, E1, E2 in *.
    split; [done|]. split_and!; [done..|by left|]. split; [done|intros; contradiction]. }
  assert (files d !! s = None) as Hnone.
  { unfold lookup_name, files in *. simpl in *. rewrite E2 in Hp.
    apply lookup_union_None. by rewrite !eq_None_not_Some. }
  assert (disk_ok d2 /\ same_dir d d2) as Hd2' by (unfold same_dir; split; [done|]; split; congruence).
  clear d1 Hd1 E1 E2 E3 E4 Hd2 Hp. destruct Hd2' as [Hd2 Hsd].
  unfold sys_nop. do 2 (wp_step; wp_step; [|split; [by destruct Hd2; split|done]]).
  wp_step. apply wp_catch. eapply wp_mono;
    [apply (rename_new_segment_ok s d); [done|done|by destruct Hd2; split|done]|].
  intros o d3 [Hu Hnew]. destruct o as [[]|e|]; [| |done]; cycle 1.
  { eapply wp_mono; [apply (cleanup_ok s e d); [done|done|apply Hnew..]|]. by intros ? ? (-> & ?). }
  wp_step. simpl.
  destruct (new_segment_facts s d d3) as (? & _ & _); [done..|]. split; [done|]. split_and!; [done| |by right|].
  - unfold lookup_name. simpl. rewrite (proj2 (proj2 Hnew)), lookup_insert_eq. eauto.
  - split; [done|]. intros Hf'. by unfold lookup_name in Hf.
Qed.
End cells.

(** ** Removing segments *)

(** Some names with [pred] are gone, the others are as they were. *)
Definition pruned (pred : Z -> bool) (d d' : Disk) : Prop :=
  no_misread_errors d' /\
  forall n, lookup_name n d' = lookup_name n d \/ (lookup_name n d' = None /\ pred n.1 = true).

Lemma pruned_faults pred d r :
  no_misread_errors d -> pruned pred d (set_faults r d).
Proof. intros. split; [done|]. by left. Qed.

Lemma pruned_trans pred d1 d2 d3 : pruned pred d1 d2 -> pruned pred d2 d3 -> pruned pred d1 d3.
Proof.
  intros [_ H1] [Hu H2]. split; [done|]. intros n. destruct (H1 n) as [E|[E ?]], (H2 n) as [E'|[E' ?]]; 
    rewrite E', ?E; auto.
Qed.

Lemma remove_name_lookup n n' d :
  lookup_name n' (remove_name n d) = if decide (n' = n) then None else lookup_name n' d.
Proof.
  destruct n as [s []], n' as [s' []]; unfold lookup_name, remove_name; simpl; case_decide as H;
    simplify_eq; rewrite ?lookup_delete_eq; try done; rewrite lookup_delete_ne by congruence; done.
Qed.

Lemma remove_names_ok names pred d :
  no_misread_errors d ->
  wp (remove_names names pred) (fun o d' =>
    o <> Panic /\ pruned pred d d' /\
    (o = Ok tt -> forall n, n ∈ names -> pred n.1 = true -> lookup_name n d' = None)) d.
Proof.
  revert d. induction names as [|n names IH]; intros d Hu.
  { cbn [remove_names]. wp_step. split_and!; [done|by split; [|left]|]. by intros _ n ?%not_elem_of_nil. }
  cbn [remove_names]. unfold sys_nop. wp_step. wp_step; [|split_and!; [done|by apply pruned_faults|done]].
  wp_step. destruct (pred n.1) eqn:Hn.
  - wp_step; [|split_and!; [done|by split; [|left]|done]].
    eapply wp_mono; [apply IH; destruct n as [? []]; done|].
    intros o d' (Ho & Hpr & Hok). split_and!; [done| |].
    + eapply pruned_trans; [|done]. split; [destruct n as [? []]; done|].
      intros n'. rewrite remove_name_lookup. case_decide as E; [right; by subst|by left].
    + intros E n' [->|Hin]%elem_of_cons Hp; [|auto]. destruct Hpr as [_ Hpr].
      destruct (Hpr n) as [E'|[E' _]]; [|done]. rewrite E', remove_name_lookup. by rewrite decide_True.
  - wp_step. eapply wp_mono; [by apply IH|]. intros o d' (Ho & Hpr & Hok).
    split_and!; [done|done|]. intros E n' [->|Hin]%elem_of_cons Hp; [congruence|auto].
Qed.

Lemma dir_names_spec n d : is_Some (lookup_name n d) -> n ∈ dir_names d.
Proof.
  destruct n as [s []]; unfold lookup_name, dir_names; simpl; intros [f Hf];
    apply elem_of_app; [right|left]; apply list_elem_of_fmap; exists (s, f);
    (split; [done|]); by apply elem_of_map_to_list.
Qed.

Lemma remove_segments_ok pred d :
  disk_ok d -> wp (remove_segments_from_disk pred) (fun o d' =>
    o <> Panic /\ disk_ok d' /\ pruned pred d d' /\
    (o = Ok tt -> forall n, pred n.1 = true -> lookup_name n d' = None)) d.
Proof.
  intros [Hu Hn Hl]. unfold remove_segments_from_disk, sys_nop.
  assert (forall d', pruned pred d d' -> disk_ok d') as Hok.
  { intros d' [Hu' Hpr]. split; [done| |].
    - apply map_disjoint_spec. intros s f1 f2 H1 H2. rewrite map_disjoint_spec in Hn.
      destruct (Hpr (s, false)) as [E1|[E1 _]], (Hpr (s, true)) as [E2|[E2 _]];
        unfold lookup_name in *; simpl in *; try congruence. by eapply Hn; rewrite <- ?E1, <- ?E2.
    - intros s f Hf. apply files_lookup_name in Hf as [p Hf].
      destruct (Hpr (s, p)) as [E|[E _]]; [|congruence]. rewrite E in Hf.
      eapply (Hl s f), (lookup_name_files d (s, p)); [by split|done]. }
  wp_step. wp_step; [|split_and!; [done|by split|by apply pruned_faults|done]].
  wp_step. wp_step. eapply wp_mono; [by apply remove_names_ok|]. intros o d' (Ho & Hpr & Hall).
  split_and!; [done|auto|done|]. intros E n Hp. destruct (proj2 Hpr n) as [E'|[E' _]]; [|done].
  destruct (lookup_name n d') eqn:El; [|done]. rewrite <- El. apply Hall; [done| |done].
  apply dir_names_spec. rewrite <- E'. eauto.
Qed.

Lemma pruned_cells seg pred d d' pos :
  disk_ok d -> disk_ok d' -> pruned pred d d' -> pred (segment_number pos seg) = false ->
  cell_of seg d' pos = cell_of seg d pos.
Proof.
  intros Hd Hd' [_ Hpr] Hp. unfold cell_of. f_equal. unfold files.
  destruct (Hpr (segment_number pos seg, false)) as [E1|[_ E1]]; [|simpl in E1; congruence].
  destruct (Hpr (segment_number pos seg, true)) as [E2|[_ E2]]; [|simpl in E2; congruence].
  unfold lookup_name in *. simpl in *. by rewrite !lookup_union, E1, E2.
Qed.

Lemma pruned_dirty seg pred d d' pos :
  disk_ok d -> disk_ok d' -> pruned pred d d' -> dirty seg d' pos -> dirty seg d pos.
Proof.
  intros Hd Hd' [_ Hpr] [b Hc]. exists b. unfold cell_of in *.
  destruct (files d' !! segment_number pos seg) as [f|] eqn:E; [|done].
  apply files_lookup_name in E as [p E]. destruct (Hpr (segment_number pos seg, p)) as [E'|[E' _]]; [|congruence].
  rewrite E' in E. apply lookup_name_files in E; [|done]. simpl in E. by rewrite E.
Qed.

(** ** The storage *)

Section durability.
Context {D : Type} {WD : WalDecoder D} {WDL : WalDecoderLaws D} {SG : SegmentGenerator}.
Abbreviation PS := (PhysicalStorage D).
Implicit Types w : PS.

Definition full_below (s : Z) (d : Disk) : Prop := forall s', is_Some (full d !! s') -> s' < s.

(** No file is past segment [s], and that one has its full size. *)
Definition files_upto (seg s : Z) (d : Disk) : Prop := forall s' f,
  files d !! s' = Some f -> s' <= s /\ (s' = s -> Z.of_nat (length (cells f)) = seg).

(** The consistency of the storage: the open file is the one [write_lsn] is in,
    bytes that were written and not flushed are all in that segment, and after
    a completed truncation nothing below [flush_lsn] is unflushed.  The theorems are
    about [store_ok]; the proofs carry the clear script along in [dur_inv]. *)
Record dur_inv_of {disk_inv : Disk -> Prop} w : Prop := {
  di_sync : ps_no_sync w = false;
  di_seg : 0 < ps_wal_seg_size w;
  di_disk : disk_inv (ps_disk w);
  di_file : forall s p, ps_file w = Some (s, p) ->
    s = segment_number (ps_write_lsn w) (ps_wal_seg_size w)
    /\ Z.of_nat p = segment_offset (ps_write_lsn w) (ps_wal_seg_size w)
    /\ is_Some (partial (ps_disk w) !! s);
  di_dirty : forall pos, pos < ps_write_lsn w -> dirty (ps_wal_seg_size w) (ps_disk w) pos ->
    segment_number pos (ps_wal_seg_size w) = segment_number (ps_write_lsn w) (ps_wal_seg_size w);
  di_order : ps_flush_lsn w <= ps_write_lsn w;
  di_flushed : ps_pending w = false ->
    forall pos, pos < ps_flush_lsn w -> ~ dirty (ps_wal_seg_size w) (ps_disk w) pos;
  di_full : ps_pending w = false ->
    full_below (segment_number (ps_write_lsn w) (ps_wal_seg_size w)) (ps_disk w)
    /\ files_upto (ps_wal_seg_size w) (segment_number (ps_write_lsn w) (ps_wal_seg_size w)) (ps_disk w)
}.

Abbreviation store_ok := (@dur_inv_of disk_wf).
Abbreviation dur_inv := (@dur_inv_of disk_ok).

Lemma dur_inv_iff w : dur_inv w <-> store_ok w /\ no_misread_errors (ps_disk w).
Proof.
  split.
  - intros [H1 H2 [H3 H4]%disk_ok_wf H5 H6 H7 H8 H9]. split; [|done]. by split.
  - intros [[H1 H2 H3 H4 H5 H6 H7 H8] H9]. split; try done. by apply disk_ok_wf.
Qed.

(** Everything but the open file and the disk. *)
Definition same_lsns w w' : Prop :=
  ps_no_sync w' = ps_no_sync w /\ ps_wal_seg_size w' = ps_wal_seg_size w
  /\ ps_write_lsn w' = ps_write_lsn w /\ ps_write_record_lsn w' = ps_write_record_lsn w
  /\ ps_flush_lsn w' = ps_flush_lsn w /\ ps_flush_record_lsn w' = ps_flush_record_lsn w
  /\ ps_decoder w' = ps_decoder w /\ ps_pending w' = ps_pending w.

(** What a write into the current segment keeps at every point. *)
Record writing (n : Z) w w' : Prop := {
  wr_same : same_lsns w w';
  wr_disk : disk_ok (ps_disk w');
  wr_keeps : keeps (ps_wal_seg_size w) (ps_write_lsn w) (ps_disk w) (ps_disk w');
  wr_dirty : forall pos, dirty (ps_wal_seg_size w) (ps_disk w') pos ->
    dirty (ps_wal_seg_size w) (ps_disk w) pos
    \/ (segment_number pos (ps_wal_seg_size w) = segment_number (ps_write_lsn w) (ps_wal_seg_size w)
        /\ ps_write_lsn w <= pos);
  wr_full : full_below n (ps_disk w');
  wr_files : files_upto (ps_wal_seg_size w)
               (segment_number (ps_write_lsn w) (ps_wal_seg_size w)) (ps_disk w')
}.

Definition cur_seg w : Z := segment_number (ps_write_lsn w) (ps_wal_seg_size w).
Definition cur_off w : Z := segment_offset (ps_write_lsn w) (ps_wal_seg_size w).

Lemma writing_refl w : dur_inv w -> ps_pending w = false -> writing (cur_seg w) w w.
Proof. intros Hw Hp. split; [done|apply Hw|apply keeps_refl|by left|by apply Hw..]. Qed.

Lemma writing_disk n n' w w' d :
  writing n w w' -> disk_ok d ->
  keeps (ps_wal_seg_size w) (ps_write_lsn w) (ps_disk w') d ->
  (forall pos, dirty (ps_wal_seg_size w) d pos -> dirty (ps_wal_seg_size w) (ps_disk w') pos
    \/ (segment_number pos (ps_wal_seg_size w) = cur_seg w /\ ps_write_lsn w <= pos)) ->
  full_below n' d -> files_upto (ps_wal_seg_size w) (cur_seg w) d -> writing n' w (set_disk d w').
Proof.
  intros [Hs Hd Hk Hdi Hf Hfi] Hd' Hk' Hdi' Hf' Hfi'. split; [done|done|by eapply keeps_trans| |done..].
  simpl. intros pos Hpos. destruct (Hdi' _ Hpos) as [H|H]; [auto|by right].
Qed.

Lemma writing_same_dir n w w' d :
  writing n w w' -> same_dir (ps_disk w') d -> no_misread_errors d ->
  writing n w (set_disk d w').
Proof.
  intros Hw [E1 E2] Hu. pose proof Hw as [Hs Hd Hk Hdi Hf Hfi].
  assert (files d = files (ps_disk w')) as E by (unfold files; by rewrite E1, E2).
  eapply writing_disk; [done|by eapply same_dir_ok|by apply keeps_files| | |].
  - intros pos. rewrite (dirty_files _ (ps_disk w')) by done. by left.
  - intros s. rewrite E1. apply Hf.
  - intros s f. rewrite E. apply Hfi.
Qed.

(** A system call that leaves the directory alone. *)
Lemma wp_sys_nop n w w' e Q :
  writing n w w' ->
  (forall d, same_dir (ps_disk w') d -> writing n w (set_disk d w') -> Q (Ok tt) (set_disk d w')) ->
  (forall d, writing n w (set_disk d w') -> Q (Err e) (set_disk d w')) ->
  wp (on_disk (sys_nop e)) Q w'.
Proof.
  intros Hw H1 H2. apply wp_zoom, wp_sys; intros;
    [apply H1; [done|]|apply H2]; (apply writing_same_dir; [done|done|apply Hw]).
Qed.

(** A handle on the current segment. *)
Definition handle_ok w w' (h : Z * nat) : Prop :=
  h.1 = cur_seg w
  /\ Z.of_nat h.2 = cur_off w
  /\ is_Some (partial (ps_disk w') !! h.1).

Definition get_handle w (handle : option (Z * nat)) : M anyhow PS (Z * nat) :=
  let segno := cur_seg w in
  match handle with
  | Some file => mret file
  | None =>
      n ← on_disk (open_or_create (ps_no_sync w) (ps_wal_seg_size w) segno);
      _ ← assert n.2;
      _ ← on_disk (sys_nop "seek failed");
      mret (segno, Z.to_nat (cur_off w))
  end.

Lemma get_handle_ok w :
  dur_inv w -> ps_pending w = false ->
  wp (get_handle w (ps_file w)) (fun o w' =>
    writing (cur_seg w) w w' /\ ps_file w' = None /\
    match o with Ok h => handle_ok w w' h | Err _ => True | Panic => False end) (set_file None w).
Proof.
  intros Hw Hp. assert (writing (cur_seg w) w (set_file None w)) as H0.
  { destruct (writing_refl w Hw Hp). by split. }
  unfold get_handle. pose proof (di_file w Hw) as Hfile. destruct (ps_file w) as [[s p]|].
  { wp_step. split_and!; [done|done|]. by apply Hfile. }
  wp_step. apply wp_zoom. rewrite (di_sync w Hw). simpl.
  eapply wp_mono; [apply open_or_create_ok; apply Hw|]. intros o d [Hd Ho].
  destruct o as [n|e|]; [| |done]; cycle 1.
  { split_and!; [|done|done]. apply writing_same_dir; [done|done|apply Hd]. }
  destruct Ho as (Hn1 & Hn & Hdir & Hn2).
  assert (n.2 = true) as Hpart.
  { destruct n.2; [done|]. pose proof (proj1 (di_full w Hw Hp) _ (proj1 Hn2 eq_refl)). unfold cur_seg in *. lia. }
  assert (writing (cur_seg w) w (set_disk d (set_file None w))) as H1.
  { destruct Hdir as [Hdir|Hdir]; [apply writing_same_dir; [done|done|apply Hd]|].
    destruct (new_segment_facts _ _ _ _ (di_disk w Hw) Hdir) as (_ & Hk & Hdi); [apply Hd|].
    eapply writing_disk; [done|done|apply Hk|intros pos; left; by apply Hdi| |].
    - intros s. rewrite (proj1 (proj2 Hdir)). by apply (di_full w Hw Hp).
    - intros s f. unfold files. rewrite (proj1 (proj2 Hdir)), (proj2 (proj2 Hdir)).
      rewrite <- insert_union_r by (apply (lookup_union_None (full (ps_disk w)) (partial (ps_disk w))), Hdir).
      rewrite lookup_insert_Some. intros [[<- <-]|[_ Hs]]; [|by apply (di_full w Hw Hp)].
      simpl. rewrite length_replicate. pose proof (di_seg w Hw). lia. }
  wp_step. apply wp_assert; [intros _|congruence]. wp_step. apply (wp_sys_nop (cur_seg w) w); [done| |done].
  intros d' Hsd H2. wp_step. split_and!; [done|done|]. split_and!; [done| |].
  - simpl. pose proof (segment_bound _ (di_seg w Hw) (ps_write_lsn w)). unfold cur_off. lia.
  - simpl in *. rewrite (proj2 Hsd). simpl. unfold lookup_name in Hn. by rewrite Hpart, Hn1 in Hn.
Qed.

(** The bytes [bs] are in the files from position [l] on. *)
Definition written (seg : Z) (d : Disk) (l : Lsn) (bs : list byte) : Prop :=
  forall i b, bs !! i = Some b -> exists fl, cell_of seg d (l + Z.of_nat i) = Some (b, fl).

Lemma written_keeps seg d d' l bs lim :
  l + Z.of_nat (length bs) <= lim -> written seg d l bs -> keeps seg lim d d' -> written seg d' l bs.
Proof.
  intros Hlim Hw Hk i b Hi. destruct (Hw i b Hi) as [fl Hc].
  apply lookup_lt_Some in Hi. destruct (Hk (l + Z.of_nat i) b fl) as (fl' & Hc' & _); [lia|done|eauto].
Qed.

(** Changing the current segment without its size. *)
Lemma files_upto_alter seg s g n d f :
  disk_ok d -> lookup_name n d = Some f -> (linked f = true -> linked (g f) = true) ->
  length (cells (g f)) = length (cells f) -> files_upto seg s d -> files_upto seg s (alter_file g n d).
Proof.
  intros Hd Hf Hg Hlen Hfi s' f'. destruct (files_alter g n d f Hd Hf Hg) as (E & _).
  rewrite E, lookup_insert_Some. intros [[<- <-]|[_ Hs]]; [|by apply Hfi].
  rewrite Hlen. eapply Hfi, lookup_name_files; done.
Qed.

(** The write into the open file. *)
Lemma write_handle_ok w w1 h buf k :
  dur_inv w -> writing (cur_seg w) w w1 -> handle_ok w w1 h -> ps_file w1 = None ->
  cur_off w + Z.of_nat (length buf) <= ps_wal_seg_size w ->
  forall r, let w2 := set_disk (alter_file (map_cells (write_at h.2 (take k buf))) (h.1, true)
                                  (set_faults r (ps_disk w1))) w1 in
  writing (cur_seg w) w w2 /\ handle_ok w w2 h /\ ps_file w2 = None
  /\ written (ps_wal_seg_size w) (ps_disk w2) (ps_write_lsn w) (take k buf).
Proof.
  intros Hw Hw1 (Hh1 & Hh2 & [f Hf]) Hnone Hfit r w2. pose proof (di_seg w Hw) as Hseg.
  set (d1 := set_faults r (ps_disk w1)) in *. change (segment_offset _ _) with (cur_off w) in Hh2.
  assert (disk_ok d1) as Hd1 by (destruct (wr_disk _ _ _ Hw1); by split).
  assert (lookup_name (h.1, true) d1 = Some f) as Hl by done.
  assert (Z.of_nat (length (cells f)) = ps_wal_seg_size w) as Hlen.
  { apply (wr_files _ _ _ Hw1 h.1 f); [|done]. exact (lookup_name_files _ _ _ Hd1 Hl). }
  destruct (files_alter (map_cells (write_at h.2 (take k buf))) _ _ _ Hd1 Hl) as (_ & Hd2 & Hn2); [done|].
  assert (length (take k buf) <= length buf)%nat as Hk by (rewrite length_take; lia).
  destruct (write_cells _ Hseg d1 (h.1, true) f h.2 (take k buf) (ps_write_lsn w)) as (Hkp & Hdi & Hwr);
    [done|done|by rewrite Hh1|done|done|unfold cur_off in *; lia|].
  split_and!; [|split_and!; [done|done|]|done|].
  - apply (writing_disk (cur_seg w)); [done|done|exact Hkp| |apply Hw1|].
    + intros pos Hpos. destruct (Hdi pos Hpos) as [?|[E ?]]; [by left|right]. by rewrite E.
    + eapply files_upto_alter; [done|done|done| |apply Hw1]. apply length_write_at. lia.
  - apply (Hn2 (h.1, true)). simpl. eauto.
  - intros i b Hi. exists false. by apply Hwr.
Qed.

(** The flush of the open file. *)
Lemma sync_handle_ok n w w1 h r :
  writing n w w1 -> handle_ok w w1 h ->
  let d2 := alter_file (map_cells sync_cells) (h.1, true) (set_faults r (ps_disk w1)) in
  writing n w (set_disk d2 w1) /\ is_Some (partial d2 !! h.1)
  /\ (forall lim, keeps (ps_wal_seg_size w) lim (ps_disk w1) d2)
  /\ (forall pos, dirty (ps_wal_seg_size w) d2 pos ->
       dirty (ps_wal_seg_size w) (ps_disk w1) pos /\ segment_number pos (ps_wal_seg_size w) <> cur_seg w).
Proof.
  intros Hw1 (Hh1 & Hh2 & [f Hf]). set (d1 := set_faults r (ps_disk w1)) in *. intros d2.
  assert (disk_ok d1) as Hd1 by (destruct (wr_disk _ _ _ Hw1); by split).
  assert (lookup_name (h.1, true) d1 = Some f) as Hl by done.
  destruct (files_alter (map_cells sync_cells) _ _ _ Hd1 Hl) as (_ & Hd2 & Hn2); [done|].
  destruct (sync_file (ps_wal_seg_size w) d1 _ f Hd1 Hl) as (Hk & Hdi). split_and!.
  - apply (writing_disk n); [done|done|apply Hk| |apply Hw1|].
    + intros pos Hpos. left. by apply Hdi.
    + eapply files_upto_alter; [done|done|done| |apply Hw1]. apply length_map.
  - apply (Hn2 (h.1, true)). simpl. eauto.
  - exact Hk.
  - intros pos Hpos. destruct (Hdi pos Hpos) as [? Hne]. split; [done|]. by rewrite <- Hh1.
Qed.

(** A completed segment is flushed and gets its final name. *)
Lemma complete_segment_ok w w3 hpos buf :
  dur_inv w -> writing (cur_seg w) w w3 -> handle_ok w w3 (cur_seg w, hpos) -> ps_file w3 = None ->
  written (ps_wal_seg_size w) (ps_disk w3) (ps_write_lsn w) buf ->
  cur_off w + Z.of_nat (length buf) = ps_wal_seg_size w ->
  wp (_ ← fdatasync_file (cur_seg w);
      _ ← on_disk (f ← gets (fun d => partial d !! cur_seg w);
                   if decide (is_Some f)
                   then sys "rename failed"%string (rename_to_full (cur_seg w)) (fun _ d => d)
                   else bail "rename failed"%string);
      mret true) (fun o w' =>
    match o with
    | Ok true => cur_off w + Z.of_nat (length buf) = ps_wal_seg_size w
        /\ writing (cur_seg w + 1) w w' /\ ps_file w' = None
        /\ written (ps_wal_seg_size w) (ps_disk w') (ps_write_lsn w) buf
        /\ (forall pos, segment_number pos (ps_wal_seg_size w) = cur_seg w ->
             ~ dirty (ps_wal_seg_size w) (ps_disk w') pos)
    | Ok false | Panic => False
    | Err _ => writing (cur_seg w) w w' /\ ps_file w' = None
    end) w3.
Proof.
  intros Hw Hw3 Ho3 Hn3 Hwr3 Hlen. unfold fdatasync_file, fsync_name. wp_step. wp_step. wp_step.
  rewrite (proj1 (wr_same _ _ _ Hw3)), (di_sync w Hw). apply wp_zoom, wp_sys; intros.
  2: { split; [|done]. apply writing_same_dir; [done|done|apply Hw3]. }
  destruct (sync_handle_ok _ w w3 _ r Hw3 Ho3) as (Hw4 & [f Hf] & Hk4 & Hd4).
  set (w4 := set_disk _ w3) in *. simpl in Hf. wp_step. apply wp_zoom. do 2 wp_step.
  rewrite decide_True by (exists f; exact Hf). apply wp_sys; intros.
  2: { split; [|done]. apply writing_same_dir; [done|done|apply Hw4]. }
  assert (disk_ok (set_faults r0 (ps_disk w4))) as Hd by (destruct (wr_disk _ _ _ Hw4); by split).
  destruct (files_rename_to_full (cur_seg w) _ Hd) as (E & Hok & _ & Hne). wp_step.
  split_and!; [done| |done| |].
  - apply (writing_disk (cur_seg w)); [done|done|by apply keeps_files| | |].
    + intros pos. rewrite (dirty_files _ (set_faults r0 (ps_disk w4))) by done. by left.
    + intros s Hs. destruct (decide (s = cur_seg w)); [lia|]. rewrite Hne in Hs by done.
      pose proof (wr_full _ _ _ Hw4 s Hs). lia.
    + intros s f'. rewrite E. apply (wr_files _ _ _ Hw4).
  - eapply (written_keeps _ _ _ _ _ _ (Z.le_refl _)); [exact Hwr3|].
    eapply keeps_trans; [apply Hk4|by apply keeps_files].
  - intros pos Hpos. simpl. rewrite (dirty_files _ (set_faults r0 (ps_disk w4))) by done.
    intros Hdi. by apply Hd4 in Hdi as [_ ?].
Qed.

Lemma write_in_segment_ok w buf :
  dur_inv w -> ps_pending w = false -> cur_off w + Z.of_nat (length buf) <= ps_wal_seg_size w ->
  wp (write_in_segment (cur_seg w) (cur_off w) buf) (fun o w' =>
    match o with
    | Ok true => cur_off w + Z.of_nat (length buf) = ps_wal_seg_size w
        /\ writing (cur_seg w + 1) w w' /\ ps_file w' = None
        /\ written (ps_wal_seg_size w) (ps_disk w') (ps_write_lsn w) buf
        /\ (forall pos, segment_number pos (ps_wal_seg_size w) = cur_seg w ->
             ~ dirty (ps_wal_seg_size w) (ps_disk w') pos)
    | Ok false => cur_off w + Z.of_nat (length buf) < ps_wal_seg_size w
        /\ writing (cur_seg w) w w'
        /\ (exists p, ps_file w' = Some (cur_seg w, (p + length buf)%nat) /\ Z.of_nat p = cur_off w)
        /\ is_Some (partial (ps_disk w') !! cur_seg w)
        /\ written (ps_wal_seg_size w) (ps_disk w') (ps_write_lsn w) buf
    | Err _ => writing (cur_seg w) w w' /\ ps_file w' = None
    | Panic => False
    end) w.
Proof.
  intros Hw Hp Hfit. unfold write_in_segment, take_file. wp_step. wp_step. wp_step. wp_step. wp_step.
  wp_step. wp_step. wp_step. wp_step.
  eapply wp_mono; [exact (get_handle_ok w Hw Hp)|]. intros o w1 (Hw1 & Hn1 & Ho).
  destruct o as [[hseg hpos]|e|]; [|by auto|done]. wp_step. apply wp_zoom, wp_sys; intros.
  2: { destruct (write_handle_ok w w1 _ buf n Hw Hw1 Ho Hn1 Hfit r) as (? & _ & ? & _). by split. }
  destruct (write_handle_ok w w1 _ buf (length buf) Hw Hw1 Ho Hn1 Hfit r) as (Hw2 & Ho2 & Hn2 & Hwr2).
  cbn [fst snd] in Hw2, Ho2, Hn2, Hwr2. rewrite take_ge in Hw2, Ho2, Hn2, Hwr2 by lia.
  set (w2 := set_disk _ w1) in *. clearbody w2.
  wp_step. apply (wp_sys_nop (cur_seg w) w); [done| |by split]. intros d3 Hsd3 Hw3.
  assert (handle_ok w (set_disk d3 w2) (hseg, hpos)) as Ho3.
  { destruct Ho2 as (? & ? & ?). split_and!; [done|done|]. simpl. by rewrite (proj2 Hsd3). }
  assert (written (ps_wal_seg_size w) d3 (ps_write_lsn w) buf) as Hwr3.
  { eapply (written_keeps _ _ _ _ _ _ (Z.le_refl _)); [exact Hwr2|]. apply keeps_files.
    unfold files. by rewrite (proj1 Hsd3), (proj2 Hsd3). }
  set (w3 := set_disk d3 w2) in *. assert (ps_file w3 = None) as Hn3 by done.
  change d3 with (ps_disk w3) in Hwr3. clearbody w3. clear d3 Hsd3 w2 Hw2 Ho2 Hn2 Hwr2.
  assert (hseg = cur_seg w) as -> by apply Ho3. wp_step.
  - eapply wp_mono; [by eapply (complete_segment_ok w)|]. by intros [[]|e|] w' H.
  - wp_step. wp_step. wp_step. destruct Ho3 as (_ & Hpos & Hpart).
    split_and!; [lia| |exists hpos; split; [done|exact Hpos]|done|done]. destruct Hw3; by split.
Qed.

(** *** Positions after a write *)

(** Positions between [write_lsn] and the end of the segment are in it. *)
Lemma in_cur_seg w n pos :
  0 < ps_wal_seg_size w -> cur_off w + n <= ps_wal_seg_size w ->
  ps_write_lsn w <= pos < ps_write_lsn w + n -> segment_number pos (ps_wal_seg_size w) = cur_seg w.
Proof.
  intros Hseg Hn Hpos. destruct (segment_add _ Hseg (ps_write_lsn w) (pos - ps_write_lsn w)) as [E _];
    [lia|unfold cur_off in *; lia|]. by replace (ps_write_lsn w + _) with pos in E by lia.
Qed.

Lemma failed_write_inv w w1 :
  dur_inv w -> ps_pending w = false -> writing (cur_seg w) w w1 -> ps_file w1 = None -> dur_inv w1.
Proof.
  intros Hw Hp [(S1 & S2 & S3 & S4 & S5 & S6 & S7 & S8) Hd Hk Hdi Hf Hfi] Hn.
  destruct Hw as [W1 W2 W3 W4 W5 W6 W7 W8].
  split; rewrite ?S1, ?S2, ?S3, ?S5, ?S8, ?Hn; [done|done|done|done| |done| |done].
  - intros pos Hpos Hd'. destruct (Hdi _ Hd') as [?|[? ?]]; [auto|lia].
  - intros _ pos Hpos Hd'. destruct (Hdi _ Hd') as [H|[? ?]]; [by eapply W7|lia].
Qed.

Lemma advance_partial w w1 p n :
  dur_inv w -> ps_pending w = false -> writing (cur_seg w) w w1 ->
  ps_file w1 = Some (cur_seg w, (p + n)%nat) -> Z.of_nat p = cur_off w ->
  is_Some (partial (ps_disk w1) !! cur_seg w) ->
  cur_off w + Z.of_nat n < ps_wal_seg_size w ->
  dur_inv (set_write_lsn (ps_write_lsn w + Z.of_nat n) w1).
Proof.
  intros Hw Hp [(S1 & S2 & S3 & S4 & S5 & S6 & S7 & S8) Hd Hk Hdi Hf Hfi] Hn Hpos Hpart Hfit.
  destruct Hw as [W1 W2 W3 W4 W5 W6 W7 W8].
  destruct (segment_add _ W2 (ps_write_lsn w) (Z.of_nat n)) as [E1 E2]; [lia|exact Hfit|].
  split; simpl; rewrite ?S1, ?S2, ?S3, ?S5, ?S8, ?Hn, ?E1; [done|done|done| | | | |done].
  - intros s q [= <- <-]. split_and!; [done| |done]. rewrite E2. unfold cur_off in *. lia.
  - intros pos Hlt Hd'. destruct (Hdi _ Hd') as [H|[H ?]]; [|done].
    destruct (Z.lt_ge_cases pos (ps_write_lsn w)); [auto|].
    apply (in_cur_seg w (Z.of_nat n)); [done|lia|lia].
  - lia.
  - intros _ pos Hlt Hd'. destruct (Hdi _ Hd') as [H|[? ?]]; [by eapply W7|lia].
Qed.

Lemma advance_full w w1 n :
  dur_inv w -> ps_pending w = false -> writing (cur_seg w + 1) w w1 -> ps_file w1 = None ->
  (forall pos, segment_number pos (ps_wal_seg_size w) = cur_seg w ->
     ~ dirty (ps_wal_seg_size w) (ps_disk w1) pos) ->
  0 <= n -> cur_off w + n = ps_wal_seg_size w ->
  dur_inv (set_flush_lsn (ps_write_lsn w + n) (set_write_lsn (ps_write_lsn w + n) w1)).
Proof.
  intros Hw Hp [(S1 & S2 & S3 & S4 & S5 & S6 & S7 & S8) Hd Hk Hdi Hf Hfi] Hn Hclean Hpos Hfit.
  destruct Hw as [W1 W2 W3 W4 W5 W6 W7 W8].
  destruct (segment_next _ W2 (ps_write_lsn w) n) as [E1 E2]; [exact Hfit|].
  assert (forall pos, pos < ps_write_lsn w + n -> ~ dirty (ps_wal_seg_size w) (ps_disk w1) pos) as Hall.
  { intros pos Hlt Hd'. destruct (Hdi _ Hd') as [H|[H ?]]; [|by eapply Hclean].
    eapply Hclean; [|done]. destruct (Z.lt_ge_cases pos (ps_write_lsn w)); [by apply W5|].
    apply (in_cur_seg w n); [done|lia|lia]. }
  split; simpl; rewrite ?S1, ?S2, ?S3, ?S5, ?S8, ?Hn, ?E1; [done|done|done|done| |lia| |].
  - intros pos Hlt Hd'. by apply Hall in Hd'.
  - intros _ pos. apply Hall.
  - intros _. split; [done|]. intros s f Hs. apply Hfi in Hs. split; [lia|]. intros ->. lia.
Qed.

(** The result of appending: some prefix of [buf] is written after the old end,
    all of it on success. *)
Record appended w (buf : list byte) (ok : bool) w' : Prop := {
  ap_inv : dur_inv w';
  ap_pending : ps_pending w' = ps_pending w;
  ap_seg : ps_wal_seg_size w' = ps_wal_seg_size w;
  ap_keeps : keeps (ps_wal_seg_size w) (ps_write_lsn w) (ps_disk w) (ps_disk w');
  ap_flush : ps_flush_lsn w <= ps_flush_lsn w';
  ap_written : exists k, (k <= length buf)%nat /\ ps_write_lsn w' = ps_write_lsn w + Z.of_nat k
    /\ written (ps_wal_seg_size w) (ps_disk w') (ps_write_lsn w) (take k buf)
    /\ (ok = true -> k = length buf)
}.

Lemma appended_nothing w w' buf :
  dur_inv w' -> same_lsns w w' ->
  keeps (ps_wal_seg_size w) (ps_write_lsn w) (ps_disk w) (ps_disk w') -> appended w buf false w'.
Proof.
  intros Hw (S1 & S2 & S3 & S4 & S5 & S6 & S7 & S8) Hk. split; [done|done|done|done|lia|].
  exists 0%nat. split_and!; [lia|lia|by intros i b Hi|done].
Qed.

(** Two appends in a row. *)
Lemma appended_trans w w1 w2 n buf ok :
  (n <= length buf)%nat -> appended w (take n buf) true w1 -> appended w1 (drop n buf) ok w2 ->
  appended w buf ok w2.
Proof.
  intros Hn [I1 P1 S1 K1 F1 (k1 & L1 & E1 & W1 & O1)] [I2 P2 S2 K2 F2 (k2 & L2 & E2 & W2 & O2)].
  rewrite length_take in L1, O1. rewrite length_drop in L2, O2. specialize (O1 eq_refl).
  assert (k1 = n) as -> by lia. rewrite S1 in *. rewrite take_take, Nat.min_id in W1.
  split; [done|congruence|done| |lia|].
  - eapply keeps_trans; [done|]. eapply keeps_le; [|done]. lia.
  - exists (n + k2)%nat. split_and!; [lia|lia| |intros H; apply O2 in H; lia].
    intros i b Hi. destruct (decide (i < n)%nat) as [Hlt|Hge].
    + eapply (written_keeps _ _ _ _ (take n buf)); [|done|done|]; [rewrite length_take; lia|].
      rewrite lookup_take_lt in Hi by lia. by rewrite lookup_take_lt.
    + destruct (W2 (i - n)%nat b) as [fl Hc].
      * pose proof (lookup_lt_Some _ _ _ Hi) as Hlt. rewrite length_take in Hlt.
        rewrite lookup_take_lt in Hi by lia. rewrite lookup_take_lt by lia.
        rewrite lookup_drop. by replace (n + (i - n))%nat with i by lia.
      * exists fl. rewrite <- Hc. f_equal. lia.
Qed.

Lemma write_chunk_ok w buf (next : M anyhow PS unit) Q :
  dur_inv w -> ps_pending w = false -> cur_off w + Z.of_nat (length buf) <= ps_wal_seg_size w ->
  ps_write_lsn w + Z.of_nat (length buf) <= u64_max ->
  (forall w', appended w buf true w' -> wp next Q w') ->
  (forall e w', appended w buf false w' -> Q (Err e) w') ->
  wp (flushed ← write_in_segment (cur_seg w) (cur_off w) buf;
      lsn ← gets ps_write_lsn;
      lsn ← unwrap (lsn_add lsn (Z.of_nat (length buf)));
      _ ← modify (set_write_lsn lsn);
      _ ← (if flushed : bool then modify (fun w => set_flush_lsn (ps_write_lsn w) w) else mret tt);
      next) Q w.
Proof.
  intros Hw Hp Hfit Hmax Hok Herr. wp_step. eapply wp_mono; [by apply write_in_segment_ok|].
  intros [[]|e|] w1 Ho; [| | |done].
  3: { destruct Ho as [Ho Hn]. apply Herr, appended_nothing; [by eapply failed_write_inv|apply Ho|apply Ho]. }
  - destruct Ho as (Hlen & Hwr & Hn & Hwritten & Hclean). pose proof (wr_same _ _ _ Hwr) as HS.
    wp_step. wp_step. wp_step. unfold unwrap, lsn_add.
    rewrite (proj1 (proj2 (proj2 HS))), decide_True by done. do 5 wp_step. apply Hok.
    split; [apply advance_full; try done; lia|apply HS|apply HS|apply Hwr| |].
    + simpl. pose proof (di_order w Hw). lia.
    + exists (length buf). rewrite take_ge by lia. by split_and!.
  - destruct Ho as (Hlen & Hwr & (p & Hf & Hpo) & Hpart & Hwritten). pose proof (wr_same _ _ _ Hwr) as HS.
    wp_step. wp_step. wp_step. unfold unwrap, lsn_add.
    rewrite (proj1 (proj2 (proj2 HS))), decide_True by done. do 5 wp_step. apply Hok.
    split; [by eapply advance_partial|apply HS|apply HS|apply Hwr| |].
    + simpl. destruct HS as (_ & _ & _ & _ & -> & _). lia.
    + exists (length buf). rewrite take_ge by lia. by split_and!.
Qed.

Lemma appended_nil w : dur_inv w -> appended w [] true w.
Proof.
  intros Hw. split; [done..|apply keeps_refl|lia|]. exists 0%nat.
  split_and!; [done|simpl; lia|by intros i b Hi|done].
Qed.

Lemma write_loop_ok fuel buf w :
  (length buf <= fuel)%nat -> dur_inv w -> ps_pending w = false ->
  ps_write_lsn w + Z.of_nat (length buf) <= u64_max ->
  wp (write_loop fuel buf) (fun o w' =>
    o <> Panic /\ appended w buf (match o with Ok _ => true | _ => false end) w') w.
Proof.
  revert buf w. induction fuel as [|fuel IH]; intros buf w Hfuel Hw Hp Hmax.
  { destruct buf; [|simpl in Hfuel; lia]. split; [done|by apply appended_nil]. }
  destruct buf as [|b buf']; [split; [done|by apply appended_nil]|].
  cbn [write_loop]. set (buf := b :: buf') in *.
  assert (0 < length buf)%nat as Hpos by (simpl; lia). clearbody buf. wp_step. wp_step.
  set (n := if decide _ then _ else _). pose proof (di_seg w Hw) as Hseg.
  pose proof (segment_bound _ Hseg (ps_write_lsn w)) as Hb.
  assert (0 < n <= Z.of_nat (length buf) /\ cur_off w + n <= ps_wal_seg_size w) as [Hn Hfit].
  { subst n. unfold cur_off. case_decide; lia. }
  assert (Z.of_nat (length (take (Z.to_nat n) buf)) = n) as Hlen by (rewrite length_take; lia).
  pose proof (write_chunk_ok w (take (Z.to_nat n) buf)) as Hchunk. rewrite Hlen in Hchunk.
  apply Hchunk; [done|done|done|lia| |].
  - intros w' Ha. destruct (ap_written _ _ _ _ Ha) as (k & _ & Hk & _ & Ek). specialize (Ek eq_refl).
    eapply wp_mono; [apply IH|].
    + rewrite length_drop. lia.
    + apply Ha.
    + by rewrite (ap_pending _ _ _ _ Ha).
    + rewrite length_drop. rewrite <- Ek in Hlen. lia.
    + intros o w'' [Ho Ha']. split; [done|]. eapply appended_trans; [|done|done]. lia.
  - intros e w' Ha. split; [done|]. destruct Ha as [I1 P1 S1 K1 F1 (k1 & L1 & E1 & W1 & O1)].
    split; [done..|]. exists k1. rewrite length_take in L1. rewrite take_take, Nat.min_l in W1 by lia.
    split_and!; [lia|done|done|done].
Qed.

(** Decoding changes the decoder and the record LSNs only. *)
Definition same_store w w' : Prop :=
  ps_no_sync w' = ps_no_sync w /\ ps_wal_seg_size w' = ps_wal_seg_size w
  /\ ps_write_lsn w' = ps_write_lsn w /\ ps_flush_lsn w' = ps_flush_lsn w
  /\ ps_file w' = ps_file w /\ ps_pending w' = ps_pending w /\ ps_disk w' = ps_disk w.

Lemma dur_inv_same_store w w' : same_store w w' -> dur_inv w -> dur_inv w'.
Proof.
  intros (S1 & S2 & S3 & S4 & S5 & S6 & S7) []. split; rewrite ?S1, ?S2, ?S3, ?S4, ?S5, ?S6, ?S7; done.
Qed.

Lemma appended_same_store w buf ok w1 w2 : same_store w1 w2 -> appended w buf ok w1 -> appended w buf ok w2.
Proof.
  intros HS [I1 P1 E1 K1 F1 W1]. pose proof (dur_inv_same_store _ _ HS I1).
  destruct HS as (S1 & S2 & S3 & S4 & S5 & S6 & S7).
  split; rewrite ?S1, ?S2, ?S3, ?S4, ?S5, ?S6, ?S7; done.
Qed.

Lemma appended_weaken w buf ok w' : appended w buf ok w' -> appended w buf false w'.
Proof. intros [I1 P1 E1 K1 F1 (k & ? & ? & ? & _)]. split; try done. by exists k. Qed.

Lemma decode_loop_same_store fuel w0 w :
  same_store w0 w -> wp (decode_loop fuel) (fun _ w' => same_store w0 w') w.
Proof.
  revert w. induction fuel as [|fuel IH]; intros w Hw; [done|]. cbn [decode_loop].
  wp_step. apply wp_zoom, wp_intro. intros [[[lsn rec]|]|e|] d' _; [|done..].
  wp_step. wp_step. by apply IH.
Qed.

Lemma ps_write_wal_ok startpos buf w :
  lsn_inv w -> dur_inv w -> startpos + Z.of_nat (length buf) <= u64_max ->
  wp (ps_write_wal startpos buf) (fun o w' =>
    (o = Ok tt -> ps_write_lsn w = startpos)
    /\ appended w buf (match o with Ok _ => true | _ => false end) w') w.
Proof.
  intros Hl Hw Hmax.
  assert (appended w buf false w) as H0 by (apply appended_nothing; [done|done|apply keeps_refl]).
  unfold ps_write_wal. wp_step. wp_step.
  wp_step; [by wp_step|]. wp_step; [by wp_step|]. wp_step; [by wp_step|].
  destruct (writes_at_end w startpos) as [_ Hstart]; [done..|].
  unfold write_exact. wp_step. wp_step. wp_step. rewrite decide_False by congruence. wp_step. wp_step.
  eapply wp_mono; [apply write_loop_ok; [done|done|done|lia]|].
  intros o w1 [Ho Ha]. destruct o as [[]|e|]; [|by split|done].
  assert (same_store w1 w1) as Hs by done.
  do 8 wp_step.
  eapply wp_mono; [apply (decode_loop_same_store _ w1)|].
  { repeat case_decide; done. }
  intros o w2 Hs2. split; [done|]. apply (appended_same_store _ _ _ w1); [done|].
  destruct o; [done|by eapply appended_weaken..].
Qed.

(** *** Flushing *)

Lemma ps_flush_wal_ok w :
  dur_inv w ->
  wp ps_flush_wal (fun o w' =>
    o <> Panic /\ dur_inv w' /\ ps_write_lsn w' = ps_write_lsn w /\ ps_pending w' = ps_pending w
    /\ ps_flush_lsn w <= ps_flush_lsn w'
    /\ (forall lim, keeps (ps_wal_seg_size w) lim (ps_disk w) (ps_disk w'))
    /\ (o = Ok tt -> ps_flush_record_lsn w' = ps_write_record_lsn w)) w.
Proof.
  intros Hw. pose proof Hw as [W1 W2 W3 W4 W5 W6 W7 W8].
  unfold ps_flush_wal, take_file, fdatasync_file, fsync_name. do 3 wp_step.
  { wp_step. split_and!; [done..|lia|intros; apply keeps_refl|done]. }
  do 5 wp_step. destruct (ps_file w) as [[s p]|] eqn:Ef.
  2: { wp_step. split_and!; [done| |done|done|simpl; lia|intros; apply keeps_refl|done]. by split. }
  do 4 wp_step. simpl. rewrite W1. apply wp_zoom, wp_sys; intros.
  2: { split_and!; [done| |done|done|simpl; lia|intros; by apply keeps_files|done].
       split; simpl; try done; destruct W3; by split. }
  destruct (W4 s p eq_refl) as (Hs & Hp & [f Hf]). simpl.
  set (d1 := {| full := full (ps_disk w); disk_faults := r |}).
  assert (disk_ok d1) as Hd1 by (destruct W3; by split).
  assert (lookup_name (s, true) d1 = Some f) as Hlk by done.
  destruct (files_alter (map_cells sync_cells) _ _ _ Hd1 Hlk) as (_ & Hd2 & Hn2); [done|].
  destruct (sync_file (ps_wal_seg_size w) d1 _ f Hd1 Hlk) as (Hk & Hdi). do 3 wp_step.
  assert (forall pos, pos < ps_write_lsn w -> ~ dirty (ps_wal_seg_size w)
    (alter_file (map_cells sync_cells) (s, true) d1) pos) as Hclean.
  { intros pos Hpos Hd'. apply Hdi in Hd' as [Hd' Hne]. apply W5 in Hd'; [|done]. simpl in Hne. congruence. }
  split_and!; [done| |done|done|done|exact Hk|done]. split; simpl; try done.
  - intros s' p' [= <- <-]. split_and!; [done|done|]. apply (Hn2 (s, true)). simpl. eauto.
  - intros pos Hpos Hd'. by apply Hclean in Hd'.
  - intros Hpe. destruct (W8 Hpe) as [Hfb Hfi]. split; [done|]. eapply files_upto_alter; [done|done|done|apply length_map|done].
Qed.

(** *** Truncation *)

(** The disk at any point of a truncation to [end_pos]. *)
Record truncating w (end_pos : Lsn) (d : Disk) : Prop := {
  tr_disk : disk_ok d;
  tr_keeps : keeps (ps_wal_seg_size w) end_pos (ps_disk w) d;
  tr_dirty : forall pos, pos < end_pos -> dirty (ps_wal_seg_size w) d pos ->
    segment_number pos (ps_wal_seg_size w) = segment_number end_pos (ps_wal_seg_size w)
}.

Lemma truncating_step w end_pos d d' :
  truncating w end_pos d -> disk_ok d' -> keeps (ps_wal_seg_size w) end_pos d d' ->
  (forall pos, pos < end_pos -> dirty (ps_wal_seg_size w) d' pos -> dirty (ps_wal_seg_size w) d pos
    \/ segment_number pos (ps_wal_seg_size w) = segment_number end_pos (ps_wal_seg_size w)) ->
  truncating w end_pos d'.
Proof.
  intros [Hd Hk Hdi] Hd' Hk' Hdi'. split; [done|by eapply keeps_trans|].
  intros pos Hpos Hdirty. destruct (Hdi' pos Hpos Hdirty); auto.
Qed.

Lemma truncating_same_dir w end_pos d d' :
  truncating w end_pos d -> same_dir d d' -> no_misread_errors d' ->
  truncating w end_pos d'.
Proof.
  intros Ht [E1 E2] Hu. assert (files d' = files d) as E by (unfold files; by rewrite E1, E2).
  eapply truncating_step; [done|eapply same_dir_ok; [apply Ht|done|done]|by apply keeps_files|].
  intros pos _. rewrite (dirty_files _ d) by done. by left.
Qed.

(** A change of one existing file: the positions below [end_pos] stay. *)
Lemma truncating_alter w end_pos d g n f :
  truncating w end_pos d -> lookup_name n d = Some f -> (linked f = true -> linked (g f) = true) ->
  keeps (ps_wal_seg_size w) end_pos d (alter_file g n d) ->
  (forall pos, pos < end_pos -> dirty (ps_wal_seg_size w) (alter_file g n d) pos ->
    dirty (ps_wal_seg_size w) d pos
    \/ segment_number pos (ps_wal_seg_size w) = segment_number end_pos (ps_wal_seg_size w)) ->
  truncating w end_pos (alter_file g n d).
Proof.
  intros Ht Hf Hg Hk Hdi. destruct (files_alter g n d f (tr_disk _ _ _ Ht) Hf Hg) as (_ & Hd & _).
  by eapply truncating_step.
Qed.

Lemma truncating_start w end_pos :
  dur_inv w ->
  (end_pos <= ps_write_lsn w \/ forall pos, pos < end_pos -> dirty (ps_wal_seg_size w) (ps_disk w) pos ->
     segment_number pos (ps_wal_seg_size w) = segment_number end_pos (ps_wal_seg_size w)) ->
  truncating w end_pos (ps_disk w).
Proof.
  intros Hw Hgap. split; [apply Hw|apply keeps_refl|]. intros pos Hpos Hd.
  destruct Hgap as [Hle|Hgap]; [|auto]. pose proof (di_dirty w Hw pos) as E.
  pose proof (segment_number_mono _ (di_seg w Hw) pos end_pos).
  pose proof (segment_number_mono _ (di_seg w Hw) end_pos (ps_write_lsn w)).
  specialize (E ltac:(lia) Hd). lia.
Qed.

(** The fields during a truncation. *)
Definition truncation_state w (end_pos : Lsn) (pending : bool) (d : Disk) : PS :=
  set_ps w end_pos end_pos end_pos end_pos (ps_decoder w) None pending d.

Lemma truncating_inv w end_pos d :
  dur_inv w -> truncating w end_pos d -> dur_inv (truncation_state w end_pos true d).
Proof.
  intros [W1 W2 W3 W4 W5 W6 W7 W8] [Hd Hk Hdi]. split; simpl; done.
Qed.

(** A truncation ends in a clean, partial, zero-filled segment. *)
Lemma truncated_inv w end_pos d :
  dur_inv w -> truncating w end_pos d ->
  (forall pos, segment_number pos (ps_wal_seg_size w) = segment_number end_pos (ps_wal_seg_size w) ->
     ~ dirty (ps_wal_seg_size w) d pos) ->
  full_below (segment_number end_pos (ps_wal_seg_size w)) d ->
  files_upto (ps_wal_seg_size w) (segment_number end_pos (ps_wal_seg_size w)) d ->
  dur_inv (truncation_state w end_pos false d).
Proof.
  intros [W1 W2 W3 W4 W5 W6 W7 W8] [Hd Hk Hdi] Hclean Hf Hfi. split; simpl; try done.
  intros _ pos Hpos Hd'. eapply Hclean; [|done]. auto.
Qed.

(** What a truncation leaves, by outcome. *)
Record truncated w (end_pos : Lsn) (ok : bool) w' : Prop := {
  td_inv : dur_inv w';
  td_keeps : keeps (ps_wal_seg_size w) end_pos (ps_disk w) (ps_disk w');
  td_state : w' = truncation_state w end_pos (negb ok) (ps_disk w');
  td_zeros : ok = true -> forall pos b fl, end_pos <= pos ->
    cell_of (ps_wal_seg_size w) (ps_disk w') pos = Some (b, fl) -> b = Byte.x00
}.

Lemma truncated_err w end_pos w' :
  dur_inv w -> truncating w end_pos (ps_disk w') ->
  w' = truncation_state w end_pos true (ps_disk w') -> truncated w end_pos false w'.
Proof. intros Hw Ht E. split; [rewrite E; by apply truncating_inv|apply Ht|done|done]. Qed.

Lemma truncating_set_len w end_pos d n f k :
  dur_inv w -> truncating w end_pos d -> lookup_name n d = Some f ->
  n.1 = segment_number end_pos (ps_wal_seg_size w) ->
  segment_offset end_pos (ps_wal_seg_size w) <= Z.of_nat k ->
  truncating w end_pos (alter_file (map_cells (set_len k)) n d).
Proof.
  intros Hw Ht Hf Hn Hk.
  destruct (set_len_cells _ (di_seg w Hw) d n f k end_pos (tr_disk _ _ _ Ht) Hf) as [Hkp Hdi]; [done..|].
  eapply truncating_alter; [done|done|done|done|]. intros pos _ H. rewrite <- Hn. auto.
Qed.

Lemma truncating_sync w end_pos d n f :
  truncating w end_pos d -> lookup_name n d = Some f ->
  truncating w end_pos (alter_file (map_cells sync_cells) n d).
Proof.
  intros Ht Hf. destruct (sync_file (ps_wal_seg_size w) d n f (tr_disk _ _ _ Ht) Hf) as [Hk Hdi].
  eapply truncating_alter; [done|done|done|apply Hk|]. intros pos _ H. left. by apply Hdi.
Qed.

(** The file of segment [s] after the three changes: cut, extended, synced. *)
Lemma truncated_file_cells seg off l i c :
  (off <= seg)%nat -> (off <= i)%nat -> sync_cells (set_len seg (set_len off l)) !! i = Some c -> c.1 = Byte.x00.
Proof.
  intros Hle Hi. unfold sync_cells. rewrite list_lookup_fmap.
  destruct (set_len seg (set_len off l) !! i) eqn:E; [|done]. intros [= <-]. simpl.
  eapply (set_len_zeros seg _ i); [|done]. by rewrite length_set_len.
Qed.

Lemma truncated_ok w end_pos d l :
  dur_inv w -> truncating w end_pos d ->
  let seg := ps_wal_seg_size w in let s := segment_number end_pos seg in
  (forall pos, segment_number pos seg = s -> ~ dirty seg d pos) ->
  (forall s' f, files d !! s' = Some f -> s' <= s) -> full d !! s = None ->
  (forall f, files d !! s = Some f -> cells f =
     sync_cells (set_len (Z.to_nat seg) (set_len (Z.to_nat (segment_offset end_pos seg)) l))) ->
  truncated w end_pos true (truncation_state w end_pos false d).
Proof.
  intros Hw Ht seg s Hclean Hupto Hfull Hfile. pose proof (di_seg w Hw) as Hseg.
  pose proof (segment_bound _ Hseg end_pos) as Hoff. split; [|apply Ht|done|].
  - apply truncated_inv; [done|done|exact Hclean| |].
    + intros s' [f Hs']. destruct (decide (s' = s)) as [->|]; [unfold s, seg in *; congruence|].
      assert (s' <= s); [|unfold s, seg in *; lia]. apply (Hupto s' f), lookup_union_Some_l, Hs'.
    + intros s' f Hs'. split; [by eapply Hupto|]. intros ->. rewrite (Hfile f Hs').
      unfold sync_cells. rewrite length_map, length_set_len. fold seg in Hseg. lia.
  - intros _ pos b fl Hpos Hc. simpl in Hc. unfold cell_of in Hc.
    destruct (files d !! segment_number pos (ps_wal_seg_size w)) as [f|] eqn:Hff; simpl in Hc; [|done].
    assert (segment_number pos seg = s) as Es.
    { apply Hupto in Hff. pose proof (segment_number_mono _ Hseg end_pos pos Hpos).
      unfold s, seg in *. lia. }
    fold seg in Hff, Hc. rewrite Es in Hff. rewrite (Hfile f Hff) in Hc.
    apply (truncated_file_cells (Z.to_nat seg) (Z.to_nat (segment_offset end_pos seg)) l
             (Z.to_nat (segment_offset pos seg)) (b, fl)); [| |done]; fold seg in Hoff; [lia|].
    pose proof (segment_split _ Hseg pos). pose proof (segment_split _ Hseg end_pos).
    fold seg in H, H0. unfold s in Es. rewrite Es in H. pose proof (segment_bound _ Hseg pos). lia.
Qed.

(** The last steps: the file is opened, cut, extended with zeros and synced. *)
Lemma truncate_file_ok w end_pos d1 :
  dur_inv w -> truncating w end_pos d1 ->
  (forall n, segment_number end_pos (ps_wal_seg_size w) < n.1 -> lookup_name n d1 = None) ->
  wp (n ← on_disk (open_or_create (ps_no_sync w) (ps_wal_seg_size w)
                     (segment_number end_pos (ps_wal_seg_size w)));
      _ ← on_disk (sys "set_len failed"%string
             (alter_file (map_cells (set_len (Z.to_nat (segment_offset end_pos (ps_wal_seg_size w))))) n)
             (fun _ d => d));
      _ ← on_disk (sys "set_len failed"%string
             (alter_file (map_cells (set_len (Z.to_nat (ps_wal_seg_size w)))) n) (fun _ d => d));
      _ ← on_disk (fsync_name (ps_no_sync w) n);
      _ ← (if negb n.2 then
             on_disk (sys "rename failed"%string
               (rename_to_partial (segment_number end_pos (ps_wal_seg_size w))) (fun _ d => d))
           else mret tt);
      modify (set_pending false))
    (fun o w' => o <> Panic /\ truncated w end_pos (match o with Ok _ => true | _ => false end) w')
    (truncation_state w end_pos true d1).
Proof.
  intros Hw Ht Hnone. pose proof (di_seg w Hw) as Hseg. rewrite (di_sync w Hw).
  set (seg := ps_wal_seg_size w) in *. set (s := segment_number end_pos seg) in *.
  pose proof (segment_bound seg Hseg end_pos) as Hoff.
  wp_step. apply wp_zoom. eapply wp_mono; [apply open_or_create_ok, Ht|].
  intros o d2 [Hd2 Ho]. change (set_disk d2 _) with (truncation_state w end_pos true d2).
  destruct o as [n|e|]; [| |done]; cycle 1.
  { split; [done|]. apply truncated_err; [done| |done]. eapply truncating_same_dir; [done|done|apply Hd2]. }
  destruct Ho as (Hn1 & [f Hf] & Hdir & Hn2). simpl in Hdir, Hn2.
  assert (truncating w end_pos d2) as Ht2.
  { destruct Hdir as [Hdir|Hdir]; [eapply truncating_same_dir; [done|done|apply Hd2]|].
    destruct (new_segment_facts _ _ _ _ (tr_disk _ _ _ Ht) Hdir) as (_ & Hk & Hdi); [apply Hd2|].
    eapply truncating_step; [done|done|apply Hk|]. intros pos _ ?. left. by apply Hdi. }
  assert (forall n', s < n'.1 -> lookup_name n' d2 = None) as Hupto.
  { intros n' Hlt. specialize (Hnone n' Hlt). unfold lookup_name in *.
    destruct Hdir as [[-> ->]|(_ & -> & ->)]; [done|]. rewrite lookup_insert_ne by lia. done. }
  assert (n.2 = true -> full d2 !! s = None) as Hfull.
  { intros E. destruct (full d2 !! s) eqn:E'; [|done].
    assert (full d2 = full d1) as Ef by (destruct Hdir as [[-> _]|(_ & -> & _)]; done).
    rewrite <- Ef, E' in Hn2. destruct Hn2 as [_ Hn2]. rewrite Hn2 in E; [done|eauto]. }
  clear Hdir Hn2 Hnone Ht d1. wp_step. apply wp_zoom, wp_sys; intros.
  2: { split; [done|]. apply truncated_err; [done| |done]. eapply truncating_same_dir; [done|done|apply Hd2]. }
  set (d3 := set_faults r (ps_disk (truncation_state w end_pos true d2))).
  assert (truncating w end_pos d3) as Ht3 by (eapply truncating_same_dir; [done|done|apply Hd2]).
  assert (lookup_name n d3 = Some f) as Hf3 by done.
  set (off := Z.to_nat (segment_offset end_pos seg)).
  set (d4 := alter_file (map_cells (set_len off)) n d3).
  assert (truncating w end_pos d4) as Ht4 by (eapply truncating_set_len; [done..|fold seg; lia]).
  wp_step. apply wp_zoom, wp_sys; intros.
  2: { split; [done|]. apply truncated_err; [done| |done]. eapply truncating_same_dir; [done|done|apply Ht4]. }
  set (d5 := set_faults r0 (ps_disk (set_disk d4 (truncation_state w end_pos true d2)))).
  assert (truncating w end_pos d5) as Ht5 by (eapply truncating_same_dir; [done|done|apply Ht4]).
  assert (lookup_name n d5 = Some (map_cells (set_len off) f)) as Hf5.
  { change (lookup_name n d5) with (lookup_name n d4). subst d4. by rewrite alter_file_lookup, decide_True, Hf3. }
  set (d6 := alter_file (map_cells (set_len (Z.to_nat seg))) n d5).
  assert (truncating w end_pos d6) as Ht6 by (eapply truncating_set_len; [done..|fold seg; lia]).
  wp_step. apply wp_zoom. unfold fsync_name. apply wp_sys; intros.
  2: { split; [done|]. apply truncated_err; [done| |done]. eapply truncating_same_dir; [done|done|apply Ht6]. }
  simpl ps_disk. set (d7 := set_faults r1 d6).
  assert (truncating w end_pos d7) as Ht7 by (eapply truncating_same_dir; [done|done|apply Ht6]).
  assert (lookup_name n d7 = Some (map_cells (set_len (Z.to_nat seg)) (map_cells (set_len off) f))) as Hf7.
  { change (lookup_name n d7) with (lookup_name n d6). subst d6. by rewrite alter_file_lookup, decide_True, Hf5. }
  set (d8 := alter_file (map_cells sync_cells) n d7).
  assert (truncating w end_pos d8) as Ht8 by by eapply truncating_sync.
  destruct (sync_file seg d7 n _ (tr_disk _ _ _ Ht7) Hf7) as [_ Hdi]. fold d8 in Hdi.
  assert (forall n', n' <> n -> lookup_name n' d8 = lookup_name n' d2) as Hother.
  { intros n' Hne. subst d8. rewrite alter_file_lookup, decide_False by done.
    change (lookup_name n' d7) with (lookup_name n' d6). subst d6. rewrite alter_file_lookup, decide_False by done.
    change (lookup_name n' d5) with (lookup_name n' d4). subst d4. by rewrite alter_file_lookup, decide_False. }
  assert (forall s' f', files d8 !! s' = Some f' -> s' <= s) as Hle.
  { intros s' f' [p Hs']%files_lookup_name. destruct (Z.le_gt_cases s' s); [done|].
    rewrite Hother in Hs' by (intros <-; simpl in *; lia). by rewrite Hupto in Hs' by (simpl; lia). }
  assert (forall f', files d8 !! s = Some f' ->
    cells f' = sync_cells (set_len (Z.to_nat seg) (set_len off (cells f)))) as Hfile.
  { intros f' Hs'. assert (files d8 !! n.1 = Some (map_cells sync_cells
      (map_cells (set_len (Z.to_nat seg)) (map_cells (set_len off) f)))) as E.
    { apply lookup_name_files; [apply Ht8|]. subst d8. by rewrite alter_file_lookup, decide_True, Hf7. }
    rewrite Hn1, Hs' in E. by injection E as ->. }
  assert (forall pos, segment_number pos seg = s -> ~ dirty seg d8 pos) as Hclean.
  { intros pos Hpos Hd. apply Hdi in Hd as [_ Hd]. congruence. }
  assert (n = (s, n.2)) as Hns by (destruct n; simpl in *; by subst).
  wp_step. destruct n.2 eqn:Hp; cbn [negb].
  - wp_step. wp_step. split; [done|].
    apply (truncated_ok w end_pos d8 (cells f)); [done|done|exact Hclean|done| |done].
    change (lookup_name (s, false) d8 = None). rewrite Hother by congruence. by apply Hfull.
  - apply wp_zoom, wp_sys; intros.
    2: { split; [done|]. apply truncated_err; [done| |done]. eapply truncating_same_dir; [done|done|apply Ht8]. }
    simpl ps_disk. set (d9 := set_faults r2 d8).
    assert (disk_ok d9) as Hd9 by (destruct (tr_disk _ _ _ Ht8); by split).
    destruct (files_rename_to_partial s d9 Hd9) as (E & Hok & Ef). wp_step. split; [done|].
    apply (truncated_ok w end_pos (rename_to_partial s d9) (cells f)); [done| |..].
    + eapply truncating_step; [exact Ht8|done|by apply keeps_files|].
      intros pos _. rewrite (dirty_files _ d8) by done. by left.
    + intros pos Hpos. rewrite (dirty_files _ d8) by done. by apply Hclean.
    + intros s' f'. rewrite E. apply Hle.
    + fold seg. fold s. rewrite Ef. apply lookup_delete_eq.
    + intros f'. rewrite E. apply Hfile.
Qed.

(** The outcomes of [truncate_wal]: nothing done, done, or begun. *)
Definition truncate_post w (end_pos : Lsn) (o : outcome anyhow unit) w' : Prop :=
  o <> Panic /\ dur_inv w' /\ keeps (ps_wal_seg_size w) end_pos (ps_disk w) (ps_disk w') /\
  match o with
  | Ok _ => (w' = w /\ end_pos = ps_write_lsn w /\ ps_pending w = false) \/ truncated w end_pos true w'
  | _ => w' = w \/ truncated w end_pos false w'
  end.

Lemma truncate_post_err w end_pos e w' :
  dur_inv w -> truncating w end_pos (ps_disk w') ->
  w' = truncation_state w end_pos true (ps_disk w') -> truncate_post w end_pos (Err e) w'.
Proof.
  intros Hw Ht E. pose proof (truncated_err w end_pos w' Hw Ht E) as H.
  split_and!; [done|apply H|apply H|by right].
Qed.

Lemma ps_truncate_wal_ok end_pos w :
  dur_inv w ->
  (end_pos <= ps_write_lsn w \/ forall pos, pos < end_pos -> dirty (ps_wal_seg_size w) (ps_disk w) pos ->
     segment_number pos (ps_wal_seg_size w) = segment_number end_pos (ps_wal_seg_size w)) ->
  wp (ps_truncate_wal end_pos) (truncate_post w end_pos) w.
Proof.
  intros Hw Hgap. pose proof (truncating_start w end_pos Hw Hgap) as Ht.
  unfold ps_truncate_wal, take_file, fdatasync_file. do 2 wp_step.
  wp_step; [wp_step; split_and!; [done|done|apply keeps_refl|by left]|].
  wp_step.
  { wp_step. rewrite !andb_true_iff, !bool_decide_eq_true in E0.
    split_and!; [done|done|apply keeps_refl|left]. rewrite negb_true_iff in E0. split_and!; tauto. }
  do 11 wp_step. simpl ps_file.
  (** The open file is synced and closed. *)
  eapply (wp_mono _ (fun o w' => o <> Panic /\
    truncating w end_pos (ps_disk w') /\ w' = truncation_state w end_pos true (ps_disk w'))).
  { destruct (ps_file w) as [[s p]|] eqn:Ef; [|wp_step; split; [done|split; [exact Ht|done]]].
    do 2 wp_step. simpl ps_no_sync. rewrite (di_sync w Hw). apply wp_zoom. unfold fsync_name.
    destruct (di_file w Hw s p Ef) as (_ & _ & [f Hf]).
    wp_step; (split; [done|]); (split; [|done]); simpl;
      assert (truncating w end_pos (set_faults r (ps_disk w))) as Ht'
        by (eapply truncating_same_dir; [done|done|apply Hw]); [|done].
    exact (truncating_sync _ _ (set_faults r (ps_disk w)) (s, true) f Ht' Hf). }
  intros o w1 (Ho & Ht1 & E1). destruct o as [u|e|]; [|by apply truncate_post_err|done].
  wp_step. apply wp_zoom. eapply wp_mono; [apply remove_segments_ok, Ht1|].
  intros o d2 (Ho2 & Hd2 & Hpr & Hgone).
  assert (truncating w end_pos d2) as Ht2.
  { eapply truncating_step; [exact Ht1|done| |].
    - intros pos b fl Hpos Hc. exists fl. split; [|done]. rewrite <- Hc.
      apply (pruned_cells _ (fun x => bool_decide (segment_number end_pos (ps_wal_seg_size w) < x)));
        [apply Ht1|done|done|]. apply bool_decide_eq_false.
      pose proof (segment_number_mono _ (di_seg w Hw) pos end_pos). lia.
    - intros pos _ Hd. left. eapply pruned_dirty; [apply Ht1|done|done|done]. }
  assert (set_disk d2 w1 = truncation_state w end_pos true d2) as E2 by (by rewrite E1).
  rewrite E2. destruct o as [u2|e|]; [|by apply truncate_post_err|done].
  eapply wp_mono; [apply truncate_file_ok; [done|done|]|].
  { intros n Hn. apply Hgone; [by destruct u2|]. by apply bool_decide_eq_true. }
  intros o w' [Ho' Htd]. split_and!; [done|apply Htd|apply Htd|]. destruct o; by right.
Qed.

(** *** Opening *)

(** After a start everything on the disk is durable ([fsync] of the whole data
    directory precedes the opening of timelines). *)
Definition clean_disk (d : Disk) : Prop :=
  disk_ok d /\ forall s f, files d !! s = Some f -> Forall (fun c => c.2 = true) (cells f).

Lemma clean_disk_not_dirty seg d pos : clean_disk d -> ~ dirty seg d pos.
Proof.
  intros [_ Hc] [b Hb]. unfold cell_of in Hb.
  destruct (files d !! segment_number pos seg) as [f|] eqn:E; simpl in Hb; [|done].
  by pose proof (Forall_lookup_1 _ _ _ _ (Hc _ _ E) Hb).
Qed.

Lemma physical_storage_new_inv disk st w :
  0 < wal_seg_size (p_server st) -> clean_disk disk ->
  physical_storage_new disk st false = Ok w -> dur_inv w.
Proof.
  unfold physical_storage_new. intros Hseg Hc. destruct (if decide _ then _ else _) as [l|e|]; [|done..].
  cbn [mbind outcome_bind]. case_decide; [done|]. destruct (pg_major_try_from _) as [v|]; [|done].
  intros [= <-]. split; simpl; try done; [apply Hc|].
  intros pos _ Hd. by apply clean_disk_not_dirty in Hd.
Qed.

(** *** Runs *)

Inductive ps_op := OpWrite (startpos : Lsn) (buf : list byte) | OpFlush | OpTruncate (end_pos : Lsn).

Definition run_op (op : ps_op) : M anyhow PS unit :=
  match op with
  | OpWrite startpos buf => ps_write_wal startpos buf
  | OpFlush => ps_flush_wal
  | OpTruncate end_pos => ps_truncate_wal end_pos
  end.

(** Operations at valid positions; truncations are not below [lim], and do not
    jump over unflushed bytes of an earlier segment. *)
Definition op_ok (lim : Lsn) w (op : ps_op) : Prop :=
  match op with
  | OpWrite startpos buf => startpos + Z.of_nat (length buf) <= LSN_MAX - 7
  | OpFlush => True
  | OpTruncate end_pos =>
      0 < end_pos /\ lim <= end_pos /\
      (end_pos <= ps_write_lsn w \/
       forall pos, pos < end_pos -> dirty (ps_wal_seg_size w) (ps_disk w) pos ->
         segment_number pos (ps_wal_seg_size w) = segment_number end_pos (ps_wal_seg_size w))
  end.

Inductive ps_run (lim : Lsn) : PS -> PS -> Prop :=
| ps_run_nil w : ps_run lim w w
| ps_run_op w op o w' w'' :
    op_ok lim w op -> run_op op w = (o, w') -> ps_run lim w' w'' -> ps_run lim w w''.

Lemma run_op_ok lim w op :
  lsn_inv w -> dur_inv w -> lim <= ps_write_lsn w -> op_ok lim w op ->
  wp (run_op op) (fun _ w' =>
    lsn_inv w' /\ dur_inv w' /\ lim <= ps_write_lsn w'
    /\ ps_wal_seg_size w' = ps_wal_seg_size w
    /\ keeps (ps_wal_seg_size w) lim (ps_disk w) (ps_disk w')) w.
Proof.
  intros Hl Hw Hlim Hop.
  assert (forall w', lsn_inv w' -> ps_wal_seg_size w' = ps_wal_seg_size w) as Hseg.
  { intros w' Hl'. by rewrite (li_seg _ Hl), (li_seg _ Hl'). }
  destruct op as [startpos buf| |end_pos]; cbn [run_op op_ok] in *.
  - pose proof (ps_write_wal_positions startpos buf w Hop Hl) as H1.
    pose proof (ps_write_wal_ok startpos buf w Hl Hw ltac:(unfold LSN_MAX in *; lia)) as H2.
    unfold wp in *. destruct H1 as [Hl' _], H2 as [_ [I1 P1 E1 K1 F1 (k & _ & Hk & _)]].
    split_and!; [done|done|lia|by apply Hseg|]. by eapply keeps_le.
  - pose proof (ps_flush_wal_positions w Hl) as H1. pose proof (ps_flush_wal_ok w Hw) as H2.
    unfold wp in *. destruct H1 as [Hl' _], H2 as (_ & ? & E & _ & _ & Hk & _).
    split_and!; [done|done|by rewrite E|by apply Hseg|apply Hk].
  - destruct Hop as (Hpos & Hle & Hgap). pose proof (ps_truncate_wal_positions end_pos w Hpos Hl) as H1.
    pose proof (ps_truncate_wal_ok end_pos w Hw Hgap) as H2.
    unfold wp in *. destruct H1 as [Hl' _], H2 as (_ & ? & Hk & Hcase).
    split_and!; [done|done| |by apply Hseg|by eapply keeps_le].
    destruct (ps_truncate_wal end_pos w) as [[u|e|] w']; simpl in *;
      [destruct Hcase as [[-> _]|Ht]; [done|]|destruct Hcase as [->|Ht]; [done|]..];
      rewrite (td_state _ _ _ _ Ht); done.
Qed.

Lemma ps_run_keeps lim w w' :
  ps_run lim w w' -> lsn_inv w -> dur_inv w -> lim <= ps_write_lsn w ->
  lsn_inv w' /\ dur_inv w' /\ keeps (ps_wal_seg_size w) lim (ps_disk w) (ps_disk w').
Proof.
  induction 1 as [w|w op o w' w'' Hop E Hr IH]; intros Hl Hw Hlim.
  { split_and!; [done|done|apply keeps_refl]. }
  destruct (wp_elim _ _ _ _ _ (run_op_ok lim w op Hl Hw Hlim Hop) E) as (Hl' & Hw' & Hlim' & Es & Hk).
  destruct (IH Hl' Hw' Hlim') as (Hl'' & Hw'' & Hk'). rewrite Es in Hk'.
  split_and!; [done|done|by eapply keeps_trans].
Qed.

(** A crash keeps durable bytes. *)
Lemma crash_cell seg d d' pos b :
  disk_ok d -> crash_disk d d' -> cell_of seg d pos = Some (b, true) ->
  exists fl, cell_of seg d' pos = Some (b, fl).
Proof.
  intros Hd [Hc Hdisj] Hb. unfold cell_of in *.
  destruct (files d !! segment_number pos seg) as [f|] eqn:E; simpl in Hb; [|done].
  destruct (Hc (segment_number pos seg) f) as (g & Hg & Hfg); [|by eapply ok_linked|].
  { unfold files in E. apply lookup_union_Some_raw in E. tauto. }
  assert (files d' !! segment_number pos seg = Some g) as ->.
  { unfold files. destruct Hg; [by apply lookup_union_Some_l|by apply lookup_union_Some_r]. }
  by apply Hfg.
Qed.
End durability.

Abbreviation store_ok := (@dur_inv_of _ disk_wf).
Abbreviation dur_inv := (@dur_inv_of _ disk_ok).

(** ** Theorems *)

Section storage_properties.
Context {D : Type} {WD : WalDecoder D} {WDL : WalDecoderLaws D} {SG : SegmentGenerator}.
Abbreviation PS := (PhysicalStorage D).
Implicit Types w : PS.

(** C20: [write_wal] appends.  Whatever system calls fail, except the [open] of an
    existing segment and the removal of one whose creation failed, the bytes below the
    old [write_lsn] stay as they were; on success exactly [buf] follows them and
    [write_lsn] is at its end. *)
Theorem write_wal_appends startpos buf w :
  lsn_inv w -> store_ok w -> no_misread_errors (ps_disk w) -> startpos + Z.of_nat (length buf) <= LSN_MAX - 7 ->
  wp (ps_write_wal startpos buf) (fun o w' =>
    lsn_inv w' /\ store_ok w' /\ no_misread_errors (ps_disk w')
    /\ keeps (ps_wal_seg_size w) (ps_write_lsn w) (ps_disk w) (ps_disk w')
    /\ (o = Ok tt -> ps_write_lsn w = startpos
         /\ ps_write_lsn w' = startpos + Z.of_nat (length buf)
         /\ written (ps_wal_seg_size w) (ps_disk w') startpos buf)) w.
Proof.
  intros Hl Hst Hmis Hmax. pose proof (proj2 (dur_inv_iff w) (conj Hst Hmis)) as Hw.
  pose proof (ps_write_wal_positions startpos buf w Hmax Hl) as H1.
  pose proof (ps_write_wal_ok startpos buf w Hl Hw ltac:(unfold LSN_MAX in *; lia)) as H2.
  unfold wp in *. destruct H1 as [Hl' _], H2 as [Hs Ha]. pose proof Ha as [I1 _ _ K1 _ (k & _ & Hk & Hwr & Hok)].
  apply dur_inv_iff in I1 as [I1 I2].
  split_and!; [done|done|done|done|]. intros E. rewrite E in *. specialize (Hs eq_refl). specialize (Hok eq_refl).
  subst k. rewrite take_ge in Hwr by lia. rewrite Hs in *. split_and!; [done|done|done].
Qed.


End storage_properties.

(** ** An error that is misread

    The [open] of the [.partial] file of a segment fails once, and no other call
    does. *)

Definition no_errors (d : Disk) : Prop := Forall (fun f => f = None) (disk_faults d).

Lemma wp_sys_clear e ok fail (Q : outcome anyhow unit -> Disk -> Prop) d :
  no_errors d -> (forall r, Forall (fun f => f = None) r -> Q (Ok tt) (ok (set_faults r d))) -> wp (sys e ok fail) Q d.
Proof.
  intros Hd H. unfold wp, sys. cbn [faults Disk_faulty]. unfold no_errors in Hd.
  destruct Hd as [|f r -> Hr]; apply H; [constructor|done].
Qed.

(** The segment [s] has only a [.partial] file, with contents in [P]; the scripts are
    clear and [bad]. *)
Record partial_only (s : Z) (bad : list bool) (P : SegFile -> Prop) (d : Disk) : Prop := {
  po_errors : no_errors d;
  po_bad : unhandled d = bad;
  po_full : full d !! s = None;
  po_partial : exists f, partial d !! s = Some f /\ P f
}.

Lemma partial_only_faults s bad P d r :
  partial_only s bad P d -> Forall (fun f => f = None) r -> partial_only s bad P (set_faults r d).
Proof. intros [H1 H2 H3 H4] Hr. by split. Qed.

Lemma partial_only_alter s bad (P P' : SegFile -> Prop) g s' d :
  partial_only s bad P d -> (forall f, P f -> P' (g f)) -> (forall f, P f -> P' f) -> partial_only s bad P' (alter_file g (s', true) d).
Proof.
  intros [H1 H2 H3 (f & Hf & Hp)] Hg Hid. split; cbn; try done. destruct (decide (s' = s)) as [->|Hne].
  - exists (g f). split; [|by apply Hg]. by rewrite lookup_alter_eq, Hf.
  - exists f. split; [|by apply Hid]. by rewrite lookup_alter_ne.
Qed.

Lemma remove_names_partial s bad P names pred d :
  pred s = false -> partial_only s bad P d -> wp (remove_names names pred) (fun o d' => o = Ok tt /\ partial_only s bad P d') d.
Proof.
  intros Hpred. revert d. induction names as [|[n p] names IH]; intros d Hd; cbn [remove_names]; [wp_step; by split|].
  wp_step. apply wp_sys_clear; [apply Hd|]. intros r Hr. cbn [id]. pose proof (partial_only_faults _ _ _ _ _ Hd Hr) as Hd1.
  wp_step. cbn [fst]. destruct (pred n) eqn:En; [|wp_step; by apply IH].
  apply wp_sys_clear; [apply Hd1|]. intros r' Hr'. apply IH.
  pose proof (partial_only_faults _ _ _ _ _ Hd1 Hr') as [H1 H2 H3 (f & Hf & Hp)].
  assert (n <> s) as Hne by (intros ->; congruence).
  unfold remove_name. destruct p; cbn [snd fst]; (split; cbn; [done|done|..]); rewrite ?lookup_delete_ne by done; eauto.
Qed.

(** The segment is replaced by a new one. *)
Definition zeroed (seg : Z) (f : SegFile) : Prop := cells f = replicate (Z.to_nat seg) (Byte.x00, true).

Lemma open_or_create_misread seg s b bad d :
  partial_only s (b :: true :: bad) (fun _ => True) d ->
  wp (open_or_create false seg s) (fun o d' => o = Ok (s, true) /\ partial_only s bad (zeroed seg) d') d.
Proof.
  intros [H1 H2 H3 _]. unfold open_or_create, open_name. wp_step. wp_step.
  unfold wp at 1, unhandled_fault. cbn -[wp open_name]. rewrite H2. cbn -[wp]. wp_step. wp_step. wp_step.
  unfold lookup_name. cbn -[wp]. rewrite H3. rewrite bool_decide_false by (by intros []). rewrite andb_false_r.
  wp_step. wp_step. unfold wp at 1, unhandled_fault. cbn -[wp]. wp_step. wp_step. wp_step. cbn [negb andb].
  unfold sys_nop. wp_step. apply wp_sys_clear; [done|]. intros r1 Hr1. wp_step. apply wp_sys_clear; [done|]. intros r2 Hr2.
  wp_step. apply wp_catch. unfold rename_new_segment, sys_nop. wp_step. apply wp_sys_clear; [done|]. intros r3 Hr3.
  wp_step. apply wp_sys_clear; [done|]. intros r4 Hr4. apply wp_sys_clear; [done|]. intros r5 Hr5.
  cbn -[wp]. wp_step. split; [done|]. split; cbn; try done. eexists. split; [by rewrite lookup_alter_eq, lookup_insert_eq|done].
Qed.

Lemma truncated_zeros seg k f i :
  zeroed seg f -> (i < Z.to_nat seg)%nat ->
  sync_cells (set_len (Z.to_nat seg) (set_len k (cells f))) !! i = Some (Byte.x00, true).
Proof.
  intros Hf Hi. unfold sync_cells. rewrite list_lookup_fmap.
  destruct (set_len (Z.to_nat seg) (set_len k (cells f)) !! i) as [c|] eqn:E;
    [|apply lookup_ge_None in E; rewrite length_set_len in E; lia].
  cbn. do 2 f_equal.
  assert (forall l n, Forall (fun c : cell => c.1 = Byte.x00) l -> Forall (fun c : cell => c.1 = Byte.x00) (set_len n l)) as Hz.
  { intros l n Hl. unfold set_len. apply Forall_app. split; [by apply Forall_take|by apply Forall_replicate]. }
  assert (Forall (fun c : cell => c.1 = Byte.x00) (set_len (Z.to_nat seg) (set_len k (cells f)))) as Ha.
  { apply Hz, Hz. rewrite Hf. by apply Forall_replicate. }
  rewrite Forall_forall in Ha. apply Ha. by eapply list_elem_of_lookup_2.
Qed.

Section misread.
Context {D : Type} {WD : WalDecoder D}.
Implicit Types w : PhysicalStorage D.

(** Syncing the open file. *)
Lemma close_partial s bad (file : option (Z * nat)) w :
  ps_no_sync w = false -> partial_only s bad (fun _ => True) (ps_disk w) ->
  wp (match file with Some (s', _) => fdatasync_file s' | None => mret tt end : M anyhow (PhysicalStorage D) unit)
    (fun o w' => o = Ok tt /\ exists d, w' = set_disk d w /\ partial_only s bad (fun _ => True) d) w.
Proof.
  intros Hsync Hd. destruct file as [[s' p]|].
  - unfold fdatasync_file. wp_step. wp_step. rewrite Hsync. apply wp_zoom, wp_sys_clear; [apply Hd|]. intros r Hr.
    split; [done|]. eexists. split; [done|]. eapply partial_only_alter; [by apply partial_only_faults|done|done].
  - wp_step. split; [done|]. exists (ps_disk w). by destruct w.
Qed.

(** Cutting the new segment leaves zeros. *)
Lemma cut_zeroed seg k s bad d r1 r2 r3 pos :
  partial_only s bad (zeroed seg) d -> 0 < seg -> segment_number pos seg = s ->
  cell_of seg (alter_file (map_cells sync_cells) (s, true) (set_faults r3
    (alter_file (map_cells (set_len (Z.to_nat seg))) (s, true) (set_faults r2
      (alter_file (map_cells (set_len k)) (s, true) (set_faults r1 d)))))) pos = Some (Byte.x00, true).
Proof.
  intros [_ _ F (f & Hf & Hz)] Hseg Hpos. unfold cell_of, files. cbn. rewrite Hpos, lookup_union_r by done.
  rewrite !lookup_alter_eq, Hf. cbn. pose proof (segment_bound seg Hseg pos). apply truncated_zeros; [done|]. lia.
Qed.

(** C39: [open_or_create] takes an error of [open] for a missing file.  When the [open]
    of the [.partial] segment that [end_pos] is in fails once during a truncation to
    [end_pos], and no other call does, the truncation succeeds and reports WAL flushed
    up to [end_pos], and the whole segment has been replaced by durable zeros: any other
    byte of it, also one that was flushed, is lost. *)
Theorem open_error_loses_flushed_wal end_pos f b bad w :
  store_ok w -> end_pos < ps_write_lsn w -> end_pos <= ps_write_record_lsn w ->
  partial (ps_disk w) !! segment_number end_pos (ps_wal_seg_size w) = Some f ->
  no_errors (ps_disk w) -> unhandled (ps_disk w) = b :: true :: bad ->
  exists w', ps_truncate_wal end_pos w = (Ok tt, w') /\ ps_flush_lsn w' = end_pos /\ ps_flush_record_lsn w' = end_pos
  /\ forall pos, segment_number pos (ps_wal_seg_size w) = segment_number end_pos (ps_wal_seg_size w) ->
       cell_of (ps_wal_seg_size w) (ps_disk w') pos = Some (Byte.x00, true).
Proof.
  intros [Hsync Hseg [Hn _] _ _ _ _ _] Hw Hrec Hf He Hbad. set (s := segment_number _ _) in *.
  assert (partial_only s (b :: true :: bad) (fun _ => True) (ps_disk w)) as Hd.
  { split; [done|done| |by exists f]. by apply (map_disjoint_Some_r _ _ _ _ Hn Hf). }
  enough (wp (ps_truncate_wal end_pos) (fun o w' => o = Ok tt /\ ps_flush_lsn w' = end_pos /\ ps_flush_record_lsn w' = end_pos
    /\ forall pos, segment_number pos (ps_wal_seg_size w) = s -> cell_of (ps_wal_seg_size w) (ps_disk w') pos = Some (Byte.x00, true)) w) as H.
  { unfold wp in H. exists (ps_truncate_wal end_pos w).2. destruct (ps_truncate_wal end_pos w) as [o w']. cbn in *.
    by destruct H as (-> & ? & ? & ?). }
  unfold ps_truncate_wal. wp_step. wp_step. rewrite decide_False by lia.
  rewrite (bool_decide_false (end_pos = ps_write_lsn w)), andb_false_r by lia. cbn [andb].
  wp_step. wp_step. wp_step. wp_step. unfold take_file. wp_step. wp_step. wp_step. wp_step. wp_step. wp_step.
  wp_step. eapply wp_mono; [by apply (close_partial s (b :: true :: bad))|]. cbn beta. intros o w1 (-> & d1 & -> & Hd1).
  wp_step. apply wp_zoom. unfold remove_segments_from_disk, sys_nop. wp_step. apply wp_sys_clear; [apply Hd1|]. intros r Hr. wp_step. wp_step.
  eapply wp_mono; [apply (remove_names_partial s (b :: true :: bad) (fun _ => True))|].
  { apply bool_decide_false. fold s. lia. }
  { by apply partial_only_faults. }
  cbn beta. intros o d2 [-> Hd2]. wp_step. apply wp_zoom. rewrite Hsync.
  eapply wp_mono; [by apply (open_or_create_misread _ s b bad)|]. cbn beta. intros o d3 [-> Hd3].
  wp_step. apply wp_zoom, wp_sys_clear; [apply Hd3|]. intros r1 Hr1.
  wp_step. apply wp_zoom, wp_sys_clear; [done|]. intros r2 Hr2. wp_step. apply wp_zoom, wp_sys_clear; [done|]. intros r3 Hr3.
  wp_step. cbn [negb snd]. wp_step. wp_step. split_and!; [done|done|done|]. intros pos Hpos. by apply (cut_zeroed _ _ _ bad).
Qed.
End misread.

(** ** A small storage

    Segments of 32 bytes and a decoder for which every byte is a record show that
    the hypotheses above hold of real runs, and what happens to the calls whose
    errors the code misreads. *)

Record ByteDecoder := { bd_pos : Lsn; bd_left : nat; bd_version : PgMajorVersion }.

Definition byte_poll : M anyhow ByteDecoder (option (Lsn * list byte)) := fun d =>
  match bd_left d with
  | O => (Ok None, d)
  | S n => (Ok (Some (bd_pos d + 1, [])),
            {| bd_pos := bd_pos d + 1; bd_left := n; bd_version := bd_version d |})
  end.

#[global] Instance byte_decoder : WalDecoder ByteDecoder := {|
  d_new l v := {| bd_pos := l; bd_left := 0; bd_version := v |};
  d_pg_version := bd_version;
  d_available d := bd_pos d + Z.of_nat (bd_left d);
  d_feed bs d := {| bd_pos := bd_pos d; bd_left := bd_left d + length bs; bd_version := bd_version d |};
  d_poll := byte_poll;
  d_seg := 32;
  d_pos := bd_pos;
  d_fuel := bd_left
|}.

#[global] Instance byte_decoder_laws : WalDecoderLaws ByteDecoder.
Proof.
  split; simpl; try (intros; lia). intros d _ Hmax. unfold wp, byte_poll.
  destruct (bd_left d) as [|n] eqn:E; simpl; [rewrite E; lia|].
  split_and!; try lia. unfold seg_ceil.
  pose proof (Z.div_mod (bd_pos d + Z.pos (Pos.of_succ_nat n) + 32 - 1) 32).
  pose proof (Z.mod_pos_bound (bd_pos d + Z.pos (Pos.of_succ_nat n) + 32 - 1) 32). lia.
Qed.

#[global] Instance zero_segments : SegmentGenerator := {|
  generate_wal_segment _ _ _ _ := Ok (replicate 32 Byte.x00)
|}.

Definition small_server : ServerInfo := {| pg_version := 160002; system_id := 7; wal_seg_size := 32 |}.

Definition small_state (commit : Lsn) : TimelinePersistentState :=
  {| p_tenant_id := replicate 16 Byte.x01; p_timeline_id := replicate 16 Byte.x02;
     p_mconf := configuration_empty; p_acceptor_state := {| term := 0; term_history := [] |};
     p_server := small_server; p_proposer_uuid := zeros 16; p_timeline_start_lsn := 16;
     p_local_start_lsn := 16; p_commit_lsn := commit; p_backup_lsn := 16; p_peer_horizon_lsn := 16;
     p_remote_consistent_lsn := 0; p_partial_backup := []; p_eviction_state := Present;
     p_creation_ts := 0 |}.

Definition empty_disk (script : list (option nat)) (bad : list bool) : Disk :=
  {| full := ∅; partial := ∅; disk_faults := script; unhandled := bad |}.

(** A new storage, truncated to position 16. *)
Definition small_new (script : list (option nat)) (bad : list bool) : PhysicalStorage ByteDecoder :=
  {| ps_no_sync := false; ps_wal_seg_size := 32; ps_pg_version := 160002; ps_system_id := 7;
     ps_write_lsn := 0; ps_write_record_lsn := 0; ps_flush_lsn := 0; ps_flush_record_lsn := 0;
     ps_decoder := d_new 0 PG16; ps_file := None; ps_pending := true;
     ps_disk := empty_disk script bad |}.

Definition small_started (script : list (option nat)) (bad : list bool) : PhysicalStorage ByteDecoder :=
  (ps_truncate_wal 16 (small_new script bad)).2.

Lemma empty_disk_clean script : clean_disk (empty_disk script []).
Proof.
  split; [split; [constructor|apply map_disjoint_empty_l|]|]; unfold files; simpl.
  - rewrite (left_id_L ∅ (∪)). apply map_Forall_empty.
  - intros s f. by rewrite (left_id_L ∅ (∪)), lookup_empty.
Qed.

Lemma small_new_inv script : lsn_inv (small_new script []) /\ dur_inv (small_new script []).
Proof.
  split; [by apply (physical_storage_new_positions (empty_disk script []) (small_state 0) false)|].
  by apply (physical_storage_new_inv (empty_disk script []) (small_state 0)); [|apply empty_disk_clean|].
Qed.

Lemma small_started_inv script : lsn_inv (small_started script []) /\ dur_inv (small_started script []).
Proof.
  destruct (small_new_inv script) as [Hl Hw]. split.
  - by apply (ps_truncate_wal_positions 16 (small_new script []) ltac:(lia) Hl).
  - apply (ps_truncate_wal_ok 16 (small_new script []) Hw). right. intros pos _ Hd. exfalso. revert Hd.
    apply clean_disk_not_dirty, empty_disk_clean.
Qed.

(** 40 bytes from position 16 cross two segment boundaries. *)
Definition some_bytes (n : nat) : list byte := map (fun i => Z_byte (Z.of_nat i + 1)) (seq 0 n).

Lemma write_wal_appends_witness :
  (ps_write_wal 16 (some_bytes 40) (small_started [] [])).1 = Ok tt
  /\ ps_write_lsn (ps_write_wal 16 (some_bytes 40) (small_started [] [])).2 = 56.
Proof.
  assert ((ps_write_wal 16 (some_bytes 40) (small_started [] [])).1 = Ok tt) as H by (vm_compute; reflexivity).
  split; [exact H|].
  destruct (small_started_inv []) as [Hl [Hst Hmis]%dur_inv_iff].
  apply (write_wal_appends 16 (some_bytes 40) (small_started [] []) Hl Hst Hmis ltac:(vm_compute; discriminate)). exact H.
Defined.

(** Ten bytes written and flushed after the start. *)
Definition small_flushed (script : list (option nat)) (bad : list bool) : PhysicalStorage ByteDecoder :=
  (ps_flush_wal (ps_write_wal 16 (some_bytes 10) (small_started script bad)).2).2.

Lemma small_flushed_inv : lsn_inv (small_flushed [] []) /\ dur_inv (small_flushed [] []).
Proof.
  destruct (small_started_inv []) as [Hl Hw].
  pose proof (run_op_ok 16 (small_started [] []) (OpWrite 16 (some_bytes 10)) Hl Hw
    ltac:(vm_compute; discriminate) ltac:(vm_compute; discriminate)) as (Hl1 & Hw1 & _).
  unfold small_flushed. change (ps_write_wal 16 (some_bytes 10)) with (run_op (D := ByteDecoder) (OpWrite 16 (some_bytes 10))).
  pose proof (run_op_ok 0 _ OpFlush Hl1 Hw1 ltac:(vm_compute; discriminate) I) as (Hl2 & Hw2 & _). by split.
Qed.

Lemma crash_disk_refl d : disk_ok d -> crash_disk d d.
Proof. intros [Hu Hn Hl]. split; [|done]. intros s f Hf _. exists f. split; [done|]. intros i b Hb. eauto. Qed.



(** Ten flushed bytes, and an [open] of their segment that will fail. *)
Definition with_scripts {D} (script : list (option nat)) (bad : list bool) (w : PhysicalStorage D) : PhysicalStorage D :=
  set_disk {| full := full (ps_disk w); partial := partial (ps_disk w); disk_faults := script; unhandled := bad |} w.

Lemma with_scripts_ok {D} script bad (w : PhysicalStorage D) : store_ok w -> store_ok (with_scripts script bad w).
Proof. intros [H1 H2 [H3 H4] H5 H6 H7 H8 H9]. by split. Qed.

Definition small_misread : PhysicalStorage ByteDecoder := with_scripts [] [false; true] (small_flushed [] []).

Lemma open_error_loses_flushed_wal_witness :
  18 < ps_flush_lsn small_misread /\ cell_of 32 (ps_disk small_misread) 18 = Some (Byte.x03, true)
  /\ exists w', ps_truncate_wal 20 small_misread = (Ok tt, w') /\ ps_flush_lsn w' = 20
     /\ cell_of 32 (ps_disk w') 18 = Some (Byte.x00, true).
Proof.
  split; [vm_compute; reflexivity|]. split; [vm_compute; reflexivity|].
  assert (store_ok small_misread) as Hok.
  { apply with_scripts_ok. apply (proj1 (dur_inv_iff _) (proj2 small_flushed_inv)). }
  assert (ps_wal_seg_size small_misread = 32) as Hseg by (vm_compute; reflexivity).
  destruct (partial (ps_disk small_misread) !! segment_number 20 (ps_wal_seg_size small_misread)) as [f|] eqn:Ef;
    [|vm_compute in Ef; discriminate].
  destruct (open_error_loses_flushed_wal 20 f false [] small_misread Hok) as (w' & E & H1 & _ & H2);
    [vm_compute; reflexivity|vm_compute; discriminate|exact Ef|vm_compute; constructor|vm_compute; reflexivity|].
  exists w'. split; [exact E|]. split; [exact H1|]. rewrite Hseg in H2. apply H2. vm_compute. reflexivity.
Defined.

(** A failed [truncate_wal] reports WAL as flushed that is not.  After the
    [fdatasync] of the open file fails, [flush_lsn] is [end_pos], a later
    [flush_wal] succeeds without syncing anything, and a crash can lose the byte
    at 20. *)
Example failed_truncation_overstates_flush_lsn :
  let w := (ps_write_wal 16 (some_bytes 10) (small_started (replicate 12 None ++ [Some 0%nat]) [])).2 in
  let '(o, w') := ps_truncate_wal 26 w in
  let '(o2, w'') := ps_flush_wal w' in
  ps_flush_record_lsn w = 16 /\ o = Err "fsync failed"%string /\ o2 = Ok tt
  /\ ps_flush_record_lsn w'' = 26 /\ cell_of 32 (ps_disk w'') 20 = Some (Byte.x05, false).
Proof. vm_compute. split_and!; reflexivity. Qed.
