(* ===== verification/SafekeeperFacts.v ===== *)
(** * Safety of one acceptor

    Invariants of the handlers of [Safekeeper.v], whatever the outcome of the
    storage operations and across restarts: terms, membership generations and
    commit LSNs never go back, the commit LSN stays within the flushed WAL, a
    vote is given at most once per term. *)

From S2P Require Import Prelude Lsn TermHistory Membership SkState Safekeeper.

Section facts.
Context {C W : Type} `{!ControlFile C, !ControlFileLaws C} `{!WalStore W, !WalStoreLaws W}.
Abbreviation SK := (SafeKeeper C W).
Implicit Types sk : SK.

(** ** Transactions on the timeline state *)

Lemma finish_change_spec s (ts : TimelineState C) :
  cf_inv (pers ts) ->
  wp (finish_change s) (fun o ts' =>
    cf_inv (pers ts') /\
    match o with
    | Ok _ => pstate ts' = s /\ inmem ts' = inmem_of s /\
              (forall r, may_recover (pers ts') r ->
                 r = saved_form s \/ (s = pstate ts /\ may_recover (pers ts) r))
    | Err _ => pstate ts' = pstate ts /\ inmem ts' = inmem ts /\
               (forall r, may_recover (pers ts') r -> r = saved_form s \/ may_recover (pers ts) r)
    | Panic => False
    end) ts.
Proof.
  intros Hinv. unfold finish_change. wp_step. wp_step. wp_step.
  destruct (decide (s = pstate ts)) as [->|Hne].
  - wp_step. wp_step. split; [done|]. split_and!; auto.
  - apply wp_zoom, wp_intro. intros [[]|e|] c' E; simpl.
    + apply wp_modify. simpl. apply persist_ok in E as (E0 & E1 & E2); [|done].
      unfold pstate. simpl. split_and!; [done..|]. intros r Hr. left. auto.
    + apply persist_err in E as (E0 & E1 & E2); [|done]. unfold pstate. simpl. auto.
    + by apply persist_no_panic in E.
Qed.

(** ** The invariant *)

(** What a crash can bring back is not older than what the process acts on. *)
Definition rec_ok sk (r : TimelinePersistentState) : Prop :=
  sk_term sk <= term (p_acceptor_state r)
  /\ sk_generation sk <= generation (p_mconf r)
  /\ p_commit_lsn (sk_pers sk) <= p_commit_lsn r.

Record sk_inv sk : Prop := {
  inv_ctrl : cf_inv (pers (state sk));
  inv_wal : ws_inv (wal_store sk);
  inv_commit_flushed : i_commit_lsn (sk_inmem sk) <= flush_lsn sk;
  inv_commit_mem : p_commit_lsn (sk_pers sk) <= i_commit_lsn (sk_inmem sk);
  inv_recover : forall r, may_recover (pers (state sk)) r -> rec_ok sk r
}.

(** Nothing the acceptor has promised is taken back. *)
Record progress sk sk' : Prop := {
  pr_term : sk_term sk <= sk_term sk';
  pr_generation : sk_generation sk <= sk_generation sk';
  pr_commit : i_commit_lsn (sk_inmem sk) <= i_commit_lsn (sk_inmem sk');
  pr_pers_commit : p_commit_lsn (sk_pers sk) <= p_commit_lsn (sk_pers sk')
}.

#[global] Instance progress_preorder : PreOrder progress.
Proof.
  split.
  - intros sk. by split.
  - intros sk1 sk2 sk3 [] []. split; lia.
Qed.

Definition good sk0 sk : Prop := sk_inv sk /\ progress sk0 sk.

Lemma good_refl sk : sk_inv sk -> good sk sk.
Proof. split; [done|reflexivity]. Qed.

(** ** Steps that keep the invariant *)

(** A legitimate transaction raises the term, generation and commit LSN. *)
Record change_ok sk (s : TimelinePersistentState) : Prop := {
  ch_term : sk_term sk <= term (p_acceptor_state s);
  ch_generation : sk_generation sk <= generation (p_mconf s);
  ch_commit : i_commit_lsn (sk_inmem sk) <= p_commit_lsn s;
  ch_flushed : p_commit_lsn s <= Z.max (ws_flush_lsn (wal_store sk)) (p_timeline_start_lsn s)
}.

Lemma on_state_finish_change s sk0 sk :
  good sk0 sk -> change_ok sk s ->
  wp (on_state (finish_change s)) (fun o sk' =>
    good sk0 sk' /\ wal_store sk' = wal_store sk /\ node_id sk' = node_id sk
    /\ term_start_lsn sk' = term_start_lsn sk
    /\ match o with Ok _ => sk_pers sk' = s | Err _ => sk_pers sk' = sk_pers sk | Panic => False end) sk.
Proof.
  intros [Hinv Hpr] Hch. apply wp_zoom.
  eapply wp_mono; [apply finish_change_spec, Hinv|]. intros o ts' [Hci Ho].
  destruct Hinv as [_ Hw Hcf Hcm Hrec], Hch as [Ht Hg Hc Hf], Hpr as [P1 P2 P3 P4].
  unfold rec_ok, sk_term, sk_generation, flush_lsn, sk_pers, sk_inmem in *.
  destruct o as [[]|e|]; [|destruct Ho as (E1 & E2 & Hr)|done].
  - destruct Ho as (E1 & E2 & Hr). split_and!; [|done..].
    split; split; unfold rec_ok, sk_term, sk_generation, flush_lsn, sk_pers, sk_inmem in *; simpl;
      rewrite ?E1, ?E2; simpl; try lia; [done..|].
    intros r Hr'. pose proof (saved_form_same s) as (F1 & F2 & F3).
    destruct (Hr r Hr') as [->|[-> Hr'']]; [rewrite F1, F2, F3; lia|by apply Hrec].
  - split_and!; [|done..].
    split; split; unfold rec_ok, sk_term, sk_generation, flush_lsn, sk_pers, sk_inmem in *; simpl;
      rewrite ?E1, ?E2; simpl; try lia; [done..|].
    intros r Hr'. pose proof (saved_form_same s) as (F1 & F2 & F3).
    destruct (Hr r Hr') as [->|Hr'']; [rewrite F1, F2, F3; lia|by apply Hrec].
Qed.

(** A storage operation that leaves enough WAL for the commit LSN. *)
Lemma on_wal_keeps {A} (m : M anyhow W A) (R : outcome anyhow A -> W -> Prop) sk0 sk :
  good sk0 sk ->
  wp m (fun o w' => ws_inv w'
          /\ i_commit_lsn (sk_inmem sk) <= Z.max (ws_flush_lsn w') (p_timeline_start_lsn (sk_pers sk))
          /\ R o w') (wal_store sk) ->
  wp (on_wal m) (fun o sk' => good sk0 sk' /\ state sk' = state sk /\ R o (wal_store sk')) sk.
Proof.
  intros [[Hi Hw Hcf Hcm Hrec] [P1 P2 P3 P4]] Hm. apply wp_zoom.
  eapply wp_mono; [exact Hm|]. intros o w' (Hw' & Hf & HR). split_and!; [|done|done].
  split; [|by split]. by split.
Qed.

(** Flushing and writing never lose flushed WAL. *)
Lemma on_wal_mono {A} (m : M anyhow W A) sk0 sk :
  good sk0 sk ->
  wp m (fun _ w' => ws_inv w' /\ ws_flush_lsn (wal_store sk) <= ws_flush_lsn w') (wal_store sk) ->
  wp (on_wal m) (fun _ sk' => good sk0 sk' /\ state sk' = state sk) sk.
Proof.
  intros Hg Hm. eapply wp_mono; [eapply (on_wal_keeps m (fun _ _ => True)); [done|]|]; [|by intros o sk' (? & ? & _)].
  eapply wp_mono; [exact Hm|]. intros o w' [Hw Hf]. split_and!; [done| |done].
  destruct Hg as [[_ _ Hcf _ _] _]. unfold flush_lsn in Hcf. lia.
Qed.

(** The fields that [start_change] takes from memory and from disk. *)
Lemma start_change_ok sk0 sk (f : TimelinePersistentState -> TimelinePersistentState) :
  good sk0 sk ->
  let s := start_change (state sk) in
  term (p_acceptor_state s) <= term (p_acceptor_state (f s)) ->
  generation (p_mconf s) <= generation (p_mconf (f s)) ->
  p_commit_lsn (f s) = p_commit_lsn s ->
  p_timeline_start_lsn (f s) = p_timeline_start_lsn s ->
  change_ok sk (f s).
Proof.
  intros [[_ _ Hcf _ _] _] s Ht Hg Hc Hs. unfold flush_lsn, sk_pers, sk_inmem in *.
  split; unfold sk_term, sk_generation, sk_pers, sk_inmem; simpl in *; rewrite ?Hc, ?Hs; simpl; lia.
Qed.

Lemma on_state_flush sk Q :
  wp (on_state (finish_change (start_change (state sk)))) Q sk -> wp (on_state state_flush) Q sk.
Proof. done. Qed.

Lemma update_commit_lsn_good candidate sk0 sk :
  good sk0 sk -> wp (update_commit_lsn candidate) (fun o sk' => good sk0 sk' /\ o <> Panic) sk.
Proof.
  intros Hg. unfold update_commit_lsn. wp_step. wp_step. wp_step.
  assert (i_commit_lsn (sk_inmem sk) <= flush_lsn sk) as Hcf by apply Hg.
  apply wp_assert; intros Ha; [|apply bool_decide_eq_false in Ha; lia].
  wp_step. wp_step. wp_step. wp_step.
  set (c := Z.min _ _) in *.
  assert (good sk0 (set_commit_lsn c sk)) as Hg'.
  { destruct Hg as [[Hi Hw _ Hcm Hrec] [P1 P2 P3 P4]].
    split; split; unfold flush_lsn, sk_pers, sk_inmem, pstate in *; simpl in *; try done; lia. }
  wp_step; [|by wp_step].
  eapply wp_mono; [apply on_state_flush, (on_state_finish_change _ sk0); [done|]|].
  - apply (start_change_ok sk0 _ id); done.
  - intros o sk' (H1 & _ & _ & _ & H2). split; [done|]. by destruct o.
Qed.

(** The value it takes. *)
Lemma update_commit_lsn_value candidate sk :
  sk_inv sk ->
  wp (update_commit_lsn candidate) (fun _ sk' =>
    i_commit_lsn (sk_inmem sk') = Z.min (Z.max candidate (i_commit_lsn (sk_inmem sk))) (flush_lsn sk)) sk.
Proof.
  intros Hinv. pose proof (inv_commit_flushed _ Hinv) as Hcf.
  unfold update_commit_lsn. wp_step. wp_step. wp_step.
  apply wp_assert; intros Ha; [|apply bool_decide_eq_false in Ha; lia].
  do 4 wp_step. wp_step; [|by wp_step].
  apply on_state_flush, wp_zoom. eapply wp_mono; [apply finish_change_spec, Hinv|].
  intros o ts' [_ Ho]. destruct o as [[]|e|]; [| |done]; destruct Ho as (_ & Ho & _);
    unfold sk_inmem; simpl; by rewrite Ho.
Qed.

Lemma record_safekeeper_info_good info sk0 sk :
  good sk0 sk -> wp (record_safekeeper_info info) (fun o sk' => good sk0 sk' /\ o <> Panic) sk.
Proof.
  intros Hg. unfold record_safekeeper_info. wp_step; [|by wp_step].
  wp_step. wp_step. wp_step; [|by wp_step]. by apply update_commit_lsn_good.
Qed.

(** ** Handlers *)

Lemma wp_on_state_bind {A B} (m : M anyhow (TimelineState C) A) (k : A -> M anyhow _ B) Q sk :
  wp (a ← on_state m; on_state (k a)) Q sk -> wp (on_state (a ← m; k a)) Q sk.
Proof.
  unfold wp, on_state, zoom, mbind, M_bind.
  destruct (m (state sk)) as [[a|e|] ts']; simpl; [|done..].
  by destruct (k a ts') as [o ts''].
Qed.

Lemma wp_on_state_ret {A} (a : A) Q sk : Q (Ok a) sk -> wp (on_state (mret a)) Q sk.
Proof. by destruct sk. Qed.

Lemma wp_on_state_gets {A} (f : TimelineState C -> A) Q sk :
  Q (Ok (f (state sk))) sk -> wp (on_state (gets f)) Q sk.
Proof. by destruct sk. Qed.

Lemma on_state_membership_switch to sk0 sk :
  good sk0 sk -> wp (on_state (membership_switch to)) (fun _ sk' => good sk0 sk' /\ wal_store sk' = wal_store sk) sk.
Proof.
  intros Hg. unfold membership_switch.
  apply wp_on_state_bind, wp_bind, wp_on_state_gets, wp_on_state_bind, wp_bind.
  assert (forall sk', good sk0 sk' /\ wal_store sk' = wal_store sk ->
    wp (on_state (after ← gets (fun ts => p_mconf (pstate ts));
                  mret {| previous_conf := p_mconf (pstate (state sk)); current_conf := after |}))
       (fun _ sk'' => good sk0 sk'' /\ wal_store sk'' = wal_store sk) sk') as Htail.
  { intros sk' H. by apply wp_on_state_bind, wp_bind, wp_on_state_gets, wp_on_state_ret. }
  case_decide; [apply wp_on_state_ret; auto|].
  apply wp_on_state_bind, wp_bind, wp_on_state_gets.
  eapply wp_mono; [apply (on_state_finish_change _ sk0); [done|]|].
  - apply (start_change_ok sk0 sk (set_mconf to)); [done|simpl..]; try done.
    unfold start_change; simpl in *. lia.
  - intros o sk' (Hg' & Hw & _ & _ & Ho). destruct o; [|done..]. by apply Htail.
Qed.

(** The vote carried by a reply, if it is one. *)
Definition vote_of (o : outcome anyhow (option AcceptorProposerMessage)) : option Term :=
  match o with
  | Ok (Some (AVoteResponse r)) => if vote_given r then Some (vr_term r) else None
  | _ => None
  end.

(** The handler kept the invariant, and a vote was given only for a term above
    the current one, which is now the acceptor's term. *)
Definition handled sk0 (o : outcome anyhow (option AcceptorProposerMessage)) sk : Prop :=
  good sk0 sk /\
  match vote_of o with Some t => sk_term sk0 < t /\ t = sk_term sk | None => True end.

Lemma handle_greeting_good msg sk : sk_inv sk -> wp (handle_greeting msg) (handled sk) sk.
Proof.
  intros Hinv. pose proof (good_refl sk Hinv) as Hg.
  unfold handle_greeting, ok_or. do 2 wp_step. wp_step.
  destruct (pg_major_try_from (g_pg_version msg)); [wp_step|by apply wp_bail].
  wp_step. destruct (pg_major_try_from _); [wp_step|by apply wp_bail].
  wp_step; [by apply wp_bail|]. do 2 wp_step. do 3 (wp_step; [by apply wp_bail|]). wp_step.
  assert (forall sk', good sk sk' ->
    wp (sk' ← get;
        if bool_decide (sk_generation sk' < generation (g_mconf msg))
           && negb (configuration_contains (g_mconf msg) (node_id sk'))
        then bail "refused to switch, node is not a member"%string else
        _ ← on_state (membership_switch (g_mconf msg));
        sk' ← get;
        mret (Some (AGreeting {| ag_node_id := node_id sk'; ag_mconf := p_mconf (sk_pers sk');
                                 ag_term := sk_term sk' |}))) (handled sk) sk') as Htail.
  { intros sk' Hg'. do 2 wp_step. wp_step; [by apply wp_bail|]. wp_step.
    eapply wp_mono; [by apply on_state_membership_switch|].
    intros o sk'' [? _]. destruct o; [|done..]. do 2 wp_step. by apply wp_ret. }
  wp_step; [|wp_step; by apply Htail].
  do 2 wp_step. eapply wp_mono; [apply (on_state_finish_change _ sk); [done|]|].
  - by apply (start_change_ok sk sk (set_server _)).
  - intros o sk' (? & _). destruct o; [|done..]. by apply Htail.
Qed.

Lemma handle_vote_request_good msg sk : sk_inv sk -> wp (handle_vote_request msg) (handled sk) sk.
Proof.
  intros Hinv. unfold handle_vote_request. do 2 wp_step. wp_step; [by apply wp_bail|]. wp_step.
  eapply wp_mono; [apply (on_wal_mono _ sk); [by apply good_refl|]|].
  { apply flush_wal_spec, Hinv. }
  intros o sk1 [Hg1 Hst]. destruct o; [|done..]. do 2 wp_step.
  assert (sk_term sk1 = sk_term sk) as Ht by (unfold sk_term, sk_pers; by rewrite Hst).
  wp_step; [|by apply wp_ret].
  wp_step. eapply wp_mono; [apply (on_state_finish_change _ sk); [done|]|].
  - apply (start_change_ok sk sk1 (set_term (vq_term msg))); [done|simpl..]; try done.
    unfold sk_term, sk_pers in *. simpl. lia.
  - intros o sk2 (Hg2 & _ & _ & _ & Ho). destruct o; [|done..].
    do 2 wp_step. apply wp_ret. split; [done|]. simpl.
    assert (sk_term sk2 = vq_term msg) as -> by (unfold sk_term; by rewrite Ho). lia.
Qed.

Lemma on_wal_truncate end_pos sk0 sk :
  0 < end_pos -> good sk0 sk -> i_commit_lsn (sk_inmem sk) <= end_pos ->
  wp (on_wal (truncate_wal end_pos)) (fun o sk' =>
    good sk0 sk' /\ state sk' = state sk /\
    match o with Ok _ => ws_flush_lsn (wal_store sk') = end_pos | _ => True end) sk.
Proof.
  intros Hpos Hg Hle. apply (on_wal_keeps _ (fun o w' =>
    match o with Ok _ => ws_flush_lsn w' = end_pos | _ => True end)); [done|].
  eapply wp_mono; [apply truncate_wal_spec; [done|apply Hg]|]. intros o w' [Hw Ho].
  assert (i_commit_lsn (sk_inmem sk) <= flush_lsn sk) as Hcf by apply Hg. unfold flush_lsn in Hcf.
  split_and!; [done| |by destruct o]. destruct o as [|e|]; [lia|destruct Ho; lia..].
Qed.

Lemma adopt_term_history_ok msg sk0 sk :
  good sk0 sk -> i_commit_lsn (sk_inmem sk) <= ws_flush_lsn (wal_store sk) ->
  change_ok sk (adopt_term_history msg (start_change (state sk))).
Proof.
  intros _ Hle. unfold adopt_term_history.
  split; unfold sk_term, sk_generation, sk_pers, sk_inmem in *; simpl; lia.
Qed.

Lemma handle_elected_good msg sk :
  0 < start_streaming_at msg -> sk_inv sk -> wp (handle_elected msg) (handled sk) sk.
Proof.
  intros Hpos Hinv. unfold handle_elected. do 2 wp_step. wp_step; [by apply wp_bail|]. wp_step.
  eapply (wp_mono _ (fun _ sk' => good sk sk')).
  { wp_step; [|apply wp_ret; by apply good_refl].
    eapply wp_mono; [apply (on_state_finish_change _ sk); [by apply good_refl|]|by intros o sk' [? _]].
    apply (start_change_ok sk sk (set_term (pe_term msg))); [by apply good_refl|simpl..]; try done.
    unfold sk_term, sk_pers in *. simpl. lia. }
  intros o sk1 Hg1. destruct o; [|done..]. do 2 wp_step. wp_step; [by apply wp_ret|].
  wp_step. apply wp_lift. destruct (find_highest_common_point _ _ _) as [lcp|e|]; [|done..].
  wp_step. eapply (wp_mono _ (fun _ sk' => sk' = sk1)).
  { destruct lcp; [by apply wp_ret|]. unfold ok_or. by destruct (head _). }
  intros o ? ->. destruct o as [lcp'|e|]; [|done..]. wp_step; [by apply wp_bail|].
  wp_step. apply wp_assert; intros Ha; [apply bool_decide_eq_true in Ha|done].
  wp_step. eapply (wp_mono _ (fun _ sk' => good sk sk' /\ state sk' = state sk1)).
  { wp_step; [|by apply wp_ret]. apply on_wal_mono; [done|].
    eapply wp_mono; [apply initialize_first_segment_spec, Hg1|]. intros o w' [? ->]. done. }
  intros o sk2 [Hg2 Hst2]. destruct o; [|done..]. wp_step.
  assert (i_commit_lsn (sk_inmem sk2) <= start_streaming_at msg) by (unfold sk_inmem in *; by rewrite Hst2).
  eapply wp_mono; [by apply on_wal_truncate|].
  intros o sk3 (Hg3 & Hst3 & Hfl). destruct o; [|done..]. do 3 wp_step.
  eapply wp_mono; [apply (on_state_finish_change _ sk); [done|]|].
  { eapply adopt_term_history_ok; [done|]. rewrite Hfl. unfold sk_inmem in *. by rewrite Hst3. }
  intros o sk4 (Hg4 & _). destruct o; [|done..].
  wp_step; [|by apply wp_bail]. do 2 wp_step. apply wp_ret. split; [|done].
  destruct Hg4 as [[] []]. split; by split.
Qed.

Lemma set_peer_horizon_good x sk0 sk : good sk0 sk -> good sk0 (set_peer_horizon_lsn x sk).
Proof. intros [[] []]. split; by split. Qed.

Lemma handle_append_request_good msg rf sk :
  begin_lsn (h msg) + Z.of_nat (length (wal_data msg)) <= LSN_MAX - 7 ->
  sk_inv sk -> wp (handle_append_request msg rf) (handled sk) sk.
Proof.
  intros Hmax Hinv. pose proof (good_refl sk Hinv) as Hg. unfold handle_append_request.
  do 2 wp_step. wp_step; [by apply wp_bail|]. wp_step; [by apply wp_bail|].
  wp_step; [by apply wp_ret|]. do 2 (wp_step; [by apply wp_bail|]). wp_step.
  eapply (wp_mono _ (fun _ sk' => good sk sk')).
  { wp_step; [by apply wp_ret|].
    eapply wp_mono; [apply on_wal_mono; [done|]|by intros ?? [? _]]. by apply write_wal_spec, Hinv. }
  intros o sk1 Hg1. destruct o; [|done..]. wp_step.
  eapply (wp_mono _ (fun _ sk' => good sk sk')).
  { wp_step; [|by apply wp_ret].
    eapply wp_mono; [apply on_wal_mono; [done|]|by intros ?? [? _]]. apply flush_wal_spec, Hg1. }
  intros o sk2 Hg2. destruct o; [|done..]. wp_step.
  eapply (wp_mono _ (fun _ sk' => good sk sk')).
  { wp_step; [|by apply wp_ret].
    eapply wp_mono; [by apply update_commit_lsn_good|by intros ?? [? _]]. }
  intros o sk3 Hg3. destruct o; [|done..]. do 4 wp_step.
  assert (good sk (set_peer_horizon_lsn
    (Z.max (i_peer_horizon_lsn (sk_inmem sk3)) (h_truncate_lsn (h msg))) sk3))
    by by apply set_peer_horizon_good.
  wp_step; by apply wp_ret.
Qed.

Lemma handle_flush_good sk : sk_inv sk -> wp handle_flush (handled sk) sk.
Proof.
  intros Hinv. unfold handle_flush. wp_step.
  eapply wp_mono; [apply (on_wal_mono _ sk); [by apply good_refl|]|].
  { apply flush_wal_spec, Hinv. }
  intros o sk1 [Hg1 _]. destruct o; [|done..]. do 2 wp_step. by apply wp_ret.
Qed.

(** Positions are valid LSNs with room for alignment after them. *)
Definition msg_valid (msg : ProposerAcceptorMessage) : Prop :=
  match msg with
  | PElected msg => 0 < start_streaming_at msg
  | PAppendRequest msg | PNoFlushAppendRequest msg =>
      begin_lsn (h msg) + Z.of_nat (length (wal_data msg)) <= LSN_MAX - 7
  | _ => True
  end.

Lemma process_msg_handled msg sk : msg_valid msg -> sk_inv sk -> wp (process_msg msg) (handled sk) sk.
Proof.
  intros Hm Hinv. destruct msg; simpl.
  - by apply handle_greeting_good.
  - by apply handle_vote_request_good.
  - by apply handle_elected_good.
  - by apply handle_append_request_good.
  - by apply handle_append_request_good.
  - by apply handle_flush_good.
Qed.

Lemma on_state_term_bump to sk0 sk :
  good sk0 sk -> wp (on_state (term_bump to)) (fun _ sk' => good sk0 sk') sk.
Proof.
  intros Hg. unfold term_bump.
  apply wp_on_state_bind, wp_bind, wp_on_state_gets, wp_on_state_bind, wp_bind, wp_on_state_gets.
  set (new := match to with Some _ => _ | None => _ end).
  apply wp_on_state_bind, wp_bind.
  assert (forall sk', good sk0 sk' ->
    wp (on_state (after ← gets (fun ts => term (p_acceptor_state (pstate ts)));
                  mret {| previous_term := term (p_acceptor_state (pstate (state sk)));
                          current_term := after |})) (fun _ sk'' => good sk0 sk'') sk') as Htail.
  { intros sk' H. by apply wp_on_state_bind, wp_bind, wp_on_state_gets, wp_on_state_ret. }
  case_decide; [|apply wp_on_state_ret; auto].
  eapply wp_mono; [apply (on_state_finish_change _ sk0); [done|]|].
  - apply (start_change_ok sk0 sk (set_term new)); [done|simpl..]; try done.
    unfold start_change in *; simpl in *. lia.
  - intros o sk' (Hg' & _). destruct o; [|done..]. by apply Htail.
Qed.

(** ** Runs of one acceptor *)

(** What can happen to a safekeeper: a message of a proposer (identified by
    [P]), a peer's broadcast, the HTTP requests, the periodic flush of the
    control file, and a crash followed by a restart.  Every storage operation
    may fail.  The label lists the votes given. *)
Context {P : Type}.

Inductive sk_step : SK -> list (P * Term) -> SK -> Prop :=
| step_msg from msg sk o sk' :
    msg_valid msg -> process_msg msg sk = (o, sk') ->
    sk_step sk (match vote_of o with Some t => [(from, t)] | None => [] end) sk'
| step_peer_info info sk o sk' :
    record_safekeeper_info info sk = (o, sk') -> sk_step sk [] sk'
| step_term_bump to sk o sk' :
    on_state (term_bump to) sk = (o, sk') -> sk_step sk [] sk'
| step_membership_switch to sk o sk' :
    on_state (membership_switch to) sk = (o, sk') -> sk_step sk [] sk'
| step_state_flush sk o sk' :
    on_state state_flush sk = (o, sk') -> sk_step sk [] sk'
| step_restart sk c w :
    may_recover (pers (state sk)) (cf_state c) ->
    (forall r, may_recover c r -> r = cf_state c) -> cf_inv c ->
    ws_open (cf_state c) (wal_store sk) w ->
    sk_step sk [] {| term_start_lsn := 0; state := timeline_state_of c;
                     wal_store := w; node_id := node_id sk |}.

Inductive sk_run : SK -> list (P * Term) -> SK -> Prop :=
| run_nil sk : sk_run sk [] sk
| run_step sk1 vs1 sk2 vs2 sk3 :
    sk_step sk1 vs1 sk2 -> sk_run sk2 vs2 sk3 -> sk_run sk1 (vs1 ++ vs2) sk3.

(** What survives even a restart: the in-memory commit LSN does not. *)
Definition durable_progress sk sk' : Prop :=
  sk_term sk <= sk_term sk' /\ sk_generation sk <= sk_generation sk'
  /\ p_commit_lsn (sk_pers sk) <= p_commit_lsn (sk_pers sk').

Lemma good_durable sk sk' : good sk sk' -> sk_inv sk' /\ durable_progress sk sk'.
Proof. intros [? []]. by split. Qed.

(** Votes of a step are above the old term and not above the new one. *)
Lemma sk_step_safe sk vs sk' :
  sk_inv sk -> sk_step sk vs sk' ->
  sk_inv sk' /\ durable_progress sk sk' /\
  (vs = [] \/ exists p t, vs = [(p, t)] /\ sk_term sk < t <= sk_term sk').
Proof.
  intros Hinv Hs.
  assert (forall {A} (m : M anyhow SK A) o sk', m sk = (o, sk') ->
    wp m (fun _ sk' => good sk sk') sk -> sk_inv sk' /\ durable_progress sk sk') as Hwp.
  { intros A m o sk'' E Hw. apply good_durable. unfold wp in Hw. by rewrite E in Hw. }
  pose proof (good_refl sk Hinv) as Hg.
  destruct Hs as [from msg sk o sk' Hm E|info sk o sk' E|to sk o sk' E|to sk o sk' E|sk o sk' E|sk c w Hc Hd Hi Hw].
  - pose proof (process_msg_handled msg sk Hm Hinv) as H. unfold wp in H. rewrite E in H. simpl in H.
    destruct H as [Hgood Hv]. destruct (good_durable _ _ Hgood) as [? Hdp]. split_and!; [done..|].
    destruct (vote_of o) as [t|]; [|by left]. right. exists from, t. destruct Hv as [? ->]. auto with lia.
  - edestruct Hwp as [??]; [exact E| |auto].
    eapply wp_mono; [by apply record_safekeeper_info_good|by intros ?? [? _]].
  - edestruct Hwp as [??]; [exact E|by apply on_state_term_bump|auto].
  - edestruct Hwp as [??]; [exact E| |auto].
    eapply wp_mono; [by apply on_state_membership_switch|by intros ?? [? _]].
  - edestruct Hwp as [??]; [exact E| |auto].
    apply on_state_flush. eapply wp_mono; [apply (on_state_finish_change _ sk); [done|]|by intros ?? [? _]].
    by apply (start_change_ok sk sk id).
  - apply Hinv in Hc as (H1 & H2 & H3). apply ws_open_spec in Hw as [Hw1 Hw2]; [|apply Hinv].
    unfold durable_progress, sk_term, sk_generation, sk_pers in *. simpl. split_and!; [|done..|by left].
    split; unfold flush_lsn, rec_ok, sk_term, sk_generation, sk_pers, sk_inmem, pstate; simpl; try done; [lia|].
    intros r Hr. apply Hd in Hr as ->. done.
Qed.

Lemma sk_run_votes sk vs sk' :
  sk_inv sk -> sk_run sk vs sk' ->
  sk_inv sk' /\ durable_progress sk sk' /\ StronglySorted Z.lt (snd <$> vs)
  /\ Forall (fun t => sk_term sk < t <= sk_term sk') (snd <$> vs).
Proof.
  intros Hinv Hr. induction Hr as [sk|sk1 vs1 sk2 vs2 sk3 Hs Hr IH].
  { split_and!; [done|done|constructor|constructor]. }
  destruct (sk_step_safe _ _ _ Hinv Hs) as (Hinv2 & Hdp & Hvs).
  destruct (IH Hinv2) as (Hinv3 & Hdp3 & Hsort & Hbnd).
  unfold durable_progress in *. rewrite fmap_app. split_and!; [done|lia..| |].
  - destruct Hvs as [->|(p & t & -> & Ht)]; [done|]. simpl. constructor; [done|].
    eapply Forall_impl; [exact Hbnd|]. simpl. lia.
  - apply Forall_app. split.
    + destruct Hvs as [->|(p & t & -> & Ht)]; [constructor|]. simpl. constructor; [lia|constructor].
    + eapply Forall_impl; [exact Hbnd|]. simpl. lia.
Qed.
End facts.
