(* ===== verification/SkProperties.v ===== *)
(** * Properties of the acceptor

    The theorems about [SafeKeeper], against the interfaces of the control file
    and of the WAL storage.  The witnesses run them on [FileStorage] and
    [PhysicalStorage]. *)

From S2P Require Import Prelude Lsn TermHistory Membership SkState Safekeeper ControlFile.
From S2P Require Import WalStorage WalDurability SafekeeperFacts.

(** Two majorities of a member set have a common member. *)
Lemma quorums_intersect (l q1 q2 : list Z) :
  NoDup q1 -> NoDup q2 -> q1 ⊆ l -> q2 ⊆ l ->
  (length l < 2 * length q1)%nat -> (length l < 2 * length q2)%nat -> exists n, n ∈ q1 /\ n ∈ q2.
Proof.
  intros N1 N2 S1 S2 L1 L2. destruct (decide (Exists (fun n => n ∈ q2) q1)) as [H|H].
  { apply Exists_exists in H as (n & ? & ?). eauto. }
  assert (q1 ++ q2 ⊆+ l) as Hsub.
  { apply NoDup_submseteq.
    - apply NoDup_app. split_and!; [done| |done]. intros n H1 H2. apply H, Exists_exists. eauto.
    - intros n [?|?]%elem_of_app; auto. }
  apply submseteq_length in Hsub. rewrite length_app in Hsub. lia.
Qed.

Lemma StronglySorted_lt_key {P : Type} (vs : list (P * Z)) p1 p2 t :
  StronglySorted Z.lt (snd <$> vs) -> (p1, t) ∈ vs -> (p2, t) ∈ vs -> p1 = p2.
Proof.
  induction vs as [|[p t'] vs IH]; intros Hs H1 H2; [by apply not_elem_of_nil in H1|].
  inversion_clear Hs as [|?? Hs' Hf]. rewrite Forall_fmap, Forall_forall in Hf.
  apply elem_of_cons in H1 as [E1|H1], H2 as [E2|H2].
  - congruence.
  - apply Hf in H2. simpl in *. simplify_eq. lia.
  - apply Hf in H1. simpl in *. simplify_eq. lia.
  - auto.
Qed.

Section properties.
Context {C W : Type} `{!ControlFile C, !ControlFileLaws C} `{!WalStore W, !WalStoreLaws W}.
Context {P : Type}.
Abbreviation SK := (SafeKeeper C W).
Implicit Types sk : SK.

(** C1: election safety.  At most one proposer collects the votes of a majority
    of a member set in a term, whatever messages the safekeepers handle,
    whatever I/O errors they hit and however often they crash and restart in
    between. *)
Theorem election_safety (ms : MemberSet) (init final : Z -> SK)
    (votes : Z -> list (P * Term)) (q1 q2 : list Z) (p1 p2 : P) (t : Term) :
  (forall n, member_set_contains ms n = true -> sk_inv (init n) /\ sk_run (init n) (votes n) (final n)) ->
  NoDup q1 -> NoDup q2 ->
  (forall n, n ∈ q1 -> member_set_contains ms n = true /\ (p1, t) ∈ votes n) ->
  (forall n, n ∈ q2 -> member_set_contains ms n = true /\ (p2, t) ∈ votes n) ->
  (length (m ms) < 2 * length q1)%nat -> (length (m ms) < 2 * length q2)%nat ->
  p1 = p2.
Proof.
  intros Hrun N1 N2 H1 H2 L1 L2. rewrite <- (length_fmap sk_id) in L1, L2.
  assert (forall n, member_set_contains ms n = true -> n ∈ sk_id <$> m ms) as Hin
    by (intros n; apply member_set_contains_spec).
  destruct (quorums_intersect (sk_id <$> m ms) q1 q2) as (n & Hn1 & Hn2); try done.
  - intros n Hn. by apply Hin, H1.
  - intros n Hn. by apply Hin, H2.
  - destruct (H1 n Hn1) as [Hc Hv1], (H2 n Hn2) as [_ Hv2]. destruct (Hrun n Hc) as [Hi Hr].
    destruct (sk_run_votes _ _ _ Hi Hr) as (_ & _ & Hs & _). by eapply StronglySorted_lt_key.
Qed.

(** C2: a vote is given once per term and is durable.  Along any run, crashes
    included, the terms voted for strictly increase, and neither the term, nor
    the membership generation, nor the persisted commit LSN goes back. *)
Theorem run_never_goes_back sk (votes : list (P * Term)) sk' :
  sk_inv sk -> sk_run sk votes sk' ->
  sk_inv sk' /\ StronglySorted Z.lt (snd <$> votes)
  /\ Forall (fun t => sk_term sk < t <= sk_term sk') (snd <$> votes)
  /\ sk_term sk <= sk_term sk' /\ sk_generation sk <= sk_generation sk'
  /\ p_commit_lsn (sk_pers sk) <= p_commit_lsn (sk_pers sk').
Proof.
  intros Hi Hr. destruct (sk_run_votes _ _ _ Hi Hr) as (? & (? & ? & ?) & ? & ?). by split_and!.
Qed.

(** C4: every message keeps the acceptor safe, also when it is refused or an
    I/O error cuts it short: what is committed is flushed, what is promised is
    not taken back, and what a crash can bring back is not older than what the
    acceptor acts on.  A vote is for a higher term than before and survives a
    crash. *)
Theorem process_msg_safe msg sk :
  sk_inv sk -> msg_valid msg ->
  wp (process_msg msg) (fun o sk' =>
    i_commit_lsn (sk_inmem sk') <= flush_lsn sk'
    /\ progress sk sk'
    /\ (forall r, may_recover (pers (state sk')) r ->
          sk_term sk' <= term (p_acceptor_state r) /\ p_commit_lsn (sk_pers sk') <= p_commit_lsn r)
    /\ (forall t, vote_of o = Some t -> sk_term sk < t /\
          forall r, may_recover (pers (state sk')) r -> t <= term (p_acceptor_state r))) sk.
Proof.
  intros Hi Hm. eapply wp_mono; [by apply process_msg_handled|].
  intros o sk' [[[_ _ Hcf _ Hrec] Hp] Hv]. split_and!; [done|done| |].
  - intros r Hr. apply Hrec in Hr as (? & _ & ?). done.
  - intros t E. rewrite E in Hv. destruct Hv as [Hlt ->]. split; [done|].
    intros r Hr. by apply Hrec in Hr as (? & _).
Qed.

(** A commit LSN learned from a peer with the same last log term is taken
    over as far as the WAL is flushed here; otherwise nothing changes.  The
    assertion that the commit LSN does not go back never fails. *)
Theorem record_safekeeper_info_commit info sk :
  sk_inv sk ->
  wp (record_safekeeper_info info) (fun o sk' =>
    o <> Panic /\ i_commit_lsn (sk_inmem sk') <= flush_lsn sk'
    /\ i_commit_lsn (sk_inmem sk') =
       if decide (si_commit_lsn info <> LSN_INVALID /\ si_last_log_term info = get_last_log_term sk)
       then Z.max (i_commit_lsn (sk_inmem sk)) (Z.min (si_commit_lsn info) (flush_lsn sk))
       else i_commit_lsn (sk_inmem sk)) sk.
Proof.
  intros Hi. pose proof (inv_commit_flushed _ Hi) as Hcf.
  pose proof (record_safekeeper_info_good info sk sk (good_refl sk Hi)) as Hg.
  assert (wp (record_safekeeper_info info) (fun _ sk' => i_commit_lsn (sk_inmem sk') =
    if decide (si_commit_lsn info <> LSN_INVALID /\ si_last_log_term info = get_last_log_term sk)
    then Z.max (i_commit_lsn (sk_inmem sk)) (Z.min (si_commit_lsn info) (flush_lsn sk))
    else i_commit_lsn (sk_inmem sk)) sk) as Hc.
  { unfold record_safekeeper_info. wp_step; [|wp_step; by rewrite decide_False by tauto].
    do 2 wp_step. wp_step; [|wp_step; by rewrite decide_False by tauto].
    rewrite decide_True by done. eapply wp_mono; [by apply update_commit_lsn_value|].
    simpl. intros _ sk' ->. lia. }
  unfold wp in *. destruct Hg as [[Hi' _] Hp]. split_and!; [done|apply Hi'|done].
Qed.

(** A response to an append is truthful.  Either the sender's term is old
    and the response only tells the current term, or it carries the acceptor's
    term, the LSN up to which its WAL is flushed, and a commit LSN within it. *)
Theorem append_response_truthful msg require_flush sk :
  sk_inv sk -> begin_lsn (h msg) + Z.of_nat (length (wal_data msg)) <= LSN_MAX - 7 ->
  wp (handle_append_request msg require_flush) (fun o sk' =>
    forall resp, o = Ok (Some (AAppendResponse resp)) ->
      (h_term (h msg) < sk_term sk /\ sk' = sk
       /\ resp = append_response_term_only (sk_generation sk) (sk_term sk))
      \/ (h_term (h msg) = sk_term sk /\ resp = append_response sk'
          /\ ar_commit_lsn resp <= ar_flush_lsn resp)) sk.
Proof.
  intros Hi Hmax.
  pose proof (handle_append_request_good msg require_flush sk Hmax Hi) as Hg.
  assert (wp (handle_append_request msg require_flush) (fun o sk' =>
    forall resp, o = Ok (Some (AAppendResponse resp)) ->
      (h_term (h msg) < sk_term sk /\ sk' = sk
       /\ resp = append_response_term_only (sk_generation sk) (sk_term sk))
      \/ (h_term (h msg) = sk_term sk /\ resp = append_response sk')) sk) as Hr.
  { unfold handle_append_request. do 2 wp_step. do 2 (wp_step; [by wp_step|]).
    wp_step; [wp_step; intros resp [= <-]; by left|]. do 2 (wp_step; [by wp_step|]).
    do 3 (wp_step; apply wp_intro; intros [] ? _; [|done..]).
    do 4 wp_step. wp_step; wp_step; [done|]. intros resp [= <-]. right. split; [lia|done]. }
  unfold wp in *. destruct Hg as [[Hi' _] _]. intros resp Hresp.
  destruct (Hr resp Hresp) as [?|[Ht ->]]; [by left|]. right. split_and!; [done|done|]. simpl.
  pose proof (inv_commit_flushed _ Hi'). pose proof (inv_commit_mem _ Hi'). lia.
Qed.

(** A safekeeper whose stored server version is unknown refuses every
    greeting: the conversion to a major version fails before the check that is
    meant to let an unknown version pass. *)
Theorem greeting_refused_for_unknown_version msg sk :
  pg_version (p_server (sk_pers sk)) = UNKNOWN_SERVER_VERSION ->
  handle_greeting msg sk = (Err "InvalidPgVersion"%string, sk).
Proof.
  intros Hv. unfold handle_greeting, mbind, M_bind, gets, ok_or. simpl.
  destruct (pg_major_try_from (g_pg_version msg)); [|done]. simpl. by rewrite Hv.
Qed.
End properties.

(** ** A safekeeper on the small storage *)

#[local] Existing Instance tree_codec.
#[local] Existing Instance tree_codec_laws.

Abbreviation SmallSK := (SafeKeeper FileStorage (PhysicalStorage ByteDecoder)).

Definition small_file (s : TimelinePersistentState) : FileStorage :=
  {| fs_no_sync := false; fs_state := s; fs_partial := []; fs_synced := false; fs_control := write_to_buf s;
     fs_renamed := [write_to_buf s]; fs_crash := [write_to_buf s]; fs_faults := [] |}.

(** A safekeeper with ten flushed bytes from position 16 on. *)
Definition small_sk : SmallSK :=
  {| term_start_lsn := 0; state := timeline_state_of (small_file (small_state 16));
     wal_store := small_flushed [] []; node_id := 1 |}.

Lemma small_sk_inv : sk_inv small_sk.
Proof.
  split.
  - reflexivity.
  - exact (proj1 small_flushed_inv).
  - vm_compute. discriminate.
  - vm_compute. discriminate.
  - intros r (buf & ->%list_elem_of_singleton & Hl). rewrite load_write_to_buf in Hl.
    injection Hl as <-. unfold rec_ok. pose proof (saved_form_same (small_state 16)) as (-> & -> & ->).
    vm_compute. split_and!; discriminate.
Qed.

Definition vote_5 : ProposerAcceptorMessage := PVoteRequest {| vq_generation := 0; vq_term := 5 |}.

Lemma small_vote_given : vote_of (process_msg vote_5 small_sk).1 = Some 5.
Proof. vm_compute. reflexivity. Qed.

Lemma small_vote_run :
  sk_run small_sk ([(1%nat, 5)] ++ []) (process_msg vote_5 small_sk).2.
Proof.
  eapply run_step; [|apply run_nil].
  pose proof (step_msg 1%nat vote_5 small_sk _ _ I (surjective_pairing _)) as H.
  rewrite small_vote_given in H. exact H.
Qed.

(** The terms before and after the vote. *)
Lemma small_sk_terms : sk_term small_sk = 0 /\ sk_term (process_msg vote_5 small_sk).2 = 5.
Proof. vm_compute. split; reflexivity. Qed.

Lemma run_never_goes_back_witness :
  Forall (fun t => 0 < t <= 5) (snd <$> [(1%nat, 5)]).
Proof.
  pose proof (run_never_goes_back small_sk ([(1%nat, 5)] ++ []) _ small_sk_inv small_vote_run) as H.
  rewrite (proj1 small_sk_terms), (proj2 small_sk_terms) in H. exact (proj1 (proj2 (proj2 H))).
Defined.

(** Three members, of which the first two and the last two vote. *)
Definition three_members : MemberSet :=
  {| m := map (fun i => {| sk_id := i; sk_host := []; sk_pg_port := 0 |}) [1; 2; 3] |}.

Lemma election_safety_witness :
  member_set_new (m three_members) = Ok three_members
  /\ exists votes : Z -> list (nat * Term),
       votes 2 = [(1%nat, 5)] /\ forall p, (p, 5) ∈ votes 2 -> (forall n, votes n = votes 2) -> p = 1%nat.
Proof.
  split; [vm_compute; reflexivity|]. exists (fun _ => [(1%nat, 5)]). split; [reflexivity|]. intros p Hp _.
  eapply (election_safety three_members (fun _ => small_sk) (fun _ => (process_msg vote_5 small_sk).2)
           (fun _ => [(1%nat, 5)] ++ []) [1; 2] [2; 3] p 1%nat 5).
  - intros n _. split; [apply small_sk_inv|apply small_vote_run].
  - apply (bool_decide_unpack _). vm_compute. exact I.
  - apply (bool_decide_unpack _). vm_compute. exact I.
  - intros n. rewrite !elem_of_cons. intros [->|[->|[]%not_elem_of_nil]]; by split.
  - intros n. rewrite !elem_of_cons. intros Hn. split; [|by apply list_elem_of_singleton].
    destruct Hn as [->|[->|[]%not_elem_of_nil]]; reflexivity.
  - vm_compute. lia.
  - vm_compute. lia.
Defined.

Lemma process_msg_safe_witness :
  wp (process_msg vote_5) (fun o sk' =>
    forall t, vote_of o = Some t -> 0 < t /\
      forall r, may_recover (pers (state sk')) r -> t <= term (p_acceptor_state r)) small_sk.
Proof.
  eapply wp_mono; [exact (process_msg_safe vote_5 small_sk small_sk_inv I)|].
  intros o sk' (_ & _ & _ & H). rewrite (proj1 small_sk_terms) in H. exact H.
Defined.

(** A peer with the same last log term reports 24 and one reports 100. *)
Lemma record_safekeeper_info_commit_witness :
  i_commit_lsn (sk_inmem (record_safekeeper_info {| si_last_log_term := 0; si_commit_lsn := 24 |} small_sk).2) = 24
  /\ i_commit_lsn (sk_inmem (record_safekeeper_info {| si_last_log_term := 0; si_commit_lsn := 100 |} small_sk).2) = 26.
Proof.
  split;
    (eapply (eq_trans (proj2 (proj2 (record_safekeeper_info_commit _ small_sk small_sk_inv)))); vm_compute; reflexivity).
Defined.

Definition append_5 : AppendRequest :=
  {| h := {| h_generation := 0; h_term := 0; begin_lsn := 26; end_lsn := 31; h_commit_lsn := 28;
             h_truncate_lsn := 16 |}; wal_data := some_bytes 5 |}.

Lemma append_response_truthful_witness :
  exists resp, (handle_append_request append_5 true small_sk).1 = Ok (Some (AAppendResponse resp))
    /\ ar_flush_lsn resp = 31 /\ ar_commit_lsn resp <= 31.
Proof.
  eexists. split; [vm_compute; reflexivity|]. split; [reflexivity|].
  pose proof (append_response_truthful append_5 true small_sk small_sk_inv ltac:(vm_compute; discriminate)) as H.
  edestruct H as [(Hlt & _)|(_ & _ & Hle)]; [vm_compute; reflexivity|vm_compute in Hlt; discriminate|exact Hle].
Defined.

Definition unknown_version_sk : SmallSK :=
  {| term_start_lsn := 0;
     state := timeline_state_of (small_file
       (set_server {| pg_version := 0; system_id := 7; wal_seg_size := 32 |} (small_state 16)));
     wal_store := small_flushed [] []; node_id := 1 |}.

Lemma greeting_refused_for_unknown_version_witness :
  (handle_greeting {| g_tenant_id := replicate 16 Byte.x01; g_timeline_id := replicate 16 Byte.x02;
                      g_mconf := configuration_empty; g_pg_version := 160002; g_system_id := 7;
                      g_wal_seg_size := 32 |} unknown_version_sk).1 = Err "InvalidPgVersion"%string.
Proof. rewrite greeting_refused_for_unknown_version; reflexivity. Defined.
