(* ===== verification/Key.v ===== *)
(** * Keys of the page store ([libs/pageserver_api/src/key.rs], [reltag.rs])

    The 18-byte key of six fields, its order, its forms as a 128-bit integer, as
    bytes and as hexadecimal text, and the layout of the key space: which key
    holds which relation block, SLRU block or directory.  A [None] or [Panic] is
    a failed assertion, [expect] or slice of the source. *)

From S2P Require Import Prelude Lsn XlogUtils.

Record Key := mkKey {
  field1 : Z; field2 : Z; field3 : Z; field4 : Z; field5 : Z; field6 : Z
}.

#[global] Instance Key_eq_dec : EqDecision Key.
Proof. solve_decision. Defined.

(** The field types: [u8], [u32], [u32], [u32], [u8], [u32]. *)
Definition key_wf (k : Key) : Prop :=
  in_u 8 (field1 k) /\ in_u 32 (field2 k) /\ in_u 32 (field3 k)
  /\ in_u 32 (field4 k) /\ in_u 8 (field5 k) /\ in_u 32 (field6 k).

(** The derived [Ord]: lexicographic in the order of the fields. *)
Definition key_fields (k : Key) : list Z :=
  [field1 k; field2 k; field3 k; field4 k; field5 k; field6 k].

Fixpoint lex_cmp (a b : list Z) : comparison :=
  match a, b with
  | [], [] => Eq
  | [], _ :: _ => Lt
  | _ :: _, [] => Gt
  | x :: a, y :: b => match x ?= y with Eq => lex_cmp a b | c => c end
  end.

Definition key_cmp (a b : Key) : comparison := lex_cmp (key_fields a) (key_fields b).
Definition key_ltb (a b : Key) : bool := match key_cmp a b with Lt => true | _ => false end.
Definition key_leb (a b : Key) : bool := match key_cmp a b with Gt => false | _ => true end.

(** [std::ops::Range]. *)
Record Range (A : Type) := mkRange { start : A; end_ : A }.
Arguments mkRange {A}.
Arguments start {A}.
Arguments end_ {A}.

#[global] Instance Range_eq_dec {A} `{!EqDecision A} : EqDecision (Range A).
Proof. solve_decision. Defined.

Definition range_contains (r : Range Key) (k : Key) : bool :=
  key_leb (start r) k && key_ltb k (end_ r).
Definition range_is_empty (r : Range Key) : bool := negb (key_ltb (start r) (end_ r)).

Definition KEY_SIZE : nat := 18.
Definition METADATA_KEY_SIZE : nat := 16.
Definition METADATA_KEY_BEGIN_PREFIX : Z := 0x60.
Definition METADATA_KEY_END_PREFIX : Z := 0x7F.
Definition RELATION_SIZE_PREFIX : Z := 0x61.
Definition AUX_KEY_PREFIX : Z := 0x62.
Definition REPL_ORIGIN_KEY_PREFIX : Z := 0x63.
Definition REL_DIR_KEY_PREFIX : Z := 0x65.

Definition KEY_MIN : Key := mkKey 0 0 0 0 0 0.
Definition KEY_MAX : Key := mkKey u8_max u32_max u32_max u32_max u8_max u32_max.

(** ** Markers of the relation directory *)

Inductive RelDirExists : Set := Exists | Removed.
Inductive DecodeError : Set := InvalidMarker.

Definition REL_EXISTS_MARKER : list byte := str "r".
Definition SPARSE_TOMBSTONE_MARKER : list byte := [].

Definition rel_dir_exists_encode (self : RelDirExists) : list byte :=
  match self with
  | Exists => REL_EXISTS_MARKER
  | Removed => SPARSE_TOMBSTONE_MARKER
  end.

Definition decode_option (data : option (list byte)) : sum DecodeError RelDirExists :=
  match data with
  | Some marker => if decide (marker = REL_EXISTS_MARKER) then inr Exists else inl InvalidMarker
  | None => inr Removed
  end.

Definition rel_dir_exists_decode (data : list byte) : sum DecodeError RelDirExists :=
  if decide (data = REL_EXISTS_MARKER) then inr Exists
  else if decide (data = SPARSE_TOMBSTONE_MARKER) then inr Removed
  else inl InvalidMarker.

(** ** The key as an integer *)

Definition is_i128_representable (k : Key) : bool :=
  bool_decide (field2 k <= 0xFFFF) || bool_decide (field2 k = 0xFFFFFFFF)
  || bool_decide (field2 k = 0x22222222).

(** The value [to_i128] computes once its assertion has passed. *)
Definition i128_bits (k : Key) : Z :=
  Z.lor (Z.lor (Z.lor (Z.lor (Z.lor
    (Z.shiftl (Z.land (field1 k) 0x7F) 120)
    (Z.shiftl (Z.land (field2 k) 0xFFFF) 104))
    (Z.shiftl (field3 k) 72))
    (Z.shiftl (field4 k) 40))
    (Z.shiftl (field5 k) 32))
    (field6 k).

Definition to_i128 (k : Key) : option Z :=
  if is_i128_representable k then Some (i128_bits k) else None.

Definition from_i128 (x : Z) : Key :=
  mkKey (Z.land (Z.shiftr x 120) 0x7F) (Z.land (Z.shiftr x 104) 0xFFFF)
        (wrap 32 (Z.shiftr x 72)) (wrap 32 (Z.shiftr x 40))
        (wrap 8 (Z.shiftr x 32)) (wrap 32 x).

Definition is_metadata_key_slice (key : list byte) : option bool :=
  b ← head key;
  Some (bool_decide (METADATA_KEY_BEGIN_PREFIX <= byte_Z b)
        && bool_decide (byte_Z b < METADATA_KEY_END_PREFIX)).

Definition is_metadata_key (k : Key) : bool :=
  bool_decide (METADATA_KEY_BEGIN_PREFIX <= field1 k)
  && bool_decide (field1 k < METADATA_KEY_END_PREFIX).

(** [i128::from_be_bytes] reads two's complement. *)
Definition from_metadata_key_fixed_size (key : list byte) : option Key :=
  ok ← is_metadata_key_slice key;
  if ok : bool then Some (from_i128 (as_signed 128 (be_Z key))) else None.

Definition from_metadata_key (key : list byte) : option Key :=
  if decide (length key = METADATA_KEY_SIZE) then from_metadata_key_fixed_size key else None.

Definition is_valid_key_on_write_path (k : Key) : bool := is_i128_representable k.

Definition DEFAULTTABLESPACE_OID : Z := 1663.
Definition GLOBALTABLESPACE_OID : Z := 1664.

Definition is_valid_key_on_write_path_strong (k : Key) : bool :=
  if negb (is_i128_representable k) then false
  else if bool_decide (field1 k = 0)
          && negb (bool_decide (field2 k = GLOBALTABLESPACE_OID)
                   || bool_decide (field2 k = DEFAULTTABLESPACE_OID)
                   || bool_decide (field2 k = 0))
  then false
  else true.

(** [overflowing_add] on [w] bits. *)
Definition overflowing_add (w a b : Z) : Z * bool :=
  (wrap w (a + b), bool_decide (2 ^ w <= a + b)).

Definition key_add (self : Key) (x : Z) : option Key :=
  let '(f6, c6) := overflowing_add 32 (field6 self) x in
  let '(mkKey f1 f2 f3 f4 f5 _) := self in
  if negb c6 then Some (mkKey f1 f2 f3 f4 f5 f6) else
  let '(f5, c5) := overflowing_add 8 f5 1 in
  if negb c5 then Some (mkKey f1 f2 f3 f4 f5 f6) else
  let '(f4, c4) := overflowing_add 32 f4 1 in
  if negb c4 then Some (mkKey f1 f2 f3 f4 f5 f6) else
  let '(f3, c3) := overflowing_add 32 f3 1 in
  if negb c3 then Some (mkKey f1 f2 f3 f4 f5 f6) else
  let '(f2, c2) := overflowing_add 32 f2 1 in
  if negb c2 then Some (mkKey f1 f2 f3 f4 f5 f6) else
  let '(f1, c1) := overflowing_add 8 f1 1 in
  if negb c1 then Some (mkKey f1 f2 f3 f4 f5 f6) else None.

Definition key_next (self : Key) : option Key := key_add self 1.

(** ** The key as bytes and as text *)

Definition write_to_byte_slice (k : Key) : list byte :=
  [Z_byte (field1 k)] ++ be_bytes 4 (field2 k) ++ be_bytes 4 (field3 k)
  ++ be_bytes 4 (field4 k) ++ [Z_byte (field5 k)] ++ be_bytes 4 (field6 k).

Definition be_field (a b : nat) (s : list byte) : option Z := be_Z <$> slice a b s.

Definition from_slice (b : list byte) : option Key :=
  f1 ← be_field 0 1 b; f2 ← be_field 1 5 b; f3 ← be_field 5 9 b;
  f4 ← be_field 9 13 b; f5 ← be_field 13 14 b; f6 ← be_field 14 18 b;
  Some (mkKey f1 f2 f3 f4 f5 f6).

Definition key_fmt (k : Key) : list byte :=
  fmt_hex_pad 2 (field1 k) ++ fmt_hex_pad 8 (field2 k) ++ fmt_hex_pad 8 (field3 k)
  ++ fmt_hex_pad 8 (field4 k) ++ fmt_hex_pad 2 (field5 k) ++ fmt_hex_pad 8 (field6 k).

Inductive key_parse_error : Set := WrongLength | InvalidDigit.

(** [str::is_char_boundary]: a byte of the form [10xxxxxx] is inside a character. *)
Definition is_char_boundary (s : list byte) (i : nat) : bool :=
  match s !! i with
  | Some b => negb (bool_decide (128 <= byte_Z b < 192))
  | None => bool_decide (i = length s)
  end.

(** [uN::from_str_radix(&s[a..b], 16)?]; the slice panics inside a character. *)
Definition key_hex_field (w : Z) (a b : nat) (s : list byte) : outcome key_parse_error Z :=
  if is_char_boundary s a && is_char_boundary s b then
    match slice a b s with
    | None => Panic
    | Some f => match from_str_radix_16 w f with Some n => Ok n | None => Err InvalidDigit end
    end
  else Panic.

Definition key_from_hex (s : list byte) : outcome key_parse_error Key :=
  if decide (length s <> 36%nat) then Err WrongLength else
  f1 ← key_hex_field 8 0 2 s;
  f2 ← key_hex_field 32 2 10 s;
  f3 ← key_hex_field 32 10 18 s;
  f4 ← key_hex_field 32 18 26 s;
  f5 ← key_hex_field 8 26 28 s;
  f6 ← key_hex_field 32 28 36 s;
  Ok (mkKey f1 f2 f3 f4 f5 f6).

(** ** The layout of the key space *)

Record RelTag := mkRelTag { forknum : Z; spcnode : Z; dbnode : Z; relnode : Z }.

#[global] Instance RelTag_eq_dec : EqDecision RelTag.
Proof. solve_decision. Defined.

Definition rel_wf (r : RelTag) : Prop :=
  in_u 8 (forknum r) /\ in_u 32 (spcnode r) /\ in_u 32 (dbnode r) /\ in_u 32 (relnode r).

(** The custom [Ord] of [RelTag] puts the fork number last. *)
Definition rel_cmp (a b : RelTag) : comparison :=
  lex_cmp [spcnode a; dbnode a; relnode a; forknum a]
          [spcnode b; dbnode b; relnode b; forknum b].

Inductive SlruKind : Set := Clog | MultiXactMembers | MultiXactOffsets.

#[global] Instance SlruKind_eq_dec : EqDecision SlruKind.
Proof. solve_decision. Defined.

Definition FSM_FORKNUM : Z := 1.
Definition VISIBILITYMAP_FORKNUM : Z := 2.
Definition INIT_FORKNUM : Z := 3.

Definition DBDIR_KEY : Key := mkKey 0 0 0 0 0 0.

Definition dbdir_key_range (spcnode dbnode : Z) : Range Key :=
  mkRange (mkKey 0 spcnode dbnode 0 0 0)
          (mkKey 0 spcnode dbnode 0xffffffff 0xff 0xffffffff).

Definition relmap_file_key (spcnode dbnode : Z) : Key := mkKey 0 spcnode dbnode 0 0 0.
Definition rel_dir_to_key (spcnode dbnode : Z) : Key := mkKey 0 spcnode dbnode 0 0 1.

Definition rel_tag_sparse_key (spcnode dbnode relnode forknum : Z) : Key :=
  mkKey REL_DIR_KEY_PREFIX spcnode dbnode relnode forknum 1.

Definition rel_tag_sparse_key_range (spcnode dbnode : Z) : Range Key :=
  mkRange (mkKey REL_DIR_KEY_PREFIX spcnode dbnode 0 0 0)
          (mkKey REL_DIR_KEY_PREFIX spcnode dbnode u32_max u8_max u32_max).

Definition rel_block_to_key (rel : RelTag) (blknum : Z) : Key :=
  mkKey 0 (spcnode rel) (dbnode rel) (relnode rel) (forknum rel) blknum.

Definition rel_size_to_key (rel : RelTag) : Key :=
  mkKey 0 (spcnode rel) (dbnode rel) (relnode rel) (forknum rel) 0xffffffff.

(** [rel.forknum + 1] on a [u8]: [None] is the overflow. *)
Definition rel_key_range (rel : RelTag) : option (Range Key) :=
  if decide (forknum rel + 1 < 2 ^ 8) then
    Some (mkRange (mkKey 0 (spcnode rel) (dbnode rel) (relnode rel) (forknum rel) 0)
                  (mkKey 0 (spcnode rel) (dbnode rel) (relnode rel) (forknum rel + 1) 0))
  else None.

Definition slru_field2 (kind : SlruKind) : Z :=
  match kind with Clog => 0 | MultiXactMembers => 1 | MultiXactOffsets => 2 end.

Definition slru_dir_to_key (kind : SlruKind) : Key := mkKey 1 (slru_field2 kind) 0 0 0 0.

Definition slru_dir_kind (k : Key) : option (sum Z SlruKind) :=
  if bool_decide (field1 k = 1) && bool_decide (field3 k = 0) && bool_decide (field4 k = 0)
     && bool_decide (field5 k = 0) && bool_decide (field6 k = 0)
  then
    if decide (field2 k = 0) then Some (inr Clog)
    else if decide (field2 k = 1) then Some (inr MultiXactMembers)
    else if decide (field2 k = 2) then Some (inr MultiXactOffsets)
    else Some (inl (field2 k))
  else None.

Definition slru_block_to_key (kind : SlruKind) (segno blknum : Z) : Key :=
  mkKey 1 (slru_field2 kind) 1 segno 0 blknum.

Definition slru_segment_size_to_key (kind : SlruKind) (segno : Z) : Key :=
  mkKey 1 (slru_field2 kind) 1 segno 0 0xffffffff.

Definition slru_segment_key_range (kind : SlruKind) (segno : Z) : Range Key :=
  mkRange (mkKey 1 (slru_field2 kind) 1 segno 0 0) (mkKey 1 (slru_field2 kind) 1 segno 1 0).

Definition TWOPHASEDIR_KEY : Key := mkKey 2 0 0 0 0 0.

Definition xid_field4 (xid : Z) : Z := wrap 32 (Z.shiftr (Z.land xid 0xFFFFFF0000000000) 40).
Definition xid_field5 (xid : Z) : Z := wrap 8 (Z.shiftr (Z.land xid 0x000000FF00000000) 32).
Definition xid_field6 (xid : Z) : Z := wrap 32 (Z.land xid 0x00000000FFFFFFFF).

Definition twophase_file_key (xid : Z) : Key :=
  mkKey 2 0 0 (xid_field4 xid) (xid_field5 xid) (xid_field6 xid).

Definition twophase_key_range (xid : Z) : Range Key :=
  let '(next_xid, overflowed) := overflowing_add 64 xid 1 in
  mkRange (mkKey 2 0 0 (xid_field4 xid) (xid_field5 xid) (xid_field6 xid))
          (mkKey 2 0 (if overflowed then 1 else 0)
                 (xid_field4 next_xid) (xid_field5 next_xid) (xid_field6 next_xid)).

Definition CONTROLFILE_KEY : Key := mkKey 3 0 0 0 0 0.
Definition CHECKPOINT_KEY : Key := mkKey 3 0 0 0 0 1.
Definition AUX_FILES_KEY : Key := mkKey 3 0 0 0 0 2.

Definition repl_origin_key (origin_id : Z) : Key :=
  mkKey REPL_ORIGIN_KEY_PREFIX 0 0 0 0 origin_id.

Definition repl_origin_key_range : Range Key :=
  mkRange (mkKey REPL_ORIGIN_KEY_PREFIX 0 0 0 0 0)
          (mkKey REPL_ORIGIN_KEY_PREFIX 0 0 0 0 0x10000).

Definition metadata_key_range : Range Key :=
  mkRange (mkKey METADATA_KEY_BEGIN_PREFIX 0 0 0 0 0) (mkKey METADATA_KEY_END_PREFIX 0 0 0 0 0).

Definition metadata_aux_key_range : Range Key :=
  mkRange (mkKey AUX_KEY_PREFIX 0 0 0 0 0) (mkKey (AUX_KEY_PREFIX + 1) 0 0 0 0 0).

Definition rel_dir_sparse_key_range : Range Key :=
  mkRange (mkKey REL_DIR_KEY_PREFIX 0 0 0 0 0) (mkKey (REL_DIR_KEY_PREFIX + 1) 0 0 0 0 0).

Definition sparse_non_inherited_keyspace : Range Key :=
  mkRange (mkKey AUX_KEY_PREFIX 0 0 0 0 0) (mkKey (REPL_ORIGIN_KEY_PREFIX + 1) 0 0 0 0 0).

(** [AUX_FILES_KEY..AUX_FILES_KEY.next()], a constant expression. *)
Definition NON_INHERITED_RANGE : Range Key :=
  mkRange AUX_FILES_KEY (default KEY_MAX (key_next AUX_FILES_KEY)).
Definition SPARSE_RANGE : Range Key := metadata_key_range.

(** ** Classification of keys *)

Definition is_rel_size_key (k : Key) : bool :=
  bool_decide (field1 k = 0) && bool_decide (field6 k = u32_max).

Definition is_slru_segment_size_key (k : Key) : bool :=
  bool_decide (field1 k = 1) && bool_decide (field2 k < 3) && bool_decide (field3 k = 1)
  && bool_decide (field5 k = 0) && bool_decide (field6 k = u32_max).

Definition is_slru_dir_key (k : Key) : bool := bool_decide (is_Some (slru_dir_kind k)).

Definition is_sparse (k : Key) : bool :=
  bool_decide (METADATA_KEY_BEGIN_PREFIX <= field1 k)
  && bool_decide (field1 k < METADATA_KEY_END_PREFIX).

Definition is_inherited_sparse_key (k : Key) : bool := bool_decide (field1 k = RELATION_SIZE_PREFIX).

Definition is_inherited_key (k : Key) : bool :=
  if is_sparse k then is_inherited_sparse_key k
  else negb (range_contains NON_INHERITED_RANGE k).

Definition is_rel_fsm_block_key (k : Key) : bool :=
  bool_decide (field1 k = 0) && bool_decide (field4 k <> 0)
  && bool_decide (field5 k = FSM_FORKNUM) && bool_decide (field6 k <> 0xffffffff).

Definition is_rel_vm_block_key (k : Key) : bool :=
  bool_decide (field1 k = 0) && bool_decide (field4 k <> 0)
  && bool_decide (field5 k = VISIBILITYMAP_FORKNUM) && bool_decide (field6 k <> 0xffffffff).

Definition is_slru_block_key (k : Key) : bool :=
  bool_decide (field1 k = 1) && bool_decide (field3 k = 1) && bool_decide (field6 k <> 0xffffffff).

Definition is_rel_block_key (k : Key) : bool :=
  bool_decide (field1 k = 0) && bool_decide (field4 k <> 0) && bool_decide (field6 k <> 0xffffffff).

Definition is_rel_block_of_rel (k : Key) (rel : Z) : bool :=
  is_rel_block_key k && bool_decide (field4 k = rel).

Definition is_rel_dir_key (k : Key) : bool :=
  bool_decide (field1 k = 0) && bool_decide (field2 k <> 0) && bool_decide (field3 k <> 0)
  && bool_decide (field4 k = 0) && bool_decide (field5 k = 0) && bool_decide (field6 k = 1).

Definition is_aux_file_key (k : Key) : bool := bool_decide (field1 k = AUX_KEY_PREFIX).

Inductive key_kind_error : Set := UnrecognizedSlruKind (kind : Z) | UnexpectedValueKind (kind : Z).

Definition to_slru_block (k : Key) : sum key_kind_error (SlruKind * Z * Z) :=
  if decide (field1 k = 1) then
    if decide (field2 k = 0) then inr (Clog, field4 k, field6 k)
    else if decide (field2 k = 1) then inr (MultiXactMembers, field4 k, field6 k)
    else if decide (field2 k = 2) then inr (MultiXactOffsets, field4 k, field6 k)
    else inl (UnrecognizedSlruKind (field2 k))
  else inl (UnexpectedValueKind (field1 k)).

Definition to_rel_block (k : Key) : sum key_kind_error (RelTag * Z) :=
  if decide (field1 k = 0) then
    inr (mkRelTag (field5 k) (field2 k) (field3 k) (field4 k), field6 k)
  else inl (UnexpectedValueKind (field1 k)).

(** ** The order of keys is the order of 144-bit integers *)

Definition key_Z (k : Key) : Z :=
  ((((field1 k * 2 ^ 32 + field2 k) * 2 ^ 32 + field3 k) * 2 ^ 32 + field4 k) * 2 ^ 8
   + field5 k) * 2 ^ 32 + field6 k.

(** [key_unfold] exposes the bounds of the fields to [lia]. *)
Ltac key_unfold :=
  unfold key_Z, key_wf, in_u in *;
  change (2 ^ 8) with 256 in *; change (2 ^ 32) with 4294967296 in *.

Lemma key_Z_bound k : key_wf k -> 0 <= key_Z k < 2 ^ 144.
Proof. intros H. key_unfold. change (2 ^ 144) with (2 ^ 72 * 2 ^ 72). lia. Qed.

(** One digit of a lexicographic comparison in base [b]. *)
Lemma compare_digit b x y u v :
  0 <= u < b -> 0 <= v < b ->
  (x * b + u ?= y * b + v) = match x ?= y with Eq => u ?= v | c => c end.
Proof.
  intros Hu Hv. destruct (Z.compare_spec x y) as [->|H|H].
  - by rewrite Z.add_compare_mono_l.
  - apply Z.compare_lt_iff. nia.
  - apply Z.compare_gt_iff. nia.
Qed.

Lemma key_cmp_Z a b : key_wf a -> key_wf b -> key_cmp a b = (key_Z a ?= key_Z b).
Proof.
  intros (A1 & A2 & A3 & A4 & A5 & A6) (B1 & B2 & B3 & B4 & B5 & B6). unfold key_Z.
  rewrite !compare_digit by done. unfold key_cmp, key_fields. cbn [lex_cmp].
  repeat (case_match; try done).
Qed.

Lemma key_ltb_Z a b : key_wf a -> key_wf b -> key_ltb a b = bool_decide (key_Z a < key_Z b).
Proof.
  intros Ha Hb. unfold key_ltb. rewrite key_cmp_Z by done.
  destruct (Z.compare_spec (key_Z a) (key_Z b)); case_bool_decide; done || lia.
Qed.

Lemma key_leb_Z a b : key_wf a -> key_wf b -> key_leb a b = bool_decide (key_Z a <= key_Z b).
Proof.
  intros Ha Hb. unfold key_leb. rewrite key_cmp_Z by done.
  destruct (Z.compare_spec (key_Z a) (key_Z b)); case_bool_decide; done || lia.
Qed.

(** A digit split: the quotient and the remainder are determined. *)
Lemma digit_inj b x y u v :
  0 <= u < b -> 0 <= v < b -> x * b + u = y * b + v -> x = y /\ u = v.
Proof. intros Hu Hv E. assert (x = y) by nia. subst. lia. Qed.

Lemma key_Z_inj a b : key_wf a -> key_wf b -> key_Z a = key_Z b -> a = b.
Proof.
  intros (A1 & A2 & A3 & A4 & A5 & A6) (B1 & B2 & B3 & B4 & B5 & B6) E.
  unfold key_Z in E. do 5 (apply digit_inj in E as [E ?]; [|done|done]).
  destruct a, b. cbn [field1 field2 field3 field4 field5 field6] in *. congruence.
Qed.

(** ** Addition *)

Lemma overflowing_add_cases w a b :
  0 <= w -> in_u w a -> 0 <= b <= 2 ^ w ->
  overflowing_add w a b = (a + b, false) /\ a + b < 2 ^ w
  \/ overflowing_add w a b = (a + b - 2 ^ w, true) /\ 2 ^ w <= a + b.
Proof.
  intros Hw Ha Hb. unfold overflowing_add, in_u in *. case_bool_decide.
  - right. split; [|done]. f_equal. unfold wrap. symmetry.
    apply (Z.mod_unique _ _ 1); lia.
  - left. split; [|lia]. f_equal. apply wrap_small. unfold in_u. lia.
Qed.

Lemma key_add_Z k x :
  key_wf k -> in_u 32 x ->
  match key_add k x with
  | Some k' => key_wf k' /\ key_Z k' = key_Z k + x
  | None => 2 ^ 144 <= key_Z k + x
  end.
Proof.
  destruct k as [f1 f2 f3 f4 f5 f6]. intros (H1 & H2 & H3 & H4 & H5 & H6) Hx.
  cbn [field1 field2 field3 field4 field5 field6] in *.
  unfold key_add. cbn [field6].
  assert (1 <= 2 ^ 8 /\ 1 <= 2 ^ 32) by done.
  destruct (overflowing_add_cases 32 f6 x) as [[-> O6]|[-> O6]]; [lia|done|unfold in_u in *; lia|..];
    cbn [negb].
  { unfold key_Z, key_wf, in_u in *. cbn [field1 field2 field3 field4 field5 field6]. lia. }
  destruct (overflowing_add_cases 8 f5 1) as [[-> O5]|[-> O5]]; [lia|done|lia|..]; cbn [negb].
  { key_unfold. cbn [field1 field2 field3 field4 field5 field6]. lia. }
  destruct (overflowing_add_cases 32 f4 1) as [[-> O4]|[-> O4]]; [lia|done|lia|..]; cbn [negb].
  { key_unfold. cbn [field1 field2 field3 field4 field5 field6]. lia. }
  destruct (overflowing_add_cases 32 f3 1) as [[-> O3]|[-> O3]]; [lia|done|lia|..]; cbn [negb].
  { key_unfold. cbn [field1 field2 field3 field4 field5 field6]. lia. }
  destruct (overflowing_add_cases 32 f2 1) as [[-> O2]|[-> O2]]; [lia|done|lia|..]; cbn [negb].
  { key_unfold. cbn [field1 field2 field3 field4 field5 field6]. lia. }
  destruct (overflowing_add_cases 8 f1 1) as [[-> O1]|[-> O1]]; [lia|done|lia|..]; cbn [negb].
  { key_unfold. cbn [field1 field2 field3 field4 field5 field6]. lia. }
  key_unfold. cbn [field1 field2 field3 field4 field5 field6] in *.
  change (2 ^ 144) with (2 ^ 72 * 2 ^ 72). lia.
Qed.

(** Adding to a key is addition on the 144-bit integer that orders keys: the
    carry runs through the fields, the result is again a key, and the assertion
    fails exactly when the sum is past the last key. *)
Theorem key_add_is_addition (k : Key) (x : Z) :
  key_wf k -> in_u 32 x ->
  (forall k', key_add k x = Some k' ->
     key_wf k' /\ key_Z k' = key_Z k + x /\ (0 < x -> key_ltb k k' = true))
  /\ (key_add k x = None <-> key_Z KEY_MAX < key_Z k + x).
Proof.
  intros Hk Hx. pose proof (key_add_Z k x Hk Hx) as H. split.
  - intros k' E. rewrite E in H. destruct H as [Hw E']. split_and!; [done|done|].
    intros. rewrite key_ltb_Z by done. case_bool_decide; [done|lia].
  - assert (key_Z KEY_MAX = 2 ^ 144 - 1) as -> by reflexivity.
    destruct (key_add k x) as [k'|]; [|by split; intros; [lia|]].
    destruct H as [Hw E]. apply key_Z_bound in Hw. split; [done|lia].
Qed.

Lemma key_add_is_addition_witness :
  exists k', key_add (mkKey 0 1663 5 16384 255 u32_max) 2 = Some k'
  /\ key_Z k' = key_Z (mkKey 0 1663 5 16384 255 u32_max) + 2 /\ field4 k' = 16385.
Proof.
  destruct (key_add_is_addition (mkKey 0 1663 5 16384 255 u32_max) 2) as [H _];
    [by vm_compute|by vm_compute|].
  eexists. split_and!; [reflexivity|by apply H|reflexivity].
Defined.

(** ** The 128-bit form *)

Lemma lor_add_low a b k : 0 <= k -> a mod 2 ^ k = 0 -> 0 <= b < 2 ^ k -> Z.lor a b = a + b.
Proof.
  intros Hk Ha Hb. pose proof (Z.div_mod a (2 ^ k)) as E.
  assert (a = Z.shiftl (a / 2 ^ k) k) as E'.
  { rewrite Z.shiftl_mul_pow2 by done. lia. }
  rewrite E' at 1. rewrite lor_shiftl_add by done. lia.
Qed.

Lemma land_mask_small x m k : m = Z.ones k -> 0 <= k -> Z.land x m = x mod 2 ^ k.
Proof. intros -> Hk. by apply Z.land_ones. Qed.

Lemma i128_bits_Z k :
  key_wf k ->
  i128_bits k = (((((field1 k mod 128) * 2 ^ 16 + field2 k mod 65536) * 2 ^ 32 + field3 k) * 2 ^ 32
                 + field4 k) * 2 ^ 8 + field5 k) * 2 ^ 32 + field6 k.
Proof.
  intros (H1 & H2 & H3 & H4 & H5 & H6). unfold i128_bits.
  rewrite (land_mask_small _ 0x7F 7), (land_mask_small _ 0xFFFF 16) by done.
  change (field1 k mod 2 ^ 7) with (field1 k mod 128).
  change (field2 k mod 2 ^ 16) with (field2 k mod 65536).
  pose proof (Z.mod_pos_bound (field1 k) 128 ltac:(lia)).
  pose proof (Z.mod_pos_bound (field2 k) 65536 ltac:(lia)).
  rewrite !Z.shiftl_mul_pow2 by done. unfold in_u in *.
  set (a := field1 k mod 128) in *. set (b := field2 k mod 65536) in *.
  rewrite (lor_add_low _ (b * 2 ^ 104) 120); [|done|by apply Z.mod_mul|lia].
  rewrite (lor_add_low _ (field3 k * 2 ^ 72) 104); [|done|..|lia]; cycle 1.
  { replace (a * 2 ^ 120 + b * 2 ^ 104) with ((a * 2 ^ 16 + b) * 2 ^ 104) by lia.
    by apply Z.mod_mul. }
  rewrite (lor_add_low _ (field4 k * 2 ^ 40) 72); [|done|..|lia]; cycle 1.
  { replace (a * 2 ^ 120 + b * 2 ^ 104 + field3 k * 2 ^ 72)
      with ((a * 2 ^ 48 + b * 2 ^ 32 + field3 k) * 2 ^ 72) by lia. by apply Z.mod_mul. }
  rewrite (lor_add_low _ (field5 k * 2 ^ 32) 40); [|done|..|lia]; cycle 1.
  { replace (a * 2 ^ 120 + b * 2 ^ 104 + field3 k * 2 ^ 72 + field4 k * 2 ^ 40)
      with ((a * 2 ^ 80 + b * 2 ^ 64 + field3 k * 2 ^ 32 + field4 k) * 2 ^ 40) by lia.
    by apply Z.mod_mul. }
  rewrite (lor_add_low _ (field6 k) 32); [|done|..|lia]; cycle 1.
  { replace (a * 2 ^ 120 + b * 2 ^ 104 + field3 k * 2 ^ 72 + field4 k * 2 ^ 40 + field5 k * 2 ^ 32)
      with ((a * 2 ^ 88 + b * 2 ^ 72 + field3 k * 2 ^ 40 + field4 k * 2 ^ 8 + field5 k) * 2 ^ 32)
      by lia.
    by apply Z.mod_mul. }
  lia.
Qed.

(** The keys the 128-bit form distinguishes: the masks drop nothing. *)
Definition key_compact (k : Key) : Prop := field1 k < 128 /\ field2 k < 65536.

Lemma i128_bits_compact k :
  key_wf k -> key_compact k ->
  i128_bits k = ((((field1 k * 2 ^ 16 + field2 k) * 2 ^ 32 + field3 k) * 2 ^ 32
                 + field4 k) * 2 ^ 8 + field5 k) * 2 ^ 32 + field6 k.
Proof.
  intros Hk [H1 H2]. rewrite i128_bits_Z by done. destruct Hk as (? & ? & _). unfold in_u in *.
  by rewrite !Z.mod_small by lia.
Qed.

(** The top digit of a number written as [h * b + d]. *)
Lemma div_digit b x u : 0 <= u < b -> (x * b + u) / b = x.
Proof. intros Hu. symmetry. by apply (Z.div_unique _ _ _ u); lia. Qed.

Lemma mod_digit b x u : 0 <= u < b -> (x * b + u) mod b = u.
Proof. intros Hu. symmetry. by apply (Z.mod_unique _ _ x u); lia. Qed.

Lemma from_i128_fields a b c d e f :
  0 <= a < 2 ^ 7 -> 0 <= b < 2 ^ 16 -> in_u 32 c -> in_u 32 d -> in_u 8 e -> in_u 32 f ->
  from_i128 (((((a * 2 ^ 16 + b) * 2 ^ 32 + c) * 2 ^ 32 + d) * 2 ^ 8 + e) * 2 ^ 32 + f)
  = mkKey a b c d e f.
Proof.
  intros Ha Hb Hc Hd He Hf. unfold from_i128, wrap.
  rewrite !Z.shiftr_div_pow2 by done.
  rewrite (land_mask_small _ 0x7F 7), (land_mask_small _ 0xFFFF 16) by done.
  change (2 ^ 120) with (2 ^ 32 * 2 ^ 8 * 2 ^ 32 * 2 ^ 32 * 2 ^ 16).
  change (2 ^ 104) with (2 ^ 32 * 2 ^ 8 * 2 ^ 32 * 2 ^ 32).
  change (2 ^ 72) with (2 ^ 32 * 2 ^ 8 * 2 ^ 32). change (2 ^ 40) with (2 ^ 32 * 2 ^ 8).
  rewrite <- !Z.div_div by done.
  repeat rewrite div_digit by done. rewrite !mod_digit by done.
  by rewrite Z.mod_small.
Qed.

(** A key is determined by, and ordered as, its 128-bit form. *)
Lemma from_i128_bits k : key_wf k -> key_compact k -> from_i128 (i128_bits k) = k.
Proof.
  intros Hk Hc. rewrite i128_bits_compact by done. destruct Hk as (? & ? & ? & ? & ? & ?), Hc.
  unfold in_u in *. rewrite from_i128_fields by (unfold in_u; lia). by destruct k.
Qed.

Lemma i128_bits_mono a b :
  key_wf a -> key_compact a -> key_wf b -> key_compact b ->
  (i128_bits a ?= i128_bits b) = (key_Z a ?= key_Z b).
Proof.
  intros Ha Ca Hb Cb. rewrite !i128_bits_compact by done.
  destruct Ha as (A1 & A2 & A3 & A4 & A5 & A6), Hb as (B1 & B2 & B3 & B4 & B5 & B6), Ca, Cb.
  unfold key_Z. rewrite !compare_digit; unfold in_u in *; try lia; done.
Qed.

Lemma i128_bits_bound k : key_wf k -> 0 <= i128_bits k < 2 ^ 127.
Proof.
  intros Hk. rewrite i128_bits_Z by done.
  pose proof (Z.mod_pos_bound (field1 k) 128 ltac:(lia)).
  pose proof (Z.mod_pos_bound (field2 k) 65536 ltac:(lia)). key_unfold.
  change (2 ^ 16) with 65536 in *. change (2 ^ 127) with (2 ^ 63 * 2 ^ 64). lia.
Qed.

Lemma from_i128_wf x : key_wf (from_i128 x) /\ key_compact (from_i128 x).
Proof.
  unfold from_i128, key_wf, key_compact. cbn [field1 field2 field3 field4 field5 field6].
  rewrite (land_mask_small _ 0x7F 7), (land_mask_small _ 0xFFFF 16) by done.
  pose proof (Z.mod_pos_bound (Z.shiftr x 120) (2 ^ 7) ltac:(done)).
  pose proof (Z.mod_pos_bound (Z.shiftr x 104) (2 ^ 16) ltac:(done)).
  split_and!; try (by apply wrap_in_u); unfold in_u; lia.
Qed.

Lemma i128_bits_from_i128 x : 0 <= x < 2 ^ 127 -> i128_bits (from_i128 x) = x.
Proof.
  intros Hx. destruct (from_i128_wf x) as [Hw Hc]. rewrite i128_bits_compact by done.
  unfold from_i128, wrap. cbn [field1 field2 field3 field4 field5 field6].
  rewrite (land_mask_small _ 0x7F 7), (land_mask_small _ 0xFFFF 16) by done.
  rewrite !Z.shiftr_div_pow2 by done.
  assert (x / 2 ^ 120 < 2 ^ 7) by (apply Z.div_lt_upper_bound; lia).
  pose proof (Z.div_pos x (2 ^ 120)). rewrite (Z.mod_small (x / 2 ^ 120)) by lia.
  change (2 ^ 120) with (2 ^ 32 * 2 ^ 8 * 2 ^ 32 * 2 ^ 32 * 2 ^ 16).
  change (2 ^ 104) with (2 ^ 32 * 2 ^ 8 * 2 ^ 32 * 2 ^ 32).
  change (2 ^ 72) with (2 ^ 32 * 2 ^ 8 * 2 ^ 32). change (2 ^ 40) with (2 ^ 32 * 2 ^ 8).
  rewrite <- !Z.div_div by done.
  pose proof (Z.div_mod x (2 ^ 32)). pose proof (Z.div_mod (x / 2 ^ 32) (2 ^ 8)).
  pose proof (Z.div_mod (x / 2 ^ 32 / 2 ^ 8) (2 ^ 32)).
  pose proof (Z.div_mod (x / 2 ^ 32 / 2 ^ 8 / 2 ^ 32) (2 ^ 32)).
  pose proof (Z.div_mod (x / 2 ^ 32 / 2 ^ 8 / 2 ^ 32 / 2 ^ 32) (2 ^ 16)). lia.
Qed.

Lemma to_i128_compact k : key_compact k -> to_i128 k = Some (i128_bits k).
Proof.
  intros [_ H]. unfold to_i128, is_i128_representable. by rewrite bool_decide_true by lia.
Qed.

Lemma from_i128_cmp a b :
  0 <= a < 2 ^ 127 -> 0 <= b < 2 ^ 127 -> key_cmp (from_i128 a) (from_i128 b) = (a ?= b).
Proof.
  intros Ha Hb. destruct (from_i128_wf a), (from_i128_wf b).
  rewrite key_cmp_Z, <- i128_bits_mono, !i128_bits_from_i128 by done. done.
Qed.

Lemma from_i128_ltb a b :
  0 <= a < 2 ^ 127 -> 0 <= b < 2 ^ 127 -> key_ltb (from_i128 a) (from_i128 b) = bool_decide (a < b).
Proof.
  intros Ha Hb. unfold key_ltb. rewrite from_i128_cmp by done.
  destruct (Z.compare_spec a b); symmetry; (apply bool_decide_eq_true || apply bool_decide_eq_false); lia.
Qed.

Lemma from_i128_inj a b : 0 <= a < 2 ^ 127 -> 0 <= b < 2 ^ 127 -> from_i128 a = from_i128 b -> a = b.
Proof. intros Ha Hb E. apply (f_equal i128_bits) in E. by rewrite !i128_bits_from_i128 in E. Qed.

(** The 128-bit form of a key.  Converting back gives the key exactly when
    its first field is below 0x80 and its second fits 16 bits; on those keys the
    conversion succeeds and keeps the order; every non-negative 128-bit integer is
    the form of one key; and the two extra values [is_i128_representable] lets
    through lose their upper half. *)
Theorem key_i128_round_trip (a b : Key) (x : Z) :
  key_wf a -> key_wf b -> 0 <= x < 2 ^ 127 ->
  (from_i128 (i128_bits a) = a <-> key_compact a)
  /\ (key_compact a -> key_compact b ->
      exists i j, to_i128 a = Some i /\ to_i128 b = Some j /\ (i ?= j) = key_cmp a b)
  /\ to_i128 (from_i128 x) = Some x
  /\ (is_i128_representable a = true -> ~ key_compact a ->
      0x80 <= field1 a \/ field2 (from_i128 (i128_bits a)) < field2 a).
Proof.
  intros Ha Hb Hx. destruct (from_i128_wf x) as [Hw Hc]. split_and!.
  - split; [|by apply from_i128_bits]. intros <-. apply from_i128_wf.
  - intros Ca Cb. exists (i128_bits a), (i128_bits b).
    rewrite !to_i128_compact, key_cmp_Z by done. by rewrite i128_bits_mono.
  - rewrite to_i128_compact by done. by rewrite i128_bits_from_i128.
  - intros _ Hn. destruct (from_i128_wf (i128_bits a)) as [_ [_ H2]].
    unfold key_compact in Hn. lia.
Qed.

Lemma key_i128_round_trip_witness :
  let a := mkKey 0 1663 5 16384 0 7 in
  from_i128 (i128_bits a) = a /\ to_i128 (from_i128 (2 ^ 126 + 1)) = Some (2 ^ 126 + 1).
Proof.
  destruct (key_i128_round_trip (mkKey 0 1663 5 16384 0 7) KEY_MAX (2 ^ 126 + 1))
    as (H1 & _ & H3 & _); [by vm_compute|by vm_compute|lia|].
  split; [by apply H1|exact H3].
Defined.

(** ** Bytes and text *)

Lemma be_Z_singleton z : in_u 8 z -> be_Z [Z_byte z] = z.
Proof.
  intros Hz. unfold be_Z. cbn [rev app le_Z]. rewrite byte_Z_Z_byte.
  unfold in_u in Hz. rewrite Z.mod_small by lia. lia.
Qed.

(** [pick_slice] evaluates a slice of a concatenation of known parts. *)
Ltac pick_slice lens :=
  repeat (rewrite slice_skip by (lens; simpl; lia); lens; cbn [Nat.sub]);
  rewrite slice_app_l by (lens; done).

Lemma from_slice_write k : key_wf k -> from_slice (write_to_byte_slice k) = Some k.
Proof.
  intros (H1 & H2 & H3 & H4 & H5 & H6). unfold from_slice, be_field, write_to_byte_slice.
  rewrite <- (app_nil_r (be_bytes 4 (field6 k))).
  do 6 (pick_slice ltac:(rewrite ?length_be_bytes; cbn [length]);
        cbn [fmap option_fmap option_map mbind option_bind]).
  rewrite !be_Z_singleton, !be_Z_be_bytes_small by done. by destruct k.
Qed.

(** [Ord] of byte slices. *)
Definition bytes_cmp (a b : list byte) : comparison := lex_cmp (map byte_Z a) (map byte_Z b).

Lemma be_Z_cons b bs : be_Z (b :: bs) = byte_Z b * 256 ^ Z.of_nat (length bs) + be_Z bs.
Proof.
  unfold be_Z. cbn [rev]. rewrite <- (length_rev bs).
  induction (rev bs) as [|c l IH]; cbn [app le_Z length]; [simpl; lia|].
  rewrite IH, Nat2Z.inj_succ, Z.pow_succ_r by lia. lia.
Qed.

Lemma be_Z_lt bs : 0 <= be_Z bs < 256 ^ Z.of_nat (length bs).
Proof.
  pose proof (be_Z_bound bs) as H. change 256 with (2 ^ 8).
  by rewrite <- Z.pow_mul_r by lia.
Qed.

Lemma be_Z_app a b : be_Z (a ++ b) = be_Z a * 256 ^ Z.of_nat (length b) + be_Z b.
Proof.
  induction a as [|c a IH]; [done|]. cbn [app]. rewrite !be_Z_cons, IH, length_app.
  rewrite Nat2Z.inj_add, Z.pow_add_r by lia. lia.
Qed.

(** Buffers of one length are ordered as the integers they hold. *)
Lemma bytes_cmp_Z a b : length a = length b -> bytes_cmp a b = (be_Z a ?= be_Z b).
Proof.
  revert b. induction a as [|x a IH]; intros [|y b] Hl; try done.
  injection Hl as Hl. unfold bytes_cmp in *. cbn [map lex_cmp]. rewrite IH by done.
  rewrite !be_Z_cons, Hl, compare_digit; [done|rewrite <- Hl|]; apply be_Z_lt.
Qed.

Lemma be_Z_write k : key_wf k -> be_Z (write_to_byte_slice k) = key_Z k.
Proof.
  intros (H1 & H2 & H3 & H4 & H5 & H6). unfold write_to_byte_slice.
  rewrite !be_Z_app, !be_Z_singleton, !be_Z_be_bytes_small by done.
  rewrite !length_app, !length_be_bytes. cbn [length Nat.add].
  unfold key_Z. lia.
Qed.

Lemma length_write_to_byte_slice k : length (write_to_byte_slice k) = KEY_SIZE.
Proof. reflexivity. Qed.

Lemma hex_char_boundary s i : Forall is_hex s -> (i <= length s)%nat -> is_char_boundary s i = true.
Proof.
  intros Hs Hi. unfold is_char_boundary. destruct (s !! i) as [b|] eqn:E.
  - rewrite Forall_lookup in Hs. destruct (Hs _ _ E) as [d Hd]. by destruct b.
  - apply lookup_ge_None in E. apply bool_decide_true. lia.
Qed.

Lemma key_fmt_parts k :
  key_wf k -> Forall is_hex (key_fmt k) /\ length (key_fmt k) = 36%nat.
Proof.
  intros (H1 & H2 & H3 & H4 & H5 & H6). unfold key_fmt.
  destruct (fmt_hex_pad_spec 2 8 (field1 k)) as (L1 & _ & F1); [lia|lia|done|].
  destruct (fmt_hex_pad_spec 8 32 (field2 k)) as (L2 & _ & F2); [lia|lia|done|].
  destruct (fmt_hex_pad_spec 8 32 (field3 k)) as (L3 & _ & F3); [lia|lia|done|].
  destruct (fmt_hex_pad_spec 8 32 (field4 k)) as (L4 & _ & F4); [lia|lia|done|].
  destruct (fmt_hex_pad_spec 2 8 (field5 k)) as (L5 & _ & F5); [lia|lia|done|].
  destruct (fmt_hex_pad_spec 8 32 (field6 k)) as (L6 & _ & F6); [lia|lia|done|].
  rewrite !Forall_app, !length_app, L1, L2, L3, L4, L5, L6. done.
Qed.

(** One field of the text: the padded digits parse back. *)
Lemma key_hex_field_fmt w k p n q :
  (1 <= k <= 16)%nat -> 4 * Z.of_nat k <= w -> 0 <= n < 16 ^ Z.of_nat k ->
  Forall is_hex (p ++ fmt_hex_pad k n ++ q) ->
  key_hex_field w (length p) (length p + k) (p ++ fmt_hex_pad k n ++ q) = Ok n.
Proof.
  intros Hk Hw Hn Hx. destruct (fmt_hex_pad_spec k w n) as (Hl & Hp & _); [done|done|done|].
  unfold key_hex_field.
  rewrite !hex_char_boundary by (done || rewrite !length_app; lia). cbn [andb].
  rewrite slice_skip by lia. replace (length p + k - length p)%nat with k by lia.
  rewrite Nat.sub_diag, slice_app_l by done. by rewrite Hp.
Qed.

Lemma key_from_hex_fmt k : key_wf k -> key_from_hex (key_fmt k) = Ok k.
Proof.
  intros Hk. destruct (key_fmt_parts k Hk) as [Hx Hlen]. destruct Hk as (H1 & H2 & H3 & H4 & H5 & H6).
  assert (forall w n p c q, key_fmt k = p ++ fmt_hex_pad c n ++ q -> (1 <= c <= 16)%nat ->
    4 * Z.of_nat c <= w -> 0 <= n < 16 ^ Z.of_nat c ->
    key_hex_field w (length p) (length p + c) (key_fmt k) = Ok n) as Hf.
  { intros w n p c q E Hc Hw Hn. rewrite E in *. by apply key_hex_field_fmt. }
  unfold key_from_hex. rewrite decide_False by (rewrite Hlen; lia).
  assert (length (fmt_hex_pad 2 (field1 k)) = 2%nat) as L1 by (apply (fmt_hex_pad_spec 2 8); [lia|lia|done]).
  assert (length (fmt_hex_pad 2 (field5 k)) = 2%nat) as L5 by (apply (fmt_hex_pad_spec 2 8); [lia|lia|done]).
  assert (forall z, in_u 32 z -> length (fmt_hex_pad 8 z) = 8%nat) as L.
  { intros z Hz. by apply (fmt_hex_pad_spec 8 32); [lia|lia|]. }
  pose proof (Hf 8 (field1 k) [] 2%nat _ eq_refl) as E1. cbn [length] in E1.
  pose proof (Hf 32 (field2 k) (fmt_hex_pad 2 (field1 k)) 8%nat _ eq_refl) as E2.
  pose proof (Hf 32 (field3 k) (fmt_hex_pad 2 (field1 k) ++ fmt_hex_pad 8 (field2 k)) 8%nat _
    ltac:(by rewrite <- app_assoc)) as E3.
  pose proof (Hf 32 (field4 k) (fmt_hex_pad 2 (field1 k) ++ fmt_hex_pad 8 (field2 k)
    ++ fmt_hex_pad 8 (field3 k)) 8%nat _ ltac:(by rewrite <- !app_assoc)) as E4.
  pose proof (Hf 8 (field5 k) (fmt_hex_pad 2 (field1 k) ++ fmt_hex_pad 8 (field2 k)
    ++ fmt_hex_pad 8 (field3 k) ++ fmt_hex_pad 8 (field4 k)) 2%nat _
    ltac:(by rewrite <- !app_assoc)) as E5.
  pose proof (Hf 32 (field6 k) (fmt_hex_pad 2 (field1 k) ++ fmt_hex_pad 8 (field2 k)
    ++ fmt_hex_pad 8 (field3 k) ++ fmt_hex_pad 8 (field4 k) ++ fmt_hex_pad 2 (field5 k)) 8%nat []
    ltac:(by rewrite app_nil_r, <- !app_assoc)) as E6.
  rewrite L1 in E2. rewrite length_app, L1, L in E3 by done. rewrite !length_app, L1, !L in E4 by done.
  rewrite !length_app, L1, !L in E5 by done. rewrite !length_app, L1, L5, !L in E6 by done.
  cbn [Nat.add] in *. unfold in_u in *. cbn [mbind outcome_bind].
  rewrite E1, E2, E3, E4, E5, E6 by (done || lia). by destruct k.
Qed.

(** A key survives both of its external forms, the 18 bytes written to layer
    files and the 36 hexadecimal digits of file names and requests; and byte
    strings of keys compare as the keys do, which is what the on-disk index
    relies on. *)
Theorem key_forms_round_trip (a b : Key) :
  key_wf a -> key_wf b ->
  from_slice (write_to_byte_slice a) = Some a
  /\ key_from_hex (key_fmt a) = Ok a
  /\ bytes_cmp (write_to_byte_slice a) (write_to_byte_slice b) = key_cmp a b.
Proof.
  intros Ha Hb. split_and!; [by apply from_slice_write|by apply key_from_hex_fmt|].
  by rewrite bytes_cmp_Z, !be_Z_write, key_cmp_Z.
Qed.

Lemma key_forms_round_trip_witness :
  let a := mkKey 0 1663 5 16384 0 7 in
  key_from_hex (key_fmt a) = Ok a
  /\ key_fmt a = str "000000067F00000005000040000000000007".
Proof.
  split; [|by vm_compute].
  by apply (key_forms_round_trip _ (mkKey 0 1663 5 16384 0 8)); vm_compute.
Defined.

(** Text of the right length that holds a character of several bytes across
    a field boundary makes the parser panic instead of returning its error. *)
Lemma key_from_hex_panics :
  key_from_hex (str "0" ++ [Byte.xc3; Byte.xa9] ++ replicate 33 Byte.x30) = Panic.
Proof. reflexivity. Qed.

(** ** Objects of the key space

    What is stored under a key: the specification against which the layout is
    judged.  Postgres uses no relation, tablespace or transaction numbered 0 here,
    and no block number 0xffffffff. *)

Inductive stored : Set :=
| SDbDir
| SRelMap (spc db : Z)
| SRelDir (spc db : Z)
| SRelBlock (rel : RelTag) (blk : Z)
| SRelSize (rel : RelTag)
| SSlruDir (kind : SlruKind)
| SSlruBlock (kind : SlruKind) (seg blk : Z)
| SSlruSize (kind : SlruKind) (seg : Z)
| STwoPhaseDir
| STwoPhaseFile (xid : Z)
| SControlFile
| SCheckpoint
| SAuxFiles
| SReplOrigin (id : Z)
| SRelTag (rel : RelTag).

Definition stored_key (o : stored) : Key :=
  match o with
  | SDbDir => DBDIR_KEY
  | SRelMap spc db => relmap_file_key spc db
  | SRelDir spc db => rel_dir_to_key spc db
  | SRelBlock rel blk => rel_block_to_key rel blk
  | SRelSize rel => rel_size_to_key rel
  | SSlruDir kind => slru_dir_to_key kind
  | SSlruBlock kind seg blk => slru_block_to_key kind seg blk
  | SSlruSize kind seg => slru_segment_size_to_key kind seg
  | STwoPhaseDir => TWOPHASEDIR_KEY
  | STwoPhaseFile xid => twophase_file_key xid
  | SControlFile => CONTROLFILE_KEY
  | SCheckpoint => CHECKPOINT_KEY
  | SAuxFiles => AUX_FILES_KEY
  | SReplOrigin id => repl_origin_key id
  | SRelTag rel => rel_tag_sparse_key (spcnode rel) (dbnode rel) (relnode rel) (forknum rel)
  end.

Definition blk_ok (blk : Z) : Prop := 0 <= blk < 0xffffffff.

Definition stored_ok (o : stored) : Prop :=
  match o with
  | SRelMap spc db | SRelDir spc db => in_u 32 spc /\ in_u 32 db /\ spc <> 0
  | SRelBlock rel blk => rel_wf rel /\ relnode rel <> 0 /\ blk_ok blk
  | SRelSize rel | SRelTag rel => rel_wf rel /\ relnode rel <> 0
  | SSlruBlock kind seg blk => in_u 32 seg /\ blk_ok blk
  | SSlruSize kind seg => in_u 32 seg
  | STwoPhaseFile xid => in_u 64 xid /\ xid <> 0
  | SReplOrigin id => in_u 16 id
  | _ => True
  end.

(** The transaction id split over three fields. *)
Definition xid_Z (k : Key) : Z := (field4 k * 2 ^ 8 + field5 k) * 2 ^ 32 + field6 k.

Lemma land_mask_shift x m k s : m = Z.shiftl (Z.ones k) s -> 0 <= k -> 0 <= s ->
  Z.shiftr (Z.land x m) s = (x / 2 ^ s) mod 2 ^ k.
Proof.
  intros -> Hk Hs. rewrite Z.shiftr_land, Z.shiftr_shiftl_l, Z.sub_diag, Z.shiftl_0_r by done.
  by rewrite Z.land_ones, Z.shiftr_div_pow2.
Qed.

Lemma xid_fields xid :
  in_u 64 xid ->
  in_u 24 (xid_field4 xid) /\ in_u 8 (xid_field5 xid) /\ in_u 32 (xid_field6 xid)
  /\ (xid_field4 xid * 2 ^ 8 + xid_field5 xid) * 2 ^ 32 + xid_field6 xid = xid.
Proof.
  intros Hx. unfold xid_field4, xid_field5, xid_field6, in_u in *.
  rewrite (land_mask_shift _ _ 24 40), (land_mask_shift _ _ 8 32) by done.
  rewrite (land_mask_small _ _ 32) by done.
  pose proof (Z.mod_pos_bound (xid / 2 ^ 40) (2 ^ 24) ltac:(done)).
  pose proof (Z.mod_pos_bound (xid / 2 ^ 32) (2 ^ 8) ltac:(done)).
  pose proof (Z.mod_pos_bound xid (2 ^ 32) ltac:(done)).
  rewrite !wrap_small by (unfold in_u; lia). split_and!; try lia.
  assert (xid / 2 ^ 40 < 2 ^ 24) by (apply Z.div_lt_upper_bound; lia).
  pose proof (Z.div_pos xid (2 ^ 40)). rewrite (Z.mod_small (xid / 2 ^ 40)) by lia.
  change (2 ^ 40) with (2 ^ 32 * 2 ^ 8). rewrite <- Z.div_div by done.
  pose proof (Z.div_mod xid (2 ^ 32)). pose proof (Z.div_mod (xid / 2 ^ 32) (2 ^ 8)). lia.
Qed.

Lemma xid_fields_inj x y :
  in_u 64 x -> in_u 64 y -> xid_field4 x = xid_field4 y -> xid_field5 x = xid_field5 y ->
  xid_field6 x = xid_field6 y -> x = y.
Proof.
  intros Hx Hy E4 E5 E6. pose proof (xid_fields x Hx). pose proof (xid_fields y Hy). 
  rewrite E4, E5, E6 in *. lia.
Qed.

Lemma slru_field2_inj a b : slru_field2 a = slru_field2 b -> a = b.
Proof. by destruct a, b. Qed.

Ltac stored_cases :=
  repeat match goal with
  | o : stored |- _ => destruct o
  | r : RelTag |- _ => destruct r
  end;
  unfold stored_key, stored_ok, rel_wf, blk_ok, DBDIR_KEY, relmap_file_key, rel_dir_to_key,
    rel_block_to_key, rel_size_to_key, slru_dir_to_key, slru_block_to_key,
    slru_segment_size_to_key, TWOPHASEDIR_KEY, twophase_file_key, CONTROLFILE_KEY,
    CHECKPOINT_KEY, AUX_FILES_KEY, repl_origin_key, rel_tag_sparse_key in *;
  cbn [forknum spcnode dbnode relnode field1 field2 field3 field4 field5 field6] in *.

Lemma stored_key_inj o1 o2 :
  stored_ok o1 -> stored_ok o2 -> stored_key o1 = stored_key o2 -> o1 = o2.
Proof.
  intros H1 H2 E. stored_cases; try discriminate E; try reflexivity; injection E; intros;
    subst; destruct_and?; try lia; try done;
    try (f_equal; by apply slru_field2_inj).
  - pose proof (xid_fields xid ltac:(done)). lia.
  - pose proof (xid_fields xid ltac:(done)). lia.
  - f_equal. by apply xid_fields_inj.
Qed.

Lemma stored_key_wf o : stored_ok o -> key_wf (stored_key o).
Proof.
  intros H. destruct o as [| | | | |[]|[]|[]| | | | | | |]; stored_cases; unfold key_wf; cbn;
    unfold in_u in *; destruct_and?; split_and?; try lia; try done;
    (pose proof (xid_fields xid ltac:(done)) as X; unfold in_u in X; lia).
Qed.

Definition is_rel_block (o : stored) : bool := match o with SRelBlock _ _ => true | _ => false end.
Definition is_rel_size (o : stored) : bool := match o with SRelSize _ => true | _ => false end.
Definition is_slru_block (o : stored) : bool := match o with SSlruBlock _ _ _ => true | _ => false end.
Definition is_slru_size (o : stored) : bool := match o with SSlruSize _ _ => true | _ => false end.
Definition is_slru_dir (o : stored) : bool := match o with SSlruDir _ => true | _ => false end.

(** The layout of the key space.  No two objects share a key, every key is
    well formed, the predicates the ingest and sharding code asks recognise
    exactly the objects they are named after, and a relation or SLRU block is
    recovered from its key. *)
Theorem key_layout (o1 o2 : stored) :
  stored_ok o1 -> stored_ok o2 ->
  (stored_key o1 = stored_key o2 -> o1 = o2)
  /\ key_wf (stored_key o1)
  /\ is_rel_block_key (stored_key o1) = is_rel_block o1
  /\ is_rel_size_key (stored_key o1) = is_rel_size o1
  /\ is_slru_block_key (stored_key o1) = is_slru_block o1
  /\ is_slru_segment_size_key (stored_key o1) = is_slru_size o1
  /\ is_slru_dir_key (stored_key o1) = is_slru_dir o1
  /\ (forall rel blk, o1 = SRelBlock rel blk -> to_rel_block (stored_key o1) = inr (rel, blk))
  /\ (forall kind seg blk, o1 = SSlruBlock kind seg blk ->
        to_slru_block (stored_key o1) = inr (kind, seg, blk)).
Proof.
  intros H1 H2. split_and!; [by apply stored_key_inj|by apply stored_key_wf|..]; clear o2 H2.
  6, 7: intros; subst.
  1: unfold is_rel_block_key. 2: unfold is_rel_size_key. 3: unfold is_slru_block_key.
  4: unfold is_slru_segment_size_key. 5: unfold is_slru_dir_key, slru_dir_kind.
  6: by destruct rel. 6: by destruct kind.
  all: stored_cases; unfold is_rel_block, is_rel_size, is_slru_block, is_slru_size, is_slru_dir;
    destruct_and?; try done.
  all: try (destruct kind; cbn [slru_field2]); repeat case_bool_decide; try done; try lia.
  all: try (unfold u32_max in *; lia).
  all: exfalso; eauto.
Qed.

Lemma key_layout_witness :
  stored_key (SRelBlock (mkRelTag 0 1663 5 16384) 7) <> stored_key (SRelSize (mkRelTag 0 1663 5 16384))
  /\ to_slru_block (stored_key (SSlruBlock Clog 3 4)) = inr (Clog, 3, 4).
Proof.
  split.
  - intros E. apply key_layout in E; [done|by vm_compute|by vm_compute].
  - by apply (key_layout _ SDbDir); [vm_compute| |].
Defined.

(** The database an object belongs to. *)
Definition stored_db (o : stored) : option (Z * Z) :=
  match o with
  | SRelMap spc db | SRelDir spc db => Some (spc, db)
  | SRelBlock rel _ | SRelSize rel => Some (spcnode rel, dbnode rel)
  | _ => None
  end.

Lemma range_contains_Z r k :
  key_wf (start r) -> key_wf (end_ r) -> key_wf k ->
  range_contains r k = true <-> key_Z (start r) <= key_Z k < key_Z (end_ r).
Proof.
  intros Hs He Hk. unfold range_contains. rewrite key_leb_Z, key_ltb_Z by done.
  rewrite andb_true_iff, !bool_decide_eq_true. lia.
Qed.

(** Keys within [2 ^ 32] of a key whose last field is 0 agree with it on the
    other fields, and keys within [2 ^ 72] of one that ends in zeros agree on the
    first three. *)
Lemma key_near_fields5 s k :
  key_wf s -> key_wf k -> field6 s = 0 -> key_Z s <= key_Z k < key_Z s + 2 ^ 32 ->
  k = mkKey (field1 s) (field2 s) (field3 s) (field4 s) (field5 s) (field6 k).
Proof.
  intros (A1 & A2 & A3 & A4 & A5 & A6) (B1 & B2 & B3 & B4 & B5 & B6) E H.
  unfold key_Z in H. rewrite E, Z.add_0_r in H.
  match type of H with ?p * _ <= ?q * _ + _ < _ => assert (q = p) as E5 by (unfold in_u in *; lia) end.
  clear H. do 4 (apply digit_inj in E5 as [E5 ?]; [|done|done]).
  destruct k, s. cbn [field1 field2 field3 field4 field5 field6] in *. congruence.
Qed.

Lemma key_near_fields3 s k :
  key_wf s -> key_wf k -> field4 s = 0 -> field5 s = 0 -> field6 s = 0 ->
  key_Z s <= key_Z k < key_Z s + 2 ^ 72 ->
  k = mkKey (field1 s) (field2 s) (field3 s) (field4 k) (field5 k) (field6 k).
Proof.
  intros (A1 & A2 & A3 & A4 & A5 & A6) (B1 & B2 & B3 & B4 & B5 & B6) E4 E5 E6 H.
  unfold key_Z in H. rewrite E4, E5, E6, !Z.add_0_r in H.
  assert ((field1 k * 2 ^ 32 + field2 k) * 2 ^ 32 + field3 k
          = (field1 s * 2 ^ 32 + field2 s) * 2 ^ 32 + field3 s) as E3 by (unfold in_u in *; lia).
  clear H. do 2 (apply digit_inj in E3 as [E3 ?]; [|done|done]).
  destruct k, s. cbn [field1 field2 field3 field4 field5 field6] in *. congruence.
Qed.

Lemma key_Z_field6 f1 f2 f3 f4 f5 f6 :
  key_Z (mkKey f1 f2 f3 f4 f5 f6) = key_Z (mkKey f1 f2 f3 f4 f5 0) + f6.
Proof. unfold key_Z. cbn [field1 field2 field3 field4 field5 field6]. lia. Qed.

Lemma key_Z_field5 f1 f2 f3 f4 f5 :
  key_Z (mkKey f1 f2 f3 f4 (f5 + 1) 0) = key_Z (mkKey f1 f2 f3 f4 f5 0) + 2 ^ 32.
Proof. unfold key_Z. cbn [field1 field2 field3 field4 field5 field6]. lia. Qed.

Lemma fork_range_exact f1 f2 f3 f4 f5 k :
  key_wf (mkKey f1 f2 f3 f4 f5 0) -> f5 + 1 < 2 ^ 8 -> key_wf k ->
  range_contains (mkRange (mkKey f1 f2 f3 f4 f5 0) (mkKey f1 f2 f3 f4 (f5 + 1) 0)) k = true
  <-> k = mkKey f1 f2 f3 f4 f5 (field6 k).
Proof.
  intros Hs H5 Hk.
  assert (key_wf (mkKey f1 f2 f3 f4 (f5 + 1) 0)) as He.
  { key_unfold. cbn [field1 field2 field3 field4 field5 field6] in *. lia. }
  rewrite range_contains_Z by done. cbn [start end_]. rewrite key_Z_field5. split.
  - by apply (key_near_fields5 (mkKey f1 f2 f3 f4 f5 0)).
  - intros E. rewrite E, (key_Z_field6 _ _ _ _ _ (field6 k)). destruct Hk as (_ & _ & _ & _ & _ & H6).
    unfold in_u in H6. lia.
Qed.

Lemma rel_range_exact rel r o :
  rel_wf rel -> relnode rel <> 0 -> stored_ok o -> rel_key_range rel = Some r ->
  range_contains r (stored_key o) = true <-> (exists blk, o = SRelBlock rel blk) \/ o = SRelSize rel.
Proof.
  intros (Hf & Hs & Hd & Hr) Hn Ho. unfold rel_key_range. case_decide as Hfork; [|done].
  intros [= <-]. rewrite fork_range_exact; [|done|done|by apply stored_key_wf]. split.
  - intros Hk. destruct rel as [rf rs rd rr].
    destruct (decide (field6 (stored_key o) = u32_max)) as [E|E].
    + right. apply stored_key_inj; [done|done|]. rewrite Hk, E. done.
    + left. exists (field6 (stored_key o)). apply stored_key_inj; [done| |done].
      pose proof (stored_key_wf o Ho) as (_ & _ & _ & _ & _ & H6).
      split_and!; [done|done|]. unfold blk_ok, in_u, u32_max in *. lia.
  - by intros [[blk ->]| ->].
Qed.

(** Both bounds of the SLRU and two-phase ranges are one fork, or one key, apart. *)
Lemma slru_range_exact kind seg o :
  in_u 32 seg -> stored_ok o ->
  range_contains (slru_segment_key_range kind seg) (stored_key o) = true
  <-> (exists blk, o = SSlruBlock kind seg blk) \/ o = SSlruSize kind seg.
Proof.
  intros Hseg Ho. pose proof (stored_key_wf o Ho) as Hw. unfold slru_segment_key_range.
  rewrite (fork_range_exact 1 (slru_field2 kind) 1 seg 0); [| |done|done].
  2:{ by destruct kind. }
  split.
  - intros Hk. destruct (decide (field6 (stored_key o) = u32_max)) as [E|E].
    + right. apply stored_key_inj; [done|done|]. rewrite Hk, E. done.
    + left. exists (field6 (stored_key o)). apply stored_key_inj; [done| |done].
      destruct Hw as (_ & _ & _ & _ & _ & H6).
      split; [done|]. unfold blk_ok, in_u, u32_max in *. lia.
  - by intros [[blk ->]| ->].
Qed.

Lemma twophase_key_Z xid : in_u 64 xid -> key_Z (twophase_file_key xid) = key_Z TWOPHASEDIR_KEY + xid.
Proof.
  intros Hx. destruct (xid_fields xid Hx) as (_ & _ & _ & E). unfold key_Z, twophase_file_key.
  cbn [TWOPHASEDIR_KEY field1 field2 field3 field4 field5 field6]. lia.
Qed.

Lemma twophase_key_wf xid : in_u 64 xid -> key_wf (twophase_file_key xid).
Proof.
  intros Hx. destruct (xid_fields xid Hx) as (H4 & H5 & H6 & _). unfold in_u in *.
  unfold key_wf, twophase_file_key, in_u. cbn [field1 field2 field3 field4 field5 field6]. lia.
Qed.

(** The end is the next transaction's key, or past all of them. *)
Lemma twophase_key_range_Z xid :
  in_u 64 xid ->
  let e := end_ (twophase_key_range xid) in
  key_wf e /\ (key_Z e = key_Z TWOPHASEDIR_KEY + (xid + 1)
               \/ xid = u64_max /\ key_Z e = key_Z TWOPHASEDIR_KEY + 2 ^ 72).
Proof.
  intros Hx. unfold twophase_key_range.
  destruct (overflowing_add_cases 64 xid 1) as [[E H]|[E H]]; [done|done|done|..]; rewrite E; cbn [start end_].
  - assert (in_u 64 (xid + 1)) as Hx1 by (unfold in_u in *; lia).
    change (mkKey 2 0 0 (xid_field4 (xid + 1)) _ _) with (twophase_file_key (xid + 1)).
    rewrite !twophase_key_Z by done. split; [by apply twophase_key_wf|by left].
  - assert (xid + 1 - 2 ^ 64 = 0) as -> by (unfold in_u in *; lia).
    split; [done|]. right. split; [unfold in_u, u64_max in *; lia|reflexivity].
Qed.

Lemma twophase_range_exact xid o :
  in_u 64 xid -> xid <> 0 -> stored_ok o ->
  range_contains (twophase_key_range xid) (stored_key o) = true <-> o = STwoPhaseFile xid.
Proof.
  intros Hx Hn Ho. pose proof (stored_key_wf o Ho) as Hw.
  destruct (twophase_key_range_Z xid Hx) as [He Hend].
  assert (start (twophase_key_range xid) = twophase_file_key xid) as Es by reflexivity.
  rewrite range_contains_Z; [|rewrite Es; by apply twophase_key_wf|done|done].
  rewrite Es, twophase_key_Z by done. unfold in_u, u64_max in *. split.
  - intros Hk. assert (field1 (stored_key o) = 2) as E1.
    { rewrite (key_near_fields3 TWOPHASEDIR_KEY (stored_key o)); [done|done|done|done|done|done|lia]. }
    destruct o; try discriminate E1; cbn [stored_key stored_ok] in *; [lia|].
    rewrite twophase_key_Z in Hk by apply Ho. f_equal. unfold in_u in *. lia.
  - intros ->. cbn [stored_key]. rewrite twophase_key_Z by done. lia.
Qed.

Lemma db_range_exact spc db o :
  in_u 32 spc -> in_u 32 db -> spc <> 0 -> stored_ok o ->
  range_contains (dbdir_key_range spc db) (stored_key o) = true
  <-> stored_db o = Some (spc, db) /\ o <> SRelSize (mkRelTag 255 spc db u32_max).
Proof.
  intros Hs Hd Hn Ho. pose proof (stored_key_wf o Ho) as Hw.
  assert (key_wf (mkKey 0 spc db 0 0 0)) as Wb by (split_and!; done || apply Hs || apply Hd).
  assert (key_wf (mkKey 0 spc db u32_max u8_max u32_max)) as We by (split_and!; done || apply Hs || apply Hd).
  rewrite range_contains_Z; [|done|done|done]. cbn [start end_ dbdir_key_range].
  assert (key_Z (mkKey 0 spc db u32_max u8_max u32_max) = key_Z (mkKey 0 spc db 0 0 0) + 2 ^ 72 - 1) as Ee.
  { unfold key_Z, u32_max, u8_max. cbn [field1 field2 field3 field4 field5 field6]. lia. }
  change (mkKey 0 spc db 0xffffffff 0xff 0xffffffff) with (mkKey 0 spc db u32_max u8_max u32_max).
  rewrite Ee. split.
  - intros Hk. pose proof (key_near_fields3 _ _ Wb Hw eq_refl eq_refl eq_refl ltac:(lia)) as E.
    cbn [field1 field2 field3] in E. split.
    + apply (f_equal field1) in E as E1. apply (f_equal field2) in E as E2. apply (f_equal field3) in E as E3.
      cbn [field1 field2 field3] in E1, E2, E3. clear - Hn E1 E2 E3.
      destruct o as [| | | | |[]|[]|[]| | | | | | |]; cbn in *; discriminate || congruence.
    + intros ->. change (stored_key _) with (mkKey 0 spc db u32_max u8_max u32_max) in Hk.
      rewrite Ee in Hk. lia.
  - intros [Hdb Hlast]. enough (stored_key o = mkKey 0 spc db (field4 (stored_key o))
      (field5 (stored_key o)) (field6 (stored_key o)) /\
      ~ (field4 (stored_key o) = u32_max /\ field5 (stored_key o) = u8_max /\ field6 (stored_key o) = u32_max))
      as [E Hne].
    { rewrite E. destruct Hw as (_ & _ & _ & W4 & W5 & W6). unfold key_Z.
      cbn [field1 field2 field3 field4 field5 field6]. unfold in_u, u32_max, u8_max in *. lia. }
    destruct o as [|spc' db'|spc' db'|[f' s' d' r'] blk|[f' s' d' r']|[]|[]|[]| | | | | | |]; try discriminate Hdb;
      injection Hdb as -> ->; (split; [reflexivity|]); cbn [stored_key stored_ok] in *.
    + by intros (? & ? & ?).
    + by intros (? & ? & ?).
    + intros (_ & _ & E6). cbn in E6. unfold blk_ok, u32_max in *. lia.
    + intros (E4 & E5 & _). cbn in E4, E5. subst. done.
Qed.

(** The ranges the deletion paths remove hold exactly the object they are
    named after: a relation fork its blocks and its size, an SLRU segment its
    blocks and its size, a two-phase transaction its one file (even the last
    transaction id, whose successor overflows), and a database its map, directory
    and relations, except the size of the last fork of the last relation number. *)
Theorem key_ranges_exact (rel : RelTag) (kind : SlruKind) (seg xid : Z) (o : stored) :
  rel_wf rel -> relnode rel <> 0 -> in_u 32 seg -> in_u 64 xid -> xid <> 0 -> stored_ok o ->
  (rel_key_range rel = None <-> forknum rel = 255)
  /\ (forall r, rel_key_range rel = Some r -> range_contains r (stored_key o) = true <->
        (exists blk, o = SRelBlock rel blk) \/ o = SRelSize rel)
  /\ (range_contains (slru_segment_key_range kind seg) (stored_key o) = true <->
        (exists blk, o = SSlruBlock kind seg blk) \/ o = SSlruSize kind seg)
  /\ (range_contains (twophase_key_range xid) (stored_key o) = true <-> o = STwoPhaseFile xid)
  /\ (spcnode rel <> 0 ->
      range_contains (dbdir_key_range (spcnode rel) (dbnode rel)) (stored_key o) = true <->
        stored_db o = Some (spcnode rel, dbnode rel)
        /\ o <> SRelSize (mkRelTag 255 (spcnode rel) (dbnode rel) u32_max)).
Proof.
  intros Hr Hn Hseg Hx Hx0 Ho. split_and!.
  - destruct Hr as (Hf & _). unfold rel_key_range, in_u in *.
    case_decide; split; intros; done || lia.
  - intros r Hrange. by apply rel_range_exact.
  - by apply slru_range_exact.
  - by apply twophase_range_exact.
  - intros Hs. destruct Hr as (_ & ? & ? & _). by apply db_range_exact.
Qed.

Lemma key_ranges_exact_witness :
  range_contains (twophase_key_range u64_max) (stored_key (STwoPhaseFile u64_max)) = true
  /\ range_contains (dbdir_key_range 1663 5) (stored_key (SRelBlock (mkRelTag 0 1663 6 16384) 0)) = false.
Proof.
  split.
  - by apply (key_ranges_exact (mkRelTag 0 1663 5 16384) Clog 0 u64_max (STwoPhaseFile u64_max)); vm_compute.
  - apply not_true_is_false. intros H.
    by apply (key_ranges_exact (mkRelTag 0 1663 5 16384) Clog 0 1
                (SRelBlock (mkRelTag 0 1663 6 16384) 0)) in H as [? _]; vm_compute.
Defined.
