(* ===== verification/Shard.v ===== *)
(** * Sharding of a tenant

    [libs/utils/src/shard.rs] and [id.rs]: shard numbers, tenant shard ids and their
    text; [libs/pageserver_api/src/shard.rs]: which shard holds a key;
    [libs/utils/src/generation.rs]: generation numbers;
    [storage_controller/src/service.rs] ([compute_split_shards]) and
    [pageserver/src/tenant/mgr.rs] ([do_shard_split]): how many shards a tenant is
    split into, and which requests are accepted.  Decoding of hexadecimal text is
    the [hex] crate, the class [HexCrate]. *)

From S2P Require Import Prelude Lsn XlogUtils Key.

(** ** Shard numbers and counts *)

Definition ShardNumber : Type := Z.
Definition ShardCount : Type := Z.
Definition ShardStripeSize : Type := Z.


Definition shard_count (self : ShardCount) : Z := if decide (0 < self) then self else 1.
Definition shard_count_is_unsharded (self : ShardCount) : bool := bool_decide (self = 0).

Record ShardIndex := mkShardIndex { si_number : ShardNumber; si_count : ShardCount }.

(** [Id] is 16 bytes. *)
Definition Id : Type := list byte.

Record TenantShardId := mkTenantShardId {
  ts_tenant_id : Id; ts_shard_number : ShardNumber; ts_shard_count : ShardCount
}.

#[global] Instance TenantShardId_eq_dec : EqDecision TenantShardId.
Proof. solve_decision. Defined.

Definition tenant_shard_id_wf (t : TenantShardId) : Prop :=
  length (ts_tenant_id t) = 16%nat /\ in_u 8 (ts_shard_number t) /\ in_u 8 (ts_shard_count t).

Definition ts_unsharded (tenant_id : Id) : TenantShardId := mkTenantShardId tenant_id 0 0.
Definition ts_is_unsharded (self : TenantShardId) : bool :=
  bool_decide (ts_shard_number self = 0) && shard_count_is_unsharded (ts_shard_count self).

(** [for shard_number in 0..new_shard_count], keeping those that map to the parent. *)
Definition ts_split (self : TenantShardId) (new_shard_count : ShardCount) : list TenantShardId :=
  let effective_old_shard_count := Z.max (ts_shard_count self) 1 in
  map (fun n => mkTenantShardId (ts_tenant_id self) n new_shard_count)
      (filter (fun n => n mod effective_old_shard_count = ts_shard_number self)
              (seqZ 0 new_shard_count)).

(** ** Text *)

Inductive FromHexError : Set := InvalidHexCharacter | OddLength | InvalidStringLength.

(** [hex::decode_to_slice]: [decode_to_slice s n] fills a buffer of [n] bytes. *)
Class HexCrate := {
  decode_to_slice : list byte -> nat -> sum FromHexError (list byte)
}.

(** [HEX[d]]. *)
Definition hex_lower (d : Z) : byte := Z_byte (if decide (d < 10) then 48 + d else 87 + d).

Definition hex_encode (bs : list byte) : list byte :=
  bs ≫= fun b => [hex_lower (Z.land (Z.shiftr (byte_Z b) 4) 0xf); hex_lower (Z.land (byte_Z b) 0xf)].

(** [{:02x}] of a [u8]. *)
Definition fmt_02x (n : Z) : list byte := [hex_lower (n / 16); hex_lower (n mod 16)].

Definition shard_slug_fmt (number count : Z) : list byte := fmt_02x number ++ fmt_02x count.

Definition dash : byte := Byte.x2d.

Definition ts_fmt (self : TenantShardId) : list byte :=
  if decide (ts_shard_count self <> 0) then
    hex_encode (ts_tenant_id self) ++ [dash]
    ++ shard_slug_fmt (ts_shard_number self) (ts_shard_count self)
  else hex_encode (ts_tenant_id self).

(** What the documentation of the [hex] crate says of its decoder: a text of
    another length than the buffer needs is refused, and the digits of [bs], in
    lower case, decode to [bs]. *)
Class HexCrateLaws `{!HexCrate} := {
  decode_length s n : length s <> (2 * n)%nat -> exists e, decode_to_slice s n = inl e;
  decode_encode bs : decode_to_slice (hex_encode bs) (length bs) = inr bs
}.

Section text.
Context `{!HexCrate}.

Definition id_from_hex (s : list byte) : sum FromHexError Id := decode_to_slice s 16.

(** A digit pair of the two bytes decoded, as [u8]s. *)
Definition shard_parts (s : list byte) : sum FromHexError (Z * Z) :=
  match decode_to_slice s 2 with
  | inl e => inl e
  | inr bs => inr (byte_Z (nth 0 bs Byte.x00), byte_Z (nth 1 bs Byte.x00))
  end.

Definition ts_from_str (s : list byte) : sum FromHexError TenantShardId :=
  if decide (length s = 32%nat) then
    match id_from_hex s with
    | inl e => inl e
    | inr id => inr (mkTenantShardId id 0 0)
    end
  else if decide (length s = 37%nat) then
    match id_from_hex (take 32 s) with
    | inl e => inl e
    | inr id =>
        match shard_parts (drop 33 s) with
        | inl e => inl e
        | inr (n, c) => inr (mkTenantShardId id n c)
        end
    end
  else inl InvalidStringLength.

Definition si_from_str (s : list byte) : sum FromHexError ShardIndex :=
  if decide (length s = 4%nat) then
    match shard_parts s with
    | inl e => inl e
    | inr (n, c) => inr (mkShardIndex n c)
    end
  else inl InvalidStringLength.
End text.

Definition si_fmt (self : ShardIndex) : list byte := shard_slug_fmt (si_number self) (si_count self).

Definition si_is_unsharded (self : ShardIndex) : bool :=
  bool_decide (si_number self = 0) && bool_decide (si_count self = 0).

Definition si_get_suffix (self : ShardIndex) : list byte :=
  if si_is_unsharded self then [] else [dash] ++ shard_slug_fmt (si_number self) (si_count self).

(** The binary encodings, 18 and 2 bytes. *)
Definition ts_packed (self : TenantShardId) : list byte :=
  ts_tenant_id self ++ [Z_byte (ts_shard_number self); Z_byte (ts_shard_count self)].

Definition ts_from_packed (b : list byte) : TenantShardId :=
  mkTenantShardId (take 16 b) (byte_Z (nth 16 b Byte.x00)) (byte_Z (nth 17 b Byte.x00)).

(** ** Shard identity *)

Definition LAYOUT_V1 : Z := 1.
Definition LAYOUT_BROKEN : Z := 255.
Definition DEFAULT_STRIPE_SIZE : ShardStripeSize := 16 * 1024 / 8.

Record ShardIdentity := mkShardIdentity {
  sid_number : ShardNumber; sid_count : ShardCount;
  sid_stripe_size : ShardStripeSize; sid_layout : Z
}.

Inductive ShardConfigError : Set := InvalidCount | InvalidNumber | InvalidStripeSize.

Definition sid_unsharded : ShardIdentity := mkShardIdentity 0 0 DEFAULT_STRIPE_SIZE LAYOUT_V1.

Definition sid_unsharded_with_stripe_size (stripe_size : ShardStripeSize) : ShardIdentity :=
  if decide (0 < stripe_size) then mkShardIdentity 0 0 stripe_size LAYOUT_V1 else sid_unsharded.

Definition sid_broken (number : ShardNumber) (count : ShardCount) : ShardIdentity :=
  mkShardIdentity number count DEFAULT_STRIPE_SIZE LAYOUT_BROKEN.

Definition sid_new (number : ShardNumber) (count : ShardCount) (stripe_size : ShardStripeSize) :
    sum ShardConfigError ShardIdentity :=
  if decide (count = 0) then inl InvalidCount
  else if decide (count - 1 < number) then inl InvalidNumber
  else if decide (stripe_size = 0) then inl InvalidStripeSize
  else inr (mkShardIdentity number count stripe_size LAYOUT_V1).

Definition sid_is_unsharded (self : ShardIdentity) : bool :=
  bool_decide (sid_number self = 0) && bool_decide (sid_count self = 0).

Definition sid_is_broken (self : ShardIdentity) : bool := bool_decide (sid_layout self = LAYOUT_BROKEN).

Definition sid_is_shard_zero (self : ShardIdentity) : bool := bool_decide (sid_number self = 0).

Definition sid_shard_slug (self : ShardIdentity) : list byte :=
  if decide (0 < sid_count self) then [dash] ++ shard_slug_fmt (sid_number self) (sid_count self)
  else [].

(** ** Which shard holds a key *)

Definition key_is_shard0 (key : Key) : bool :=
  negb (is_rel_block_key key) || bool_decide (field5 key = INIT_FORKNUM).

Definition murmurhash32 (h : Z) : Z :=
  let h := Z.lxor h (Z.shiftr h 16) in
  let h := wrap 32 (h * 0x85ebca6b) in
  let h := Z.lxor h (Z.shiftr h 13) in
  let h := wrap 32 (h * 0xc2b2ae35) in
  Z.lxor h (Z.shiftr h 16).

Definition hash_combine (a b : Z) : Z :=
  let b := wrap 32 (b + 0x9e3779b9) in
  let b := wrap 32 (b + wrap 32 (Z.shiftl a 6)) in
  let b := wrap 32 (b + Z.shiftr a 2) in
  Z.lxor a b.

(** The hash of a relation block: relation number and stripe. *)
Definition block_hash (stripe_size : ShardStripeSize) (key : Key) : Z :=
  hash_combine (murmurhash32 (field4 key)) (murmurhash32 (field6 key / stripe_size)).

(** [None]: division by a zero stripe size. *)
Definition key_to_shard_number (count : ShardCount) (stripe_size : ShardStripeSize) (key : Key) :
    option ShardNumber :=
  if bool_decide (count < 2) || key_is_shard0 key then Some 0
  else if decide (stripe_size = 0) then None
  else Some (wrap 8 (block_hash stripe_size key mod count)).

Definition get_shard_number (self : ShardIdentity) (key : Key) : option ShardNumber :=
  if sid_is_broken self then None
  else key_to_shard_number (sid_count self) (sid_stripe_size self) key.

Definition is_key_local (self : ShardIdentity) (key : Key) : option bool :=
  if sid_is_broken self then None
  else if bool_decide (sid_count self < 2) || (key_is_shard0 key && bool_decide (sid_number self = 0))
  then Some true
  else n ← key_to_shard_number (sid_count self) (sid_stripe_size self) key;
       Some (bool_decide (n = sid_number self)).

Definition is_key_global (self : ShardIdentity) (key : Key) : bool :=
  if is_slru_block_key key || is_slru_segment_size_key key || is_aux_file_key key
     || is_slru_dir_key key
  then false
  else if is_rel_block_key key then false
  else if is_rel_size_key key then true
  else true.

Definition is_key_disposable (self : ShardIdentity) (key : Key) : option bool :=
  if decide (sid_count self < 2) then Some false
  else if is_key_global self key then Some false
  else negb <$> is_key_local self key.

(** ** Generations *)

Inductive Generation : Set := GNone | GValid (v : Z).

#[global] Instance Generation_eq_dec : EqDecision Generation.
Proof. solve_decision. Defined.

(** The derived [Ord]: [None] is below every valid generation. *)
Definition gen_ltb (a b : Generation) : bool :=
  match a, b with
  | GNone, GValid _ => true
  | GValid x, GValid y => bool_decide (x < y)
  | _, _ => false
  end.

Definition gen_previous (self : Generation) : Generation :=
  match self with
  | GValid n => if decide (n = 0) then GNone else GValid (n - 1)
  | GNone => GNone
  end.

(** [*n + 1] on a [u32]: [None] is the overflow. *)
Definition gen_next (self : Generation) : option Generation :=
  match self with
  | GValid n => if decide (n + 1 < 2 ^ 32) then Some (GValid (n + 1)) else None
  | GNone => Some (GValid 1)
  end.

(** [-{:08x}]. *)
Definition fmt_08x (n : Z) : list byte := be_bytes 4 n ≫= fun b => fmt_02x (byte_Z b).

Definition gen_get_suffix (self : Generation) : list byte :=
  match self with
  | GValid v => [dash] ++ fmt_08x v
  | GNone => []
  end.

Definition gen_parse_suffix (suffix : list byte) : option Generation :=
  GValid <$> from_str_radix_16 32 suffix.

(** ** Splitting a tenant *)

Record ShardSplitInputs := {
  ssi_shard_count : ShardCount; ssi_max_logical_size : Z; ssi_split_threshold : Z;
  ssi_max_split_shards : Z; ssi_initial_split_threshold : Z; ssi_initial_split_shards : Z
}.

Definition div_ceil (a b : Z) : Z := a / b + (if decide (0 < a mod b) then 1 else 0).

(** [u64::checked_next_power_of_two]: the least power of two that is not below. *)
Definition checked_next_power_of_two (n : Z) : option Z :=
  let p := if decide (n <= 1) then 1 else 2 ^ Z.log2_up n in
  if decide (p < 2 ^ 64) then Some p else None.

(** [try_into] of a [u64] to a [u8]. *)
Definition u64_as_u8 (n : Z) : option Z := if decide (n < 2 ^ 8) then Some n else None.

Definition compute_split_shards (inputs : ShardSplitInputs) : option ShardCount :=
  let count := shard_count (ssi_shard_count inputs) in
  let new_shard_count := count in
  let want := div_ceil (ssi_max_logical_size inputs) (ssi_split_threshold inputs) in
  let new_shard_count :=
    if bool_decide (0 < ssi_split_threshold inputs) && bool_decide (count < want)
    then default u8_max (u64_as_u8 (default u8_max (checked_next_power_of_two want)))
    else new_shard_count in
  let new_shard_count :=
    if bool_decide (0 < ssi_initial_split_threshold inputs) && bool_decide (count <= 1)
       && bool_decide (ssi_initial_split_threshold inputs < ssi_max_logical_size inputs)
    then Z.max new_shard_count (ssi_initial_split_shards inputs)
    else new_shard_count in
  let new_shard_count := Z.min new_shard_count (ssi_max_split_shards inputs) in
  if decide (new_shard_count <= count) then None else Some new_shard_count.

Inductive split_error : Set := NotAnIncrease | NotAPowerOfTwo | StripeSizeChange.

(** [u8::is_power_of_two]. *)
Definition is_power_of_two (n : Z) : bool := bool_decide (0 < n /\ 2 ^ Z.log2 n = n).

(** The validation at the top of [TenantManager::do_shard_split], followed by the
    plan it makes. *)
Definition plan_shard_split (self : TenantShardId) (stripe_size : ShardStripeSize)
    (new_shard_count : ShardCount) (new_stripe_size : option ShardStripeSize) :
    sum split_error (list TenantShardId) :=
  let old := shard_count (ts_shard_count self) in
  if decide (shard_count new_shard_count <= old) then inl NotAnIncrease else
  let expansion_factor := shard_count new_shard_count / old in
  if negb (is_power_of_two expansion_factor) then inl NotAPowerOfTwo else
  if match new_stripe_size with
     | Some s => bool_decide (stripe_size <> s) && bool_decide (1 < old)
     | None => false
     end
  then inl StripeSizeChange
  else inr (ts_split self new_shard_count).

(** ** Owners of keys *)

Lemma shard_count_max c : 0 <= c -> shard_count c = Z.max c 1.
Proof. intros. unfold shard_count. case_decide; lia. Qed.

Lemma elem_of_ts_split t n c new id :
  id ∈ ts_split (mkTenantShardId t n c) new
  <-> exists m, id = mkTenantShardId t m new /\ 0 <= m < new /\ m mod Z.max c 1 = n.
Proof.
  unfold ts_split. cbn [ts_tenant_id ts_shard_number ts_shard_count].
  rewrite list_elem_of_fmap. split.
  - intros (m & -> & [Hm Hs]%list_elem_of_filter). apply elem_of_seqZ in Hs. exists m. split_and!; done || lia.
  - intros (m & -> & Hm & Hn). exists m. split; [done|]. apply list_elem_of_filter. split; [done|].
    apply elem_of_seqZ. lia.
Qed.

(** The owner is the hash modulo the count, or shard 0. *)
Lemma key_to_shard_number_spec c s key :
  in_u 8 c -> 0 < s ->
  key_to_shard_number c s key
  = Some (if key_is_shard0 key then 0 else block_hash s key mod Z.max c 1).
Proof.
  intros Hc Hs. unfold key_to_shard_number, in_u in *. case_bool_decide as Hc2; cbn [orb].
  - replace (Z.max c 1) with 1 by lia. rewrite Z.mod_1_r. by destruct (key_is_shard0 key).
  - destruct (key_is_shard0 key); [done|]. rewrite decide_False by lia.
    pose proof (Z.mod_pos_bound (block_hash s key) c ltac:(lia)).
    rewrite Z.max_l, wrap_small by (unfold in_u; lia). done.
Qed.

(** A shard has one parent. *)
Lemma split_parent t c new n' n :
  0 <= n' < new /\ n' mod Z.max c 1 = n ->
  forall m, mkTenantShardId t n' new ∈ ts_split (mkTenantShardId t m c) new <-> m = n.
Proof.
  intros [Hn' <-] m. rewrite elem_of_ts_split. split; [by intros (x & [= <-] & _ & <-)|].
  intros ->. by exists n'.
Qed.

Lemma owner_bound c s key n :
  in_u 8 c -> 0 < s -> key_to_shard_number c s key = Some n -> 0 <= n < Z.max c 1.
Proof.
  intros Hc Hs. rewrite key_to_shard_number_spec by done. intros [= <-]. unfold in_u in Hc.
  destruct (key_is_shard0 key); [lia|]. apply Z.mod_pos_bound. lia.
Qed.

(** C18: Splitting a tenant keeps every key reachable.  When the new count is a
    multiple of the old one and the stripe size changes only for a tenant of one
    shard, the shard that owns a key after the split is among the children of the
    shard that owned it before, and of no other shard of the tenant. *)
Theorem shard_split_keeps_keys (t : Id) (key : Key) (c new s s' : Z) :
  in_u 8 c -> in_u 8 new -> 0 < new -> (Z.max c 1 | new) -> 0 < s -> 0 < s' -> (1 < c -> s' = s) ->
  exists n n', key_to_shard_number c s key = Some n /\ key_to_shard_number new s' key = Some n'
  /\ forall m, mkTenantShardId t n' new ∈ ts_split (mkTenantShardId t m c) new <-> m = n.
Proof.
  intros Hc Hnew Hpos Hdiv Hs Hs' Hstripe. rewrite !key_to_shard_number_spec by done.
  eexists _, _. split_and!; [done|done|].
  apply split_parent. rewrite (Z.max_l new 1) by lia. unfold in_u in *.
  destruct (key_is_shard0 key); [split; [lia|apply Z.mod_0_l; lia]|].
  split; [by apply Z.mod_pos_bound|]. rewrite Z.mod_mod_divide by done.
  destruct (decide (1 < c)); [by rewrite Hstripe|].
  replace (Z.max c 1) with 1 by lia. by rewrite !Z.mod_1_r.
Qed.

Definition example_block : Key := mkKey 0 1663 5 16384 0 7.

Lemma shard_split_keeps_keys_witness :
  exists n n', key_to_shard_number 2 2048 example_block = Some n
  /\ key_to_shard_number 8 2048 example_block = Some n'
  /\ forall m, mkTenantShardId [] n' 8 ∈ ts_split (mkTenantShardId [] m 2) 8 <-> m = n.
Proof.
  apply (shard_split_keeps_keys [] example_block 2 8 2048 2048); try done. by exists 4.
Defined.

(** The validation of a split lets through counts that are not multiples: the
    integer quotient 4 / 3 is the power of two 1.  The automatic split of a tenant
    of three shards asks for four, the pageserver accepts, and the blocks of a
    relation move to a child of a shard that never held them. *)
Theorem accepted_split_loses_keys (t : Id) :
  compute_split_shards {| ssi_shard_count := 3; ssi_max_logical_size := 400;
    ssi_split_threshold := 100; ssi_max_split_shards := 16;
    ssi_initial_split_threshold := 0; ssi_initial_split_shards := 2 |} = Some 4
  /\ (forall n, plan_shard_split (mkTenantShardId t n 3) 2048 4 None
                = inr (ts_split (mkTenantShardId t n 3) 4))
  /\ exists key n n', key_wf key /\ is_rel_block_key key = true
     /\ key_to_shard_number 3 2048 key = Some n /\ key_to_shard_number 4 2048 key = Some n'
     /\ mkTenantShardId t n' 4 ∉ ts_split (mkTenantShardId t n 3) 4.
Proof.
  split_and!; [reflexivity|done|].
  exists example_block, 1, 0. split_and!; [by vm_compute|done|by vm_compute|by vm_compute|].
  rewrite elem_of_ts_split. intros (m & [= <-] & _ & Hm). done.
Qed.

(** The identities of the shards of one tenant. *)
Definition shard_of (c s n : Z) : ShardIdentity := mkShardIdentity n c s LAYOUT_V1.

Lemma is_key_local_spec c s n key :
  in_u 8 c -> 0 < s -> 0 <= n < Z.max c 1 ->
  is_key_local (shard_of c s n) key
  = Some (bool_decide (key_to_shard_number c s key = Some n)).
Proof.
  intros Hc Hs Hn. unfold is_key_local, shard_of, sid_is_broken.
  cbn [sid_layout sid_count sid_number sid_stripe_size].
  rewrite (bool_decide_false (LAYOUT_V1 = _)) by done.
  destruct (key_to_shard_number c s key) as [m|] eqn:E;
    [|by rewrite key_to_shard_number_spec in E].
  pose proof (owner_bound _ _ _ _ Hc Hs E) as Hm. cbn [mbind option_bind].
  assert (bool_decide (Some m = Some n) = bool_decide (m = n)) as ->
    by (apply bool_decide_ext; split; [by intros [=]|by intros ->]).
  case_match eqn:Hfast; [|done]. f_equal. symmetry. apply bool_decide_eq_true.
  apply orb_true_iff in Hfast as [H%bool_decide_eq_true|[H0 H%bool_decide_eq_true]%andb_true_iff]; [lia|].
  rewrite key_to_shard_number_spec, H0 in E by done. congruence.
Qed.



(** ** The automatic split *)

Lemma next_power_of_two_ge n p : 0 <= n -> checked_next_power_of_two n = Some p -> n <= p.
Proof.
  intros Hn. unfold checked_next_power_of_two. case_decide as Hp; [|done]. intros [= <-].
  destruct (decide (n <= 1)); [lia|]. by apply Z.log2_up_spec; lia.
Qed.

Lemma div_ceil_le a b p : 0 < b -> div_ceil a b <= p -> a <= p * b.
Proof.
  intros Hb. unfold div_ceil. pose proof (Z.div_mod a b). pose proof (Z.mod_pos_bound a b Hb).
  case_decide; nia.
Qed.

(** The number of shards the controller asks for is an increase, stays within
    [max_split_shards] and a byte, and, unless one of those two limits was hit,
    brings the logical size per shard to the threshold or below. *)
Theorem compute_split_shards_bounds (i : ShardSplitInputs) (new : Z) :
  in_u 8 (ssi_shard_count i) -> in_u 64 (ssi_max_logical_size i) -> in_u 64 (ssi_split_threshold i) ->
  in_u 8 (ssi_max_split_shards i) -> in_u 8 (ssi_initial_split_shards i) ->
  compute_split_shards i = Some new ->
  shard_count (ssi_shard_count i) < new <= ssi_max_split_shards i /\ in_u 8 new
  /\ (0 < ssi_split_threshold i -> new < ssi_max_split_shards i -> new < u8_max ->
      ssi_max_logical_size i <= new * ssi_split_threshold i).
Proof.
  intros Hc Hl Ht Hm Hi. unfold compute_split_shards.
  set (count := shard_count _). set (want := div_ceil _ _).
  set (n1 := if bool_decide (0 < ssi_split_threshold i) && _ then _ else count).
  set (n2 := if bool_decide (0 < ssi_initial_split_threshold i) && _ && _ then _ else n1).
  case_decide as Hn; [done|]. intros [= <-].
  assert (n1 <= n2) as H12 by (unfold n2; case_match; lia).
  unfold in_u in *. pose proof (shard_count_max (ssi_shard_count i) ltac:(lia)) as Ec. fold count in Ec.
  split_and!; try lia. intros Hpos Hlim H255.
  rewrite Z.min_l in * by lia. apply (Z.le_trans _ (n1 * ssi_split_threshold i)); [|nia].
  apply div_ceil_le; [done|]. fold want. unfold n1 in *. rewrite (bool_decide_true (0 < _)) in * by done.
  cbn [andb] in *. case_bool_decide as Hw; [|lia].
  destruct (checked_next_power_of_two want) as [p|] eqn:Ep; cbn [default from_option id] in *.
  - apply next_power_of_two_ge in Ep; [|lia]. unfold u64_as_u8 in *. case_decide; simpl in *; lia.
  - unfold u64_as_u8 in *. case_decide; simpl in *; unfold u8_max in *; lia.
Qed.

Lemma compute_split_shards_bounds_witness :
  let i := {| ssi_shard_count := 1; ssi_max_logical_size := 700; ssi_split_threshold := 100;
              ssi_max_split_shards := 16; ssi_initial_split_threshold := 50;
              ssi_initial_split_shards := 2 |} in
  compute_split_shards i = Some 8 /\ 700 <= 8 * 100.
Proof.
  intros i. split; [reflexivity|].
  by apply (compute_split_shards_bounds i 8).
Defined.

(** ** Text of shard ids *)

Lemma hex_encode_cons b bs : hex_encode (b :: bs) = fmt_02x (byte_Z b) ++ hex_encode bs.
Proof.
  unfold hex_encode, fmt_02x. cbn [mbind list_bind app]. pose proof (byte_Z_bound b).
  rewrite !(land_mask_small _ 0xf 4), Z.shiftr_div_pow2 by done.
  change (2 ^ 4) with 16. rewrite (Z.mod_small (byte_Z b / 16)); [done|].
  split; [apply Z.div_pos; lia|]. apply Z.div_lt_upper_bound; lia.
Qed.

Lemma length_hex_encode bs : length (hex_encode bs) = (2 * length bs)%nat.
Proof. induction bs as [|b bs IH]; [done|]. rewrite hex_encode_cons. simpl. lia. Qed.

Lemma slug_hex_encode n c :
  in_u 8 n -> in_u 8 c -> shard_slug_fmt n c = hex_encode [Z_byte n; Z_byte c].
Proof.
  intros Hn Hc. unfold in_u in *. rewrite !hex_encode_cons, !byte_Z_Z_byte, !Z.mod_small by lia. done.
Qed.

Section text_facts.
Context `{!HexCrate, !HexCrateLaws}.

Lemma shard_parts_fmt n c : in_u 8 n -> in_u 8 c -> shard_parts (shard_slug_fmt n c) = inr (n, c).
Proof.
  intros Hn Hc. rewrite slug_hex_encode by done. unfold shard_parts.
  rewrite (decode_encode [Z_byte n; Z_byte c]). cbn [nth]. unfold in_u in *.
  by rewrite !byte_Z_Z_byte, !Z.mod_small by lia.
Qed.

Lemma ts_from_str_parts id n c sep :
  length id = 16%nat -> in_u 8 n -> in_u 8 c ->
  ts_from_str (hex_encode id ++ [sep] ++ shard_slug_fmt n c) = inr (mkTenantShardId id n c).
Proof.
  intros Hid Hn Hc. unfold ts_from_str.
  pose proof (length_hex_encode id) as Hl. rewrite Hid in Hl.
  assert (length (hex_encode id ++ [sep] ++ shard_slug_fmt n c) = 37%nat) as Hlen.
  { rewrite !length_app, Hl. done. }
  rewrite decide_False, decide_True by lia.
  rewrite take_app_length' by done. unfold id_from_hex. rewrite <- Hid at 1. rewrite decode_encode.
  rewrite drop_app_ge, Hl by (rewrite Hl; lia).
  change (drop (33 - 2 * 16) ([sep] ++ shard_slug_fmt n c)) with (shard_slug_fmt n c).
  by rewrite shard_parts_fmt.
Qed.
End text_facts.

(** A tenant shard id survives its text, with or without a shard suffix, and
    its 18 bytes; the separator before the suffix is not looked at: any byte in
    its place gives the same id. *)
Theorem tenant_shard_id_round_trip `{!HexCrate, !HexCrateLaws} (t : TenantShardId) (sep : byte) :
  tenant_shard_id_wf t -> (ts_shard_count t = 0 -> ts_shard_number t = 0) ->
  ts_from_str (ts_fmt t) = inr t
  /\ ts_from_packed (ts_packed t) = t
  /\ ts_from_str (hex_encode (ts_tenant_id t) ++ [sep]
                  ++ shard_slug_fmt (ts_shard_number t) (ts_shard_count t)) = inr t.
Proof.
  destruct t as [id n c]. intros (Hid & Hn & Hc) Hz.
  cbn [ts_tenant_id ts_shard_number ts_shard_count] in *. split_and!.
  - unfold ts_fmt. cbn [ts_tenant_id ts_shard_number ts_shard_count].
    case_decide as Hne; [by apply ts_from_str_parts|].
    assert (c = 0) as -> by lia. rewrite Hz by done. unfold ts_from_str.
    rewrite decide_True by (rewrite length_hex_encode; lia).
    unfold id_from_hex. rewrite <- Hid. by rewrite decode_encode.
  - unfold ts_packed, ts_from_packed. cbn [ts_tenant_id ts_shard_number ts_shard_count].
    rewrite take_app_length' by done.
    rewrite !app_nth2 by (rewrite Hid; lia). rewrite Hid. cbn [Nat.sub nth]. unfold in_u in *.
    by rewrite !byte_Z_Z_byte, !Z.mod_small by lia.
  - by apply ts_from_str_parts.
Qed.

(** The digits of a byte string are its big-endian value. *)
Lemma hex_lower_digit d : 0 <= d < 16 -> hex_digit (hex_lower d) = Some d.
Proof.
  intros Hd. unfold hex_digit, hex_lower. rewrite byte_Z_Z_byte.
  repeat case_decide; try rewrite Z.mod_small in * by lia; try lia; f_equal; lia.
Qed.

Lemma byte_digits b : 0 <= byte_Z b / 16 < 16 /\ 0 <= byte_Z b mod 16 < 16.
Proof.
  pose proof (byte_Z_bound b). split; [|by apply Z.mod_pos_bound].
  split; [apply Z.div_pos; lia|apply Z.div_lt_upper_bound; lia].
Qed.

Lemma hex_digits_encode w acc bs :
  0 <= acc -> acc * 256 ^ Z.of_nat (length bs) + be_Z bs < 2 ^ w ->
  hex_digits w acc (hex_encode bs) = Some (acc * 256 ^ Z.of_nat (length bs) + be_Z bs).
Proof.
  revert acc. induction bs as [|b bs IH]; intros acc Ha Hlt; cbn [length] in *.
  - cbn in *. f_equal. change (be_Z []) with 0 in *. lia.
  - rewrite hex_encode_cons. unfold fmt_02x. cbn [app hex_digits].
    destruct (byte_digits b). rewrite !hex_lower_digit by done. cbn [mbind option_bind].
    pose proof (be_Z_bound bs). pose proof (Z.div_mod (byte_Z b) 16 ltac:(done)).
    rewrite be_Z_cons, Nat2Z.inj_succ, Z.pow_succ_r in * by lia.
    assert (0 < 256 ^ Z.of_nat (length bs)) by (apply Z.pow_pos_nonneg; lia).
    rewrite !decide_True by nia. rewrite IH by nia. f_equal. nia.
Qed.

(** The eight digits of a generation. *)
Lemma fmt_08x_spec w v :
  in_u 32 v -> 32 <= w ->
  length (fmt_08x v) = 8%nat /\ from_str_radix_16 w (fmt_08x v) = Some v /\ Forall is_hex (fmt_08x v).
Proof.
  intros Hv Hw. unfold in_u in Hv.
  assert (fmt_08x v = hex_encode (be_bytes 4 v)) as ->.
  { unfold fmt_08x. induction (be_bytes 4 v) as [|b l IH]; [done|]. rewrite hex_encode_cons, <- IH. done. }
  assert (be_Z (be_bytes 4 v) = v) as Ev by by apply be_Z_be_bytes_small.
  assert (2 ^ 32 <= 2 ^ w) by (apply Z.pow_le_mono_r; lia). split_and!.
  - by rewrite length_hex_encode.
  - unfold from_str_radix_16. destruct (be_bytes 4 v) as [|b l] eqn:El; [done|].
    pose proof (hex_digits_encode w 0 (b :: l) ltac:(lia)) as Hd. rewrite Ev in Hd.
    rewrite hex_encode_cons in *. unfold fmt_02x in *. cbn [app] in *.
    rewrite decide_False by (apply is_hex_not_plus; eexists; apply hex_lower_digit, byte_digits).
    rewrite Hd by lia. done.
  - clear Ev. induction (be_bytes 4 v) as [|b l IH]; [apply Forall_nil_2|].
    rewrite hex_encode_cons. apply Forall_app. split; [|done].
    destruct (byte_digits b). unfold fmt_02x. rewrite !Forall_cons, Forall_nil. unfold is_hex.
    by rewrite !hex_lower_digit by done.
Qed.

(** A generation's file suffix parses back. *)
Lemma gen_suffix_round_trip v :
  in_u 32 v -> gen_get_suffix (GValid v) = dash :: fmt_08x v /\ gen_parse_suffix (fmt_08x v) = Some (GValid v).
Proof.
  intros Hv. split; [done|]. unfold gen_parse_suffix.
  by destruct (fmt_08x_spec 32 v Hv ltac:(lia)) as (_ & -> & _).
Qed.

(** A decoder with the documented behaviour. *)
Fixpoint decode_pairs (s : list byte) : option (list byte) :=
  match s with
  | [] => Some []
  | h :: l :: s => a ← hex_digit h; b ← hex_digit l; bs ← decode_pairs s; Some (Z_byte (a * 16 + b) :: bs)
  | _ => None
  end.

#[local] Instance hex_crate : HexCrate := {|
  decode_to_slice s n :=
    if decide (length s = (2 * n)%nat) then
      match decode_pairs s with Some bs => inr bs | None => inl InvalidHexCharacter end
    else inl InvalidStringLength
|}.

#[local] Instance hex_crate_laws : HexCrateLaws.
Proof.
  split.
  - intros s n Hn. unfold decode_to_slice, hex_crate. rewrite decide_False by done. eauto.
  - intros bs. unfold decode_to_slice, hex_crate. rewrite decide_True by apply length_hex_encode.
    enough (decode_pairs (hex_encode bs) = Some bs) as -> by done.
    induction bs as [|b bs IH]; [done|]. rewrite hex_encode_cons. unfold fmt_02x. cbn [app decode_pairs].
    destruct (byte_digits b). rewrite !hex_lower_digit by done.
    cbn [mbind option_bind]. rewrite IH. cbn.
    rewrite (Z.mul_comm (byte_Z b / 16)), <- Z.div_mod by done. by rewrite Z_byte_byte_Z.
Qed.

Lemma tenant_shard_id_round_trip_witness :
  let t := mkTenantShardId (replicate 16 Byte.x1f) 7 10 in
  ts_from_str (ts_fmt t) = inr t
  /\ ts_fmt t = str "1f1f1f1f1f1f1f1f1f1f1f1f1f1f1f1f-070a".
Proof.
  split; [|reflexivity].
  by apply (tenant_shard_id_round_trip (mkTenantShardId (replicate 16 Byte.x1f) 7 10) Byte.x2f).
Defined.
