(* ===== verification/KeySpace.v ===== *)
(** * Sets of keys ([libs/pageserver_api/src/keyspace.rs])

    [ShardedRange]: the pages of a key range that are on one shard, and its
    division into fragments; [KeySpace]: sorted disjoint ranges, their merge,
    difference and partition; [KeySpaceAccum] and [KeySpaceRandomAccum]: building
    one.  Arithmetic that leaves its type is [None] or [Panic], so that a theorem
    that a result is returned holds for checked and for wrapping builds;
    assertions that exist only in debug builds are not part of the model. *)

From S2P Require Import Prelude Lsn XlogUtils Key Shard.

Notation KRange := (Range Key).

Definition checked_u32 (z : Z) : option Z := if decide (0 <= z < 2 ^ 32) then Some z else None.
Definition checked_u8 (z : Z) : option Z := if decide (0 <= z < 2 ^ 8) then Some z else None.

(** ** [ShardedRange] *)

Record ShardedRange := mkShardedRange { sr_identity : ShardIdentity; sr_range : KRange }.

Definition contiguous_range_len (range : KRange) : option Z :=
  if decide (field6 (start range) = 0xffffffff)
  then checked_u32 (field6 (end_ range) + 1)
  else checked_u32 (field6 (end_ range) - field6 (start range)).

Definition is_contiguous_range (range : KRange) : option bool :=
  let s := start range in
  let e := end_ range in
  if bool_decide (field1 s = field1 e) && bool_decide (field2 s = field2 e)
     && bool_decide (field3 s = field3 e) && bool_decide (field4 s = field4 e)
  then
    if decide (field5 s = field5 e) then Some true
    else if decide (field6 s = 0xffffffff)
    then f ← checked_u8 (field5 s + 1); Some (bool_decide (f = field5 e))
    else Some false
  else Some false.

Definition distance_to_next_boundary (self : ShardedRange) (cursor : Key) : option Z :=
  distance_to_range_end ← contiguous_range_len (mkRange cursor (end_ (sr_range self)));
  if decide (sid_count (sr_identity self) < 2) then Some distance_to_range_end
  else if decide (field6 cursor = 0xffffffff) then Some 1
  else
    let stripe_size := sid_stripe_size (sr_identity self) in
    if decide (stripe_size = 0) then None else
    let stripe_index := field6 cursor / stripe_size in
    base ← checked_u32 (stripe_index * stripe_size);
    offset ← checked_u32 (field6 cursor - base);
    stripe_remainder ← checked_u32 (stripe_size - offset);
    Some (Z.min stripe_remainder distance_to_range_end).

(** A fragment: the number of its keys on this shard, and the range. *)
Definition fragment_t : Type := Z * KRange.

(** One round of the loop of [fragment].  The fragments are kept with the last
    one first. *)
Definition fragment_step (self : ShardedRange) (target_nblocks : Z) (cursor : Key)
    (fragments : list fragment_t) : option (Key * list fragment_t) :=
  advance_by ← distance_to_next_boundary self cursor;
  is_fragment_disposable ← is_key_disposable (sr_identity self) cursor;
  let '(want_blocks, merge_last_fragment) :=
    match fragments with
    | frag :: _ =>
        if decide (frag.1 < target_nblocks) then (target_nblocks - frag.1, true)
        else (target_nblocks, is_fragment_disposable)
    | [] => (target_nblocks, false)
    end in
  let advance_by :=
    if is_fragment_disposable : bool then advance_by else Z.min advance_by want_blocks in
  next_cursor ← key_add cursor advance_by;
  let n := if is_fragment_disposable then 0 else advance_by in
  match merge_last_fragment, fragments with
  | true, frag :: fragments =>
      n ← checked_u32 (frag.1 + n);
      Some (next_cursor, (n, mkRange (start frag.2) next_cursor) :: fragments)
  | _, _ => Some (next_cursor, (n, mkRange cursor next_cursor) :: fragments)
  end.

Fixpoint fragment_loop (fuel : nat) (self : ShardedRange) (target_nblocks : Z) (cursor : Key)
    (fragments : list fragment_t) : outcome fuel_error (list fragment_t) :=
  if key_ltb cursor (end_ (sr_range self)) then
    match fuel with
    | O => Err OutOfFuel
    | S fuel =>
        '(cursor, fragments) ← of_option (fragment_step self target_nblocks cursor fragments);
        fragment_loop fuel self target_nblocks cursor fragments
    end
  else Ok (rev fragments).

(** [range.end == range.start.add(1)]. *)
Definition is_single_key (range : KRange) : option bool :=
  next ← key_add (start range) 1; Some (bool_decide (end_ range = next)).

Definition single_key_count (self : ShardedRange) : option Z :=
  d ← is_key_disposable (sr_identity self) (start (sr_range self));
  Some (if d : bool then 0 else 1).

Definition fragment (fuel : nat) (self : ShardedRange) (target_nblocks : Z) :
    outcome fuel_error (list fragment_t) :=
  single ← of_option (is_single_key (sr_range self));
  if single : bool then n ← of_option (single_key_count self); Ok [(n, sr_range self)] else
  contiguous ← of_option (is_contiguous_range (sr_range self));
  if negb contiguous then Ok [(u32_max, sr_range self)]
  else fragment_loop fuel self target_nblocks (start (sr_range self)) [].

Fixpoint page_count_loop (fuel : nat) (self : ShardedRange) (cursor : Key) (result : Z) :
    outcome fuel_error Z :=
  if key_ltb cursor (end_ (sr_range self)) then
    match fuel with
    | O => Err OutOfFuel
    | S fuel =>
        advance_by ← of_option (distance_to_next_boundary self cursor);
        d ← of_option (is_key_disposable (sr_identity self) cursor);
        let result := if d : bool then result else result + advance_by in
        cursor ← of_option (key_add cursor advance_by);
        page_count_loop fuel self cursor result
    end
  else Ok (if decide (u32_max < result) then u32_max else result).

Definition page_count (fuel : nat) (self : ShardedRange) : outcome fuel_error Z :=
  single ← of_option (is_single_key (sr_range self));
  if single : bool then of_option (single_key_count self) else
  contiguous ← of_option (is_contiguous_range (sr_range self));
  if negb contiguous then Ok u32_max
  else if decide (sid_count (sr_identity self) < 2)
  then of_option (contiguous_range_len (sr_range self))
  else page_count_loop fuel self (start (sr_range self)) 0.

Definition raw_size (range : KRange) : option Z :=
  contiguous ← is_contiguous_range range;
  if contiguous : bool then contiguous_range_len range else Some u32_max.

(** ** Accumulators *)

Record KeySpace := mkKeySpace { ranges : list KRange }.

Definition singleton_range (key : Key) : option KRange :=
  next ← key_next key; Some (mkRange key next).

Record KeySpaceAccum := mkKeySpaceAccum { ka_accum : option KRange; ka_ranges : list KRange; ka_size : Z }.

Definition ka_new : KeySpaceAccum := mkKeySpaceAccum None [] 0.

Definition ka_add_range (self : KeySpaceAccum) (range : KRange) : option KeySpaceAccum :=
  n ← raw_size range;
  let size := ka_size self + n in
  match ka_accum self with
  | Some accum =>
      if decide (start range = end_ accum) then
        Some (mkKeySpaceAccum (Some (mkRange (start accum) (end_ range))) (ka_ranges self) size)
      else if key_ltb (end_ accum) (start range) then
        Some (mkKeySpaceAccum (Some range) (ka_ranges self ++ [accum]) size)
      else None
  | None => Some (mkKeySpaceAccum (Some range) (ka_ranges self) size)
  end.

Definition ka_add_key (self : KeySpaceAccum) (key : Key) : option KeySpaceAccum :=
  range ← singleton_range key; ka_add_range self range.

Definition ka_to_keyspace (self : KeySpaceAccum) : KeySpace :=
  match ka_accum self with
  | Some accum => mkKeySpace (ka_ranges self ++ [accum])
  | None => mkKeySpace (ka_ranges self)
  end.

(** [std::mem::take] leaves the empty accumulator behind. *)
Definition ka_consume_keyspace (self : KeySpaceAccum) : KeySpace * KeySpaceAccum :=
  (ka_to_keyspace self, ka_new).

(** [KeySpaceRandomAccum] is the list of the ranges added. *)
Definition kra_add_range (self : list KRange) (range : KRange) : list KRange := self ++ [range].

Definition kra_add_keyspace (self : list KRange) (keyspace : KeySpace) : list KRange :=
  fold_left kra_add_range (ranges keyspace) self.

(** [sort_by_key(|r| r.start)], a stable sort: an insertion behind the equal ones. *)
Fixpoint insert_by_start (r : KRange) (l : list KRange) : list KRange :=
  match l with
  | [] => [r]
  | x :: l' => if key_ltb (start r) (start x) then r :: l else x :: insert_by_start r l'
  end.

Definition sort_by_start (l : list KRange) : list KRange :=
  fold_left (fun acc r => insert_by_start r acc) l [].

(** The loop of [to_keyspace]; the accumulated ranges are kept last first. *)
Fixpoint kra_merge (s e : Key) (l : list KRange) (acc : list KRange) : option (list KRange) :=
  match l with
  | [] => Some (rev (mkRange s e :: acc))
  | r :: l =>
      if key_leb s (start r) then
        if key_ltb e (start r) then kra_merge (start r) (end_ r) l (mkRange s e :: acc)
        else if key_ltb e (end_ r) then kra_merge s (end_ r) l acc
        else kra_merge s e l acc
      else None
  end.

Definition kra_to_keyspace (self : list KRange) : option KeySpace :=
  match sort_by_start self with
  | [] => Some (mkKeySpace [])
  | r :: l => mkKeySpace <$> kra_merge (start r) (end_ r) (r :: l) []
  end.

(** ** [KeySpace] *)

Definition ks_single (key_range : KRange) : KeySpace := mkKeySpace [key_range].

Definition ks_start (self : KeySpace) : option Key := start <$> head (ranges self).
Definition ks_end (self : KeySpace) : option Key := end_ <$> last (ranges self).

(** [slice::binary_search_by_key] on the starts: the place of the key among them.
    The starts of a key space are distinct, so the place is unique. *)
Definition binary_search_start (l : list KRange) (k : Key) : nat + nat :=
  let i := length (filter (fun r => key_ltb (start r) k = true) l) in
  match l !! i with
  | Some r => if decide (start r = k) then inl i else inr i
  | None => inr i
  end.

Definition overlaps_at (self : KeySpace) (range : KRange) : option nat :=
  let below index :=
    match index with
    | O => None
    | S i => r ← ranges self !! i; if key_ltb (start range) (end_ r) then Some i else None
    end in
  match binary_search_start (ranges self) (end_ range) with
  | inl index => below index
  | inr index => below index
  end.

Definition overlaps (self : KeySpace) (range : KRange) : bool :=
  bool_decide (is_Some (overlaps_at self range)).

Definition ks_contains (self : KeySpace) (key : Key) : option bool :=
  next ← key_next key; Some (overlaps self (mkRange key next)).

Definition total_raw_size (self : KeySpace) : option Z :=
  foldr (fun r acc => n ← raw_size r; m ← acc; Some (n + m)) (Some 0) (ranges self).

Definition ks_is_empty (self : KeySpace) : option bool :=
  n ← total_raw_size self; Some (bool_decide (n = 0)).

(** [Itertools::merge_by] of the [itertools] crate, as it is used here. *)
Class Itertools := {
  merge_by : (KRange -> KRange -> bool) -> list KRange -> list KRange -> list KRange
}.

(** Its documentation: the two sequences are merged, in ascending order when both
    ascend in the order of the predicate. *)
Class ItertoolsLaws `{!Itertools} := {
  merge_by_perm f a b : merge_by f a b ≡ₚ a ++ b;
  merge_by_sorted (measure : KRange -> Z) f a b :
    (forall x y, x ∈ a ++ b -> y ∈ a ++ b -> f x y = bool_decide (measure x < measure y)) ->
    StronglySorted (fun x y => measure x <= measure y) a ->
    StronglySorted (fun x y => measure x <= measure y) b ->
    StronglySorted (fun x y => measure x <= measure y) (merge_by f a b)
}.

Definition key_max (a b : Key) : Key := if key_ltb b a then a else b.
Definition key_min (a b : Key) : Key := if key_leb a b then a else b.

Fixpoint merge_loop (accum : KeySpaceAccum) (prev : option KRange) (l : list KRange) :
    option KeySpaceAccum :=
  match l with
  | [] => Some accum
  | range :: l =>
      let overlap :=
        match prev with
        | Some prev => key_ltb (key_max (start range) (start prev)) (key_min (end_ range) (end_ prev))
        | None => false
        end in
      if overlap then None
      else accum ← ka_add_range accum range; merge_loop accum (Some range) l
  end.

Definition ks_merge `{!Itertools} (self other : KeySpace) : option KeySpace :=
  accum ← merge_loop ka_new None
    (merge_by (fun lhs rhs => key_ltb (start lhs) (start rhs)) (ranges self) (ranges other));
  Some (ka_to_keyspace accum).

(** The [while let] of [remove_overlapping_with] for one range of the other key
    space; [removed] is the accumulator of removed ranges. *)
Definition remove_step (self : list KRange) (removed : list KRange) (range : KRange)
    (overlap_at : nat) (overlapped : KRange) : list KRange * list KRange :=
  let '(self, removed) :=
    if key_ltb (start overlapped) (start range) && key_leb (end_ overlapped) (end_ range) then
      (<[overlap_at := mkRange (start overlapped) (start range)]> self,
       removed ++ [mkRange (start range) (end_ overlapped)])
    else (self, removed) in
  let '(self, removed) :=
    if key_leb (start range) (start overlapped) && key_ltb (end_ range) (end_ overlapped) then
      (<[overlap_at := mkRange (end_ range) (end_ overlapped)]> self,
       removed ++ [mkRange (start overlapped) (end_ range)])
    else (self, removed) in
  let '(self, removed) :=
    if key_ltb (start overlapped) (start range) && key_ltb (end_ range) (end_ overlapped) then
      (take (S overlap_at) (<[overlap_at := mkRange (start overlapped) (start range)]> self)
       ++ [mkRange (end_ range) (end_ overlapped)] ++ drop (S overlap_at) self,
       removed ++ [range])
    else (self, removed) in
  if key_leb (start range) (start overlapped) && key_leb (end_ overlapped) (end_ range) then
    (delete overlap_at self, removed ++ [overlapped])
  else (self, removed).

Fixpoint remove_range (fuel : nat) (self removed : list KRange) (range : KRange) :
    outcome fuel_error (list KRange * list KRange) :=
  match overlaps_at (mkKeySpace self) range with
  | None => Ok (self, removed)
  | Some overlap_at =>
      match fuel with
      | O => Err OutOfFuel
      | S fuel =>
          overlapped ← of_option (self !! overlap_at);
          let '(self, removed) := remove_step self removed range overlap_at overlapped in
          remove_range fuel self removed range
      end
  end.

Fixpoint remove_ranges (fuel : nat) (self removed : list KRange) (l : list KRange) :
    outcome fuel_error (list KRange * list KRange) :=
  match l with
  | [] => Ok (self, removed)
  | range :: l =>
      '(self, removed) ← remove_range fuel self removed range;
      remove_ranges fuel self removed l
  end.

Fixpoint skip_while {A} (p : A -> bool) (l : list A) : list A :=
  match l with x :: l' => if p x then skip_while p l' else l | [] => [] end.
Fixpoint take_while {A} (p : A -> bool) (l : list A) : list A :=
  match l with x :: l' => if p x then x :: take_while p l' else [] | [] => [] end.

(** Returns the removed key space and what is left of [self]. *)
Definition remove_overlapping_with (fuel : nat) (self other : KeySpace) :
    outcome fuel_error (KeySpace * KeySpace) :=
  match ks_start self, ks_end self with
  | Some self_start, Some self_end =>
      let other_ranges :=
        take_while (fun range => key_ltb (start range) self_end)
          (skip_while (fun range => key_leb (end_ range) self_start) (ranges other)) in
      '(rest, removed) ← remove_ranges fuel (ranges self) [] other_ranges;
      removed ← of_option (kra_to_keyspace removed);
      Ok (removed, mkKeySpace rest)
  | _, _ => Ok (mkKeySpace [], self)
  end.

(** ** Partitioning *)

(** The state of the loop: the finished parts, last first; the current part, last
    range first; and its size. *)
Record partition_state := mkPartition {
  pt_parts : list KeySpace; pt_current : list KRange; pt_size : Z
}.

Definition partition_add (target_nblocks : Z) (st : partition_state) (frag : fragment_t) :
    partition_state :=
  let '(frag_on_shard_size, frag_range) := frag in
  let st :=
    if bool_decide (target_nblocks < pt_size st + frag_on_shard_size) && bool_decide (0 < pt_size st)
    then mkPartition (mkKeySpace (rev (pt_current st)) :: pt_parts st) [] 0
    else st in
  mkPartition (pt_parts st) (frag_range :: pt_current st) (pt_size st + frag_on_shard_size).

Fixpoint partition_ranges (fuel : nat) (shard_identity : ShardIdentity) (target_nblocks : Z)
    (st : partition_state) (l : list KRange) : outcome fuel_error partition_state :=
  match l with
  | [] => Ok st
  | range :: l =>
      frags ← fragment fuel (mkShardedRange shard_identity range) target_nblocks;
      partition_ranges fuel shard_identity target_nblocks
        (fold_left (partition_add target_nblocks) frags st) l
  end.

(** [(target_size / block_size) as u32]. *)
Definition partition_target (target_size block_size : Z) : Z := wrap 32 (target_size / block_size).

Definition partition (fuel : nat) (self : KeySpace) (shard_identity : ShardIdentity)
    (target_size block_size : Z) : outcome fuel_error (list KeySpace) :=
  if decide (block_size = 0) then Panic else
  st ← partition_ranges fuel shard_identity (partition_target target_size block_size)
         (mkPartition [] [] 0) (ranges self);
  Ok (match pt_current st with
      | [] => rev (pt_parts st)
      | _ => rev (mkKeySpace (rev (pt_current st)) :: pt_parts st)
      end).
