(* ===== verification/KeySpaceFacts.v ===== *)
(** * Properties of key spaces

    [ShardedRange]: the fragments of a range tile it, count the pages of this
    shard, are bounded and are found in finitely many steps; [KeySpace]: merge,
    difference, membership and partition as operations on sets of keys.  A key is
    read as its 144-bit integer [key_Z]. *)

From S2P Require Import Prelude Lsn XlogUtils Key Shard KeySpace.

(** ** Integers as keys *)

Definition key_of_Z (z : Z) : Key :=
  mkKey (z / 2 ^ 32 / 2 ^ 8 / 2 ^ 32 / 2 ^ 32 / 2 ^ 32)
        (z / 2 ^ 32 / 2 ^ 8 / 2 ^ 32 / 2 ^ 32 mod 2 ^ 32)
        (z / 2 ^ 32 / 2 ^ 8 / 2 ^ 32 mod 2 ^ 32)
        (z / 2 ^ 32 / 2 ^ 8 mod 2 ^ 32) (z / 2 ^ 32 mod 2 ^ 8) (z mod 2 ^ 32).

Lemma key_of_Z_key_Z k : key_wf k -> key_of_Z (key_Z k) = k.
Proof.
  intros (H1 & H2 & H3 & H4 & H5 & H6). unfold key_of_Z, key_Z.
  repeat rewrite div_digit by done. rewrite !mod_digit by done. by destruct k.
Qed.

(** The key [i] blocks further in the same fork. *)
Definition with_field6 (k : Key) (b : Z) : Key :=
  mkKey (field1 k) (field2 k) (field3 k) (field4 k) (field5 k) b.

Lemma with_field6_wf k b : key_wf k -> in_u 32 b -> key_wf (with_field6 k b).
Proof. intros (? & ? & ? & ? & ? & _) ?. by split_and!. Qed.

Lemma key_Z_with_field6 k b : key_Z (with_field6 k b) = key_Z k - field6 k + b.
Proof.
  unfold key_Z, with_field6. cbn [field1 field2 field3 field4 field5 field6]. lia.
Qed.

Lemma key_of_Z_field6 k b :
  key_wf k -> in_u 32 b -> key_of_Z (key_Z k - field6 k + b) = with_field6 k b.
Proof.
  intros Hk Hb. rewrite <- key_Z_with_field6. by apply key_of_Z_key_Z, with_field6_wf.
Qed.

Lemma key_add_of_Z k a :
  key_wf k -> in_u 32 a -> key_Z k + a < 2 ^ 144 ->
  key_add k a = Some (key_of_Z (key_Z k + a)) /\ key_wf (key_of_Z (key_Z k + a))
  /\ key_Z (key_of_Z (key_Z k + a)) = key_Z k + a.
Proof.
  intros Hk Ha Hb. pose proof (key_add_Z k a Hk Ha) as H.
  destruct (key_add k a) as [k'|]; [|lia]. destruct H as [Hw E].
  rewrite <- E, key_of_Z_key_Z by done. done.
Qed.

(** ** Counting *)

Definition count_between (p : Z -> bool) (a b : Z) : Z :=
  Z.of_nat (length (filter (fun z => p z = true) (seqZ a (b - a)))).

Lemma count_between_split p a b c :
  a <= b <= c -> count_between p a c = count_between p a b + count_between p b c.
Proof.
  intros H. unfold count_between. replace (c - a) with ((b - a) + (c - b)) by lia.
  rewrite seqZ_app by lia. replace (a + (b - a)) with b by lia.
  rewrite filter_app, length_app. lia.
Qed.

Lemma count_between_const p a b v :
  a <= b -> (forall z, a <= z < b -> p z = v) -> count_between p a b = if v then b - a else 0.
Proof.
  intros Hab Hp. unfold count_between. destruct v.
  - assert (filter (fun z => p z = true) (seqZ a (b - a)) = seqZ a (b - a)) as ->.
    { apply filter_all. intros z Hz%elem_of_seqZ. apply Hp. lia. }
    rewrite length_seqZ. lia.
  - assert (filter (fun z => p z = true) (seqZ a (b - a)) = []) as ->; [|done].
    apply filter_none. intros z Hz%elem_of_seqZ. rewrite Hp by lia. done.
Qed.

Lemma count_between_bound p a b : a <= b -> 0 <= count_between p a b <= b - a.
Proof.
  intros Hab. unfold count_between. split; [lia|].
  pose proof (length_filter (fun z => p z = true) (seqZ a (b - a))). rewrite length_seqZ in *. lia.
Qed.

(** ** Keys kept by a shard *)

Definition sid_ok (sid : ShardIdentity) : Prop :=
  sid_layout sid <> LAYOUT_BROKEN /\ 0 < sid_stripe_size sid < 2 ^ 32 /\ in_u 8 (sid_count sid).

(** The key is not disposable on the shard. *)
Definition kept (sid : ShardIdentity) (z : Z) : bool :=
  match is_key_disposable sid (key_of_Z z) with Some false => true | _ => false end.

Lemma is_key_disposable_kept sid k :
  sid_ok sid -> key_wf k -> is_key_disposable sid k = Some (negb (kept sid (key_Z k))).
Proof.
  intros (Hl & Hs & Hc) Hk. unfold kept. rewrite key_of_Z_key_Z by done.
  enough (exists b, is_key_disposable sid k = Some b) as [[] ->] by done.
  unfold is_key_disposable. destruct (decide (sid_count sid < 2)); [by eexists|].
  destruct (is_key_global sid k); [by eexists|].
  unfold is_key_local, sid_is_broken. rewrite bool_decide_false by done.
  case_match; [by eexists|]. rewrite key_to_shard_number_spec by (done || lia). by eexists.
Qed.

(** Blocks of one stripe are kept together. *)
Lemma kept_same_stripe sid k b :
  sid_ok sid -> key_wf k -> in_u 32 b -> ~ (field1 k = 1 /\ field3 k = 0) ->
  field6 k <> 0xffffffff -> b <> 0xffffffff ->
  field6 k / sid_stripe_size sid = b / sid_stripe_size sid ->
  kept sid (key_Z k - field6 k + b) = kept sid (key_Z k).
Proof.
  intros Hsid Hk Hb Hdir Hm Hbm Hs. unfold kept.
  rewrite key_of_Z_field6, key_of_Z_key_Z by done.
  enough (is_key_disposable sid (with_field6 k b) = is_key_disposable sid k) as -> by done.
  set (k' := with_field6 k b).
  assert (is_rel_block_key k' = is_rel_block_key k) as Er.
  { unfold is_rel_block_key, k', with_field6. cbn [field1 field4 field6].
    by rewrite !(bool_decide_true (_ <> 0xffffffff)). }
  assert (key_is_shard0 k' = key_is_shard0 k) as E0 by (unfold key_is_shard0; by rewrite Er).
  assert (block_hash (sid_stripe_size sid) k' = block_hash (sid_stripe_size sid) k) as Eh.
  { unfold block_hash, k', with_field6. cbn [field4 field6]. by rewrite Hs. }
  unfold is_key_disposable, is_key_local, key_to_shard_number. rewrite E0, Eh.
  enough (is_key_global sid k' = is_key_global sid k) as -> by done.
  unfold is_key_global. rewrite Er.
  assert (is_slru_block_key k' = is_slru_block_key k) as ->.
  { unfold is_slru_block_key, k', with_field6. cbn [field1 field3 field6].
    by rewrite !(bool_decide_true (_ <> 0xffffffff)). }
  assert (forall x, field6 x <> 0xffffffff -> is_slru_segment_size_key x = false) as Hss.
  { intros x Hx. unfold is_slru_segment_size_key, u32_max.
    rewrite (bool_decide_false (field6 x = _)) by done. by rewrite andb_false_r. }
  rewrite !Hss by done.
  assert (forall x, ~ (field1 x = 1 /\ field3 x = 0) -> is_slru_dir_key x = false) as Hd.
  { intros x Hx. unfold is_slru_dir_key, slru_dir_kind.
    destruct (bool_decide (field1 x = 1)) eqn:E1; [|done].
    destruct (bool_decide (field3 x = 0)) eqn:E3; [|done].
    apply bool_decide_eq_true in E1, E3. tauto. }
  rewrite !Hd by done. unfold is_aux_file_key. cbn [field1 k' with_field6].
  by destruct (is_rel_size_key k'), (is_rel_size_key k).
Qed.

(** ** Contiguous ranges *)

Definition rs (r : KRange) : Z := key_Z (start r).
Definition re (r : KRange) : Z := key_Z (end_ r).
Definition range_wf (r : KRange) : Prop := key_wf (start r) /\ key_wf (end_ r).

(** A range that [is_contiguous_range] accepts, shorter than [2 ^ 32] keys, and
    not in the directory of the SLRUs. *)
Record run (r : KRange) : Prop := {
  run_wf : range_wf r;
  run_contiguous : is_contiguous_range r = Some true;
  run_len : 0 < re r - rs r < 2 ^ 32;
  run_not_slru_dir : ~ (field1 (end_ r) = 1 /\ field3 (end_ r) = 0)
}.

(** The key at a position: the size key the range may start with, or a block of
    the fork the range ends in. *)
Lemma run_key r z :
  run r -> rs r <= z < re r ->
  (key_of_Z z = start r /\ z = rs r /\ field6 (start r) = 0xffffffff
   /\ re r = rs r + 1 + field6 (end_ r))
  \/ (key_of_Z z = with_field6 (end_ r) (field6 (end_ r) - (re r - z))
      /\ 0 <= field6 (end_ r) - (re r - z)).
Proof.
  intros [[Ws We] Hc Hl _] Hz. unfold rs, re in *.
  pose proof We as (E1 & E2 & E3 & E4 & E5 & E6). pose proof Ws as (S1 & S2 & S3 & S4 & S5 & S6).
  assert (forall b, 0 <= b -> key_Z (end_ r) - field6 (end_ r) + b = z -> b < 2 ^ 32 ->
    key_of_Z z = with_field6 (end_ r) b) as Hb.
  { intros b Hb <- Hb'. by apply key_of_Z_field6. }
  unfold is_contiguous_range in Hc.
  destruct (bool_decide (field1 (start r) = _)) eqn:F1; [|done].
  destruct (bool_decide (field2 (start r) = _)) eqn:F2; [|done].
  destruct (bool_decide (field3 (start r) = _)) eqn:F3; [|done].
  destruct (bool_decide (field4 (start r) = _)) eqn:F4; [|done]. cbn [andb] in Hc.
  apply bool_decide_eq_true in F1, F2, F3, F4. unfold in_u in *.
  assert (key_Z (end_ r) - key_Z (start r)
    = (field5 (end_ r) - field5 (start r)) * 2 ^ 32 + field6 (end_ r) - field6 (start r)) as Hd.
  { unfold key_Z. rewrite F1, F2, F3, F4. lia. }
  destruct (decide (field5 (start r) = field5 (end_ r))) as [F5|F5].
  - right. split; [apply Hb|]; lia.
  - destruct (decide (field6 (start r) = 0xffffffff)) as [F6|F6]; [|done].
    unfold checked_u8 in Hc. case_decide as Hf5; [|done]. injection Hc as Hf%bool_decide_eq_true.
    destruct (decide (z = key_Z (start r))) as [->|Hne].
    + left. rewrite key_of_Z_key_Z by done. split_and!; try done. lia.
    + right. split; [apply Hb|]; lia.
Qed.

Lemma run_wf_key r z : run r -> rs r <= z < re r -> key_wf (key_of_Z z) /\ key_Z (key_of_Z z) = z.
Proof.
  intros Hr Hz. destruct (run_key r z Hr Hz) as [(-> & -> & _)|[-> Hb]].
  - split; [apply Hr|done].
  - destruct Hr as [[_ We] _ _ _]. pose proof We as (_ & _ & _ & _ & _ & H6).
    split; [apply with_field6_wf; [done|]|rewrite key_Z_with_field6]; unfold in_u, re in *; lia.
Qed.

Lemma contiguous_len_run r z :
  run r -> rs r <= z < re r ->
  contiguous_range_len (mkRange (key_of_Z z) (end_ r)) = Some (re r - z).
Proof.
  intros Hr Hz. unfold contiguous_range_len, checked_u32. cbn [start end_].
  pose proof (run_len r Hr) as Hl. destruct (run_wf r Hr) as [_ (_ & _ & _ & _ & _ & H6)].
  unfold in_u in H6.
  destruct (run_key r z Hr Hz) as [(-> & -> & F6 & E)|[-> Hb]]; cbn [field6 with_field6].
  - rewrite decide_True by done. rewrite decide_True by lia. f_equal. lia.
  - rewrite decide_False by lia. rewrite decide_True by lia. f_equal. lia.
Qed.

(** The stride of the loops: at least one key, never past the end, and uniform. *)
Lemma distance_spec sid r z :
  sid_ok sid -> run r -> rs r <= z < re r ->
  exists d, distance_to_next_boundary (mkShardedRange sid r) (key_of_Z z) = Some d
  /\ 1 <= d <= re r - z /\ forall x, z <= x < z + d -> kept sid x = kept sid z.
Proof.
  intros Hsid Hr Hz. pose proof Hsid as (Hl & Hs & Hc). pose proof (run_len r Hr) as Hlen.
  destruct (run_wf_key r z Hr Hz) as [Wk Ek].
  unfold distance_to_next_boundary. cbn [sr_identity sr_range].
  rewrite contiguous_len_run by done. cbn [mbind option_bind].
  case_decide as Hc2.
  { exists (re r - z). split_and!; [done|lia|lia|]. intros x _. unfold kept, is_key_disposable.
    by rewrite !decide_True. }
  case_decide as Hmax.
  { exists 1. split_and!; [done|lia|lia|]. intros x Hx. by replace x with z by lia. }
  rewrite decide_False by lia.
  set (k := key_of_Z z) in *. set (ss := sid_stripe_size sid) in *.
  pose proof Wk as (_ & _ & _ & _ & _ & W6). unfold in_u in W6.
  pose proof (Z.div_mod (field6 k) ss ltac:(lia)). pose proof (Z.mod_pos_bound (field6 k) ss ltac:(lia)).
  pose proof (Z.div_pos (field6 k) ss ltac:(lia) ltac:(lia)).
  unfold checked_u32. rewrite decide_True by nia. cbn [mbind option_bind].
  rewrite decide_True by nia. cbn [mbind option_bind]. rewrite decide_True by nia. cbn [mbind option_bind].
  eexists. split_and!; [done|nia|nia|]. intros x Hx.
  assert (field6 k < field6 (end_ r) /\ re r - z = field6 (end_ r) - field6 k
          /\ ~ (field1 k = 1 /\ field3 k = 0)) as (Hlt & Hre & Hdir).
  { destruct (run_key r z Hr Hz) as [(E & _ & F6 & _)|[E Hb]]; fold k in E.
    - by rewrite E in Hmax.
    - pose proof (run_not_slru_dir r Hr). rewrite E. cbn [field1 field3 field6 with_field6]. split_and!; [lia|lia|done]. }
  destruct (run_wf r Hr) as [_ (_ & _ & _ & _ & _ & E6)]. unfold in_u in E6.
  replace (kept sid z) with (kept sid (key_Z k)) by (by rewrite Ek).
  replace x with (key_Z k - field6 k + (field6 k + (x - z))) by lia.
  apply kept_same_stripe; [done|done|unfold in_u; lia|done|done|lia|].
  fold ss. apply (Z.div_unique _ _ _ (field6 k mod ss + (x - z))); [|lia]. left. lia.
Qed.

(** ** Fragments *)

(** The ranges follow one another from one key to another, none of them empty. *)
Fixpoint tiles (a : Key) (l : list KRange) (b : Key) : Prop :=
  match l with
  | [] => a = b
  | r :: l => start r = a /\ rs r < re r /\ tiles (end_ r) l b
  end.

Lemma tiles_app a l1 l2 b : tiles a (l1 ++ l2) b <-> exists m, tiles a l1 m /\ tiles m l2 b.
Proof.
  revert a. induction l1 as [|r l1 IH]; intros a; cbn [app tiles].
  - split; [by exists a|]. by intros (m & -> & H).
  - rewrite IH. naive_solver.
Qed.

(** The count of a fragment is the number of its keys the shard keeps. *)
Definition counted (sid : ShardIdentity) (f : fragment_t) : Prop :=
  f.1 = count_between (kept sid) (rs f.2) (re f.2).

(** The fragments of a prefix of the range, last first: they tile it and are
    counted, all but the last one are full, and none but a single one is empty. *)
Record fragmented (sid : ShardIdentity) (target : Z) (a : Key) (frags : list fragment_t) (b : Key) : Prop := {
  fr_tiles : tiles a (rev frags.*2) b;
  fr_counted : Forall (counted sid) frags;
  fr_bound : forall f l, frags = f :: l -> f.1 <= target;
  fr_full : forall f l, frags = f :: l -> Forall (fun g => g.1 = target) l;
  fr_nonempty : forall f l, frags = f :: l -> f.1 = 0 -> l = []
}.

Lemma tiles_end a l r b : tiles a (rev (r :: l)) b -> end_ r = b /\ rs r < re r /\ tiles a (rev l) (start r).
Proof.
  cbn [rev]. rewrite tiles_app. cbn [tiles]. intros (m & Hl & -> & Hr & Hb). done.
Qed.

(** Appending a uniform piece to the last fragment, or as a new one. *)
Lemma fragmented_extend sid target a f l b b' n :
  fragmented sid target a (f :: l) b -> key_Z b < key_Z b' ->
  count_between (kept sid) (key_Z b) (key_Z b') = n -> 0 <= n -> f.1 + n <= target ->
  fragmented sid target a ((f.1 + n, mkRange (start f.2) b') :: l) b'.
Proof.
  intros [Ht Hc Hb Hf Hn] Hlt Hcount Hn0 Hle. rewrite fmap_cons in Ht.
  apply tiles_end in Ht as (He & Hr & Ht). apply Forall_cons in Hc as [Hcf Hc].
  assert (re f.2 = key_Z b) as Ere by (unfold re; by rewrite He).
  pose proof (Hb f l eq_refl). pose proof (Hf f l eq_refl). pose proof (Hn f l eq_refl).
  split.
  - rewrite fmap_cons. cbn [rev snd]. rewrite tiles_app. exists (start f.2). cbn [tiles]. split_and!; try done.
    unfold rs, re in *. cbn [start end_]. lia.
  - apply Forall_cons. split; [|done]. unfold counted in *. cbn [fst snd]. unfold rs, re in *. cbn [start end_].
    rewrite (count_between_split _ _ (key_Z b)) by lia. rewrite Ere in Hcf. lia.
  - by intros ? ? [= <- <-].
  - by intros ? ? [= <- <-].
  - intros ? ? [= <- <-]. cbn [fst]. intros Hz. 
    pose proof (count_between_bound (kept sid) (rs f.2) (re f.2) ltac:(lia)).
    unfold counted in Hcf. apply (Hn f l eq_refl). lia.
Qed.

Lemma fragmented_push sid target a frags b b' n :
  fragmented sid target a frags b -> key_Z b < key_Z b' ->
  count_between (kept sid) (key_Z b) (key_Z b') = n -> n <= target ->
  (forall f l, frags = f :: l -> f.1 = target /\ n <> 0) ->
  fragmented sid target a ((n, mkRange b b') :: frags) b'.
Proof.
  intros [Ht Hc Hb Hf Hn] Hlt Hcount Hle Hlast. split.
  - rewrite fmap_cons. cbn [rev snd]. rewrite tiles_app. exists b. cbn [tiles]. done.
  - apply Forall_cons. split; [|done]. unfold counted. cbn [fst snd]. done.
  - by intros ? ? [= <- <-].
  - intros ? ? [= <- <-]. destruct frags as [|f l]; [constructor|].
    destruct (Hlast f l eq_refl). constructor; [done|]. by apply (Hf f).
  - intros ? ? [= <- <-]. cbn [fst]. intros Hz. destruct frags as [|f l]; [done|].
    by destruct (Hlast f l eq_refl).
Qed.

(** One round of the loop keeps the prefix fragmented and advances. *)
Lemma fragment_step_spec sid r target z frags :
  sid_ok sid -> run r -> 0 < target < 2 ^ 32 -> rs r <= z < re r ->
  fragmented sid target (start r) frags (key_of_Z z) ->
  exists z' frags', fragment_step (mkShardedRange sid r) target (key_of_Z z) frags
                    = Some (key_of_Z z', frags')
  /\ z < z' <= re r /\ key_wf (key_of_Z z') /\ key_Z (key_of_Z z') = z' /\ frags' <> []
  /\ fragmented sid target (start r) frags' (key_of_Z z').
Proof.
  intros Hsid Hr Ht Hz Hfr. destruct (distance_spec sid r z Hsid Hr Hz) as (d & Ed & Hd & Hu).
  destruct (run_wf_key r z Hr Hz) as [Wk Ek]. pose proof (run_len r Hr) as Hlen.
  destruct (run_wf r Hr) as [_ We]. apply key_Z_bound in We. fold (re r) in We.
  unfold fragment_step. rewrite Ed. cbn [mbind option_bind sr_identity].
  rewrite is_key_disposable_kept by done. rewrite Ek. cbn [option_bind].
  assert (forall a, 1 <= a <= d -> key_add (key_of_Z z) a = Some (key_of_Z (z + a))
    /\ key_wf (key_of_Z (z + a)) /\ key_Z (key_of_Z (z + a)) = z + a
    /\ count_between (kept sid) (key_Z (key_of_Z z)) (key_Z (key_of_Z (z + a)))
       = if kept sid z then a else 0) as Hadd.
  { intros a Ha. destruct (key_add_of_Z (key_of_Z z) a) as (Ea & Wa & Za); [done|unfold in_u; lia|lia|].
    rewrite Ek in *. split_and!; [done|done|done|]. rewrite Za.
    rewrite (count_between_const _ _ _ (kept sid z)); [|lia|intros; apply Hu; lia].
    destruct (kept sid z); lia. }
  destruct (kept sid z) eqn:Hk; cbn [negb mbind option_bind]; cbv beta iota zeta.
  - (* keys of this shard *)
    destruct frags as [|f l].
    + cbv beta iota zeta. destruct (Hadd (Z.min d target)) as (-> & Wa & Za & Hcount); [lia|]. cbn [mbind option_bind].
      eexists _, _. split_and!; [done|lia|lia|done|done|done|].
      apply fragmented_push; [done|lia|done|lia|done].
    + pose proof (fr_bound _ _ _ _ _ Hfr f l eq_refl) as Hfb. case_decide as Hlt.
      * cbv beta iota zeta. destruct (Hadd (Z.min d (target - f.1))) as (-> & Wa & Za & Hcount); [lia|].
        pose proof (fr_counted _ _ _ _ _ Hfr) as Hc. apply Forall_cons in Hc as [Hc _].
        unfold counted in Hc. cbn [mbind option_bind]. unfold checked_u32.
        rewrite decide_True by (unfold count_between in Hc; lia). cbn [mbind option_bind].
        eexists _, _. split_and!; [done|lia|lia|done|done|done|].
        by apply (fragmented_extend sid target (start r) f l (key_of_Z z)); [|lia| |lia|lia].
      * cbv beta iota zeta. destruct (Hadd (Z.min d target)) as (-> & Wa & Za & Hcount); [lia|]. cbn [mbind option_bind].
        eexists _, _. split_and!; [done|lia|lia|done|done|done|].
        apply fragmented_push; [done|lia|done|lia|]. intros ? ? [= <- <-]. lia.
  - (* keys of other shards *)
    destruct (Hadd d) as (Ea & Wa & Za & Hcount); [lia|].
    destruct frags as [|f l].
    + cbv beta iota zeta. rewrite Ea. cbn [mbind option_bind]. eexists _, _. split_and!; [done|lia|lia|done|done|done|].
      apply fragmented_push; [done|lia|done|lia|done].
    + pose proof (fr_bound _ _ _ _ _ Hfr f l eq_refl) as Hfb.
      pose proof (fr_counted _ _ _ _ _ Hfr) as Hc. apply Forall_cons in Hc as [Hc _].
      unfold counted in Hc.
      assert (exists w, (if decide (f.1 < target) then (target - f.1, true) else (target, true)) = (w, true)) as [w Ew].
      { case_decide; by eexists. }
      rewrite Ew. cbv beta iota zeta. rewrite Ea. cbn [mbind option_bind]. unfold checked_u32.
      rewrite decide_True by (unfold count_between in Hc; lia). cbn [mbind option_bind].
      eexists _, _. split_and!; [done|lia|lia|done|done|done|].
      by apply (fragmented_extend sid target (start r) f l (key_of_Z z)); [|lia| |lia|lia].
Qed.

Lemma key_ltb_of_Z r z :
  run r -> rs r <= z <= re r -> key_wf (key_of_Z z) -> key_Z (key_of_Z z) = z ->
  key_ltb (key_of_Z z) (end_ r) = bool_decide (z < re r).
Proof. intros Hr Hz Wz Ez. rewrite key_ltb_Z by (done || apply Hr). by rewrite Ez. Qed.

Lemma fragment_loop_spec sid r target fuel z frags :
  sid_ok sid -> run r -> 0 < target < 2 ^ 32 -> rs r <= z <= re r ->
  key_wf (key_of_Z z) -> key_Z (key_of_Z z) = z -> re r - z <= Z.of_nat fuel ->
  fragmented sid target (start r) frags (key_of_Z z) ->
  exists frags', fragment_loop fuel (mkShardedRange sid r) target (key_of_Z z) frags = Ok (rev frags')
  /\ fragmented sid target (start r) frags' (end_ r).
Proof.
  intros Hsid Hr Ht. revert z frags. induction fuel as [|fuel IH]; intros z frags Hz Wz Ez Hfuel Hfr;
    cbn [fragment_loop sr_range]; rewrite key_ltb_of_Z by done; case_bool_decide as Hlt.
  1: lia.
  2: { destruct (fragment_step_spec sid r target z frags) as (z' & frags' & -> & Hz' & Wz' & Ez' & _ & Hfr');
         [done|done|done|lia|done|]. cbn [of_option mbind outcome_bind].
       apply IH; done || lia. }
  all: assert (key_of_Z z = end_ r) as <-
         by (apply key_Z_inj; [done|apply Hr|rewrite Ez; unfold re in *; lia]); eauto.
Qed.

Definition frag_spec (sid : ShardIdentity) (target : Z) (r : KRange) (frags : list fragment_t) : Prop :=
  tiles (start r) frags.*2 (end_ r)
  /\ Forall (counted sid) frags
  /\ Forall (fun f => f.1 <= target) frags
  /\ (forall l f, frags = l ++ [f] -> Forall (fun g => g.1 = target) l)
  /\ (count_between (kept sid) (rs r) (re r) <> 0 -> Forall (fun f => 0 < f.1) frags).

Lemma tiles_count sid a b frags :
  tiles a frags.*2 b -> Forall (counted sid) frags ->
  key_Z a <= key_Z b /\ count_between (kept sid) (key_Z a) (key_Z b) = foldr (fun f n => f.1 + n) 0 frags.
Proof.
  revert a. induction frags as [|f l IH]; intros a; cbn [fmap list_fmap tiles foldr].
  - intros -> _. split; [done|]. unfold count_between. by rewrite Z.sub_diag.
  - intros (<- & Hlt & Ht) [Hc Hl]%Forall_cons. destruct (IH _ Ht Hl) as [Hle E].
    fold (rs f.2). fold (re f.2) in Hle, E. split; [lia|].
    rewrite (count_between_split _ _ (re f.2)) by lia. rewrite E. unfold counted in Hc. lia.
Qed.

Lemma fmap_rev {A B} (f : A -> B) (l : list A) : f <$> rev l = rev (f <$> l).
Proof. induction l as [|x l IH]; [done|]. cbn [rev]. by rewrite fmap_app, IH. Qed.

Lemma fragmented_spec sid target r frags :
  0 < target -> fragmented sid target (start r) frags (end_ r) -> frag_spec sid target r (rev frags).
Proof.
  intros Ht [Htl Hc Hb Hf Hn]. rewrite <- fmap_rev in Htl. split_and!.
  - done.
  - by apply Forall_rev.
  - apply Forall_rev. destruct frags as [|f l]; [done|]. constructor; [by eapply Hb|].
    eapply Forall_impl; [by eapply Hf|]. cbn. lia.
  - intros l f E. apply (f_equal (@rev _)) in E. rewrite rev_involutive, rev_app_distr in E. cbn in E.
    apply Forall_rev in Hc. rewrite <- (rev_involutive l). apply Forall_rev. by eapply Hf.
  - intros Hne. apply Forall_rev.
    assert (Forall (fun f => 0 <= f.1) frags) as Hpos.
    { eapply Forall_impl; [exact Hc|]. intros f ->. unfold count_between. lia. }
    destruct frags as [|f l]; [constructor|]. apply Forall_cons in Hpos as [Hp0 _].
    pose proof (Hf f l eq_refl) as Hl. constructor.
    + destruct (decide (f.1 = 0)) as [E0|]; [|lia]. exfalso.
      pose proof (Hn f l eq_refl E0) as ->. destruct (tiles_count sid _ _ _ Htl) as [_ E].
      { by apply Forall_rev. }
      cbn in E. unfold rs, re in Hne. lia.
    + eapply Forall_impl; [exact Hl|]. cbn. lia.
Qed.

(** A range of one key; a range of more that is not within one fork, or a fork and
    its size key. *)
Definition single (r : KRange) : Prop := re r = rs r + 1.
Definition spans_forks (r : KRange) : Prop := ~ single r /\ is_contiguous_range r = Some false.

#[global] Instance single_dec r : Decision (single r) := _.
#[global] Instance spans_forks_dec r : Decision (spans_forks r) := _.

Lemma is_single_key_spec r :
  range_wf r -> rs r < re r -> is_single_key r = Some (bool_decide (single r)).
Proof.
  intros [Ws We] Hlt. destruct (key_add_of_Z (start r) 1) as (E1 & W1 & Z1); [done|done|..].
  { apply key_Z_bound in We. unfold rs, re in *. lia. }
  unfold is_single_key. rewrite E1. cbn [mbind option_bind]. f_equal. apply bool_decide_ext.
  unfold single, rs, re. split; [by intros ->|]. intros E. apply key_Z_inj; [done..|lia].
Qed.

Lemma fragment_single sid r target fuel :
  sid_ok sid -> range_wf r -> single r -> 0 < target ->
  exists frags, fragment fuel (mkShardedRange sid r) target = Ok frags /\ frag_spec sid target r frags.
Proof.
  intros Hsid Hwf Hs Ht. pose proof Hs as Hre. unfold single in Hre.
  unfold fragment. cbn [sr_range]. rewrite is_single_key_spec, bool_decide_true by (done || lia).
  unfold single_key_count. cbn [sr_identity sr_range of_option mbind outcome_bind].
  rewrite is_key_disposable_kept by (done || apply Hwf). fold (rs r). cbn [mbind option_bind of_option outcome_bind].
  assert (count_between (kept sid) (rs r) (re r) = if kept sid (rs r) then 1 else 0) as Hc.
  { rewrite (count_between_const _ _ _ (kept sid (rs r))); [|lia|].
    - destruct (kept sid (rs r)); lia.
    - intros z Hz. by replace z with (rs r) by lia. }
  eexists. split; [done|]. split_and!.
  - cbn. split_and!; [done|lia|done].
  - constructor; [|done]. unfold counted. cbn [fst snd]. rewrite Hc. by destruct (kept sid (rs r)).
  - constructor; [|done]. cbn [fst]. destruct (kept sid (rs r)); cbn [negb]; lia.
  - intros l f E. destruct l as [|g [|]]; done.
  - rewrite Hc. destruct (kept sid (rs r)); [|done]. intros _. by repeat constructor.
Qed.

Lemma fragment_ok (sid : ShardIdentity) (r : KRange) (target : Z) (fuel : nat) :
  sid_ok sid -> run r -> 0 < target < 2 ^ 32 -> re r - rs r <= Z.of_nat fuel ->
  exists frags, fragment fuel (mkShardedRange sid r) target = Ok frags /\ frag_spec sid target r frags.
Proof.
  intros Hsid Hr Ht Hfuel. pose proof (run_wf r Hr) as [Ws We]. pose proof (run_len r Hr) as Hlen.
  destruct (decide (single r)) as [Hs|Hs]; [apply fragment_single; done || lia|].
  unfold fragment. cbn [sr_range]. rewrite is_single_key_spec, bool_decide_false by (done || lia).
  rewrite (run_contiguous r Hr). cbn [of_option mbind outcome_bind negb].
  destruct (fragment_loop_spec sid r target fuel (rs r) []) as (frags & E & Hfr); try done.
  - lia.
  - unfold rs. by rewrite key_of_Z_key_Z.
  - unfold rs. by rewrite key_of_Z_key_Z.
  - split; try done. cbn. unfold rs. by rewrite key_of_Z_key_Z.
  - unfold rs in E. rewrite key_of_Z_key_Z in E by done. exists (rev frags).
    split; [exact E|]. apply fragmented_spec; [lia|done].
Qed.

(** The ranges the fragments are specified for: not empty; of one key, or across
    forks, or within one fork.  Of the latter, the size key with the [2 ^ 32 - 1]
    blocks of a fork is not one (its length is not a [u32]), and neither is a range of
    several keys in the directory of the SLRUs.  The fuel is for a range within a
    fork, one round per key. *)
Definition fragmentable (fuel : nat) (r : KRange) : Prop :=
  range_wf r /\ rs r < re r /\
  (single r \/ spans_forks r \/ (run r /\ re r - rs r <= Z.of_nat fuel)).

(** What [fragment] returns: a range across forks is returned whole. *)
Definition fragments_of (sid : ShardIdentity) (target : Z) (r : KRange) (frags : list fragment_t) : Prop :=
  if decide (spans_forks r) then frags = [(u32_max, r)] else frag_spec sid target r frags.

Lemma fragment_total (sid : ShardIdentity) (r : KRange) (target : Z) (fuel : nat) :
  sid_ok sid -> fragmentable fuel r -> 0 < target < 2 ^ 32 ->
  exists frags, fragment fuel (mkShardedRange sid r) target = Ok frags /\ fragments_of sid target r frags.
Proof.
  intros Hsid (Hwf & Hlt & Hr) Ht. unfold fragments_of. case_decide as Hspan.
  - destruct Hspan as [Hs Hc]. eexists. split; [|done]. unfold fragment. cbn [sr_range].
    by rewrite is_single_key_spec, bool_decide_false, Hc.
  - destruct Hr as [Hs|[?|[Hr Hfuel]]]; [apply fragment_single; done || lia|done|by apply fragment_ok].
Qed.


Definition example_shard : ShardIdentity := mkShardIdentity 1 4 8 LAYOUT_V1.
Definition example_range : KRange := mkRange (mkKey 0 1663 5 16384 0 u32_max) (mkKey 0 1663 5 16384 1 100).

Lemma example_shard_ok : sid_ok example_shard.
Proof. by vm_compute. Qed.

Lemma example_range_run : run example_range.
Proof. split; [by vm_compute|reflexivity|by vm_compute|]. by intros [? _]. Qed.

Lemma example_range_fragmentable : fragmentable 200 example_range.
Proof. split_and!; [apply example_range_run|by vm_compute|]. right. right. split; [exact example_range_run|by vm_compute]. Qed.


(** A target of zero blocks, which is what a target size below one block (or a
    multiple of [2 ^ 32] blocks) becomes, never ends on an unsharded range. *)
Lemma fragment_loop_zero_diverges fuel r k frags :
  key_wf k -> key_ltb k (end_ r) = true ->
  (exists d, contiguous_range_len (mkRange k (end_ r)) = Some d /\ 0 <= d) ->
  Forall (fun f => 0 <= f.1) frags ->
  fragment_loop fuel (mkShardedRange sid_unsharded r) 0 k frags = Err OutOfFuel.
Proof.
  intros Wk Hlt (d & Ed & Hd). revert frags. induction fuel as [|fuel IH]; intros frags Hpos;
    cbn [fragment_loop sr_range]; rewrite Hlt; [done|].
  assert (fragment_step (mkShardedRange sid_unsharded r) 0 k frags = Some (k, (0, mkRange k k) :: frags)) as ->.
  { unfold fragment_step, distance_to_next_boundary. cbn [sr_range sr_identity].
    rewrite Ed. cbn [mbind option_bind]. rewrite decide_True by done.
    change (is_key_disposable sid_unsharded k) with (Some false). cbn [mbind option_bind].
    assert (key_add k 0 = Some k) as Ek.
    { destruct (key_add_of_Z k 0) as (-> & _ & _); [done|done|by pose proof (key_Z_bound k Wk); lia|].
      by rewrite Z.add_0_r, key_of_Z_key_Z. }
    cbv beta iota zeta. destruct frags as [|f l]; [|apply Forall_cons in Hpos as [Hf _]; rewrite decide_False by lia];
      cbv beta iota zeta; rewrite Z.min_r by lia; by rewrite Ek. }
  cbn [of_option mbind outcome_bind]. apply IH. by constructor.
Qed.

(** A target below one block does not terminate: on an unsharded range of two
    keys or more no number of rounds is enough. *)
Theorem fragment_zero_target_diverges (r : KRange) (fuel : nat) :
  run r -> rs r + 1 < re r ->
  fragment fuel (mkShardedRange sid_unsharded r) 0 = Err OutOfFuel.
Proof.
  intros Hr Hlong. pose proof (run_wf r Hr) as [Ws We]. pose proof (run_len r Hr) as Hlen.
  destruct (key_add_of_Z (start r) 1) as (E1 & W1 & Z1); [done|done|..].
  { apply key_Z_bound in We. unfold rs, re in *. lia. }
  unfold fragment, is_single_key. cbn [sr_range]. rewrite E1.
  cbn [mbind option_bind of_option outcome_bind]. rewrite bool_decide_false.
  2:{ intros E. unfold rs, re in Hlong. rewrite E, Z1 in Hlong. lia. }
  rewrite (run_contiguous r Hr). cbn [of_option mbind outcome_bind negb].
  apply fragment_loop_zero_diverges; [done|..|done].
  - rewrite key_ltb_Z by done. apply bool_decide_eq_true. unfold rs, re in *. lia.
  - pose proof (contiguous_len_run r (rs r) Hr ltac:(lia)) as E. unfold rs in E at 1.
    rewrite key_of_Z_key_Z in E by done. rewrite E. eexists. split; [done|]. lia.
Qed.

Lemma fragment_zero_target_diverges_witness :
  fragment 1000 (mkShardedRange sid_unsharded example_range) (partition_target 4096 8192) = Err OutOfFuel.
Proof.
  apply (fragment_zero_target_diverges example_range 1000); [exact example_range_run|by vm_compute].
Defined.

Lemma page_count_loop_spec sid r fuel z n :
  sid_ok sid -> run r -> rs r <= z <= re r -> key_wf (key_of_Z z) -> key_Z (key_of_Z z) = z ->
  re r - z <= Z.of_nat fuel -> n = count_between (kept sid) (rs r) z ->
  page_count_loop fuel (mkShardedRange sid r) (key_of_Z z) n
  = Ok (count_between (kept sid) (rs r) (re r)).
Proof.
  intros Hsid Hr. pose proof (run_len r Hr) as Hlen. revert z n.
  induction fuel as [|fuel IH]; intros z n Hz Wz Ez Hfuel Hn;
    cbn [page_count_loop sr_range]; rewrite key_ltb_of_Z by done; case_bool_decide as Hlt.
  1: lia.
  2: { destruct (distance_spec sid r z Hsid Hr ltac:(lia)) as (d & Ed & Hd & Hu).
       rewrite Ed. cbn [sr_identity of_option mbind outcome_bind].
       rewrite is_key_disposable_kept by done. rewrite Ez. cbn [of_option mbind outcome_bind].
       destruct (key_add_of_Z (key_of_Z z) d) as (Ea & Wa & Za);
         [done|unfold in_u; lia|destruct (run_wf r Hr) as [_ We]; apply key_Z_bound in We; unfold re in *; lia|].
       rewrite Ez in Ea, Wa, Za. cbv zeta. rewrite Ea. cbn [of_option mbind outcome_bind].
       apply IH; [lia|done|done|lia|].
       rewrite (count_between_split _ _ z), (count_between_const _ z (z + d) (kept sid z)) by (lia || intros; apply Hu; lia).
       destruct (kept sid z); cbn [negb]; lia. }
  all: replace z with (re r) in * by lia; subst n;
    pose proof (count_between_bound (kept sid) (rs r) (re r) ltac:(lia)); rewrite decide_False by (unfold u32_max; lia); done.
Qed.

(** [page_count] counts the kept keys. *)
Lemma page_count_ok sid r fuel :
  sid_ok sid -> run r -> re r - rs r <= Z.of_nat fuel ->
  page_count fuel (mkShardedRange sid r) = Ok (count_between (kept sid) (rs r) (re r)).
Proof.
  intros Hsid Hr Hfuel. pose proof (run_wf r Hr) as [Ws We]. pose proof (run_len r Hr) as Hlen.
  destruct (key_add_of_Z (start r) 1) as (E1 & W1 & Z1); [done|done|..].
  { apply key_Z_bound in We. unfold rs, re in *. lia. }
  fold (rs r) in *. unfold page_count, is_single_key. cbn [sr_range]. rewrite E1.
  cbn [mbind option_bind of_option outcome_bind]. case_bool_decide as Hsingle.
  - unfold single_key_count. cbn [sr_identity sr_range].
    rewrite is_key_disposable_kept by done. fold (rs r). cbn [mbind option_bind of_option outcome_bind].
    assert (re r = rs r + 1) as -> by (unfold re; by rewrite Hsingle).
    rewrite (count_between_const _ _ _ (kept sid (rs r))); [|lia|].
    + destruct (kept sid (rs r)); cbn [negb]; f_equal; lia.
    + intros z Hz. by replace z with (rs r) by lia.
  - rewrite (run_contiguous r Hr). cbn [of_option mbind outcome_bind negb sr_identity].
    case_decide as Hc2.
    + pose proof (contiguous_len_run r (rs r) Hr ltac:(lia)) as E. unfold rs in E at 1.
      rewrite key_of_Z_key_Z in E by done. destruct r as [s e]. cbn [start end_] in *. rewrite E. cbn [of_option].
      rewrite (count_between_const _ _ _ true); [done|lia|]. intros z _. unfold kept, is_key_disposable.
      by rewrite decide_True.
    + rewrite <- (key_of_Z_key_Z (start r)) by done. fold (rs r).
      apply page_count_loop_spec; unfold rs in *; rewrite ?key_of_Z_key_Z by done; try done; [lia|].
      unfold count_between. by rewrite Z.sub_diag.
Qed.

(** The page count of a range is what its fragments add up to: both are the
    number of keys in the range that the shard keeps, found in at most one round
    per key. *)
Theorem page_count_is_fragment_total (sid : ShardIdentity) (r : KRange) (target : Z) (fuel : nat) :
  sid_ok sid -> run r -> 0 < target < 2 ^ 32 -> re r - rs r <= Z.of_nat fuel ->
  exists frags n, fragment fuel (mkShardedRange sid r) target = Ok frags
  /\ page_count fuel (mkShardedRange sid r) = Ok n
  /\ n = foldr (fun f n => f.1 + n) 0 frags /\ n = count_between (kept sid) (rs r) (re r).
Proof.
  intros Hsid Hr Ht Hfuel. destruct (fragment_ok sid r target fuel) as (frags & E & Htl & Hc & _); try done.
  exists frags, (count_between (kept sid) (rs r) (re r)). split_and!; [done|by apply page_count_ok| |done].
  by apply (tiles_count sid (start r) (end_ r)).
Qed.

Lemma page_count_is_fragment_total_witness :
  exists frags n, fragment 200 (mkShardedRange example_shard example_range) 16 = Ok frags
  /\ page_count 200 (mkShardedRange example_shard example_range) = Ok n
  /\ n = foldr (fun f n => f.1 + n) 0 frags.
Proof.
  destruct (page_count_is_fragment_total example_shard example_range 16 200) as (frags & n & H1 & H2 & H3 & _);
    [exact example_shard_ok|exact example_range_run|done|by vm_compute|].
  exact (ex_intro _ frags (ex_intro _ n (conj H1 (conj H2 H3)))).
Defined.

(** ** Partitioning *)

Definition sum_counts (sid : ShardIdentity) (l : list KRange) : Z :=
  foldr (fun r n => count_between (kept sid) (rs r) (re r) + n) 0 l.

Lemma sum_counts_app sid l1 l2 : sum_counts sid (l1 ++ l2) = sum_counts sid l1 + sum_counts sid l2.
Proof. unfold sum_counts. induction l1 as [|r l1 IH]; cbn [app foldr]; lia. Qed.

Lemma sum_counts_rev sid l : sum_counts sid (rev l) = sum_counts sid l.
Proof.
  induction l as [|r l IH]; [done|]. cbn [rev]. rewrite sum_counts_app, IH. unfold sum_counts. cbn [foldr]. lia.
Qed.

(** One range across forks among ranges without a kept key. *)
Definition oversized (sid : ShardIdentity) (l : list KRange) : Prop :=
  exists l1 r l2, l = l1 ++ r :: l2 /\ spans_forks r /\ sum_counts sid (l1 ++ l2) = 0.

Lemma oversized_rev sid l : oversized sid l -> oversized sid (rev l).
Proof.
  intros (l1 & r & l2 & -> & Hr & Hz). exists (rev l2), r, (rev l1). split_and!; [|done|].
  - rewrite rev_app_distr. cbn [rev]. by rewrite <- app_assoc.
  - by rewrite <- rev_app_distr, sum_counts_rev.
Qed.

Definition part_ok (sid : ShardIdentity) (target : Z) (p : KeySpace) : Prop :=
  ranges p <> [] /\ (sum_counts sid (ranges p) <= target \/ oversized sid (ranges p)).

(** The label of a fragment is its count, or that of a range across forks. *)
Definition labelled (sid : ShardIdentity) (target : Z) (f : fragment_t) : Prop :=
  (counted sid f /\ f.1 <= target) \/ (f.1 = u32_max /\ spans_forks f.2).

Lemma fragments_labelled sid target r frags :
  fragments_of sid target r frags -> Forall (labelled sid target) frags.
Proof.
  unfold fragments_of. case_decide as Hs.
  - intros ->. constructor; [|done]. by right.
  - intros (_ & Hc & Hb & _). rewrite Forall_forall in *. intros f Hf. left. auto.
Qed.

Lemma fragments_tile sid target r frags :
  rs r < re r -> fragments_of sid target r frags -> tiles (start r) frags.*2 (end_ r).
Proof. unfold fragments_of. intros Hlt. case_decide; [intros ->; by cbn|by intros [? _]]. Qed.

(** The size of the current part: the number of its kept keys, or the label of its
    range across forks. *)
Definition size_ok (sid : ShardIdentity) (target : Z) (size : Z) (l : list KRange) : Prop :=
  (size = sum_counts sid l /\ 0 <= size <= target) \/ (size = u32_max /\ oversized sid l).

(** The parts so far hold the ranges added, in order, and respect the target. *)
Record partitioned (sid : ShardIdentity) (target : Z) (st : partition_state) (l : list KRange) : Prop := {
  pt_ranges : concat (ranges <$> rev (pt_parts st)) ++ rev (pt_current st) = l;
  pt_parts_ok : Forall (part_ok sid target) (pt_parts st);
  pt_size_ok : size_ok sid target (pt_size st) (pt_current st)
}.

(** A part that is closed. *)
Lemma size_ok_part sid target size l :
  size_ok sid target size l -> l <> [] -> part_ok sid target (mkKeySpace (rev l)).
Proof.
  intros Hs Hl. split; cbn [ranges].
  - intros E. apply (f_equal (@rev _)) in E. by rewrite rev_involutive in E.
  - destruct Hs as [[-> Hb]|[_ Ho]]; [left; rewrite sum_counts_rev; lia|right; by apply oversized_rev].
Qed.

Lemma size_ok_nonempty sid target size l : size_ok sid target size l -> 0 < size -> l <> [].
Proof. intros [[-> _]|[_ (l1 & r & l2 & E & _)]] Hpos ->; [done|by destruct l1]. Qed.

Lemma size_ok_single sid target f : 0 <= f.1 -> labelled sid target f -> size_ok sid target f.1 [f.2].
Proof.
  intros Hn [[Hc Hb]|[Hm Hs]].
  - left. unfold counted in Hc. unfold sum_counts. cbn [foldr]. lia.
  - right. split; [done|]. by exists [], f.2, [].
Qed.

(** A fragment that is added without closing the part. *)
Lemma size_ok_add sid target size l f :
  target <= u32_max -> 0 <= f.1 -> size_ok sid target size l -> labelled sid target f ->
  size + f.1 <= target \/ size <= 0 -> size_ok sid target (size + f.1) (f.2 :: l).
Proof.
  intros Ht Hn Hs Hf Hle. assert (forall r l, sum_counts sid (r :: l) = count_between (kept sid) (rs r) (re r) + sum_counts sid l)
    as Hcons by done.
  assert (u32_max = 2 ^ 32 - 1) as Hu by done.
  destruct Hs as [[-> Hb]|[-> (l1 & r & l2 & -> & Hr & Hz)]], Hf as [[Hc Hft]|[Hm Hsp]].
  - left. unfold counted in Hc. rewrite Hcons. lia.
  - right. assert (sum_counts sid l = 0) as Hz by lia. split; [lia|]. by exists [], f.2, l.
  - right. unfold counted in Hc. split; [lia|]. exists (f.2 :: l1), r, l2. split_and!; [done|done|].
    cbn [app]. rewrite Hcons. lia.
  - lia.
Qed.

Lemma partition_add_ok sid target st l f :
  target <= u32_max -> partitioned sid target st l -> labelled sid target f ->
  partitioned sid target (partition_add target st f) (l ++ [f.2]).
Proof.
  intros Ht [Hl Hp Hs] Hf.
  assert (0 <= f.1) as Hn by (destruct Hf as [[-> _]|[-> _]]; [unfold count_between; lia|done]).
  destruct f as [n r]. cbn [fst snd] in *.
  unfold partition_add. destruct (bool_decide _ && bool_decide _) eqn:Hflush.
  - apply andb_true_iff in Hflush as [_ Hpos%bool_decide_eq_true]. split; cbn [pt_parts pt_current pt_size].
    + cbn [rev app]. rewrite fmap_app, concat_app. cbn. by rewrite app_nil_r, Hl.
    + constructor; [|done]. by eapply size_ok_part, size_ok_nonempty.
    + rewrite Z.add_0_l. by apply (size_ok_single sid target (n, r)).
  - split; cbn [pt_parts pt_current pt_size].
    + cbn [rev]. by rewrite app_assoc, Hl.
    + done.
    + apply (size_ok_add sid target _ _ (n, r)); try done. cbn [fst].
      apply andb_false_iff in Hflush as [H%bool_decide_eq_false|H%bool_decide_eq_false]; lia.
Qed.

Lemma partition_adds_ok sid target frags st l :
  target <= u32_max -> partitioned sid target st l -> Forall (labelled sid target) frags ->
  partitioned sid target (fold_left (partition_add target) frags st) (l ++ frags.*2).
Proof.
  intros Ht. revert st l. induction frags as [|f frags IH]; intros st l Hst Hf; cbn [fold_left fmap list_fmap].
  - by rewrite app_nil_r.
  - apply Forall_cons in Hf as [Hf Hfs]. rewrite cons_middle, app_assoc.
    apply IH; [by apply partition_add_ok|done].
Qed.

Lemma partition_ranges_ok sid target fuel l st done_ :
  sid_ok sid -> 0 < target < 2 ^ 32 ->
  Forall (fragmentable fuel) l -> partitioned sid target st done_ ->
  exists st' pieces, partition_ranges fuel sid target st l = Ok st'
  /\ Forall2 (fun r p => tiles (start r) p (end_ r)) l pieces
  /\ partitioned sid target st' (done_ ++ concat pieces).
Proof.
  intros Hsid Ht. revert st done_. induction l as [|r l IH]; intros st done_ Hl Hst; cbn [partition_ranges].
  - exists st, []. cbn. rewrite app_nil_r. done.
  - apply Forall_cons in Hl as [Hr Hl].
    destruct (fragment_total sid r target fuel) as (frags & -> & Hfr); [done..|].
    cbn [mbind outcome_bind].
    destruct (IH (fold_left (partition_add target) frags st) (done_ ++ frags.*2)) as (st' & pieces & E & H2 & Hst');
      [done|apply partition_adds_ok; [unfold u32_max; lia|done|by eapply fragments_labelled]|].
    exists st', (frags.*2 :: pieces). split_and!; [done| |].
    + constructor; [|done]. eapply fragments_tile; [apply Hr|done].
    + cbn [concat]. by rewrite app_assoc.
Qed.


(** A range across two forks. *)
Definition spanning_range : KRange := mkRange (mkKey 0 1663 5 16384 2 0) (mkKey 0 1663 5 16385 0 0).

Lemma spanning_range_fragmentable : fragmentable 200 spanning_range.
Proof. split_and!; [by vm_compute|by vm_compute|]. right. left. split; [by vm_compute|reflexivity]. Qed.

