(* ===== verification/KeySpaceSets.v ===== *)
(** * Key spaces as sets of keys

    The accumulators, [merge], [remove_overlapping_with], [overlaps] and [contains]
    of [libs/pageserver_api/src/keyspace.rs] against their meaning as operations on
    sets of keys. *)

From S2P Require Import Prelude Lsn XlogUtils Key Shard KeySpace KeySpaceFacts.
From Stdlib Require Import Permutation.

(** ** Meaning *)

Definition range_ok (r : KRange) : Prop := range_wf r /\ rs r < re r.
Definition in_range (r : KRange) (z : Z) : Prop := rs r <= z < re r.
Definition member (l : list KRange) (z : Z) : Prop := exists r, r ∈ l /\ in_range r z.

(** Ranges in key order, without overlap and without empty ones. *)
Definition sorted (l : list KRange) : Prop :=
  Forall range_ok l /\ StronglySorted (fun a b => re a <= rs b) l.

Lemma member_nil z : member [] z <-> False.
Proof. unfold member. set_solver. Qed.

Lemma member_cons r l z : member (r :: l) z <-> in_range r z \/ member l z.
Proof. unfold member. set_solver. Qed.

Lemma member_app l1 l2 z : member (l1 ++ l2) z <-> member l1 z \/ member l2 z.
Proof. unfold member. set_solver. Qed.

Lemma member_perm l1 l2 z : l1 ≡ₚ l2 -> member l1 z <-> member l2 z.
Proof. intros H. unfold member. by setoid_rewrite H. Qed.

#[export] Instance member_proper : Proper ((≡ₚ) ==> eq ==> iff) member.
Proof. intros l1 l2 H z ? <-. by apply member_perm. Qed.

Lemma sorted_nil : sorted [].
Proof. split; constructor. Qed.

Lemma sorted_cons r l : sorted (r :: l) <-> range_ok r /\ Forall (fun b => re r <= rs b) l /\ sorted l.
Proof.
  unfold sorted. rewrite Forall_cons. split.
  - intros [[Hr Hl] Hs]. inversion Hs; subst. done.
  - intros (Hr & Hf & Hl & Hs). split; [done|]. by constructor.
Qed.

Lemma sorted_app l1 l2 :
  sorted (l1 ++ l2) <-> sorted l1 /\ sorted l2 /\ forall a b, a ∈ l1 -> b ∈ l2 -> re a <= rs b.
Proof.
  induction l1 as [|r l1 IH]; cbn [app].
  - split; [|naive_solver]. intros H. split_and!; [apply sorted_nil|done|]. by intros ? ? ?%not_elem_of_nil.
  - rewrite !sorted_cons, IH, Forall_app, !Forall_forall. set_solver.
Qed.

Lemma sorted_singleton r : range_ok r -> sorted [r].
Proof. intros. apply sorted_cons. repeat split; try constructor; apply H. Qed.

(** A range behind the others, which are kept last first. *)
Lemma sorted_rev_cons r acc :
  sorted (rev acc) -> range_ok r -> Forall (fun a => re a <= rs r) acc -> sorted (rev (r :: acc)).
Proof.
  intros Hacc Hr Hf%Forall_rev. cbn [rev]. apply sorted_app. split_and!; [done|by apply sorted_singleton|].
  intros a b Ha ->%list_elem_of_singleton. rewrite Forall_forall in Hf. by apply Hf.
Qed.

Create HintDb keyspace.
#[export] Hint Resolve sorted_nil : keyspace.

(** ** [KeySpaceRandomAccum] *)

Lemma insert_by_start_perm r l : insert_by_start r l ≡ₚ r :: l.
Proof.
  induction l as [|x l IH]; [done|]. cbn [insert_by_start].
  case_match; [done|]. rewrite IH. apply Permutation_swap.
Qed.

Lemma insert_by_start_sorted r l :
  range_wf r -> Forall range_wf l ->
  StronglySorted (fun a b => rs a <= rs b) l ->
  StronglySorted (fun a b => rs a <= rs b) (insert_by_start r l).
Proof.
  intros Hr Hl. induction l as [|x l IH]; intros Hs; cbn [insert_by_start]; [by repeat constructor|].
  apply Forall_cons in Hl as [Hx Hl]. inversion_clear Hs as [|? ? Hs' Hf].
  rewrite key_ltb_Z by (apply Hr || apply Hx). fold (rs r) (rs x). case_bool_decide as Hlt.
  - constructor; [by constructor|]. constructor; [lia|]. eapply Forall_impl; [exact Hf|]. cbn. lia.
  - constructor; [by apply IH|]. rewrite insert_by_start_perm. constructor; [lia|done].
Qed.

Lemma sort_by_start_ok l :
  Forall range_wf l ->
  sort_by_start l ≡ₚ l /\ StronglySorted (fun a b => rs a <= rs b) (sort_by_start l).
Proof.
  intros Hl. unfold sort_by_start.
  enough (forall acc, Forall range_wf acc -> StronglySorted (fun a b => rs a <= rs b) acc ->
    fold_left (fun acc r => insert_by_start r acc) l acc ≡ₚ l ++ acc
    /\ StronglySorted (fun a b => rs a <= rs b) (fold_left (fun acc r => insert_by_start r acc) l acc)) as H.
  { specialize (H [] ltac:(constructor) ltac:(constructor)). by rewrite app_nil_r in H. }
  induction Hl as [|r l Hr Hl IH]; intros acc Ha Hs; cbn [fold_left]; [done|].
  destruct (IH (insert_by_start r acc)) as [H1 H2].
  - rewrite insert_by_start_perm. by constructor.
  - by apply insert_by_start_sorted.
  - split; [|done]. rewrite H1, insert_by_start_perm. cbn [app]. by rewrite Permutation_middle.
Qed.

(** The loop that joins sorted ranges: [acc] holds the ranges finished, last first. *)
Lemma kra_merge_ok s e l acc :
  key_wf s -> key_wf e -> key_Z s < key_Z e -> Forall range_ok l ->
  StronglySorted (fun a b => rs a <= rs b) l -> Forall (fun r => key_Z s <= rs r) l ->
  sorted (rev acc) -> Forall (fun r => re r < key_Z s) acc ->
  exists out, kra_merge s e l acc = Some out /\ sorted out
  /\ forall z, member out z <-> member acc z \/ key_Z s <= z < key_Z e \/ member l z.
Proof.
  revert s e acc. induction l as [|r l IH]; intros s e acc Ws We Hse Hok Hsorted Hs Hacc Hgap.
  - cbn [kra_merge]. eexists. split; [done|]. cbn [rev]. split.
    + apply (sorted_rev_cons (mkRange s e)); [done|done|].
      eapply Forall_impl; [exact Hgap|]. unfold rs. cbn [start]. lia.
    + intros z. rewrite member_app, member_cons, !member_nil.
      rewrite (member_perm (rev acc) acc) by (symmetry; apply Permutation_rev).
      unfold in_range, rs, re. cbn [start end_]. tauto.
  - apply Forall_cons in Hok as [[[Wrs Wre] Hr] Hok], Hs as [Hsr Hs]. inversion_clear Hsorted as [|? ? Hsl Hf].
    cbn [kra_merge]. rewrite !key_leb_Z, !key_ltb_Z by done. fold (rs r) (re r).
    rewrite bool_decide_true by done. case_bool_decide as H1; [|case_bool_decide as H2].
    + destruct (IH (start r) (end_ r) (mkRange s e :: acc)) as (out & -> & Hout & Hm); try done.
      * apply sorted_rev_cons; [done|done|]. eapply Forall_impl; [exact Hgap|]. unfold rs. cbn [start]. lia.
      * constructor; [done|]. eapply Forall_impl; [exact Hgap|]. cbn. fold (rs r). lia.
      * eexists. split_and!; [done|done|]. intros z. rewrite Hm, !member_cons. fold (rs r) (re r).
        unfold in_range at 1. unfold rs at 1, re at 1. cbn [start end_]. unfold in_range. tauto.
    + destruct (IH s (end_ r) acc) as (out & -> & Hout & Hm); try done; [fold (re r); lia|].
      eexists. split_and!; [done|done|]. intros z. rewrite Hm, member_cons. fold (re r). unfold in_range.
      assert (key_Z s <= z < re r <-> key_Z s <= z < key_Z e \/ rs r <= z < re r) as -> by lia. tauto.
    + destruct (IH s e acc) as (out & -> & Hout & Hm); try done.
      eexists. split_and!; [done|done|]. intros z. rewrite Hm, member_cons. unfold in_range.
      assert (key_Z s <= z < key_Z e <-> key_Z s <= z < key_Z e \/ rs r <= z < re r) as -> by lia. tauto.
Qed.

Lemma kra_to_keyspace_ok l :
  Forall range_ok l ->
  exists ks, kra_to_keyspace l = Some ks /\ sorted (ranges ks) /\ forall z, member (ranges ks) z <-> member l z.
Proof.
  intros Hl. destruct (sort_by_start_ok l) as [Hp Hs].
  { eapply Forall_impl; [exact Hl|]. by intros r []. }
  assert (Forall range_ok (sort_by_start l)) as Hok by by rewrite Hp.
  unfold kra_to_keyspace. destruct (sort_by_start l) as [|r l'] eqn:E.
  - exists (mkKeySpace []). split_and!; [done|apply sorted_nil|]. intros z. cbn [ranges]. by rewrite <- Hp.
  - inversion_clear Hs as [|? ? Hsl Hf]. pose proof Hok as [[[Wrs Wre] Hr] _]%Forall_cons.
    destruct (kra_merge_ok (start r) (end_ r) (r :: l') []) as (out & -> & Hout & Hm); try done.
    + by constructor.
    + constructor; [done|]. exact Hf.
    + apply sorted_nil.
    + exists (mkKeySpace out). split_and!; [done|done|]. intros z. cbn [ranges]. rewrite Hm, <- Hp.
      rewrite member_nil, member_cons. fold (rs r) (re r). unfold in_range. tauto.
Qed.

(** ** [overlaps_at] *)

(** The starts below a key are those of a prefix. *)
Lemma sorted_split l k :
  sorted l -> key_wf k ->
  exists l1 l2, l = l1 ++ l2 /\ filter (fun r => key_ltb (start r) k = true) l = l1
  /\ Forall (fun r => rs r < key_Z k) l1 /\ Forall (fun r => key_Z k <= rs r) l2.
Proof.
  intros Hs Hk. induction l as [|r l IH].
  - by exists [], [].
  - pose proof Hs as ([[Wr _] Hr] & Hf & Hl)%sorted_cons. destruct (IH Hl) as (l1 & l2 & -> & E & H1 & H2).
    destruct (decide (rs r < key_Z k)) as [Hlt|Hge].
    + exists (r :: l1), l2. split_and!; [done| |by constructor|done].
      rewrite filter_cons_True; [by rewrite E|]. rewrite key_ltb_Z by done. by apply bool_decide_eq_true.
    + exists [], (r :: l1 ++ l2). split_and!; [done| |constructor|].
      * rewrite filter_cons_False by (rewrite key_ltb_Z by done; rewrite bool_decide_eq_true; exact Hge).
        rewrite E. destruct l1 as [|x l1]; [done|]. apply Forall_cons in H1 as [Hx _], Hf as [Hx' _].
        lia.
      * constructor; [lia|]. eapply Forall_impl; [exact Hf|]. cbn. intros. lia.
Qed.

Lemma overlaps_at_alt l r :
  overlaps_at (mkKeySpace l) r
  = match length (filter (fun x => key_ltb (start x) (end_ r) = true) l) with
    | O => None
    | S i => x ← l !! i; if key_ltb (start r) (end_ x) then Some i else None
    end.
Proof.
  unfold overlaps_at, binary_search_start. cbn [ranges].
  destruct (l !! _) as [x|]; [|done]. by case_decide.
Qed.

Lemma overlaps_at_cases l r :
  sorted l -> range_ok r ->
  (exists l1 o l2, l = l1 ++ o :: l2 /\ overlaps_at (mkKeySpace l) r = Some (length l1)
     /\ rs o < re r /\ rs r < re o /\ Forall (fun b => re r <= rs b) l2)
  \/ (overlaps_at (mkKeySpace l) r = None /\ forall z, in_range r z -> ~ member l z).
Proof.
  intros Hs [[Wrs Wre] Hr]. destruct (sorted_split l (end_ r) Hs Wre) as (l1 & l2 & El & Ef & H1 & H2).
  rewrite overlaps_at_alt, Ef. fold (re r) in H1, H2.
  destruct l1 as [|o l1 _] using rev_ind.
  - right. split; [done|]. subst l. intros z Hz (x & Hx & Hxz). rewrite Forall_forall in H2.
    apply H2 in Hx. unfold in_range in *. lia.
  - apply Forall_app in H1 as [H1 Ho]. apply Forall_cons in Ho as [Ho _].
    rewrite length_app, Nat.add_1_r.
    assert (l !! length l1 = Some o) as Elo.
    { subst l. rewrite <- app_assoc. cbn [app]. by apply list_lookup_middle. }
    rewrite Elo. cbn [mbind option_bind].
    assert (range_ok o) as [[Wos Woe] Hoo].
    { destruct Hs as [Hok _]. rewrite Forall_forall in Hok. apply Hok. by eapply list_elem_of_lookup_2. }
    rewrite key_ltb_Z by done. fold (rs r) (re o). case_bool_decide as Hlt.
    + left. exists l1, o, l2. split_and!; [by subst l; rewrite <- app_assoc|done|lia|lia|done].
    + right. split; [done|]. subst l. intros z Hz Hm. rewrite !member_app, member_cons, member_nil in Hm.
      apply sorted_app in Hs as ([_ [_ Hlo]]%sorted_app & _ & _). rewrite !Forall_forall in *. unfold in_range in *.
      destruct Hm as [[(x & Hx & Hxz)|[Hoz|[]]]|(x & Hx & Hxz)].
      * pose proof (Hlo x o Hx ltac:(by left)). unfold in_range in *. lia.
      * lia.
      * apply H2 in Hx. unfold in_range in *. lia.
Qed.

(** ** [remove_overlapping_with] *)

Definition minus (o r : KRange) : list KRange :=
  (if decide (rs o < rs r) then [mkRange (start o) (start r)] else [])
  ++ (if decide (re r < re o) then [mkRange (end_ r) (end_ o)] else []).

Definition meet (o r : KRange) : KRange :=
  mkRange (if decide (rs o < rs r) then start r else start o)
          (if decide (re r < re o) then end_ r else end_ o).

Lemma remove_step_ok l1 o l2 removed r :
  range_ok o -> range_ok r ->
  remove_step (l1 ++ o :: l2) removed r (length l1) o
  = (l1 ++ minus o r ++ l2, removed ++ [meet o r]).
Proof.
  intros [[Wos Woe] Ho] [[Wrs Wre] Hr]. unfold remove_step, minus, meet.
  rewrite !key_ltb_Z, !key_leb_Z by done. fold (rs o) (re o) (rs r) (re r).
  destruct (decide (rs o < rs r)) as [A|A], (decide (re r < re o)) as [B|B].
  - rewrite (bool_decide_true (rs o < rs r)), (bool_decide_false (re o <= re r)),
      (bool_decide_false (rs r <= rs o)), (bool_decide_true (re r < re o)) by lia. cbn [andb].
    rewrite insert_app_r_alt, Nat.sub_diag by done. cbn [list_insert].
    rewrite take_app_ge, drop_app_ge by lia. 
    replace (S (length l1) - length l1)%nat with 1%nat by lia. cbn [take drop app].
    rewrite <- app_assoc. by destruct r.
  - rewrite (bool_decide_true (rs o < rs r)), (bool_decide_true (re o <= re r)),
      (bool_decide_false (rs r <= rs o)), (bool_decide_false (re r < re o)) by lia. cbn [andb].
    rewrite insert_app_r_alt, Nat.sub_diag by done. done.
  - rewrite (bool_decide_false (rs o < rs r)), (bool_decide_false (re o <= re r)),
      (bool_decide_true (rs r <= rs o)), (bool_decide_true (re r < re o)) by lia. cbn [andb].
    rewrite insert_app_r_alt, Nat.sub_diag by done. done.
  - rewrite (bool_decide_false (rs o < rs r)), (bool_decide_true (re o <= re r)),
      (bool_decide_true (rs r <= rs o)), (bool_decide_false (re r < re o)) by lia. cbn [andb].
    rewrite delete_middle. cbn [app]. by destruct o.
Qed.

Lemma minus_ok o r :
  range_ok o -> range_ok r -> rs o < re r -> rs r < re o ->
  sorted (minus o r) /\ Forall (fun x => rs o <= rs x /\ re x <= re o) (minus o r)
  /\ Forall (fun x => re x <= rs r \/ re r <= rs x) (minus o r)
  /\ forall z, member (minus o r) z <-> in_range o z /\ ~ in_range r z.
Proof.
  intros [[Wos Woe] Ho] [[Wrs Wre] Hr] H1 H2. unfold minus, in_range.
  destruct (decide (rs o < rs r)) as [A|A], (decide (re r < re o)) as [B|B]; cbn [app];
    (split; [|split; [|split; [|intros z; rewrite ?member_cons, ?member_nil;
      unfold in_range, rs, re in *; cbn [start end_] in *; lia]]]).
  all: rewrite ?sorted_cons, ?Forall_cons, ?Forall_nil; unfold range_ok, range_wf, rs, re in *;
    cbn [start end_] in *; split_and?; try apply sorted_nil; done || lia.
Qed.

Lemma meet_ok o r :
  range_ok o -> range_ok r -> rs o < re r -> rs r < re o ->
  range_ok (meet o r) /\ forall z, in_range (meet o r) z <-> in_range o z /\ in_range r z.
Proof.
  intros [[Wos Woe] Ho] [[Wrs Wre] Hr] H1 H2. unfold meet, in_range, range_ok, range_wf.
  destruct (decide (rs o < rs r)) as [A|A], (decide (re r < re o)) as [B|B];
    unfold rs, re in *; cbn [start end_]; (split; [done || (split; [done|lia])|intros z; lia]).
Qed.

(** Ranges that overlap [r]: the measure of the loop. *)
Definition overlapping (r : KRange) (l : list KRange) : nat :=
  length (filter (fun x => rs x < re r /\ rs r < re x) l).

Lemma overlapping_app r l1 l2 : overlapping r (l1 ++ l2) = (overlapping r l1 + overlapping r l2)%nat.
Proof. unfold overlapping. by rewrite filter_app, length_app. Qed.

Lemma overlapping_cons r o l :
  rs o < re r -> rs r < re o -> overlapping r (o :: l) = S (overlapping r l).
Proof. intros. unfold overlapping. by rewrite filter_cons_True. Qed.

Lemma overlapping_zero r l : Forall (fun x => re x <= rs r \/ re r <= rs x) l -> overlapping r l = O.
Proof.
  intros H. unfold overlapping. rewrite filter_none; [done|]. intros x Hx. rewrite Forall_forall in H.
  apply H in Hx. lia.
Qed.

Lemma sorted_replace l1 o l2 p :
  sorted (l1 ++ o :: l2) -> sorted p -> Forall (fun x => rs o <= rs x /\ re x <= re o) p ->
  sorted (l1 ++ p ++ l2).
Proof.
  rewrite !sorted_app, sorted_cons, !Forall_forall. intros (Hl1 & (Ho & Hol & Hl2) & H12) Hp Hin.
  split_and!; [done|done|done|..].
  - intros a b Ha Hb. apply Hin in Ha. apply Hol in Hb. lia.
  - intros a b Ha [Hb|Hb]%elem_of_app.
    + apply Hin in Hb. pose proof (H12 a o Ha ltac:(by left)). lia.
    + apply H12; [done|by right].
Qed.

Lemma minus_length l1 o l2 r :
  sorted (l1 ++ o :: l2) -> rs o < re r -> rs r < re o -> Forall (fun b => re r <= rs b) l2 ->
  (length (l1 ++ minus o r ++ l2) + Nat.min 1 (overlapping r (l1 ++ minus o r ++ l2))
   <= length (l1 ++ o :: l2) + 1)%nat.
Proof.
  intros Hs H1 H2 Hafter. rewrite !length_app. cbn [length].
  destruct (decide (rs o < rs r /\ re r < re o)) as [[A B]|Hnot].
  - assert (overlapping r (l1 ++ minus o r ++ l2) = O) as ->.
    { apply overlapping_zero. rewrite !Forall_app, !Forall_forall. split_and!.
      - intros x Hx. left. apply sorted_app in Hs as (_ & _ & H12). pose proof (H12 x o Hx ltac:(by left)). lia.
      - unfold minus. rewrite !decide_True by done. intros x Hx.
        apply elem_of_cons in Hx as [->|Hx%list_elem_of_singleton]; [|subst x]; unfold rs, re; cbn [start end_]; [by left|by right].
      - intros x Hx. right. rewrite Forall_forall in Hafter. by apply Hafter. }
    unfold minus. rewrite !decide_True by done. cbn [app length]. lia.
  - assert (length (minus o r) <= 1)%nat by (unfold minus; repeat case_decide; cbn [app length]; lia). lia.
Qed.

Lemma sorted_disjoint l1 o l2 z :
  sorted (l1 ++ o :: l2) -> in_range o z -> ~ member l1 z /\ ~ member l2 z.
Proof.
  intros (_ & (_ & Hf & _)%sorted_cons & H12)%sorted_app Hz. rewrite Forall_forall in Hf.
  split; intros (x & Hx & Hxz); unfold in_range in *.
  - pose proof (H12 x o Hx ltac:(by left)). lia.
  - apply Hf in Hx. lia.
Qed.

(** One range of the other key space: its keys move from [self] to [removed]. *)
Lemma remove_range_ok fuel l removed r :
  sorted l -> range_ok r -> (overlapping r l <= fuel)%nat ->
  exists l' removed', remove_range fuel l removed r = Ok (l', removed ++ removed')
  /\ sorted l' /\ Forall range_ok removed' /\ (length l' <= length l + Nat.min 1 (overlapping r l))%nat
  /\ forall z, (member l' z <-> member l z /\ ~ in_range r z)
               /\ (member removed' z <-> member l z /\ in_range r z).
Proof.
  intros Hs Hr. revert l removed Hs. induction fuel as [|fuel IH]; intros l removed Hs Hfuel;
    (destruct (overlaps_at_cases l r Hs Hr) as [(l1 & o & l2 & -> & E & H1 & H2 & Hafter)|[E Hno]];
     [|exists l, []; cbn [remove_range]; rewrite E, app_nil_r; split_and!; [done|done|constructor|lia|];
       intros z; rewrite member_nil; specialize (Hno z); tauto]).
  - rewrite overlapping_app, overlapping_cons in Hfuel by done. lia.
  - assert (range_ok o) as Ho by (apply sorted_app in Hs as (_ & [? _]%sorted_cons & _); done).
    destruct (minus_ok o r Ho Hr H1 H2) as (Hms & Hmin & Hmout & Hmm).
    destruct (meet_ok o r Ho Hr H1 H2) as [Hk Hkm].
    pose proof (sorted_replace _ _ _ _ Hs Hms Hmin) as Hs'.
    assert (overlapping r (l1 ++ minus o r ++ l2) + 1 = overlapping r (l1 ++ o :: l2))%nat as Hov.
    { rewrite !overlapping_app, overlapping_cons, (overlapping_zero r (minus o r)) by done. lia. }
    cbn [remove_range]. rewrite E, list_lookup_middle by done. cbn [of_option mbind outcome_bind].
    rewrite remove_step_ok by done.
    destruct (IH (l1 ++ minus o r ++ l2) (removed ++ [meet o r])) as (l' & removed' & -> & Hl' & Hrem & Hlen & Hm);
      [done|lia|].
    exists l', (meet o r :: removed'). rewrite <- app_assoc. split_and!; [done|done|by constructor| |].
    + pose proof (minus_length l1 o l2 r Hs H1 H2 Hafter). lia.
    + intros z. specialize (Hm z) as [Hm1 Hm2]. rewrite Hm1, member_cons, Hm2, Hkm.
      rewrite !member_app, member_cons, Hmm. pose proof (sorted_disjoint l1 o l2 z Hs). tauto.
Qed.

Lemma overlapping_length r l : (overlapping r l <= length l)%nat.
Proof. apply length_filter. Qed.

Lemma remove_ranges_ok fuel others l removed :
  sorted l -> Forall range_ok others -> (length l + length others <= fuel)%nat ->
  exists l' removed', remove_ranges fuel l removed others = Ok (l', removed ++ removed')
  /\ sorted l' /\ Forall range_ok removed'
  /\ forall z, (member l' z <-> member l z /\ ~ member others z)
               /\ (member removed' z <-> member l z /\ member others z).
Proof.
  revert l removed. induction others as [|r others IH]; intros l removed Hs Hok Hfuel; cbn [remove_ranges].
  - exists l, []. rewrite app_nil_r. split_and!; [done|done|by apply Forall_nil|].
    intros z. rewrite !member_nil. tauto.
  - apply Forall_cons in Hok as [Hr Hok]. cbn [length] in Hfuel. pose proof (overlapping_length r l).
    destruct (remove_range_ok fuel l removed r) as (l1 & rem1 & -> & Hs1 & Hok1 & Hlen & Hm1); [done|done|lia|].
    cbn [mbind outcome_bind].
    destruct (IH l1 (removed ++ rem1)) as (l2 & rem2 & -> & Hs2 & Hok2 & Hm2); [done|done|lia|].
    exists l2, (rem1 ++ rem2). rewrite app_assoc. split_and!; [done|done|by apply Forall_app|].
    intros z. destruct (Hm1 z) as [A1 B1], (Hm2 z) as [A2 B2].
    rewrite A2, member_app, B1, B2, A1, member_cons.
    assert (in_range r z \/ ~ in_range r z) by (unfold in_range; lia). tauto.
Qed.

(** The ranges left out by [skip_while] and [take_while] do not meet [self]. *)
Lemma skip_take_member self_start self_end l z :
  key_wf self_start -> key_wf self_end -> sorted l -> key_Z self_start <= z < key_Z self_end ->
  let l' := take_while (fun range => key_ltb (start range) self_end)
              (skip_while (fun range => key_leb (end_ range) self_start) l) in
  Forall range_ok l' /\ (length l' <= length l)%nat /\ (member l' z <-> member l z).
Proof.
  intros Ws We Hs Hz. cbv zeta. induction l as [|r l IH].
  - cbn. split_and!; [by apply Forall_nil|done|done].
  - pose proof Hs as ([[Wrs Wre] Hr] & Hf & Hl)%sorted_cons. cbn [skip_while].
    rewrite key_leb_Z by done. fold (re r). case_bool_decide as Hskip.
    + destruct (IH Hl) as (H1 & H2 & H3). split_and!; [done|cbn [length]; lia|].
      rewrite H3, member_cons. unfold in_range. split; [tauto|]. intros [?|?]; [lia|done].
    + clear IH. assert (forall l0, sorted l0 ->
        Forall range_ok (take_while (fun range => key_ltb (start range) self_end) l0)
        /\ (length (take_while (fun range => key_ltb (start range) self_end) l0) <= length l0)%nat
        /\ (member (take_while (fun range => key_ltb (start range) self_end) l0) z <-> member l0 z)) as Ht.
      { clear - We Hz. induction l0 as [|x l0 IH]; intros Hs.
        - cbn. split_and!; [by apply Forall_nil|done|done].
        - pose proof Hs as ([[Wxs Wxe] Hx] & Hf & Hl)%sorted_cons. cbn [take_while].
          rewrite key_ltb_Z by done. fold (rs x). destruct (IH Hl) as (H1 & H2 & H3). case_bool_decide as Htake.
          + split_and!; [by constructor|cbn [length]; lia|]. by rewrite !member_cons, H3.
          + split_and!; [by apply Forall_nil|cbn [length]; lia|]. rewrite member_nil. split; [done|].
            intros (y & Hy & Hyz). apply elem_of_cons in Hy as [->|Hy]; unfold in_range in *; [lia|].
            rewrite Forall_forall in Hf. apply Hf in Hy. lia. }
      by apply Ht.
Qed.

(** The first start and the last end enclose a sorted key space. *)
Lemma sorted_bounds l :
  sorted l -> l <> [] ->
  exists s e, ks_start (mkKeySpace l) = Some s /\ ks_end (mkKeySpace l) = Some e
  /\ key_wf s /\ key_wf e /\ key_Z s < key_Z e /\ forall z, member l z -> key_Z s <= z < key_Z e.
Proof.
  intros Hs Hne. destruct l as [|r l]; [done|]. clear Hne.
  pose proof Hs as ([[Wrs Wre] Hr] & Hf & Hl)%sorted_cons. unfold ks_start, ks_end. cbn [ranges head].
  destruct l as [|x l _] using rev_ind.
  - exists (start r), (end_ r). split_and!; [done|done|done|done|done|]. intros z.
    rewrite member_cons, member_nil. unfold in_range, rs, re. lia.
  - apply Forall_app in Hf as [Hfl [Hfx _]%Forall_cons]. apply sorted_app in Hl as (Hl & Hx & Hlx).
    apply sorted_cons in Hx as ([[Wxs Wxe] Hx] & _).
    exists (start r), (end_ x). rewrite app_comm_cons, last_snoc. split_and!; [done|done|done|done|..].
    + unfold rs, re in *. lia.
    + intros z. rewrite member_app, !member_cons, member_nil. unfold in_range, rs, re in *.
      intros [[?|(y & Hy & Hyz)]|[?|[]]]; [lia| |lia]. rewrite Forall_forall in Hfl.
      pose proof (Hfl y Hy). pose proof (Hlx y x Hy ltac:(by left)). unfold in_range, rs, re in *. lia.
Qed.

(** C27: Removing one key space from another is set difference.  With one round of
    fuel per range of either, [remove_overlapping_with] returns; what it reports as
    removed is the intersection, what it leaves is the difference, and both are
    again sorted lists of disjoint ranges. *)
Theorem remove_overlapping_is_difference (self other : KeySpace) (fuel : nat) :
  sorted (ranges self) -> sorted (ranges other) ->
  (length (ranges self) + length (ranges other) <= fuel)%nat ->
  exists removed rest, remove_overlapping_with fuel self other = Ok (removed, rest)
  /\ sorted (ranges removed) /\ sorted (ranges rest)
  /\ (forall z, member (ranges removed) z <-> member (ranges self) z /\ member (ranges other) z)
  /\ (forall z, member (ranges rest) z <-> member (ranges self) z /\ ~ member (ranges other) z).
Proof.
  destruct self as [l], other as [o]. cbn [ranges]. intros Hs Ho Hfuel. unfold remove_overlapping_with.
  destruct (decide (l = [])) as [->|Hne].
  { cbn. exists (mkKeySpace []), (mkKeySpace []). cbn [ranges]. split_and!; auto with keyspace;
      intros z; rewrite member_nil; tauto. }
  destruct (sorted_bounds l Hs Hne) as (s & e & -> & -> & Ws & We & Hse & Hb).
  destruct (skip_take_member s e o (key_Z s) Ws We Ho ltac:(lia)) as (Hok & Hlen & _). cbn [ranges].
  set (o' := take_while _ _) in *.
  destruct (remove_ranges_ok fuel o' l []) as (l' & rem & -> & Hs' & Hrem & Hm); [done|done|lia|].
  cbn [app mbind outcome_bind].
  destruct (kra_to_keyspace_ok rem Hrem) as (ks & -> & Hks & Hkm). cbn [of_option mbind outcome_bind].
  exists ks, (mkKeySpace l'). cbn [ranges].
  assert (forall z, member l z -> member o' z <-> member o z) as Ho'.
  { intros z Hz. apply (skip_take_member s e o z Ws We Ho). by apply Hb. }
  split_and!; [done|done|done|..]; intros z; destruct (Hm z) as [A B]; specialize (Ho' z).
  - rewrite Hkm, B. tauto.
  - rewrite A. tauto.
Qed.

Definition kr (a b : Z) : KRange := mkRange (mkKey 0 1663 5 16384 0 a) (mkKey 0 1663 5 16384 0 b).

Lemma kr_ok a b : in_u 32 a -> in_u 32 b -> a < b -> range_ok (kr a b).
Proof.
  intros Ha Hb Hab. split; [split; by split_and!|]. unfold rs, re, kr, key_Z.
  cbn [start end_ field1 field2 field3 field4 field5 field6]. lia.
Qed.

Lemma kr_sorted_pair a b c d :
  in_u 32 a -> in_u 32 b -> in_u 32 c -> in_u 32 d -> a < b -> b <= c -> c < d -> sorted [kr a b; kr c d].
Proof.
  intros. apply sorted_cons. split_and!; [by apply kr_ok| |by apply sorted_singleton, kr_ok].
  apply Forall_cons. split; [|by apply Forall_nil]. unfold rs, re, kr, key_Z.
  cbn [start end_ field1 field2 field3 field4 field5 field6]. lia.
Qed.

Lemma remove_overlapping_is_difference_witness :
  exists removed rest,
    remove_overlapping_with 3 (mkKeySpace [kr 0 10; kr 20 30]) (mkKeySpace [kr 5 25]) = Ok (removed, rest)
  /\ ranges removed = [kr 5 10; kr 20 25] /\ ranges rest = [kr 0 5; kr 25 30]
  /\ sorted (ranges rest).
Proof.
  destruct (remove_overlapping_is_difference (mkKeySpace [kr 0 10; kr 20 30]) (mkKeySpace [kr 5 25]) 3)
    as (removed & rest & E & H1 & H2 & _);
    [by apply kr_sorted_pair|by apply sorted_singleton, kr_ok|done|].
  exists removed, rest. split; [exact E|].
  assert (remove_overlapping_with 3 (mkKeySpace [kr 0 10; kr 20 30]) (mkKeySpace [kr 5 25])
    = Ok (mkKeySpace [kr 5 10; kr 20 25], mkKeySpace [kr 0 5; kr 25 30])) as E' by reflexivity.
  rewrite E' in E. injection E as <- <-. split_and!; [reflexivity|reflexivity|exact H2].
Defined.

(** ** [overlaps] and [contains] *)

(** A key space answers [overlaps] and [contains] as the set it denotes: a range
    overlaps when they share a key, and a key is contained when it is a member. *)
Theorem contains_is_membership (ks : KeySpace) (r : KRange) (k : Key) :
  sorted (ranges ks) -> range_ok r -> key_wf k -> key_Z k < key_Z KEY_MAX ->
  (overlaps ks r = true <-> exists z, in_range r z /\ member (ranges ks) z)
  /\ exists b, ks_contains ks k = Some b /\ (b = true <-> member (ranges ks) (key_Z k)).
Proof.
  destruct ks as [l]. cbn [ranges]. intros Hs Hr Hk Hmax.
  assert (forall r, range_ok r -> overlaps (mkKeySpace l) r = true <-> exists z, in_range r z /\ member l z) as Ho.
  { clear r Hr. intros r Hr. unfold overlaps. rewrite bool_decide_eq_true.
    destruct (overlaps_at_cases l r Hs Hr) as [(l1 & o & l2 & -> & -> & H1 & H2 & _)|[-> Hno]].
    - split; [|by eexists]. intros _. exists (Z.max (rs o) (rs r)).
      assert (range_ok o) as [_ Ho] by (apply sorted_app in Hs as (_ & [? _]%sorted_cons & _); done).
      destruct Hr as [_ Hr]. split; [unfold in_range; lia|]. rewrite member_app, member_cons. unfold in_range. lia.
    - split; [by intros [? ?]|]. intros (z & Hz & Hm). by destruct (Hno z). }
  split; [by apply Ho|]. unfold ks_contains, key_next. change (key_Z KEY_MAX) with (2 ^ 144 - 1) in Hmax.
  destruct (key_add_of_Z k 1) as (-> & Wn & Zn); [done|done|lia|]. cbn [mbind option_bind].
  eexists. split; [done|]. rewrite Ho.
  - unfold in_range, rs, re. cbn [start end_]. rewrite Zn. split.
    + intros (z & Hz & Hm). by replace (key_Z k) with z by lia.
    + intros Hm. exists (key_Z k). split; [lia|done].
  - split; [done|]. unfold rs, re. cbn [start end_]. lia.
Qed.

Lemma contains_is_membership_witness :
  exists b, ks_contains (mkKeySpace [kr 0 10; kr 20 30]) (mkKey 0 1663 5 16384 0 15) = Some b
  /\ (b = true <-> member [kr 0 10; kr 20 30] (key_Z (mkKey 0 1663 5 16384 0 15))).
Proof.
  by apply (contains_is_membership (mkKeySpace [kr 0 10; kr 20 30]) (kr 0 1) (mkKey 0 1663 5 16384 0 15));
    [apply kr_sorted_pair|apply kr_ok|vm_compute|].
Defined.

(** ** [KeySpaceAccum] and [merge] *)

(** [raw_size] is defined: the range is not one of [2 ^ 32] keys that starts with a
    size key. *)
Definition sized (r : KRange) : Prop := is_Some (raw_size r).

Definition ka_list (st : KeySpaceAccum) : list KRange := ranges (ka_to_keyspace st).

(** Where the accumulated ranges end: the next range may start there or later. *)
Definition ka_before (st : KeySpaceAccum) (z : Z) : Prop :=
  match ka_accum st with Some a => re a <= z | None => ka_ranges st = [] end.

Lemma ka_add_range_ok st r :
  sorted (ka_list st) -> range_ok r -> sized r -> ka_before st (rs r) ->
  exists st', ka_add_range st r = Some st' /\ sorted (ka_list st')
  /\ (exists a, ka_accum st' = Some a /\ re a = re r)
  /\ forall z, member (ka_list st') z <-> member (ka_list st) z \/ in_range r z.
Proof.
  intros Hs Hr [n En] Hb. pose proof Hr as [[Wrs Wre] Hlt].
  unfold ka_add_range, ka_before, ka_list, ka_to_keyspace in *. rewrite En. cbn [mbind option_bind].
  destruct (ka_accum st) as [a|]; cbn [ranges] in *.
  - apply sorted_app in Hs as (Hl & ([[Was Wae] Ha] & _)%sorted_cons & Hla).
    case_decide as Eq.
    + eexists. split; [done|]. cbn [ka_accum ka_ranges ranges].
      assert (rs r = re a) as Era by (unfold rs, re; by rewrite Eq).
      assert (range_ok (mkRange (start a) (end_ r))) as Hj.
      { split; [done|]. unfold rs, re in *. cbn [start end_]. lia. }
      split_and!; [|by eexists|].
      * apply sorted_app. split_and!; [done|by apply sorted_singleton|].
        intros x y Hx ->%list_elem_of_singleton. by apply (Hla x a Hx); left.
      * intros z. rewrite !member_app, !member_cons, !member_nil. unfold in_range, rs, re in *. cbn [start end_].
        assert (key_Z (start a) <= z < key_Z (end_ r) <->
          key_Z (start a) <= z < key_Z (end_ a) \/ key_Z (start r) <= z < key_Z (end_ r)) as -> by lia. tauto.
    + rewrite key_ltb_Z by done. fold (re a) (rs r). rewrite bool_decide_true.
      2:{ assert (re a <> rs r); [|lia]. intros E. apply Eq. unfold rs, re in E. symmetry. by apply key_Z_inj. }
      eexists. split; [done|]. cbn [ka_accum ka_ranges ranges]. split_and!; [|by eexists|].
      * rewrite <- app_assoc. cbn [app]. apply sorted_app. split_and!; [done|..].
        -- apply sorted_cons. split_and!; [done| |by apply sorted_singleton]. apply Forall_cons. split; [done|by apply Forall_nil].
        -- intros x y Hx Hy. apply elem_of_cons in Hy as [->|Hy]; [by apply (Hla x a Hx); left|].
           apply list_elem_of_singleton in Hy as ->. pose proof (Hla x a Hx ltac:(by left)). lia.
      * intros z. rewrite !member_app, !member_cons, !member_nil. tauto.
  - eexists. split; [done|]. cbn [ka_accum ka_ranges ranges]. rewrite Hb in *. cbn [app].
    split_and!; [by apply sorted_singleton|by eexists|]. intros z. rewrite !member_cons, !member_nil. tauto.
Qed.

Fixpoint pairwise {A} (R : A -> A -> Prop) (l : list A) : Prop :=
  match l with [] => True | x :: l => Forall (R x) l /\ pairwise R l end.

Lemma pairwise_perm {A} (R : A -> A -> Prop) l1 l2 :
  (forall x y, R x y -> R y x) -> l1 ≡ₚ l2 -> pairwise R l1 -> pairwise R l2.
Proof.
  intros Hsym Hp. induction Hp as [|x l l' Hp IH|x y l|l l' l'' _ IH1 _ IH2]; cbn [pairwise]; intros H.
  - done.
  - destruct H as [Hx Hl]. split; [by rewrite <- Hp|auto].
  - rewrite !Forall_cons in *. destruct H as ([Hyx Hy] & Hx & Hl). split_and!; auto.
  - auto.
Qed.

Lemma pairwise_app {A} (R : A -> A -> Prop) l1 l2 :
  pairwise R (l1 ++ l2) <-> pairwise R l1 /\ pairwise R l2 /\ forall x y, x ∈ l1 -> y ∈ l2 -> R x y.
Proof.
  induction l1 as [|z l1 IH]; cbn [app pairwise].
  - split; [|naive_solver]. intros H. split_and!; [done|done|]. by intros ? ? ?%not_elem_of_nil.
  - rewrite IH, Forall_app, !Forall_forall. set_solver.
Qed.

Definition apart (a b : KRange) : Prop := re a <= rs b \/ re b <= rs a.

Lemma sorted_pairwise l : sorted l -> pairwise apart l.
Proof.
  induction l as [|r l IH]; [done|]. intros (_ & Hf & Hl)%sorted_cons. split; [|by apply IH].
  eapply Forall_impl; [exact Hf|]. by left.
Qed.

(** Ranges in order of their starts that are apart are sorted. *)
Lemma pairwise_sorted l :
  Forall range_ok l -> StronglySorted (fun a b => rs a <= rs b) l -> pairwise apart l -> sorted l.
Proof.
  induction l as [|r l IH]; [auto with keyspace|]. intros [Hr Hok]%Forall_cons Hs [Hf Hp].
  inversion_clear Hs as [|? ? Hs' Hle]. apply sorted_cons. split_and!; [done| |by apply IH].
  rewrite !Forall_forall in *. intros x Hx. pose proof (Hf x Hx) as Hap. pose proof (Hle x Hx).
  pose proof (Hok x Hx) as [_ Hxx]. destruct Hr as [_ Hr]. destruct Hap; lia.
Qed.

(** The loop of [merge] on ranges in order of their starts: it accumulates them
    when they are apart and fails when two neighbours overlap. *)
Lemma merge_loop_ok l st prev :
  sorted (ka_list st) -> Forall (fun r => range_ok r /\ sized r) l ->
  StronglySorted (fun a b => rs a <= rs b) l ->
  match prev with
  | Some p => range_ok p /\ Forall (fun r => rs p <= rs r) l /\ exists a, ka_accum st = Some a /\ re a = re p
  | None => ka_accum st = None /\ ka_ranges st = []
  end ->
  match prev with Some p => sorted (p :: l) | None => sorted l end ->
  exists st', merge_loop st prev l = Some st' /\ sorted (ka_list st')
  /\ forall z, member (ka_list st') z <-> member (ka_list st) z \/ member l z.
Proof.
  revert st prev. induction l as [|r l IH]; intros st prev Hst Hok Hle Hprev Hsorted; cbn [merge_loop].
  - exists st. split_and!; [done|done|]. intros z. rewrite member_nil. tauto.
  - apply Forall_cons in Hok as [[Hr Hsz] Hok]. inversion_clear Hle as [|? ? Hle' Hf].
    assert (ka_before st (rs r) /\ (match prev with
      | Some p => key_ltb (key_max (start r) (start p)) (key_min (end_ r) (end_ p))
      | None => false end = false) /\ sorted (r :: l)) as (Hb & -> & Hrl).
    { unfold ka_before. destruct prev as [p|].
      - destruct Hprev as (Hp & Hpl & a & -> & Ea).
        apply sorted_cons in Hsorted as (_ & [Hpr _]%Forall_cons & Hrl). split_and!; [lia| |done].
        destruct Hp as [[Wps Wpe] Hp], Hr as [[Wrs Wre] Hr]. apply Forall_cons in Hpl as [Hpr' _].
        unfold key_max, key_min. rewrite (key_ltb_Z (start p)), (key_leb_Z (end_ r)) by done. fold (rs r) (re r) (rs p) (re p).
        repeat case_bool_decide; rewrite key_ltb_Z by done; fold (rs r) (re r) (rs p) (re p);
          apply bool_decide_eq_false; lia.
      - destruct Hprev as [-> Hnil]. done. }
    destruct (ka_add_range_ok st r Hst Hr Hsz Hb) as (st' & -> & Hst' & Hacc & Hm). cbn [mbind option_bind].
    destruct (IH st' (Some r)) as (st'' & -> & Hst'' & Hm'); [done|done|done| |done|].
    { split_and!; [done|done|]. exact Hacc. }
    exists st''. split_and!; [done|done|]. intros z. rewrite Hm', Hm, member_cons. tauto.
Qed.

Lemma merge_loop_overlap l st p :
  Forall (fun r => range_ok r) (p :: l) -> StronglySorted (fun a b => rs a <= rs b) (p :: l) ->
  ~ sorted (p :: l) -> merge_loop st (Some p) l = None.
Proof.
  revert st p. induction l as [|r l IH]; intros st p Hok Hle Hn.
  - exfalso. apply Hn. apply sorted_singleton. by apply Forall_cons in Hok as [? _].
  - apply Forall_cons in Hok as [Hp Hok]. inversion_clear Hle as [|? ? Hle' Hf].
    apply Forall_cons in Hf as [Hpr Hf]. cbn [merge_loop]. case_match eqn:Hov; [done|].
    destruct (ka_add_range st r) as [st'|]; [|done]. cbn [mbind option_bind]. apply IH; [done|done|].
    intros Hs. apply Hn, sorted_cons. split_and!; [done| |done].
    pose proof Hs as ([[Wrs Wre] Hr] & Hfr & _)%sorted_cons. destruct Hp as [[Wps Wpe] Hp].
    assert (re p <= rs r) as Hpre.
    { unfold key_max, key_min in Hov. rewrite (key_ltb_Z (start p)), (key_leb_Z (end_ r)) in Hov by done.
      fold (rs r) (re r) (rs p) (re p) in Hov. repeat case_bool_decide; rewrite key_ltb_Z in Hov by done;
        fold (rs r) (re r) (rs p) (re p) in Hov; apply bool_decide_eq_false in Hov; lia. }
    constructor; [done|]. eapply Forall_impl; [exact Hfr|]. cbn. lia.
Qed.

(** Building and merging key spaces is union.  Ranges collected in any order
    give the sorted key space of their union; merging two key spaces that share no
    key gives theirs, and merging two that do hits the assertion. *)
Theorem keyspace_union `{!Itertools, !ItertoolsLaws} (l : list KRange) (a b : KeySpace) :
  Forall range_ok l -> sorted (ranges a) -> sorted (ranges b) -> Forall sized (ranges a ++ ranges b) ->
  (exists ks, kra_to_keyspace l = Some ks /\ sorted (ranges ks)
     /\ forall z, member (ranges ks) z <-> member l z)
  /\ ((forall z, ~ (member (ranges a) z /\ member (ranges b) z)) ->
      exists ks, ks_merge a b = Some ks /\ sorted (ranges ks)
      /\ forall z, member (ranges ks) z <-> member (ranges a) z \/ member (ranges b) z)
  /\ ((exists z, member (ranges a) z /\ member (ranges b) z) -> ks_merge a b = None).
Proof.
  intros Hl Ha Hb Hsz. split; [by apply kra_to_keyspace_ok|].
  set (f := fun lhs rhs => key_ltb (start lhs) (start rhs)). set (m := merge_by f (ranges a) (ranges b)).
  assert (m ≡ₚ ranges a ++ ranges b) as Hp by apply merge_by_perm.
  assert (Forall range_ok (ranges a ++ ranges b)) as Hok.
  { apply Forall_app. split; [apply Ha|apply Hb]. }
  assert (forall l, sorted l -> StronglySorted (fun a b => rs a <= rs b) l) as Hweak.
  { clear. induction l as [|r l IH]; [constructor|]. intros ([_ Hr] & Hf & Hl)%sorted_cons.
    constructor; [by apply IH|]. eapply Forall_impl; [exact Hf|]. cbn. lia. }
  assert (StronglySorted (fun a b => rs a <= rs b) m) as Hms.
  { apply merge_by_sorted; [|by apply Hweak..]. intros x y Hx Hy. unfold f. rewrite Forall_forall in Hok.
    apply Hok in Hx as [[? _] _], Hy as [[? _] _]. by rewrite key_ltb_Z. }
  assert (Forall range_ok m) as Hmok by by rewrite Hp.
  unfold ks_merge. fold f m. split.
  - intros Hdis. assert (sorted m) as Hsm.
    { apply pairwise_sorted; [done|done|]. apply (pairwise_perm _ (ranges a ++ ranges b)); [unfold apart; tauto|done|].
      apply pairwise_app. split_and!; [by apply sorted_pairwise..|]. intros x y Hx Hy. unfold apart.
      destruct (decide (re x <= rs y \/ re y <= rs x)) as [?|Hn]; [done|]. exfalso.
      apply Forall_app in Hok as [Hok1 Hok2]. rewrite Forall_forall in Hok1, Hok2.
      pose proof (Hok1 x Hx) as [_ ?]. pose proof (Hok2 y Hy) as [_ ?].
      apply (Hdis (Z.max (rs x) (rs y))). split; [exists x|exists y]; unfold in_range; split; done || lia. }
    destruct (merge_loop_ok m ka_new None) as (st & -> & Hst & Hmem).
    + apply sorted_nil.
    + rewrite Hp. rewrite !Forall_forall in *. auto.
    + done.
    + done.
    + done.
    + eexists. split_and!; [done|done|]. intros z. fold (ka_list st). rewrite Hmem, Hp, member_app. cbn.
      rewrite member_nil. tauto.
  - intros (z & (x & Hx & Hxz) & (y & Hy & Hyz)).
    assert (~ sorted m) as Hn.
    { intros Hsm%sorted_pairwise. apply (pairwise_perm _ m (ranges a ++ ranges b)) in Hsm; [|unfold apart; tauto|done].
      apply pairwise_app in Hsm as (_ & _ & Hap). destruct (Hap x y Hx Hy); unfold in_range in *; lia. }
    destruct m as [|r m']; [exfalso; apply Hn, sorted_nil|]. cbn [merge_loop].
    destruct (ka_add_range ka_new r) as [st|]; [|done]. cbn [mbind option_bind].
    by rewrite merge_loop_overlap.
Qed.

(** A [merge_by] with the documented behaviour. *)
Fixpoint merge_lists (f : KRange -> KRange -> bool) (a : list KRange) : list KRange -> list KRange :=
  fix go (b : list KRange) : list KRange :=
    match a, b with
    | [], _ => b
    | _, [] => a
    | x :: a', y :: b' => if f x y then x :: merge_lists f a' b else y :: go b'
    end.

#[local] Instance merge_itertools : Itertools := {| merge_by := merge_lists |}.

Lemma merge_lists_perm f a b : merge_lists f a b ≡ₚ a ++ b.
Proof.
  revert b. induction a as [|x a IHa]; intros b; [by destruct b|].
  induction b as [|y b IHb]; [cbn; by rewrite app_nil_r|]. cbn [merge_lists]. destruct (f x y).
  - by rewrite IHa.
  - etransitivity; [apply perm_skip, IHb|]. apply Permutation_middle.
Qed.

#[local] Instance merge_itertools_laws : ItertoolsLaws.
Proof.
  split; [apply merge_lists_perm|]. intros measure f a b Hf Ha. revert b Hf. cbn [merge_by merge_itertools].
  induction Ha as [|x a Ha IHa Hx]; intros b Hf Hb; [by destruct b|].
  induction Hb as [|y b Hb IHb Hy]; [by constructor|]. cbn [merge_lists].
  rewrite Hf by (rewrite elem_of_app, !elem_of_cons; auto). case_bool_decide as Hlt.
  - constructor.
    + apply IHa; [|by constructor]. intros u v Hu Hv. apply Hf; by right.
    + rewrite merge_lists_perm. apply Forall_app. split; [done|]. constructor; [lia|].
      eapply Forall_impl; [exact Hy|]. cbn. lia.
  - constructor.
    + apply IHb. intros u v Hu Hv. apply Hf; set_solver.
    + change (Forall (fun z => measure y <= measure z) (merge_lists f (x :: a) b)).
      rewrite merge_lists_perm. apply Forall_app. split; [|done]. constructor; [lia|].
      eapply Forall_impl; [exact Hx|]. cbn. lia.
Qed.

Lemma keyspace_union_witness :
  exists ks, ks_merge (mkKeySpace [kr 0 10; kr 20 30]) (mkKeySpace [kr 10 20; kr 40 50]) = Some ks
  /\ sorted (ranges ks) /\ ranges ks = [kr 0 30; kr 40 50].
Proof.
  destruct (keyspace_union [] (mkKeySpace [kr 0 10; kr 20 30]) (mkKeySpace [kr 10 20; kr 40 50]))
    as (_ & H & _); [by apply Forall_nil|by apply kr_sorted_pair|by apply kr_sorted_pair|
      cbn [ranges app]; repeat (apply Forall_cons; split; [by eexists|]); by apply Forall_nil|].
  destruct H as (ks & E & Hs & _).
  { cbn [ranges]. intros z. rewrite !member_cons, !member_nil. unfold in_range, rs, re, kr, key_Z.
    cbn [start end_ field1 field2 field3 field4 field5 field6]. lia. }
  exists ks. split_and!; [exact E|exact Hs|].
  assert (ks_merge (mkKeySpace [kr 0 10; kr 20 30]) (mkKeySpace [kr 10 20; kr 40 50])
    = Some (mkKeySpace [kr 0 30; kr 40 50])) as E' by reflexivity.
  rewrite E' in E. by injection E as <-.
Defined.
