(* ===== verification/OrdMap.v ===== *)
(** * Ordered maps

    [std::collections::BTreeMap] as an association list in the order of its keys,
    and the interface [RbMap] of the persistent [RedBlackTreeMap] of the [rpds]
    crate, which the association list implements.  Ranges and iterators are lists
    in key order; [next_back] is [last]. *)

From S2P Require Import Prelude.

(** ** Orders *)

Class Order (K : Type) := {
  kcmp : K -> K -> comparison;
  kcmp_eq a b : kcmp a b = Eq <-> a = b;
  kcmp_antisym a b : kcmp b a = CompOpp (kcmp a b);
  kcmp_trans a b c : kcmp a b = Lt -> kcmp b c = Lt -> kcmp a c = Lt
}.

#[global] Instance Z_order : Order Z.
Proof.
  refine {| kcmp := Z.compare |}.
  - apply Z.compare_eq_iff.
  - apply Z.compare_antisym.
  - intros a b c. rewrite !Z.compare_lt_iff. lia.
Defined.

Definition klt {K} `{!Order K} (a b : K) : Prop := kcmp a b = Lt.
Definition kle {K} `{!Order K} (a b : K) : Prop := kcmp a b <> Gt.

#[global] Instance klt_dec {K} `{!Order K} (a b : K) : Decision (klt a b).
Proof. unfold klt. apply _. Defined.
#[global] Instance kle_dec {K} `{!Order K} (a b : K) : Decision (kle a b).
Proof. unfold kle. apply _. Defined.
#[global] Instance order_eq_dec {K} `{!Order K} : EqDecision K.
Proof.
  intros a b. destruct (kcmp a b) eqn:E; [left; by apply kcmp_eq|right|right];
    intros ->; rewrite (proj2 (kcmp_eq b b) eq_refl) in E; done.
Defined.

Section order.
Context {K : Type} `{!Order K}.

Lemma kcmp_refl a : kcmp a a = Eq.
Proof. by apply kcmp_eq. Qed.

Lemma klt_irrefl a : ~ klt a a.
Proof. unfold klt. by rewrite kcmp_refl. Qed.

Lemma klt_trans a b c : klt a b -> klt b c -> klt a c.
Proof. apply kcmp_trans. Qed.

Lemma kle_cases a b : kle a b <-> klt a b \/ a = b.
Proof. unfold kle, klt. rewrite <- kcmp_eq. destruct (kcmp a b); naive_solver. Qed.

Lemma klt_total a b : klt a b \/ a = b \/ klt b a.
Proof.
  unfold klt. rewrite (kcmp_antisym a b). destruct (kcmp a b) eqn:E; [|auto|auto].
  apply kcmp_eq in E. auto.
Qed.

Lemma not_klt a b : ~ klt a b <-> kle b a.
Proof.
  unfold klt, kle. rewrite (kcmp_antisym a b). by destruct (kcmp a b).
Qed.

Lemma kle_klt_trans a b c : kle a b -> klt b c -> klt a c.
Proof. intros [H| ->]%kle_cases; [|done]. by apply klt_trans. Qed.

Lemma klt_kle_trans a b c : klt a b -> kle b c -> klt a c.
Proof. intros H [H'| <-]%kle_cases; [|done]. by eapply klt_trans. Qed.
End order.

(** ** Maps *)

Notation ordmap K V := (list (K * V)).

Section ordmap.
Context {K V : Type} `{!Order K}.
Implicit Types (m : ordmap K V) (k : K) (v : V).

Definition oempty : ordmap K V := [].

Fixpoint oinsert k v m : ordmap K V :=
  match m with
  | [] => [(k, v)]
  | (k', v') :: r =>
      match kcmp k k' with
      | Lt => (k, v) :: m
      | Eq => (k, v) :: r
      | Gt => (k', v') :: oinsert k v r
      end
  end.

Definition oremove k m : ordmap K V := filter (fun e => e.1 <> k) m.

(** [range(..=k)], [range(k..)], [range(a..b)]; [split_off(k)] keeps the keys
    below [k]. *)
Definition orange_to k m : ordmap K V := filter (fun e => kle e.1 k) m.
Definition orange_from k m : ordmap K V := filter (fun e => kle k e.1) m.
Definition orange a b m : ordmap K V := filter (fun e => kle a e.1 /\ klt e.1 b) m.
Definition osplit_off k m : ordmap K V := filter (fun e => klt e.1 k) m.

Definition osorted m : Prop := StronglySorted (fun a b => klt a.1 b.1) m.

Lemma osorted_cons k v m :
  osorted ((k, v) :: m) <-> Forall (fun e => klt k e.1) m /\ osorted m.
Proof.
  unfold osorted. split.
  - intros H. by inversion H.
  - intros [H1 H2]. by constructor.
Qed.

Lemma osorted_app m1 m2 :
  osorted (m1 ++ m2) <-> osorted m1 /\ osorted m2 /\ forall a b, a ∈ m1 -> b ∈ m2 -> klt a.1 b.1.
Proof.
  unfold osorted. split.
  - apply StronglySorted_app_inv.
  - intros (H1 & H2 & H). induction m1 as [|e m1 IH]; [done|]. cbn [app]. inversion_clear H1 as [|? ? Hs Hf].
    constructor; [apply IH; [done|set_solver]|]. apply Forall_app. split; [done|].
    apply Forall_forall. intros b Hb. apply H; [by left|done].
Qed.

Lemma osorted_filter (P : K * V -> Prop) `{!forall e, Decision (P e)} m :
  osorted m -> osorted (filter P m).
Proof.
  induction m as [|[k v] m IH]; [done|]. intros [Hf Hs]%osorted_cons.
  rewrite filter_cons. case_decide; [|auto]. apply osorted_cons. split; [|auto].
  rewrite Forall_forall in *. intros e [_ He]%list_elem_of_filter. auto.
Qed.

Lemma elem_of_oinsert k v m e :
  osorted m -> e ∈ oinsert k v m <-> e = (k, v) \/ (e ∈ m /\ e.1 <> k).
Proof.
  induction m as [|[k' v'] m IH]; intros Hs; cbn [oinsert].
  - rewrite list_elem_of_singleton. set_solver.
  - apply osorted_cons in Hs as [Hf Hs]. rewrite Forall_forall in Hf. destruct (kcmp k k') eqn:E.
    + apply kcmp_eq in E as ->. rewrite !elem_of_cons. split; [|naive_solver].
      intros [->|He]; [by left|]. right. split; [by right|]. intros <-. by eapply klt_irrefl, Hf.
    + rewrite !elem_of_cons. split; [|naive_solver]. intros [->|[->|He]]; [by left|..].
      * right. split; [by left|]. cbn. intros <-. by eapply klt_irrefl.
      * right. split; [by right|]. intros Heq. apply Hf in He. rewrite Heq in He.
        eapply klt_irrefl, klt_trans; [exact E|exact He].
    + rewrite !elem_of_cons, IH by done. split; [|naive_solver].
      intros [->|[->|[He Hne]]]; [|by left|by right; split; [right|]].
      right. split; [by left|]. cbn. intros <-. by rewrite kcmp_refl in E.
Qed.

Lemma oinsert_sorted k v m : osorted m -> osorted (oinsert k v m).
Proof.
  induction m as [|[k' v'] m IH]; intros Hs; cbn [oinsert].
  - by repeat constructor.
  - pose proof Hs as [Hf Hm]%osorted_cons. destruct (kcmp k k') eqn:E.
    + apply kcmp_eq in E as ->. by apply osorted_cons.
    + apply osorted_cons. split; [|done]. constructor; [done|]. eapply Forall_impl; [exact Hf|].
      intros e. by apply klt_trans.
    + apply osorted_cons. split; [|by apply IH]. apply Forall_forall. intros e He.
      apply elem_of_oinsert in He as [->|[He _]]; [| |done].
      * cbn. unfold klt. rewrite kcmp_antisym, E. done.
      * rewrite Forall_forall in Hf. by apply Hf.
Qed.

(** A sorted map is determined by its entries. *)
Lemma osorted_ext m1 m2 : osorted m1 -> osorted m2 -> (forall e, e ∈ m1 <-> e ∈ m2) -> m1 = m2.
Proof.
  revert m2. induction m1 as [|[k v] m1 IH]; intros [|[k' v'] m2] H1 H2 Hext; [done|..].
  1,2: set_solver.
  pose proof H1 as [Hf1 Hs1]%osorted_cons. pose proof H2 as [Hf2 Hs2]%osorted_cons.
  rewrite Forall_forall in Hf1, Hf2.
  assert ((k, v) = (k', v')) as E.
  { assert ((k, v) ∈ (k', v') :: m2) as Ha%elem_of_cons by (apply Hext; left).
    assert ((k', v') ∈ (k, v) :: m1) as Hb%elem_of_cons by (apply Hext; left).
    destruct Ha as [?|Ha]; [done|]. destruct Hb as [?|Hb]; [done|].
    apply Hf2 in Ha. apply Hf1 in Hb. cbn in *. exfalso. by eapply klt_irrefl, klt_trans. }
  injection E as <- <-. f_equal. apply IH; [done|done|]. intros e. specialize (Hext e).
  rewrite !elem_of_cons in Hext. split; intros He.
  - destruct Hext as [[->|?] _]; [by right| |done]. apply Hf1 in He. by apply klt_irrefl in He.
  - destruct Hext as [_ [->|?]]; [by right| |done]. apply Hf2 in He. by apply klt_irrefl in He.
Qed.

Lemma osorted_unique m k v v' : osorted m -> (k, v) ∈ m -> (k, v') ∈ m -> v = v'.
Proof.
  intros Hs H1 H2. apply list_elem_of_split in H1 as (l1 & l2 & ->).
  apply osorted_app in Hs as (_ & [Hf _]%osorted_cons & Hx). rewrite Forall_forall in Hf.
  apply elem_of_app in H2 as [H2|[[= <-]|H2]%elem_of_cons]; [|done|].
  - specialize (Hx _ (k, v) H2 ltac:(left)). by apply klt_irrefl in Hx.
  - apply Hf in H2. by apply klt_irrefl in H2.
Qed.
End ordmap.

(** ** The persistent map of the [rpds] crate *)

Class RbMap := {
  rb : Type -> Type;
  rb_items {V} : rb V -> ordmap Z V;
  rb_default {V} : rb V;
  rb_insert_mut {V} : Z -> V -> rb V -> rb V;
  rb_remove_mut {V} : Z -> rb V -> rb V;
  rb_range_to {V} : Z -> rb V -> ordmap Z V;
  rb_range {V} : Z -> Z -> rb V -> ordmap Z V
}.

(** Documented behaviour: a map whose iterators yield the entries in key order. *)
Class RbMapLaws `{!RbMap} := {
  rb_items_sorted {V} (m : rb V) : osorted (rb_items m);
  rb_items_default {V} : rb_items (rb_default (V := V)) = [];
  rb_items_insert {V} k (v : V) m : rb_items (rb_insert_mut k v m) = oinsert k v (rb_items m);
  rb_items_remove {V} k (m : rb V) : rb_items (rb_remove_mut k m) = oremove k (rb_items m);
  rb_range_to_items {V} k (m : rb V) : rb_range_to k m = orange_to k (rb_items m);
  rb_range_items {V} a b (m : rb V) : rb_range a b m = orange a b (rb_items m)
}.

(** The sorted association list implements it. *)
Definition sorted_list (V : Type) : Type := { m : ordmap Z V | osorted m }.

Lemma osorted_empty {V} : osorted ([] : ordmap Z V).
Proof. constructor. Qed.

#[export] Instance sorted_rb : RbMap | 10 := {|
  rb := sorted_list;
  rb_items V m := proj1_sig m;
  rb_default V := exist _ [] osorted_empty;
  rb_insert_mut V k v m := exist _ (oinsert k v (proj1_sig m)) (oinsert_sorted k v _ (proj2_sig m));
  rb_remove_mut V k m := exist _ (oremove k (proj1_sig m)) (osorted_filter _ _ (proj2_sig m));
  rb_range_to V k m := orange_to k (proj1_sig m);
  rb_range V a b m := orange a b (proj1_sig m)
|}.

#[export] Instance sorted_rb_laws : RbMapLaws | 10.
Proof. split; try done. intros V [m Hm]. exact Hm. Qed.
