(* ===== verification/LayerCoverage.v ===== *)
(** * Layer coverage ([pageserver/src/tenant/layer_map])

    [layer_coverage.rs]: which layer is the latest at each key, as a map of the
    keys where the answer changes; [historic_layer_coverage.rs]: the coverage as it
    was at every LSN, and its rebuild after layers are inserted or removed in the
    past.  A key is its 128-bit integer, an LSN a [u64].  The persistent tree of the
    [rpds] crate is the interface [RbMap]. *)

From S2P Require Import Prelude Lsn Key OrdMap.

(** ** [layer_coverage.rs] *)

Section coverage.
Context `{!RbMap} {Value : Type}.

(** At every change of coverage the end LSN and the layer, or nothing. *)
Record LayerCoverage := mkLayerCoverage { nodes : rb (option (Z * Value)) }.

Definition coverage_new : LayerCoverage := mkLayerCoverage rb_default.

Definition add_node (key : Z) (self : LayerCoverage) : LayerCoverage :=
  let value :=
    match last (rb_range_to key (nodes self)) with
    | Some (_, Some v) => Some v
    | Some (_, None) => None
    | None => None
    end in
  mkLayerCoverage (rb_insert_mut key value (nodes self)).

(** The loop over the nodes of the key range: the keys to update and to remove. *)
Fixpoint cover_scan (lsn_end : Z) (prev_covered : bool) (l : ordmap Z (option (Z * Value))) :
    list Z * list Z :=
  match l with
  | [] => ([], [])
  | (k, node) :: l =>
      let needs_cover := match node with None => true | Some (h, _) => bool_decide (h < lsn_end) end in
      let '(to_update, to_remove) := cover_scan lsn_end needs_cover l in
      if needs_cover then
        if prev_covered then (to_update, k :: to_remove) else (k :: to_update, to_remove)
      else (to_update, to_remove)
  end.

Definition coverage_insert (key lsn : Range Z) (value : Value) (self : LayerCoverage) : LayerCoverage :=
  let self := add_node (start key) self in
  let self := add_node (end_ key) self in
  let '(to_update, to_remove) :=
    cover_scan (end_ lsn) false (rb_range (start key) (end_ key) (nodes self)) in
  let m := fold_left (fun m k => rb_insert_mut k (Some (end_ lsn, value)) m) to_update (nodes self) in
  mkLayerCoverage (fold_left (fun m k => rb_remove_mut k m) to_remove m).

Definition coverage_query (key : Z) (self : LayerCoverage) : option Value :=
  e ← last (rb_range_to key (nodes self)); snd <$> e.2.

Definition coverage_range (key : Range Z) (self : LayerCoverage) : list (Z * option Value) :=
  map (fun e => (e.1, snd <$> e.2)) (rb_range (start key) (end_ key) (nodes self)).

Definition coverage_range_overlaps `{!EqDecision Value} (key_range : Range Z) (self : LayerCoverage) :
    list (Z * option Value) :=
  let range_coverage := coverage_range (mkRange (start key_range) (end_ key_range)) self in
  match coverage_query (start key_range) self with
  | Some change =>
      let range_coverage :=
        match range_coverage with
        | c :: rest => if decide (c.2 = Some change) then rest else range_coverage
        | [] => []
        end in
      (start key_range, Some change) :: range_coverage
  | None => range_coverage
  end.

Record LayerCoverageTuple := mkLayerCoverageTuple {
  image_coverage : LayerCoverage; delta_coverage : LayerCoverage
}.

Definition tuple_default : LayerCoverageTuple := mkLayerCoverageTuple coverage_new coverage_new.
End coverage.
Arguments LayerCoverage {_} Value.
Arguments LayerCoverageTuple {_} Value.

(** ** [historic_layer_coverage.rs] *)

Record LayerKey := mkLayerKey { lk_key : Range Z; lk_lsn : Range Z; lk_is_image : bool }.

(** The order of layer keys: by [lsn.start], [lsn.end], [key.start], [key.end] and
    [is_image]. *)
Definition lk_fields (k : LayerKey) : list Z :=
  [start (lk_lsn k); end_ (lk_lsn k); start (lk_key k); end_ (lk_key k);
   if lk_is_image k then 1 else 0].

Lemma lex_cmp_eq a b : length a = length b -> lex_cmp a b = Eq <-> a = b.
Proof.
  revert b. induction a as [|x a IH]; intros [|y b] Hl; try done. injection Hl as Hl. cbn [lex_cmp].
  destruct (Z.compare_spec x y) as [->|H|H].
  - rewrite IH by done. naive_solver.
  - split; [done|]. intros [= -> _]. lia.
  - split; [done|]. intros [= -> _]. lia.
Qed.

Lemma lex_cmp_antisym a b : lex_cmp b a = CompOpp (lex_cmp a b).
Proof.
  revert b. induction a as [|x a IH]; intros [|y b]; try done. cbn [lex_cmp].
  rewrite (Z.compare_antisym x y). destruct (x ?= y); [apply IH|done|done].
Qed.

Lemma lex_cmp_trans a b c : lex_cmp a b = Lt -> lex_cmp b c = Lt -> lex_cmp a c = Lt.
Proof.
  revert b c. induction a as [|x a IH]; intros [|y b] [|z c]; try done. cbn [lex_cmp].
  intros H1 H2. destruct (Z.compare_spec x z), (Z.compare_spec x y), (Z.compare_spec y z); try done; try lia.
  by eapply IH.
Qed.

#[global] Instance LayerKey_order : Order LayerKey.
Proof.
  refine {| kcmp a b := lex_cmp (lk_fields a) (lk_fields b) |}.
  - intros [[a b] [c d] i] [[a' b'] [c' d'] i']. rewrite lex_cmp_eq by done. unfold lk_fields. cbn.
    destruct i, i'; naive_solver.
  - intros a b. apply lex_cmp_antisym.
  - intros a b c. apply lex_cmp_trans.
Defined.

#[global] Instance Key_order : Order Key.
Proof.
  refine {| kcmp := key_cmp |}.
  - intros a b. unfold key_cmp. rewrite lex_cmp_eq by done. destruct a, b. unfold key_fields. cbn. split; congruence.
  - intros a b. apply lex_cmp_antisym.
  - intros a b c. apply lex_cmp_trans.
Defined.

Section historic.
Context `{!RbMap} {Value : Type}.

Record HistoricLayerCoverage := mkHistoric {
  hl_head : LayerCoverageTuple Value;
  hl_historic : ordmap Z (LayerCoverageTuple Value)
}.

Definition historic_new : HistoricLayerCoverage := mkHistoric tuple_default [].

(** The insertion into the head. *)
Definition tuple_insert (layer_key : LayerKey) (value : Value) (t : LayerCoverageTuple Value) :
    LayerCoverageTuple Value :=
  if lk_is_image layer_key
  then mkLayerCoverageTuple (coverage_insert (lk_key layer_key) (lk_lsn layer_key) value (image_coverage t))
                            (delta_coverage t)
  else mkLayerCoverageTuple (image_coverage t)
                            (coverage_insert (lk_key layer_key) (lk_lsn layer_key) value (delta_coverage t)).

(** [None] is the panic on a retroactive insert. *)
Definition historic_insert (layer_key : LayerKey) (value : Value) (self : HistoricLayerCoverage) :
    option HistoricLayerCoverage :=
  let retroactive :=
    match last (hl_historic self) with
    | Some (last_lsn, _) => bool_decide (start (lk_lsn layer_key) < last_lsn)
    | None => false
    end in
  if retroactive then None else
  let head := tuple_insert layer_key value (hl_head self) in
  Some (mkHistoric head (oinsert (start (lk_lsn layer_key)) head (hl_historic self))).

Definition get_version (lsn : Z) (self : HistoricLayerCoverage) : option (LayerCoverageTuple Value) :=
  snd <$> last (orange_to lsn (hl_historic self)).

Definition historic_trim (begin : Z) (self : HistoricLayerCoverage) : HistoricLayerCoverage :=
  let historic := osplit_off begin (hl_historic self) in
  mkHistoric (default tuple_default (snd <$> last historic)) historic.

(** ** [BufferedHistoricLayerCoverage] *)

Record Buffered := mkBuffered {
  bh_historic_coverage : HistoricLayerCoverage;
  bh_buffer : ordmap LayerKey (option Value);
  bh_layers : ordmap LayerKey Value
}.

Definition buffered_new : Buffered := mkBuffered historic_new [] [].

Definition buffered_insert (layer_key : LayerKey) (value : Value) (self : Buffered) : Buffered :=
  mkBuffered (bh_historic_coverage self) (oinsert layer_key (Some value) (bh_buffer self)) (bh_layers self).

Definition buffered_remove (layer_key : LayerKey) (self : Buffered) : Buffered :=
  mkBuffered (bh_historic_coverage self) (oinsert layer_key None (bh_buffer self)) (bh_layers self).

(** Buffered updates applied to the layers, in key order. *)
Definition apply_update (layers : ordmap LayerKey Value) (u : LayerKey * option Value) : ordmap LayerKey Value :=
  match u.2 with
  | Some l => oinsert u.1 l layers
  | None => oremove u.1 layers
  end.

Fixpoint historic_inserts (l : ordmap LayerKey Value) (h : HistoricLayerCoverage) : option HistoricLayerCoverage :=
  match l with
  | [] => Some h
  | (layer_key, layer) :: l => h ← historic_insert layer_key layer h; historic_inserts l h
  end.

Definition buffered_rebuild (self : Buffered) : option Buffered :=
  match bh_buffer self with
  | [] => Some self
  | (first, _) :: _ =>
      let rebuild_since := start (lk_lsn first) in
      let layers := fold_left apply_update (bh_buffer self) (bh_layers self) in
      h ← historic_inserts
            (orange_from (mkLayerKey (mkRange 0 0) (mkRange rebuild_since 0) false) layers)
            (historic_trim rebuild_since (bh_historic_coverage self));
      Some (mkBuffered h [] layers)
  end.

(** [get] is an error, and [iter] a panic, while updates are buffered. *)
Definition buffered_get (self : Buffered) : option HistoricLayerCoverage :=
  match bh_buffer self with [] => Some (bh_historic_coverage self) | _ => None end.

Definition buffered_iter (self : Buffered) : option (list Value) :=
  match bh_buffer self with [] => Some (bh_layers self).*2 | _ => None end.
End historic.
Arguments HistoricLayerCoverage {_} Value.
Arguments Buffered {_} Value.
