(* ===== verification/LayerCoverageFacts.v ===== *)
(** * Properties of the layer coverage

    The coverage answers as a scan of all layers would; every historic version does
    so for the layers that start at or below its LSN; and rebuilding after buffered
    updates never panics and restores that. *)

From S2P Require Import Prelude Lsn Key OrdMap LayerCoverage.

(** ** The value at a key *)

(** The value of the last entry at or below a key. *)
Definition floor_from {V} (k : Z) (d : V) (l : ordmap Z V) : V :=
  fold_left (fun d e => if decide (e.1 <= k) then e.2 else d) l d.

Lemma floor_from_app {V} k (d : V) l1 l2 : floor_from k d (l1 ++ l2) = floor_from k (floor_from k d l1) l2.
Proof. apply fold_left_app. Qed.

Lemma floor_from_above {V} k (d : V) l : Forall (fun e => k < e.1) l -> floor_from k d l = d.
Proof.
  revert d. induction l as [|e l IH]; intros d H; [done|]. apply Forall_cons in H as [He Hl].
  cbn. rewrite decide_False by lia. by apply IH.
Qed.

Lemma floor_from_cons {V} k (d : V) a v l : a <= k -> floor_from k d ((a, v) :: l) = floor_from k v l.
Proof. intros H. unfold floor_from. cbn [fold_left fst snd]. by rewrite decide_True. Qed.

(** Below two keys alike: the same value. *)
Lemma floor_from_below {V} k k' (d : V) l :
  Forall (fun e => e.1 <= k /\ e.1 <= k') l -> floor_from k d l = floor_from k' d l.
Proof.
  revert d. induction l as [|e l IH]; intros d H; [done|]. apply Forall_cons in H as [[H1 H2] Hl].
  cbn. rewrite !decide_True by done. by apply IH.
Qed.

Lemma Z_kle a b : kle a b <-> a <= b.
Proof. unfold kle. cbn. rewrite Z.compare_gt_iff. lia. Qed.

Lemma Z_klt a b : klt a b <-> a < b.
Proof. apply Z.compare_lt_iff. Qed.

(** Comparisons of integer keys as those of [Z]. *)
Ltac z_order := cbn [fst snd] in *;
  repeat match goal with
         | H : context [@klt Z _ ?a ?b] |- _ => change (@klt Z _ a b) with (a < b) in H
         | H : context [@kle Z _ ?a ?b] |- _ => change (@kle Z _ a b) with (a <= b) in H
         | |- context [@klt Z _ ?a ?b] => change (@klt Z _ a b) with (a < b)
         | |- context [@kle Z _ ?a ?b] => change (@kle Z _ a b) with (a <= b)
         end.

Lemma last_range_to {V} k (l : ordmap Z V) (d : V) :
  match last (orange_to k l) with Some (_, n) => n | None => d end = floor_from k d l.
Proof.
  unfold orange_to. revert d. induction l as [|[k' n] l IH]; intros d; [done|].
  rewrite filter_cons. unfold floor_from in *. cbn [fst snd fold_left].
  destruct (decide (k' <= k)) as [H|H].
  - rewrite decide_True by by apply Z_kle. rewrite <- IH.
    destruct (filter _ l) as [|x l'] eqn:E; [done|]. rewrite last_cons_cons.
    destruct (last (x :: l')) as [[? ?]|] eqn:El; [done|]. by apply last_None in El.
  - rewrite decide_False by by rewrite Z_kle. apply IH.
Qed.

(** An entry of a sorted map splits it; so does the place of a missing one. *)
Lemma oinsert_split {V} k (v : V) (l : ordmap Z V) :
  osorted l -> exists l1 mid l2, l = l1 ++ mid ++ l2 /\ oinsert k v l = l1 ++ (k, v) :: l2
  /\ Forall (fun e => e.1 < k) l1 /\ Forall (fun e => e.1 = k) mid /\ Forall (fun e => k < e.1) l2.
Proof.
  induction l as [|[k' v'] l IH]; intros Hs.
  - exists [], [], []. by rewrite !Forall_nil.
  - pose proof Hs as [Hf Hl]%osorted_cons. cbn [oinsert].
    assert (Forall (fun e => k' < e.1) l) as Hf'.
    { eapply Forall_impl; [exact Hf|]. intros e. by rewrite Z_klt. }
    destruct (kcmp k k') eqn:E.
    + apply kcmp_eq in E as ->. exists [], [(k', v')], l. rewrite Forall_cons, !Forall_nil. done.
    + change (k < k') in E. exists [], [], ((k', v') :: l). rewrite !Forall_nil. split_and!; try done.
      constructor; [done|]. eapply Forall_impl; [exact Hf'|]. cbn. lia.
    + destruct (IH Hl) as (l1 & mid & l2 & -> & -> & H1 & Hm & H2).
      exists ((k', v') :: l1), mid, l2. split_and!; try done. constructor; [|done].
      cbn in E. apply Z.compare_gt_iff in E. cbn. lia.
Qed.

(** The three parts of a sorted map at the bounds of a range. *)
Lemma range_split {V} (l : ordmap Z V) a b :
  osorted l -> a <= b -> l = osplit_off a l ++ orange a b l ++ orange_from b l.
Proof.
  intros Hs Hab. assert (forall l' : ordmap Z V, (forall e, e ∈ l' -> a <= e.1) -> osorted l' ->
    osorted (osplit_off a l ++ l')) as Ha.
  { intros l' Hl' Hs'. apply osorted_app. split_and!; [by apply osorted_filter|done|].
    intros x y [Hx _]%list_elem_of_filter Hy%Hl'. z_order. lia. }
  apply osorted_ext; [done|apply Ha|].
  - intros e [He|He]%elem_of_app; apply list_elem_of_filter in He as [He ?];
      z_order; lia.
  - apply osorted_app. split_and!; [by apply osorted_filter|by apply osorted_filter|].
    intros x y [[_ Hx] _]%list_elem_of_filter [Hy _]%list_elem_of_filter.
    z_order. lia.
  - intros e. rewrite !elem_of_app. unfold osplit_off, orange, orange_from.
    rewrite !list_elem_of_filter, !Z_kle, !Z_klt.
    assert (e.1 < a \/ (a <= e.1 /\ e.1 < b) \/ b <= e.1) by lia. tauto.
Qed.

(** A sorted map whose keys are at or above one of them starts with it. *)
Lemma osorted_head {V} (l : ordmap Z V) a v :
  osorted l -> (a, v) ∈ l -> Forall (fun e => a <= e.1) l -> exists l', l = (a, v) :: l'.
Proof.
  intros Hs Hin Hf. destruct l as [|[k n] l]; [by apply not_elem_of_nil in Hin|].
  apply Forall_cons in Hf as [Hk _]. apply osorted_cons in Hs as [Hf _]. rewrite Forall_forall in Hf.
  apply elem_of_cons in Hin as [[= -> ->]|Hin]; [eauto|]. apply Hf in Hin. cbn in *. z_order. lia.
Qed.

(** Within a range, the value is determined by the value at its start and the
    entries in the range. *)
Lemma floor_in_range {V} (l : ordmap Z V) s e k d :
  osorted l -> s <= k < e -> floor_from k d l = floor_from k (floor_from s d l) (orange s e l).
Proof.
  intros Hs Hk. rewrite (range_split l s e) at 1 by (done || lia). rewrite !floor_from_app.
  rewrite (floor_from_above _ _ (orange_from e l)).
  2: { apply Forall_forall. intros x [Hx _]%list_elem_of_filter. z_order. lia. }
  assert (floor_from s d l = floor_from s (floor_from s d (osplit_off s l)) (orange s e l)) as ->.
  { rewrite (range_split l s e) at 1 by (done || lia). rewrite !floor_from_app.
    rewrite (floor_from_above _ _ (orange_from e l)); [done|].
    apply Forall_forall. intros x [Hx _]%list_elem_of_filter. z_order. lia. }
  assert (floor_from k d (osplit_off s l) = floor_from s d (osplit_off s l)) as ->.
  { apply floor_from_below, Forall_forall. intros x [Hx _]%list_elem_of_filter. z_order. lia. }
  assert (osorted (orange s e l)) as Ho by by apply osorted_filter.
  destruct (orange s e l) as [|[k' v] r] eqn:Eo; [done|].
  assert (s <= k' < e) as Hk'.
  { assert ((k', v) ∈ orange s e l) as [[H1 H2] _]%list_elem_of_filter by (rewrite Eo; left). z_order. lia. }
  apply osorted_cons in Ho as [Hf _].
  assert (Forall (fun x => k' < x.1) r) as Hf'.
  { eapply Forall_impl; [exact Hf|]. intros x Hx. z_order. lia. }
  destruct (decide (k' = s)) as [->|Hne].
  - by rewrite !floor_from_cons by lia.
  - rewrite (floor_from_above s _ ((k', v) :: r)); [done|]. constructor; [cbn; lia|].
    eapply Forall_impl; [exact Hf'|]. cbn. lia.
Qed.

Lemma floor_from_elem {V} (l : ordmap Z V) k v d : osorted l -> (k, v) ∈ l -> floor_from k d l = v.
Proof.
  intros Hs Hin. apply list_elem_of_split in Hin as (l1 & l2 & ->).
  apply osorted_app in Hs as (_ & [Hf _]%osorted_cons & _).
  rewrite floor_from_app, floor_from_cons by lia. apply floor_from_above.
  eapply Forall_impl; [exact Hf|]. intros x Hx. z_order. lia.
Qed.

(** The value is the given one or that of an entry. *)
Lemma floor_from_cases {V} k d (l : ordmap Z V) : floor_from k d l = d \/ exists k', (k', floor_from k d l) ∈ l.
Proof.
  unfold floor_from. revert d. induction l as [|[k' v] l IH]; intros d; [auto|]. cbn [fold_left fst snd].
  destruct (decide (k' <= k)).
  - right. destruct (IH v) as [->|[k2 H2]]; [exists k'; left|exists k2; by right].
  - destruct (IH d) as [->|[k2 H2]]; [by left|right; exists k2; by right].
Qed.

Lemma floor_from_map {V W} (f : V -> W) k d (l : ordmap Z V) :
  floor_from k (f d) (map (fun e => (e.1, f e.2)) l) = f (floor_from k d l).
Proof.
  unfold floor_from. revert d. induction l as [|[k' v] l IH]; intros d; [done|].
  cbn [map fold_left fst snd]. by destruct (decide (k' <= k)).
Qed.

Lemma osorted_map {V W} (f : V -> W) (l : ordmap Z V) : osorted l -> osorted (map (fun e => (e.1, f e.2)) l).
Proof.
  induction l as [|[k v] l IH]; [constructor|]. intros [Hf Hs]%osorted_cons. cbn [map fst snd]. apply osorted_cons.
  split; [|auto]. apply Forall_map. eapply Forall_impl; [exact Hf|done].
Qed.

Section coverage.
Context `{!RbMap, !RbMapLaws} {Value : Type}.
Implicit Types (c : LayerCoverage Value) (l : ordmap Z (option (Z * Value))).

(** End LSN and layer at a key. *)
Definition at_key c (k : Z) : option (Z * Value) := floor_from k None (rb_items (nodes c)).

Lemma coverage_query_at c k : coverage_query k c = snd <$> at_key c k.
Proof.
  unfold coverage_query, at_key. rewrite rb_range_to_items, <- last_range_to.
  by destruct (last _) as [[? [[? ?]|]]|].
Qed.

Lemma at_key_new k : at_key coverage_new k = None.
Proof. unfold at_key. cbn. by rewrite rb_items_default. Qed.

(** Adding a node changes no value. *)
Lemma add_node_at c k k' : at_key (add_node k c) k' = at_key c k'.
Proof.
  unfold at_key, add_node. cbn [nodes]. rewrite rb_items_insert, rb_range_to_items.
  set (l := rb_items (nodes c)).
  assert (match last (orange_to k l) with
          | Some (_, Some v) => Some v | Some (_, None) => None | None => None end = floor_from k None l) as ->.
  { rewrite <- last_range_to. by destruct (last _) as [[? [?|]]|]. }
  destruct (oinsert_split k (floor_from k None l) l (rb_items_sorted _)) as (l1 & mid & l2 & El & -> & H1 & Hm & H2).
  rewrite El, !floor_from_app. cbn [floor_from fold_left fst snd].
  change (fold_left _ l2 ?d) with (floor_from k' d l2). destruct (decide (k <= k')) as [Hk|Hk].
  - f_equal. rewrite (floor_from_above k _ l2) by done.
    rewrite (floor_from_below k k' _ l1), (floor_from_below k k' _ mid); [done|..];
      (eapply Forall_impl; [eassumption|]; cbn; lia).
  - assert (Forall (fun e => k' < e.1) mid) by (eapply Forall_impl; [exact Hm|]; cbn; lia).
    by rewrite (floor_from_above k' _ mid).
Qed.

Lemma add_node_key c k k' v :
  (k', v) ∈ rb_items (nodes c) -> exists v', (k', v') ∈ rb_items (nodes (add_node k c)).
Proof.
  intros Hin. unfold add_node. cbn [nodes]. rewrite rb_items_insert.
  destruct (decide (k' = k)) as [->|Hne].
  - eexists. apply elem_of_oinsert; [apply rb_items_sorted|]. by left.
  - exists v. apply elem_of_oinsert; [apply rb_items_sorted|]. by right.
Qed.

Lemma add_node_self c k : exists v, (k, v) ∈ rb_items (nodes (add_node k c)).
Proof.
  unfold add_node. cbn [nodes]. rewrite rb_items_insert. eexists.
  apply elem_of_oinsert; [apply rb_items_sorted|]. by left.
Qed.

(** ** Insertion *)

Definition needs_cover (lsn_end : Z) (n : option (Z * Value)) : bool :=
  match n with None => true | Some (h, _) => bool_decide (h < lsn_end) end.

(** What an insertion makes of a value within its key range. *)
Definition lift_node (lsn_end : Z) (v : Value) (n : option (Z * Value)) : option (Z * Value) :=
  if needs_cover lsn_end n then Some (lsn_end, v) else n.

(** The nodes of the key range after the insertion. *)
Fixpoint cover (lsn_end : Z) (v : Value) (prev : bool) l : ordmap Z (option (Z * Value)) :=
  match l with
  | [] => []
  | (k, n) :: l =>
      if needs_cover lsn_end n then
        if prev then cover lsn_end v true l else (k, Some (lsn_end, v)) :: cover lsn_end v true l
      else (k, n) :: cover lsn_end v false l
  end.

Lemma cover_keys lsn_end v prev l e : e ∈ cover lsn_end v prev l -> exists n, (e.1, n) ∈ l.
Proof.
  revert prev. induction l as [|[k n] l IH]; intros prev; cbn [cover]; [by intros ?%not_elem_of_nil|].
  destruct (needs_cover lsn_end n), prev; rewrite ?elem_of_cons;
    set_solver.
Qed.

Lemma cover_sorted lsn_end v prev l : osorted l -> osorted (cover lsn_end v prev l).
Proof.
  revert prev. induction l as [|[k n] l IH]; intros prev; cbn [cover]; [done|].
  intros [Hf Hs]%osorted_cons. rewrite Forall_forall in Hf.
  assert (forall p, Forall (fun e => klt k e.1) (cover lsn_end v p l)) as Hc.
  { intros p. apply Forall_forall. intros e [m Hm]%cover_keys. by apply Hf in Hm. }
  destruct (needs_cover lsn_end n), prev; auto; apply osorted_cons; auto.
Qed.

(** Every value in the range is lifted; [d] is the value before the first node. *)
Lemma cover_floor lsn_end v l k d :
  osorted l ->
  floor_from k (lift_node lsn_end v d) (cover lsn_end v (needs_cover lsn_end d) l)
  = lift_node lsn_end v (floor_from k d l).
Proof.
  revert d. induction l as [|[k' n] l IH]; intros d Hs; [done|].
  pose proof Hs as [Hf Hl]%osorted_cons. destruct (decide (k' <= k)) as [Hk|Hk].
  - assert (floor_from k d ((k', n) :: l) = floor_from k n l) as ->.
    { unfold floor_from. cbn [fold_left fst snd]. by rewrite decide_True. }
    rewrite <- IH by done. cbn [cover]. unfold lift_node at 1 2.
    destruct (needs_cover lsn_end n) eqn:En, (needs_cover lsn_end d); try done;
      unfold floor_from; cbn [fold_left fst snd]; by rewrite decide_True.
  - assert (Forall (fun e => k < e.1) ((k', n) :: l)) as Hab.
    { constructor; [cbn; lia|]. eapply Forall_impl; [exact Hf|]. intros e He. change (k' < e.1) in He. lia. }
    rewrite (floor_from_above k d) by done. apply floor_from_above, Forall_forall.
    intros e [m Hm]%cover_keys. rewrite Forall_forall in Hab. by apply Hab in Hm.
Qed.

(** The scan lists the keys that [cover] overwrites and drops. *)
Lemma cover_scan_spec lsn_end v prev l upd rem :
  osorted l -> cover_scan lsn_end prev l = (upd, rem) ->
  (forall k, k ∈ upd \/ k ∈ rem -> exists n, (k, n) ∈ l)
  /\ forall e, (e ∈ cover lsn_end v prev l)
       <-> (e.1 ∈ upd /\ e.2 = Some (lsn_end, v) \/ (e.1 ∉ upd) /\ e ∈ l) /\ e.1 ∉ rem.
Proof.
  revert prev upd rem. induction l as [|[k n] l IH]; intros prev upd rem Hs; cbn [cover_scan cover].
  { intros [= <- <-]. set_solver. }
  pose proof Hs as [Hf Hl]%osorted_cons. rewrite Forall_forall in Hf.
  change (match n with None => true | Some (h, _) => bool_decide (h < lsn_end) end) with (needs_cover lsn_end n).
  destruct (cover_scan lsn_end (needs_cover lsn_end n) l) as [upd0 rem0] eqn:E.
  destruct (IH _ _ _ Hl E) as [Hin Hc].
  assert ((k ∉ upd0) /\ (k ∉ rem0)) as [Hku Hkr].
  { split; intros Hk; (destruct (Hin k) as [m Hm]; [auto|]); apply Hf in Hm; by apply klt_irrefl in Hm. }
  assert (forall e, e ∈ l -> e.1 <> k) as Hne.
  { intros e He <-. apply Hf in He. by apply klt_irrefl in He. }
  destruct (needs_cover lsn_end n); [destruct prev|]; intros [= <- <-]; (split; [set_solver|]); intros [k' n'];
    specialize (Hne (k', n')); rewrite ?elem_of_cons, Hc, ?elem_of_cons; cbn [fst snd] in *;
    (destruct (decide (k' = k)) as [->|]; [naive_solver|intuition congruence]).
Qed.

Lemma elem_of_fold_insert {V} ks (v : V) (m : rb V) e :
  (e ∈ rb_items (fold_left (fun m k => rb_insert_mut k v m) ks m))
  <-> e.1 ∈ ks /\ e.2 = v \/ (e.1 ∉ ks) /\ e ∈ rb_items m.
Proof.
  revert m. induction ks as [|k ks IH]; intros m; cbn [fold_left]; [set_solver|].
  rewrite IH, rb_items_insert, elem_of_oinsert by apply rb_items_sorted. destruct e as [k' n]. cbn [fst snd].
  rewrite elem_of_cons. destruct (decide (k' ∈ ks)); naive_solver.
Qed.

Lemma elem_of_fold_remove {V} ks (m : rb V) e :
  (e ∈ rb_items (fold_left (fun m k => rb_remove_mut k m) ks m)) <-> e ∈ rb_items m /\ e.1 ∉ ks.
Proof.
  revert m. induction ks as [|k ks IH]; intros m; cbn [fold_left]; [set_solver|].
  rewrite IH, rb_items_remove. unfold oremove. rewrite list_elem_of_filter, not_elem_of_cons. tauto.
Qed.

Lemma insert_items key lsn v c :
  start key <= end_ key ->
  let l := rb_items (nodes (add_node (end_ key) (add_node (start key) c))) in
  rb_items (nodes (coverage_insert key lsn v c))
  = osplit_off (start key) l ++ cover (end_ lsn) v false (orange (start key) (end_ key) l) ++ orange_from (end_ key) l.
Proof.
  intros Hk l. unfold coverage_insert.
  set (m := nodes (add_node _ _)) in l |- *. rewrite rb_range_items. fold l.
  assert (osorted l) as Hl by apply rb_items_sorted.
  destruct (cover_scan _ _ _) as [upd rem] eqn:E. cbn [nodes].
  destruct (cover_scan_spec _ v _ _ _ _ (osorted_filter _ _ Hl) E) as [Hin Hc].
  assert (forall e, e ∈ cover (end_ lsn) v false (orange (start key) (end_ key) l) -> start key <= e.1 < end_ key) as Hr.
  { intros e [n [[H1 H2] _]%list_elem_of_filter]%cover_keys. z_order. lia. }
  apply osorted_ext; [apply rb_items_sorted|..].
  - rewrite !osorted_app. split_and!; try by repeat apply osorted_filter.
    + apply cover_sorted. by apply osorted_filter.
    + intros x y Hx%Hr [Hy _]%list_elem_of_filter. z_order. lia.
    + intros x y [Hx _]%list_elem_of_filter. intros [Hy%Hr|[Hy _]%list_elem_of_filter]%elem_of_app;
        z_order; lia.
  - intros e. rewrite elem_of_fold_remove, elem_of_fold_insert. fold l. rewrite !elem_of_app, Hc.
    unfold osplit_off, orange, orange_from. rewrite !list_elem_of_filter, !Z_kle, !Z_klt.
    assert (e.1 < start key \/ (start key <= e.1 /\ e.1 < end_ key) \/ end_ key <= e.1) by lia.
    assert (e.1 ∈ upd \/ e.1 ∈ rem -> start key <= e.1 /\ e.1 < end_ key).
    { intros [n [[Hu1 Hu2] _]%list_elem_of_filter]%Hin. done. }
    assert (~ (e.1 < start key /\ start key <= e.1)) by lia.
    assert (~ (e.1 < end_ key /\ end_ key <= e.1)) by lia. tauto.
Qed.

(** An insertion raises the coverage within its key range and nothing else. *)
Lemma coverage_insert_at key lsn v c k :
  start key < end_ key ->
  at_key (coverage_insert key lsn v c) k
  = if decide (start key <= k < end_ key) then lift_node (end_ lsn) v (at_key c k) else at_key c k.
Proof.
  intros Hk. rewrite <- (add_node_at c (start key) k), <- (add_node_at (add_node _ c) (end_ key) k).
  unfold at_key at 1. rewrite insert_items by lia.
  destruct (add_node_self c (start key)) as [va [va' Ha]%(add_node_key _ (end_ key))].
  destruct (add_node_self (add_node (start key) c) (end_ key)) as [vb Hb]. unfold at_key.
  set (l := rb_items (nodes (add_node (end_ key) _))) in *.
  assert (osorted l) as Hl by apply rb_items_sorted.
  assert (floor_from k None l = floor_from k None (osplit_off (start key) l
    ++ orange (start key) (end_ key) l ++ orange_from (end_ key) l)) as ->
    by (f_equal; apply range_split; (done || lia)).
  destruct (osorted_head (orange (start key) (end_ key) l) (start key) va') as [R ER];
    [by apply osorted_filter|..].
  { apply list_elem_of_filter. split; [|done]. cbn. z_order. lia. }
  { apply Forall_forall. intros e [[He _] _]%list_elem_of_filter. done. }
  destruct (osorted_head (orange_from (end_ key) l) (end_ key) vb) as [B EB];
    [by apply osorted_filter|..].
  { apply list_elem_of_filter. split; [|done]. z_order. lia. }
  { apply Forall_forall. intros e [He _]%list_elem_of_filter. done. }
  rewrite !floor_from_app. destruct (decide (start key <= k < end_ key)) as [Hin|Hout].
  - rewrite !(floor_from_above _ _ (orange_from _ l)).
    2,3: apply Forall_forall; intros e [He _]%list_elem_of_filter; z_order; lia.
    assert (osorted (orange (start key) (end_ key) l)) as HR by (apply osorted_filter; done).
    rewrite ER in HR. apply osorted_cons in HR as [_ HR].
    rewrite ER, (floor_from_cons k _ (start key) va' R), <- cover_floor by (done || lia).
    cbn [cover]. unfold lift_node. destruct (needs_cover _ va') eqn:En; rewrite floor_from_cons by lia; by rewrite ?En.
  - destruct (decide (end_ key <= k)) as [Hk2|Hk2].
    + by rewrite EB, !floor_from_cons by lia.
    + rewrite !(floor_from_above _ _ (orange_from _ l)).
      2,3: apply Forall_forall; intros e [He _]%list_elem_of_filter; z_order; lia.
      rewrite (floor_from_above _ _ (orange _ _ l)), (floor_from_above _ _ (cover _ _ _ _));
        [done|..]; apply Forall_forall.
      * intros e [n [[He _] _]%list_elem_of_filter]%cover_keys. z_order. lia.
      * intros e [[He _] _]%list_elem_of_filter. z_order. lia.
Qed.

Lemma add_node_keys c k e : e ∈ rb_items (nodes (add_node k c)) -> e.1 = k \/ exists n, (e.1, n) ∈ rb_items (nodes c).
Proof.
  unfold add_node. cbn [nodes]. rewrite rb_items_insert. intros [->|[He _]]%elem_of_oinsert; [by left| |apply rb_items_sorted].
  right. exists e.2. by destruct e.
Qed.

(** An insertion adds no nodes but at the ends of its key range. *)
Lemma coverage_insert_keys key lsn v c e :
  start key <= end_ key -> e ∈ rb_items (nodes (coverage_insert key lsn v c)) ->
  e.1 = start key \/ e.1 = end_ key \/ exists n, (e.1, n) ∈ rb_items (nodes c).
Proof.
  intros Hk. rewrite insert_items by done. set (l := rb_items (nodes (add_node (end_ key) _))).
  intros Hin. assert (exists n, (e.1, n) ∈ l) as [n Hn].
  { apply elem_of_app in Hin as [[_ Hin]%list_elem_of_filter|[[n Hin]%cover_keys|[_ Hin]%list_elem_of_filter]%elem_of_app].
    - exists e.2. by destruct e.
    - apply list_elem_of_filter in Hin as [_ Hin]. eauto.
    - exists e.2. by destruct e. }
  apply add_node_keys in Hn as [Hn|[n' Hn]]; [auto|]. apply add_node_keys in Hn as [Hn|[n2 Hn]]; [auto|]. eauto.
Qed.

(** ** Ranges of the coverage *)

Definition within {V} (s e : Z) (l : ordmap Z V) : Prop := osorted l /\ Forall (fun x => s <= x.1 < e) l.

Lemma coverage_range_within s e c : within s e (coverage_range (mkRange s e) c).
Proof.
  unfold coverage_range. cbn [start end_]. rewrite rb_range_items. split.
  - apply osorted_map, osorted_filter, rb_items_sorted.
  - apply Forall_map, Forall_forall. intros x [[Hx1 Hx2] _]%list_elem_of_filter. z_order. lia.
Qed.

(** A query in a range follows from the one at its start and the changes in it. *)
Lemma coverage_range_query s e c k :
  s <= k < e -> coverage_query k c = floor_from k (coverage_query s c) (coverage_range (mkRange s e) c).
Proof.
  intros Hk. rewrite !coverage_query_at. unfold at_key, coverage_range. cbn [start end_]. rewrite rb_range_items.
  rewrite (floor_from_map (fun x => snd <$> x)). f_equal. apply floor_in_range; [apply rb_items_sorted|done].
Qed.

Lemma coverage_overlaps_query `{!EqDecision Value} s e c :
  s < e -> within s e (coverage_range_overlaps (mkRange s e) c)
  /\ forall k, s <= k < e -> floor_from k None (coverage_range_overlaps (mkRange s e) c) = coverage_query k c.
Proof.
  intros Hse. pose proof (coverage_range_within s e c) as [Hs Hf].
  pose proof (fun k => coverage_range_query s e c k) as Hq. unfold coverage_range_overlaps. cbn [start end_].
  destruct (coverage_query s c) as [change|] eqn:Es; [|split; [done|]; intros k Hk; by rewrite Hq].
  destruct (coverage_range (mkRange s e) c) as [|[k1 v1] rest] eqn:Er.
  - split; [split; [by apply osorted_cons|by constructor; [cbn; lia|]]|]. intros k Hk. rewrite Hq by done.
    by rewrite floor_from_cons by lia.
  - apply Forall_cons in Hf as [Hk1 Hrest]. cbn [fst snd] in *. destruct (decide (v1 = Some change)) as [->|Hne].
    + apply osorted_cons in Hs as [Hf' Hs]. split.
      * split; [|by constructor; [cbn; lia|]]. apply osorted_cons. split; [|done].
        eapply Forall_impl; [exact Hf'|]. intros x Hx. z_order. lia.
      * intros k Hk. rewrite Hq, floor_from_cons by lia. unfold floor_from at 2. cbn [fold_left fst snd].
        by destruct (decide (k1 <= k)).
    + assert (s < k1) as Hlt.
      { destruct (decide (k1 = s)) as [->|]; [|lia]. specialize (Hq s ltac:(lia)). rewrite Es in Hq.
        rewrite (floor_from_elem _ s v1) in Hq by (done || left). congruence. }
      split.
      * split; [|by constructor; [cbn; lia|constructor]]. apply osorted_cons. split; [|done].
        constructor; [done|]. apply osorted_cons in Hs as [Hf' _]. eapply Forall_impl; [exact Hf'|].
        intros x Hx. z_order. lia.
      * intros k Hk. rewrite Hq, floor_from_cons by lia. done.
Qed.
End coverage.

(** ** The latest layer at a key *)

Section historic.
Context `{!RbMap, !RbMapLaws} {Value : Type}.
Implicit Types (L : ordmap LayerKey Value) (h : HistoricLayerCoverage Value) (t : LayerCoverageTuple Value).

(** The coverage after inserting layers one by one. *)
Definition build L : LayerCoverageTuple Value :=
  fold_left (fun t e => tuple_insert e.1 e.2 t) L tuple_default.

Definition coverage_of (img : bool) t : LayerCoverage Value :=
  if img then image_coverage t else delta_coverage t.

(** A layer of the kind asked for whose key range has the key. *)
Definition covers (img : bool) (k : Z) (lk : LayerKey) : Prop :=
  lk_is_image lk = img /\ start (lk_key lk) <= k < end_ (lk_key lk).

#[global] Instance covers_dec img k lk : Decision (covers img k lk).
Proof. unfold covers. apply _. Defined.

(** The answer of a scan of all layers: one with the highest end LSN among those
    that have the key, the first inserted if there are several. *)
Definition latest_spec (img : bool) (k : Z) L (r : option Value) : Prop :=
  match r with
  | None => forall e, e ∈ L -> ~ covers img k e.1
  | Some v => exists L1 lk L2, L = L1 ++ (lk, v) :: L2 /\ covers img k lk
      /\ (forall e, e ∈ L1 -> covers img k e.1 -> end_ (lk_lsn e.1) < end_ (lk_lsn lk))
      /\ (forall e, e ∈ L2 -> covers img k e.1 -> end_ (lk_lsn e.1) <= end_ (lk_lsn lk))
  end.

(** Keys of layers: a non-empty key range, and an end LSN above zero. *)
Definition layer_key_ok (lk : LayerKey) : Prop :=
  start (lk_key lk) < end_ (lk_key lk) /\ 0 < end_ (lk_lsn lk).

Lemma build_snoc L e : build (L ++ [e]) = tuple_insert e.1 e.2 (build L).
Proof. unfold build. by rewrite fold_left_app. Qed.

Lemma build_at img k L :
  Forall (fun e => layer_key_ok e.1) L ->
  match at_key (coverage_of img (build L)) k with
  | None => forall e, e ∈ L -> ~ covers img k e.1
  | Some (h, v) => exists L1 lk L2, L = L1 ++ (lk, v) :: L2 /\ covers img k lk /\ end_ (lk_lsn lk) = h
      /\ (forall e, e ∈ L1 -> covers img k e.1 -> end_ (lk_lsn e.1) < h)
      /\ (forall e, e ∈ L2 -> covers img k e.1 -> end_ (lk_lsn e.1) <= h)
  end.
Proof.
  induction L as [|[lk v] L IH] using rev_ind; intros Hok.
  { unfold build, coverage_of. cbn [fold_left].
    destruct img; cbn; rewrite at_key_new; intros e []%not_elem_of_nil. }
  apply Forall_app in Hok as [HL [[Hk _] _]%Forall_cons]. specialize (IH HL). cbn [fst] in Hk.
  rewrite build_snoc. cbn [fst snd].
  assert (at_key (coverage_of img (tuple_insert lk v (build L))) k
    = if decide (covers img k lk) then lift_node (end_ (lk_lsn lk)) v (at_key (coverage_of img (build L)) k)
      else at_key (coverage_of img (build L)) k) as ->.
  { unfold tuple_insert, coverage_of. destruct (lk_is_image lk) eqn:Ei, img; cbn [image_coverage delta_coverage].
    - rewrite coverage_insert_at by done.
      destruct (decide (covers _ _ _)) as [[_ H1]|H1]; [by rewrite decide_True|].
      rewrite decide_False; [done|]. intros H2. by apply H1.
    - rewrite decide_False; [done|]. intros [? _]. congruence.
    - rewrite decide_False; [done|]. intros [? _]. congruence.
    - rewrite coverage_insert_at by done.
      destruct (decide (covers _ _ _)) as [[_ H1]|H1]; [by rewrite decide_True|].
      rewrite decide_False; [done|]. intros H2. by apply H1. }
  destruct (at_key (coverage_of img (build L)) k) as [[h u]|] eqn:E; unfold lift_node, needs_cover.
  - destruct IH as (L1 & lk1 & L2 & -> & Hc & Hh & H1 & H2).
    destruct (decide (covers img k lk)) as [Hcv|Hcv]; [case_bool_decide as Hlt|].
    + exists (L1 ++ (lk1, u) :: L2), lk, []. split_and!; try done; [|by intros e []%not_elem_of_nil].
      intros e [He|[->|He]%elem_of_cons]%elem_of_app Hce.
      * specialize (H1 _ He Hce). lia.
      * cbn. lia.
      * specialize (H2 _ He Hce). lia.
    + exists L1, lk1, (L2 ++ [(lk, v)]). rewrite <- app_assoc. split_and!; try done.
      intros e [He|He%list_elem_of_singleton]%elem_of_app Hce; [by apply H2|]. subst e. cbn. lia.
    + exists L1, lk1, (L2 ++ [(lk, v)]). rewrite <- app_assoc. split_and!; try done.
      intros e [He|He%list_elem_of_singleton]%elem_of_app Hce; [by apply H2|by subst e].
  - destruct (decide (covers img k lk)) as [Hcv|Hcv].
    + exists L, lk, []. split_and!; try done; [|by intros e []%not_elem_of_nil].
      intros e He Hce. by apply IH in He.
    + intros e [He|He%list_elem_of_singleton]%elem_of_app; [by apply IH|by subst e].
Qed.

(** The coverage answers as a scan of all layers does. *)
Lemma build_latest img k L :
  Forall (fun e => layer_key_ok e.1) L ->
  latest_spec img k L (coverage_query k (coverage_of img (build L))).
Proof.
  intros Hb%(build_at img k). rewrite coverage_query_at.
  destruct (at_key _ k) as [[h v]|]; cbn; [|done].
  destruct Hb as (L1 & lk & L2 & ? & ? & <- & ? & ?). by exists L1, lk, L2.
Qed.

(** The nodes of the coverage are at the bounds of layers. *)
Lemma build_keys img L e :
  Forall (fun e => layer_key_ok e.1) L -> e ∈ rb_items (nodes (coverage_of img (build L))) ->
  exists x, x ∈ L /\ (e.1 = start (lk_key x.1) \/ e.1 = end_ (lk_key x.1)).
Proof.
  revert e. induction L as [|[lk v] L IH] using rev_ind; intros e Hok.
  { unfold build, coverage_of. cbn [fold_left]. destruct img; cbn; rewrite rb_items_default; by intros []%not_elem_of_nil. }
  apply Forall_app in Hok as [HL [[Hk _] _]%Forall_cons]. pose proof (fun e => IH e HL) as IH'. clear IH. rename IH' into IH. cbn [fst] in Hk. rewrite build_snoc. cbn [fst snd].
  assert (e ∈ rb_items (nodes (coverage_of img (build L))) -> exists x, x ∈ L ++ [(lk, v)]
    /\ (e.1 = start (lk_key x.1) \/ e.1 = end_ (lk_key x.1))) as Hold.
  { intros (x & Hx & Hb)%IH. exists x. split; [set_solver|done]. }
  assert (e ∈ rb_items (nodes (coverage_insert (lk_key lk) (lk_lsn lk) v (coverage_of img (build L)))) ->
    exists x, x ∈ L ++ [(lk, v)] /\ (e.1 = start (lk_key x.1) \/ e.1 = end_ (lk_key x.1))) as Hnew.
  { intros [Hb|[Hb|[n Hn]]]%coverage_insert_keys; [exists (lk, v)..| |lia].
    1,2: (split; [set_solver|cbn; auto]). apply IH in Hn as (x & Hx & Hb). exists x. split; [set_solver|done]. }
  unfold tuple_insert. destruct (lk_is_image lk), img; cbn [coverage_of image_coverage delta_coverage] in *; auto.
Qed.

(** ** The historic versions *)

(** The order of layer keys starts with the LSN where they start. *)
Lemma klt_lsn_start (a b : LayerKey) : klt a b -> start (lk_lsn a) <= start (lk_lsn b).
Proof.
  unfold klt. cbn. intros Hab. destruct (Z.compare_spec (start (lk_lsn a)) (start (lk_lsn b))); [lia..|done].
Qed.

Definition lsn_start (e : LayerKey * Value) : Z := start (lk_lsn e.1).

Definition upto (lsn : Z) L := filter (fun e => lsn_start e <= lsn) L.

(** For each LSN where a layer starts, the coverage of the layers up to it. *)
Record historic_ok L h : Prop := {
  ho_head : hl_head h = build L;
  ho_sorted : osorted (hl_historic h);
  ho_entries lsn t : (lsn, t) ∈ hl_historic h <-> (exists e, e ∈ L /\ lsn_start e = lsn) /\ t = build (upto lsn L)
}.

Lemma historic_ok_new : historic_ok [] historic_new.
Proof. split; [done|constructor|]. intros lsn t. cbn. set_solver. Qed.

Lemma upto_all lsn L : (forall e, e ∈ L -> lsn_start e <= lsn) -> upto lsn L = L.
Proof.
  intros Hle. unfold upto. induction L as [|e L IH]; [done|].
  rewrite filter_cons, decide_True by (apply Hle; left). f_equal. apply IH. intros e' He'. apply Hle. by right.
Qed.

Lemma last_elem {A} (l : list A) x : last l = Some x -> x ∈ l.
Proof. intros [l' ->]%last_Some. set_solver. Qed.

Lemma historic_insert_ok L h lk v :
  historic_ok L h -> (forall e, e ∈ L -> lsn_start e <= start (lk_lsn lk)) ->
  exists h', historic_insert lk v h = Some h' /\ historic_ok (L ++ [(lk, v)]) h'.
Proof.
  intros [Hh Hs He] Hle. unfold historic_insert.
  assert (match last (hl_historic h) with
          | Some (last_lsn, _) => bool_decide (start (lk_lsn lk) < last_lsn)
          | None => false end = false) as ->.
  { destruct (last (hl_historic h)) as [[lsn t]|] eqn:El; [|done].
    apply last_elem, He in El as [(e & Hin & <-) _]. apply Hle in Hin. apply bool_decide_eq_false. lia. }
  eexists. split; [done|]. assert (tuple_insert lk v (hl_head h) = build (L ++ [(lk, v)])) as ->
    by (by rewrite build_snoc, Hh).
  set (s := start (lk_lsn lk)) in *. split; [done|by apply oinsert_sorted|].
  intros lsn t. cbn [hl_historic]. rewrite elem_of_oinsert, He by done. cbn [fst].
  assert (forall l, l < s -> upto l (L ++ [(lk, v)]) = upto l L) as Hup.
  { intros l Hl. unfold upto. rewrite filter_app, filter_cons, decide_False, app_nil_r; [done|].
    unfold lsn_start. cbn [fst]. fold s. lia. }
  assert (upto s (L ++ [(lk, v)]) = L ++ [(lk, v)]) as Hups.
  { apply upto_all. intros e [Hin|He'%list_elem_of_singleton]%elem_of_app; [by apply Hle|by subst e]. }
  split.
  - intros [[= -> ->]|[[(e & Hin & <-) ->] Hne]].
    + rewrite Hups. split; [|done]. exists (lk, v). set_solver.
    + rewrite Hup by (specialize (Hle _ Hin); lia). split; [|done]. exists e. set_solver.
  - intros [(e & [Hin|Hin%list_elem_of_singleton]%elem_of_app & <-) ->].
    + destruct (decide (lsn_start e = s)) as [->|Hne]; [left; by rewrite Hups|].
      right. rewrite Hup by (specialize (Hle _ Hin); lia). split; [|done]. eauto.
    + subst e. left. unfold lsn_start. cbn [fst]. fold s. by rewrite Hups.
Qed.

Lemma historic_inserts_ok L' L h :
  historic_ok L h -> osorted (L ++ L') ->
  exists h', historic_inserts L' h = Some h' /\ historic_ok (L ++ L') h'.
Proof.
  revert L h. induction L' as [|[lk v] L' IH]; intros L h Hok Hs; cbn [historic_inserts].
  { exists h. by rewrite app_nil_r. }
  destruct (historic_insert_ok L h lk v Hok) as (h' & -> & Hok').
  { intros e He. apply osorted_app in Hs as (_ & _ & Hs). assert (klt e.1 lk) as H1 by (apply (Hs e (lk, v)); [done|left]).
    by apply klt_lsn_start in H1. }
  cbn [mbind option_bind]. rewrite cons_middle, app_assoc in Hs |- *. by apply IH.
Qed.

Definition before (lsn : Z) L := filter (fun e => lsn_start e < lsn) L.

Lemma upto_before lsn lsn' L : lsn < lsn' -> upto lsn (before lsn' L) = upto lsn L.
Proof. intros Hl. unfold upto, before. rewrite list_filter_filter. apply filter_ext_in. intros e _. lia. Qed.

Lemma historic_trim_ok L h lsn : historic_ok L h -> historic_ok (before lsn L) (historic_trim lsn h).
Proof.
  intros [Hh Hs He]. unfold historic_trim. set (hist := osplit_off lsn (hl_historic h)).
  assert (forall l t, (l, t) ∈ hist <-> l < lsn /\ (l, t) ∈ hl_historic h) as Hhist.
  { intros l t. unfold hist, osplit_off. by rewrite list_elem_of_filter. }
  assert (osorted hist) as Hsh by by apply osorted_filter.
  split; cbn [hl_head hl_historic]; [|done|].
  - destruct (last hist) as [[l t]|] eqn:El; cbn [fmap option_fmap option_map default snd].
    + assert ((l, t) ∈ hist) as [Hl [_ Ht]%He]%Hhist by by apply last_elem. subst t.
      change (build (upto l L) = build (before lsn L)).
      f_equal. apply filter_ext_in. intros e Hin. split; [lia|]. intros Hlt.
      assert ((lsn_start e, build (upto (lsn_start e) L)) ∈ hist) as Hein.
      { apply Hhist. split; [done|]. apply He. eauto. }
      apply last_Some in El as [hist' El]. rewrite El in Hein, Hsh.
      apply osorted_app in Hsh as (_ & _ & Hlast).
      apply elem_of_app in Hein as [Hein|[= -> _]%list_elem_of_singleton]; [|lia].
      specialize (Hlast _ (l, build (upto l L)) Hein ltac:(left)). z_order. lia.
    + apply last_None in El. assert (before lsn L = []) as ->; [|done].
      apply elem_of_nil_inv. intros e [Hlt Hin]%list_elem_of_filter.
      assert ((lsn_start e, build (upto (lsn_start e) L)) ∈ hist) as Hein.
      { apply Hhist. split; [done|]. apply He. eauto. }
      rewrite El in Hein. by apply not_elem_of_nil in Hein.
  - intros l t. rewrite Hhist, He. split.
    + intros [Hl [(e & Hin & <-) ->]]. rewrite upto_before by done. split; [|done].
      exists e. split; [|done]. by apply list_elem_of_filter.
    + intros [(e & [Hlt Hin]%list_elem_of_filter & <-) ->]. rewrite upto_before by done. eauto 6.
Qed.

(** ** Buffered updates *)

(** The layers a state stands for: buffered updates applied. *)
Definition layers_of (b : Buffered Value) : ordmap LayerKey Value := fold_left apply_update (bh_buffer b) (bh_layers b).

Lemma apply_update_sorted L u : osorted L -> osorted (apply_update L u).
Proof. unfold apply_update. destruct (u.2); [by apply oinsert_sorted|by apply osorted_filter]. Qed.

Lemma elem_of_apply_update L u e :
  osorted L -> (e ∈ apply_update L u) <-> (u = (e.1, Some e.2) \/ e ∈ L /\ e.1 <> u.1).
Proof.
  intros Hs. unfold apply_update. destruct u as [k [v|]]; cbn [fst snd].
  - rewrite elem_of_oinsert by done. destruct e. cbn. naive_solver.
  - unfold oremove. rewrite list_elem_of_filter. naive_solver.
Qed.

Lemma apply_updates_sorted B L : osorted L -> osorted (fold_left apply_update B L).
Proof. revert L. induction B as [|u B IH]; intros L Hs; [done|]. by apply IH, apply_update_sorted. Qed.

Lemma elem_of_apply_updates (B : ordmap LayerKey (option Value)) L e :
  osorted L -> osorted B ->
  (e ∈ fold_left apply_update B L) <-> ((e.1, Some e.2) ∈ B \/ e ∈ L /\ forall o, (e.1, o) ∉ B).
Proof.
  revert L. induction B as [|[k o] B IH]; intros L Hs HB; cbn [fold_left].
  { set_solver. }
  apply osorted_cons in HB as [Hf HB]. rewrite IH, elem_of_apply_update by (done || by apply apply_update_sorted).
  rewrite Forall_forall in Hf. assert (forall o', (k, o') ∉ B) as Hk.
  { intros o' Hin. apply Hf in Hin. by apply klt_irrefl in Hin. }
  destruct e as [k' v']. cbn [fst snd]. setoid_rewrite elem_of_cons.
  destruct (decide (k' = k)) as [->|Hne]; naive_solver.
Qed.

Lemma layers_of_update k o b :
  osorted (bh_layers b) -> osorted (bh_buffer b) ->
  fold_left apply_update (oinsert k o (bh_buffer b)) (bh_layers b) = apply_update (layers_of b) (k, o).
Proof.
  intros HL HB. unfold layers_of. apply osorted_ext; [by apply apply_updates_sorted|by apply apply_update_sorted, apply_updates_sorted|].
  intros [k' v]. rewrite elem_of_apply_updates by (done || by apply oinsert_sorted).
  rewrite elem_of_apply_update by by apply apply_updates_sorted. rewrite elem_of_apply_updates by done.
  cbn [fst snd].
  assert (forall k1 o1, ((k1, o1) ∈ oinsert k o (bh_buffer b))
    <-> (k1, o1) = (k, o) \/ (k1, o1) ∈ bh_buffer b /\ k1 <> k) as Hin.
  { intros k1 o1. by rewrite elem_of_oinsert. }
  setoid_rewrite Hin.
  destruct (decide (k' = k)) as [->|Hne]; naive_solver.
Qed.

Record buffered_ok (b : Buffered Value) : Prop := {
  bo_layers : osorted (bh_layers b);
  bo_buffer : osorted (bh_buffer b);
  bo_historic : historic_ok (bh_layers b) (bh_historic_coverage b)
}.

(** The layers from an LSN on are those from the least key at it on. *)
Lemma before_from L lsn :
  osorted L -> Forall (fun e => layer_key_ok e.1) L ->
  L = before lsn L ++ orange_from (mkLayerKey (mkRange 0 0) (mkRange lsn 0) false) L.
Proof.
  intros Hs Hok. set (k0 := mkLayerKey _ _ _).
  assert (forall e, e ∈ L -> kle k0 e.1 <-> lsn <= lsn_start e) as Hk0.
  { intros e [_ Hpos]%(proj1 (Forall_forall _ _) Hok). unfold kle, lsn_start.
    change (kcmp k0 e.1) with (lex_cmp (lk_fields k0) (lk_fields e.1)).
    cbn [k0 lk_fields lex_cmp lk_lsn lk_key start end_].
    destruct (Z.compare_spec lsn (start (lk_lsn e.1))); [|by split; [lia|]|by split; [|lia]].
    destruct (Z.compare_spec 0 (end_ (lk_lsn e.1))); [lia| |lia]. by split; [lia|]. }
  apply osorted_ext; [done|..].
  - apply osorted_app. split_and!; [by apply osorted_filter|by apply osorted_filter|].
    intros x y [Hx HxL]%list_elem_of_filter [Hy HyL]%list_elem_of_filter. apply Hk0 in Hy; [|done].
    destruct (klt_total x.1 y.1) as [?|[Heq|Hgt]]; [done|..]; unfold lsn_start in *.
    + rewrite Heq in Hx. lia.
    + apply klt_lsn_start in Hgt. lia.
  - intros e. rewrite elem_of_app. unfold before, orange_from. rewrite !list_elem_of_filter.
    split; [|naive_solver]. intros Hin. rewrite (Hk0 _ Hin).
    assert (lsn_start e < lsn \/ lsn <= lsn_start e) by lia. tauto.
Qed.

(** A rebuild does not panic. *)
Lemma buffered_rebuild_ok b :
  buffered_ok b -> Forall (fun e => layer_key_ok e.1) (layers_of b) ->
  exists b', buffered_rebuild b = Some b' /\ buffered_ok b' /\ layers_of b' = layers_of b /\ bh_buffer b' = [].
Proof.
  intros Hb Hok. pose proof Hb as [HL HB Hh]. unfold buffered_rebuild.
  destruct (bh_buffer b) as [|[first o] B] eqn:EB; [by exists b|].
  rewrite <- EB. fold (layers_of b). set (lsn := start (lk_lsn first)).
  assert (osorted (layers_of b)) as Hs by by apply apply_updates_sorted.
  assert (before lsn (layers_of b) = before lsn (bh_layers b)) as Hbef.
  { apply osorted_ext; [by apply osorted_filter|by apply osorted_filter|]. intros e. unfold before.
    rewrite !list_elem_of_filter. unfold layers_of.
    rewrite elem_of_apply_updates by (done || by rewrite EB). rewrite EB.
    assert (lsn_start e < lsn -> forall o', (e.1, o') ∉ (first, o) :: B) as Hlt.
    { intros Hlt o' Hin. apply elem_of_cons in Hin as [[= Hf _]|Hin].
      - unfold lsn_start in Hlt. rewrite Hf in Hlt. fold lsn in Hlt. lia.
      - apply osorted_cons in HB as [Hf _]. rewrite Forall_forall in Hf. apply Hf, klt_lsn_start in Hin.
        unfold lsn_start, lsn in *. cbn in *. lia. }
    naive_solver. }
  destruct (historic_inserts_ok (orange_from (mkLayerKey (mkRange 0 0) (mkRange lsn 0) false) (layers_of b))
    (before lsn (bh_layers b)) (historic_trim lsn (bh_historic_coverage b))) as (h' & -> & Hh').
  { by apply historic_trim_ok. }
  { rewrite <- Hbef, <- before_from by done. done. }
  rewrite <- Hbef, <- before_from in Hh' by done. cbn [mbind option_bind]. eexists. split; [done|].
  split_and!; [|done|done]. split; [done|constructor|done].
Qed.

(** ** The layer history as an ordered map of layers *)

Inductive history_op : Type :=
| OpInsert (lk : LayerKey) (v : Value)
| OpRemove (lk : LayerKey)
| OpRebuild.

Definition history_step (b : Buffered Value) (op : history_op) : option (Buffered Value) :=
  match op with
  | OpInsert lk v => Some (buffered_insert lk v b)
  | OpRemove lk => Some (buffered_remove lk b)
  | OpRebuild => buffered_rebuild b
  end.

Fixpoint history_run (b : Buffered Value) (ops : list history_op) : option (Buffered Value) :=
  match ops with
  | [] => Some b
  | op :: ops => b ← history_step b op; history_run b ops
  end.

(** What the operations mean for the set of layers. *)
Definition spec_step L (op : history_op) : ordmap LayerKey Value :=
  match op with
  | OpInsert lk v => oinsert lk v L
  | OpRemove lk => oremove lk L
  | OpRebuild => L
  end.

Definition op_ok (op : history_op) : Prop :=
  match op with OpInsert lk _ => layer_key_ok lk | _ => True end.

Lemma spec_step_ok L op :
  osorted L -> op_ok op -> Forall (fun e => layer_key_ok e.1) L -> Forall (fun e => layer_key_ok e.1) (spec_step L op).
Proof.
  intros Hs Hop HL. destruct op as [lk v|lk|]; cbn [spec_step]; [| |done]; rewrite !Forall_forall in *.
  - intros e [->|[He _]]%elem_of_oinsert; [done|auto|done].
  - intros e [_ He]%list_elem_of_filter. auto.
Qed.

Lemma history_step_ok b op :
  buffered_ok b -> Forall (fun e => layer_key_ok e.1) (layers_of b) -> op_ok op ->
  exists b', history_step b op = Some b' /\ buffered_ok b' /\ layers_of b' = spec_step (layers_of b) op.
Proof.
  intros Hb HL Hop. pose proof Hb as [Hs HB Hh]. destruct op as [lk v|lk|]; cbn [history_step spec_step].
  - eexists. split_and!; [done|split; [done|by apply oinsert_sorted|done]|]. exact (layers_of_update lk (Some v) b Hs HB).
  - eexists. split_and!; [done|split; [done|by apply oinsert_sorted|done]|]. exact (layers_of_update lk None b Hs HB).
  - destruct (buffered_rebuild_ok b Hb HL) as (b' & ? & ? & ? & _). eauto.
Qed.

Lemma history_run_ok ops b :
  buffered_ok b -> Forall (fun e => layer_key_ok e.1) (layers_of b) -> Forall op_ok ops ->
  exists b', history_run b ops = Some b' /\ buffered_ok b'
    /\ layers_of b' = fold_left spec_step ops (layers_of b) /\ Forall (fun e => layer_key_ok e.1) (layers_of b').
Proof.
  revert b. induction ops as [|op ops IH]; intros b Hb HL Hops; cbn [history_run fold_left]; [eauto|].
  apply Forall_cons in Hops as [Hop Hops]. destruct (history_step_ok b op Hb HL Hop) as (b' & -> & Hb' & Hl').
  cbn [mbind option_bind]. rewrite <- Hl'. apply IH; [done| |done]. rewrite Hl'.
  apply spec_step_ok; [|done|done]. destruct Hb as [Hs _ _]. by apply apply_updates_sorted.
Qed.

Lemma buffered_ok_new : buffered_ok buffered_new.
Proof. split; [constructor|constructor|apply historic_ok_new]. Qed.

(** The version at an LSN answers for the layers that start at or below it. *)
Definition version_spec (lsn : Z) L (r : option (LayerCoverageTuple Value)) : Prop :=
  match r with
  | None => forall e, e ∈ L -> lsn < lsn_start e
  | Some t => forall img k, latest_spec img k (upto lsn L) (coverage_query k (coverage_of img t))
  end.

Lemma get_version_build L h lsn :
  historic_ok L h ->
  match get_version lsn h with
  | Some t => t = build (upto lsn L)
  | None => forall e, e ∈ L -> lsn < lsn_start e
  end.
Proof.
  intros [_ Hs He]. unfold get_version, orange_to.
  assert (forall e, e ∈ L -> lsn_start e <= lsn ->
    (lsn_start e, build (upto (lsn_start e) L)) ∈ filter (fun e => kle e.1 lsn) (hl_historic h)) as Hin.
  { intros e HeL Hle. apply list_elem_of_filter. split; [done|]. apply He. eauto. }
  destruct (last _) as [[l t]|] eqn:El; cbn [fmap option_fmap option_map snd].
  - assert ((l, t) ∈ filter (fun e => kle e.1 lsn) (hl_historic h)) as
      [Hl [_ ->]%He]%list_elem_of_filter by by apply last_elem.
    f_equal. apply filter_ext_in. intros e HeL. z_order. split; [lia|]. intros Hle. specialize (Hin e HeL Hle).
    assert (osorted (filter (fun e => kle e.1 lsn) (hl_historic h))) as Hsf by by apply osorted_filter.
    apply last_Some in El as [l' El]. rewrite El in Hin, Hsf. apply osorted_app in Hsf as (_ & _ & Hlast).
    apply elem_of_app in Hin as [Hin|[= -> _]%list_elem_of_singleton]; [|lia].
    specialize (Hlast _ (l, build (upto l L)) Hin ltac:(left)). z_order. lia.
  - apply last_None in El. intros e HeL. apply Z.nle_gt. intros Hle. specialize (Hin e HeL Hle).
    rewrite El in Hin. by apply not_elem_of_nil in Hin.
Qed.

Lemma upto_ok L lsn : Forall (fun e => layer_key_ok e.1) L -> Forall (fun e => layer_key_ok e.1) (upto lsn L).
Proof. rewrite !Forall_forall. intros Hok e [_ ?]%list_elem_of_filter. auto. Qed.

Lemma get_version_ok L h lsn :
  historic_ok L h -> Forall (fun e => layer_key_ok e.1) L -> version_spec lsn L (get_version lsn h).
Proof.
  intros Hh Hok. pose proof (get_version_build L h lsn Hh) as Hv. destruct (get_version lsn h) as [t|]; [|done].
  subst t. intros img k. by apply build_latest, upto_ok.
Qed.

(** C9: Refinement of the layer history by an ordered map of layers: whatever
    layers are inserted and removed, at any LSN and in any order, and whenever the
    updates are flushed, no operation panics with a retroactive insert, and after a
    flush the version at every LSN answers, at every key and for images and deltas,
    with the layer of highest end LSN among the layers then in the map that start at
    or below that LSN and have the key (the first in layer order on a tie), and with
    nothing if there is none. *)
Theorem layer_history_refines (ops : list history_op) :
  Forall op_ok ops ->
  exists b h, history_run buffered_new (ops ++ [OpRebuild]) = Some b
  /\ buffered_get b = Some h /\ bh_layers b = fold_left spec_step ops []
  /\ forall lsn, version_spec lsn (bh_layers b) (get_version lsn h).
Proof.
  intros Hops. destruct (history_run_ok ops buffered_new buffered_ok_new) as (b & Hr & Hb & Hl & Hok);
    [by apply Forall_nil|done|].
  destruct (buffered_rebuild_ok b Hb Hok) as (b' & Hr' & [Hs HB Hh] & Hl' & He).
  exists b', (bh_historic_coverage b'). split_and!.
  - clear -Hr Hr'. revert Hr. generalize (@buffered_new _ Value). induction ops as [|op ops IH]; intros b0; cbn [history_run app].
    + intros [= ->]. cbn. by rewrite Hr'.
    + destruct (history_step b0 op); cbn [mbind option_bind]; [|done]. apply IH.
  - unfold buffered_get. by rewrite He.
  - transitivity (layers_of b); [|exact Hl]. rewrite <- Hl'. unfold layers_of. by rewrite He.
  - intros lsn. apply get_version_ok; [done|]. rewrite <- Hl' in Hok. unfold layers_of in Hok. by rewrite He in Hok.
Qed.
End historic.
Arguments history_op : clear implicits.

(** Layers inserted newest first, one removed again, flushed in between. *)
Definition history_example : list (history_op nat) :=
  [OpInsert (mkLayerKey (mkRange 0 10) (mkRange 30 40) false) 3%nat;
   OpRebuild;
   OpInsert (mkLayerKey (mkRange 0 5) (mkRange 10 20) false) 1%nat;
   OpInsert (mkLayerKey (mkRange 3 8) (mkRange 20 21) true) 2%nat;
   OpRemove (mkLayerKey (mkRange 0 10) (mkRange 30 40) false)].

Lemma layer_history_refines_witness :
  exists b h, history_run buffered_new (history_example ++ [OpRebuild]) = Some b
  /\ buffered_get b = Some h /\ bh_layers b = fold_left spec_step history_example []
  /\ forall lsn, version_spec lsn (bh_layers b) (get_version lsn h).
Proof.
  apply layer_history_refines. unfold history_example. repeat apply Forall_cons_2; try apply Forall_nil_2;
    unfold op_ok, layer_key_ok; cbn; lia || exact I.
Defined.
