(* ===== verification/LayerName.v ===== *)
(** * Layer names and descriptors

    [pageserver/src/tenant/storage_layer/layer_name.rs]: the names of image and
    delta layers, their text and its parser; [layer_desc.rs]: the descriptor of a
    persistent layer; [layer.rs] ([local_layer_path]): the file name with its
    generation.  [Panic] is a failed assertion, an [unreachable!], or a slice of a
    key inside a character. *)

From S2P Require Import Prelude Lsn XlogUtils Key Shard.

(** ** Names *)

Record DeltaLayerName := mkDeltaLayerName { dn_key_range : Range Key; dn_lsn_range : Range Lsn }.
Record ImageLayerName := mkImageLayerName { in_key_range : Range Key; in_lsn : Lsn }.

#[global] Instance DeltaLayerName_eq_dec : EqDecision DeltaLayerName.
Proof. solve_decision. Defined.
#[global] Instance ImageLayerName_eq_dec : EqDecision ImageLayerName.
Proof. solve_decision. Defined.

Definition then_cmp (a b : comparison) : comparison := match a with Eq => b | c => c end.

Definition delta_name_cmp (self other : DeltaLayerName) : comparison :=
  then_cmp (key_cmp (start (dn_key_range self)) (start (dn_key_range other)))
    (then_cmp (key_cmp (end_ (dn_key_range self)) (end_ (dn_key_range other)))
      (then_cmp (start (dn_lsn_range self) ?= start (dn_lsn_range other))
        (end_ (dn_lsn_range self) ?= end_ (dn_lsn_range other)))).

Definition image_name_cmp (self other : ImageLayerName) : comparison :=
  then_cmp (key_cmp (start (in_key_range self)) (start (in_key_range other)))
    (then_cmp (key_cmp (end_ (in_key_range self)) (end_ (in_key_range other)))
      (in_lsn self ?= in_lsn other)).

(** [str::split_once]: at the first occurrence of the separator. *)
Fixpoint split_once (sep s : list byte) : option (list byte * list byte) :=
  match strip_prefix sep s with
  | Some rest => Some ([], rest)
  | None =>
      match s with
      | [] => None
      | b :: s => p ← split_once sep s; Some (b :: p.1, p.2)
      end
  end.

Definition underscores : list byte := str "__".

(** [None] of a parser is [Err NotAName]. *)
Inductive name_parse_error : Set := NotAName.

Definition some_or_not {A} (o : option A) : outcome name_parse_error A :=
  match o with Some a => Ok a | None => Err NotAName end.

(** [Key::from_hex(s).ok()?] and [Lsn::from_hex(s).ok()?]. *)
Definition parse_key (s : list byte) : outcome name_parse_error Key :=
  match key_from_hex s with Ok k => Ok k | Err _ => Err NotAName | Panic => Panic end.
Definition parse_lsn (s : list byte) : outcome name_parse_error Lsn :=
  match from_hex s with inr l => Ok l | inl _ => Err NotAName end.

(** The text before a generation suffix: [-vY-XXXXXXXX], [-XXXXXXXX] or nothing. *)
Definition drop_generation (s : list byte) : outcome name_parse_error (list byte) :=
  match split_once [dash] s with
  | Some (name, maybe_generation) =>
      match strip_prefix (str "v") maybe_generation with
      | Some _ => Ok name
      | None => if decide (length maybe_generation = 8%nat) then Ok name else Err NotAName
      end
  | None => Ok s
  end.

Definition delta_parse_str (fname : list byte) : outcome name_parse_error DeltaLayerName :=
  parts ← some_or_not (split_once underscores fname);
  keys ← some_or_not (split_once [dash] parts.1);
  lsns ← some_or_not (split_once [dash] parts.2);
  lsn_end_str ← drop_generation lsns.2;
  key_start ← parse_key keys.1;
  key_end ← parse_key keys.2;
  start_lsn ← parse_lsn lsns.1;
  end_lsn ← parse_lsn lsn_end_str;
  if decide (end_lsn <= start_lsn) then Err NotAName
  else if key_leb key_end key_start then Err NotAName
  else Ok (mkDeltaLayerName (mkRange key_start key_end) (mkRange start_lsn end_lsn)).

Definition image_parse_str (fname : list byte) : outcome name_parse_error ImageLayerName :=
  parts ← some_or_not (split_once underscores fname);
  keys ← some_or_not (split_once [dash] parts.1);
  lsn_str ← drop_generation parts.2;
  key_start ← parse_key keys.1;
  key_end ← parse_key keys.2;
  lsn ← parse_lsn lsn_str;
  Ok (mkImageLayerName (mkRange key_start key_end) lsn).

Definition delta_name_fmt (self : DeltaLayerName) : list byte :=
  key_fmt (start (dn_key_range self)) ++ [dash] ++ key_fmt (end_ (dn_key_range self)) ++ underscores
  ++ fmt_hex_pad 16 (start (dn_lsn_range self)) ++ [dash] ++ fmt_hex_pad 16 (end_ (dn_lsn_range self)).

Definition image_name_fmt (self : ImageLayerName) : list byte :=
  key_fmt (start (in_key_range self)) ++ [dash] ++ key_fmt (end_ (in_key_range self)) ++ underscores
  ++ fmt_hex_pad 16 (in_lsn self).

Definition image_layer_lsn_range (lsn : Lsn) : option (Range Lsn) :=
  e ← lsn_add lsn 1; Some (mkRange lsn e).

Inductive LayerName : Type := Image (name : ImageLayerName) | Delta (name : DeltaLayerName).

#[global] Instance LayerName_eq_dec : EqDecision LayerName.
Proof. solve_decision. Defined.

Definition is_in_future (self : LayerName) (disk_consistent_lsn : Lsn) : option bool :=
  match self with
  | Image file_name => Some (bool_decide (disk_consistent_lsn < in_lsn file_name))
  | Delta file_name =>
      next ← lsn_add disk_consistent_lsn 1;
      Some (bool_decide (next < end_ (dn_lsn_range file_name)))
  end.

Definition layer_name_key_range (self : LayerName) : Range Key :=
  match self with Image n => in_key_range n | Delta n => dn_key_range n end.

Definition layer_name_lsn_as_range (self : LayerName) : option (Range Lsn) :=
  match self with Image n => image_layer_lsn_range (in_lsn n) | Delta n => Some (dn_lsn_range n) end.

Definition layer_name_is_delta (self : LayerName) : bool := match self with Delta _ => true | Image _ => false end.

Definition layer_name_fmt (self : LayerName) : list byte :=
  match self with Image n => image_name_fmt n | Delta n => delta_name_fmt n end.

(** Both parsers run; that both succeed is declared unreachable. *)
Definition layer_name_from_str (value : list byte) : outcome name_parse_error LayerName :=
  match delta_parse_str value, image_parse_str value with
  | Panic, _ | _, Panic => Panic
  | Err _, Err _ => Err NotAName
  | Ok delta, Err _ => Ok (Delta delta)
  | Err _, Ok image => Ok (Image image)
  | Ok _, Ok _ => Panic
  end.

(** The last component of [local_layer_path]. *)
Definition local_layer_file_name (layer_file_name : LayerName) (generation : Generation) : list byte :=
  match generation with
  | GNone => layer_name_fmt layer_file_name
  | GValid _ => layer_name_fmt layer_file_name ++ str "-v1" ++ gen_get_suffix generation
  end.

(** ** Descriptors *)

Record PersistentLayerDesc := mkLayerDesc {
  ld_tenant_shard_id : TenantShardId; ld_timeline_id : Id;
  ld_key_range : Range Key; ld_lsn_range : Range Lsn; ld_is_delta : bool; ld_file_size : Z
}.

#[global] Instance PersistentLayerDesc_eq_dec : EqDecision PersistentLayerDesc.
Proof. unfold EqDecision, Decision, Id. decide equality; solve_decision. Defined.

Record PersistentLayerKey := mkPersistentLayerKey {
  plk_key_range : Range Key; plk_lsn_range : Range Lsn; plk_is_delta : bool
}.

#[global] Instance PersistentLayerKey_eq_dec : EqDecision PersistentLayerKey.
Proof. solve_decision. Defined.

Definition plk_from_layer_name (layer_name : LayerName) : option PersistentLayerKey :=
  match layer_name with
  | Image n => r ← image_layer_lsn_range (in_lsn n); Some (mkPersistentLayerKey (in_key_range n) r false)
  | Delta n => Some (mkPersistentLayerKey (dn_key_range n) (dn_lsn_range n) true)
  end.

Definition desc_key (self : PersistentLayerDesc) : PersistentLayerKey :=
  mkPersistentLayerKey (ld_key_range self) (ld_lsn_range self) (ld_is_delta self).

Definition desc_new_img (tenant_shard_id : TenantShardId) (timeline_id : Id) (key_range : Range Key)
    (lsn : Lsn) (file_size : Z) : option PersistentLayerDesc :=
  r ← image_layer_lsn_range lsn;
  Some (mkLayerDesc tenant_shard_id timeline_id key_range r false file_size).

Definition desc_new_delta (tenant_shard_id : TenantShardId) (timeline_id : Id) (key_range : Range Key)
    (lsn_range : Range Lsn) (file_size : Z) : PersistentLayerDesc :=
  mkLayerDesc tenant_shard_id timeline_id key_range lsn_range true file_size.

Definition desc_from_filename (tenant_shard_id : TenantShardId) (timeline_id : Id) (filename : LayerName)
    (file_size : Z) : option PersistentLayerDesc :=
  match filename with
  | Image i => desc_new_img tenant_shard_id timeline_id (in_key_range i) (in_lsn i) file_size
  | Delta d => Some (desc_new_delta tenant_shard_id timeline_id (dn_key_range d) (dn_lsn_range d) file_size)
  end.

Definition image_layer_lsn (self : PersistentLayerDesc) : option Lsn :=
  if ld_is_delta self then None else
  next ← lsn_add (start (ld_lsn_range self)) 1;
  if decide (next = end_ (ld_lsn_range self)) then Some (start (ld_lsn_range self)) else None.

Definition delta_layer_name (self : PersistentLayerDesc) : option DeltaLayerName :=
  if ld_is_delta self then Some (mkDeltaLayerName (ld_key_range self) (ld_lsn_range self)) else None.

Definition image_layer_name (self : PersistentLayerDesc) : option ImageLayerName :=
  if ld_is_delta self then None else
  next ← lsn_add (start (ld_lsn_range self)) 1;
  if decide (next = end_ (ld_lsn_range self))
  then Some (mkImageLayerName (ld_key_range self) (start (ld_lsn_range self))) else None.

Definition desc_layer_name (self : PersistentLayerDesc) : option LayerName :=
  if ld_is_delta self then Delta <$> delta_layer_name self else Image <$> image_layer_name self.

(** ** Round trip *)

Lemma split_once_app sep b a r :
  b ∉ a -> split_once (b :: sep) (a ++ (b :: sep) ++ r) = Some (a, r).
Proof.
  induction a as [|c a IH]; intros Hb; cbn [app].
  - cbn [split_once strip_prefix]. rewrite decide_True by done. by rewrite strip_prefix_app.
  - apply not_elem_of_cons in Hb as [Hne Hb]. cbn [split_once strip_prefix]. rewrite decide_False by done.
    change (a ++ b :: sep ++ r) with (a ++ (b :: sep) ++ r). by rewrite IH.
Qed.

Lemma split_once_none sep b s : b ∉ s -> split_once (b :: sep) s = None.
Proof.
  induction s as [|c s IH]; intros Hb; [done|]. apply not_elem_of_cons in Hb as [Hne Hb].
  cbn [split_once strip_prefix]. rewrite decide_False by done. by rewrite IH.
Qed.

Lemma hex_not_elem (b : byte) s : hex_digit b = None -> Forall is_hex s -> b ∉ s.
Proof. intros Hb Hs Hin. rewrite Forall_forall in Hs. destruct (Hs _ Hin) as [d Hd]. congruence. Qed.

Definition range_wf (r : Range Key) : Prop := key_wf (start r) /\ key_wf (end_ r).

Definition layer_name_wf (n : LayerName) : Prop :=
  match n with
  | Image n => range_wf (in_key_range n) /\ in_u 64 (in_lsn n)
  | Delta n => range_wf (dn_key_range n) /\ range_is_empty (dn_key_range n) = false
      /\ in_u 64 (start (dn_lsn_range n)) /\ in_u 64 (end_ (dn_lsn_range n))
      /\ start (dn_lsn_range n) < end_ (dn_lsn_range n)
  end.

Lemma parse_key_fmt k : key_wf k -> parse_key (key_fmt k) = Ok k.
Proof. intros Hk. unfold parse_key. by rewrite key_from_hex_fmt. Qed.

Lemma lsn_text l : in_u 64 l -> parse_lsn (fmt_hex_pad 16 l) = Ok l /\ Forall is_hex (fmt_hex_pad 16 l).
Proof.
  intros Hl. destruct (fmt_hex_pad_spec 16 64 l) as (_ & Hp & Hx); [lia|lia|done|].
  split; [|done]. unfold parse_lsn, from_hex. by rewrite Hp.
Qed.

(** The parts of a name before the LSNs. *)
Lemma split_name r s :
  range_wf r ->
  let fname := key_fmt (start r) ++ [dash] ++ key_fmt (end_ r) ++ underscores ++ s in
  split_once underscores fname = Some (key_fmt (start r) ++ [dash] ++ key_fmt (end_ r), s)
  /\ split_once [dash] (key_fmt (start r) ++ [dash] ++ key_fmt (end_ r)) = Some (key_fmt (start r), key_fmt (end_ r)).
Proof.
  intros [Hs He] fname. destruct (key_fmt_parts _ Hs) as [Hxs _]. destruct (key_fmt_parts _ He) as [Hxe _]. split.
  - unfold fname. change underscores with (Byte.x5f :: [Byte.x5f]). rewrite !app_assoc, <- (app_assoc _ _ s).
    rewrite split_once_app; [by rewrite <- app_assoc|]. rewrite !elem_of_app.
    intros [[Hin|Hin]|Hin]; [by apply (hex_not_elem Byte.x5f) in Hin| |by apply (hex_not_elem Byte.x5f) in Hin].
    by apply list_elem_of_singleton in Hin.
  - apply (split_once_app []). by apply hex_not_elem.
Qed.

(** What each parser makes of a text with the given parts. *)
Lemma delta_parse_parts r s :
  range_wf r ->
  delta_parse_str (key_fmt (start r) ++ [dash] ++ key_fmt (end_ r) ++ underscores ++ s)
  = (lsns ← some_or_not (split_once [dash] s);
     lsn_end_str ← drop_generation lsns.2;
     start_lsn ← parse_lsn lsns.1;
     end_lsn ← parse_lsn lsn_end_str;
     if decide (end_lsn <= start_lsn) then Err NotAName
     else if range_is_empty r then Err NotAName
     else Ok (mkDeltaLayerName r (mkRange start_lsn end_lsn))).
Proof.
  intros Hr. destruct (split_name r s Hr) as [E1 E2]. unfold delta_parse_str. rewrite E1.
  cbn [some_or_not mbind outcome_bind fst snd]. rewrite E2. cbn [some_or_not mbind outcome_bind fst snd].
  destruct (split_once [dash] s) as [[l1 l2]|]; [|done]. cbn [some_or_not mbind outcome_bind fst snd].
  destruct (drop_generation l2); [|done..]. cbn [mbind outcome_bind]. rewrite !parse_key_fmt by apply Hr.
  cbn [mbind outcome_bind].
  destruct (parse_lsn l1); [|done..]. destruct (parse_lsn _); [|done..].
  assert (key_leb (end_ r) (start r) = range_is_empty r) as ->.
  { unfold range_is_empty. destruct Hr. rewrite key_leb_Z, key_ltb_Z by done.
    case_bool_decide; case_bool_decide; try done; lia. }
  by destruct r.
Qed.

Lemma image_parse_parts r s :
  range_wf r ->
  image_parse_str (key_fmt (start r) ++ [dash] ++ key_fmt (end_ r) ++ underscores ++ s)
  = (lsn_str ← drop_generation s; lsn ← parse_lsn lsn_str; Ok (mkImageLayerName r lsn)).
Proof.
  intros Hr. destruct (split_name r s Hr) as [E1 E2]. unfold image_parse_str. rewrite E1.
  cbn [some_or_not mbind outcome_bind fst snd]. rewrite E2. cbn [some_or_not mbind outcome_bind fst snd].
  destruct (drop_generation s); [|done..]. cbn [mbind outcome_bind]. rewrite !parse_key_fmt by apply Hr.
  by destruct r.
Qed.

Lemma dash_hex : hex_digit dash = None.
Proof. done. Qed.

(** The suffixes of a generation after the last LSN of a name. *)
Lemma drop_generation_none s : Forall is_hex s -> drop_generation s = Ok s.
Proof. intros Hs. unfold drop_generation. by rewrite split_once_none by by apply hex_not_elem. Qed.

Lemma drop_generation_v1 s t : Forall is_hex s -> drop_generation (s ++ str "-v1" ++ t) = Ok s.
Proof.
  intros Hs. unfold drop_generation. change (str "-v1" ++ t) with ([dash] ++ str "v1" ++ t).
  by rewrite (split_once_app []) by by apply hex_not_elem.
Qed.

Lemma drop_generation_hex s t : Forall is_hex s -> Forall is_hex t -> length t = 8%nat ->
  drop_generation (s ++ [dash] ++ t) = Ok s.
Proof.
  intros Hs Ht Hl. unfold drop_generation. rewrite (split_once_app []) by by apply hex_not_elem.
  destruct t as [|b t]; [done|]. cbn [str strip_prefix]. apply Forall_cons in Ht as [Hb _].
  destruct (strip_prefix (str "v") (b :: t)); [done|]. by rewrite decide_True.
Qed.

Lemma delta_from_str n t :
  layer_name_wf (Delta n) ->
  drop_generation (fmt_hex_pad 16 (end_ (dn_lsn_range n)) ++ t) = Ok (fmt_hex_pad 16 (end_ (dn_lsn_range n))) ->
  layer_name_from_str (delta_name_fmt n ++ t) = Ok (Delta n).
Proof.
  destruct n as [r [s e]]. cbn [layer_name_wf dn_key_range dn_lsn_range start end_]. intros (Hr & Hne & Hs & He & Hlt) Hd.
  destruct (lsn_text s Hs) as [Ps Xs]. destruct (lsn_text e He) as [Pe Xe].
  unfold layer_name_from_str, delta_name_fmt. cbn [dn_key_range dn_lsn_range start end_]. rewrite <- !app_assoc.
  rewrite delta_parse_parts, image_parse_parts, (split_once_app []) by (done || by apply hex_not_elem).
  cbn [some_or_not mbind outcome_bind fst snd]. rewrite Hd. cbn [mbind outcome_bind].
  rewrite Ps. cbn [mbind outcome_bind]. rewrite Pe. cbn [mbind outcome_bind].
  rewrite decide_False, Hne by lia.
  assert (drop_generation (fmt_hex_pad 16 s ++ [dash] ++ fmt_hex_pad 16 e ++ t) = Err NotAName) as ->; [|done].
  unfold drop_generation. rewrite (split_once_app []) by by apply hex_not_elem.
  destruct (fmt_hex_pad_spec 16 64 e) as (Hl & _ & _); [lia|lia|done|].
  destruct (strip_prefix (str "v") _) eqn:Ev.
  - destruct (fmt_hex_pad 16 e) as [|b l']; [done|]. apply Forall_cons in Xe as [Hb _].
    cbn in Ev. case_decide as Hv; [|done]. subst b. by destruct Hb.
  - rewrite decide_False; [done|]. rewrite length_app, Hl. lia.
Qed.

(** The text of an image layer's name, given what the delta parser makes of it. *)
Lemma image_from_str n t :
  layer_name_wf (Image n) ->
  drop_generation (fmt_hex_pad 16 (in_lsn n) ++ t) = Ok (fmt_hex_pad 16 (in_lsn n)) ->
  layer_name_from_str (image_name_fmt n ++ t)
  = match delta_parse_str (image_name_fmt n ++ t) with Err _ => Ok (Image n) | _ => Panic end.
Proof.
  destruct n as [r l]. cbn [layer_name_wf in_key_range in_lsn]. intros [Hr Hl] Hd.
  unfold layer_name_from_str. assert (image_parse_str (image_name_fmt (mkImageLayerName r l) ++ t) = Ok (mkImageLayerName r l)) as ->.
  { unfold image_name_fmt. cbn [in_key_range in_lsn]. rewrite <- !app_assoc, image_parse_parts, Hd by done.
    cbn [mbind outcome_bind]. by rewrite (proj1 (lsn_text l Hl)). }
  by destruct (delta_parse_str _) as [? |[]|].
Qed.

Definition legacy_clash (n : LayerName) (generation : Z) : Prop :=
  match n with
  | Image n => in_lsn n < generation /\ range_is_empty (in_key_range n) = false
  | Delta _ => False
  end.

(** C36: A layer's name survives its text: bare, with the [-v1-] generation suffix
    of local files, and with the bare generation suffix of remote objects; the one
    exception is the name of an image layer whose generation is above its LSN, which
    both parsers accept with the bare suffix, and which reaches the
    [unreachable!] of [from_str].  A descriptor made from a name has that name. *)
Theorem layer_name_round_trip (n : LayerName) (generation : Z) (shard : TenantShardId) (timeline : Id) (size : Z) :
  layer_name_wf n -> in_u 32 generation ->
  layer_name_from_str (layer_name_fmt n) = Ok n
  /\ layer_name_from_str (local_layer_file_name n (GValid generation)) = Ok n
  /\ (~ legacy_clash n generation ->
      layer_name_from_str (layer_name_fmt n ++ gen_get_suffix (GValid generation)) = Ok n)
  /\ (legacy_clash n generation ->
      layer_name_from_str (layer_name_fmt n ++ gen_get_suffix (GValid generation)) = Panic)
  /\ (forall d, desc_from_filename shard timeline n size = Some d -> desc_layer_name d = Some n).
Proof.
  intros Hn Hg. destruct (fmt_08x_spec 64 generation Hg ltac:(lia)) as (Hgl & Hgp & Hgx).
  assert (parse_lsn (fmt_08x generation) = Ok generation) as Hgen by (unfold parse_lsn, from_hex; by rewrite Hgp).
  unfold local_layer_file_name, gen_get_suffix. destruct n as [n|n]; cbn [layer_name_fmt legacy_clash].
  - destruct Hn as [Hr Hl]. destruct (lsn_text _ Hl) as [Hp Hx].
    rewrite <- (app_nil_r (image_name_fmt n)) at 1.
    rewrite !image_from_str by (done || by (rewrite ?app_nil_r; apply drop_generation_none)
      || by apply drop_generation_v1 || by apply drop_generation_hex).
    unfold image_name_fmt. rewrite <- !app_assoc, app_nil_r, !delta_parse_parts by done.
    rewrite (split_once_none []) by by apply hex_not_elem.
    change (str "-v1" ++ [dash] ++ fmt_08x generation) with ([dash] ++ str "v1" ++ [dash] ++ fmt_08x generation).
    rewrite !(split_once_app []) by by apply hex_not_elem. cbn [some_or_not mbind outcome_bind fst snd].
    split_and!; [done|..].
    + assert (drop_generation (str "v1" ++ [dash] ++ fmt_08x generation) = Ok (str "v1")) as ->; [|by rewrite Hp].
      unfold drop_generation. rewrite (split_once_app [] dash (str "v1")) by by apply (bool_decide_unpack _).
      destruct (strip_prefix _ _); [done|]. by rewrite decide_True.
    + intros Hc. rewrite drop_generation_none, Hp by done. cbn [mbind outcome_bind]. rewrite Hgen. cbn [mbind outcome_bind].
      destruct (decide _) as [?|Hlt]; [done|]. destruct (range_is_empty _); [done|]. exfalso. apply Hc. split; [lia|done].
    + intros [Hlt ->]. rewrite drop_generation_none, Hp by done. cbn [mbind outcome_bind]. rewrite Hgen. cbn [mbind outcome_bind].
      by rewrite decide_False by lia.
    + intros d. unfold desc_from_filename, desc_new_img, image_layer_lsn_range.
      destruct (lsn_add (in_lsn n) 1) as [e|] eqn:E; [|done]. intros [= <-].
      unfold desc_layer_name, image_layer_name. cbn [ld_is_delta ld_lsn_range ld_key_range start end_]. rewrite E.
      cbn [mbind option_bind]. rewrite decide_True by done. by destruct n.
  - pose proof Hn as (_ & _ & _ & He & _). destruct (lsn_text _ He) as [_ Hx]. split_and!; [..|done|].
    + rewrite <- (app_nil_r (delta_name_fmt n)). apply delta_from_str; [done|].
      rewrite app_nil_r. by apply drop_generation_none.
    + apply delta_from_str; [done|]. by apply drop_generation_v1.
    + intros _. apply delta_from_str; [done|]. by apply drop_generation_hex.
    + intros d [= <-]. by destruct n.
Qed.

Lemma layer_name_round_trip_witness :
  let n := Image (mkImageLayerName (mkRange (mkKey 0 0 0 0 0 0) (mkKey 0 6 0x7F 1 0 6)) 0x14FED58) in
  layer_name_from_str (layer_name_fmt n) = Ok n
  /\ layer_name_from_str (layer_name_fmt n ++ gen_get_suffix (GValid 1)) = Ok n
  /\ layer_name_from_str (layer_name_fmt n ++ gen_get_suffix (GValid 0x2000000)) = Panic.
Proof.
  set (n := Image _). cbv zeta.
  destruct (layer_name_round_trip n 1 (ts_unsharded []) [] 0) as (H1 & _ & H2 & _).
  { repeat split; cbn; lia. }
  { unfold in_u. lia. }
  destruct (layer_name_round_trip n 0x2000000 (ts_unsharded []) [] 0) as (_ & _ & _ & H3 & _).
  { repeat split; cbn; lia. }
  { unfold in_u. lia. }
  split_and!; [exact H1|apply H2|apply H3]; cbn.
  - intros [? _]. lia.
  - split; [lia|reflexivity].
Defined.
