(* ===== verification/LayerMap.v ===== *)
(** * The layer map ([pageserver/src/tenant/layer_map.rs])

    Which layer of a timeline answers for a key at an LSN: search for one key and
    for a range of keys, insertion and removal of layers in batches, the questions
    garbage collection and image creation ask, and the visibility of layers from
    the points where reads happen.  [None] is a panic: a failed assertion, an
    [unwrap], or arithmetic that leaves its type.  A layer in memory is its LSN
    range; the [watch] channel is the last value sent. *)

From S2P Require Import Prelude Lsn XlogUtils Key Shard KeySpace OrdMap LayerCoverage LayerName.

(** ** Layers *)

Record InMemoryLayer := mkInMemoryLayer { il_start_lsn : Lsn; il_end_lsn : option Lsn }.

Definition end_lsn_or_max (self : InMemoryLayer) : Lsn := default LSN_MAX (il_end_lsn self).
Definition il_lsn_range (self : InMemoryLayer) : Range Lsn := mkRange (il_start_lsn self) (end_lsn_or_max self).

Inductive InMemoryLayerHandle : Set := Open | Frozen (idx : nat).

#[global] Instance InMemoryLayerHandle_eq_dec : EqDecision InMemoryLayerHandle.
Proof. solve_decision. Defined.

Record InMemoryLayerDesc := mkInMemoryLayerDesc { imd_handle : InMemoryLayerHandle; imd_lsn_range : Range Lsn }.

#[global] Instance InMemoryLayerDesc_eq_dec : EqDecision InMemoryLayerDesc.
Proof. solve_decision. Defined.

Inductive ReadableLayerWeak : Type :=
| RPersistentLayer (l : PersistentLayerDesc)
| RInMemoryLayer (l : InMemoryLayerDesc).

#[global] Instance ReadableLayerWeak_eq_dec : EqDecision ReadableLayerWeak.
Proof. solve_decision. Defined.

Record SearchResult := mkSearchResult { sr_layer : ReadableLayerWeak; sr_lsn_floor : Lsn }.

#[global] Instance SearchResult_eq_dec : EqDecision SearchResult.
Proof. solve_decision. Defined.

Inductive LayerVisibilityHint : Set := Visible | Covered.

Definition is_l0 (key_range : Range Key) (is_delta_layer : bool) : bool :=
  is_delta_layer && bool_decide (key_range = mkRange KEY_MIN KEY_MAX).

(** [LayerKey::from]. *)
Definition layer_key (layer : PersistentLayerDesc) : option LayerKey :=
  s ← to_i128 (start (ld_key_range layer));
  e ← to_i128 (end_ (ld_key_range layer));
  Some (mkLayerKey (mkRange s e) (ld_lsn_range layer) (negb (ld_is_delta layer))).

(** ** Choosing a layer *)

(** [select_layer] but for three candidates. *)
Definition select_pair (delta_layer image_layer : option PersistentLayerDesc)
    (in_memory_layer : option InMemoryLayerDesc) (end_lsn : Lsn) : option (option SearchResult) :=
  match delta_layer, image_layer, in_memory_layer with
  | None, None, None => Some None
  | None, Some image, None =>
      Some (Some (mkSearchResult (RPersistentLayer image) (start (ld_lsn_range image))))
  | Some delta, None, None =>
      Some (Some (mkSearchResult (RPersistentLayer delta) (start (ld_lsn_range delta))))
  | Some delta, Some image, _ =>
      let img_lsn := start (ld_lsn_range image) in
      let image_is_newer := bool_decide (end_ (ld_lsn_range delta) <= end_ (ld_lsn_range image)) in
      above_img ← lsn_add img_lsn 1;
      let image_exact_match := bool_decide (above_img = end_lsn) in
      if image_is_newer || image_exact_match
      then Some (Some (mkSearchResult (RPersistentLayer image) img_lsn))
      else Some (Some (mkSearchResult (RPersistentLayer delta) (Z.max (start (ld_lsn_range delta)) above_img)))
  | None, None, Some inmem =>
      Some (Some (mkSearchResult (RInMemoryLayer inmem) (start (imd_lsn_range inmem))))
  | None, Some image, Some inmem =>
      let img_lsn := start (ld_lsn_range image) in
      let image_is_newer := bool_decide (end_ (imd_lsn_range inmem) <= end_ (ld_lsn_range image)) in
      above_img ← lsn_add img_lsn 1;
      let image_exact_match := bool_decide (above_img = end_lsn) in
      if image_is_newer || image_exact_match
      then Some (Some (mkSearchResult (RPersistentLayer image) img_lsn))
      else Some (Some (mkSearchResult (RInMemoryLayer inmem) (Z.max (start (imd_lsn_range inmem)) above_img)))
  | Some delta, None, Some inmem =>
      let delta_end := end_ (ld_lsn_range delta) in
      let delta_is_newer := bool_decide (end_ (imd_lsn_range inmem) <= delta_end) in
      let delta_exact_match := bool_decide (delta_end = end_lsn) in
      if delta_is_newer || delta_exact_match
      then Some (Some (mkSearchResult (RPersistentLayer delta) (start (ld_lsn_range delta))))
      else Some (Some (mkSearchResult (RInMemoryLayer inmem) (Z.max (start (imd_lsn_range inmem)) delta_end)))
  end.

(** The assertions every call of [select_layer] makes. *)
Definition select_asserts (delta_layer image_layer : option PersistentLayerDesc) : bool :=
  match delta_layer with Some l => ld_is_delta l | None => true end
  && match image_layer with Some l => negb (ld_is_delta l) | None => true end.

Definition select_layer (delta_layer image_layer : option PersistentLayerDesc)
    (in_memory_layer : option InMemoryLayerDesc) (end_lsn : Lsn) : option (option SearchResult) :=
  if negb (select_asserts delta_layer image_layer) then None else
  match delta_layer, image_layer, in_memory_layer with
  | Some delta, Some image, Some inmem =>
      persistent_res ← select_pair (Some delta) (Some image) None end_lsn;
      persistent_res ← persistent_res;
      match sr_layer persistent_res with
      | RInMemoryLayer _ => None
      | RPersistentLayer persistent_l =>
          inmem_res ←
            (if ld_is_delta persistent_l
             then select_pair (Some persistent_l) None (Some inmem) end_lsn
             else select_pair None (Some persistent_l) (Some inmem) end_lsn);
          inmem_res ← inmem_res;
          Some (Some (mkSearchResult (sr_layer inmem_res)
                        (Z.max (sr_lsn_floor persistent_res) (sr_lsn_floor inmem_res))))
      end
  | _, _, _ => select_pair delta_layer image_layer in_memory_layer end_lsn
  end.

(** ** Collecting a range *)

Notation found_map := (list (SearchResult * KeySpaceAccum)).
Notation changes := (list (Z * option PersistentLayerDesc)).

(** [found.entry(search_result).or_default().add_range(range)]. *)
Fixpoint found_add (search_result : SearchResult) (range : Range Key) (found : found_map) : option found_map :=
  match found with
  | [] => accum ← ka_add_range ka_new range; Some [(search_result, accum)]
  | (r, accum) :: found =>
      if decide (r = search_result)
      then accum ← ka_add_range accum range; Some ((r, accum) :: found)
      else found ← found_add search_result range found; Some ((r, accum) :: found)
  end.

Definition in_memory_result (inmem : InMemoryLayerDesc) : SearchResult :=
  mkSearchResult (RInMemoryLayer inmem) (start (imd_lsn_range inmem)).

Definition map_to_in_memory_layer (in_memory_layer : option InMemoryLayerDesc) (range : Range Key) :
    option found_map :=
  match in_memory_layer with
  | Some inmem => found_add (in_memory_result inmem) range []
  | None => Some []
  end.

Record RangeSearchCollector := mkCollector {
  rc_in_memory_layer : option InMemoryLayerDesc;
  rc_delta_coverage : changes;
  rc_image_coverage : changes;
  rc_key_range : Range Key;
  rc_end_lsn : Lsn;
  rc_current_delta : option PersistentLayerDesc;
  rc_current_image : option PersistentLayerDesc;
  rc_result : found_map
}.

Definition collector_new (key_range : Range Key) (end_lsn : Lsn) (in_memory_layer : option InMemoryLayerDesc)
    (delta_coverage image_coverage : changes) : RangeSearchCollector :=
  mkCollector in_memory_layer delta_coverage image_coverage key_range end_lsn None None [].

Definition with_result (self : RangeSearchCollector) (result : found_map) : RangeSearchCollector :=
  mkCollector (rc_in_memory_layer self) (rc_delta_coverage self) (rc_image_coverage self) (rc_key_range self)
    (rc_end_lsn self) (rc_current_delta self) (rc_current_image self) result.

Inductive NextLayerType : Set := NextDelta (at_ : Z) | NextImage (at_ : Z) | NextBoth (at_ : Z).

Definition next_change_at (self : NextLayerType) : Z :=
  match self with NextDelta at_ | NextImage at_ | NextBoth at_ => at_ end.
Definition next_change_at_key (self : NextLayerType) : Key := from_i128 (next_change_at self).

Definition pad_range (self : RangeSearchCollector) (key_range : Range Key) : option RangeSearchCollector :=
  if range_is_empty key_range then Some self else
  match rc_in_memory_layer self with
  | Some inmem => with_result self <$> found_add (in_memory_result inmem) key_range (rc_result self)
  | None => Some self
  end.

Definition add_range (self : RangeSearchCollector) (covered_range : Range Key) : option RangeSearchCollector :=
  selected ← select_layer (rc_current_delta self) (rc_current_image self) (rc_in_memory_layer self) (rc_end_lsn self);
  match selected with
  | Some search_result => with_result self <$> found_add search_result covered_range (rc_result self)
  | None => pad_range self covered_range
  end.

Definition advance (self : RangeSearchCollector) (layer_type : NextLayerType) : option RangeSearchCollector :=
  match layer_type with
  | NextDelta _ =>
      match rc_delta_coverage self with
      | (_, layer) :: rest =>
          Some (mkCollector (rc_in_memory_layer self) rest (rc_image_coverage self) (rc_key_range self)
                  (rc_end_lsn self) layer (rc_current_image self) (rc_result self))
      | [] => None
      end
  | NextImage _ =>
      match rc_image_coverage self with
      | (_, layer) :: rest =>
          Some (mkCollector (rc_in_memory_layer self) (rc_delta_coverage self) rest (rc_key_range self)
                  (rc_end_lsn self) (rc_current_delta self) layer (rc_result self))
      | [] => None
      end
  | NextBoth _ =>
      match rc_image_coverage self, rc_delta_coverage self with
      | (_, image_layer) :: image_rest, (_, delta_layer) :: delta_rest =>
          Some (mkCollector (rc_in_memory_layer self) delta_rest image_rest (rc_key_range self)
                  (rc_end_lsn self) delta_layer image_layer (rc_result self))
      | _, _ => None
      end
  end.

Definition choose_next_layer_type (self : RangeSearchCollector) : option NextLayerType :=
  match fst <$> head (rc_delta_coverage self), fst <$> head (rc_image_coverage self) with
  | None, None => None
  | Some next_delta_at, None => Some (NextDelta next_delta_at)
  | None, Some next_image_at => Some (NextImage next_image_at)
  | Some next_delta_at, Some next_image_at =>
      if decide (next_image_at < next_delta_at) then Some (NextImage next_image_at)
      else if decide (next_delta_at < next_image_at) then Some (NextDelta next_delta_at)
      else Some (NextBoth next_delta_at)
  end.

(** The loop of [collect]; every round but the last takes a change. *)
Fixpoint collect_loop (fuel : nat) (self : RangeSearchCollector) (current_range_start : Key) :
    outcome fuel_error RangeSearchCollector :=
  if key_ltb current_range_start (end_ (rc_key_range self)) then
    match fuel with
    | O => Err OutOfFuel
    | S fuel =>
        match choose_next_layer_type self with
        | Some t =>
            let current_range_end := next_change_at_key t in
            self ← of_option (add_range self (mkRange current_range_start current_range_end));
            self ← of_option (advance self t);
            collect_loop fuel self current_range_end
        | None =>
            let e := end_ (rc_key_range self) in
            self ← of_option (add_range self (mkRange current_range_start e));
            collect_loop fuel self e
        end
    end
  else Ok self.

Definition collect (fuel : nat) (self : RangeSearchCollector) : outcome fuel_error found_map :=
  match choose_next_layer_type self with
  | None => self ← of_option (pad_range self (rc_key_range self)); Ok (rc_result self)
  | Some layer_type =>
      if key_leb (end_ (rc_key_range self)) (next_change_at_key layer_type) then
        self ← of_option (pad_range self (rc_key_range self)); Ok (rc_result self)
      else
        let coverage_start := next_change_at_key layer_type in
        self ← of_option (pad_range self (mkRange (start (rc_key_range self)) coverage_start));
        self ← of_option (advance self layer_type);
        self ← collect_loop fuel self coverage_start;
        Ok (rc_result self)
  end.

(** ** The map *)

Section layer_map.
Context `{!RbMap}.

Record LayerMap := mkLayerMap {
  lm_open_layer : option InMemoryLayer;
  lm_next_open_layer_at : option Lsn;
  lm_frozen_layers : list InMemoryLayer;
  lm_historic : Buffered PersistentLayerDesc;
  lm_l0_delta_layers : list PersistentLayerDesc;
  lm_watch_l0_deltas : Z
}.

Definition layer_map_default : LayerMap := mkLayerMap None None [] buffered_new [] 0.

Definition with_historic (self : LayerMap) (h : Buffered PersistentLayerDesc) : LayerMap :=
  mkLayerMap (lm_open_layer self) (lm_next_open_layer_at self) (lm_frozen_layers self) h
    (lm_l0_delta_layers self) (lm_watch_l0_deltas self).

(** [l0_delta_layers = l0] and [send_replace(l0.len())]. *)
Definition with_l0 (self : LayerMap) (l0 : list PersistentLayerDesc) : LayerMap :=
  mkLayerMap (lm_open_layer self) (lm_next_open_layer_at self) (lm_frozen_layers self) (lm_historic self)
    l0 (Z.of_nat (length l0)).

Definition insert_historic_noflush (self : LayerMap) (layer_desc : PersistentLayerDesc) : option LayerMap :=
  let self :=
    if is_l0 (ld_key_range layer_desc) (ld_is_delta layer_desc)
    then with_l0 self (lm_l0_delta_layers self ++ [layer_desc])
    else self in
  key ← layer_key layer_desc;
  Some (with_historic self (buffered_insert key layer_desc (lm_historic self))).

Definition remove_historic_noflush (self : LayerMap) (layer_desc : PersistentLayerDesc) : option LayerMap :=
  key ← layer_key layer_desc;
  let self := with_historic self (buffered_remove key (lm_historic self)) in
  if is_l0 (ld_key_range layer_desc) (ld_is_delta layer_desc) then
    let len_before := length (lm_l0_delta_layers self) in
    let l0 := filter (fun other => desc_key other <> desc_key layer_desc) (lm_l0_delta_layers self) in
    let self := with_l0 self l0 in
    if decide (Z.of_nat (length l0) = Z.of_nat len_before - 1) then Some self else None
  else Some self.

Definition flush_updates (self : LayerMap) : option LayerMap :=
  with_historic self <$> buffered_rebuild (lm_historic self).

Definition level0_deltas (self : LayerMap) : list PersistentLayerDesc := lm_l0_delta_layers self.

(** The last index whose layer satisfies the predicate, as [enumerate().rfind()]. *)
Fixpoint rfind_from (i : nat) (p : InMemoryLayer -> bool) (l : list InMemoryLayer) : option (nat * InMemoryLayer) :=
  match l with
  | [] => None
  | x :: l =>
      match rfind_from (S i) p l with
      | Some r => Some r
      | None => if p x then Some (i, x) else None
      end
  end.

Definition search_in_memory_layer (self : LayerMap) (below : Lsn) : option InMemoryLayerDesc :=
  let is_below l := bool_decide (start (il_lsn_range l) < below) in
  let frozen :=
    (fun e => mkInMemoryLayerDesc (Frozen e.1) (il_lsn_range e.2)) <$> rfind_from 0 is_below (lm_frozen_layers self) in
  match lm_open_layer self with
  | Some open => if is_below open then Some (mkInMemoryLayerDesc Open (il_lsn_range open)) else frozen
  | None => frozen
  end.

Definition in_memory_layer (self : LayerMap) (desc : InMemoryLayerDesc) : option InMemoryLayer :=
  match imd_handle desc with
  | Open => lm_open_layer self
  | Frozen idx => lm_frozen_layers self !! idx
  end.

(** [self.historic.get().unwrap().get_version(lsn)]. *)
Definition version_at (self : LayerMap) (lsn : Lsn) : option (option (LayerCoverageTuple PersistentLayerDesc)) :=
  get_version lsn <$> buffered_get (lm_historic self).

Definition search (self : LayerMap) (key : Key) (end_lsn : Lsn) : option (option SearchResult) :=
  let in_memory_layer := search_in_memory_layer self end_lsn in
  below ← checked_sub end_lsn 1;
  version ← version_at self below;
  match version with
  | None => Some (in_memory_result <$> in_memory_layer)
  | Some version =>
      k ← to_i128 key;
      select_layer (coverage_query k (delta_coverage version)) (coverage_query k (image_coverage version))
        in_memory_layer end_lsn
  end.

Definition range_search (self : LayerMap) (key_range : Range Key) (end_lsn : Lsn) : outcome fuel_error found_map :=
  let in_memory_layer := search_in_memory_layer self end_lsn in
  below ← of_option (checked_sub end_lsn 1);
  version ← of_option (version_at self below);
  match version with
  | None => of_option (map_to_in_memory_layer in_memory_layer key_range)
  | Some version =>
      s ← of_option (to_i128 (start key_range));
      e ← of_option (to_i128 (end_ key_range));
      let delta_changes := coverage_range_overlaps (mkRange s e) (delta_coverage version) in
      let image_changes := coverage_range_overlaps (mkRange s e) (image_coverage version) in
      collect (length delta_changes + length image_changes + 1)
        (collector_new key_range end_lsn in_memory_layer delta_changes image_changes)
  end.

Definition image_layer_exists (self : LayerMap) (key : Range Key) (lsn : Range Lsn) : option bool :=
  if range_is_empty key then Some true else
  below ← checked_sub (end_ lsn) 1;
  version ← version_at self below;
  match version with
  | None => Some false
  | Some version =>
      s ← to_i128 (start key);
      e ← to_i128 (end_ key);
      let layer_covers (layer : option PersistentLayerDesc) :=
        match layer with
        | Some layer => bool_decide (start lsn <= start (ld_lsn_range layer))
        | None => false
        end in
      if negb (layer_covers (coverage_query s (image_coverage version))) then Some false
      else Some (forallb (fun c => layer_covers c.2) (coverage_range (mkRange s e) (image_coverage version)))
  end.

Definition iter_historic_layers (self : LayerMap) : option (list PersistentLayerDesc) :=
  buffered_iter (lm_historic self).

(** The intervals between the changes of coverage. *)
Fixpoint coverage_intervals (current_key : Z) (current_val : option PersistentLayerDesc) (l : changes) (e : Z) :
    list (Range Key * option PersistentLayerDesc) :=
  match l with
  | [] => [(mkRange (from_i128 current_key) (from_i128 e), current_val)]
  | (change_key, change_val) :: l =>
      (mkRange (from_i128 current_key) (from_i128 change_key), current_val)
      :: coverage_intervals change_key change_val l e
  end.

Definition lm_image_coverage (self : LayerMap) (key_range : Range Key) (lsn : Lsn) :
    option (list (Range Key * option PersistentLayerDesc)) :=
  version ← version_at self lsn;
  match version with
  | None => Some []
  | Some version =>
      s ← to_i128 (start key_range);
      e ← to_i128 (end_ key_range);
      Some (coverage_intervals s (coverage_query s (image_coverage version))
              (coverage_range (mkRange s e) (image_coverage version)) e)
  end.

Definition is_reimage_worthy (layer : PersistentLayerDesc) (partition_range : Range Key) : bool :=
  if negb (is_l0 (ld_key_range layer) (ld_is_delta layer)) then true
  else bool_decide (partition_range = mkRange KEY_MIN KEY_MAX).

Definition lsn_range_is_empty (r : Range Lsn) : bool := negb (bool_decide (start r < end_ r)).

(** The parts between the changes of coverage, each combined into the accumulator. *)
Fixpoint fold_parts {E A} (part : Z -> Z -> option PersistentLayerDesc -> A -> outcome E A)
    (current_key : Z) (current_val : option PersistentLayerDesc) (l : changes) (e : Z) (acc : A) : outcome E A :=
  match l with
  | [] => part current_key e current_val acc
  | (change_key, change_val) :: l =>
      acc ← part current_key change_key current_val acc;
      fold_parts part change_key change_val l e acc
  end.

(** One level of recursion for each LSN of the range is enough: each goes right
    below the start of a layer. *)
Fixpoint count_deltas (fuel : nat) (self : LayerMap) (key : Range Key) (lsn : Range Lsn) (limit : option Z) :
    outcome fuel_error Z :=
  if lsn_range_is_empty lsn || range_is_empty key || bool_decide (limit = Some 0) then Ok 0 else
  match fuel with
  | O => Err OutOfFuel
  | S fuel =>
      below ← of_option (checked_sub (end_ lsn) 1);
      version ← of_option (version_at self below);
      match version with
      | None => Ok 0
      | Some version =>
          s ← of_option (to_i128 (start key));
          e ← of_option (to_i128 (end_ key));
          let part current_key change_key current_val max_stacked_deltas :=
            match current_val with
            | Some val =>
                if decide (start lsn < end_ (ld_lsn_range val)) then
                  let kr := mkRange (from_i128 current_key) (from_i128 change_key) in
                  let lr := mkRange (start lsn) (start (ld_lsn_range val)) in
                  if range_is_empty kr then Ok max_stacked_deltas else
                  let base_count := if is_reimage_worthy val key then 1 else 0 in
                  new_limit ← match limit with
                              | Some l => Some <$> of_option (checked_sub l base_count)
                              | None => Ok None
                              end;
                  under ← count_deltas fuel self kr lr new_limit;
                  Ok (Z.max max_stacked_deltas (base_count + under))
                else Ok max_stacked_deltas
            | None => Ok max_stacked_deltas
            end in
          fold_parts part s (coverage_query s (delta_coverage version))
            (coverage_range (mkRange s e) (delta_coverage version)) e 0
      end
  end.
End layer_map.
