(* ===== verification/LayerMapUpdates.v ===== *)
(** * Updates of the layer map

    Which descriptors a layer map holds, and that every batch of insertions and
    removals keeps the index, the list of L0 layers and the number of them that is
    announced consistent with one another. *)

From S2P Require Import Prelude Lsn XlogUtils Key Shard KeySpace OrdMap LayerCoverage LayerCoverageFacts.
From S2P Require Import LayerName LayerMap.

(** ** Descriptors and the state *)

Definition lsn_range_ok (r : Range Lsn) : Prop := 0 <= start r < end_ r /\ end_ r <= u64_max.

(** The descriptors the pageserver makes: keys that have a 128-bit form, non-empty
    ranges, and images of one LSN. *)
Definition desc_ok (d : PersistentLayerDesc) : Prop :=
  lsn_range_ok (ld_lsn_range d) /\ key_wf (start (ld_key_range d)) /\ key_wf (end_ (ld_key_range d))
  /\ (exists s e, to_i128 (start (ld_key_range d)) = Some s /\ to_i128 (end_ (ld_key_range d)) = Some e /\ s < e)
  /\ (ld_is_delta d = false -> end_ (ld_lsn_range d) = start (ld_lsn_range d) + 1).

Lemma desc_ok_key d : desc_ok d -> exists lk, layer_key d = Some lk /\ layer_key_ok lk
  /\ lk_lsn lk = ld_lsn_range d /\ lk_is_image lk = negb (ld_is_delta d).
Proof.
  intros (Hl & _ & _ & (s & e & Hs & He & Hlt) & _). unfold layer_key. rewrite Hs, He. cbn [mbind option_bind].
  eexists. split_and!; try done. unfold lsn_range_ok in Hl. unfold layer_key_ok. cbn. lia.
Qed.

(** A key lies in the range of a layer, both as integers. *)
Definition covers_key (k : Z) (d : PersistentLayerDesc) : Prop :=
  exists lk, layer_key d = Some lk /\ start (lk_key lk) <= k < end_ (lk_key lk).

Section facts.
Context `{!RbMap, !RbMapLaws}.
Implicit Types (m : LayerMap) (d : PersistentLayerDesc).

Definition entries_ok (L : ordmap LayerKey PersistentLayerDesc) : Prop :=
  forall lk d, (lk, d) ∈ L -> layer_key d = Some lk /\ desc_ok d.

(** Between batches: everything is flushed. *)
Record lm_ok m : Prop := {
  lmo_flushed : bh_buffer (lm_historic m) = [];
  lmo_buffered : buffered_ok (lm_historic m);
  lmo_entries : entries_ok (bh_layers (lm_historic m))
}.

Definition in_map m d : Prop := exists lk, (lk, d) ∈ bh_layers (lm_historic m).

Lemma entries_keys_ok L : entries_ok L -> Forall (fun e => layer_key_ok e.1) L.
Proof.
  intros H1. apply Forall_forall. intros [lk d] Hin. destruct (H1 _ _ Hin) as [Hk (lk' & Hk' & Hok & _)%desc_ok_key].
  cbn. congruence.
Qed.


(** ** Batches of updates *)

Definition desc_is_l0 d : bool := is_l0 (ld_key_range d) (ld_is_delta d).

(** Also within a batch: [L] are the layers with the buffered updates applied. *)
Record lm_inv (L : ordmap LayerKey PersistentLayerDesc) m : Prop := {
  li_buffered : buffered_ok (lm_historic m);
  li_layers : layers_of (lm_historic m) = L;
  li_entries : entries_ok L;
  li_l0 d : d ∈ lm_l0_delta_layers m <-> desc_is_l0 d = true /\ exists lk, (lk, d) ∈ L;
  li_l0_nodup : NoDup (map desc_key (lm_l0_delta_layers m));
  li_watch : lm_watch_l0_deltas m = Z.of_nat (length (lm_l0_delta_layers m))
}.

Inductive lm_op : Type :=
| LInsert (d : PersistentLayerDesc)
| LRemove (d : PersistentLayerDesc)
| LFlush.

Definition lm_step m (op : lm_op) : option LayerMap :=
  match op with
  | LInsert d => insert_historic_noflush m d
  | LRemove d => remove_historic_noflush m d
  | LFlush => flush_updates m
  end.

Fixpoint lm_run m (ops : list lm_op) : option LayerMap :=
  match ops with
  | [] => Some m
  | op :: ops => m ← lm_step m op; lm_run m ops
  end.

Definition lm_spec (L : ordmap LayerKey PersistentLayerDesc) (op : lm_op) : ordmap LayerKey PersistentLayerDesc :=
  match op with
  | LInsert d => match layer_key d with Some lk => oinsert lk d L | None => L end
  | LRemove d => match layer_key d with Some lk => oremove lk L | None => L end
  | LFlush => L
  end.

(** A layer is inserted once, and removed when it is there. *)
Definition lm_op_ok (L : ordmap LayerKey PersistentLayerDesc) (op : lm_op) : Prop :=
  match op with
  | LInsert d => desc_ok d /\ forall lk d', layer_key d = Some lk -> (lk, d') ∉ L
  | LRemove d => exists lk, layer_key d = Some lk /\ (lk, d) ∈ L
  | LFlush => True
  end.

Fixpoint lm_ops_ok (L : ordmap LayerKey PersistentLayerDesc) (ops : list lm_op) : Prop :=
  match ops with
  | [] => True
  | op :: ops => lm_op_ok L op /\ lm_ops_ok (lm_spec L op) ops
  end.

(** L0 layers with the same key are the same entry. *)
Lemma l0_key_inj d d' lk lk' :
  desc_is_l0 d = true -> desc_is_l0 d' = true -> layer_key d = Some lk -> layer_key d' = Some lk' ->
  desc_key d = desc_key d' -> lk = lk'.
Proof.
  intros _ _ Hk Hk' E. unfold desc_key in E. injection E as E1 E2 E3. unfold layer_key in *.
  rewrite E1, E2, E3 in Hk. congruence.
Qed.

Lemma lm_inv_sorted L m : lm_inv L m -> osorted L.
Proof. intros [[Hs _ _] <- _ _ _ _]. by apply apply_updates_sorted. Qed.

Lemma lm_insert_ok L m d :
  lm_inv L m -> lm_op_ok L (LInsert d) -> exists m', lm_step m (LInsert d) = Some m' /\ lm_inv (lm_spec L (LInsert d)) m'.
Proof.
  intros Hm [Hok Habs]. destruct (desc_ok_key d Hok) as (lk & Hlk & _). pose proof (lm_inv_sorted L m Hm) as HsL.
  destruct Hm as [Hb HL He H0' Hnd Hw]. destruct Hb as [Hs HB Hh].
  unfold lm_step, lm_spec, insert_historic_noflush. rewrite Hlk. cbn [mbind option_bind].
  assert (forall d', (exists lk', (lk', d') ∈ oinsert lk d L) <-> d' = d \/ exists lk', (lk', d') ∈ L) as Hin.
  { intros d'. setoid_rewrite elem_of_oinsert; [|done..]. split.
    - intros (lk' & [[= _ ->]|[? _]]); eauto.
    - intros [->|[lk' Hin]]; [eauto|]. exists lk'. right. split; [done|]. cbn. intros ->. by apply (Habs lk d'). }
  assert (entries_ok (oinsert lk d L)) as He'.
  { intros lk' d' [[= -> ->]|[Hin' _]]%elem_of_oinsert; [done|by apply He|done]. }
  assert (buffered_ok (buffered_insert lk d (lm_historic m))) as Hb'
    by (split; [done|by apply oinsert_sorted|done]).
  assert (layers_of (buffered_insert lk d (lm_historic m)) = oinsert lk d L) as HL'
    by (rewrite <- HL; exact (layers_of_update lk (Some d) _ Hs HB)).
  fold (desc_is_l0 d). destruct (desc_is_l0 d) eqn:E0; (eexists; split; [done|]); split; cbn; try done.
  - intros d'. rewrite elem_of_app, list_elem_of_singleton, H0', Hin. split.
    + intros [[? ?]| ->]; auto.
    + intros [? [->|?]]; auto.
  - rewrite map_app. cbn. apply NoDup_app. split_and!; [done| |apply NoDup_singleton].
    intros k (d' & -> & [Hl' [lk' Hin']]%H0')%list_elem_of_fmap Hk%list_elem_of_singleton.
    destruct (He _ _ Hin') as [Hlk' _]. assert (lk = lk') as <- by by apply (l0_key_inj d d').
    by apply (Habs lk d').
  - intros d'. rewrite H0', Hin. split; [intros [? ?]; auto|]. intros [Hl [->|?]]; [congruence|auto].
Qed.

Lemma filter_remove_length (l : list PersistentLayerDesc) d :
  NoDup (map desc_key l) -> d ∈ l ->
  length (filter (fun other => desc_key other <> desc_key d) l) = (length l - 1)%nat.
Proof.
  intros Hnd Hin. apply list_elem_of_split in Hin as (l1 & l2 & ->). rewrite map_app in Hnd. cbn in Hnd.
  apply NoDup_app in Hnd as (_ & Hx & [Hni _]%NoDup_cons).
  assert (forall l : list PersistentLayerDesc, (forall x, x ∈ l -> desc_key x <> desc_key d) -> filter (fun other => desc_key other <> desc_key d) l = l) as Hall.
  { intros l Hl. induction l as [|x l IH]; [done|]. rewrite filter_cons, decide_True by (apply Hl; left).
    f_equal. apply IH. intros y Hy. apply Hl. by right. }
  rewrite filter_app, filter_cons, decide_False, !Hall, !length_app; [cbn; lia|..|naive_solver].
  - intros x Hxl E. apply Hni. rewrite <- E. apply list_elem_of_fmap. eauto.
  - intros x Hxl E. apply (Hx (desc_key x)); [apply list_elem_of_fmap; eauto|]. rewrite E. left.
Qed.

Lemma lm_remove_ok L m d :
  lm_inv L m -> lm_op_ok L (LRemove d) -> exists m', lm_step m (LRemove d) = Some m' /\ lm_inv (lm_spec L (LRemove d)) m'.
Proof.
  intros Hm (lk & Hlk & Hd). pose proof (lm_inv_sorted L m Hm) as HsL. destruct Hm as [Hb HL He H0' Hnd Hw].
  destruct Hb as [Hs HB Hh]. unfold lm_step, lm_spec, remove_historic_noflush. rewrite Hlk. cbn [mbind option_bind].
  assert (forall lk' d', (lk', d') ∈ oremove lk L <-> (lk', d') ∈ L /\ lk' <> lk) as Hin.
  { intros lk' d'. unfold oremove. rewrite list_elem_of_filter. cbn. tauto. }
  assert (entries_ok (oremove lk L)) as He' by (intros lk' d' [? _]%Hin; by apply He).
  assert (buffered_ok (buffered_remove lk (lm_historic m))) as Hb'
    by (split; [done|by apply oinsert_sorted|done]).
  assert (layers_of (buffered_remove lk (lm_historic m)) = oremove lk L) as HL'
    by (rewrite <- HL; exact (layers_of_update lk None _ Hs HB)).
  fold (desc_is_l0 d). cbn [with_historic lm_l0_delta_layers]. destruct (desc_is_l0 d) eqn:E0.
  - assert (d ∈ lm_l0_delta_layers m) as Hd0 by (apply H0'; eauto).
    rewrite decide_True.
    2: { rewrite (filter_remove_length _ _ Hnd Hd0). destruct (lm_l0_delta_layers m); [by apply not_elem_of_nil in Hd0|cbn; lia]. }
    eexists. split; [done|]. split; cbn; try done.
    + intros d'. rewrite list_elem_of_filter, H0'. setoid_rewrite Hin. split.
      * intros (Hne & Hl & lk' & Hin'). split; [done|]. exists lk'. split; [done|]. intros ->. apply Hne.
        by rewrite (osorted_unique L lk d' d).
      * intros (Hl & lk' & Hin' & Hne). split_and!; [|done|eauto]. intros E. apply Hne.
        by apply (l0_key_inj d' d); [..|apply (He _ _ Hin')| |].
    + eapply sublist_NoDup; [exact Hnd|]. apply (fmap_sublist desc_key), sublist_filter.
  - eexists. split; [done|]. split; cbn; try done. intros d'. rewrite H0'. setoid_rewrite Hin. split.
    + intros (Hl & lk' & Hin'). split; [done|]. exists lk'. split; [done|]. intros ->.
      assert (d' = d) as -> by by apply (osorted_unique L lk). congruence.
    + intros (Hl & lk' & Hin' & _). eauto.
Qed.

Lemma lm_flush_ok L m :
  lm_inv L m -> exists m', lm_step m LFlush = Some m' /\ lm_inv L m' /\ lm_ok m' /\ bh_layers (lm_historic m') = L.
Proof.
  intros [Hb HL He H0' Hnd Hw]. unfold lm_step, flush_updates.
  destruct (buffered_rebuild_ok (lm_historic m) Hb) as (b' & -> & Hb' & Hl' & Hbuf).
  { rewrite HL. by apply entries_keys_ok. }
  assert (bh_layers b' = L) as Hlay.
  { rewrite <- HL, <- Hl'. unfold layers_of. by rewrite Hbuf. }
  eexists. split; [done|]. split_and!; [split; cbn; try done; congruence|split; cbn; try done; by rewrite Hlay|done].
Qed.

Lemma lm_run_ok ops : forall L m,
  lm_inv L m -> lm_ops_ok L ops -> exists m', lm_run m ops = Some m' /\ lm_inv (fold_left lm_spec ops L) m'.
Proof.
  induction ops as [|op ops IH]; intros L m Hm Hops; cbn [lm_run fold_left]; [eauto|].
  destruct Hops as [Hop Hops]. assert (exists m', lm_step m op = Some m' /\ lm_inv (lm_spec L op) m') as (m' & -> & Hm').
  { destruct op as [d|d|]; [by apply lm_insert_ok|by apply lm_remove_ok|].
    destruct (lm_flush_ok L m Hm) as (m' & ? & ? & _). eauto. }
  cbn [mbind option_bind]. by apply IH.
Qed.

Lemma lm_inv_default : lm_inv [] layer_map_default.
Proof.
  split; cbn; try done.
  - apply buffered_ok_new.
  - intros lk d Hin. by apply not_elem_of_nil in Hin.
  - intros d. set_solver.
  - constructor.
Qed.

Lemma lm_run_snoc m ops op : lm_run m (ops ++ [op]) = m ← lm_run m ops; lm_step m op.
Proof.
  revert m. induction ops as [|o ops IH]; intros m; cbn [lm_run app mbind option_bind].
  - by destruct (lm_step m op).
  - destruct (lm_step m o); [apply IH|done].
Qed.

Lemma layer_map_updates_lemma (ops : list lm_op) :
  lm_ops_ok [] ops ->
  exists m, lm_run layer_map_default (ops ++ [LFlush]) = Some m /\ lm_ok m
  /\ bh_layers (lm_historic m) = fold_left lm_spec ops []
  /\ (forall d, d ∈ level0_deltas m <-> in_map m d /\ is_l0 (ld_key_range d) (ld_is_delta d) = true)
  /\ NoDup (level0_deltas m) /\ lm_watch_l0_deltas m = Z.of_nat (length (level0_deltas m)).
Proof.
  intros Hops. destruct (lm_run_ok ops [] layer_map_default lm_inv_default Hops) as (m & Hr & Hm).
  destruct (lm_flush_ok _ m Hm) as (m' & Hf & Hm' & Hok & Hl). exists m'. rewrite lm_run_snoc, Hr. cbn [mbind option_bind].
  destruct Hm' as [_ _ _ H0' Hnd Hw]. split_and!; try done.
  - intros d. unfold level0_deltas, in_map. rewrite H0', Hl. unfold desc_is_l0. tauto.
  - apply (NoDup_fmap_1 desc_key), Hnd.
Qed.

(** C25: Updates of the layer map: for any batches of insertions of layers that
    are not in the map and removals of layers that are, no update and no flush
    panics; after a flush the map holds exactly the layers inserted and not removed,
    the list of L0 layers is that of the layers with the whole key space, without
    repetition, and the number announced to subscribers is its length. *)
Theorem layer_map_updates (ops : list lm_op) :
  lm_ops_ok [] ops ->
  exists m, lm_run layer_map_default (ops ++ [LFlush]) = Some m /\ lm_ok m
  /\ bh_layers (lm_historic m) = fold_left lm_spec ops []
  /\ (forall d, d ∈ level0_deltas m <-> in_map m d /\ is_l0 (ld_key_range d) (ld_is_delta d) = true)
  /\ NoDup (level0_deltas m) /\ lm_watch_l0_deltas m = Z.of_nat (length (level0_deltas m)).
Proof. apply layer_map_updates_lemma. Qed.
End facts.

(** ** An example *)

(** The conditions on updates, decided. *)
Definition desc_okb (d : PersistentLayerDesc) : bool :=
  bool_decide (0 <= start (ld_lsn_range d) < end_ (ld_lsn_range d) /\ end_ (ld_lsn_range d) <= u64_max)
  && bool_decide (key_wf (start (ld_key_range d)) /\ key_wf (end_ (ld_key_range d)))
  && match to_i128 (start (ld_key_range d)), to_i128 (end_ (ld_key_range d)) with
     | Some s, Some e => bool_decide (s < e)
     | _, _ => false
     end
  && (ld_is_delta d || bool_decide (end_ (ld_lsn_range d) = start (ld_lsn_range d) + 1)).

Definition lm_op_okb (L : ordmap LayerKey PersistentLayerDesc) (op : lm_op) : bool :=
  match op with
  | LInsert d =>
      desc_okb d
      && match layer_key d with Some lk => forallb (fun e => negb (bool_decide (e.1 = lk))) L | None => false end
  | LRemove d =>
      match layer_key d with Some lk => existsb (fun e => bool_decide (e = (lk, d))) L | None => false end
  | LFlush => true
  end.

Fixpoint lm_ops_okb (L : ordmap LayerKey PersistentLayerDesc) (ops : list lm_op) : bool :=
  match ops with [] => true | op :: ops => lm_op_okb L op && lm_ops_okb (lm_spec L op) ops end.

Lemma desc_okb_ok d : desc_okb d = true -> desc_ok d.
Proof.
  unfold desc_okb. rewrite !andb_true_iff, !bool_decide_eq_true. intros (((H1 & [H2 H3]) & H4) & H5).
  split_and!; [done|done|done|..].
  - destruct (to_i128 (start _)) as [s|], (to_i128 (end_ _)) as [e|]; try done. apply bool_decide_eq_true in H4. eauto.
  - intros Hd. rewrite Hd in H5. by apply bool_decide_eq_true in H5.
Qed.

Lemma lm_ops_okb_ok L ops : lm_ops_okb L ops = true -> lm_ops_ok L ops.
Proof.
  revert L. induction ops as [|op ops IH]; intros L; [done|]. cbn [lm_ops_okb lm_ops_ok].
  rewrite andb_true_iff. intros [Hop Hops]. split; [|by apply IH]. destruct op as [d|d|]; [| |done]; cbn in *.
  - apply andb_true_iff in Hop as [Hd%desc_okb_ok Hk]. split; [done|]. intros lk d' Hlk Hin. rewrite Hlk in Hk.
    rewrite forallb_forall in Hk. apply list_elem_of_In, Hk in Hin. cbn in Hin. by rewrite bool_decide_eq_true_2 in Hin.
  - destruct (layer_key d) as [lk|]; [|done]. exists lk. split; [done|]. apply existsb_exists in Hop as (e & Hin & E).
    apply bool_decide_eq_true in E as ->. by apply list_elem_of_In.
Qed.

Definition example_shard : TenantShardId := ts_unsharded [].
Definition example_range : Range Key := mkRange (mkKey 0 1663 5 16384 0 10) (mkKey 0 1663 5 16384 0 20).
Definition example_image : PersistentLayerDesc := mkLayerDesc example_shard [] example_range (mkRange 50 51) false 8192.
Definition example_delta : PersistentLayerDesc := mkLayerDesc example_shard [] example_range (mkRange 40 80) true 8192.
Definition example_l0 : PersistentLayerDesc :=
  mkLayerDesc example_shard [] (mkRange KEY_MIN KEY_MAX) (mkRange 80 90) true 8192.

(** Inserted newest first, in two batches; one layer is removed again. *)
Definition example_ops : list lm_op :=
  [LInsert example_l0; LInsert (mkLayerDesc example_shard [] example_range (mkRange 70 71) false 1); LFlush;
   LInsert example_image; LRemove (mkLayerDesc example_shard [] example_range (mkRange 70 71) false 1);
   LInsert example_delta].

(** With the open layer from LSN 90 on. *)
Definition example_map : LayerMap :=
  match lm_run layer_map_default (example_ops ++ [LFlush]) with
  | Some m => mkLayerMap (Some (mkInMemoryLayer 90 None)) None [] (lm_historic m) (lm_l0_delta_layers m) (lm_watch_l0_deltas m)
  | None => layer_map_default
  end.

Lemma example_map_ok :
  lm_ok example_map
  /\ (bh_layers (lm_historic example_map)).*2 = [example_delta; example_image; example_l0].
Proof.
  destruct (layer_map_updates_lemma example_ops) as (m & Hr & [H1 H2 H3] & Hl & _).
  { apply lm_ops_okb_ok. vm_compute. reflexivity. }
  unfold example_map. rewrite Hr. split; [by split|]. cbn [lm_historic]. rewrite Hl. vm_compute. reflexivity.
Qed.

Lemma layer_map_updates_witness :
  exists m, lm_run layer_map_default (example_ops ++ [LFlush]) = Some m
  /\ (bh_layers (lm_historic m)).*2 = [example_delta; example_image; example_l0]
  /\ lm_watch_l0_deltas m = Z.of_nat (length (level0_deltas m)).
Proof.
  destruct (layer_map_updates example_ops) as (m & Hr & _ & Hl & _ & _ & Hw).
  { apply lm_ops_okb_ok. vm_compute. reflexivity. }
  exists m. split; [exact Hr|]. split; [|exact Hw]. rewrite Hl. vm_compute. reflexivity.
Defined.
