(* ===== verification/LayerMapFacts.v ===== *)
(** * Properties of the layer map

    Updates keep the map consistent; a search makes progress, skips no image and
    no WAL; the search of a range agrees with the search of each of its keys; and
    the questions of garbage collection and image creation are answered as a scan
    of all layers would. *)

From S2P Require Import Prelude Lsn XlogUtils Key Shard KeySpace OrdMap LayerCoverage LayerCoverageFacts.
From S2P Require Import LayerName LayerMap LayerMapUpdates.

Section facts.
Context `{!RbMap, !RbMapLaws}.
Implicit Types (m : LayerMap) (d : PersistentLayerDesc).

(** The layers of one kind that have the key and start at or below an LSN. *)
Definition candidate (img : bool) (k lsn : Z) m d : Prop :=
  in_map m d /\ ld_is_delta d = negb img /\ covers_key k d /\ start (ld_lsn_range d) <= lsn.

Lemma version_at_ok m lsn :
  lm_ok m -> exists v, version_at m lsn = Some v /\ version_spec lsn (bh_layers (lm_historic m)) v.
Proof.
  intros [Hf [_ _ Hh] He]. unfold version_at, buffered_get. rewrite Hf. cbn [fmap option_fmap option_map].
  eexists. split; [done|]. apply get_version_ok; [done|]. by apply entries_keys_ok.
Qed.

(** The coverage names the candidate of highest end LSN. *)
Lemma query_candidate img k lsn m t :
  lm_ok m -> version_spec lsn (bh_layers (lm_historic m)) (Some t) ->
  match coverage_query k (coverage_of img t) with
  | None => forall d, ~ candidate img k lsn m d
  | Some d => candidate img k lsn m d
      /\ forall d', candidate img k lsn m d' -> end_ (ld_lsn_range d') <= end_ (ld_lsn_range d)
  end.
Proof.
  intros [_ _ He] Hv. specialize (Hv img k).
  assert (forall lk d, (lk, d) ∈ upto lsn (bh_layers (lm_historic m)) -> covers img k lk <-> candidate img k lsn m d) as Hc.
  { intros lk d [Hle Hin]%list_elem_of_filter. destruct (He _ _ Hin) as [Hk Hok].
    destruct (desc_ok_key d Hok) as (lk' & Hk' & _ & Hl & Hi). assert (lk' = lk) as -> by congruence.
    unfold covers, candidate, covers_key, in_map. unfold lsn_start in Hle. cbn [fst] in Hle. rewrite Hl in Hle. split.
    - intros [Himg Hr]. split_and!; [eauto| |eauto|done]. rewrite <- Himg, Hi. by destruct (ld_is_delta d).
    - intros (_ & Hd & (lk2 & Hk2 & Hr) & _). assert (lk2 = lk) as -> by congruence. split; [|done].
      rewrite Hi, Hd. by destruct img. }
  assert (forall d, candidate img k lsn m d -> exists lk, (lk, d) ∈ upto lsn (bh_layers (lm_historic m))
    /\ lk_lsn lk = ld_lsn_range d /\ covers img k lk) as Hin.
  { intros d Hd. pose proof Hd as ([lk Hlk] & _ & _ & Hle). exists lk.
    destruct (He _ _ Hlk) as [Hk Hok]. destruct (desc_ok_key d Hok) as (lk' & Hk' & _ & Hl & _).
    assert (lk' = lk) as -> by congruence.
    assert ((lk, d) ∈ upto lsn (bh_layers (lm_historic m))) as Hu.
    { apply list_elem_of_filter. split; [|done]. unfold lsn_start. cbn. by rewrite Hl. }
    split_and!; [done|done|]. by apply (Hc _ _ Hu). }
  destruct (coverage_query k (coverage_of img t)) as [d|]; cbn [latest_spec] in Hv.
  - destruct Hv as (L1 & lk & L2 & EL & Hcv & H1 & H2).
    assert ((lk, d) ∈ upto lsn (bh_layers (lm_historic m))) as Hd by (rewrite EL; set_solver).
    split; [by apply (Hc _ _ Hd)|]. intros d' Hd'. destruct (Hin d' Hd') as (lk' & Hu' & Hl' & Hcv').
    assert (lk_lsn lk = ld_lsn_range d) as Hl.
    { apply list_elem_of_filter in Hd as [_ Hd]. destruct (He _ _ Hd) as [Hk Hok].
      destruct (desc_ok_key d Hok) as (lk2 & Hk2 & _ & Hl2 & _). congruence. }
    rewrite EL in Hu'. apply elem_of_app in Hu' as [Hu'|[[= -> ->]|Hu']%elem_of_cons].
    + specialize (H1 _ Hu' Hcv'). cbn in H1. rewrite Hl, Hl' in H1. lia.
    + lia.
    + specialize (H2 _ Hu' Hcv'). cbn in H2. rewrite Hl, Hl' in H2. lia.
  - intros d Hd. destruct (Hin d Hd) as (lk & Hu & _ & Hcv). by apply (Hv _ Hu).
Qed.

(** ** Search *)

(** The layers in memory, oldest first. *)
Definition mem_layers m : list InMemoryLayer := lm_frozen_layers m ++ option_list (lm_open_layer m).

(** Layers in memory follow one another, and hold WAL newer than the deltas on
    disk (the comment on [frozen_layers]). *)
Record mem_ok m : Prop := {
  mo_ranges : Forall (fun l => lsn_range_ok (il_lsn_range l)) (mem_layers m);
  mo_sorted : StronglySorted (fun a b => end_lsn_or_max a <= il_start_lsn b) (mem_layers m);
  mo_newer d l : in_map m d -> ld_is_delta d = true -> l ∈ mem_layers m -> end_ (ld_lsn_range d) <= il_start_lsn l
}.

Lemma rfind_from_spec i p l :
  match rfind_from i p l with
  | None => Forall (fun x => p x = false) l
  | Some (j, x) => exists l1 l2, l = l1 ++ x :: l2 /\ j = (i + length l1)%nat /\ p x = true
      /\ Forall (fun x => p x = false) l2
  end.
Proof.
  revert i. induction l as [|x l IH]; intros i; cbn [rfind_from]; [done|].
  specialize (IH (S i)). destruct (rfind_from (S i) p l) as [[j y]|].
  - destruct IH as (l1 & l2 & -> & -> & ? & ?). exists (x :: l1), l2. split_and!; [done|cbn; lia|done|done].
  - destruct (p x) eqn:E; [|by constructor]. exists [], l. split_and!; [done|cbn; lia|done|done].
Qed.

(** The newest layer in memory that starts below an LSN. *)
Lemma search_in_memory_ok m below :
  mem_ok m ->
  match search_in_memory_layer m below with
  | None => forall l, l ∈ mem_layers m -> below <= il_start_lsn l
  | Some desc => exists l, in_memory_layer m desc = Some l /\ l ∈ mem_layers m
      /\ imd_lsn_range desc = il_lsn_range l /\ il_start_lsn l < below
      /\ forall l', l' ∈ mem_layers m -> below <= il_start_lsn l' \/ l' = l \/ end_lsn_or_max l' <= il_start_lsn l
  end.
Proof.
  intros [_ Hs _]. unfold search_in_memory_layer, mem_layers in *. cbv zeta.
  set (is_below l := bool_decide (start (il_lsn_range l) < below)).
  assert (forall l, is_below l = true <-> il_start_lsn l < below) as Hb.
  { intros l. unfold is_below. by rewrite bool_decide_eq_true. }
  assert (forall l, is_below l = false <-> below <= il_start_lsn l) as Hnb.
  { intros l. unfold is_below. rewrite bool_decide_eq_false. cbn. lia. }
  pose proof (rfind_from_spec 0 is_below (lm_frozen_layers m)) as Hf.
  destruct (lm_open_layer m) as [open|] eqn:Eo; cbn [option_list] in *;
    [change (bool_decide (start (il_lsn_range open) < below)) with (is_below open); destruct (is_below open) eqn:Ep|].
  - exists open. unfold in_memory_layer. cbn [imd_handle imd_lsn_range]. rewrite Eo. apply Hb in Ep. split_and!; [done|set_solver|done|done|].
    intros l' [Hin|Hin%list_elem_of_singleton]%elem_of_app; [|auto]. right. right.
    apply StronglySorted_app_inv in Hs as (_ & _ & Hs). apply (Hs l' open); [done|left].
  - destruct (rfind_from 0 is_below (lm_frozen_layers m)) as [[j l]|]; cbn [fmap option_fmap option_map fst snd].
    + destruct Hf as (l1 & l2 & El & -> & Hp & Hl2). exists l. unfold in_memory_layer. cbn [imd_handle imd_lsn_range].
      rewrite El. split_and!; [by rewrite list_lookup_middle|set_solver|done|by apply Hb|].
      rewrite <- app_assoc. intros l' [Hin|[->|[Hin|Hin%list_elem_of_singleton]%elem_of_app]%elem_of_cons]%elem_of_app; [| auto | |].
      * right. right. rewrite El, <- app_assoc in Hs. apply StronglySorted_app_inv in Hs as (_ & _ & Hs).
        apply (Hs l' l); [done|left].
      * left. rewrite Forall_forall in Hl2. by apply Hnb, Hl2.
      * left. subst l'. by apply Hnb.
    + intros l [Hin|Hin%list_elem_of_singleton]%elem_of_app.
      * rewrite Forall_forall in Hf. by apply Hnb, Hf.
      * subst l. by apply Hnb.
  - rewrite app_nil_r in *.
    destruct (rfind_from 0 is_below (lm_frozen_layers m)) as [[j l]|]; cbn [fmap option_fmap option_map fst snd].
    + destruct Hf as (l1 & l2 & El & -> & Hp & Hl2). exists l. unfold in_memory_layer. cbn [imd_handle imd_lsn_range].
      rewrite El. split_and!; [by rewrite list_lookup_middle|set_solver|done|by apply Hb|].
      intros l' [Hin|[->|Hin]%elem_of_cons]%elem_of_app; [|auto|].
      * right. right. rewrite El in Hs. apply StronglySorted_app_inv in Hs as (_ & _ & Hs).
        apply (Hs l' l); [done|left].
      * left. rewrite Forall_forall in Hl2. by apply Hnb, Hl2.
    + intros l Hin. rewrite Forall_forall in Hf. by apply Hnb, Hf.
Qed.

Definition is_image (r : SearchResult) : bool :=
  match sr_layer r with RPersistentLayer d => negb (ld_is_delta d) | RInMemoryLayer _ => false end.

Definition result_range (r : SearchResult) : Range Lsn :=
  match sr_layer r with RPersistentLayer d => ld_lsn_range d | RInMemoryLayer l => imd_lsn_range l end.

(** The layer of a result is in the map and has the key. *)
Definition result_in (k : Z) m (r : SearchResult) : Prop :=
  match sr_layer r with
  | RPersistentLayer d => in_map m d /\ covers_key k d
  | RInMemoryLayer l => exists l', in_memory_layer m l = Some l' /\ l' ∈ mem_layers m /\ imd_lsn_range l = il_lsn_range l'
  end.

(** The WAL positions below [end_lsn] that layers hold for a key. *)
Definition wal_at (k : Z) m (x : Lsn) : Prop :=
  (exists d, in_map m d /\ ld_is_delta d = true /\ covers_key k d
     /\ start (ld_lsn_range d) <= x < end_ (ld_lsn_range d))
  \/ (exists l, l ∈ mem_layers m /\ il_start_lsn l <= x < end_lsn_or_max l).

Definition image_at (k : Z) m (x : Lsn) : Prop :=
  exists d, in_map m d /\ ld_is_delta d = false /\ covers_key k d /\ start (ld_lsn_range d) = x.

Definition search_spec (k end_lsn : Z) m (r : option SearchResult) : Prop :=
  match r with
  | None => forall x, x < end_lsn -> ~ wal_at k m x /\ ~ image_at k m x
  | Some r =>
      result_in k m r /\ start (result_range r) <= sr_lsn_floor r < end_lsn
      /\ (is_image r = true -> image_at k m (sr_lsn_floor r))
      /\ (forall x, image_at k m x -> x < end_lsn -> x <= sr_lsn_floor r /\ (is_image r = false -> x < sr_lsn_floor r))
      /\ (forall x, wal_at k m x -> x < end_lsn ->
            if is_image r then x <= sr_lsn_floor r
            else x < sr_lsn_floor r \/ start (result_range r) <= x < end_ (result_range r))
  end.

Lemma in_map_ok m d : lm_ok m -> in_map m d -> desc_ok d.
Proof. intros [_ _ He] [lk Hin]. by apply He in Hin as [_ ?]. Qed.

(** What the three candidates have to be for [select_layer]. *)
Definition delta_best (k end_lsn : Z) m (od : option PersistentLayerDesc) : Prop :=
  match od with
  | None => forall d, ~ candidate false k (end_lsn - 1) m d
  | Some d => candidate false k (end_lsn - 1) m d
      /\ forall d', candidate false k (end_lsn - 1) m d' -> end_ (ld_lsn_range d') <= end_ (ld_lsn_range d)
  end.

Definition image_best (k end_lsn : Z) m (oi : option PersistentLayerDesc) : Prop :=
  match oi with
  | None => forall d, ~ candidate true k (end_lsn - 1) m d
  | Some d => candidate true k (end_lsn - 1) m d
      /\ forall d', candidate true k (end_lsn - 1) m d' -> end_ (ld_lsn_range d') <= end_ (ld_lsn_range d)
  end.

(** Bounds on the WAL and the images below [end_lsn] in terms of the candidates. *)
Lemma images_below k end_lsn m oi x :
  lm_ok m -> image_best k end_lsn m oi -> image_at k m x -> x < end_lsn ->
  match oi with None => False | Some i => x <= start (ld_lsn_range i) end.
Proof.
  intros Hm Hb (d & Hin & Hd & Hc & <-) Hlt.
  assert (candidate true k (end_lsn - 1) m d) as Hcand by (split_and!; [done|done|done|lia]).
  destruct oi as [i|]; [|by apply Hb in Hcand]. destruct Hb as [(Hini & Hi & _) Hmax]. specialize (Hmax _ Hcand).
  destruct (in_map_ok m d Hm Hin) as (_ & _ & _ & _ & E1). destruct (in_map_ok m i Hm Hini) as (_ & _ & _ & _ & E2).
  rewrite E1, E2 in Hmax by done. lia.
Qed.

Lemma wal_below k end_lsn m od x :
  mem_ok m -> delta_best k end_lsn m od -> wal_at k m x -> x < end_lsn ->
  match od with None => False | Some d => x < end_ (ld_lsn_range d) end
  \/ match search_in_memory_layer m end_lsn with
     | None => False
     | Some l => x < start (imd_lsn_range l) \/ x < end_ (imd_lsn_range l) /\ start (imd_lsn_range l) <= x
     end.
Proof.
  intros Hmem Hb [(d & Hin & Hd & Hc & Hx)|(l & Hin & Hx)] Hlt.
  - left. assert (candidate false k (end_lsn - 1) m d) as Hcand by (split_and!; [done|done|done|lia]).
    destruct od as [d'|]; [|by apply Hb in Hcand]. destruct Hb as [_ Hmax]. specialize (Hmax _ Hcand). lia.
  - right. pose proof (search_in_memory_ok m end_lsn Hmem) as Hs. destruct (search_in_memory_layer m end_lsn) as [desc|].
    + destruct Hs as (l' & _ & _ & -> & _ & Hl'). cbn. destruct (Hl' l Hin) as [?|[->|?]]; lia.
    + specialize (Hs l Hin). lia.
Qed.

Lemma lsn_add_1 l : 0 <= l -> l + 1 <= u64_max -> lsn_add l 1 = Some (l + 1).
Proof. intros H1 H2. unfold lsn_add, u64_max in *. rewrite decide_True; [done|lia]. Qed.

(** The three kinds of result. *)
Lemma result_delta k end_lsn m d floor :
  candidate false k (end_lsn - 1) m d -> start (ld_lsn_range d) <= floor < end_lsn ->
  (forall x, image_at k m x -> x < end_lsn -> x < floor) ->
  (forall x, wal_at k m x -> x < end_lsn -> x < floor \/ start (ld_lsn_range d) <= x < end_ (ld_lsn_range d)) ->
  search_spec k end_lsn m (Some (mkSearchResult (RPersistentLayer d) floor)).
Proof.
  intros (Hin & Hd & Hc & _) Hf Hi Hw. unfold search_spec, is_image, result_range, result_in. cbn [sr_layer sr_lsn_floor].
  rewrite Hd. cbn [negb]. split_and!; try done; try lia. intros x Hx Hlt. specialize (Hi x Hx Hlt). lia.
Qed.

Lemma result_image k end_lsn m i :
  candidate true k (end_lsn - 1) m i ->
  (forall x, image_at k m x -> x < end_lsn -> x <= start (ld_lsn_range i)) ->
  (forall x, wal_at k m x -> x < end_lsn -> x <= start (ld_lsn_range i)) ->
  search_spec k end_lsn m (Some (mkSearchResult (RPersistentLayer i) (start (ld_lsn_range i)))).
Proof.
  intros (Hin & Hd & Hc & Hlt) Hi Hw. unfold search_spec, is_image, result_range, result_in. cbn [sr_layer sr_lsn_floor].
  rewrite Hd. cbn [negb]. split_and!; try done; try lia.
  - intros _. by exists i.
  - intros x Hx Hx'. split; [by apply Hi|done].
Qed.

Lemma result_mem k end_lsn m l l' floor :
  in_memory_layer m l = Some l' -> l' ∈ mem_layers m -> imd_lsn_range l = il_lsn_range l' ->
  start (imd_lsn_range l) <= floor < end_lsn ->
  (forall x, image_at k m x -> x < end_lsn -> x < floor) ->
  (forall x, wal_at k m x -> x < end_lsn -> x < floor \/ start (imd_lsn_range l) <= x < end_ (imd_lsn_range l)) ->
  search_spec k end_lsn m (Some (mkSearchResult (RInMemoryLayer l) floor)).
Proof.
  intros H1 H2 H3 Hf Hi Hw. unfold search_spec, is_image, result_range, result_in. cbn [sr_layer sr_lsn_floor].
  split_and!; try done; try lia; [eauto|]. intros x Hx Hlt. specialize (Hi x Hx Hlt). lia.
Qed.

Lemma select_layer_ok k end_lsn m od oi :
  lm_ok m -> mem_ok m -> delta_best k end_lsn m od -> image_best k end_lsn m oi ->
  exists r, select_layer od oi (search_in_memory_layer m end_lsn) end_lsn = Some r /\ search_spec k end_lsn m r.
Proof.
  intros Hm Hmem Hd Hi. pose proof (search_in_memory_ok m end_lsn Hmem) as Hs.
  pose proof (fun x => images_below k end_lsn m oi x Hm Hi) as Himg.
  pose proof (fun x => wal_below k end_lsn m od x Hmem Hd) as Hwal.
  assert (match oi with None => True | Some i => lsn_add (start (ld_lsn_range i)) 1 = Some (start (ld_lsn_range i) + 1)
    /\ end_ (ld_lsn_range i) = start (ld_lsn_range i) + 1 /\ start (ld_lsn_range i) < end_lsn end) as Hadd.
  { destruct oi as [i|]; [|done]. destruct Hi as [(Hin & Hid & _ & Hlt) _].
    destruct (in_map_ok m i Hm Hin) as ((H1 & H2) & _ & _ & _ & E). specialize (E Hid).
    rewrite lsn_add_1 by lia. split_and!; [done|done|lia]. }
  assert (match od, search_in_memory_layer m end_lsn with
          | Some d, Some l => end_ (ld_lsn_range d) <= start (imd_lsn_range l) | _, _ => True end) as Hord.
  { destruct od as [d|]; [|done]. destruct (search_in_memory_layer m end_lsn) as [l|]; [|done].
    destruct Hs as (l' & _ & Hin & -> & _). destruct Hd as [(Hind & Hdd & _) _]. by apply (mo_newer m Hmem). }
  assert (match od with None => True | Some d => candidate false k (end_lsn - 1) m d
    /\ 0 <= start (ld_lsn_range d) < end_ (ld_lsn_range d) /\ start (ld_lsn_range d) < end_lsn end) as Hdr.
  { destruct od as [d|]; [|done]. destruct Hd as [Hc _]. pose proof Hc as (Hin & _ & _ & Hlt).
    destruct (in_map_ok m d Hm Hin) as ((H1 & H2) & _). split_and!; [done|lia|lia|lia]. }
  assert (match oi with None => True | Some i => candidate true k (end_lsn - 1) m i end) as Hic
    by (destruct oi; [apply Hi|done]).
  assert (match search_in_memory_layer m end_lsn with None => True | Some l => exists l',
    in_memory_layer m l = Some l' /\ l' ∈ mem_layers m /\ imd_lsn_range l = il_lsn_range l'
    /\ start (imd_lsn_range l) < end_lsn /\ start (imd_lsn_range l) < end_ (imd_lsn_range l) end) as Hmr.
  { destruct (search_in_memory_layer m end_lsn) as [l|]; [|done]. destruct Hs as (l' & H1 & H2 & H3 & H4 & _).
    exists l'. rewrite H3. pose proof (mo_ranges m Hmem) as Hr. rewrite Forall_forall in Hr.
    destruct (Hr _ H2) as [H5 _]. split_and!; [done|done|done|done|lia]. }
  clear Hi Hd Hs. revert Himg Hwal Hadd Hord Hdr Hic Hmr.
  destruct od as [d|], oi as [i|], (search_in_memory_layer m end_lsn) as [l|]; intros Himg Hwal Hadd Hord Hdr Hic Hmr;
    unfold select_layer, select_asserts.
  all: try (destruct Hdr as (Hdc & Hdr1 & Hdr2); pose proof Hdc as (_ & Hdd & _); cbn [negb] in Hdd; rewrite ?Hdd).
  all: try (pose proof Hic as (_ & Hin' & _); cbn [negb] in Hin'; rewrite ?Hin').
  all: cbn [negb andb select_pair].
  all: try (destruct Hadd as (Hadd & Hie & Hilt); rewrite Hadd; cbn [mbind option_bind]).
  all: try (destruct Hmr as (l' & Hl1 & Hl2 & Hl3 & Hl4 & Hl5)).
  all: repeat (case_bool_decide; try lia;
               cbn [orb mbind option_bind sr_layer sr_lsn_floor select_pair negb]; rewrite ?Hadd, ?Hin', ?Hdd;
               cbn [mbind option_bind select_pair sr_layer sr_lsn_floor]).
  all: rewrite ?Z.max_id; eexists; (split; [reflexivity|]).
  all: first [apply result_image; [done|..]|apply result_delta; [done|lia|..]
             |eapply result_mem; [done|done|done|lia|..]|idtac].
  all: try (intros x Hx Hlt; first [specialize (Himg x Hx Hlt)|specialize (Hwal x Hx Hlt)]; lia).
  intros x Hlt. split; intros Hx; [|by apply (Himg x)]. destruct (Hwal x Hx Hlt); done.
Qed.

Lemma search_correct_lemma m (key : Key) (k end_lsn : Z) :
  lm_ok m -> mem_ok m -> to_i128 key = Some k -> 0 < end_lsn <= u64_max ->
  exists r, search m key end_lsn = Some r /\ search_spec k end_lsn m r.
Proof.
  intros Hm Hmem Hk Hlsn. unfold search. unfold checked_sub. rewrite decide_True by lia. cbn [mbind option_bind].
  destruct (version_at_ok m (end_lsn - 1) Hm) as (v & -> & Hv). cbn [mbind option_bind].
  destruct v as [t|].
  - rewrite Hk. cbn [mbind option_bind]. pose proof (query_candidate false k (end_lsn - 1) m t Hm Hv) as Hd.
    pose proof (query_candidate true k (end_lsn - 1) m t Hm Hv) as Hi. by apply select_layer_ok.
  - assert (forall img d, ~ candidate img k (end_lsn - 1) m d) as Hno.
    { intros img d ([lk Hin] & _ & _ & Hle). apply Hv in Hin as Hlt. destruct (lmo_entries m Hm _ _ Hin) as [Hlk Hok].
      destruct (desc_ok_key d Hok) as (lk' & Hk' & _ & Hl & _). unfold lsn_start in Hlt. cbn [fst] in Hlt.
      assert (lk' = lk) as -> by congruence. rewrite Hl in Hlt. lia. }
    destruct (select_layer_ok k end_lsn m None None Hm Hmem (Hno false) (Hno true)) as (r & Hr & Hspec).
    exists r. split; [|done]. unfold select_layer, select_asserts in Hr. cbn [negb andb] in Hr.
    rewrite <- Hr. by destruct (search_in_memory_layer m end_lsn).
Qed.

(** C8: A search for a key below an LSN finds a layer that starts below the LSN
    if there is one.  Its floor is below that LSN, so that repeating the search from
    the floor terminates; an image is returned only when no WAL for the key lies
    above it; no image is at or above the floor of a result that is not an image; and
    all WAL for the key between the floor and the LSN lies in the layer returned. *)
Theorem search_correct m (key : Key) (k end_lsn : Z) :
  lm_ok m -> mem_ok m -> to_i128 key = Some k -> 0 < end_lsn <= u64_max ->
  exists r, search m key end_lsn = Some r /\ search_spec k end_lsn m r.
Proof. apply search_correct_lemma. Qed.

(** ** Images in an LSN range *)

(** A range of keys whose order is that of their 128-bit form. *)
Definition compact_range (r : Range Key) : Prop :=
  key_wf (start r) /\ key_wf (end_ r) /\ key_compact (start r) /\ key_compact (end_ r).

Lemma compact_range_bits r :
  compact_range r ->
  to_i128 (start r) = Some (i128_bits (start r)) /\ to_i128 (end_ r) = Some (i128_bits (end_ r))
  /\ range_is_empty r = bool_decide (i128_bits (end_ r) <= i128_bits (start r)).
Proof.
  intros (Hs & He & Cs & Ce). rewrite !to_i128_compact by done. split_and!; [done|done|].
  unfold range_is_empty, key_ltb. rewrite key_cmp_Z, <- i128_bits_mono by done.
  destruct (Z.compare_spec (i128_bits (start r)) (i128_bits (end_ r))); cbn [negb];
    symmetry; (apply bool_decide_eq_true || apply bool_decide_eq_false); lia.
Qed.

(** C26: The question of garbage collection, whether images at LSNs of a range
    cover all keys of a range, is answered as a scan of all layers would: with yes
    exactly if every key of the range has an image layer at an LSN of the range. *)
Theorem image_layer_exists_correct m (key : Range Key) (lsn : Range Lsn) :
  lm_ok m -> compact_range key -> 0 < end_ lsn ->
  exists b, image_layer_exists m key lsn = Some b
  /\ (b = true <-> forall k, i128_bits (start key) <= k < i128_bits (end_ key) ->
        exists x, image_at k m x /\ start lsn <= x < end_ lsn).
Proof.
  intros Hm Hkey Hlsn. destruct (compact_range_bits key Hkey) as (Es & Ee & Hempty).
  unfold image_layer_exists. rewrite Hempty. case_bool_decide as Hlt.
  { exists true. split; [done|]. split; [|done]. intros _ k Hk. lia. }
  unfold checked_sub. rewrite decide_True by lia. cbn [mbind option_bind].
  destruct (version_at_ok m (end_ lsn - 1) Hm) as (v & -> & Hv). cbn [mbind option_bind].
  set (s := i128_bits (start key)) in *. set (e := i128_bits (end_ key)) in *. destruct v as [t|].
  - rewrite Es, Ee. cbn [mbind option_bind].
    set (cov (v : option PersistentLayerDesc) :=
      match v with Some layer => bool_decide (start lsn <= start (ld_lsn_range layer)) | None => false end).
    assert (forall k, cov (coverage_query k (image_coverage t)) = true
      <-> exists x, image_at k m x /\ start lsn <= x < end_ lsn) as Hcov.
    { intros k. pose proof (query_candidate true k _ m t Hm Hv) as Hq. cbn [coverage_of] in Hq.
      pose proof (fun x => images_below k (end_ lsn) m (coverage_query k (image_coverage t)) x Hm Hq) as Hmax.
      unfold cov. destruct (coverage_query k (image_coverage t)) as [d|].
      - destruct Hq as [(Hin & Hd & Hc & Hle) _]. rewrite bool_decide_eq_true. split.
        + intros Hs. exists (start (ld_lsn_range d)). split; [by exists d|lia].
        + intros (x & Hx & Hx'). specialize (Hmax x Hx ltac:(lia)). lia.
      - split; [done|]. intros (x & Hx & Hx'). exfalso. apply (Hmax x Hx). lia. }
    pose proof (coverage_range_within s e (image_coverage t)) as [Hso Hr].
    pose proof (fun k => coverage_range_query s e (image_coverage t) k) as Hq.
    change (exists b, (if negb (cov (coverage_query s (image_coverage t))) then Some false
      else Some (forallb (fun c => cov c.2) (coverage_range (mkRange s e) (image_coverage t)))) = Some b
      /\ (b = true <-> forall k, s <= k < e -> exists x, image_at k m x /\ start lsn <= x < end_ lsn)).
    destruct (cov (coverage_query s (image_coverage t))) eqn:E0; cbn [negb].
    + eexists. split; [done|]. rewrite forallb_forall. setoid_rewrite <- Hcov. split.
      * intros Hall k Hk. rewrite Hq by done.
        destruct (floor_from_cases k (coverage_query s (image_coverage t)) (coverage_range (mkRange s e) (image_coverage t)))
          as [->|[k' Hin]]; [done|]. by apply list_elem_of_In, Hall in Hin.
      * intros Hall [k' v] Hin%list_elem_of_In. rewrite Forall_forall in Hr. cbn [snd].
        pose proof (Hr _ Hin) as Hk'. cbn in Hk'. specialize (Hall k' ltac:(lia)).
        rewrite Hq in Hall by lia. by rewrite (floor_from_elem _ k' v) in Hall.
    + exists false. split; [done|]. split; [done|]. intros Hall. specialize (Hall s ltac:(lia)).
      apply Hcov in Hall. congruence.
  - exists false. split; [done|]. split; [done|]. intros Hall. destruct (Hall s ltac:(lia)) as (x & (d & [lk Hin] & _ & _ & <-) & Hx).
    apply Hv in Hin as Hlt'. destruct (lmo_entries m Hm _ _ Hin) as [Hlk Hok].
    destruct (desc_ok_key d Hok) as (lk' & Hk' & _ & Hl & _). unfold lsn_start in Hlt'. cbn [fst] in Hlt'.
    assert (lk' = lk) as -> by congruence. rewrite Hl in Hlt'. lia.
Qed.

(** ** The height of the stack of deltas *)

(** The deltas a read of one key passes from an LSN down to another, whole-keyspace
    (L0) layers not counted. *)
Fixpoint stack_height (fuel : nat) m (k lo hi : Z) : Z :=
  match fuel with
  | O => 0
  | S fuel =>
      if decide (lo < hi) then
        match version_at m (hi - 1) with
        | Some (Some t) =>
            match coverage_query k (delta_coverage t) with
            | Some d =>
                if decide (lo < end_ (ld_lsn_range d)) then
                  (if is_l0 (ld_key_range d) (ld_is_delta d) then 0 else 1)
                  + stack_height fuel m k lo (start (ld_lsn_range d))
                else 0
            | None => 0
            end
        | _ => 0
        end
      else 0
  end.

Lemma stack_height_nonneg fuel m k lo hi : 0 <= stack_height fuel m k lo hi.
Proof.
  revert hi. induction fuel as [|fuel IH]; intros hi; cbn [stack_height]; [lia|].
  destruct (decide _); [|lia]. destruct (version_at m (hi - 1)) as [[t|]|]; [|lia..].
  destruct (coverage_query _ _) as [d|]; [|lia]. destruct (decide _); [|lia].
  specialize (IH (start (ld_lsn_range d))). destruct (is_l0 _ _); lia.
Qed.

Definition capped (limit : option Z) (x : Z) : Z := match limit with Some l => Z.min l x | None => x end.

(** The result of a scan: the maximum of a function over a range of keys and the
    value so far. *)
Definition max_over (g : Z -> Z) (s e acc acc' : Z) : Prop :=
  acc <= acc' /\ (forall k, s <= k < e -> g k <= acc') /\ (acc' = acc \/ exists k, s <= k < e /\ acc' = g k).

Lemma max_over_trans g s k e a b c : max_over g s k a b -> max_over g k e b c -> s <= k <= e -> max_over g s e a c.
Proof.
  intros (A1 & A2 & A3) (B1 & B2 & B3) Hk. split_and!; [lia|..].
  - intros x Hx. destruct (decide (x < k)); [specialize (A2 x); lia|apply B2; lia].
  - destruct B3 as [->|(x & Hx & ->)]; [|right; exists x; split; [lia|done]].
    destruct A3 as [->|(x & Hx & ->)]; [by left|right; exists x; split; [lia|done]].
Qed.

Lemma fold_parts_max {E} (part : Z -> Z -> option PersistentLayerDesc -> Z -> outcome E Z) f g e :
  forall cs cur val acc,
  (forall c n v a, cur <= c <= n -> n <= e -> 0 <= a -> (forall k, c <= k < n -> f k = v) ->
    exists a', part c n v a = Ok a' /\ max_over g c n a a') ->
  cur <= e -> 0 <= acc -> within cur e cs -> (forall k, cur <= k < e -> f k = floor_from k val cs) ->
  exists acc', fold_parts part cur val cs e acc = Ok acc' /\ max_over g cur e acc acc'.
Proof.
  induction cs as [|[k1 v1] cs IH]; intros cur val acc Hpart Hle Hacc [Hs Hw] Hf; cbn [fold_parts].
  { apply Hpart; [lia|lia|done|]. intros k Hk. by rewrite Hf. }
  apply Forall_cons in Hw as [Hk1 Hw]. cbn [fst] in Hk1. apply osorted_cons in Hs as [Hfa Hs].
  assert (Forall (fun x => k1 < x.1) cs) as Hfa' by (eapply Forall_impl; [exact Hfa|]; intros x Hx; z_order; lia).
  destruct (Hpart cur k1 val acc) as (a' & -> & Ha'); [lia|lia|done|..].
  { intros k Hk. rewrite Hf by lia. apply floor_from_above. constructor; [cbn; lia|].
    eapply Forall_impl; [exact Hfa'|]. cbn. lia. }
  cbn [mbind outcome_bind]. destruct (IH k1 v1 a') as (a2 & -> & Ha2).
  - intros c n v a Hc. apply Hpart. lia.
  - lia.
  - destruct Ha'. lia.
  - split; [done|]. rewrite Forall_forall in *. intros x Hx. specialize (Hw x Hx). specialize (Hfa' x Hx). lia.
  - intros k Hk. rewrite Hf by lia. by rewrite floor_from_cons by lia.
  - exists a2. split; [done|]. eapply max_over_trans; [done|done|lia].
Qed.

Lemma from_i128_range a b :
  0 <= a < 2 ^ 127 -> 0 <= b < 2 ^ 127 ->
  let kr := mkRange (from_i128 a) (from_i128 b) in
  compact_range kr /\ i128_bits (start kr) = a /\ i128_bits (end_ kr) = b /\ range_is_empty kr = bool_decide (b <= a).
Proof.
  intros Ha Hb kr. destruct (from_i128_wf a) as [Wa Ca]. destruct (from_i128_wf b) as [Wb Cb].
  assert (compact_range kr) as Hc by (by split_and!). destruct (compact_range_bits kr Hc) as (_ & _ & ->).
  unfold kr. cbn [start end_]. by rewrite !i128_bits_from_i128.
Qed.

Lemma compact_not_all r : compact_range r -> r <> mkRange KEY_MIN KEY_MAX.
Proof. intros (_ & _ & _ & [Hc _]) ->. cbn in Hc. unfold u8_max in Hc. lia. Qed.

Lemma capped_le limit x : (forall l, limit = Some l -> 0 <= l) -> 0 <= x -> 0 <= capped limit x <= x.
Proof. intros Hl Hx. destruct limit as [l|]; cbn; [specialize (Hl l eq_refl); lia|lia]. Qed.

(** No keys, or a function that is not positive: the value so far. *)
Lemma max_over_none g s e acc : (forall k, s <= k < e -> g k <= acc) -> max_over g s e acc acc.
Proof. intros Hg. split_and!; [lia|done|by left]. Qed.

(** One part of the coverage: the recursion right below its delta. *)
Lemma count_part fuel m key lo hi limit t c n v acc :
  (forall kr hi limit, compact_range kr -> hi <= lo + Z.of_nat fuel -> (forall l, limit = Some l -> 0 <= l) ->
    exists n, count_deltas fuel m kr (mkRange lo hi) limit = Ok n
    /\ max_over (fun k => capped limit (stack_height fuel m k lo hi)) (i128_bits (start kr)) (i128_bits (end_ kr)) 0 n) ->
  lm_ok m -> lo < hi -> hi <= lo + Z.of_nat (S fuel) -> compact_range key -> version_at m (hi - 1) = Some (Some t) ->
  version_spec (hi - 1) (bh_layers (lm_historic m)) (Some t) ->
  (forall l, limit = Some l -> 0 < l) -> 0 <= c <= n -> n < 2 ^ 127 -> 0 <= acc ->
  (forall k, c <= k < n -> coverage_query k (delta_coverage t) = v) ->
  exists acc',
    match v with
    | Some val =>
        if decide (lo < end_ (ld_lsn_range val)) then
          let kr := mkRange (from_i128 c) (from_i128 n) in
          let lr := mkRange lo (start (ld_lsn_range val)) in
          if range_is_empty kr then Ok acc else
          let base_count := if is_reimage_worthy val key then 1 else 0 in
          new_limit ← match limit with Some l => Some <$> of_option (checked_sub l base_count) | None => Ok None end;
          under ← count_deltas fuel m kr lr new_limit;
          Ok (Z.max acc (base_count + under))
        else Ok acc
    | None => Ok acc
    end = Ok acc'
    /\ max_over (fun k => capped limit (stack_height (S fuel) m k lo hi)) c n acc acc'.
Proof.
  intros IH Hm Hlt Hfuel Hkey Hver Hv Hlim Hc Hn Hacc Hval.
  assert (forall l, limit = Some l -> 0 <= l) as Hlim' by (intros l Hl; specialize (Hlim l Hl); lia).
  assert (forall k, c <= k < n -> stack_height (S fuel) m k lo hi = match v with
    | Some d => if decide (lo < end_ (ld_lsn_range d)) then (if is_l0 (ld_key_range d) (ld_is_delta d) then 0 else 1)
        + stack_height fuel m k lo (start (ld_lsn_range d)) else 0
    | None => 0 end) as Hh.
  { intros k Hk. cbn [stack_height]. rewrite decide_True, Hver, Hval by done. done. }
  assert (forall k, c <= k < n -> stack_height (S fuel) m k lo hi = 0 -> capped limit (stack_height (S fuel) m k lo hi) <= acc) as Hz.
  { intros k Hk ->. pose proof (capped_le limit 0 Hlim'). lia. }
  destruct v as [d|]; [|exists acc; split; [done|]; apply max_over_none; intros k Hk; apply Hz; [done|by apply Hh]].
  destruct (decide (lo < end_ (ld_lsn_range d))) as [Hd|Hd];
    [|exists acc; split; [done|]; apply max_over_none; intros k Hk; apply Hz; [done|by apply Hh]].
  cbv zeta. destruct (from_i128_range c n) as (Hcr & Hbs & Hbe & ->); [lia|lia|].
  case_bool_decide as Hcn; [exists acc; split; [done|]; apply max_over_none; intros k Hk; lia|].
  assert (start (ld_lsn_range d) <= lo + Z.of_nat fuel) as Hst.
  { pose proof (query_candidate false c (hi - 1) m t Hm Hv) as Hq. cbn [coverage_of] in Hq.
    rewrite Hval in Hq by lia. destruct Hq as [(_ & _ & _ & Hle) _]. lia. }
  assert (is_reimage_worthy d key = negb (is_l0 (ld_key_range d) (ld_is_delta d))) as ->.
  { unfold is_reimage_worthy. rewrite (bool_decide_eq_false_2 (key = _)) by by apply compact_not_all.
    by destruct (is_l0 _ _). }
  set (base := if is_l0 (ld_key_range d) (ld_is_delta d) then 0 else 1) in *.
  assert ((if negb (is_l0 (ld_key_range d) (ld_is_delta d)) then 1 else 0) = base) as -> by (unfold base; by destruct (is_l0 _ _)).
  assert (0 <= base <= 1) as Hb by (unfold base; destruct (is_l0 _ _); lia).
  set (new_limit := (fun l => l - base) <$> limit).
  assert (match limit with Some l => Some <$> of_option (checked_sub l base) | None => Ok None end
    = Ok (E := fuel_error) new_limit) as ->.
  { unfold new_limit, checked_sub. destruct limit as [l|]; cbn; [|done]. specialize (Hlim l eq_refl).
    by rewrite decide_True by lia. }
  cbn [mbind outcome_bind].
  destruct (IH (mkRange (from_i128 c) (from_i128 n)) (start (ld_lsn_range d)) new_limit Hcr Hst) as (u & -> & Hu1 & Hu2 & Hu3).
  { intros l Hl. unfold new_limit in Hl. destruct limit as [l'|]; cbn in Hl; [|done]. injection Hl as <-.
    specialize (Hlim l' eq_refl). lia. }
  rewrite Hbs, Hbe in Hu2, Hu3. cbn [mbind outcome_bind]. eexists. split; [done|].
  assert (forall k, c <= k < n -> capped limit (stack_height (S fuel) m k lo hi)
    = base + capped new_limit (stack_height fuel m k lo (start (ld_lsn_range d)))) as Hcap.
  { intros k Hk. rewrite Hh by done. unfold new_limit. destruct limit as [l|]; cbn; [|done]. lia. }
  split_and!; [lia|..].
  - intros k Hk. rewrite Hcap by done. specialize (Hu2 k Hk). lia.
  - destruct (decide (base + u <= acc)) as [Hle|Hgt]; [left; lia|]. right.
    destruct Hu3 as [->|(k & Hk & ->)].
    + exists c. split; [lia|]. rewrite Hcap by lia. specialize (Hu2 c ltac:(lia)).
      assert (0 <= capped new_limit (stack_height fuel m c lo (start (ld_lsn_range d)))); [|lia].
      apply capped_le; [|apply stack_height_nonneg]. intros l Hl. unfold new_limit in Hl.
      destruct limit as [l'|]; cbn in Hl; [|done]. injection Hl as <-. specialize (Hlim l' eq_refl). lia.
    + exists k. split; [done|]. rewrite Hcap by done. lia.
Qed.

Lemma count_deltas_ok fuel m : forall key lo hi limit,
  lm_ok m -> compact_range key -> 0 <= lo -> hi <= lo + Z.of_nat fuel ->
  (forall l, limit = Some l -> 0 <= l) ->
  exists n, count_deltas fuel m key (mkRange lo hi) limit = Ok n
  /\ max_over (fun k => capped limit (stack_height fuel m k lo hi)) (i128_bits (start key)) (i128_bits (end_ key)) 0 n.
Proof.
  induction fuel as [|fuel IH]; intros key lo hi limit Hm Hkey Hlo Hfuel Hlim;
    destruct (compact_range_bits key Hkey) as (Es & Ee & Hempty).
  { exists 0. split; [cbn [count_deltas]|].
    - unfold lsn_range_is_empty. cbn [start end_]. by rewrite bool_decide_eq_false_2 by lia.
    - split_and!; [lia| |by left]. intros k Hk. cbn [stack_height]. destruct limit as [l|]; cbn; [|lia].
      specialize (Hlim l eq_refl). lia. }
  cbn [count_deltas]. unfold lsn_range_is_empty. cbn [start end_]. rewrite Hempty.
  set (s := i128_bits (start key)) in *. set (e := i128_bits (end_ key)) in *.
  assert (0 <= s < 2 ^ 127 /\ 0 <= e < 2 ^ 127) as [Hsb Heb] by (split; apply i128_bits_bound; apply Hkey).
  destruct (decide (lo < hi)) as [Hlt|Hlt].
  2: { rewrite bool_decide_eq_false_2 by done. exists 0. split; [done|]. apply max_over_none. intros k Hk.
       cbn [stack_height]. rewrite decide_False by done. by apply capped_le. }
  rewrite (bool_decide_eq_true_2 (lo < hi)) by done. cbn [negb orb].
  case_bool_decide as Hes; [exists 0; split; [done|]; apply max_over_none; intros k Hk; lia|].
  destruct (bool_decide (limit = Some 0)) eqn:El; cbn [orb].
  { apply bool_decide_eq_true in El as ->. exists 0. split; [done|]. apply max_over_none. intros k Hk. cbn [capped]. lia. }
  apply bool_decide_eq_false in El.
  assert (forall l, limit = Some l -> 0 < l) as Hlim2.
  { intros l ->. specialize (Hlim l eq_refl). assert (l <> 0) by congruence. lia. }
  assert (checked_sub hi 1 = Some (hi - 1)) as -> by (unfold checked_sub; by rewrite decide_True by lia).
  cbn [of_option mbind outcome_bind].
  destruct (version_at_ok m (hi - 1) Hm) as (v & Hver & Hv). rewrite Hver. cbn [of_option mbind outcome_bind].
  destruct v as [t|].
  2: { exists 0. split; [done|]. apply max_over_none. intros k Hk. cbn [stack_height]. rewrite decide_True, Hver by done.
       by apply capped_le. }
  rewrite Es, Ee. cbn [of_option mbind outcome_bind].
  apply (fold_parts_max _ (fun k => coverage_query k (delta_coverage t))).
  - intros c n v a Hc Hn Ha Hval. apply (count_part fuel m key lo hi limit t c n v a); try done; try lia.
    intros kr hi' limit' Hkr Hhi Hl. by apply IH.
  - lia.
  - lia.
  - apply coverage_range_within.
  - intros k Hk. by apply coverage_range_query.
Qed.

(** [count_deltas] returns, for any range of keys and LSNs and any limit, the
    highest stack of deltas above a key of the range, as reading that key from the top
    of the LSN range passes them, layers of the whole key space not counted; or the
    limit if that is lower.  One level of recursion for each LSN is enough. *)
Theorem count_deltas_is_max_height m (key : Range Key) (lo hi : Lsn) (limit : option Z) :
  lm_ok m -> compact_range key -> 0 <= lo -> (forall l, limit = Some l -> 0 <= l) ->
  exists n, count_deltas (Z.to_nat (hi - lo)) m key (mkRange lo hi) limit = Ok n
  /\ (forall k, i128_bits (start key) <= k < i128_bits (end_ key) ->
        capped limit (stack_height (Z.to_nat (hi - lo)) m k lo hi) <= n)
  /\ (n = 0 \/ exists k, i128_bits (start key) <= k < i128_bits (end_ key)
        /\ n = capped limit (stack_height (Z.to_nat (hi - lo)) m k lo hi)).
Proof.
  intros Hm Hkey Hlo Hlim.
  destruct (count_deltas_ok (Z.to_nat (hi - lo)) m key lo hi limit Hm Hkey Hlo) as (n & Hn & _ & H2 & H3); [lia|done|].
  by exists n.
Qed.
End facts.

(** ** The example map *)

Lemma example_in_map d : in_map example_map d -> d = example_delta \/ d = example_image \/ d = example_l0.
Proof.
  intros [lk Hin]. apply (list_elem_of_fmap_2 snd) in Hin. rewrite (proj2 example_map_ok) in Hin. cbn [snd] in Hin.
  by repeat (apply elem_of_cons in Hin as [->|Hin]; [by auto|]); apply not_elem_of_nil in Hin.
Qed.

Lemma example_mem_layers : mem_layers example_map = [mkInMemoryLayer 90 None].
Proof.
  unfold mem_layers, example_map. destruct (layer_map_updates_lemma example_ops) as (m & -> & _); [|done].
  apply lm_ops_okb_ok. vm_compute. reflexivity.
Qed.

Lemma example_mem_ok : mem_ok example_map.
Proof.
  split; rewrite example_mem_layers.
  - apply Forall_singleton. unfold lsn_range_ok. vm_compute. split_and!; discriminate || reflexivity.
  - repeat constructor.
  - intros d l Hd Hdel ->%list_elem_of_singleton. apply example_in_map in Hd as [->|[->| ->]]; cbn in *; lia || done.
Qed.

(** A read below LSN 80 finds the delta, down to right above the image. *)
Lemma search_correct_witness :
  let key := mkKey 0 1663 5 16384 0 15 in
  let k := i128_bits key in
  (exists r, search example_map key 80 = Some r /\ search_spec k 80 example_map r)
  /\ search example_map key 80 = Some (Some (mkSearchResult (RPersistentLayer example_delta) 51)).
Proof.
  split.
  - apply search_correct; [apply example_map_ok|apply example_mem_ok|vm_compute; reflexivity|unfold u64_max; lia].
  - vm_compute. reflexivity.
Defined.

Lemma image_layer_exists_correct_witness :
  exists b, image_layer_exists example_map example_range (mkRange 45 60) = Some b
  /\ (b = true <-> forall k, i128_bits (start example_range) <= k < i128_bits (end_ example_range) ->
        exists x, image_at k example_map x /\ 45 <= x < 60).
Proof.
  apply (image_layer_exists_correct example_map example_range (mkRange 45 60)); [apply example_map_ok| |cbn; lia].
  vm_compute. repeat split; discriminate || reflexivity.
Defined.

Lemma count_deltas_is_max_height_witness :
  exists n, count_deltas (Z.to_nat (95 - 0)) example_map example_range (mkRange 0 95) None = Ok n
  /\ (forall k, i128_bits (start example_range) <= k < i128_bits (end_ example_range) ->
        stack_height (Z.to_nat (95 - 0)) example_map k 0 95 <= n)
  /\ (n = 0 \/ exists k, i128_bits (start example_range) <= k < i128_bits (end_ example_range)
        /\ n = stack_height (Z.to_nat (95 - 0)) example_map k 0 95).
Proof.
  apply (count_deltas_is_max_height example_map example_range 0 95 None); [apply example_map_ok| |lia|done].
  vm_compute. repeat split; discriminate || reflexivity.
Defined.

(** Three L0 layers on top of one another. *)
Definition l0_at (a b : Lsn) : PersistentLayerDesc :=
  mkLayerDesc example_shard [] (mkRange KEY_MIN KEY_MAX) (mkRange a b) true 8192.
Definition l0_stack_map : LayerMap :=
  default layer_map_default
    (lm_run layer_map_default [LInsert (l0_at 10 20); LInsert (l0_at 20 30); LInsert (l0_at 30 40); LFlush]).

(** For the whole key space, where L0 layers do count, [count_deltas] counts
    only the first: of three L0 layers on top of one another, each of which is
    reimage-worthy for that range, it reports a stack of one.  The recursion asks
    about a range of keys rebuilt from 128-bit integers, which is never
    [Key::MIN..Key::MAX]. *)
Theorem count_deltas_misses_l0_stack :
  let all := mkRange KEY_MIN KEY_MAX in
  level0_deltas l0_stack_map = [l0_at 10 20; l0_at 20 30; l0_at 30 40]
  /\ Forall (fun d => is_reimage_worthy d all = true) (level0_deltas l0_stack_map)
  /\ count_deltas 40 l0_stack_map all (mkRange 0 40) None = Ok 1.
Proof. vm_compute. split_and!; [reflexivity|repeat constructor|reflexivity]. Qed.
