(* ===== verification/RangeSearchFacts.v ===== *)
(** * The search of a range of keys

    [range_search] returns, sets the two iterators of coverage changes against one
    another without missing or repeating a key, and gives every key of the range the
    layer a search for that key alone gives. *)

From S2P Require Import Prelude Lsn XlogUtils Key Shard KeySpace OrdMap LayerCoverage LayerCoverageFacts.
From S2P Require Import LayerName LayerMap LayerMapUpdates LayerMapFacts.

(** ** The keys of an accumulator *)

Definition range_mem (r : Range Key) (k : Z) : Prop := i128_bits (start r) <= k < i128_bits (end_ r).

Definition accum_mem (a : KeySpaceAccum) (k : Z) : Prop :=
  exists r, r ∈ ranges (ka_to_keyspace a) /\ range_mem r k.

(** A non-empty accumulator whose ranges end at or below [cur]. *)
Definition accum_ends (a : KeySpaceAccum) (cur : Z) : Prop :=
  exists b x, ka_accum a = Some (mkRange b (from_i128 x)) /\ i128_bits b <= x <= cur /\ 0 <= x < 2 ^ 127.

Definition sized (c n : Z) : Prop := is_Some (raw_size (mkRange (from_i128 c) (from_i128 n))).

Lemma accum_mem_some a r k :
  ka_accum a = Some r -> accum_mem a k <-> (exists r', r' ∈ ka_ranges a /\ range_mem r' k) \/ range_mem r k.
Proof.
  intros E. unfold accum_mem, ka_to_keyspace. rewrite E. cbn [ranges]. setoid_rewrite elem_of_app.
  setoid_rewrite list_elem_of_singleton. naive_solver.
Qed.

(** Adding a range behind the others. *)
Lemma found_range_ok a c n cur :
  accum_ends a cur -> cur <= c < n -> 0 <= c -> n < 2 ^ 127 -> sized c n ->
  exists a', ka_add_range a (mkRange (from_i128 c) (from_i128 n)) = Some a' /\ accum_ends a' n
  /\ forall k, accum_mem a' k <-> accum_mem a k \/ c <= k < n.
Proof.
  intros (b & x & Ea & Hx & Hx') Hc Hc0 Hn [z Hz]. unfold ka_add_range. rewrite Hz, Ea. cbn [mbind option_bind start end_].
  pose proof (fun k => accum_mem_some a _ k Ea) as Hm. unfold range_mem in Hm. cbn [start end_] in Hm.
  destruct (decide (from_i128 c = from_i128 x)) as [E|Hne].
  - apply from_i128_inj in E; [|lia|lia]. assert (c = x) as -> by done. eexists. split; [done|]. split.
    + exists b, n. split_and!; [done|lia..].
    + intros k. rewrite Hm. rewrite accum_mem_some by done. unfold range_mem. cbn [start end_ ka_ranges].
      rewrite !i128_bits_from_i128 by lia.
      assert (i128_bits b <= k < n <-> i128_bits b <= k < x \/ x <= k < n) as -> by lia. tauto.
  - assert (x <> c) by congruence. rewrite from_i128_ltb, bool_decide_eq_true_2 by lia. eexists. split; [done|]. split.
    + exists (from_i128 c), n. rewrite i128_bits_from_i128 by lia. split_and!; [done|lia..].
    + intros k. rewrite Hm. rewrite accum_mem_some by done. unfold range_mem. cbn [start end_ ka_ranges].
      setoid_rewrite elem_of_app. setoid_rewrite list_elem_of_singleton. rewrite !i128_bits_from_i128 by lia.
      split.
      * intros [(r' & [Hr'| ->] & Hk)|Hk]; [left; left; by exists r'| |auto].
        cbn [start end_] in Hk. rewrite i128_bits_from_i128 in Hk by lia. auto.
      * intros [[(r' & Hr' & Hk)|Hk]|Hk]; [left; exists r'; auto| |auto]. left. exists (mkRange b (from_i128 x)).
        split; [auto|]. cbn [start end_]. by rewrite i128_bits_from_i128 by lia.
Qed.

Lemma found_range_new c n :
  c < n -> 0 <= c -> n < 2 ^ 127 -> sized c n ->
  exists a', ka_add_range ka_new (mkRange (from_i128 c) (from_i128 n)) = Some a' /\ accum_ends a' n
  /\ forall k, accum_mem a' k <-> c <= k < n.
Proof.
  intros Hc Hc0 Hn [z Hz]. unfold ka_add_range. rewrite Hz. cbn [mbind option_bind ka_new ka_accum ka_ranges].
  eexists. split; [done|]. split.
  - exists (from_i128 c), n. rewrite i128_bits_from_i128 by lia. split_and!; [done|lia..].
  - intros k. rewrite accum_mem_some by done. unfold range_mem. cbn [start end_ ka_ranges].
    rewrite !i128_bits_from_i128 by lia. set_solver.
Qed.

(** ** The map of results *)

Definition found_mem (found : found_map) (r : SearchResult) (k : Z) : Prop :=
  exists a, (r, a) ∈ found /\ accum_mem a k.

Definition found_ok (found : found_map) (cur : Z) : Prop :=
  NoDup found.*1 /\ forall r a, (r, a) ∈ found -> accum_ends a cur.

Lemma found_ok_weaken found cur cur' : found_ok found cur -> cur <= cur' -> found_ok found cur'.
Proof.
  intros [Hd Hf] Hle. split; [done|]. intros r a (b & x & E & Hx & Hx')%Hf. exists b, x. split_and!; [done|lia..].
Qed.

Lemma found_add_ok found r c n cur :
  found_ok found cur -> cur <= c < n -> 0 <= c -> n < 2 ^ 127 -> sized c n ->
  exists found', found_add r (mkRange (from_i128 c) (from_i128 n)) found = Some found' /\ found_ok found' n
  /\ (forall r' k, found_mem found' r' k <-> found_mem found r' k \/ r' = r /\ c <= k < n)
  /\ (forall r', r' ∈ found'.*1 <-> r' ∈ found.*1 \/ r' = r).
Proof.
  intros Hok Hc Hc0 Hn Hz. induction found as [|[r0 a] found IH]; cbn [found_add].
  - destruct (found_range_new c n) as (a' & -> & Ha' & Hm'); [lia..|done|]. cbn [mbind option_bind]. eexists.
    split; [done|]. split_and!.
    + split; [apply NoDup_singleton|]. intros r' a2 [= -> ->]%list_elem_of_singleton. done.
    + intros r' k. unfold found_mem. setoid_rewrite list_elem_of_singleton. split.
      * intros (a2 & [= -> ->] & Hk). right. by rewrite Hm' in Hk.
      * intros [(a2 & Hin & _)|[-> Hk]]; [by apply not_elem_of_nil in Hin|]. exists a'. by rewrite Hm'.
    + intros r'. cbn. set_solver.
  - destruct Hok as [Hd Hf]. cbn [fmap list_fmap fst] in Hd. apply NoDup_cons in Hd as [Hni Hd].
    destruct (decide (r0 = r)) as [->|Hne].
    + destruct (found_range_ok a c n cur) as (a' & -> & Ha' & Hm'); [apply (Hf r); left|lia..|done|].
      cbn [mbind option_bind]. eexists. split; [done|]. split_and!.
      * split; [cbn; by apply NoDup_cons|]. intros r' a2 [[= -> ->]|Hin]%elem_of_cons; [done|].
        destruct (Hf r' a2) as (b & x & E & Hx & Hx'); [by right|]. exists b, x. split_and!; [done|lia..].
      * intros r' k. unfold found_mem. setoid_rewrite elem_of_cons. split.
        -- intros (a2 & [[= -> ->]|Hin] & Hk); [|left; eauto]. apply Hm' in Hk as [Hk|Hk]; [|auto]. left. eauto.
        -- intros [(a2 & [[= -> ->]|Hin] & Hk)|[-> Hk]]; [|eauto|].
           ++ exists a'. rewrite Hm'. auto.
           ++ exists a'. rewrite Hm'. auto.
      * intros r'. cbn. rewrite !elem_of_cons. naive_solver.
    + destruct IH as (found' & -> & [Hd' Hf'] & Hm' & Hk').
      { split; [done|]. intros r' a2 Hin. apply (Hf r'). by right. }
      cbn [mbind option_bind]. eexists. split; [done|]. split_and!.
      * split; [|intros r' a2 [[= -> ->]|Hin]%elem_of_cons; [|by apply (Hf' r')]].
        -- cbn. apply NoDup_cons. split; [|done]. rewrite Hk'. naive_solver.
        -- destruct (Hf r0 a) as (b & x & E & Hx & Hx'); [left|]. exists b, x. split_and!; [done|lia..].
      * intros r' k. unfold found_mem in *. setoid_rewrite elem_of_cons. specialize (Hm' r' k).
        split.
        -- intros (a2 & [[= -> ->]|Hin] & Hk); [left; eauto|].
           assert (exists a, (r', a) ∈ found' /\ accum_mem a k) as Hex by eauto. apply Hm' in Hex as [(a3 & ? & ?)|?]; eauto.
        -- intros [(a2 & [[= -> ->]|Hin] & Hk)|Hr]; [eauto|..].
           ++ destruct (proj2 Hm') as (a3 & ? & ?); [left; eauto|]. eauto.
           ++ destruct (proj2 Hm') as (a3 & ? & ?); [by right|]. eauto.
      * intros r'. cbn. rewrite !elem_of_cons, Hk'. tauto.
Qed.

(** ** The collector *)

Lemma select_mem_some d i l end_lsn : select_layer d i (Some l) end_lsn <> Some None.
Proof.
  unfold select_layer, select_pair. destruct (negb _); [done|].
  destruct d as [d|], i as [i|]; try done.
  - destruct (lsn_add (start (ld_lsn_range i)) 1) as [a|] eqn:Ea; [|done]. cbn [mbind option_bind].
    destruct (bool_decide (end_ (ld_lsn_range d) <= _) || _); cbn [mbind option_bind sr_layer].
    + destruct (ld_is_delta i); [destruct (_ || _); done|]. rewrite Ea. cbn [mbind option_bind]. by destruct (_ || _).
    + destruct (ld_is_delta d); [destruct (_ || _); done|].
      destruct (lsn_add (start (ld_lsn_range d)) 1); [|done]. cbn [mbind option_bind]. by destruct (_ || _).
  - by destruct (_ || _).
  - destruct (lsn_add _ 1); [|done]. cbn [mbind option_bind]. by destruct (_ || _).
Qed.

Section collector.
Context (end_lsn : Lsn) (inmem : option InMemoryLayerDesc) (fd fi : Z -> option PersistentLayerDesc).
Context (sel : Z -> option SearchResult) (s e : Z) (B : Z -> Prop).
Hypothesis Hse : 0 <= s < e.
Hypothesis He : e < 2 ^ 127.
Hypothesis Hsel : forall k, s <= k < e -> select_layer (fd k) (fi k) inmem end_lsn = Some (sel k).
Hypothesis HBs : B s.
Hypothesis HBe : B e.
Hypothesis HB : forall a b, B a -> B b -> a < b -> sized a b.

(** The iterators hold the changes above [cur]; the current layers hold from there
    to the next change. *)
Record core_ok (self : RangeSearchCollector) (cur : Z) : Prop := {
  co_inmem : rc_in_memory_layer self = inmem;
  co_lsn : rc_end_lsn self = end_lsn;
  co_range : rc_key_range self = mkRange (from_i128 s) (from_i128 e);
  co_dsorted : osorted (rc_delta_coverage self);
  co_isorted : osorted (rc_image_coverage self);
  co_din : Forall (fun x => cur < x.1 < e /\ B x.1) (rc_delta_coverage self);
  co_iin : Forall (fun x => cur < x.1 < e /\ B x.1) (rc_image_coverage self);
  co_d k : s <= k < e -> cur <= k -> fd k = floor_from k (rc_current_delta self) (rc_delta_coverage self);
  co_i k : s <= k < e -> cur <= k -> fi k = floor_from k (rc_current_image self) (rc_image_coverage self)
}.

(** The results are those of the keys below [cur]. *)
Definition result_ok (self : RangeSearchCollector) (cur : Z) : Prop :=
  found_ok (rc_result self) cur
  /\ forall r k, found_mem (rc_result self) r k <-> s <= k < cur /\ sel k = Some r.

Lemma head_above {V} (l : ordmap Z V) a v r : l = (a, v) :: r -> osorted l -> Forall (fun x => a < x.1) r.
Proof. intros -> [Hf _]%osorted_cons. eapply Forall_impl; [exact Hf|]. intros x Hx. z_order. lia. Qed.

Lemma choose_none self cur :
  core_ok self cur -> choose_next_layer_type self = None ->
  forall k, s <= k < e -> cur <= k -> fd k = rc_current_delta self /\ fi k = rc_current_image self.
Proof.
  intros Hc Hn k Hk Hck. rewrite (co_d _ _ Hc), (co_i _ _ Hc) by done. revert Hn. unfold choose_next_layer_type.
  destruct (rc_delta_coverage self) as [|[a x] dr], (rc_image_coverage self) as [|[b y] ir];
    cbn [head fmap option_fmap option_map fst]; try done. by repeat case_decide.
Qed.

Definition pending (self : RangeSearchCollector) : nat :=
  length (rc_delta_coverage self) + length (rc_image_coverage self).

Lemma floor_until {V} (l : ordmap Z V) c n k : Forall (fun x => n <= x.1) l -> k < n -> floor_from k c l = c.
Proof. intros Hl Hk. apply floor_from_above. eapply Forall_impl; [exact Hl|]. cbn. lia. Qed.

(** Lists of changes above a bound: all of one, or the rest of one. *)
Definition changes_above (n : Z) (l : changes) : Prop := osorted l /\ Forall (fun x => n < x.1 < e /\ B x.1) l.

Lemma changes_above_tail cur a x r : changes_above cur ((a, x) :: r) ->
  changes_above a r /\ cur < a < e /\ B a /\ Forall (fun y => a <= y.1) ((a, x) :: r).
Proof.
  intros [Hs Hf]. apply Forall_cons in Hf as [[Ha HBa] Hf]. cbn [fst] in *.
  pose proof (head_above _ a x r eq_refl Hs) as Hab. apply osorted_cons in Hs as [_ Hs]. rewrite Forall_forall in Hf, Hab.
  split_and!; [split; [done|]|lia|lia|done|].
  - apply Forall_forall. intros y Hy. specialize (Hf y Hy). specialize (Hab y Hy). split; [lia|apply Hf].
  - constructor; [cbn; lia|]. apply Forall_forall. intros y Hy. specialize (Hab y Hy). lia.
Qed.

Lemma changes_above_lift cur n a x r : changes_above cur ((a, x) :: r) -> n < a ->
  changes_above n ((a, x) :: r) /\ Forall (fun y => n <= y.1) ((a, x) :: r).
Proof.
  intros H Hn. destruct (changes_above_tail _ _ _ _ H) as (_ & _ & _ & Ha). destruct H as [Hs Hf].
  rewrite Forall_forall in Hf, Ha. split; [split; [done|]|]; apply Forall_forall; intros y Hy;
    specialize (Ha y Hy); [|lia]. specialize (Hf y Hy). split; [lia|apply Hf].
Qed.

(** The next change: everything holds until it, and [advance] moves to it. *)
Lemma choose_some self cur t :
  core_ok self cur -> choose_next_layer_type self = Some t ->
  let n := next_change_at t in
  cur < n < e /\ B n
  /\ (forall k, s <= k < n -> cur <= k -> fd k = rc_current_delta self /\ fi k = rc_current_image self)
  /\ exists self', advance self t = Some self' /\ core_ok self' n /\ rc_result self' = rc_result self
     /\ (pending self' < pending self)%nat.
Proof.
  intros Hc Ht. destruct Hc as [C1 C2 C3 Sd Si Id Ii Fd Fi].
  assert (changes_above cur (rc_delta_coverage self)) as Hd by done.
  assert (changes_above cur (rc_image_coverage self)) as Hi by done.
  clear Sd Si Id Ii. unfold choose_next_layer_type in Ht. unfold advance, pending.
  destruct (rc_delta_coverage self) as [|[a x] dr] eqn:Ed, (rc_image_coverage self) as [|[b y] ir] eqn:Ei;
    cbn [head fmap option_fmap option_map fst] in Ht; [done|..].
  - injection Ht as <-. cbn [next_change_at]. destruct (changes_above_tail _ _ _ _ Hi) as ([S1 A1] & Hb & HBb & Hge).
    split_and!; [lia|lia|done|..].
    + intros k Hk Hck. rewrite Fd, Fi by lia. split; [done|apply (floor_until _ _ b); [done|lia]].
    + eexists. split; [done|]. split_and!; [|done|cbn; lia].
      split; cbn; try done; try (by constructor); intros k Hk Hck; [rewrite Fd by lia|rewrite Fi, floor_from_cons by lia]; done.
  - injection Ht as <-. cbn [next_change_at]. destruct (changes_above_tail _ _ _ _ Hd) as ([S1 A1] & Ha & HBa & Hge).
    split_and!; [lia|lia|done|..].
    + intros k Hk Hck. rewrite Fd, Fi by lia. split; [apply (floor_until _ _ a); [done|lia]|done].
    + eexists. split; [done|]. split_and!; [|done|cbn; lia].
      split; cbn; try done; try (by constructor); intros k Hk Hck; [rewrite Fd, floor_from_cons by lia|rewrite Fi by lia]; done.
  - destruct (changes_above_tail _ _ _ _ Hd) as ([S1 A1] & Ha & HBa & Hge).
    destruct (changes_above_tail _ _ _ _ Hi) as ([S2 A2] & Hb & HBb & Hge2).
    destruct (decide (b < a)) as [Hba|Hba]; [|destruct (decide (a < b)) as [Hab|Hab]]; injection Ht as <-;
      cbn [next_change_at].
    + destruct (changes_above_lift _ b _ _ _ Hd Hba) as [[S3 A3] Hge3]. split_and!; [lia|lia|done|..].
      * intros k Hk Hck. rewrite Fd, Fi by lia. by rewrite !(floor_until _ _ b) by (done || lia).
      * eexists. split; [done|]. split_and!; [|done|cbn; lia].
        split; cbn; rewrite ?Ed; try done; intros k Hk Hck; [rewrite Fd by lia|rewrite Fi, floor_from_cons by lia]; done.
    + destruct (changes_above_lift _ a _ _ _ Hi Hab) as [[S3 A3] Hge3]. split_and!; [lia|lia|done|..].
      * intros k Hk Hck. rewrite Fd, Fi by lia. by rewrite !(floor_until _ _ a) by (done || lia).
      * eexists. split; [done|]. split_and!; [|done|cbn; lia].
        split; cbn; rewrite ?Ei; try done; intros k Hk Hck; [rewrite Fd, floor_from_cons by lia|rewrite Fi by lia]; done.
    + assert (b = a) as -> by lia. split_and!; [lia|lia|done|..].
      * intros k Hk Hck. rewrite Fd, Fi by lia. by rewrite !(floor_until _ _ a) by (done || lia).
      * eexists. split; [done|]. split_and!; [|done|cbn; lia].
        split; cbn; try done; try (by constructor); intros k Hk Hck; [rewrite Fd, floor_from_cons by lia|rewrite Fi, floor_from_cons by lia]; done.
Qed.

(** Adding the range up to [n]. *)
Lemma add_range_ok self cur n :
  core_ok self cur -> result_ok self cur -> s <= cur < n -> n <= e -> B cur -> B n ->
  (forall k, s <= k < n -> cur <= k -> fd k = rc_current_delta self /\ fi k = rc_current_image self) ->
  exists res, add_range self (mkRange (from_i128 cur) (from_i128 n)) = Some (with_result self res)
  /\ result_ok (with_result self res) n.
Proof.
  intros Hc [Hf Hm] Hcn Hn HBc HBn Hconst. unfold add_range. rewrite (co_inmem _ _ Hc), (co_lsn _ _ Hc).
  assert (forall k, cur <= k < n -> sel k = sel cur) as Hsame.
  { intros k Hk. destruct (Hconst k) as [E1 E2]; [lia|lia|]. destruct (Hconst cur) as [E3 E4]; [lia|lia|].
    assert (Some (sel k) = Some (sel cur)) as [= ->]; [|done].
    rewrite <- !Hsel by lia. congruence. }
  assert (select_layer (rc_current_delta self) (rc_current_image self) inmem end_lsn = Some (sel cur)) as Hs.
  { destruct (Hconst cur) as [<- <-]; [lia|lia|]. apply Hsel. lia. }
  rewrite Hs. cbn [mbind option_bind]. destruct (sel cur) as [r|] eqn:Er.
  - destruct (found_add_ok (rc_result self) r cur n cur) as (res & -> & Hok & Hmem & _); [done|lia..|apply HB; [done|done|lia]|].
    exists res. split; [done|]. split; [done|]. intros r' k. cbn [with_result rc_result]. rewrite Hmem, Hm. split.
    + intros [[Hk E]|[-> Hk]]; [split; [lia|done]|]. rewrite Hsame by done. split; [lia|done].
    + intros [Hk E]. destruct (decide (k < cur)); [left; split; [lia|done]|]. right.
      rewrite Hsame in E by lia. split; [congruence|lia].
  - exists (rc_result self). assert (with_result self (rc_result self) = self) as -> by by destruct self. split.
    + unfold pad_range. rewrite (co_inmem _ _ Hc). destruct (range_is_empty _); [done|].
      destruct inmem as [l|]; [|done]. by apply select_mem_some in Hs.
    + split; [eapply found_ok_weaken; [done|lia]|]. intros r k. rewrite Hm. split; [intros [? ?]; split; [lia|done]|].
      intros [Hk E]. destruct (decide (k < cur)); [split; [lia|done]|]. rewrite Hsame in E by lia. congruence.
Qed.

Lemma core_ok_result self cur res : core_ok self cur -> core_ok (with_result self res) cur.
Proof. intros [? ? ? ? ? ? ? ? ?]. by split. Qed.

Lemma advance_with_result self res t :
  advance (with_result self res) t = (fun x => with_result x res) <$> advance self t.
Proof.
  destruct t; unfold advance; cbn [with_result rc_delta_coverage rc_image_coverage].
  - by destruct (rc_delta_coverage self) as [|[? ?] ?].
  - by destruct (rc_image_coverage self) as [|[? ?] ?].
  - by destruct (rc_image_coverage self) as [|[? ?] ?], (rc_delta_coverage self) as [|[? ?] ?].
Qed.

Lemma collect_loop_ok fuel : forall self cur,
  core_ok self cur -> result_ok self cur -> s <= cur <= e -> B cur -> (pending self < fuel)%nat ->
  exists self', collect_loop fuel self (from_i128 cur) = Ok self' /\ result_ok self' e.
Proof.
  induction fuel as [|fuel IH]; intros self cur Hc Hr Hcur HBc Hfuel; [lia|].
  cbn [collect_loop]. rewrite (co_range _ _ Hc). cbn [end_]. rewrite from_i128_ltb by lia.
  case_bool_decide as Hlt.
  2: { assert (cur = e) as -> by lia. eauto. }
  destruct (choose_next_layer_type self) as [t|] eqn:Et.
  - destruct (choose_some self cur t Hc Et) as (Hn & HBn & Hconst & self' & Ha & Hc' & Hres & Hp).
    unfold next_change_at_key. set (n := next_change_at t) in *.
    destruct (add_range_ok self cur n Hc Hr) as (res & -> & Hr'); [lia|lia|done|done|done|].
    cbn [of_option mbind outcome_bind].
    rewrite advance_with_result, Ha. cbn [fmap option_fmap option_map of_option mbind outcome_bind].
    apply IH; [by apply core_ok_result|done|lia|done|]. change (pending (with_result self' res)) with (pending self'). lia.
  - destruct (add_range_ok self cur e Hc Hr) as (res & -> & Hr'); [lia|lia|done|done| |].
    { intros k Hk Hck. by apply (choose_none self cur). }
    cbn [of_option mbind outcome_bind]. exists (with_result self res). split; [|done].
    destruct fuel; cbn [collect_loop with_result rc_key_range]; rewrite (co_range _ _ Hc); cbn [end_];
      by rewrite from_i128_ltb, bool_decide_eq_false_2 by lia.
Qed.

(** The keys before the first change belong to the layer in memory. *)
Lemma pad_range_ok self n :
  core_ok self (s - 1) -> rc_result self = [] -> s <= n <= e -> B n ->
  (forall k, s <= k < n -> fd k = None /\ fi k = None) ->
  exists res, pad_range self (mkRange (from_i128 s) (from_i128 n)) = Some (with_result self res)
  /\ result_ok (with_result self res) n.
Proof.
  intros Hc Hres Hn HBn Hnone. unfold pad_range.
  assert (forall k, s <= k < n -> sel k = in_memory_result <$> inmem) as Hs.
  { intros k Hk. destruct (Hnone k Hk) as [E1 E2]. assert (Some (sel k) = Some (in_memory_result <$> inmem)) as [= ->]; [|done].
    rewrite <- Hsel by lia. rewrite E1, E2. by destruct inmem. }
  assert (forall r k, found_mem [] r k <-> False) as Hno.
  { intros r k. split; [|done]. intros (a & Hin & _). by apply not_elem_of_nil in Hin. }
  assert (found_ok [] n) as Hok0 by (split; [constructor|intros r a Hin; by apply not_elem_of_nil in Hin]).
  destruct (from_i128_range s n) as (_ & _ & _ & ->); [lia|lia|].
  case_bool_decide as Hle; [|rewrite (co_inmem _ _ Hc); destruct inmem as [l|]].
  - exists []. assert (n = s) as -> by lia. split; [f_equal; destruct self; cbn in *; by subst|].
    split; [done|]. intros r k. cbn [with_result rc_result]. rewrite Hno. split; [done|]. intros [? _]. lia.
  - rewrite Hres. destruct (found_add_ok [] (in_memory_result l) s n s) as (res & -> & Hok & Hmem & _);
      [|lia..|apply HB; [done|done|lia]|].
    { split; [constructor|intros r a Hin; by apply not_elem_of_nil in Hin]. }
    exists res. split; [done|]. split; [done|]. intros r k. cbn [with_result rc_result]. rewrite Hmem, Hno. split.
    + intros [[]|[-> Hk]]. rewrite Hs by done. done.
    + intros [Hk E]. rewrite Hs in E by done. right. cbn in E. split; [congruence|done].
  - exists []. split; [f_equal; destruct self; cbn in *; by subst|]. split; [done|]. intros r k. cbn [with_result rc_result].
    rewrite Hno. split; [done|]. intros [Hk E]. by rewrite Hs in E.
Qed.

Lemma collect_ok delta_changes image_changes :
  changes_above (s - 1) delta_changes -> changes_above (s - 1) image_changes ->
  (forall k, s <= k < e -> fd k = floor_from k None delta_changes) ->
  (forall k, s <= k < e -> fi k = floor_from k None image_changes) ->
  exists found, collect (length delta_changes + length image_changes + 1)
      (collector_new (mkRange (from_i128 s) (from_i128 e)) end_lsn inmem delta_changes image_changes) = Ok found
  /\ NoDup found.*1 /\ forall r k, found_mem found r k <-> s <= k < e /\ sel k = Some r.
Proof.
  intros [Sd Ad] [Si Ai] Hd Hi. set (self := collector_new _ _ _ _ _).
  assert (core_ok self (s - 1)) as Hc by (split; try done; intros k Hk _; by (apply Hd || apply Hi)).
  assert (forall self', result_ok self' e -> NoDup (rc_result self').*1
    /\ forall r k, found_mem (rc_result self') r k <-> s <= k < e /\ sel k = Some r) as Hfin.
  { intros self' [[? _] ?]. done. }
  unfold collect. destruct (choose_next_layer_type self) as [t|] eqn:Et.
  - destruct (choose_some self (s - 1) t Hc Et) as (Hn & HBn & Hconst & self' & Ha & Hc' & Hres & Hp).
    unfold next_change_at_key. set (n := next_change_at t) in *. change (rc_key_range self) with (mkRange (from_i128 s) (from_i128 e)).
    cbn [start end_]. unfold key_leb. rewrite from_i128_cmp by lia.
    destruct (Z.compare_spec e n) as [?|?|_]; [lia|lia|].
    destruct (pad_range_ok self n Hc eq_refl) as (res & -> & Hr'); [lia|done|..].
    { intros k Hk. by apply Hconst; [lia|lia]. }
    cbn [of_option mbind outcome_bind]. rewrite advance_with_result, Ha. cbn [fmap option_fmap option_map of_option mbind outcome_bind].
    destruct (collect_loop_ok (length delta_changes + length image_changes + 1) (with_result self' res) n) as (self2 & -> & Hr2);
      [by apply core_ok_result|done|lia|done| |].
    { change (pending (with_result self' res)) with (pending self'). unfold pending in Hp at 2. cbn in Hp. lia. }
    cbn [mbind outcome_bind]. eexists. split; [done|]. by apply Hfin.
  - change (rc_key_range self) with (mkRange (from_i128 s) (from_i128 e)).
    destruct (pad_range_ok self e Hc eq_refl) as (res & -> & Hr'); [lia|done|..].
    { intros k Hk. by apply (choose_none self (s - 1)); [..|lia]. }
    cbn [of_option mbind outcome_bind]. eexists. split; [done|]. by apply (Hfin _ Hr').
Qed.
End collector.

Section range_search.
Context `{!RbMap, !RbMapLaws}.

(** The bounds of the range and of the layers. *)
Definition boundary (m : LayerMap) (r : Range Key) (x : Z) : Prop :=
  x = i128_bits (start r) \/ x = i128_bits (end_ r)
  \/ exists lk d, (lk, d) ∈ bh_layers (lm_historic m) /\ (x = start (lk_key lk) \/ x = end_ (lk_key lk)).

Lemma version_build m lsn t :
  lm_ok m -> version_at m lsn = Some (Some t) -> t = build (upto lsn (bh_layers (lm_historic m))).
Proof.
  intros [Hf [_ _ Hh] _]. unfold version_at, buffered_get. rewrite Hf. cbn [fmap option_fmap option_map].
  intros [= Hv]. pose proof (get_version_build _ _ lsn Hh) as Hb. by rewrite Hv in Hb.
Qed.

Lemma overlaps_keys img m lsn s e x :
  lm_ok m -> x ∈ coverage_range_overlaps (mkRange s e) (coverage_of img (build (upto lsn (bh_layers (lm_historic m))))) ->
  x.1 = s \/ exists lk d, (lk, d) ∈ bh_layers (lm_historic m) /\ (x.1 = start (lk_key lk) \/ x.1 = end_ (lk_key lk)).
Proof.
  intros Hm. set (c := coverage_of _ _).
  assert (forall y, y ∈ coverage_range (mkRange s e) c -> exists lk d, (lk, d) ∈ bh_layers (lm_historic m)
    /\ (y.1 = start (lk_key lk) \/ y.1 = end_ (lk_key lk))) as Hr.
  { intros y Hy. unfold coverage_range in Hy. rewrite rb_range_items in Hy. apply list_elem_of_fmap in Hy as (z & -> & [_ Hz]%list_elem_of_filter).
    apply build_keys in Hz as ([lk d] & [_ Hin]%list_elem_of_filter & Hb); [by exists lk, d|].
    apply upto_ok, entries_keys_ok, Hm. }
  unfold coverage_range_overlaps. cbn [start end_]. destruct (coverage_query s c); [|auto].
  intros [->|Hin]%elem_of_cons; [by left|right]. apply Hr.
  destruct (coverage_range (mkRange s e) c) as [|y l]; [done|]. case_decide; [by right|done].
Qed.

(** Keys within the range of a search convert there and back. *)
Lemma range_bits (key_range : Range Key) :
  compact_range key_range -> range_is_empty key_range = false ->
  let s := i128_bits (start key_range) in let e := i128_bits (end_ key_range) in
  key_range = mkRange (from_i128 s) (from_i128 e) /\ 0 <= s < e /\ e < 2 ^ 127
  /\ to_i128 (start key_range) = Some s /\ to_i128 (end_ key_range) = Some e.
Proof.
  intros Hkr Hne s e. destruct (compact_range_bits key_range Hkr) as (Es & Ee & Hempty).
  rewrite Hne in Hempty. symmetry in Hempty. apply bool_decide_eq_false in Hempty.
  assert (0 <= s < 2 ^ 127 /\ 0 <= e < 2 ^ 127) as [Hsb Heb] by (split; apply i128_bits_bound; apply Hkr).
  split_and!; try done; try (unfold s, e in *; lia).
  destruct Hkr as (Ws & We & Cs & Ce). unfold s, e. rewrite !from_i128_bits by done. by destruct key_range.
Qed.

(** What a search below an LSN with history, or without, comes down to. *)
Lemma search_unfold m k end_lsn v :
  0 <= k < 2 ^ 127 -> 0 < end_lsn -> version_at m (end_lsn - 1) = Some v ->
  search m (from_i128 k) end_lsn
  = match v with
    | Some t => select_layer (coverage_query k (delta_coverage t)) (coverage_query k (image_coverage t))
                  (search_in_memory_layer m end_lsn) end_lsn
    | None => Some (in_memory_result <$> search_in_memory_layer m end_lsn)
    end.
Proof.
  intros Hk Hl Ev. unfold search, checked_sub. rewrite decide_True by lia. cbn [mbind option_bind].
  rewrite Ev. cbn [mbind option_bind]. destruct v as [t|]; [|done].
  by rewrite to_i128_compact, i128_bits_from_i128 by (apply from_i128_wf || lia).
Qed.

(** Above the first layers: the collector merges the two coverages. *)
Lemma collect_is_search m (key_range : Range Key) end_lsn t s e :
  lm_ok m -> mem_ok m -> 0 <= s < e -> e < 2 ^ 127 -> 0 < end_lsn <= u64_max ->
  s = i128_bits (start key_range) -> e = i128_bits (end_ key_range) ->
  (forall a b, boundary m key_range a -> boundary m key_range b -> a < b -> sized a b) ->
  version_at m (end_lsn - 1) = Some (Some t) ->
  exists found,
    collect (length (coverage_range_overlaps (mkRange s e) (delta_coverage t))
             + length (coverage_range_overlaps (mkRange s e) (image_coverage t)) + 1)
      (collector_new (mkRange (from_i128 s) (from_i128 e)) end_lsn (search_in_memory_layer m end_lsn)
         (coverage_range_overlaps (mkRange s e) (delta_coverage t))
         (coverage_range_overlaps (mkRange s e) (image_coverage t))) = Ok found
  /\ NoDup found.*1
  /\ forall r k, found_mem found r k <-> s <= k < e /\ search m (from_i128 k) end_lsn = Some (Some r).
Proof.
  intros Hm Hmem Hs He Hlsn -> -> HB Ev. set (s := i128_bits (start key_range)) in *. set (e := i128_bits (end_ key_range)) in *.
  destruct (coverage_overlaps_query s e (delta_coverage t)) as [[Sd Wd] Qd]; [lia|].
  destruct (coverage_overlaps_query s e (image_coverage t)) as [[Si Wi] Qi]; [lia|].
  pose proof (version_build m _ t Hm Ev) as Et.
  assert (forall k, s <= k < e -> exists r, search m (from_i128 k) end_lsn = Some r) as Htot.
  { intros k Hks. destruct (search_correct_lemma m (from_i128 k) k end_lsn Hm Hmem) as (r & Hr & _); [|done|eauto].
    by rewrite to_i128_compact, i128_bits_from_i128 by (apply from_i128_wf || lia). }
  destruct (collect_ok end_lsn (search_in_memory_layer m end_lsn) (fun k => coverage_query k (delta_coverage t))
    (fun k => coverage_query k (image_coverage t)) (fun k => default None (search m (from_i128 k) end_lsn))
    s e (boundary m key_range)) with (delta_changes := coverage_range_overlaps (mkRange s e) (delta_coverage t))
    (image_changes := coverage_range_overlaps (mkRange s e) (image_coverage t)) as (found & Hf & Hd & Hmemb).
  - lia.
  - lia.
  - intros k Hks. destruct (Htot k Hks) as [r Hr]. rewrite Hr. change (default None (Some r)) with r.
    rewrite <- Hr. symmetry. apply (search_unfold m k end_lsn (Some t)); [lia|lia|done].
  - by left.
  - by right; left.
  - done.
  - split; [done|]. rewrite Forall_forall in *. intros x Hx. split; [specialize (Wd x Hx); lia|].
    rewrite Et in Hx. apply (overlaps_keys false) in Hx as [Hx|Hx]; [by left|by right; right|done].
  - split; [done|]. rewrite Forall_forall in *. intros x Hx. split; [specialize (Wi x Hx); lia|].
    rewrite Et in Hx. apply (overlaps_keys true) in Hx as [Hx|Hx]; [by left|by right; right|done].
  - intros k Hks. by rewrite Qd.
  - intros k Hks. by rewrite Qi.
  - exists found. split; [done|]. split; [done|]. intros r k. rewrite Hmemb. split.
    + intros [Hks E]. split; [done|]. destruct (Htot k Hks) as [r' Hr']. rewrite Hr' in E |- *. cbn in E. by f_equal.
    + intros [Hks E]. split; [done|]. rewrite E. done.
Qed.

(** Below them: the whole range belongs to the in-memory layer. *)
Lemma in_memory_is_search m end_lsn s e :
  0 <= s < e -> e < 2 ^ 127 -> 0 < end_lsn -> sized s e -> version_at m (end_lsn - 1) = Some None ->
  exists found,
    map_to_in_memory_layer (search_in_memory_layer m end_lsn) (mkRange (from_i128 s) (from_i128 e)) = Some found
  /\ NoDup found.*1
  /\ forall r k, found_mem found r k <-> s <= k < e /\ search m (from_i128 k) end_lsn = Some (Some r).
Proof.
  intros Hs He Hl Hsz Ev.
  assert (forall k, s <= k < e -> search m (from_i128 k) end_lsn
    = Some (in_memory_result <$> search_in_memory_layer m end_lsn)) as Hsearch.
  { intros k Hk. rewrite (search_unfold m k end_lsn None) by (done || lia). done. }
  unfold map_to_in_memory_layer. destruct (search_in_memory_layer m end_lsn) as [l|].
  - destruct (found_add_ok [] (in_memory_result l) s e s) as (found & -> & [Hd _] & Hmemb & _);
      [split; [constructor|intros r a Hin; by apply not_elem_of_nil in Hin]|lia..|done|].
    exists found. split; [done|]. split; [done|]. intros r k. rewrite Hmemb. split.
    + intros [(a & Hin & _)|[-> Hks]]; [by apply not_elem_of_nil in Hin|]. by rewrite Hsearch.
    + intros [Hks E]. rewrite Hsearch in E by done. right. split; [by injection E|done].
  - exists []. split; [done|]. split; [constructor|]. intros r k. split.
    + intros (a & Hin & _). by apply not_elem_of_nil in Hin.
    + intros [Hks E]. by rewrite Hsearch in E.
Qed.

(** C10: The search of a range returns, and agrees with the search of one key: a key
    of the range is listed under a layer and an LSN floor exactly if the search for
    that key gives that layer and floor, and under no more than one; keys outside the
    range are not listed.  The sizes of the ranges between bounds of layers must not
    overflow (two size keys of adjacent forks do). *)
Theorem range_search_is_search (m : LayerMap) (key_range : Range Key) (end_lsn : Lsn) :
  lm_ok m -> mem_ok m -> compact_range key_range -> range_is_empty key_range = false -> 0 < end_lsn <= u64_max ->
  (forall a b, boundary m key_range a -> boundary m key_range b -> a < b -> sized a b) ->
  exists found, range_search m key_range end_lsn = Ok found
  /\ NoDup found.*1
  /\ forall r k, found_mem found r k
       <-> i128_bits (start key_range) <= k < i128_bits (end_ key_range)
           /\ search m (from_i128 k) end_lsn = Some (Some r).
Proof.
  intros Hm Hmem Hkr Hne Hlsn HB. destruct (range_bits key_range Hkr Hne) as (Ekr & Hs & He & Es & Ee).
  unfold range_search, checked_sub. rewrite decide_True by lia. cbn [of_option mbind outcome_bind].
  destruct (version_at_ok m (end_lsn - 1) Hm) as (v & Ev & Hv). rewrite Ev. cbn [of_option mbind outcome_bind].
  destruct v as [t|].
  - rewrite Es, Ee. cbn [of_option mbind outcome_bind]. 
    destruct (collect_is_search m key_range end_lsn t _ _ Hm Hmem Hs He Hlsn eq_refl eq_refl HB Ev) as (found & Hf & Hfound).
    exists found. split; [by rewrite <- Ekr in Hf|done].
  - destruct (in_memory_is_search m end_lsn _ _ Hs He ltac:(lia)) with (2 := Ev) as (found & Hf & Hfound).
    + apply HB; [by left|by right; left|lia].
    + exists found. split; [by rewrite <- Ekr in Hf; rewrite Hf|done].
Qed.
End range_search.

(** The bounds in the example: of the range of its layers and of the key space. *)
Lemma example_boundary x :
  boundary example_map example_range x ->
  x ∈ [0; i128_bits (start example_range); i128_bits (end_ example_range); 2 ^ 127 - 1].
Proof.
  intros [->|[->|(lk & d & Hin & Hx)]]; [set_solver..|].
  pose proof (lmo_entries _ (proj1 example_map_ok) _ _ Hin) as [Hlk _].
  assert (in_map example_map d) as Hd by by exists lk.
  apply example_in_map in Hd as [->|[->| ->]]; vm_compute in Hlk; injection Hlk as <-; cbn [lk_key start end_] in Hx;
    destruct Hx as [->| ->]; apply (bool_decide_unpack _); vm_compute; reflexivity.
Qed.

Lemma range_search_is_search_witness :
  exists found, range_search example_map example_range 80 = Ok found
  /\ NoDup found.*1
  /\ forall r k, found_mem found r k
       <-> i128_bits (start example_range) <= k < i128_bits (end_ example_range)
           /\ search example_map (from_i128 k) 80 = Some (Some r).
Proof.
  apply range_search_is_search; [apply example_map_ok|apply example_mem_ok| |reflexivity|unfold u64_max; lia|].
  - vm_compute. repeat split; discriminate || reflexivity.
  - intros a b Ha%example_boundary Hb%example_boundary Hab.
    repeat (apply elem_of_cons in Ha as [->|Ha]; [|]); try (by apply not_elem_of_nil in Ha);
      repeat (apply elem_of_cons in Hb as [->|Hb]; [|]); try (by apply not_elem_of_nil in Hb);
      try (vm_compute in Hab; discriminate); vm_compute; eexists; reflexivity.
Defined.
