(* ===== verification/LayerVisibility.v ===== *)
(** * Visibility of layers, and the image-consistent LSN

    [get_visibility] and [compute_image_consistent_lsn] of
    [pageserver/src/tenant/layer_map.rs]: which layers a read at the tip of a
    timeline or at a branch point may still need, and up to which LSN all pages have
    been written as images.  The set of integers of the [range_set_blaze] crate is
    the interface [RangeSet]. *)

From S2P Require Import Prelude Lsn XlogUtils Key Shard KeySpace OrdMap LayerCoverage LayerCoverageFacts.
From S2P Require Import LayerName LayerMap LayerMapUpdates LayerMapFacts.

(** ** The sets of the [range_set_blaze] crate *)

Class RangeSet := {
  rset : Type;
  rset_default : rset;
  (** [from_sorted_disjoint(CheckSortedDisjoint::from([a..=b]))] *)
  rset_from_range : Z -> Z -> option rset;
  rset_is_superset : rset -> rset -> bool;
  rset_ranges_insert : Z -> Z -> rset -> rset * bool;
  rset_ranges : rset -> list (Z * Z)
}.

Definition rset_mem `{!RangeSet} (k : Z) (x : rset) : Prop := exists r, r ∈ rset_ranges x /\ r.1 <= k <= r.2.

(** Documented behaviour. *)
Class RangeSetLaws `{!RangeSet} := {
  rset_default_mem k : ~ rset_mem k rset_default;
  rset_from_range_ok a b : a <= b ->
    exists x, rset_from_range a b = Some x /\ forall k, rset_mem k x <-> a <= k <= b;
  rset_is_superset_ok x y : rset_is_superset x y = true <-> forall k, rset_mem k y -> rset_mem k x;
  rset_ranges_insert_mem a b x k : a <= b -> rset_mem k (rset_ranges_insert a b x).1 <-> rset_mem k x \/ a <= k <= b;
  rset_ranges_insert_new a b x : a <= b ->
    (rset_ranges_insert a b x).2 = true <-> exists k, a <= k <= b /\ ~ rset_mem k x
}.

(** ** [get_visibility] *)

Section visibility.
Context `{!RbMap, !RangeSet}.

(** [KeyShadow]; a range is given by its keys, [None] is the panic of a key without
    a 128-bit form. *)
Definition shadow_contains (inner : rset) (range : Range Key) : option bool :=
  s ← to_i128 (start range);
  e ← to_i128 (end_ range);
  other ← rset_from_range s (e - 1);
  Some (rset_is_superset inner other).

Definition shadow_cover (inner : rset) (insert : Range Key) : option (rset * bool) :=
  s ← to_i128 (start insert);
  e ← to_i128 (end_ insert);
  Some (rset_ranges_insert s (e - 1) inner).

Fixpoint add_ranges (accum : KeySpaceAccum) (l : list (Z * Z)) : option KeySpaceAccum :=
  match l with
  | [] => Some accum
  | (a, b) :: l =>
      accum ← ka_add_range accum (mkRange (from_i128 a) (from_i128 (b + 1)));
      add_ranges accum l
  end.

Definition shadow_to_keyspace (inner : rset) : option KeySpace :=
  ka_to_keyspace <$> add_ranges ka_new (rset_ranges inner).

Inductive vis_item : Type :=
| ReadPoint (lsn : Lsn)
| VLayer (layer : PersistentLayerDesc).

(** The key of [sort_by_key], largest first. *)
Definition item_key (item : vis_item) : option (Lsn * Z) :=
  match item with
  | VLayer layer =>
      if ld_is_delta layer
      then l ← checked_sub (end_ (ld_lsn_range layer)) 1; Some (l, 0)
      else l ← image_layer_lsn layer; Some (l, 1)
  | ReadPoint lsn => Some (lsn, 2)
  end.

Definition item_lt (a b : Lsn * Z) : bool := bool_decide (a.1 < b.1) || bool_decide (a.1 = b.1) && bool_decide (a.2 < b.2).

(** A stable sort: behind the items whose key is not smaller. *)
Fixpoint insert_item (x : (Lsn * Z) * vis_item) (l : list ((Lsn * Z) * vis_item)) : list ((Lsn * Z) * vis_item) :=
  match l with
  | [] => [x]
  | y :: l' => if item_lt y.1 x.1 then x :: l else y :: insert_item x l'
  end.

Definition sort_items (l : list vis_item) : option (list vis_item) :=
  keyed ← mapM (fun i => k ← item_key i; Some (k, i)) l;
  Some (map snd (fold_left (fun acc x => insert_item x acc) keyed [])).

(** [read_points.sort_by_key]: ascending and stable. *)
Fixpoint insert_lsn (x : Lsn) (l : list Lsn) : list Lsn :=
  match l with
  | [] => [x]
  | y :: l' => if decide (x < y) then x :: l else y :: insert_lsn x l'
  end.
Definition sort_lsns (l : list Lsn) : list Lsn := fold_left (fun acc x => insert_lsn x acc) l [].

Record vis_state := mkVisState {
  vs_results : list (PersistentLayerDesc * LayerVisibilityHint);
  vs_maybe_covered_deltas : list PersistentLayerDesc;
  vs_shadow : rset
}.

(** [maybe_covered_deltas.retain]: the results it pushes, and the layers it keeps. *)
Fixpoint retain_deltas (reached_lsn : Lsn) (is_readpoint : bool) (l : list PersistentLayerDesc) :
    list (PersistentLayerDesc * LayerVisibilityHint) * list PersistentLayerDesc :=
  match l with
  | [] => ([], [])
  | d :: l =>
      let '(pushed, kept) := retain_deltas reached_lsn is_readpoint l in
      if bool_decide (start (ld_lsn_range d) <= reached_lsn) && is_readpoint then ((d, Visible) :: pushed, kept)
      else if bool_decide (reached_lsn < start (ld_lsn_range d)) then ((d, Covered) :: pushed, kept)
      else (pushed, d :: kept)
  end.

Definition vis_step (st : vis_state) (item : vis_item) : option vis_state :=
  let '(reached_lsn, is_readpoint) :=
    match item with
    | ReadPoint lsn => (lsn, true)
    | VLayer layer => (start (ld_lsn_range layer), false)
    end in
  let '(pushed, maybe_covered_deltas) := retain_deltas reached_lsn is_readpoint (vs_maybe_covered_deltas st) in
  let results := vs_results st ++ pushed in
  match item with
  | ReadPoint _ => Some (mkVisState results maybe_covered_deltas rset_default)
  | VLayer layer =>
      if ld_is_delta layer then
        contained ← shadow_contains (vs_shadow st) (ld_key_range layer);
        if contained : bool
        then Some (mkVisState results (maybe_covered_deltas ++ [layer]) (vs_shadow st))
        else Some (mkVisState (results ++ [(layer, Visible)]) maybe_covered_deltas (vs_shadow st))
      else
        covered ← shadow_cover (vs_shadow st) (ld_key_range layer);
        let visibility := if covered.2 : bool then Visible else Covered in
        Some (mkVisState (results ++ [(layer, visibility)]) maybe_covered_deltas covered.1)
  end.

Fixpoint vis_loop (st : vis_state) (items : list vis_item) : option vis_state :=
  match items with
  | [] => Some st
  | item :: items => st ← vis_step st item; vis_loop st items
  end.

Definition get_visibility (self : LayerMap) (read_points : list Lsn) :
    option (list (PersistentLayerDesc * LayerVisibilityHint) * KeySpace) :=
  layers ← iter_historic_layers self;
  items ← sort_items (map VLayer layers ++ map ReadPoint (sort_lsns read_points));
  st ← vis_loop (mkVisState [] [] rset_default) items;
  keyspace ← shadow_to_keyspace (vs_shadow st);
  Some (vs_results st ++ map (fun d => (d, Covered)) (vs_maybe_covered_deltas st), keyspace).
End visibility.

(** ** [compute_image_consistent_lsn] *)

Record ImageLayerInfo := mkImageLayerInfo { ii_image_lsn : Lsn; ii_min_delta_lsn : Lsn }.

(** The walk over [image_map.range_mut(delta_key_range.start..Key::MAX)]. *)
Fixpoint note_delta (delta_key_range : Range Key) (delta_lsn_range : Range Lsn) (l : ordmap Key ImageLayerInfo) :
    ordmap Key ImageLayerInfo :=
  match l with
  | [] => []
  | (img_end_key, img_info) :: r =>
      if key_ltb img_end_key (start delta_key_range) then
        (img_end_key, img_info) :: note_delta delta_key_range delta_lsn_range r
      else if key_leb KEY_MAX img_end_key then l
      else
        let img_info :=
          if decide (ii_image_lsn img_info < end_ delta_lsn_range)
          then mkImageLayerInfo (ii_image_lsn img_info) (Z.min (ii_min_delta_lsn img_info) (start delta_lsn_range))
          else img_info in
        if key_leb (end_ delta_key_range) img_end_key then (img_end_key, img_info) :: r
        else (img_end_key, img_info) :: note_delta delta_key_range delta_lsn_range r
  end.

Definition min_lsn (d : Lsn) (l : list Lsn) : Lsn :=
  match l with [] => d | x :: l => fold_left Z.min l x end.

Section image_consistent.
Context `{!RbMap}.

Definition image_infos (min_l0_deltas_lsn : Lsn) (l : list (Range Key * option PersistentLayerDesc)) :
    ordmap Key ImageLayerInfo :=
  fold_left (fun m e =>
    let img_lsn := match e.2 with Some layer => end_ (ld_lsn_range layer) | None => 0 end in
    oinsert (end_ e.1) (mkImageLayerInfo img_lsn min_l0_deltas_lsn) m) l [].

Definition compute_image_consistent_lsn (self : LayerMap) (disk_consistent_lsn : Lsn) : option Lsn :=
  let min_l0_deltas_lsn :=
    min_lsn disk_consistent_lsn (map (fun l => start (ld_lsn_range l)) (level0_deltas self)) in
  coverage ← lm_image_coverage self (mkRange KEY_MIN KEY_MAX) disk_consistent_lsn;
  let image_map := image_infos min_l0_deltas_lsn coverage in
  layers ← iter_historic_layers self;
  let image_map :=
    fold_left (fun m layer =>
      if ld_is_delta layer then note_delta (ld_key_range layer) (ld_lsn_range layer) m else m) layers image_map in
  init ← checked_sub min_l0_deltas_lsn 1;
  Some (fold_left (fun acc e =>
    Z.min acc (Z.max (ii_image_lsn e.2) (default 0 (checked_sub (ii_min_delta_lsn e.2) 1)))) image_map init).
End image_consistent.
