(* ===== verification/LayerVisibilityFacts.v ===== *)
(** * Properties of layer visibility and of the image-consistent LSN *)

From S2P Require Import Prelude Lsn XlogUtils Key Shard KeySpace OrdMap LayerCoverage LayerCoverageFacts.
From S2P Require Import LayerName LayerMap LayerMapUpdates LayerMapFacts LayerVisibility.

(** ** The image-consistent LSN *)

(** Entries with their keys and image LSNs kept, and delta LSNs lowered. *)
Definition lowers : ordmap Key ImageLayerInfo -> ordmap Key ImageLayerInfo -> Prop :=
  Forall2 (fun a b => a.1 = b.1 /\ ii_image_lsn a.2 = ii_image_lsn b.2 /\ ii_min_delta_lsn b.2 <= ii_min_delta_lsn a.2).

Lemma lowers_refl l : lowers l l.
Proof. apply Forall_Forall2_diag, Forall_forall. intros e _. split_and!; [done|done|lia]. Qed.

Lemma lowers_trans l1 l2 l3 : lowers l1 l2 -> lowers l2 l3 -> lowers l1 l3.
Proof.
  intros H1 H2. revert l3 H2. induction H1 as [|a b l1 l2 (E1 & E2 & E3) _ IH]; intros l3 H2; inversion H2 as [|? c ? l3' (F1 & F2 & F3)];
    subst; constructor; [|by apply IH]. split_and!; [congruence|congruence|lia].
Qed.

Lemma note_delta_lowers kr lr l : lowers l (note_delta kr lr l).
Proof.
  induction l as [|[k i] l IH]; cbn [note_delta]; [constructor|].
  destruct (key_ltb k (start kr)); [constructor; [split_and!; [done|done|cbn; lia]|done]|].
  destruct (key_leb KEY_MAX k); [apply lowers_refl|].
  set (i' := if decide _ then _ else _).
  assert (ii_image_lsn i = ii_image_lsn i' /\ ii_min_delta_lsn i' <= ii_min_delta_lsn i) as [H1 H2]
    by (unfold i'; destruct (decide _); cbn; split; [done|lia|done|lia]).
  destruct (key_leb (end_ kr) k); constructor; [done|apply lowers_refl|done|done].
Qed.

(** The walk reaches the entries up to the first that ends at or above the delta. *)
Lemma note_delta_at kr lr l j e i :
  l !! j = Some (e, i) -> (forall j' x, (j' < j)%nat -> l !! j' = Some x -> key_leb (end_ kr) x.1 = false /\ key_leb KEY_MAX x.1 = false) ->
  key_ltb e (start kr) = false -> key_leb KEY_MAX e = false -> ii_image_lsn i < end_ lr ->
  exists i', note_delta kr lr l !! j = Some (e, i') /\ ii_min_delta_lsn i' <= start lr.
Proof.
  revert j. induction l as [|[k x] l IH]; intros j Hj Hbef Hs Hm Hl; [done|]. destruct j as [|j]; cbn [note_delta].
  - injection Hj as [= -> ->]. rewrite Hs, Hm, decide_True by done. destruct (key_leb (end_ kr) e);
      (eexists; split; [done|]); cbn; lia.
  - destruct (IH j) as (i' & Hi' & Hle); [done| |done|done|done|].
    { intros j' y Hj' Hy. apply (Hbef (S j')); [lia|done]. }
    destruct (Hbef 0%nat (k, x) ltac:(lia) eq_refl) as [H1 H2]. cbn [fst] in H1, H2.
    destruct (key_ltb k (start kr)); [eauto|]. rewrite H2, H1. eauto.
Qed.

Lemma lowers_at l l' j e i :
  lowers l l' -> l !! j = Some (e, i) ->
  exists i', l' !! j = Some (e, i') /\ ii_image_lsn i' = ii_image_lsn i /\ ii_min_delta_lsn i' <= ii_min_delta_lsn i.
Proof.
  intros H Hj. destruct (Forall2_lookup_l _ _ _ _ _ H Hj) as ([e' i'] & Hj' & E1 & E2 & E3). cbn in *. subst e'. eauto.
Qed.

Definition note_layers (layers : list PersistentLayerDesc) (m : ordmap Key ImageLayerInfo) : ordmap Key ImageLayerInfo :=
  fold_left (fun m layer => if ld_is_delta layer then note_delta (ld_key_range layer) (ld_lsn_range layer) m else m) layers m.

Lemma note_layers_lowers layers m : lowers m (note_layers layers m).
Proof.
  revert m. induction layers as [|d layers IH]; intros m; [apply lowers_refl|]. cbn.
  eapply lowers_trans; [|apply IH]. destruct (ld_is_delta d); [apply note_delta_lowers|apply lowers_refl].
Qed.

(** After all layers have been noted. *)
Lemma note_layers_at layers m d j e i :
  d ∈ layers -> ld_is_delta d = true -> m !! j = Some (e, i) ->
  (forall j' x, (j' < j)%nat -> m !! j' = Some x ->
     key_leb (end_ (ld_key_range d)) x.1 = false /\ key_leb KEY_MAX x.1 = false) ->
  key_ltb e (start (ld_key_range d)) = false -> key_leb KEY_MAX e = false ->
  exists i', note_layers layers m !! j = Some (e, i') /\ ii_image_lsn i' = ii_image_lsn i
  /\ (ii_image_lsn i < end_ (ld_lsn_range d) -> ii_min_delta_lsn i' <= start (ld_lsn_range d)).
Proof.
  intros Hin Hd. revert m i. induction layers as [|d0 layers IH]; intros m i Hj Hbef Hs Hm; [by apply not_elem_of_nil in Hin|].
  cbn [note_layers fold_left]. fold (note_layers layers).
  set (m1 := if ld_is_delta d0 then note_delta (ld_key_range d0) (ld_lsn_range d0) m else m).
  change (fold_left _ layers m1) with (note_layers layers m1).
  assert (lowers m m1) as Hlow by (unfold m1; destruct (ld_is_delta d0); [apply note_delta_lowers|apply lowers_refl]).
  destruct (lowers_at _ _ _ _ _ Hlow Hj) as (i1 & Hj1 & Ei1 & _).
  destruct (decide (d0 = d)) as [->|Hne].
  - unfold m1 in *. rewrite Hd in *. destruct (lowers_at _ _ _ _ _ (note_layers_lowers layers _) Hj1) as (i2 & Hj2 & Ei2 & Hle2).
    exists i2. split_and!; [done|congruence|]. intros Hlt.
    destruct (note_delta_at _ _ _ _ _ _ Hj Hbef Hs Hm Hlt) as (i' & Hi' & Hle). rewrite Hj1 in Hi'. injection Hi' as <-. lia.
  - apply elem_of_cons in Hin as [->|Hin]; [done|]. rewrite <- Ei1. apply IH; [done|done| |done|done].
    intros j' x Hj' Hx. assert (exists y, m !! j' = Some y /\ y.1 = x.1) as (y & Hy & <-).
    { destruct (Forall2_lookup_r _ _ _ _ _ Hlow Hx) as (y & Hy & E & _). eauto. }
    by apply (Hbef j').
Qed.

Section image_consistent.
Context `{!RbMap, !RbMapLaws}.

Definition image_info (min_l0 : Lsn) (e : Range Key * option PersistentLayerDesc) : Key * ImageLayerInfo :=
  (end_ e.1, mkImageLayerInfo (match e.2 with Some layer => end_ (ld_lsn_range layer) | None => 0 end) min_l0).

Lemma oinsert_last {V} (l : ordmap Key V) k v : Forall (fun x => klt x.1 k) l -> oinsert k v l = l ++ [(k, v)].
Proof.
  induction l as [|[k' v'] l IH]; intros Hf; [done|]. apply Forall_cons in Hf as [Hk Hf]. cbn [oinsert app].
  assert (kcmp k k' = Gt) as -> by (rewrite (kcmp_antisym k' k); cbn in Hk; by rewrite Hk). by rewrite IH.
Qed.

(** The intervals end at increasing keys. *)
Fixpoint ends_from (cur : Z) (l : list (Range Key * option PersistentLayerDesc)) : Prop :=
  match l with
  | [] => True
  | (r, _) :: l => exists n, end_ r = from_i128 n /\ cur <= n < 2 ^ 127 /\ ends_from (n + 1) l
  end.

Lemma ends_from_lookup l : forall cur j x,
  ends_from cur l -> l !! j = Some x -> exists n, end_ x.1 = from_i128 n /\ cur <= n < 2 ^ 127.
Proof.
  induction l as [|[r v] l IH]; intros cur j x He Hj; [done|]. destruct He as (n & En & Hn & He).
  destruct j as [|j]; cbn in Hj; [injection Hj as <-; eauto|]. destruct (IH _ _ _ He Hj) as (n' & ? & ?).
  exists n'. split; [done|lia].
Qed.

Lemma intervals_ends cs : forall lo cur v e,
  osorted cs -> Forall (fun x => lo <= x.1 < e) cs -> lo <= e < 2 ^ 127 -> ends_from lo (coverage_intervals cur v cs e).
Proof.
  induction cs as [|[k1 v1] cs IH]; intros lo cur v e Hs Hf He; cbn [coverage_intervals ends_from].
  - exists e. split_and!; [done|lia|lia|done].
  - apply Forall_cons in Hf as [Hk Hf]. cbn [fst] in Hk. exists k1. split_and!; [done|lia|lia|].
    apply osorted_cons in Hs as [Hab Hs]. apply IH; [done| |lia]. rewrite Forall_forall in *.
    intros x Hx. specialize (Hf x Hx). specialize (Hab x Hx). z_order. lia.
Qed.

(** The interval that has a key. *)
Lemma intervals_at cs : forall cur v e k,
  osorted cs -> Forall (fun x => cur <= x.1 < e) cs -> cur <= k < e ->
  exists j r n, coverage_intervals cur v cs e !! j = Some (r, floor_from k v cs) /\ end_ r = from_i128 n /\ k < n <= e
  /\ forall j' x, (j' < j)%nat -> coverage_intervals cur v cs e !! j' = Some x -> exists n', end_ x.1 = from_i128 n' /\ cur <= n' <= k.
Proof.
  induction cs as [|[k1 v1] cs IH]; intros cur v e k Hs Hf Hk; cbn [coverage_intervals].
  - exists 0%nat, (mkRange (from_i128 cur) (from_i128 e)), e. split_and!; [done|done|lia|lia|intros; lia].
  - apply Forall_cons in Hf as [Hk1 Hf]. cbn [fst] in Hk1. pose proof Hs as [Hab Hs']%osorted_cons.
    assert (Forall (fun x => k1 < x.1) cs) as Hab' by (eapply Forall_impl; [exact Hab|]; intros x Hx; z_order; lia).
    destruct (decide (k < k1)) as [Hlt|Hge].
    + assert (floor_from k v ((k1, v1) :: cs) = v) as ->.
      { apply floor_from_above. constructor; [cbn; lia|]. eapply Forall_impl; [exact Hab'|]. cbn. lia. }
      exists 0%nat, (mkRange (from_i128 cur) (from_i128 k1)), k1. split_and!; [done|done|lia|lia|intros; lia].
    + destruct (IH k1 v1 e k Hs') as (j & r & n & Hj & En & Hn & Hbef); [|lia|].
      { rewrite Forall_forall in *. intros x Hx. specialize (Hf x Hx). specialize (Hab' x Hx). lia. }
      exists (S j), r, n. rewrite floor_from_cons by lia. split_and!; [done|done|lia|lia|].
      intros j' x Hj' Hx. destruct j' as [|j']; cbn in Hx.
      * injection Hx as <-. exists k1. split; [done|lia].
      * destruct (Hbef j' x) as (n' & ? & ?); [lia|done|]. exists n'. split; [done|lia].
Qed.

Lemma image_infos_map min_l0 l : ends_from 0 l -> image_infos min_l0 l = map (image_info min_l0) l.
Proof.
  unfold image_infos. intros He.
  assert (forall l acc cur, ends_from cur l -> 0 <= cur -> Forall (fun x => exists n, x.1 = from_i128 n /\ 0 <= n < cur /\ n < 2 ^ 127) acc ->
    fold_left (fun m e => oinsert (end_ e.1) (mkImageLayerInfo match e.2 with Some layer => end_ (ld_lsn_range layer) | None => 0 end min_l0) m) l acc
    = acc ++ map (image_info min_l0) l) as Hgen; [|by apply (Hgen l [] 0)].
  clear l He. induction l as [|[r v] l IH]; intros acc cur He Hcur Hacc; [by rewrite app_nil_r|].
  destruct He as (n & En & Hn & He). cbn [fold_left map fst snd]. rewrite oinsert_last.
  - rewrite (IH _ (n + 1)); [by rewrite <- app_assoc|done|lia|]. apply Forall_app. split.
    + eapply Forall_impl; [exact Hacc|]. intros x (n' & ? & ? & ?). exists n'. split_and!; [done|lia..].
    + apply Forall_singleton. exists n. cbn. split_and!; [done|lia..].
  - eapply Forall_impl; [exact Hacc|]. intros x (n' & -> & Hn' & Hb). rewrite En.
    change (key_cmp (from_i128 n') (from_i128 n) = Lt). rewrite from_i128_cmp by lia. apply Z.compare_lt_iff. lia.
Qed.

Lemma fold_min_le l init (g : Key * ImageLayerInfo -> Z) :
  let r := fold_left (fun acc e => Z.min acc (g e)) l init in r <= init /\ forall e, e ∈ l -> r <= g e.
Proof.
  cbv zeta. revert init. induction l as [|x l IH]; intros init; [split; [cbn; lia|by intros e ?%not_elem_of_nil]|].
  cbn [fold_left]. destruct (IH (Z.min init (g x))) as [H1 H2]. split; [lia|].
  intros e [->|He]%elem_of_cons; [lia|by apply H2].
Qed.

Lemma min_lsn_pos d l : 0 < d -> Forall (fun x => 0 < x) l -> 0 < min_lsn d l.
Proof.
  intros Hd Hl. destruct l as [|x l]; [done|]. apply Forall_cons in Hl as [Hx Hl]. cbn. revert x Hx.
  induction l as [|y l IH]; intros x Hx; [done|]. apply Forall_cons in Hl as [Hy Hl]. cbn. apply IH; [done|lia].
Qed.

Lemma from_i128_below_max x : 0 <= x < 2 ^ 127 -> key_leb KEY_MAX (from_i128 x) = false.
Proof.
  intros Hx. destruct (from_i128_wf x) as [Hw [Hc _]]. unfold key_leb, key_cmp. cbn [key_fields KEY_MAX lex_cmp field1].
  destruct (Z.compare_spec u8_max (field1 (from_i128 x))) as [E|E|E]; unfold u8_max in *; [lia|lia|done].
Qed.

(** Key ranges of delta layers: bounds whose order is that of their 128-bit form,
    or the whole key space. *)
Definition delta_keys_ok (d : PersistentLayerDesc) : Prop :=
  key_compact (start (ld_key_range d)) /\ (key_compact (end_ (ld_key_range d)) \/ end_ (ld_key_range d) = KEY_MAX).

(** Where a delta layer of a key lies: its end is above every bound up to the key
    and its start is not above any bound past it. *)
Lemma delta_bounds m d k :
  lm_ok m -> in_map m d -> delta_keys_ok d -> covers_key k d ->
  0 <= k < 2 ^ 127 - 1
  /\ (forall n, 0 <= n <= k -> key_leb (end_ (ld_key_range d)) (from_i128 n) = false)
  /\ (forall n, k < n < 2 ^ 127 -> key_ltb (from_i128 n) (start (ld_key_range d)) = false).
Proof.
  intros Hm Hind [Cs Ce] (lk & Hlk & Hk).
  destruct (in_map_ok m d Hm Hind) as (Hlsn & Ws & We & (bs & be & Es & Ee & Hbb) & _).
  assert (lk_key lk = mkRange bs be) as Hlkk.
  { unfold layer_key in Hlk. rewrite Es, Ee in Hlk. cbn [mbind option_bind] in Hlk. by injection Hlk as <-. }
  rewrite Hlkk in Hk. cbn [start end_] in Hk.
  assert (bs = i128_bits (start (ld_key_range d))) as Hbs by (rewrite to_i128_compact in Es by done; congruence).
  assert (be = i128_bits (end_ (ld_key_range d))) as Hbe.
  { unfold to_i128 in Ee. destruct (is_i128_representable _); [|done]. by injection Ee. }
  pose proof (i128_bits_bound _ Ws). pose proof (i128_bits_bound _ We). split; [lia|]. split; intros n Hn.
  - destruct Ce as [Ce| ->]; [|apply from_i128_below_max; lia].
    rewrite <- (from_i128_bits (end_ (ld_key_range d))), <- Hbe by done.
    unfold key_leb. rewrite from_i128_cmp by lia. destruct (Z.compare_spec be n); [lia|lia|done].
  - rewrite <- (from_i128_bits (start (ld_key_range d))), <- Hbs, from_i128_ltb by (done || lia).
    apply bool_decide_eq_false. lia.
Qed.

(** The entry of the map of images that has a key notes the delta layers of it. *)
Lemma noted_infos m d k min_l0 q cs :
  lm_ok m -> in_map m d -> ld_is_delta d = true -> delta_keys_ok d -> covers_key k d ->
  within 0 (2 ^ 127 - 1) cs ->
  let image_lsn := match floor_from k q cs with Some layer => end_ (ld_lsn_range layer) | None => 0 end in
  exists e i, (e, i) ∈ note_layers (bh_layers (lm_historic m)).*2
                         (map (image_info min_l0) (coverage_intervals 0 q cs (2 ^ 127 - 1)))
  /\ ii_image_lsn i = image_lsn /\ (image_lsn < end_ (ld_lsn_range d) -> ii_min_delta_lsn i <= start (ld_lsn_range d)).
Proof.
  intros Hm Hind Hdd Hdk Hcov [Hcs Hw] image_lsn. destruct (delta_bounds m d k Hm Hind Hdk Hcov) as (Hk & Hend & Hstart).
  destruct (intervals_at cs 0 q (2 ^ 127 - 1) k Hcs Hw Hk) as (j & rg & n & Hj & En & Hn & Hbef).
  change (map ?f ?l) with (f <$> l).
  assert ((image_info min_l0 <$> coverage_intervals 0 q cs (2 ^ 127 - 1)) !! j
    = Some (from_i128 n, mkImageLayerInfo image_lsn min_l0)) as Hj'.
  { rewrite list_lookup_fmap, Hj. cbn [fmap option_fmap option_map image_info fst snd]. unfold image_info. cbn [fst snd].
    by rewrite En. }
  destruct (note_layers_at (bh_layers (lm_historic m)).*2 _ d _ _ _
    ltac:(destruct Hind as [lk0 Hin0]; by apply (list_elem_of_fmap_2 snd) in Hin0) Hdd Hj') as (i' & Hi' & Eimg & Hdel).
  - intros j' y Hjj Hy. rewrite list_lookup_fmap in Hy.
    destruct (coverage_intervals 0 q cs (2 ^ 127 - 1) !! j') as [e'|] eqn:Ej'; [|done]. injection Hy as <-.
    destruct (Hbef j' e' Hjj Ej') as (n' & En' & Hn'). cbn [image_info fst]. rewrite En'.
    split; [by apply Hend|apply from_i128_below_max; lia].
  - apply Hstart. lia.
  - apply from_i128_below_max. lia.
  - exists (from_i128 n), i'. split; [by apply list_elem_of_lookup_2 in Hi'|done].
Qed.

(** C32: Everything below the image-consistent LSN has been written as images: for
    every key and every WAL position of a delta layer that has the key, below the LSN
    computed, there is an image layer of the key at or above that position.  The
    computation does not panic on layers above LSN 0 that are not in the future. *)
Theorem image_consistent_lsn_sound (m : LayerMap) (disk_consistent_lsn : Lsn) :
  lm_ok m -> 0 < disk_consistent_lsn -> Forall (fun d => 0 < start (ld_lsn_range d)) (level0_deltas m) ->
  (forall d, in_map m d -> start (ld_lsn_range d) <= disk_consistent_lsn /\ (ld_is_delta d = true -> delta_keys_ok d)) ->
  exists r, compute_image_consistent_lsn m disk_consistent_lsn = Some r
  /\ forall d k x, in_map m d -> ld_is_delta d = true -> covers_key k d ->
       start (ld_lsn_range d) <= x < end_ (ld_lsn_range d) -> x < r ->
       exists y, image_at k m y /\ x <= y.
Proof.
  intros Hm Hdcl Hl0 Hmap. unfold compute_image_consistent_lsn.
  set (min_l0 := min_lsn _ _).
  assert (0 < min_l0) as Hmin by (apply min_lsn_pos; [done|by apply Forall_map]).
  assert (checked_sub min_l0 1 = Some (min_l0 - 1)) as Esub by (unfold checked_sub; by rewrite decide_True by lia).
  assert (iter_historic_layers m = Some (bh_layers (lm_historic m)).*2) as Eiter.
  { unfold iter_historic_layers, buffered_iter. by rewrite (lmo_flushed m Hm). }
  unfold lm_image_coverage. destruct (version_at_ok m disk_consistent_lsn Hm) as (v & -> & Hv). cbn [mbind option_bind].
  rewrite Eiter. destruct v as [t|].
  2: { cbn [mbind option_bind]. rewrite Esub. cbn [mbind option_bind]. eexists. split; [done|].
       intros d k x [lk Hin] _ _ Hx _. apply Hv in Hin as Hlt. destruct (lmo_entries m Hm _ _ Hin) as [Hlk Hok].
       destruct (desc_ok_key d Hok) as (lk' & Hk' & _ & Hl & _). assert (lk' = lk) as -> by congruence.
       unfold lsn_start in Hlt. cbn [fst] in Hlt. rewrite Hl in Hlt. destruct (Hmap d) as [Hle _]; [by exists lk|]. lia. }
  change (to_i128 (start (mkRange KEY_MIN KEY_MAX))) with (Some 0).
  assert (to_i128 (end_ (mkRange KEY_MIN KEY_MAX)) = Some (2 ^ 127 - 1)) as -> by (vm_compute; reflexivity).
  cbn [mbind option_bind]. pose proof (coverage_range_within 0 (2 ^ 127 - 1) (image_coverage t)) as Hcs.
  rewrite Esub. cbn [mbind option_bind]. eexists. split; [done|]. intros d k x Hind Hdd Hcov Hx Hxr.
  rewrite image_infos_map in Hxr by (destruct Hcs; apply intervals_ends; [done|done|lia]).
  change (fold_left _ (bh_layers (lm_historic m)).*2 ?i) with (note_layers (bh_layers (lm_historic m)).*2 i) in Hxr.
  pose proof (proj2 (Hmap d Hind) Hdd) as Hdk. destruct (delta_bounds m d k Hm Hind Hdk Hcov) as [Hk _].
  destruct (noted_infos m d k min_l0 (coverage_query 0 (image_coverage t)) _ Hm Hind Hdd Hdk Hcov Hcs)
    as (e & i & Hi & Eimg & Hdel).
  apply (proj2 (fold_min_le _ (min_l0 - 1) (fun e => Z.max (ii_image_lsn e.2) (default 0 (checked_sub (ii_min_delta_lsn e.2) 1))))) in Hi.
  apply (Z.lt_le_trans _ _ _ Hxr) in Hi. clear Hxr. cbn [snd] in Hi. rewrite Eimg in Hi.
  rewrite <- (coverage_range_query 0 (2 ^ 127 - 1) (image_coverage t) k) in Hi, Hdel by lia.
  pose proof (query_candidate true k _ m t Hm Hv) as Hq. cbn [coverage_of] in Hq.
  destruct (in_map_ok m d Hm Hind) as (Hlsn & _). unfold lsn_range_ok in Hlsn.
  assert (x < match coverage_query k (image_coverage t) with Some layer => end_ (ld_lsn_range layer) | None => 0 end) as Hlt.
  { set (iv := match coverage_query k _ with Some layer => _ | None => _ end) in *.
    destruct (decide (iv < end_ (ld_lsn_range d))) as [Hiv|]; [|lia]. specialize (Hdel Hiv).
    unfold checked_sub in Hi. destruct (decide (1 <= ii_min_delta_lsn i)); cbn in Hi; lia. }
  destruct (coverage_query k (image_coverage t)) as [dd|]; [|lia].
  destruct Hq as [(Hdi & Hdd' & Hdc & _) _]. exists (start (ld_lsn_range dd)). split; [by exists dd|].
  destruct (in_map_ok m dd Hm Hdi) as (_ & _ & _ & _ & E1). rewrite E1 in Hlt by done. lia.
Qed.
End image_consistent.

Lemma image_consistent_lsn_sound_witness :
  exists r, compute_image_consistent_lsn example_map 90 = Some r
  /\ forall d k x, in_map example_map d -> ld_is_delta d = true -> covers_key k d ->
       start (ld_lsn_range d) <= x < end_ (ld_lsn_range d) -> x < r ->
       exists y, image_at k example_map y /\ x <= y.
Proof.
  apply image_consistent_lsn_sound; [apply example_map_ok|lia|..].
  - apply (bool_decide_unpack _). vm_compute. reflexivity.
  - intros d Hd. apply example_in_map in Hd as [->|[->| ->]]; (split; [cbn; lia|]); intros Hdel; try done;
      unfold delta_keys_ok, key_compact; cbn; (split; [lia|]); [left; lia|right; reflexivity].
Defined.

(** ** Visibility *)

(** Insertion into sorted, disjoint and non-adjacent ranges implements the sets. *)
Fixpoint range_insert (a b : Z) (l : list (Z * Z)) : list (Z * Z) :=
  match l with
  | [] => [(a, b)]
  | (c, d) :: r =>
      if decide (b + 1 < c) then (a, b) :: l
      else if decide (d + 1 < a) then (c, d) :: range_insert a b r
      else range_insert (Z.min a c) (Z.max b d) r
  end.

Definition in_ranges (k : Z) (l : list (Z * Z)) : Prop := exists r, r ∈ l /\ r.1 <= k <= r.2.

(** Sorted and apart from one another, above [lo]. *)
Fixpoint apart (lo : Z) (l : list (Z * Z)) : Prop :=
  match l with [] => True | (c, d) :: r => lo < c <= d /\ apart (d + 1) r end.

Lemma in_ranges_cons k c d l : in_ranges k ((c, d) :: l) <-> c <= k <= d \/ in_ranges k l.
Proof. unfold in_ranges. setoid_rewrite elem_of_cons. split; [intros (r & [->|?] & ?); eauto|intros [?|(r & ? & ?)]; eauto]. Qed.

Lemma apart_above lo l k : apart lo l -> in_ranges k l -> lo < k.
Proof.
  revert lo. induction l as [|[c d] l IH]; intros lo Ha Hk.
  - destruct Hk as (r & Hr & _). by apply not_elem_of_nil in Hr.
  - destruct Ha as [Hc Ha]. apply in_ranges_cons in Hk as [?|Hk]; [lia|]. specialize (IH _ Ha Hk). lia.
Qed.

Lemma apart_weaken lo lo' l : apart lo l -> lo' <= lo -> apart lo' l.
Proof. destruct l as [|[c d] l]; [done|]. intros [Hc Ha] Hle. split; [lia|done]. Qed.

Lemma range_insert_ok l : forall a b lo, apart lo l -> lo < a <= b ->
  apart lo (range_insert a b l) /\ forall k, in_ranges k (range_insert a b l) <-> in_ranges k l \/ a <= k <= b.
Proof.
  induction l as [|[c d] l IH]; intros a b lo Ha Hab; cbn [range_insert].
  - split; [cbn; lia|]. intros k. rewrite in_ranges_cons. tauto.
  - destruct Ha as [Hc Ha]. destruct (decide (b + 1 < c)); [|destruct (decide (d + 1 < a))].
    + split; [cbn; split_and!; [lia..|done]|]. intros k. rewrite !in_ranges_cons. tauto.
    + destruct (IH a b (d + 1) Ha) as [H1 H2]; [lia|]. split; [cbn; split_and!; [lia..|done]|].
      intros k. rewrite !in_ranges_cons, H2. tauto.
    + destruct (IH (Z.min a c) (Z.max b d) lo) as [H1 H2]; [eapply apart_weaken; [done|lia]|lia|].
      split; [done|]. intros k. rewrite H2, in_ranges_cons.
      assert (Z.min a c <= k <= Z.max b d <-> a <= k <= b \/ c <= k <= d) as -> by lia. tauto.
Qed.

(** A range is covered by ranges apart from one another when it lies in one. *)
Definition covers_rangeb (l : list (Z * Z)) (r : Z * Z) : bool :=
  existsb (fun x => bool_decide (x.1 <= r.1 /\ r.2 <= x.2)) l.

Lemma covers_rangeb_ok lo l a b :
  apart lo l -> a <= b -> covers_rangeb l (a, b) = true <-> forall k, a <= k <= b -> in_ranges k l.
Proof.
  intros Ha Hab. unfold covers_rangeb. rewrite existsb_exists. split.
  - intros (x & Hx & Hb) k Hk. apply bool_decide_eq_true in Hb as [? ?]. cbn in *. exists x. split; [by apply list_elem_of_In|lia].
  - revert lo Ha. induction l as [|[c d] l IH]; intros lo Ha Hall.
    + destruct (Hall a ltac:(lia)) as (r & Hr & _). by apply not_elem_of_nil in Hr.
    + destruct Ha as [Hc Ha]. destruct (decide (d < a)) as [Hd|Hd].
      * destruct (IH _ Ha) as (x & Hx & Hb); [|exists x; split; [by right|done]].
        intros k Hk. specialize (Hall k Hk). apply in_ranges_cons in Hall as [?|?]; [lia|done].
      * exists (c, d). split; [by left|]. apply bool_decide_eq_true. cbn.
        assert (c <= a) by (specialize (Hall a ltac:(lia)); apply in_ranges_cons in Hall as [?|Hall]; [lia|];
          apply (apart_above (d + 1)) in Hall; [lia|done]).
        split; [done|]. destruct (decide (b <= d)); [done|]. specialize (Hall (d + 1) ltac:(lia)).
        apply in_ranges_cons in Hall as [?|Hall]; [lia|]. apply (apart_above (d + 1)) in Hall; [lia|done].
Qed.

Definition ranges_ok (l : list (Z * Z)) : Prop := exists lo, apart lo l.

Lemma ranges_ok_nil : ranges_ok [].
Proof. by exists 0. Qed.

Lemma range_insert_ranges_ok a b l : ranges_ok l -> ranges_ok (if decide (a <= b) then range_insert a b l else l).
Proof.
  intros [lo Ha]. destruct (decide (a <= b)); [|by exists lo]. exists (Z.min lo (a - 1)).
  apply range_insert_ok; [eapply apart_weaken; [done|lia]|lia].
Qed.

#[export] Instance sorted_rset : RangeSet | 10 := {|
  rset := { l | ranges_ok l };
  rset_default := exist _ [] ranges_ok_nil;
  rset_from_range a b :=
    if decide (a <= b) then Some (exist _ _ (range_insert_ranges_ok a b [] ranges_ok_nil)) else None;
  rset_is_superset x y := forallb (covers_rangeb (proj1_sig x)) (proj1_sig y);
  rset_ranges_insert a b x :=
    (exist _ _ (range_insert_ranges_ok a b (proj1_sig x) (proj2_sig x)),
     bool_decide (a <= b) && negb (covers_rangeb (proj1_sig x) (a, b)));
  rset_ranges x := proj1_sig x
|}.

Lemma apart_bounds lo l r : apart lo l -> r ∈ l -> r.1 <= r.2.
Proof.
  revert lo. induction l as [|[c d] l IH]; intros lo Ha Hr; [by apply not_elem_of_nil in Hr|].
  destruct Ha as [Hc Ha]. apply elem_of_cons in Hr as [->|Hr]; [cbn; lia|by eapply IH].
Qed.

#[export] Instance sorted_rset_laws : RangeSetLaws | 10.
Proof.
  split; unfold rset_mem; cbn [rset_ranges sorted_rset rset_default rset_from_range rset_is_superset rset_ranges_insert proj1_sig fst snd].
  - intros k (r & Hr & _). by apply not_elem_of_nil in Hr.
  - intros a b Hab. rewrite decide_True by done. eexists. split; [done|]. cbn [proj1_sig]. intros k.
    rewrite decide_True by done. destruct (range_insert_ok [] a b (a - 1)) as [_ H]; [done|lia|].
    rewrite (H k). split; [|auto]. intros [(r & Hr & _)|?]; [by apply not_elem_of_nil in Hr|done].
  - intros [x [lo Hx]] [y [lo' Hy]]. cbn [proj1_sig]. rewrite forallb_forall. split.
    + intros Hall k (r & Hr & Hk). pose proof (apart_bounds _ _ _ Hy Hr). apply list_elem_of_In, Hall in Hr. destruct r as [a b].
      eapply covers_rangeb_ok in Hr; [exact Hr|done|cbn in *; lia|cbn in *; lia].
    + intros Hall [a b] Hr%list_elem_of_In. pose proof (apart_bounds _ _ _ Hy Hr). apply (covers_rangeb_ok lo); [done|done|].
      intros k Hk. apply Hall. by exists (a, b).
  - intros a b [x [lo Hx]] k Hab. cbn [proj1_sig]. rewrite decide_True by done.
    apply (range_insert_ok x a b (Z.min lo (a - 1))); [eapply apart_weaken; [done|lia]|lia].
  - intros a b [x [lo Hx]] Hab. cbn [proj1_sig]. rewrite bool_decide_eq_true_2 by done. cbn [andb]. rewrite negb_true_iff. split.
    + intros Hn. destruct (decide (Forall (fun k => List.Exists (fun r => r.1 <= k <= r.2) x) (seqZ a (b - a + 1)))) as [Hall|Hnot].
      * rewrite (proj2 (covers_rangeb_ok lo x a b Hx Hab)) in Hn; [done|]. intros k Hk. rewrite Forall_forall in Hall.
        assert (k ∈ seqZ a (b - a + 1)) as Hs by (apply elem_of_seqZ; lia).
        apply Hall, Exists_exists in Hs as (r & ? & ?). by exists r.
      * apply not_Forall_Exists in Hnot; [|apply _]. apply Exists_exists in Hnot as (k & Hk%elem_of_seqZ & Hnk).
        exists k. split; [lia|]. intros (r & Hr & Hkr). apply Hnk, Exists_exists. by exists r.
    + intros (k & Hk & Hnk). destruct (covers_rangeb x (a, b)) eqn:Ec; [|done].
      destruct Hnk. by apply (proj1 (covers_rangeb_ok lo x a b Hx Hab) Ec).
Qed.

Section visibility.
Context {HRb : RbMap} {HRbL : RbMapLaws} {HRs : RangeSet} {HRsL : RangeSetLaws}.

(** *** Sorting *)

Definition key_of (i : vis_item) : Lsn * Z := default (0, 0) (item_key i).

Definition not_above (a b : (Lsn * Z) * vis_item) : Prop := item_lt a.1 b.1 = false.

Lemma item_lt_spec a b : item_lt a b = true <-> a.1 < b.1 \/ a.1 = b.1 /\ a.2 < b.2.
Proof. unfold item_lt. rewrite orb_true_iff, andb_true_iff, !bool_decide_eq_true. done. Qed.

Lemma item_lt_false a b : item_lt a b = false <-> b.1 < a.1 \/ a.1 = b.1 /\ b.2 <= a.2.
Proof.
  rewrite <- not_true_iff_false, item_lt_spec. lia.
Qed.

Lemma insert_item_perm x l : insert_item x l ≡ₚ x :: l.
Proof.
  induction l as [|y l IH]; [done|]. cbn [insert_item]. destruct (item_lt y.1 x.1); [done|]. rewrite IH. constructor.
Qed.

Lemma insert_item_sorted x l : StronglySorted not_above l -> StronglySorted not_above (insert_item x l).
Proof.
  induction l as [|y l IH]; intros Hs; cbn [insert_item]; [repeat constructor|].
  inversion_clear Hs as [|? ? Hs' Hf]. destruct (item_lt y.1 x.1) eqn:E.
  - apply item_lt_spec in E. constructor; [by constructor|]. constructor.
    + apply item_lt_false. lia.
    + eapply Forall_impl; [exact Hf|]. intros z Hz. apply item_lt_false in Hz. apply item_lt_false. lia.
  - constructor; [by apply IH|]. apply Forall_forall. intros z Hz. rewrite (insert_item_perm x l) in Hz.
    apply elem_of_cons in Hz as [->|Hz]; [done|]. rewrite Forall_forall in Hf. by apply Hf.
Qed.

Lemma sort_items_ok l :
  Forall (fun i => is_Some (item_key i)) l ->
  exists l', sort_items l = Some l' /\ l' ≡ₚ l /\ StronglySorted (fun a b => item_lt (key_of a) (key_of b) = false) l'.
Proof.
  intros Hk. unfold sort_items.
  assert (mapM (fun i => k ← item_key i; Some (k, i)) l = Some (map (fun i => (key_of i, i)) l)) as ->.
  { induction Hk as [|i l [k Hi] _ IH]; [done|]. cbn [mapM map]. unfold key_of at 1. rewrite Hi. cbn [mbind option_bind default].
    rewrite IH. done. }
  cbn [mbind option_bind]. eexists. split; [done|].
  assert (forall l acc, StronglySorted not_above acc -> Forall (fun x => x.1 = key_of x.2) acc ->
    let r := fold_left (fun acc x => insert_item x acc) (map (fun i => (key_of i, i)) l) acc in
    StronglySorted not_above r /\ r ≡ₚ map (fun i => (key_of i, i)) l ++ acc /\ Forall (fun x => x.1 = key_of x.2) r) as Hgen.
  { clear. induction l as [|i l IH]; intros acc Hs Hf; [done|]. cbn [map fold_left].
    destruct (IH (insert_item (key_of i, i) acc)) as (H1 & H2 & H3); [by apply insert_item_sorted| |].
    - rewrite insert_item_perm. by constructor.
    - split_and!; [done| |done]. rewrite H2, insert_item_perm. cbn. by rewrite Permutation_middle. }
  destruct (Hgen l []) as (H1 & H2 & H3); [constructor|constructor|]. set (r := fold_left _ _ _) in *. split.
  - rewrite app_nil_r in H2. change (map snd ?x) with (snd <$> x). rewrite H2. change (map ?f ?x) with (f <$> x).
    rewrite <- list_fmap_compose. by rewrite list_fmap_id.
  - clear H2. induction r as [|x r IH]; [constructor|]. inversion_clear H1 as [|? ? Hs Hf].
    apply Forall_cons in H3 as [Hx H3]. cbn [map]. constructor; [by apply IH|]. apply Forall_map.
    rewrite Forall_forall in *. intros y Hy. specialize (Hf y Hy). unfold not_above in Hf. rewrite Hx, (H3 y Hy) in Hf. done.
Qed.

(** *** The sweep *)

Definition layers_in (l : list vis_item) : list PersistentLayerDesc :=
  omap (fun i => match i with VLayer d => Some d | ReadPoint _ => None end) l.

(** An image that has the key, with no read point after it. *)
Definition shadowed (P : list vis_item) (k : Z) : Prop :=
  exists P1 J P2, P = P1 ++ VLayer J :: P2 /\ ld_is_delta J = false /\ covers_key k J /\ forall l, ReadPoint l ∉ P2.

Record vis_inv (P : list vis_item) (st : vis_state) : Prop := {
  vi_layers : (vs_results st).*1 ++ vs_maybe_covered_deltas st ≡ₚ layers_in P;
  vi_deltas : Forall (fun d => ld_is_delta d = true) (vs_maybe_covered_deltas st);
  vi_shadow k : rset_mem k (vs_shadow st) <-> shadowed P k;
  vi_images I : (I, Covered) ∈ vs_results st -> ld_is_delta I = false ->
    exists P1 P2, P = P1 ++ VLayer I :: P2 /\ forall k, covers_key k I -> shadowed P1 k
}.

Lemma retain_deltas_ok r b l :
  Forall (fun d => ld_is_delta d = true) l ->
  let '(pushed, kept) := retain_deltas r b l in
  pushed.*1 ++ kept ≡ₚ l /\ Forall (fun d => ld_is_delta d = true) kept /\ Forall (fun e => ld_is_delta e.1 = true) pushed.
Proof.
  induction l as [|d l IH]; intros Hl; cbn [retain_deltas]; [by split_and!|]. apply Forall_cons in Hl as [Hd Hl].
  specialize (IH Hl). destruct (retain_deltas r b l) as [pushed kept]. destruct IH as (H1 & H2 & H3).
  destruct (_ && b); [|destruct (bool_decide _)]; cbn.
  - split_and!; [by rewrite H1|done|by constructor].
  - split_and!; [by rewrite H1|done|by constructor].
  - split_and!; [by rewrite <- Permutation_middle, H1|by constructor|done].
Qed.

Lemma shadowed_snoc P i k :
  shadowed (P ++ [i]) k <-> match i with
    | ReadPoint _ => False
    | VLayer d => shadowed P k \/ ld_is_delta d = false /\ covers_key k d
    end.
Proof.
  split.
  - intros (P1 & J & P2 & E & Hd & Hc & Hn). destruct P2 as [|x P2] using rev_ind.
    + apply app_inj_tail in E as [-> ->]. auto.
    + rewrite app_comm_cons, app_assoc in E. apply app_inj_tail in E as [-> ->].
      destruct x as [l|d]; [apply (Hn l); set_solver|]. left. exists P1, J, P2. split_and!; [done..|].
      intros l Hl. apply (Hn l). set_solver.
  - destruct i as [l|d]; [done|]. intros [(P1 & J & P2 & -> & Hd & Hc & Hn)|[Hd Hc]].
    + exists P1, J, (P2 ++ [VLayer d]). rewrite <- app_assoc. split_and!; [done..|].
      intros l [Hl|Hl%list_elem_of_singleton]%elem_of_app; [by apply (Hn l)|done].
    + exists P, d, []. split_and!; [done..|]. intros l Hl. by apply not_elem_of_nil in Hl.
Qed.

Lemma layers_in_snoc P i : layers_in (P ++ [i]) = layers_in P ++ layers_in [i].
Proof. unfold layers_in. by rewrite omap_app. Qed.

Lemma desc_range_bits d : desc_ok d -> exists s e, to_i128 (start (ld_key_range d)) = Some s
  /\ to_i128 (end_ (ld_key_range d)) = Some e /\ s < e /\ forall k, covers_key k d <-> s <= k <= e - 1.
Proof.
  intros (_ & _ & _ & (s & e & Hs & He & Hlt) & _). exists s, e. split_and!; [done..|].
  intros k. unfold covers_key, layer_key. rewrite Hs, He. cbn [mbind option_bind]. split.
  - intros (lk & [= <-] & Hk). cbn in Hk. lia.
  - intros Hk. eexists. split; [done|]. cbn. lia.
Qed.

Lemma perm_snoc {A} (l1 l2 l3 : list A) x : l1 ++ l2 ≡ₚ l3 -> (l1 ++ [x]) ++ l2 ≡ₚ l3 ++ [x].
Proof. intros <-. by rewrite <- !app_assoc, (Permutation_app_comm l2 [x]). Qed.

Lemma vis_step_ok P st i :
  vis_inv P st -> (forall d, i = VLayer d -> desc_ok d) -> exists st', vis_step st i = Some st' /\ vis_inv (P ++ [i]) st'.
Proof.
  intros [H1 H2 H3 H4] Hi. unfold vis_step.
  assert (forall r b pushed kept, retain_deltas r b (vs_maybe_covered_deltas st) = (pushed, kept) ->
    (vs_results st ++ pushed).*1 ++ kept ≡ₚ layers_in P /\ Forall (fun d => ld_is_delta d = true) kept
    /\ forall I, (I, Covered) ∈ vs_results st ++ pushed -> ld_is_delta I = false -> (I, Covered) ∈ vs_results st) as Hret.
  { intros r b pushed kept E. pose proof (retain_deltas_ok r b _ H2) as Hr. rewrite E in Hr. destruct Hr as (R1 & R2 & R3).
    split_and!; [by rewrite fmap_app, <- app_assoc, R1|done|]. intros I [Hin|Hin]%elem_of_app HI; [done|].
    rewrite Forall_forall in R3. specialize (R3 _ Hin). cbn in R3. congruence. }
  assert (forall I, (exists P1 P2, P = P1 ++ VLayer I :: P2 /\ forall k, covers_key k I -> shadowed P1 k) ->
    exists P1 P2, P ++ [i] = P1 ++ VLayer I :: P2 /\ forall k, covers_key k I -> shadowed P1 k) as Hext.
  { intros I (P1 & P2 & -> & Hs). exists P1, (P2 ++ [i]). by rewrite <- app_assoc. }
  destruct i as [l|d].
  - destruct (retain_deltas l true _) as [pushed kept] eqn:E. destruct (Hret _ _ _ _ E) as (R1 & R2 & R3).
    eexists. split; [done|]. split; cbn [vs_results vs_maybe_covered_deltas vs_shadow].
    + rewrite layers_in_snoc. cbn. by rewrite app_nil_r.
    + done.
    + intros k. rewrite shadowed_snoc. split; [|done]. intros Hk. by apply rset_default_mem in Hk.
    + intros I HI Hd. by apply Hext, H4, Hd; apply R3.
  - destruct (desc_range_bits d (Hi d eq_refl)) as (s & e & Es & Ee & Hse & Hcov).
    destruct (retain_deltas (start (ld_lsn_range d)) false _) as [pushed kept] eqn:E. destruct (Hret _ _ _ _ E) as (R1 & R2 & R3).
    destruct (ld_is_delta d) eqn:Ed.
    + unfold shadow_contains. rewrite Es, Ee. cbn [mbind option_bind].
      destruct (rset_from_range_ok s (e - 1)) as (x & -> & _); [lia|]. cbn [mbind option_bind].
      assert (forall k, shadowed (P ++ [VLayer d]) k <-> shadowed P k) as Hsh.
      { intros k. rewrite shadowed_snoc. split; [intros [?|[? _]]; [done|congruence]|auto]. }
      destruct (rset_is_superset _ x); (eexists; split; [done|]); split; cbn [vs_results vs_maybe_covered_deltas vs_shadow];
        try (intros k; by rewrite Hsh).
      * rewrite layers_in_snoc. cbn. by rewrite app_assoc, R1.
      * apply Forall_app. by split; [|apply Forall_singleton].
      * intros I HI Hd. by apply Hext, H4, Hd; apply R3.
      * rewrite layers_in_snoc, fmap_app. change (layers_in [VLayer d]) with [d]. apply perm_snoc. exact R1.
      * done.
      * intros I [HI|[= -> ]%list_elem_of_singleton]%elem_of_app Hd. by apply Hext, H4, Hd; apply R3.
    + unfold shadow_cover. rewrite Es, Ee. cbn [mbind option_bind].
      pose proof (fun k => rset_ranges_insert_mem s (e - 1) (vs_shadow st) k ltac:(lia)) as Hmem.
      pose proof (rset_ranges_insert_new s (e - 1) (vs_shadow st) ltac:(lia)) as Hnew.
      destruct (rset_ranges_insert s (e - 1) (vs_shadow st)) as [x changed]. cbn [fst snd] in *.
      eexists. split; [done|]. split; cbn [vs_results vs_maybe_covered_deltas vs_shadow].
      * rewrite layers_in_snoc, fmap_app. change (layers_in [VLayer d]) with [d]. apply perm_snoc. exact R1.
      * done.
      * intros k. rewrite shadowed_snoc, Hmem, H3, Hcov. tauto.
      * intros I [HI|HI%list_elem_of_singleton]%elem_of_app Hd; [by apply Hext, H4, Hd; apply R3|].
        injection HI as -> Hc. exists P, []. split; [done|]. intros k Hk%Hcov. apply H3.
        destruct changed; [done|]. destruct (decide (List.Exists (fun r => r.1 <= k <= r.2) (rset_ranges (vs_shadow st)))) as [Hm|Hm].
        -- apply Exists_exists in Hm as (r & ? & ?). by exists r.
        -- assert (false = true) as ?; [|done]. apply Hnew. exists k. split; [done|]. intros (r & ? & ?).
           apply Hm, Exists_exists. by exists r.
Qed.

Lemma vis_loop_ok items : forall P st,
  vis_inv P st -> Forall (fun i => forall d, i = VLayer d -> desc_ok d) items ->
  exists st', vis_loop st items = Some st' /\ vis_inv (P ++ items) st'.
Proof.
  induction items as [|i items IH]; intros P st Hi Hok; cbn [vis_loop]; [exists st; by rewrite app_nil_r|].
  apply Forall_cons in Hok as [Hoi Hok]. destruct (vis_step_ok P st i Hi Hoi) as (st' & -> & Hi'). cbn [mbind option_bind].
  destruct (IH _ _ Hi' Hok) as (st2 & -> & Hi2). exists st2. by rewrite <- app_assoc in Hi2.
Qed.

Lemma vis_inv_init : vis_inv [] (mkVisState [] [] rset_default).
Proof.
  split; cbn; [done|constructor|..].
  - intros k. split; [intros Hk; by apply rset_default_mem in Hk|]. intros (P1 & J & P2 & E & _). by destruct P1.
  - intros I Hin. by apply not_elem_of_nil in Hin.
Qed.

Lemma insert_lsn_perm x l : insert_lsn x l ≡ₚ x :: l.
Proof. induction l as [|y l IH]; [done|]. cbn [insert_lsn]. destruct (decide _); [done|]. rewrite IH. constructor. Qed.

Lemma sort_lsns_perm l : sort_lsns l ≡ₚ l.
Proof.
  unfold sort_lsns. assert (forall acc, fold_left (fun acc x => insert_lsn x acc) l acc ≡ₚ l ++ acc) as Hgen.
  { induction l as [|x l IH]; intros acc; [done|]. cbn [fold_left]. rewrite IH, insert_lsn_perm. cbn. by rewrite Permutation_middle. }
  by rewrite Hgen, app_nil_r.
Qed.

Lemma image_item_key d : desc_ok d -> ld_is_delta d = false -> item_key (VLayer d) = Some (start (ld_lsn_range d), 1).
Proof.
  intros ((H1 & H2) & _ & _ & _ & Himg) Hd. unfold item_key, image_layer_lsn. rewrite Hd. specialize (Himg Hd).
  rewrite lsn_add_1 by lia. cbn [mbind option_bind]. by rewrite decide_True by lia.
Qed.

Lemma item_key_some d : desc_ok d -> is_Some (item_key (VLayer d)).
Proof.
  intros Hok. destruct (ld_is_delta d) eqn:Ed; [|by rewrite image_item_key]. unfold item_key. rewrite Ed.
  destruct Hok as ((H1 & _) & _). unfold checked_sub. rewrite decide_True by lia. done.
Qed.

Lemma layers_in_items L rps : layers_in (map VLayer L ++ map ReadPoint rps) = L.
Proof.
  unfold layers_in. rewrite omap_app. assert (omap (fun i => match i with VLayer d => Some d | ReadPoint _ => None end) (map ReadPoint rps) = []) as ->.
  { by induction rps. }
  rewrite app_nil_r. induction L as [|d L IH]; [done|]. cbn. by rewrite IH.
Qed.

Lemma layers_in_perm l l' : l ≡ₚ l' -> layers_in l ≡ₚ layers_in l'.
Proof. unfold layers_in. by intros ->. Qed.

(** The descriptors of the map are distinct. *)
Lemma map_layers_nodup (m : LayerMap) : lm_ok m -> NoDup (bh_layers (lm_historic m)).*2.
Proof.
  intros [_ [Hs _ _] He]. induction (bh_layers (lm_historic m)) as [|[lk d] L IH]; [constructor|].
  apply osorted_cons in Hs as [Hf Hs]. cbn. apply NoDup_cons. split.
  - intros ([lk' d'] & E & Hin)%list_elem_of_fmap. cbn in E. subst d'. rewrite Forall_forall in Hf. specialize (Hf _ Hin).
    destruct (He lk d) as [Hk _]; [left|]. destruct (He lk' d) as [Hk' _]; [by right|].
    assert (lk' = lk) as -> by congruence. by apply klt_irrefl in Hf.
  - apply IH; [done|]. intros lk' d' Hin. apply He. by right.
Qed.

(** C33: Every layer of the map gets exactly one visibility, and an image layer is
    called covered only if no read needs it: at each of its keys and for each read
    point at or above it, there is another image layer of the key between the two.
    The sweep itself does not panic. *)
Theorem visibility_images_sound (m : LayerMap) (read_points : list Lsn) :
  lm_ok m ->
  exists results shadow,
  get_visibility m read_points = (keyspace ← shadow_to_keyspace shadow; Some (results, keyspace))
  /\ results.*1 ≡ₚ (bh_layers (lm_historic m)).*2
  /\ forall I, (I, Covered) ∈ results -> ld_is_delta I = false ->
       forall k rp, covers_key k I -> rp ∈ read_points -> start (ld_lsn_range I) <= rp ->
       exists J, in_map m J /\ J <> I /\ ld_is_delta J = false /\ covers_key k J
         /\ start (ld_lsn_range I) <= start (ld_lsn_range J) <= rp.
Proof.
  intros Hm. unfold get_visibility, iter_historic_layers, buffered_iter. rewrite (lmo_flushed m Hm). cbn [mbind option_bind].
  set (L := (bh_layers (lm_historic m)).*2). set (all := map VLayer L ++ map ReadPoint (sort_lsns read_points)).
  assert (forall d, d ∈ L <-> in_map m d) as HL.
  { intros d. unfold L, in_map. rewrite list_elem_of_fmap. split; [intros ([lk d'] & -> & ?); by exists lk|intros [lk ?]; by exists (lk, d)]. }
  assert (forall d, VLayer d ∈ all <-> in_map m d) as Hall.
  { intros d. rewrite <- HL. unfold all. rewrite elem_of_app, !list_elem_of_fmap. split; [intros [(? & [= ->] & ?)|(? & ? & ?)]; done|eauto]. }
  assert (forall l, ReadPoint l ∈ all <-> l ∈ read_points) as Hrp.
  { intros l. unfold all. rewrite elem_of_app, !list_elem_of_fmap. setoid_rewrite sort_lsns_perm.
    split; [intros [(? & ? & ?)|(? & [= ->] & ?)]; done|eauto]. }
  destruct (sort_items_ok all) as (items & -> & Hperm & Hsorted).
  { apply Forall_forall. intros [l|d] Hin; [by eexists|]. apply item_key_some. apply Hall in Hin. by apply (in_map_ok m). }
  cbn [mbind option_bind]. destruct (vis_loop_ok items [] _ vis_inv_init) as (st & -> & Hi).
  { apply Forall_forall. intros i Hin d ->. rewrite Hperm in Hin. apply Hall in Hin. by apply (in_map_ok m). }
  cbn [app mbind option_bind] in *. destruct Hi as [I1 I2 I3 I4].
  eexists _, (vs_shadow st). split; [done|]. split.
  - rewrite fmap_app. change (map ?f ?x) with (f <$> x). rewrite <- list_fmap_compose, list_fmap_id, I1.
    rewrite (layers_in_perm _ _ Hperm). unfold all. by rewrite layers_in_items.
  - intros I Hin HI k rp Hk Hrpin Hle. apply elem_of_app in Hin as [Hin|(d & [= ->] & Hin)%list_elem_of_fmap].
    2: { rewrite Forall_forall in I2. specialize (I2 d Hin). congruence. }
    destruct (I4 I Hin HI) as (P1 & P2 & EP & Hs). destruct (Hs k Hk) as (Q1 & J & Q2 & EQ & HJ & HJk & Hno).
    assert (in_map m I) as HmI by (apply Hall; rewrite <- Hperm, EP; set_solver).
    assert (in_map m J) as HmJ by (apply Hall; rewrite <- Hperm, EP, EQ; set_solver).
    pose proof (image_item_key I (in_map_ok m I Hm HmI) HI) as KI. pose proof (image_item_key J (in_map_ok m J Hm HmJ) HJ) as KJ.
    rewrite EP, EQ in Hsorted. apply StronglySorted_app_inv in Hsorted as (Hs1 & Hs2 & Hs12).
    apply StronglySorted_app_inv in Hs1 as (_ & _ & HsQ).
    exists J. split_and!; [done| |done|done|..].
    + intros ->. pose proof (map_layers_nodup m Hm) as Hnd. fold L in Hnd.
      assert (layers_in items ≡ₚ L) as HpL by (rewrite (layers_in_perm _ _ Hperm); unfold all; by rewrite layers_in_items).
      rewrite <- HpL, EP, EQ in Hnd. unfold layers_in in Hnd. rewrite !omap_app in Hnd. cbn in Hnd.
      apply NoDup_app in Hnd as (_ & Hx & _). apply (Hx I); [|left]. set_solver.
    + specialize (Hs12 (VLayer J) (VLayer I) ltac:(set_solver) ltac:(set_solver)). unfold key_of in Hs12. rewrite KI, KJ in Hs12.
      apply item_lt_false in Hs12. cbn in Hs12. lia.
    + assert (ReadPoint rp ∈ items) as Hri by (rewrite Hperm; by apply Hrp). rewrite EP, EQ in Hri.
      assert (ReadPoint rp ∈ Q1) as HQ1.
      { apply elem_of_app in Hri as [[?|[?|Hri]%elem_of_cons]%elem_of_app|[?|Hri]%elem_of_cons]; [done|done|by apply Hno in Hri|done|].
        inversion Hs2 as [|? ? _ Hf]. subst. rewrite Forall_forall in Hf. specialize (Hf _ Hri). unfold key_of in Hf. rewrite KI in Hf.
        apply item_lt_false in Hf. cbn in Hf. lia. }
      specialize (HsQ (ReadPoint rp) (VLayer J) HQ1 ltac:(left)). unfold key_of in HsQ. rewrite KJ in HsQ.
      apply item_lt_false in HsQ. cbn in HsQ. lia.
Qed.
End visibility.

Lemma visibility_images_sound_witness :
  exists results shadow,
  get_visibility example_map [100] = (keyspace ← shadow_to_keyspace shadow; Some (results, keyspace))
  /\ results.*1 ≡ₚ (bh_layers (lm_historic example_map)).*2
  /\ forall I, (I, Covered) ∈ results -> ld_is_delta I = false ->
       forall k rp, covers_key k I -> rp ∈ [100] -> start (ld_lsn_range I) <= rp ->
       exists J, in_map example_map J /\ J <> I /\ ld_is_delta J = false /\ covers_key k J
         /\ start (ld_lsn_range I) <= start (ld_lsn_range J) <= rp.
Proof. apply visibility_images_sound. apply example_map_ok. Defined.

(** A delta under an image, a delta of other keys that ends below it and starts
    before it, and a branch point between their starts. *)
Definition branch_delta : PersistentLayerDesc := mkLayerDesc example_shard [] example_range (mkRange 50 100) true 8192.
Definition branch_map : LayerMap :=
  default layer_map_default
    (lm_run layer_map_default
       [LInsert (mkLayerDesc example_shard [] example_range (mkRange 200 201) false 8192);
        LInsert branch_delta;
        LInsert (mkLayerDesc example_shard []
          (mkRange (mkKey 0 1663 5 16384 0 20) (mkKey 0 1663 5 16384 0 30)) (mkRange 10 99) true 8192);
        LFlush]).

(** A delta layer that a read needs can be called covered.  The delta from 50
    to 100 lies under the image at 200, but a branch point at 60 reads it: a search
    below 61 returns it.  The sweep gives it up at the other delta, which ends at 99
    but starts at 10, before it comes to the branch point. *)
Theorem visibility_misses_branch_point :
  (exists results keyspace, get_visibility branch_map [250; 60] = Some (results, keyspace)
     /\ (branch_delta, Covered) ∈ results)
  /\ search branch_map (mkKey 0 1663 5 16384 0 15) 61
     = Some (Some (mkSearchResult (RPersistentLayer branch_delta) 50)).
Proof.
  split; [|vm_compute; reflexivity]. eexists _, _. split; [vm_compute; reflexivity|].
  repeat (apply elem_of_cons; (left; reflexivity) || right).
Qed.
