(* ===== verification/DiskBtree.v ===== *)
(** * The on-disk B-tree ([pageserver/src/tenant/disk_btree.rs])

    The index of image and delta layers: fixed-width keys and five-byte values,
    built in one pass over sorted input with prefix compression of each page, and
    read by descending from the root.  A page is a list of bytes; the writer is the
    [BlockBuf] of [block_io.rs]; reading a block is an argument of the reader.  The
    stack of the builder is kept with its bottommost node first. *)

From S2P Require Import Prelude XlogUtils Key.

Definition VALUE_SZ : nat := 5.
Definition MAX_VALUE : Z := 2 ^ 39 - 1.
Definition PAGE_SZ : nat := Z.to_nat 8192.
Definition NODE_HDR_SIZE : nat := 5.

Inductive DiskBtreeError : Type :=
| AppendOverflow (value : Z)
| UnsortedInput (key last_key : list byte)
| FailedToPushToNewLeafNode
| IoError.

(** What a run of the code ends with; [NoFuel] is no behaviour of it. *)
Inductive btree_fail : Type := BtreeError (e : DiskBtreeError) | NoFuel.

(** [assert!]. *)
Definition ensure (b : bool) : option unit := if b then Some tt else None.

(** ** Values *)

Definition value_from_u64 (x : Z) : option (list byte) :=
  _ ← ensure (bool_decide (x <= MAX_VALUE)); Some (be_bytes 5 x).

Definition value_from_blknum (x : Z) : list byte := Z_byte 128 :: be_bytes 4 x.

Definition value_to_u64 (v : list byte) : Z := be_Z v.

Definition value_to_blknum (v : list byte) : option Z :=
  match v with
  | b0 :: rest => _ ← ensure (bool_decide (byte_Z b0 = 128)); Some (be_Z rest)
  | [] => None
  end.

(** ** Nodes on disk *)

Record OnDiskNode := mkOnDiskNode {
  od_num_children : nat;
  od_level : Z;
  od_prefix_len : nat;
  od_suffix_len : nat;
  od_prefix : list byte;
  od_keys : list byte;
  od_values : list byte
}.

Definition deparse (buf : list byte) : outcome btree_fail OnDiskNode :=
  match buf with
  | n1 :: n0 :: lv :: pl :: sl :: _ =>
      let num_children := Z.to_nat (be_Z [n1; n0]) in
      let level := byte_Z lv in
      let prefix_len := Z.to_nat (byte_Z pl) in
      let suffix_len := Z.to_nat (byte_Z sl) in
      let prefix_off := 5%nat in
      let keys_off := (prefix_off + prefix_len)%nat in
      let keys_len := (num_children * suffix_len)%nat in
      let values_off := (keys_off + keys_len)%nat in
      let values_len := (num_children * VALUE_SZ)%nat in
      prefix ← of_option (slice prefix_off (prefix_off + prefix_len) buf);
      keys ← of_option (slice keys_off (keys_off + keys_len) buf);
      values ← of_option (slice values_off (values_off + values_len) buf);
      Ok (mkOnDiskNode num_children level prefix_len suffix_len prefix keys values)
  | _ => Err (BtreeError IoError)
  end.

Definition node_value (self : OnDiskNode) (idx : nat) : option (list byte) :=
  slice (idx * VALUE_SZ) (idx * VALUE_SZ + VALUE_SZ) (od_values self).

(** The key buffer after the suffix of an entry has been copied behind the prefix. *)
Definition node_key (self : OnDiskNode) (idx : nat) : option (list byte) :=
  suffix ← slice (idx * od_suffix_len self) (idx * od_suffix_len self + od_suffix_len self) (od_keys self);
  Some (od_prefix self ++ suffix).

(** [inl]: the index of a match; [inr]: where the key would be. *)
Fixpoint search_loop (fuel : nat) (self : OnDiskNode) (search_key : list byte) (low high size : nat) :
    outcome btree_fail (nat + nat) :=
  if decide (low < high)%nat then
    match fuel with
    | O => Err NoFuel
    | S fuel =>
        let mid := (low + size / 2)%nat in
        key ← of_option (node_key self mid);
        match bytes_cmp key search_key with
        | Lt => search_loop fuel self search_key (mid + 1) high (high - (mid + 1))
        | Gt => search_loop fuel self search_key low mid (mid - low)
        | Eq => Ok (inl mid)
        end
    end
  else Ok (inr low).

Definition binary_search (self : OnDiskNode) (search_key : list byte) : outcome btree_fail (nat + nat) :=
  search_loop (od_num_children self) self search_key 0 (od_num_children self) (od_num_children self).

(** ** The reader *)

Inductive VisitDirection : Set := Forwards | Backwards.

(** The iterator over the entries of a node, as the list of the indices to come. *)
Definition forwards_from (node : OnDiskNode) (search_key : list byte) : outcome btree_fail (list nat) :=
  r ← binary_search node search_key;
  let idx :=
    match r with
    | inl idx => idx
    | inr idx => if decide (od_level node = 0) then idx else (idx - 1)%nat
    end in
  Ok (seq idx (od_num_children node - idx)).

(** [None] when no key is at or below the search key. *)
Definition backwards_from (node : OnDiskNode) (search_key : list byte) : outcome btree_fail (option (list nat)) :=
  r ← binary_search node search_key;
  match r with
  | inl idx => Ok (Some (rev (seq 0 (idx + 1))))
  | inr O => Ok None
  | inr (S idx) => Ok (Some (rev (seq 0 (idx + 1))))
  end.

Inductive node_step : Type :=
| Exhausted
| Stopped
| Descend (iter : list nat) (child : Z).

Section reader.
Context (read_blk : Z -> outcome btree_fail (list byte)).
Context (start_blk root_blk : Z).

Definition read_node (node_blknum : Z) : outcome btree_fail OnDiskNode :=
  _ ← of_option (ensure (bool_decide (start_blk + node_blknum < 2 ^ 32)));
  buf ← read_blk (start_blk + node_blknum);
  node ← deparse buf;
  _ ← of_option (ensure (bool_decide (0 < od_num_children node)%nat));
  Ok node.

(** [into_stream]: the pairs yielded, and how the stream ends. *)
Fixpoint stream_node (node : OnDiskNode) (iter : list nat) : list (list byte * Z) * outcome btree_fail node_step :=
  match iter with
  | [] => ([], Ok Exhausted)
  | idx :: iter =>
      match node_key node idx, node_value node idx with
      | Some key, Some value =>
          if decide (od_level node = 0) then
            let '(items, r) := stream_node node iter in ((key, value_to_u64 value) :: items, r)
          else ([], child ← of_option (value_to_blknum value); Ok (Descend iter child))
      | _, _ => ([], Panic)
      end
  end.

Fixpoint stream_loop (fuel : nat) (start_key : list byte) (stack : list (Z * option (list nat))) :
    list (list byte * Z) * outcome btree_fail unit :=
  match stack with
  | [] => ([], Ok tt)
  | (node_blknum, opt_iter) :: stack =>
      match fuel with
      | O => ([], Err NoFuel)
      | S fuel =>
          match (node ← read_node node_blknum;
                 iter ← (match opt_iter with Some iter => Ok iter | None => forwards_from node start_key end);
                 Ok (node, iter)) with
          | Ok (node, iter) =>
              let '(items, r) := stream_node node iter in
              match r with
              | Ok (Descend iter child) =>
                  let '(more, r) := stream_loop fuel start_key ((child, None) :: (node_blknum, Some iter) :: stack) in
                  (items ++ more, r)
              | Ok _ => let '(more, r) := stream_loop fuel start_key stack in (items ++ more, r)
              | Err e => (items, Err e)
              | Panic => (items, Panic)
              end
          | Err e => ([], Err e)
          | Panic => ([], Panic)
          end
      end
  end.

Definition into_stream (fuel : nat) (start_key : list byte) : list (list byte * Z) * outcome btree_fail unit :=
  stream_loop fuel start_key [(root_blk, None)].

(** [visit], with the state of the visitor passed along. *)
Section visit.
Context {S' : Type} (visitor : S' -> list byte -> Z -> S' * bool).

Fixpoint visit_node (node : OnDiskNode) (iter : list nat) (s : S') : outcome btree_fail (S' * node_step) :=
  match iter with
  | [] => Ok (s, Exhausted)
  | idx :: iter =>
      key ← of_option (node_key node idx);
      value ← of_option (node_value node idx);
      if decide (od_level node = 0) then
        let '(s, go_on) := visitor s key (value_to_u64 value) in
        if go_on then visit_node node iter s else Ok (s, Stopped)
      else
        child ← of_option (value_to_blknum value);
        Ok (s, Descend iter child)
  end.

Fixpoint visit_loop (fuel : nat) (search_key : list byte) (dir : VisitDirection)
    (stack : list (Z * option (list nat))) (s : S') : outcome btree_fail (S' * bool) :=
  match stack with
  | [] => Ok (s, true)
  | (node_blknum, opt_iter) :: stack =>
      match fuel with
      | O => Err NoFuel
      | S fuel =>
          node ← read_node node_blknum;
          opt_iter ← (match opt_iter, dir with
                      | Some iter, _ => Ok (Some iter)
                      | None, Forwards => iter ← forwards_from node search_key; Ok (Some iter)
                      | None, Backwards => backwards_from node search_key
                      end);
          match opt_iter with
          | None => Ok (s, false)
          | Some iter =>
              '(s, step) ← visit_node node iter s;
              match step with
              | Exhausted => visit_loop fuel search_key dir stack s
              | Stopped => Ok (s, false)
              | Descend iter child =>
                  visit_loop fuel search_key dir ((child, None) :: (node_blknum, Some iter) :: stack) s
              end
          end
      end
  end.

Definition visit (fuel : nat) (search_key : list byte) (dir : VisitDirection) (s : S') :
    outcome btree_fail (S' * bool) :=
  visit_loop fuel search_key dir [(root_blk, None)] s.
End visit.

Definition btree_get (fuel : nat) (search_key : list byte) : outcome btree_fail (option Z) :=
  '(result, _) ← visit (fun result key value =>
                          ((if decide (key = search_key) then Some value else result), false))
                   fuel search_key Forwards None;
  Ok result.
End reader.

(** ** The builder *)

(** [BlockBuf::write_blk]. *)
Definition write_blk (blocks : list (list byte)) (buf : list byte) : option (Z * list (list byte)) :=
  _ ← ensure (bool_decide (length buf = PAGE_SZ));
  Some (wrap 32 (Z.of_nat (length blocks)), blocks ++ [buf]).

Record BuildNode := mkBuildNode {
  bn_num_children : nat;
  bn_level : Z;
  bn_prefix : list byte;
  bn_suffix_len : nat;
  bn_keys : list byte;
  bn_values : list byte;
  bn_size : nat
}.

Definition bn_new (level : Z) : BuildNode := mkBuildNode 0 level [] 0 [] [] NODE_HDR_SIZE.

Definition starts_with (prefix key : list byte) : bool := bool_decide (take (length prefix) key = prefix).

(** The assertions on the lengths of the buffers of a node. *)
Definition bn_lengths (self : BuildNode) : bool :=
  bool_decide (length (bn_keys self) = bn_num_children self * bn_suffix_len self)%nat
  && bool_decide (length (bn_values self) = bn_num_children self * VALUE_SZ)%nat.

Definition push (self : BuildNode) (key value : list byte) : option (BuildNode * bool) :=
  if bool_decide (0 < bn_num_children self)%nat && negb (starts_with (bn_prefix self) key) then Some (self, false)
  else
    let suffix_len := if decide (0 < bn_num_children self)%nat then bn_suffix_len self else length key in
    if decide (PAGE_SZ <= bn_size self + suffix_len + VALUE_SZ)%nat
    then Some (mkBuildNode (bn_num_children self) (bn_level self) (bn_prefix self) suffix_len
                 (bn_keys self) (bn_values self) (bn_size self), false)
    else
      suffix ← slice (length (bn_prefix self)) (length key) key;
      let self :=
        mkBuildNode (bn_num_children self + 1) (bn_level self) (bn_prefix self) suffix_len
          (bn_keys self ++ suffix) (bn_values self ++ value) (bn_size self + (suffix_len + VALUE_SZ)) in
      _ ← ensure (bn_lengths self);
      Some (self, true).

Definition first_suffix (self : BuildNode) : option (list byte) := slice 0 (bn_suffix_len self) (bn_keys self).
Definition last_suffix (self : BuildNode) : option (list byte) :=
  if decide (bn_suffix_len self <= length (bn_keys self))%nat
  then slice (length (bn_keys self) - bn_suffix_len self) (length (bn_keys self)) (bn_keys self) else None.

(** The loop that counts the bytes two suffixes share. *)
Fixpoint common_len (a b : list byte) : nat :=
  match a, b with
  | x :: a, y :: b => if decide (x = y) then S (common_len a b) else 0
  | _, _ => 0
  end%nat.

(** The loop that drops [prefix_len] bytes from each suffix. *)
Fixpoint strip_keys (fuel : nat) (keys : list byte) (suffix_len prefix_len key_off : nat) : option (list byte) :=
  if decide (key_off < length keys)%nat then
    match fuel with
    | O => None
    | S fuel =>
        k ← slice (key_off + prefix_len) (key_off + suffix_len) keys;
        rest ← strip_keys fuel keys suffix_len prefix_len (key_off + suffix_len);
        Some (k ++ rest)
    end
  else Some [].

Definition compress (self : BuildNode) : option (BuildNode * bool) :=
  first ← first_suffix self;
  last ← last_suffix self;
  let prefix_len := common_len first last in
  if decide (prefix_len = 0)%nat then Some (self, false) else
  more ← slice 0 prefix_len (bn_keys self);
  new_keys ← strip_keys (length (bn_keys self)) (bn_keys self) (bn_suffix_len self) prefix_len 0;
  _ ← ensure (bool_decide (prefix_len * bn_num_children self <= bn_size self)%nat);
  let self :=
    mkBuildNode (bn_num_children self) (bn_level self) (bn_prefix self ++ more) (bn_suffix_len self - prefix_len)
      new_keys (bn_values self) (bn_size self - prefix_len * bn_num_children self + prefix_len) in
  _ ← ensure (bn_lengths self);
  Some (self, true).

Definition pack (self : BuildNode) : option (list byte) :=
  _ ← ensure (bn_lengths self);
  _ ← ensure (bool_decide (0 < bn_num_children self)%nat);
  let buf :=
    be_bytes 2 (Z.of_nat (bn_num_children self)) ++ be_bytes 1 (bn_level self)
    ++ be_bytes 1 (Z.of_nat (length (bn_prefix self))) ++ be_bytes 1 (Z.of_nat (bn_suffix_len self))
    ++ bn_prefix self ++ bn_keys self ++ bn_values self in
  _ ← ensure (bool_decide (length buf = bn_size self));
  _ ← ensure (bool_decide (length buf <= PAGE_SZ)%nat);
  Some (buf ++ replicate (PAGE_SZ - length buf) (Z_byte 0)).

(** The key array is filled from both parts, so their lengths must add up to it. *)
Definition first_key (L : nat) (self : BuildNode) : option (list byte) :=
  first ← first_suffix self;
  _ ← ensure (bool_decide (length (bn_prefix self) + length first = L)%nat);
  Some (bn_prefix self ++ first).

Record DiskBtreeBuilder := mkBuilder {
  bb_writer : list (list byte);
  bb_stack : list BuildNode;
  bb_last_key : option (list byte)
}.

Definition builder_new (writer : list (list byte)) : DiskBtreeBuilder := mkBuilder writer [bn_new 0] None.

Definition with_stack (self : DiskBtreeBuilder) (stack : list BuildNode) : DiskBtreeBuilder :=
  mkBuilder (bb_writer self) stack (bb_last_key self).

(** [flush_node], given the [append_internal] it calls for the parent. *)
Definition flush_node_with (L : nat)
    (append_internal : DiskBtreeBuilder -> list byte -> list byte -> outcome btree_fail DiskBtreeBuilder)
    (self : DiskBtreeBuilder) : outcome btree_fail DiskBtreeBuilder :=
  match bb_stack self with
  | [] => Panic
  | last :: rest =>
      buf ← of_option (pack last);
      downlink_key ← of_option (first_key L last);
      '(downlink_ptr, writer) ← of_option (write_blk (bb_writer self) buf);
      rest ← (match rest with
              | [] => _ ← of_option (ensure (bool_decide (bn_level last + 1 < 256))); Ok [bn_new (bn_level last + 1)]
              | _ => Ok rest
              end);
      append_internal (mkBuilder writer rest (bb_last_key self)) downlink_key (value_from_blknum downlink_ptr)
  end.

Fixpoint append_internal (L fuel : nat) (self : DiskBtreeBuilder) (key value : list byte) :
    outcome btree_fail DiskBtreeBuilder :=
  match fuel with
  | O => Err NoFuel
  | S fuel =>
      match bb_stack self with
      | [] => Panic
      | last :: rest =>
          let level := bn_level last in
          '(last, pushed) ← of_option (push last key value);
          if pushed : bool then Ok (with_stack self (last :: rest)) else
          '(last, compressed) ← of_option (compress last);
          '(last, pushed) ← (if compressed : bool then of_option (push last key value) else Ok (last, false));
          if pushed : bool then Ok (with_stack self (last :: rest)) else
          self ← flush_node_with L (append_internal L fuel) (with_stack self (last :: rest));
          '(last, pushed) ← of_option (push (bn_new level) key value);
          if pushed : bool then Ok (with_stack self (last :: bb_stack self))
          else Err (BtreeError FailedToPushToNewLeafNode)
      end
  end.

Definition flush_node (L : nat) (self : DiskBtreeBuilder) : outcome btree_fail DiskBtreeBuilder :=
  flush_node_with L (append_internal L (length (bb_stack self) + 1)) self.

Definition btree_append (L : nat) (self : DiskBtreeBuilder) (key : list byte) (value : Z) :
    outcome btree_fail DiskBtreeBuilder :=
  if decide (MAX_VALUE < value) then Err (BtreeError (AppendOverflow value)) else
  match bb_last_key self with
  | Some last_key =>
      match bytes_cmp key last_key with
      | Gt => Ok tt
      | _ => Err (BtreeError (UnsortedInput key last_key))
      end
  | None => Ok tt
  end ≫= fun _ =>
  let self := mkBuilder (bb_writer self) (bb_stack self) (Some key) in
  value ← of_option (value_from_u64 value);
  append_internal L (length (bb_stack self) + 2) self key value.

Fixpoint finish_loop (L fuel : nat) (self : DiskBtreeBuilder) : outcome btree_fail DiskBtreeBuilder :=
  if decide (1 < length (bb_stack self))%nat then
    match fuel with
    | O => Err NoFuel
    | S fuel => self ← flush_node L self; finish_loop L fuel self
    end
  else Ok self.

Definition btree_finish (L fuel : nat) (self : DiskBtreeBuilder) : outcome btree_fail (Z * list (list byte)) :=
  self ← finish_loop L fuel self;
  root ← of_option (last (bb_stack self));
  buf ← of_option (pack root);
  '(root_blknum, writer) ← of_option (write_blk (bb_writer self) buf);
  Ok (root_blknum, writer).

Fixpoint append_all (L : nat) (self : DiskBtreeBuilder) (entries : list (list byte * Z)) :
    outcome btree_fail DiskBtreeBuilder :=
  match entries with
  | [] => Ok self
  | (key, value) :: entries => self ← btree_append L self key value; append_all L self entries
  end.
