(* ===== verification/DiskBtreeFacts.v ===== *)
(** * The B-tree reads back what was built

    A node being built and the page it is packed into hold the same pairs of key
    and value; the stack of the builder holds the entries appended so far, in
    subtrees on disk and in its open nodes; and descending from the root visits
    the entries of a subtree in order, from the search key on. *)

From stdpp Require Import sorting.
From S2P Require Import Prelude XlogUtils Key DiskBtree.

(** ** Slices and byte strings *)

Lemma PAGE_SZ_Z : Z.of_nat PAGE_SZ = 8192.
Proof. reflexivity. Qed.

#[global] Opaque PAGE_SZ.

Lemma be_Z_inj a b : length a = length b -> be_Z a = be_Z b -> a = b.
Proof.
  intros Hl E. unfold be_Z in E.
  rewrite <- (rev_involutive a), <- (rev_involutive b). f_equal.
  rewrite <- (le_bytes_le_Z (rev a)), <- (le_bytes_le_Z (rev b)), !length_rev, Hl. by rewrite E.
Qed.

Lemma be_Z_take_div m a :
  (m <= length a)%nat -> be_Z (take m a) = be_Z a / 256 ^ Z.of_nat (length a - m).
Proof.
  intros Hm. rewrite <- (take_drop m a) at 2. rewrite be_Z_app, length_drop.
  pose proof (be_Z_lt (drop m a)) as H. rewrite length_drop in H.
  rewrite Z.div_add_l by lia. rewrite Z.div_small by lia. lia.
Qed.

(** Keys between two with a common prefix have it. *)
Lemma shared_prefix m a k b :
  length a = length k -> length b = length k -> (m <= length k)%nat ->
  be_Z a <= be_Z k <= be_Z b -> take m a = take m b -> take m k = take m a.
Proof.
  intros Ha Hb Hm Hk E. apply be_Z_inj; [by rewrite !length_take, Ha|].
  assert (be_Z (take m a) = be_Z (take m b)) as E' by by rewrite E.
  rewrite !be_Z_take_div in * by lia. rewrite Ha, Hb in *.
  pose proof (Z.div_le_mono (be_Z a) (be_Z k) (256 ^ Z.of_nat (length k - m)) ltac:(lia) ltac:(lia)).
  pose proof (Z.div_le_mono (be_Z k) (be_Z b) (256 ^ Z.of_nat (length k - m)) ltac:(lia) ltac:(lia)). lia.
Qed.

Lemma length_concat_const {A} (s : nat) (chunks : list (list A)) :
  Forall (fun c => length c = s) chunks -> length (concat chunks) = (length chunks * s)%nat.
Proof. induction 1 as [|c chunks Hc _ IH]; [done|]. cbn [concat length]. rewrite length_app, IH, Hc. lia. Qed.

Lemma drop_concat_const {A} (s i : nat) (chunks : list (list A)) :
  Forall (fun c => length c = s) chunks -> drop (i * s) (concat chunks) = concat (drop i chunks).
Proof.
  revert chunks. induction i as [|i IH]; intros chunks Hc; [done|].
  destruct Hc as [|c chunks Hs Hc]; [by cbn [concat]; rewrite !drop_nil|]. cbn [concat drop Nat.mul].
  rewrite <- Hs at 1. rewrite drop_app_add. by apply IH.
Qed.

(** An entry of a packed array. *)
Lemma slice_concat s i (chunks : list (list byte)) c :
  Forall (fun c => length c = s) chunks -> chunks !! i = Some c ->
  slice (i * s) (i * s + s) (concat chunks) = Some c.
Proof.
  intros Hc Hi. pose proof (lookup_lt_Some _ _ _ Hi) as Hlt. unfold slice.
  rewrite decide_True by (rewrite (length_concat_const s) by done; nia).
  rewrite (drop_concat_const s) by done. f_equal. replace (i * s + s - i * s)%nat with s by lia.
  rewrite (drop_S chunks c i Hi). cbn [concat]. rewrite Forall_forall in Hc.
  apply take_app_length'. symmetry. apply Hc. by apply list_elem_of_lookup_2 in Hi.
Qed.

Lemma slice_full (l : list byte) : slice 0 (length l) l = Some l.
Proof. unfold slice. rewrite decide_True by lia. by rewrite drop_0, Nat.sub_0_r, take_ge by lia. Qed.

Lemma slice_drop m (l : list byte) : (m <= length l)%nat -> slice m (length l) l = Some (drop m l).
Proof. intros Hm. unfold slice. rewrite decide_True by lia. by rewrite take_ge by (rewrite length_drop; lia). Qed.

Lemma slice_app_mid (a b c : list byte) :
  slice (length a) (length a + length b) (a ++ b ++ c) = Some b.
Proof.
  unfold slice. rewrite decide_True by (rewrite !length_app; lia).
  rewrite drop_app_length. replace (length a + length b - length a)%nat with (length b) by lia. by rewrite take_app_length.
Qed.

Lemma common_len_spec a b :
  take (common_len a b) a = take (common_len a b) b /\ (common_len a b <= length a)%nat /\ (common_len a b <= length b)%nat.
Proof.
  revert b. induction a as [|x a IH]; intros [|y b]; cbn [common_len length]; try (split_and!; (done || lia)).
  destruct (decide (x = y)) as [->|]; [|split_and!; (done || lia)].
  destruct (IH b) as (E & Ha & Hb). cbn [take]. split_and!; [by rewrite E|lia|lia].
Qed.

Lemma strip_keys_ok s p chunks : forall fuel pre,
  (0 < s)%nat -> (p <= s)%nat -> Forall (fun c => length c = s) chunks -> (length chunks <= fuel)%nat ->
  strip_keys fuel (pre ++ concat chunks) s p (length pre) = Some (concat (drop p <$> chunks)).
Proof.
  induction chunks as [|c chunks IH]; intros fuel pre Hs Hp Hc Hf.
  - cbn [concat]. rewrite app_nil_r. destruct fuel; cbn [strip_keys]; by rewrite decide_False by lia.
  - apply Forall_cons in Hc as [Hl Hc]. destruct fuel as [|fuel]; cbn [length] in Hf; [lia|]. cbn [strip_keys concat].
    rewrite decide_True by (rewrite !length_app; lia).
    assert (slice (length pre + p) (length pre + s) (pre ++ c ++ concat chunks) = Some (drop p c)) as ->.
    { unfold slice. rewrite decide_True by (rewrite !length_app; lia). f_equal.
      rewrite drop_app_add, drop_app_le by lia. apply take_app_length'. rewrite length_drop. lia. }
    cbn [mbind option_bind]. rewrite app_assoc. rewrite <- Hl at 2. rewrite <- length_app.
    rewrite IH by (done || lia). done.
Qed.

(** ** Nodes *)

Abbreviation kv := (list byte * list byte)%type.
Abbreviation entry := (list byte * Z)%type.

(** A pair of a node together with the entries under it. *)
Abbreviation item := (kv * list entry)%type.

Definition key_lt {V} (a b : list byte * V) : Prop := be_Z a.1 < be_Z b.1.

Section btree.
Context (L : nat) (HL : (0 < L <= 255)%nat).

Record node_inv (n : BuildNode) (kvs : list kv) : Prop := {
  ni_num : bn_num_children n = length kvs;
  ni_width : Forall (fun e => length e.1 = L /\ length e.2 = VALUE_SZ) kvs;
  ni_sorted : StronglySorted key_lt kvs;
  ni_suffix : kvs <> [] -> (bn_suffix_len n + length (bn_prefix n) = L)%nat;
  ni_prefix : Forall (fun e => take (length (bn_prefix n)) e.1 = bn_prefix n) kvs;
  ni_keys : bn_keys n = concat ((fun e => drop (length (bn_prefix n)) e.1) <$> kvs);
  ni_values : bn_values n = concat kvs.*2;
  ni_size : bn_size n = (5 + length (bn_prefix n) + length kvs * (bn_suffix_len n + 5))%nat;
  ni_fits : (bn_size n < PAGE_SZ)%nat;
  ni_few : (length kvs < 3)%nat -> bn_prefix n = []
}.

Lemma node_inv_new level : node_inv (bn_new level) [].
Proof.
  pose proof PAGE_SZ_Z. split; [done|apply Forall_nil_2|apply SSorted_nil|done|apply Forall_nil_2|done|done|done| |done].
  cbn [bn_new bn_size]. unfold NODE_HDR_SIZE. lia.
Qed.

(** The suffixes of a node have the width it says. *)
Lemma node_suffixes n kvs :
  node_inv n kvs ->
  Forall (fun c => length c = bn_suffix_len n) ((fun e : kv => drop (length (bn_prefix n)) e.1) <$> kvs)
  /\ Forall (fun c => length c = VALUE_SZ) kvs.*2
  /\ bn_lengths n = true.
Proof.
  intros Hi. pose proof (ni_width n kvs Hi) as Hw. rewrite Forall_forall in Hw.
  assert (Forall (fun c => length c = bn_suffix_len n) ((fun e : kv => drop (length (bn_prefix n)) e.1) <$> kvs)) as H1.
  { apply Forall_fmap, Forall_forall. intros e He. cbn. rewrite length_drop. destruct (Hw e He) as [-> _].
    pose proof (ni_suffix n kvs Hi ltac:(by intros ->; apply not_elem_of_nil in He)). lia. }
  assert (Forall (fun c => length c = VALUE_SZ) kvs.*2) as H2.
  { apply Forall_fmap, Forall_forall. intros e He. cbn. apply Hw, He. }
  split_and!; [done|done|]. unfold bn_lengths. rewrite (ni_keys n kvs Hi), (ni_values n kvs Hi), (ni_num n kvs Hi).
  rewrite (length_concat_const _ _ H1), (length_concat_const _ _ H2), !length_fmap.
  by rewrite !bool_decide_eq_true_2.
Qed.

Lemma push_ok n kvs key value :
  node_inv n kvs -> length key = L -> length value = VALUE_SZ -> Forall (fun e => be_Z e.1 < be_Z key) kvs ->
  exists n' ok, push n key value = Some (n', ok) /\ bn_level n' = bn_level n
  /\ if ok : bool then node_inv n' (kvs ++ [(key, value)]) else n' = n /\ (3 <= length kvs)%nat.
Proof.
  intros Hi Hk Hv Hlt. pose proof PAGE_SZ_Z as HP. pose proof (ni_num n kvs Hi) as Hnum.
  pose proof (ni_size n kvs Hi) as Hsz. pose proof (ni_few n kvs Hi) as Hfew.
  pose proof (ni_suffix n kvs Hi) as Hsuf. unfold push.
  destruct (bool_decide (0 < bn_num_children n)%nat && negb (starts_with (bn_prefix n) key)) eqn:Hpre.
  { apply andb_true_iff in Hpre as [_ Hpre]. exists n, false. split_and!; [done|done|done|].
    destruct (decide (length kvs < 3)%nat) as [Hl|]; [|lia]. rewrite Hfew in Hpre by done. done. }
  set (s := if decide (0 < bn_num_children n)%nat then bn_suffix_len n else length key).
  assert (s + length (bn_prefix n) = L)%nat as Hs.
  { unfold s. destruct (decide _) as [Hn|Hn]; [apply Hsuf; destruct kvs; [simpl in Hnum; lia|done]|].
    rewrite Hfew by lia. cbn [length]. lia. }
  assert (kvs <> [] -> s = bn_suffix_len n) as Hs' by (intros Hne; specialize (Hsuf Hne); lia).
  destruct (decide (PAGE_SZ <= bn_size n + s + VALUE_SZ)%nat) as [Hfull|Hroom].
  - destruct (decide (length kvs < 3)%nat) as [Hl|Hl].
    { exfalso. rewrite Hfew in * by done. cbn [length] in *. unfold VALUE_SZ in *.
      assert (bn_size n <= 5 + 2 * (L + 5))%nat; [|lia]. rewrite Hsz. destruct kvs as [|e kvs]; [simpl; lia|].
      rewrite <- Hs' by done. nia. }
    rewrite Hs' by (intros ->; simpl in Hl; lia). exists n, false. split_and!; [by destruct n|done|done|lia].
  - assert (take (length (bn_prefix n)) key = bn_prefix n) as Hkp.
    { apply andb_false_iff in Hpre as [Hn%bool_decide_eq_false|Hst].
      - rewrite Hfew by lia. done.
      - by apply negb_false_iff, bool_decide_eq_true in Hst. }
    rewrite slice_drop by lia. cbn [mbind option_bind].
    set (n' := mkBuildNode _ _ _ _ _ _ _). assert (node_inv n' (kvs ++ [(key, value)])) as Hi'.
    { apply Build_node_inv; cbn [n' bn_num_children bn_prefix bn_suffix_len bn_keys bn_values bn_size].
      - rewrite length_app, Hnum. done.
      - apply Forall_app_2; [apply Hi|]. by repeat constructor.
      - apply StronglySorted_app_2; [|apply Hi|by repeat constructor].
        intros x y Hx Hy%list_elem_of_singleton. subst y. rewrite Forall_forall in Hlt. by apply Hlt.
      - done.
      - apply Forall_app_2; [apply Hi|]. by repeat constructor.
      - rewrite fmap_app, concat_app, <- (ni_keys n kvs Hi). cbn [fmap list_fmap concat fst]. by rewrite app_nil_r.
      - rewrite fmap_app, concat_app, <- (ni_values n kvs Hi). cbn [fmap list_fmap concat snd]. by rewrite app_nil_r.
      - rewrite length_app. cbn [length]. rewrite Hsz. unfold VALUE_SZ. destruct kvs as [|e kvs]; [simpl; lia|].
        rewrite Hs' by done. nia.
      - lia.
      - rewrite length_app. cbn [length]. intros Hl. apply Hfew. lia. }
    exists n', true. rewrite (proj2 (proj2 (node_suffixes n' _ Hi'))). split; [reflexivity|]. by split.
Qed.

Lemma first_suffix_ok n e kvs :
  node_inv n (e :: kvs) -> first_suffix n = Some (drop (length (bn_prefix n)) e.1).
Proof.
  intros Hi. unfold first_suffix. rewrite (ni_keys n _ Hi).
  apply (slice_concat (bn_suffix_len n) 0); [by apply node_suffixes|done].
Qed.

Lemma last_suffix_ok n kvs e :
  node_inv n (kvs ++ [e]) -> last_suffix n = Some (drop (length (bn_prefix n)) e.1).
Proof.
  intros Hi. destruct (node_suffixes n _ Hi) as (H1 & _ & _). unfold last_suffix. rewrite (ni_keys n _ Hi).
  pose proof (length_concat_const _ _ H1) as Hl. rewrite Hl, length_fmap, length_app. cbn [length].
  rewrite decide_True by nia.
  replace ((length kvs + 1) * bn_suffix_len n - bn_suffix_len n)%nat with (length kvs * bn_suffix_len n)%nat by nia.
  replace ((length kvs + 1) * bn_suffix_len n)%nat with (length kvs * bn_suffix_len n + bn_suffix_len n)%nat by nia.
  apply slice_concat; [done|]. rewrite list_lookup_fmap, lookup_app_r, Nat.sub_diag by lia. done.
Qed.

(** The common prefix of the first and the last key is that of all keys. *)
Lemma common_prefix_all n e mid e' p :
  node_inv n (e :: mid ++ [e']) -> (p <= L)%nat -> take p e.1 = take p e'.1 ->
  Forall (fun x => take p x.1 = take p e.1) (e :: mid ++ [e']).
Proof.
  intros Hi Hp E. pose proof (ni_width n _ Hi) as Hw. pose proof (ni_sorted n _ Hi) as Hs.
  rewrite Forall_forall in *. intros x Hx. destruct (Hw x Hx) as [Hxl _].
  destruct (Hw e ltac:(left)) as [Hel _]. destruct (Hw e' ltac:(right; apply elem_of_app; right; left)) as [Hel' _].
  apply (shared_prefix p e.1 x.1 e'.1); [congruence|congruence|lia| |done].
  apply StronglySorted_cons in Hs as [Hfe Hs]. rewrite Forall_forall in Hfe.
  apply elem_of_cons in Hx as [->|Hx].
  - pose proof (Hfe e' ltac:(apply elem_of_app; right; left)). unfold key_lt in *. lia.
  - pose proof (Hfe x Hx) as Hex. apply elem_of_app in Hx as [Hx|Hx%list_elem_of_singleton]; [|subst; unfold key_lt in *; lia].
    assert (key_lt x e') as Hxe by (apply (StronglySorted_app_1_elem_of _ mid [e']); [done|done|left]).
    unfold key_lt in *. lia.
Qed.

Lemma compress_ok n kvs :
  node_inv n kvs -> (3 <= length kvs)%nat ->
  exists n' ok, compress n = Some (n', ok) /\ node_inv n' kvs /\ bn_level n' = bn_level n.
Proof.
  intros Hi Hl3. destruct kvs as [|e kvs]; [simpl in Hl3; lia|].
  destruct (exists_last (l := kvs)) as (mid & e' & ->); [by intros ->; simpl in Hl3; lia|].
  unfold compress. rewrite (first_suffix_ok n e _ Hi). change (e :: mid ++ [e']) with ((e :: mid) ++ [e']) in Hi.
  rewrite (last_suffix_ok n _ e' Hi). change ((e :: mid) ++ [e']) with (e :: mid ++ [e']) in Hi. cbn [mbind option_bind].
  set (p := length (bn_prefix n)). set (m := common_len _ _).
  pose proof (common_len_spec (drop p e.1) (drop p e'.1)) as (Em & Hma & _). fold m in Em, Hma.
  destruct (decide (m = 0%nat)) as [|Hm0]; [by exists n, false|].
  pose proof (ni_width n _ Hi) as Hw. pose proof (ni_prefix n _ Hi) as Hp. fold p in Hp.
  pose proof (ni_suffix n _ Hi ltac:(done)) as Hs. fold p in Hs.
  destruct (node_suffixes n _ Hi) as (H1 & H2 & _). fold p in H1.
  set (kvs := e :: mid ++ [e']) in *. rewrite Forall_forall in Hw, Hp.
  assert (e ∈ kvs) as Hine by left. assert (e' ∈ kvs) as Hine' by (right; apply elem_of_app; right; left).
  destruct (Hw e Hine) as [Hel _]. rewrite length_drop, Hel in Hma.
  assert (forall x, x ∈ kvs -> take (p + m) x.1 = bn_prefix n ++ take m (drop p e.1)) as Hall.
  { assert (forall l, take (p + m) (bn_prefix n ++ l) = bn_prefix n ++ take m l) as Ht by (intros l; apply take_app_add).
    assert (take (p + m) e.1 = bn_prefix n ++ take m (drop p e.1)) as E0.
    { rewrite <- (take_drop p e.1) at 1. by rewrite (Hp e Hine), Ht. }
    intros x Hx. rewrite <- E0. pose proof (common_prefix_all n e mid e' (p + m) Hi ltac:(lia)) as H.
    rewrite Forall_forall in H. apply H; [|done]. rewrite E0.
    rewrite <- (take_drop p e'.1). by rewrite (Hp e' Hine'), Ht, Em. }
  pose proof (ni_keys n kvs Hi) as Hk. fold p in Hk.
  assert (slice 0 m (bn_keys n) = Some (take m (drop p e.1))) as ->.
  { unfold slice. rewrite Hk, (length_concat_const _ _ H1), length_fmap. rewrite decide_True by (unfold kvs; cbn [length]; nia).
    f_equal. rewrite drop_0, Nat.sub_0_r. unfold kvs. cbn [fmap list_fmap concat]. apply take_app_le.
    rewrite length_drop, Hel. lia. }
  cbn [mbind option_bind]. rewrite Hk. rewrite (length_concat_const _ _ H1), length_fmap.
  change (concat ?c) with ([] ++ concat c) at 1. rewrite (strip_keys_ok (bn_suffix_len n) m _ _ []); [|lia|lia|done|rewrite length_fmap; nia].
  cbn [mbind option_bind]. pose proof (ni_size n _ Hi) as Hsz. fold p in Hsz. pose proof (ni_num n _ Hi) as Hnum.
  pose proof (ni_fits n _ Hi) as Hf.
  rewrite bool_decide_eq_true_2 by (rewrite Hnum, Hsz; nia). cbn [ensure mbind option_bind].
  set (n' := mkBuildNode _ _ _ _ _ _ _). assert (node_inv n' kvs) as Hi'.
  { assert (length (bn_prefix n ++ take m (drop p e.1)) = (p + m)%nat) as Hpl.
    { rewrite length_app, length_take, length_drop, Hel. unfold p. lia. }
    apply Build_node_inv; cbn [n' bn_num_children bn_prefix bn_suffix_len bn_keys bn_values bn_size]; rewrite ?Hpl.
    - done.
    - apply Hi.
    - apply Hi.
    - lia.
    - apply Forall_forall. exact Hall.
    - f_equal. rewrite <- list_fmap_compose. apply list_fmap_ext. intros i x _. cbn. by rewrite drop_drop.
    - apply Hi.
    - rewrite Hnum, Hsz.
      replace (length kvs * (bn_suffix_len n + 5))%nat with (m * length kvs + length kvs * (bn_suffix_len n - m + 5))%nat by nia.
      generalize (length kvs * (bn_suffix_len n - m + 5))%nat (m * length kvs)%nat. lia.
    - rewrite Hnum. assert (m <= m * length kvs)%nat as Hm1 by nia.
      assert (m * length kvs <= bn_size n)%nat as Hm2 by (rewrite Hsz; nia). revert Hm1 Hm2. generalize (m * length kvs)%nat. lia.
    - lia. }
  exists n', true. rewrite (proj2 (proj2 (node_suffixes n' _ Hi'))). split; [reflexivity|]. by split.
Qed.

(** A page holds the pairs [kvs] at a level. *)
Definition disk_node (page : list byte) (level : Z) (kvs : list kv) : Prop :=
  exists od, deparse page = Ok od /\ od_level od = level /\ od_num_children od = length kvs
  /\ forall i e, kvs !! i = Some e -> node_key od i = Some e.1 /\ node_value od i = Some e.2.

Lemma be_bytes_1 z : 0 <= z < 256 -> exists b, be_bytes 1 z = [b] /\ byte_Z b = z.
Proof.
  intros Hz. exists (Z_byte z). split; [done|]. rewrite byte_Z_Z_byte. by apply Z.mod_small.
Qed.

Lemma pack_ok n kvs :
  node_inv n kvs -> kvs <> [] -> 0 <= bn_level n < 256 ->
  exists page, pack n = Some page /\ length page = PAGE_SZ /\ disk_node page (bn_level n) kvs.
Proof.
  intros Hi Hne Hlev. destruct (node_suffixes n kvs Hi) as (H1 & H2 & Hlen). unfold pack. rewrite Hlen. cbn [ensure mbind option_bind].
  pose proof (ni_num n kvs Hi) as Hnum. pose proof (ni_fits n kvs Hi) as Hf. pose proof (ni_size n kvs Hi) as Hsz.
  pose proof (ni_suffix n kvs Hi Hne) as Hs. pose proof PAGE_SZ_Z as HP.
  pose proof (length_concat_const _ _ H1) as Hkl. rewrite <- (ni_keys n kvs Hi), length_fmap in Hkl.
  pose proof (length_concat_const _ _ H2) as Hvl. rewrite <- (ni_values n kvs Hi), length_fmap in Hvl.
  assert (0 < length kvs)%nat by (destruct kvs; [done|simpl; lia]).
  rewrite (bool_decide_eq_true_2 (0 < bn_num_children n)%nat) by lia. cbn [ensure mbind option_bind].
  set (buf := be_bytes 2 _ ++ _).
  assert (length buf = bn_size n) as Hbl.
  { unfold buf. rewrite !length_app, !length_be_bytes, Hkl, Hvl, Hsz. unfold VALUE_SZ. nia. }
  rewrite (bool_decide_eq_true_2 (length buf = bn_size n)) by lia. cbn [ensure mbind option_bind].
  rewrite (bool_decide_eq_true_2 (length buf <= PAGE_SZ)%nat) by lia. cbn [ensure mbind option_bind]. eexists. split; [done|].
  split; [rewrite length_app, length_replicate; lia|].
  assert (be_Z (be_bytes 2 (Z.of_nat (bn_num_children n))) = Z.of_nat (length kvs)) as Hn2.
  { rewrite be_Z_be_bytes_small by (unfold in_u; nia). lia. }
  destruct (be_bytes 2 (Z.of_nat (bn_num_children n))) as [|n1 [|n0 [|? ?]]] eqn:E2;
    try (apply (f_equal length) in E2; rewrite length_be_bytes in E2; done).
  destruct (be_bytes_1 (bn_level n) Hlev) as (lv & Elv & Hlv).
  destruct (be_bytes_1 (Z.of_nat (length (bn_prefix n))) ltac:(lia)) as (pl & Epl & Hpl).
  destruct (be_bytes_1 (Z.of_nat (bn_suffix_len n)) ltac:(lia)) as (sl & Esl & Hsl).
  unfold buf. rewrite Elv, Epl, Esl. set (zeros := replicate _ _).
  set (hdr := [n1; n0; lv; pl; sl]).
  assert (forall l, ([n1; n0] ++ [lv] ++ [pl] ++ [sl] ++ l) = hdr ++ l) as -> by done.
  rewrite <- !app_assoc.
  set (od := mkOnDiskNode (length kvs) (bn_level n) (length (bn_prefix n)) (bn_suffix_len n)
               (bn_prefix n) (bn_keys n) (bn_values n)).
  exists od. split_and!; [|done|done|].
  - unfold hdr at 1. cbn [app deparse]. rewrite Hn2, Hlv, Hpl, Hsl, !Nat2Z.id.
    change (n1 :: n0 :: lv :: pl :: sl :: ?l) with (hdr ++ l).
    rewrite <- Hkl, <- Hvl. change 5%nat with (length hdr).
    rewrite slice_app_mid. cbn [of_option mbind outcome_bind].
    rewrite <- length_app. rewrite (app_assoc hdr (bn_prefix n)). rewrite slice_app_mid. cbn [of_option mbind outcome_bind].
    rewrite <- length_app. rewrite (app_assoc (hdr ++ bn_prefix n)). rewrite slice_app_mid. done.
  - intros i e Hie. unfold node_key, node_value. cbn [od od_suffix_len od_keys od_values od_prefix].
    rewrite (ni_keys n kvs Hi), (ni_values n kvs Hi).
    rewrite (slice_concat _ i _ (drop (length (bn_prefix n)) e.1) H1) by by rewrite list_lookup_fmap, Hie.
    rewrite (slice_concat _ i _ e.2 H2) by by rewrite list_lookup_fmap, Hie.
    split; [|done]. cbn [mbind option_bind]. f_equal. pose proof (ni_prefix n kvs Hi) as Hp. rewrite Forall_forall in Hp.
    rewrite <- (Hp e) at 1 by by apply list_elem_of_lookup_2 in Hie. apply take_drop.
Qed.

Lemma first_key_ok n e kvs : node_inv n (e :: kvs) -> first_key L n = Some e.1.
Proof.
  intros Hi. unfold first_key. rewrite (first_suffix_ok n e kvs Hi). cbn [mbind option_bind].
  pose proof (ni_width n _ Hi) as Hw. apply Forall_cons in Hw as [[Hl _] _].
  pose proof (ni_suffix n _ Hi ltac:(done)). pose proof (ni_prefix n _ Hi) as Hp. apply Forall_cons in Hp as [Hp _].
  rewrite bool_decide_eq_true_2 by (rewrite length_drop; lia). cbn [ensure mbind option_bind]. f_equal.
  rewrite <- Hp at 1. apply take_drop.
Qed.

(** ** Subtrees *)

Definition subtree_with (P : item -> Prop) (blocks : list (list byte)) (l : nat) (blk : Z) (es : list entry) : Prop :=
  exists page items, 0 <= blk < 2 ^ 32 /\ blocks !! Z.to_nat blk = Some page /\ items <> []
  /\ disk_node page (Z.of_nat l) items.*1 /\ Forall P items /\ es = concat items.*2.

Fixpoint item_ok (blocks : list (list byte)) (l : nat) (it : item) : Prop :=
  (exists v rest, it.2 = (it.1.1, v) :: rest)
  /\ match l with
     | O => exists v, 0 <= v <= MAX_VALUE /\ it.1.2 = be_bytes 5 v /\ it.2 = [(it.1.1, v)]
     | S l => exists blk, it.1.2 = value_from_blknum blk /\ subtree_with (item_ok blocks l) blocks l blk it.2
     end.

Definition subtree (blocks : list (list byte)) (l : nat) : Z -> list entry -> Prop :=
  subtree_with (item_ok blocks l) blocks l.

Lemma item_ok_mono blocks more l : forall it, item_ok blocks l it -> item_ok (blocks ++ more) l it.
Proof.
  induction l as [|l IH]; intros it (Hh & H); (split; [done|]); [done|].
  destruct H as (blk & Hv & page & items & Hb & Hp & Hne & Hd & Hf & He). exists blk. split; [done|].
  exists page, items. split_and!; try done; try lia.
  - by apply lookup_app_l_Some.
  - eapply Forall_impl; [exact Hf|]. apply IH.
Qed.

Lemma item_head blocks l it : item_ok blocks l it -> exists v rest, it.2 = (it.1.1, v) :: rest.
Proof. destruct l; by intros [H _]. Qed.

Lemma item_value blocks l it : item_ok blocks l it -> length it.1.2 = VALUE_SZ.
Proof.
  destruct l; intros [_ H]; [destruct H as (v & _ & -> & _)|destruct H as (blk & -> & _)].
  - apply length_be_bytes.
  - cbn [value_from_blknum length]. by rewrite length_be_bytes.
Qed.

Lemma blknum_round_trip blk : 0 <= blk < 2 ^ 32 -> value_to_blknum (value_from_blknum blk) = Some blk.
Proof.
  intros Hb. unfold value_from_blknum, value_to_blknum. rewrite byte_Z_Z_byte. cbn [ensure mbind option_bind].
  rewrite bool_decide_eq_true_2 by done. cbn [ensure mbind option_bind]. by rewrite be_Z_be_bytes_small.
Qed.

(** The keys of the items of sorted entries are sorted. *)
Lemma items_sorted blocks l items :
  Forall (item_ok blocks l) items -> StronglySorted key_lt (concat items.*2) -> StronglySorted key_lt items.*1.
Proof.
  induction items as [|it items IH]; intros Hf Hs; [constructor|]. apply Forall_cons in Hf as [Hit Hf].
  cbn [fmap list_fmap concat] in Hs. apply StronglySorted_cons. split.
  - apply Forall_fmap, Forall_forall. intros it' Hin. rewrite Forall_forall in Hf.
    destruct (item_head _ _ _ Hit) as (v & r & E). destruct (item_head _ _ _ (Hf it' Hin)) as (v' & r' & E').
    change (key_lt it.1 it'.1). unfold key_lt.
    apply (StronglySorted_app_1_elem_of key_lt it.2 (concat items.*2) (it.1.1, v) (it'.1.1, v')); [done|rewrite E; left|].
    apply list_elem_of_In, in_concat. exists it'.2. split; apply list_elem_of_In; [by apply (list_elem_of_fmap_2 snd)|rewrite E'; left].
  - apply IH; [done|]. by apply StronglySorted_app_1_r in Hs.
Qed.

(** ** The builder *)

Fixpoint stack_holds (blocks : list (list byte)) (l : nat) (stack : list BuildNode) (es : list entry) : Prop :=
  match stack with
  | [] => es = []
  | n :: rest => exists items above, es = above ++ concat items.*2 /\ bn_level n = Z.of_nat l
      /\ node_inv n items.*1 /\ Forall (item_ok blocks l) items /\ stack_holds blocks (S l) rest above
  end.

Lemma stack_holds_mono blocks more stack : forall l es,
  stack_holds blocks l stack es -> stack_holds (blocks ++ more) l stack es.
Proof.
  induction stack as [|n rest IH]; intros l es; [done|]. intros (items & above & He & Hl & Hi & Hf & Hr).
  exists items, above. split_and!; try done; [|by apply IH]. eapply Forall_impl; [exact Hf|]. apply item_ok_mono.
Qed.

Definition root_or (level : Z) (rest : list BuildNode) : list BuildNode :=
  match rest with [] => [bn_new level] | _ => rest end.

(** Flushing a node writes its page and hands its downlink to the level above. *)
Lemma flush_node_ok append l b n rest items :
  bb_stack b = n :: rest -> bn_level n = Z.of_nat l -> node_inv n items.*1 -> Forall (item_ok (bb_writer b) l) items ->
  items <> [] -> Z.of_nat l < 255 -> Z.of_nat (length (bb_writer b)) < 2 ^ 32 ->
  exists page it, length page = PAGE_SZ /\ item_ok (bb_writer b ++ [page]) (S l) it /\ it.2 = concat items.*2
  /\ flush_node_with L append b
     = append (mkBuilder (bb_writer b ++ [page]) (root_or (Z.of_nat l + 1) rest) (bb_last_key b)) it.1.1 it.1.2.
Proof.
  intros Hst Hlev Hi Hf Hne Hl Hb. destruct items as [|it0 items]; [done|].
  destruct (pack_ok n (it0 :: items).*1 Hi) as (page & Hpack & Hpl & Hdisk); [done|lia|].
  exists page, ((it0.1.1, value_from_blknum (Z.of_nat (length (bb_writer b)))), concat (it0 :: items).*2).
  split; [done|]. pose proof (item_head _ _ _ (Forall_inv Hf)) as (v & r & E0). split.
  - split; [exists v, (r ++ concat items.*2); cbn [fmap list_fmap concat fst snd]; by rewrite E0|].
    exists (Z.of_nat (length (bb_writer b))). split; [done|]. exists page, (it0 :: items).
    split_and!; [lia|done| |done|by rewrite <- Hlev| |done].
    + rewrite Nat2Z.id. by apply lookup_snoc_Some; right.
    + eapply Forall_impl; [exact Hf|]. apply item_ok_mono.
  - split; [done|]. unfold flush_node_with. rewrite Hst, Hpack. cbn [of_option mbind outcome_bind].
    rewrite (first_key_ok n it0.1 items.*1 Hi). cbn [of_option mbind outcome_bind].
    unfold write_blk. rewrite (bool_decide_eq_true_2 (length page = PAGE_SZ)) by done. cbn [ensure mbind option_bind of_option outcome_bind].
    rewrite wrap_small by (unfold in_u; lia). destruct rest; cbn [root_or].
    + rewrite Hlev, bool_decide_eq_true_2 by lia. done.
    + done.
Qed.

(** What bounds the number of pages and of levels: an entry at level [l] weighs
    [2 ^ l], and a node is flushed with three entries at least. *)
Fixpoint kids (stack : list BuildNode) : Z :=
  match stack with [] => 0 | n :: rest => Z.of_nat (bn_num_children n) + kids rest end.

Fixpoint weight (l : nat) (stack : list BuildNode) : Z :=
  match stack with [] => 0 | n :: rest => Z.of_nat (bn_num_children n) * 2 ^ Z.of_nat l + weight (S l) rest end.

Lemma weight_nonneg stack : forall l, 0 <= weight l stack.
Proof. induction stack as [|n rest IH]; intros l; cbn [weight]; [lia|]. specialize (IH (S l)). nia. Qed.

Lemma level_bound l : 2 ^ Z.of_nat l <= 2 ^ 200 -> Z.of_nat l < 255.
Proof.
  intros Hl. destruct (Z.lt_ge_cases (Z.of_nat l) 255) as [|Hge]; [done|]. apply (Z.pow_le_mono_r 2) in Hge; [|lia].
  assert (2 ^ 200 < 2 ^ 255) by by apply Z.pow_lt_mono_r. lia.
Qed.

Definition filled (n : BuildNode) : Prop := (0 < bn_num_children n)%nat.

Definition open_children (stack : list BuildNode) : nat :=
  match stack with [] => 0 | n :: _ => bn_num_children n end%nat.

Record appended (l : nat) (b b' : DiskBtreeBuilder) (es : list entry) : Prop := {
  ap_blocks : exists more, bb_writer b' = bb_writer b ++ more /\ Forall (fun p => length p = PAGE_SZ) more;
  ap_last_key : bb_last_key b' = bb_last_key b;
  ap_holds : stack_holds (bb_writer b') l (bb_stack b') es;
  ap_filled : Forall filled (bb_stack b');
  ap_open : bb_stack b' <> [];
  ap_kids : Z.of_nat (length (bb_writer b')) + kids (bb_stack b') <= Z.of_nat (length (bb_writer b)) + kids (bb_stack b) + 1;
  ap_weight : weight l (bb_stack b') <= weight l (bb_stack b) + 2 ^ Z.of_nat l;
  ap_fresh : (0 < open_children (bb_stack b))%nat -> open_children (bb_stack b') = 1%nat ->
    weight l (bb_stack b') <= weight l (bb_stack b);
  ap_height : (length (bb_stack b') = length (bb_stack b) \/
    length (bb_stack b') = S (length (bb_stack b)) /\ Forall (fun n => bn_num_children n = 1%nat) (bb_stack b'))
}.

(** A pair that fits goes to the bottommost node. *)
Lemma appended_push l b n n' rest above items it :
  bb_stack b = n :: rest -> Forall filled rest -> bn_level n = Z.of_nat l -> bn_level n' = bn_level n ->
  node_inv n items.*1 -> node_inv n' (items.*1 ++ [it.1]) ->
  Forall (item_ok (bb_writer b) l) items -> item_ok (bb_writer b) l it ->
  stack_holds (bb_writer b) (S l) rest above ->
  appended l b (with_stack b (n' :: rest)) ((above ++ concat items.*2) ++ it.2).
Proof.
  intros Hst Hr Hl Hl' Hi Hi' Hf Hit Hab.
  pose proof (ni_num _ _ Hi) as Hn. pose proof (ni_num _ _ Hi') as Hn'. rewrite length_app in Hn'. cbn [length] in Hn'.
  split; cbn [with_stack bb_writer bb_stack bb_last_key kids weight open_children]; rewrite ?Hst; cbn [kids weight open_children length].
  - exists []. by rewrite app_nil_r.
  - done.
  - exists (items ++ [it]), above. rewrite !fmap_app, concat_app. cbn [fmap list_fmap concat]. rewrite app_nil_r, app_assoc.
    split_and!; [done|congruence|done| |done]. by apply Forall_app_2; [|constructor].
  - constructor; [unfold filled; lia|done].
  - done.
  - lia.
  - nia.
  - lia.
  - by left.
Qed.

Lemma last_before_sorted blocks l items it above :
  Forall (item_ok blocks l) items -> item_ok blocks l it ->
  StronglySorted key_lt ((above ++ concat items.*2) ++ it.2) ->
  Forall (fun e : kv => be_Z e.1 < be_Z it.1.1) items.*1.
Proof.
  intros Hf Hit Hs. apply Forall_fmap, Forall_forall. intros x Hx. rewrite Forall_forall in Hf.
  destruct (item_head _ _ _ (Hf x Hx)) as (v & r & Ex). destruct (item_head _ _ _ Hit) as (v' & r' & Eit).
  apply (StronglySorted_app_1_elem_of key_lt _ _ (x.1.1, v) (it.1.1, v') Hs); [|rewrite Eit; left].
  apply elem_of_app. right. apply list_elem_of_In, in_concat. exists x.2.
  split; apply list_elem_of_In; [by apply (list_elem_of_fmap_2 snd)|rewrite Ex; left].
Qed.

Lemma root_or_holds blocks l rest above :
  stack_holds blocks (S l) rest above -> Forall filled rest ->
  let rest' := root_or (Z.of_nat l + 1) rest in
  stack_holds blocks (S l) rest' above /\ rest' <> [] /\ Forall filled (tail rest')
  /\ kids rest' = kids rest /\ weight (S l) rest' = weight (S l) rest.
Proof.
  intros Hr Hf. destruct rest as [|n rest]; cbn [root_or].
  - split_and!; try done. exists [], []. cbn [stack_holds] in Hr. subst above. split_and!; try done; [|apply node_inv_new].
    cbn [bn_new bn_level]. lia.
  - split_and!; try done. by apply Forall_cons in Hf as [_ Hf].
Qed.

(** After the parent took the downlink, the pair starts a new node. *)
Lemma appended_flush l b b3 b4 n rest above items it n5 page :
  bb_stack b = n :: rest -> Forall filled rest -> node_inv n items.*1 -> (3 <= length items)%nat ->
  b3 = mkBuilder (bb_writer b ++ [page]) (root_or (Z.of_nat l + 1) rest) (bb_last_key b) -> length page = PAGE_SZ ->
  appended (S l) b3 b4 (above ++ concat items.*2) ->
  bn_level n5 = Z.of_nat l -> node_inv n5 [it.1] -> item_ok (bb_writer b) l it ->
  appended l b (with_stack b4 (n5 :: bb_stack b4)) ((above ++ concat items.*2) ++ it.2).
Proof.
  intros Hst Hr Hi H3 -> Hpage Hap Hl5 Hi5 Hit. pose proof (ni_num _ _ Hi) as Hn. rewrite length_fmap in Hn.
  pose proof (ni_num _ _ Hi5) as Hn5. cbn [length] in Hn5. destruct Hap as [(more & Hmore & Hpages) Hlk Hholds Hfill Hopen Hk Hw _ Hh].
  cbn [bb_writer bb_stack bb_last_key] in *.
  assert (kids (root_or (Z.of_nat l + 1) rest) = kids rest /\ weight (S l) (root_or (Z.of_nat l + 1) rest) = weight (S l) rest)
    as [Ek Ew] by by destruct rest.
  rewrite Ek in Hk. rewrite Ew in Hw. rewrite length_app in Hk. cbn [length] in Hk.
  assert (2 ^ Z.of_nat (S l) = 2 * 2 ^ Z.of_nat l) as Hp by (rewrite Nat2Z.inj_succ, Z.pow_succ_r by lia; lia).
  split; cbn [with_stack bb_writer bb_stack bb_last_key]; rewrite ?Hst; cbn [kids weight open_children length].
  - exists ([page] ++ more). rewrite app_assoc. split; [done|]. by constructor.
  - done.
  - exists [it], (above ++ concat items.*2). cbn [fmap list_fmap concat]. rewrite app_nil_r.
    split_and!; [done|done|done| |done]. constructor; [|constructor]. rewrite Hmore. by do 2 apply item_ok_mono.
  - constructor; [unfold filled; lia|done].
  - done.
  - lia.
  - nia.
  - nia.
  - destruct rest as [|r rest].
    + right. cbn [root_or length] in Hh. destruct (bb_stack b4) as [|m [|m' s4]]; [done| |].
      * split; [done|]. repeat constructor; [done|]. apply Forall_cons in Hfill as [Hm _]. unfold filled in Hm.
        rewrite Hmore, length_app in Hk. rewrite length_app in Hk. cbn [kids length] in Hk. lia.
      * exfalso. rewrite Hmore, !length_app in Hk. cbn [kids length] in Hk.
        apply Forall_cons in Hfill as [Hm Hfill]. apply Forall_cons in Hfill as [Hm' _]. unfold filled in *.
        assert (0 <= kids s4) by (clear; induction s4; cbn [kids]; lia). lia.
    + cbn [root_or length] in *. destruct Hh as [Hh|[Hh Hones]]; [left; lia|right]. split; [lia|]. by constructor.
Qed.

(** The attempts to put a pair into the bottommost node. *)
Definition try_push (n : BuildNode) (key value : list byte) : outcome btree_fail (BuildNode * bool) :=
  '(n, pushed) ← of_option (push n key value);
  if pushed : bool then Ok (n, true) else
  '(n, compressed) ← of_option (compress n);
  if compressed : bool then of_option (push n key value) else Ok (n, false).

Lemma append_internal_eq fuel b n rest key value :
  bb_stack b = n :: rest ->
  append_internal L (S fuel) b key value
  = ('(n', pushed) ← try_push n key value;
     if pushed : bool then Ok (with_stack b (n' :: rest)) else
     b' ← flush_node_with L (append_internal L fuel) (with_stack b (n' :: rest));
     '(n', pushed) ← of_option (push (bn_new (bn_level n)) key value);
     if pushed : bool then Ok (with_stack b' (n' :: bb_stack b')) else Err (BtreeError FailedToPushToNewLeafNode)).
Proof.
  intros Hst. cbn [append_internal]. rewrite Hst. unfold try_push.
  destruct (push n key value) as [[n1 [|]]|]; [done| |done]. cbn [of_option mbind outcome_bind].
  destruct (compress n1) as [[n2 [|]]|]; cbn [of_option mbind outcome_bind]; [|done|done].
  by destruct (push n2 key value) as [[n3 [|]]|].
Qed.

Lemma try_push_ok n kvs key value :
  node_inv n kvs -> length key = L -> length value = VALUE_SZ -> Forall (fun e => be_Z e.1 < be_Z key) kvs ->
  exists n' ok, try_push n key value = Ok (n', ok) /\ bn_level n' = bn_level n
  /\ if ok : bool then node_inv n' (kvs ++ [(key, value)]) else node_inv n' kvs /\ (3 <= length kvs)%nat.
Proof.
  intros Hi Hk Hv Hlt. unfold try_push. destruct (push_ok n kvs key value Hi Hk Hv Hlt) as (n1 & ok & -> & Hl1 & Hok).
  cbn [of_option mbind outcome_bind]. destruct ok; [by exists n1, true|]. destruct Hok as [-> H3].
  destruct (compress_ok n kvs Hi H3) as (n2 & c & -> & Hi2 & Hl2). cbn [of_option mbind outcome_bind].
  destruct c; [|by exists n2, false]. destruct (push_ok n2 kvs key value Hi2 Hk Hv Hlt) as (n3 & ok & -> & Hl3 & Hok).
  exists n3, ok. split_and!; [done|congruence|]. destruct ok; [done|]. by destruct Hok as [-> _].
Qed.

Lemma new_node_ok l (e : kv) :
  length e.1 = L -> length e.2 = VALUE_SZ ->
  exists n, push (bn_new l) e.1 e.2 = Some (n, true) /\ bn_level n = l /\ node_inv n [e].
Proof.
  intros Hk Hv. destruct (push_ok (bn_new l) [] e.1 e.2 (node_inv_new l) Hk Hv) as (n & ok & E & Hl & Hok);
    [apply Forall_nil_2|].
  destruct ok; [|destruct Hok as [_ Hok]; simpl in Hok; lia]. exists n. split_and!; [done|done|].
  cbn [app] in Hok. by rewrite <- surjective_pairing in Hok.
Qed.

Lemma append_internal_ok fuel : forall l b es it,
  stack_holds (bb_writer b) l (bb_stack b) es -> bb_stack b <> [] -> Forall filled (tail (bb_stack b)) ->
  item_ok (bb_writer b) l it -> StronglySorted key_lt (es ++ it.2) -> Forall (fun e : entry => length e.1 = L) (es ++ it.2) ->
  (length (bb_stack b) + Nat.min 1 (open_children (bb_stack b)) <= fuel)%nat ->
  Z.of_nat (length (bb_writer b)) + kids (bb_stack b) < 2 ^ 32 -> weight l (bb_stack b) + 2 ^ Z.of_nat l <= 2 ^ 200 ->
  exists b', append_internal L fuel b it.1.1 it.1.2 = Ok b' /\ appended l b b' (es ++ it.2).
Proof.
  induction fuel as [|fuel IH]; intros l b es it Hst Hne Hft Hit Hs Hlen Hfuel Hk Hw.
  { destruct (bb_stack b); [done|]. cbn [length] in Hfuel. lia. }
  destruct (bb_stack b) as [|n rest] eqn:Est; [done|]. destruct Hst as (items & above & -> & Hl & Hi & Hf & Hab). cbn [tail] in Hft.
  assert (length it.1.1 = L) as Hkl.
  { destruct (item_head _ _ _ Hit) as (v & r & E). rewrite Forall_forall in Hlen. apply (Hlen (it.1.1, v)).
    apply elem_of_app. right. rewrite E. left. }
  pose proof (item_value _ _ _ Hit) as Hvl. pose proof (last_before_sorted _ _ _ _ _ Hf Hit Hs) as Hlt.
  rewrite (append_internal_eq fuel b n rest) by done.
  destruct (try_push_ok n items.*1 it.1.1 it.1.2 Hi Hkl Hvl Hlt) as (n3 & ok & -> & Hl3 & Hok).
  rewrite <- surjective_pairing in Hok. cbn [mbind outcome_bind].
  destruct ok; [eexists; split; [done|by eapply appended_push]|]. destruct Hok as [Hi3 H3]. rewrite length_fmap in H3.
  pose proof (ni_num _ _ Hi) as Hnum. rewrite length_fmap in Hnum. cbn [kids weight open_children length] in *.
  pose proof (weight_nonneg rest (S l)) as Hwr. pose proof (Z.pow_pos_nonneg 2 (Z.of_nat l)) as Hpos.
  assert (2 ^ Z.of_nat (S l) = 2 * 2 ^ Z.of_nat l) as Hp by (rewrite Nat2Z.inj_succ, Z.pow_succ_r by lia; lia).
  assert (0 <= kids rest) as Hkr by (clear; induction rest; cbn [kids]; lia).
  assert (Z.of_nat l < 255) as Hl255 by (apply level_bound; nia).
  destruct (flush_node_ok (append_internal L fuel) l (with_stack b (n3 :: rest)) n3 rest items) as (page & it2 & Hpage & Hit2 & E2 & ->);
    [done|congruence|done|done|by intros ->; simpl in H3; lia|done|cbn [with_stack bb_writer]; lia|].
  cbn [with_stack bb_writer bb_last_key] in *.
  destruct (root_or_holds _ l rest above (stack_holds_mono _ [page] rest (S l) above Hab) Hft) as (Hh & Hne' & Hft' & Ek & Ew).
  destruct (IH (S l) (mkBuilder (bb_writer b ++ [page]) (root_or (Z.of_nat l + 1) rest) (bb_last_key b)) above it2)
    as (b4 & -> & Hap); cbn [bb_writer bb_stack] in *.
  - done.
  - done.
  - done.
  - done.
  - rewrite E2. by apply StronglySorted_app_1_l in Hs.
  - rewrite E2. by apply Forall_app in Hlen as [Hlen _].
  - destruct rest; cbn [root_or length open_children bn_new bn_num_children] in *; lia.
  - rewrite Ek, length_app. cbn [length]. lia.
  - rewrite Ew. nia.
  - rewrite ok_bind. rewrite E2 in Hap. rewrite Hl.
    destruct (new_node_ok (Z.of_nat l) it.1 Hkl Hvl) as (n5 & -> & Hl5 & Hi5). cbn [of_option]. rewrite ok_bind.
    eexists. split; [done|]. by eapply appended_flush.
Qed.

Record built (b : DiskBtreeBuilder) (es : list entry) : Prop := {
  bt_holds : stack_holds (bb_writer b) 0 (bb_stack b) es;
  bt_open : bb_stack b <> [];
  bt_tail : Forall filled (tail (bb_stack b));
  bt_filled : es <> [] -> Forall filled (bb_stack b);
  bt_kids : Z.of_nat (length (bb_writer b)) + kids (bb_stack b) <= Z.of_nat (length es);
  bt_weight : weight 0 (bb_stack b) <= Z.of_nat (length es);
  bt_last_key : bb_last_key b = fst <$> last es;
  bt_pages : Forall (fun p => length p = PAGE_SZ) (bb_writer b)
}.

Lemma built_new : built (builder_new []) [].
Proof.
  split; cbn [builder_new bb_writer bb_stack bb_last_key tail]; try done; try apply Forall_nil_2.
  exists [], []. split_and!; try done; apply node_inv_new.
Qed.

(** Entries the code accepts: keys of the right width in increasing order. *)
Definition entries_ok (es : list entry) : Prop :=
  StronglySorted key_lt es /\ Forall (fun e => length e.1 = L /\ 0 <= e.2 <= MAX_VALUE) es.

Lemma entries_ok_app es1 es2 : entries_ok (es1 ++ es2) -> entries_ok es1 /\ entries_ok es2.
Proof.
  intros [Hs Hf]. apply Forall_app in Hf as [Hf1 Hf2].
  split; (split; [|done]); [by apply StronglySorted_app_1_l in Hs|by apply StronglySorted_app_1_r in Hs].
Qed.

Lemma btree_append_ok b es key value :
  built b es -> entries_ok (es ++ [(key, value)]) -> Z.of_nat (length es) < 2 ^ 31 ->
  exists b', btree_append L b key value = Ok b' /\ built b' (es ++ [(key, value)]).
Proof.
  intros Hb [Hs Hf] Hn. apply Forall_app in Hf as [Hf1 Hf2]. apply Forall_cons in Hf2 as [[Hk Hv] _]. cbn [fst snd] in Hk, Hv.
  destruct Hb as [Hh Ho Ht _ Hki Hw Hlk Hp]. unfold btree_append. rewrite decide_False by lia. rewrite Hlk.
  assert (match fst <$> last es with
    | Some last_key => match bytes_cmp key last_key with
                       | Gt => Ok tt | _ => Err (BtreeError (UnsortedInput key last_key)) end
    | None => Ok tt end = (Ok tt : outcome btree_fail unit)) as ->.
  { destruct (last es) as [e|] eqn:El; [|done]. cbn [fmap option_fmap option_map].
    apply last_Some in El as (es' & ->). rewrite Forall_forall in Hf1.
    rewrite bytes_cmp_Z by (destruct (Hf1 e ltac:(apply elem_of_app; right; left)) as [-> _]; done).
    assert (key_lt e (key, value)) as Hlt.
    { apply (StronglySorted_app_1_elem_of key_lt _ _ _ _ Hs); [apply elem_of_app; right; left|left]. }
    unfold key_lt in Hlt. cbn [fst] in Hlt. destruct (Z.compare_spec (be_Z key) (be_Z e.1)); [lia|lia|done]. }
  rewrite ok_bind. cbn [bb_writer bb_stack]. unfold value_from_u64. rewrite bool_decide_eq_true_2 by lia.
  cbn [ensure mbind option_bind of_option outcome_bind].
  set (b1 := mkBuilder (bb_writer b) (bb_stack b) (Some key)).
  destruct (append_internal_ok (length (bb_stack b) + 2) 0 b1 es ((key, be_bytes 5 value), [(key, value)]))
    as (b' & Hb' & Ha); cbn [b1 bb_writer bb_stack fst snd] in *.
  - done.
  - done.
  - done.
  - split; [by exists value, []|]. by exists value.
  - done.
  - apply Forall_app_2; [|by repeat constructor]. eapply Forall_impl; [exact Hf1|]. by intros e [? _].
  - lia.
  - lia.
  - change (2 ^ Z.of_nat 0) with 1. lia.
  - exists b'. split; [done|]. destruct Ha as [(more & Hm & Hmp) Hlk' Hh' Hfi Ho' Hki' Hw' _ _]. cbn [b1 bb_writer bb_stack bb_last_key] in *.
    split; rewrite ?length_app; cbn [length].
    + done.
    + done.
    + destruct (bb_stack b'); [done|]. by apply Forall_cons in Hfi as [_ Hfi].
    + done.
    + lia.
    + change (2 ^ Z.of_nat 0) with 1 in Hw'. lia.
    + by rewrite Hlk', last_snoc.
    + rewrite Hm. by apply Forall_app_2.
Qed.

Lemma append_all_ok es : forall b done_,
  built b done_ -> entries_ok (done_ ++ es) -> Z.of_nat (length (done_ ++ es)) < 2 ^ 31 ->
  exists b', append_all L b es = Ok b' /\ built b' (done_ ++ es).
Proof.
  induction es as [|[key value] es IH]; intros b done_ Hb Hes Hn.
  - exists b. by rewrite app_nil_r.
  - rewrite length_app in Hn. cbn [length] in Hn.
    change (done_ ++ (key, value) :: es) with (done_ ++ [(key, value)] ++ es) in *. rewrite app_assoc in *.
    destruct (btree_append_ok b done_ key value Hb) as (b1 & Hb1 & Hbt); [by apply entries_ok_app in Hes as [? _]|lia|].
    cbn [append_all]. rewrite Hb1, ok_bind. apply IH; [done|done|]. rewrite !length_app. cbn [length]. lia.
Qed.

(** ** Finishing *)

Definition ones (stack : list BuildNode) : Prop := Forall (fun n => bn_num_children n = 1%nat) stack.

Lemma weight_ones stack : forall l, ones stack -> weight l stack = 2 ^ Z.of_nat l * (2 ^ Z.of_nat (length stack) - 1).
Proof.
  induction stack as [|n rest IH]; intros l Ho; cbn [weight length]; [simpl; lia|].
  apply Forall_cons in Ho as [Hn Ho]. rewrite IH, Hn by done. rewrite !Nat2Z.inj_succ, !Z.pow_succ_r by lia. lia.
Qed.

Lemma weight_filled stack : forall l, Forall filled stack -> 2 ^ Z.of_nat l * (2 ^ Z.of_nat (length stack) - 1) <= weight l stack.
Proof.
  induction stack as [|n rest IH]; intros l Ho; cbn [weight length]; [simpl; lia|].
  apply Forall_cons in Ho as [Hn Ho]. unfold filled in Hn. specialize (IH (S l) Ho).
  rewrite !Nat2Z.inj_succ, !Z.pow_succ_r in * by lia. nia.
Qed.

(** Each round of [finish] makes the stack shorter, except for one in which the
    root overflows and leaves a single entry in every node. *)
Definition rounds (stack : list BuildNode) : Z :=
  2 * Z.of_nat (length stack) + (if decide (ones (tail stack)) then 0 else 1).

Record finishing (l : nat) (b : DiskBtreeBuilder) (es : list entry) : Prop := {
  fi_holds : stack_holds (bb_writer b) l (bb_stack b) es;
  fi_filled : Forall filled (bb_stack b);
  fi_open : bb_stack b <> [];
  fi_pages : Forall (fun p => length p = PAGE_SZ) (bb_writer b);
  fi_kids : Z.of_nat (length (bb_writer b)) + kids (bb_stack b) + rounds (bb_stack b) < 2 ^ 32;
  fi_weight : weight (S l) (tail (bb_stack b)) + 2 ^ Z.of_nat (S l) <= 2 ^ 200
}.

Lemma kids_filled stack : Forall filled stack -> Z.of_nat (length stack) <= kids stack.
Proof. induction 1 as [|n rest Hn _ IH]; cbn [kids length]; [lia|]. unfold filled in Hn. lia. Qed.

Lemma rounds_less l rest s4 :
  Forall filled rest -> rest <> [] ->
  (length s4 = length rest \/ length s4 = S (length rest) /\ ones s4) ->
  (open_children s4 = 1%nat -> weight l s4 <= weight l rest) ->
  forall n, rounds s4 < rounds (n :: rest).
Proof.
  intros Hf Hne Hh Hw n. unfold rounds. cbn [length tail]. destruct Hh as [Hh|[Hh Ho]].
  - rewrite Hh. repeat case_decide; lia.
  - rewrite Hh. rewrite decide_True by (destruct s4; [constructor|by apply Forall_cons in Ho as [_ Ho]]).
    destruct (decide (ones rest)) as [Hr|]; [|lia]. exfalso.
    assert (open_children s4 = 1%nat) as H1 by (destruct s4; [done|by apply Forall_cons in Ho as [? _]]).
    specialize (Hw H1). rewrite !weight_ones in Hw by done. rewrite Hh, Nat2Z.inj_succ, Z.pow_succ_r in Hw by lia.
    pose proof (Z.pow_pos_nonneg 2 (Z.of_nat l)). pose proof (Z.pow_pos_nonneg 2 (Z.of_nat (length rest))). nia.
Qed.

Lemma flush_finishing l b n rest es :
  entries_ok es -> finishing l b es -> bb_stack b = n :: rest -> rest <> [] ->
  exists b', flush_node L b = Ok b' /\ finishing (S l) b' es /\ rounds (bb_stack b') < rounds (bb_stack b).
Proof.
  intros Hes Hfin Est Hne. destruct Hfin as [Hh Hf _ Hp Hk Hw]. rewrite Est in *. cbn [tail] in Hw.
  destruct Hh as (items & above & -> & Hl & Hi & Hio & Hab). pose proof Hf as [Hn Hfr]%Forall_cons.
  pose proof (ni_num _ _ Hi) as Hnum. rewrite length_fmap in Hnum. unfold filled in Hn.
  assert (2 ^ Z.of_nat (S l) = 2 * 2 ^ Z.of_nat l) as Hpw by (rewrite Nat2Z.inj_succ, Z.pow_succ_r by lia; lia).
  assert (2 ^ Z.of_nat (S (S l)) = 2 * 2 ^ Z.of_nat (S l)) as Hpw2 by (rewrite (Nat2Z.inj_succ (S l)), Z.pow_succ_r by lia; lia).
  pose proof (Z.pow_pos_nonneg 2 (Z.of_nat l)) as Hpos. pose proof (weight_nonneg rest (S l)) as Hwr.
  assert (0 <= rounds (n :: rest)) as Hr0 by (unfold rounds; case_decide; lia). pose proof (kids_filled _ Hf) as Hkf. cbn [length] in Hkf.
  assert (Z.of_nat l < 255) as Hl255 by (apply level_bound; lia).
  unfold flush_node. destruct (flush_node_ok (append_internal L (length (bb_stack b) + 1)) l b n rest items)
    as (page & it & Hpage & Hit & E2 & ->); [done|done|done|done|by intros ->; simpl in Hnum; lia|done|cbn [kids] in *; lia|].
  destruct (root_or_holds _ l rest above (stack_holds_mono _ [page] rest (S l) above Hab) Hfr) as (Hh' & Hne' & Hft' & Ek & Ew).
  replace (root_or (Z.of_nat l + 1) rest) with rest in * by by destruct rest. destruct Hes as [Hs Hlen].
  destruct (append_internal_ok (length (bb_stack b) + 1) (S l)
    (mkBuilder (bb_writer b ++ [page]) rest (bb_last_key b)) above it) as (b4 & Hb4 & Hap); cbn [bb_writer bb_stack] in *.
  - done.
  - done.
  - done.
  - done.
  - by rewrite E2.
  - rewrite E2. eapply Forall_impl; [exact Hlen|]. by intros e [? _].
  - rewrite Est. cbn [length]. lia.
  - rewrite length_app. cbn [length kids] in *. lia.
  - lia.
  - exists b4. split; [done|]. rewrite E2 in Hap.
    destruct Hap as [(more & Hm & Hmp) _ Hh4 Hf4 Ho4 Hk4 Hw4 Hfr4 Hht4]. cbn [bb_writer bb_stack] in *.
    assert (0 < open_children rest)%nat as Hopen by (destruct rest; [done|apply Forall_cons in Hfr as [? _]; done]).
    assert (rounds (bb_stack b4) < rounds (n :: rest)) as Hrl by (apply (rounds_less (S l)); auto).
    split; [|done]. split; [done|done|done| | |].
    + rewrite Hm. apply Forall_app_2; [|done]. by apply Forall_app_2; [|constructor].
    + rewrite length_app in Hk4. cbn [length kids] in *. lia.
    + destruct (bb_stack b4) as [|n4 rest4]; [done|]. cbn [tail weight open_children] in *.
      apply Forall_cons in Hf4 as [Hn4 _]. unfold filled in Hn4. specialize (Hfr4 Hopen).
      destruct (decide (bn_num_children n4 = 1%nat)) as [E1|E1]; [specialize (Hfr4 E1); rewrite E1 in *; lia|nia].
Qed.

Lemma finish_loop_ok fuel : forall l b es,
  entries_ok es -> finishing l b es -> rounds (bb_stack b) <= Z.of_nat fuel + 2 ->
  exists b' l' root, finish_loop L fuel b = Ok b' /\ bb_stack b' = [root] /\ finishing l' b' es.
Proof.
  induction fuel as [|fuel IH]; intros l b es Hes Hfin Hr; destruct (bb_stack b) as [|n [|n' rest]] eqn:Est;
    try (by destruct Hfin as [_ _ Ho]); try (exists b, l, n; cbn [finish_loop]; by rewrite Est, decide_False by (cbn [length]; lia)).
  - exfalso. unfold rounds in Hr. cbn [length] in Hr. case_decide; lia.
  - cbn [finish_loop]. rewrite Est, decide_True by (cbn [length]; lia).
    destruct (flush_finishing l b n (n' :: rest) es Hes Hfin Est ltac:(done)) as (b1 & -> & Hfin1 & Hlt).
    rewrite ok_bind. apply (IH (S l)); [done|done|]. rewrite Est in Hlt. lia.
Qed.

Lemma btree_finish_ok fuel b es :
  built b es -> entries_ok es -> es <> [] -> Z.of_nat (length es) < 2 ^ 31 -> (64 <= fuel)%nat ->
  exists root blocks l, btree_finish L fuel b = Ok (root, blocks) /\ subtree blocks l root es
  /\ Forall (fun p => length p = PAGE_SZ) blocks /\ Z.of_nat (length blocks) <= 2 ^ 32.
Proof.
  intros Hb Hes Hne Hn Hfuel. destruct Hb as [Hh Ho _ Hfi Hk Hw _ Hp]. specialize (Hfi Hne).
  pose proof (weight_filled _ 0 Hfi) as Hwf. change (2 ^ Z.of_nat 0) with 1 in Hwf.
  assert (Z.of_nat (length (bb_stack b)) <= 31) as Hlen.
  { destruct (Z.le_gt_cases (Z.of_nat (length (bb_stack b))) 31) as [|Hgt]; [done|].
    assert (2 ^ 32 <= 2 ^ Z.of_nat (length (bb_stack b))) by (apply Z.pow_le_mono_r; lia). lia. }
  assert (rounds (bb_stack b) <= 63) as Hr by (unfold rounds; case_decide; lia).
  destruct (finish_loop_ok fuel 0 b es Hes) as (b' & l & root & Hfl & Est & Hfin).
  { split; try done; [lia|]. destruct (bb_stack b) as [|n rest]; [done|]. cbn [tail weight] in *.
    apply Forall_cons in Hfi as [Hf0 _]. unfold filled in Hf0. change (2 ^ Z.of_nat 0) with 1 in Hw. change (2 ^ Z.of_nat 1) with 2.
    assert (2 ^ 31 + 2 <= 2 ^ 200) by done. lia. }
  { lia. }
  destruct Hfin as [Hh' Hf' _ Hp' Hk' Hw']. rewrite Est in *. destruct Hh' as (items & above & -> & Hl & Hi & Hio & Hab).
  cbn [stack_holds] in Hab. subst above. cbn [app] in *. apply Forall_cons in Hf' as [Hroot _].
  pose proof (ni_num _ _ Hi) as Hnum. rewrite length_fmap in Hnum. unfold filled in Hroot.
  assert (Z.of_nat l < 255) as Hl255.
  { apply level_bound. cbn [tail weight] in Hw'. rewrite Nat2Z.inj_succ, Z.pow_succ_r in Hw' by lia. lia. }
  assert (items <> []) as Hine by (intros ->; simpl in Hnum; lia).
  destruct (pack_ok root items.*1 Hi) as (page & Hpack & Hpl & Hdisk); [by destruct items|lia|].
  exists (Z.of_nat (length (bb_writer b'))), (bb_writer b' ++ [page]), l.
  assert (Z.of_nat (length (bb_writer b')) + 1 < 2 ^ 32) as Hlt.
  { cbn [kids] in Hk'. unfold rounds in Hk'. cbn [length] in Hk'. case_decide; lia. }
  split_and!.
  - unfold btree_finish. rewrite Hfl, ok_bind, Est. cbn [last of_option]. rewrite ok_bind, Hpack. cbn [of_option]. rewrite ok_bind.
    unfold write_blk. rewrite bool_decide_eq_true_2 by done. cbn [ensure mbind option_bind of_option outcome_bind].
    by rewrite wrap_small by (unfold in_u; lia).
  - exists page, items. split_and!; [lia|lia| |done|by rewrite <- Hl| |done].
    + rewrite Nat2Z.id. by apply lookup_snoc_Some; right.
    + eapply Forall_impl; [exact Hio|]. apply item_ok_mono.
  - apply Forall_app_2; [done|]. by constructor.
  - rewrite length_app. cbn [length]. lia.
Qed.
End btree.
