(* ===== verification/DiskBtreeSearch.v ===== *)
(** * Searching the B-tree

    Descending from the root visits, from the search key on and in either
    direction, exactly the entries of the tree; and the tree built from sorted
    entries holds them. *)

From stdpp Require Import sorting.
From S2P Require Import Prelude XlogUtils Key DiskBtree DiskBtreeFacts.

(** ** Binary search *)

Definition node_holds (od : OnDiskNode) (kvs : list kv) : Prop :=
  od_num_children od = length kvs
  /\ forall i e, kvs !! i = Some e -> node_key od i = Some e.1 /\ node_value od i = Some e.2.

(** The place of a key among sorted pairs. *)
Definition place (k : list byte) (kvs : list kv) (r : nat + nat) : Prop :=
  match r with
  | inl i => exists e, kvs !! i = Some e /\ be_Z e.1 = be_Z k
  | inr i => (i <= length kvs)%nat
      /\ forall j e, kvs !! j = Some e -> if decide (j < i)%nat then be_Z e.1 < be_Z k else be_Z k < be_Z e.1
  end.

Lemma sorted_lookup {V} (l : list (list byte * V)) i j a b :
  StronglySorted key_lt l -> l !! i = Some a -> l !! j = Some b -> (i < j)%nat -> be_Z a.1 < be_Z b.1.
Proof.
  intros Hs. revert i j. induction Hs as [|x l Hs IH Hf]; intros i j Hi Hj Hij; [done|].
  destruct j as [|j]; [lia|]. destruct i as [|i]; cbn in Hi, Hj.
  - injection Hi as ->. rewrite Forall_forall in Hf. apply Hf. by apply list_elem_of_lookup_2 in Hj.
  - apply (IH i j); [done|done|lia].
Qed.

Lemma search_loop_ok od kvs k : forall fuel low high,
  node_holds od kvs -> StronglySorted key_lt kvs -> Forall (fun e => length e.1 = length k) kvs ->
  (low <= high <= length kvs)%nat -> (high - low <= fuel)%nat ->
  (forall j e, kvs !! j = Some e -> (j < low)%nat -> be_Z e.1 < be_Z k) ->
  (forall j e, kvs !! j = Some e -> (high <= j)%nat -> be_Z k < be_Z e.1) ->
  exists r, search_loop fuel od k low high (high - low) = Ok r /\ place k kvs r.
Proof.
  intros fuel. induction fuel as [|fuel IH]; intros low high Hod Hs Hw Hlh Hf Hlo Hhi; cbn [search_loop];
    destruct (decide (low < high)%nat) as [Hlt|Hge]; try lia.
  1, 3: exists (inr low); split; [done|]; split; [lia|]; intros j e Hj; case_decide; [by apply (Hlo j)|by apply (Hhi j); [|lia]].
  set (mid := (low + (high - low) / 2)%nat).
  assert (low <= mid < high)%nat as Hmid by (unfold mid; pose proof (Nat.div_lt (high - low) 2); lia).
  destruct (lookup_lt_is_Some_2 kvs mid ltac:(lia)) as [e He]. destruct (proj2 Hod mid e He) as [-> _].
  cbn [of_option]. rewrite ok_bind. rewrite Forall_forall in Hw.
  rewrite bytes_cmp_Z by (apply Hw; by apply list_elem_of_lookup_2 in He).
  rewrite <- Forall_forall in Hw. destruct (Z.compare_spec (be_Z e.1) (be_Z k)) as [E|E|E].
  - exists (inl mid). split; [done|]. by exists e.
  - apply IH; try done; try lia. intros j e' Hj Hjl. destruct (decide (j = mid)) as [->|]; [congruence|].
    pose proof (sorted_lookup kvs j mid e' e Hs Hj He ltac:(lia)). lia.
  - apply IH; try done; try lia. intros j e' Hj Hjl. destruct (decide (j = mid)) as [->|]; [congruence|].
    pose proof (sorted_lookup kvs mid j e e' Hs He Hj ltac:(lia)). lia.
Qed.

Lemma binary_search_ok od kvs k :
  node_holds od kvs -> StronglySorted key_lt kvs -> Forall (fun e => length e.1 = length k) kvs ->
  exists r, binary_search od k = Ok r /\ place k kvs r.
Proof.
  intros Hod Hs Hw. unfold binary_search. destruct Hod as [Hn Hod]. rewrite Hn.
  pose proof (search_loop_ok od kvs k (length kvs) 0 (length kvs)) as H. rewrite Nat.sub_0_r in H.
  apply H; try done; try lia. intros j e Hj Hge. apply lookup_lt_Some in Hj. lia.
Qed.

(** ** What a visit of a list of entries sees *)

Definition visited (dir : VisitDirection) (k : list byte) (es : list entry) : list entry :=
  match dir with
  | Forwards => filter (fun e => be_Z k <= be_Z e.1) es
  | Backwards => rev (filter (fun e => be_Z e.1 <= be_Z k) es)
  end.

Definition node_iter (od : OnDiskNode) (k : list byte) (dir : VisitDirection) : outcome btree_fail (option (list nat)) :=
  match dir with
  | Forwards => iter ← forwards_from od k; Ok (Some iter)
  | Backwards => backwards_from od k
  end.

Lemma filter_concat {A} (P : A -> Prop) `{!forall x, Decision (P x)} (ls : list (list A)) :
  filter P (concat ls) = concat (filter P <$> ls).
Proof. induction ls as [|l ls IH]; [done|]. cbn [concat fmap list_fmap]. by rewrite filter_app, IH. Qed.

Lemma concat_all_nil {A} (ls : list (list A)) : Forall (fun l => l = []) ls -> concat ls = [].
Proof. induction 1 as [|l ls -> _ IH]; [done|]. done. Qed.

Lemma rev_concat {A} (ls : list (list A)) : rev (concat ls) = concat (@rev A <$> rev ls).
Proof.
  induction ls as [|l ls IH]; [done|]. cbn [concat rev]. rewrite rev_app_distr, IH, fmap_app, concat_app. cbn. by rewrite app_nil_r.
Qed.

Lemma StronglySorted_filter' {A} (R : A -> A -> Prop) (P : A -> Prop) `{!forall x, Decision (P x)} (xs : list A) :
  StronglySorted R xs -> StronglySorted R (filter P xs).
Proof.
  induction 1 as [|x xs Hs IH Hf]; [constructor|]. rewrite filter_cons. destruct (decide (P x)); [|done].
  constructor; [done|]. apply Forall_forall. intros y [_ Hy]%list_elem_of_filter. rewrite Forall_forall in Hf. by apply Hf.
Qed.

(** Indices taken in order name the items they are of. *)
Lemma Forall2_seq {A} (items : list A) i :
  (i <= length items)%nat -> Forall2 (fun j it => items !! j = Some it) (seq i (length items - i)) (drop i items).
Proof.
  intros Hi. apply Forall2_same_length_lookup_2; [rewrite length_seq, length_drop; lia|].
  intros j x y [-> Hj]%lookup_seq Hy. by rewrite lookup_drop in Hy.
Qed.

Lemma Forall2_rev {A B} (R : A -> B -> Prop) l k : Forall2 R l k -> Forall2 R (rev l) (rev k).
Proof. induction 1 as [|x y l k Hxy _ IH]; [constructor|]. cbn [rev]. by apply Forall2_app; [|repeat constructor]. Qed.

Lemma Forall2_rev_seq {A} (items : list A) i :
  (i <= length items)%nat -> Forall2 (fun j it => items !! j = Some it) (rev (seq 0 i)) (rev (take i items)).
Proof.
  intros Hi. apply Forall2_rev. apply Forall2_same_length_lookup_2; [rewrite length_seq, length_take; lia|].
  intros j x y [-> Hj]%lookup_seq Hy. apply lookup_take_Some in Hy as [Hy _]. done.
Qed.

(** ** Nodes *)

Section nodes.
Context (blocks : list (list byte)) (k : list byte).

(** Entries of an item before the next one, and from its key on. *)
Lemma item_bounds l items i it e :
  Forall (item_ok blocks l) items -> StronglySorted key_lt (concat items.*2) -> items !! i = Some it -> e ∈ it.2 ->
  be_Z it.1.1 <= be_Z e.1
  /\ forall j it', items !! j = Some it' -> (i < j)%nat -> be_Z e.1 < be_Z it'.1.1.
Proof.
  intros Hf Hs Hi He. rewrite Forall_forall in Hf.
  destruct (item_head _ _ _ (Hf it ltac:(by apply list_elem_of_lookup_2 in Hi))) as (v & r & E). split.
  - rewrite <- (take_drop_middle items i it Hi), fmap_app, concat_app in Hs. apply StronglySorted_app_1_r in Hs.
    cbn [fmap list_fmap concat] in Hs. apply StronglySorted_app_1_l in Hs. rewrite E in Hs, He.
    apply StronglySorted_cons in Hs as [Hfa _]. rewrite Forall_forall in Hfa.
    apply elem_of_cons in He as [->|He]; [done|]. pose proof (Hfa e He). unfold key_lt in *. cbn [fst] in *. lia.
  - intros j it' Hj Hij. destruct (item_head _ _ _ (Hf it' ltac:(by apply list_elem_of_lookup_2 in Hj))) as (v' & r' & E').
    rewrite <- (take_drop (S i) items), fmap_app, concat_app in Hs.
    apply (StronglySorted_app_1_elem_of key_lt _ _ e (it'.1.1, v') Hs); apply list_elem_of_In, in_concat.
    + exists it.2. split; apply list_elem_of_In; [|done]. apply (list_elem_of_fmap_2 snd).
      apply (list_elem_of_lookup_2 _ i). by rewrite lookup_take_lt by lia.
    + exists it'.2. split; apply list_elem_of_In; [|rewrite E'; left]. apply (list_elem_of_fmap_2 snd).
      apply (list_elem_of_lookup_2 _ (j - S i)). rewrite lookup_drop. replace (S i + (j - S i))%nat with j by lia. done.
Qed.

Lemma place_before l items r i it e :
  Forall (item_ok blocks l) items -> StronglySorted key_lt (concat items.*2) -> place k items.*1 r ->
  items !! i = Some it -> e ∈ it.2 ->
  match r with
  | inl j => ((i < j)%nat -> be_Z e.1 < be_Z k) /\ ((j < i)%nat -> be_Z k < be_Z e.1)
             /\ (j = i -> be_Z k <= be_Z e.1 /\ be_Z it.1.1 <= be_Z k)
  | inr j => ((S i < j)%nat -> be_Z e.1 < be_Z k) /\ ((j <= i)%nat -> be_Z k < be_Z e.1)
             /\ ((i < j)%nat -> be_Z it.1.1 < be_Z k)
  end.
Proof.
  intros Hf Hs Hp Hi He. destruct (item_bounds l items i it e Hf Hs Hi He) as [Hge Hlt].
  destruct r as [j|j]; cbn [place] in Hp.
  - destruct Hp as (e' & Hj & Ek). rewrite list_lookup_fmap in Hj. destruct (items !! j) as [it'|] eqn:Ej; [|done].
    injection Hj as <-. split_and!.
    + intros Hij. specialize (Hlt j it' Ej Hij). lia.
    + intros Hji. destruct (item_head _ _ _ (proj1 (Forall_forall _ _) Hf it' ltac:(by apply list_elem_of_lookup_2 in Ej))) as (v & r & E).
      destruct (item_bounds l items j it' (it'.1.1, v) Hf Hs Ej ltac:(rewrite E; left)) as [_ H].
      specialize (H i it Hi Hji). cbn [fst] in H. lia.
    + intros ->. assert (it' = it) as -> by congruence. lia.
  - destruct Hp as [Hjn Hp]. split_and!.
    + intros Hij. destruct (lookup_lt_is_Some_2 items (S i)) as [it' Hi']; [rewrite length_fmap in Hjn; lia|].
      specialize (Hlt (S i) it' Hi' ltac:(lia)). specialize (Hp (S i) it'.1). rewrite list_lookup_fmap, Hi' in Hp.
      specialize (Hp eq_refl). rewrite decide_True in Hp by lia. lia.
    + intros Hji. specialize (Hp i it.1). rewrite list_lookup_fmap, Hi in Hp. specialize (Hp eq_refl).
      rewrite decide_False in Hp by lia. lia.
    + intros Hij. specialize (Hp i it.1). rewrite list_lookup_fmap, Hi in Hp. specialize (Hp eq_refl).
      rewrite decide_True in Hp by lia. lia.
Qed.

Definition reaches (dir : VisitDirection) (es : list entry) : Prop :=
  dir = Backwards -> exists e, e ∈ es /\ be_Z e.1 <= be_Z k.

(** The entries of a node that an iteration over [iter] sees are those visited. *)
Definition plan (dir : VisitDirection) (l : nat) (items : list item) (iter : list nat) : Prop :=
  exists its, Forall2 (fun i it => items !! i = Some it) iter its
  /\ visited dir k (concat items.*2) = concat (visited dir k <$> its.*2)
  /\ Forall (fun it => reaches dir it.2) its
  /\ (l = 0%nat -> Forall (fun it => visited dir k it.2 = it.2) its).

Lemma leaf_single it : item_ok blocks 0 it -> exists v, it.2 = [(it.1.1, v)].
Proof. intros [_ (v & _ & _ & E)]. by exists v. Qed.

Lemma elem_drop {A} (l : list A) i x : x ∈ drop i l -> exists j, (i <= j)%nat /\ l !! j = Some x.
Proof. intros (j & Hj)%list_elem_of_lookup_1. rewrite lookup_drop in Hj. exists (i + j)%nat. split; [lia|done]. Qed.

Lemma elem_take {A} (l : list A) i x : x ∈ take i l -> exists j, (j < i)%nat /\ l !! j = Some x.
Proof. intros (j & Hj)%list_elem_of_lookup_1. apply lookup_take_Some in Hj as [Hj Hlt]. by exists j. Qed.

Lemma filter_single {V} (P : list byte * V -> Prop) `{!forall x, Decision (P x)} x : P x -> filter P [x] = [x].
Proof. intros Hx. by rewrite filter_cons_True. Qed.

Lemma forwards_plan l od items :
  node_holds od items.*1 -> od_level od = Z.of_nat l -> Forall (item_ok blocks l) items ->
  StronglySorted key_lt (concat items.*2) -> Forall (fun e => length e.1 = length k) items.*1 ->
  exists iter, forwards_from od k = Ok iter /\ plan Forwards l items iter.
Proof.
  intros Hod Hl Hf Hs Hw. unfold forwards_from.
  destruct (binary_search_ok od items.*1 k Hod (items_sorted _ _ _ Hf Hs) Hw) as (r & -> & Hp). rewrite ok_bind.
  set (idx := match r with inl idx => idx | inr idx => _ end). eexists. split; [done|].
  destruct Hod as [-> _]. rewrite length_fmap.
  assert (idx <= length items)%nat as Hidx.
  { unfold idx. destruct r as [j|j]; cbn [place] in Hp.
    - destruct Hp as (e & Hj & _). apply lookup_lt_Some in Hj. rewrite length_fmap in Hj. lia.
    - destruct Hp as [Hj _]. rewrite length_fmap in Hj. case_decide; lia. }
  assert (forall i it e, items !! i = Some it -> e ∈ it.2 -> (i < idx)%nat -> be_Z e.1 < be_Z k) as Hbelow.
  { intros i it e Hi He Hlt. pose proof (place_before l items r i it e Hf Hs Hp Hi He) as H. unfold idx in Hlt.
    destruct r as [j|j]; [by apply H|]. destruct H as (H1 & _ & H3). case_decide as Hl0; [|apply H1; lia].
    assert (l = 0%nat) as -> by lia. rewrite Forall_forall in Hf.
    destruct (leaf_single it) as (v & E); [apply Hf; by apply list_elem_of_lookup_2 in Hi|].
    rewrite E in He. apply list_elem_of_singleton in He as ->. by apply H3. }
  exists (drop idx items). split_and!; [by apply Forall2_seq| | |].
  - cbn [visited]. rewrite filter_concat. rewrite <- (take_drop idx items) at 1. rewrite !fmap_app, concat_app.
    rewrite concat_all_nil; [done|]. apply Forall_fmap, Forall_fmap, Forall_forall. intros it (i & Hi & Hit)%elem_take. cbn.
    apply filter_none. intros e He. specialize (Hbelow i it e Hit He Hi). lia.
  - apply Forall_forall. intros it _ Hd. done.
  - intros ->. apply Forall_forall. intros it (i & Hi & Hit)%elem_drop. rewrite Forall_forall in Hf.
    destruct (leaf_single it) as (v & E); [apply Hf; by apply list_elem_of_lookup_2 in Hit|]. rewrite E. cbn [visited].
    apply filter_single. cbn [fst]. rewrite <- Forall_forall in Hf.
    pose proof (place_before 0 items r i it (it.1.1, v) Hf Hs Hp Hit ltac:(rewrite E; left)) as H. unfold idx in Hi. cbn [fst] in H.
    destruct r as [j|j]; [|rewrite decide_True in Hi by lia; destruct H as (_ & H & _); specialize (H Hi); lia].
    destruct H as (_ & H2 & H3). destruct (decide (j = i)) as [->|]; [by apply H3|]. specialize (H2 ltac:(lia)). lia.
Qed.

Lemma backwards_plan l od items :
  node_holds od items.*1 -> Forall (item_ok blocks l) items ->
  StronglySorted key_lt (concat items.*2) -> Forall (fun e => length e.1 = length k) items.*1 ->
  (exists iter, backwards_from od k = Ok (Some iter) /\ plan Backwards l items iter)
  \/ backwards_from od k = Ok None /\ visited Backwards k (concat items.*2) = [].
Proof.
  intros Hod Hf Hs Hw. unfold backwards_from.
  destruct (binary_search_ok od items.*1 k Hod (items_sorted _ _ _ Hf Hs) Hw) as (r & -> & Hp). rewrite ok_bind.
  assert (forall n, (n <= length items)%nat ->
    (forall i it e, items !! i = Some it -> e ∈ it.2 -> (n <= i)%nat -> be_Z k < be_Z e.1) ->
    (forall i it, items !! i = Some it -> (i < n)%nat -> be_Z it.1.1 <= be_Z k) ->
    plan Backwards l items (rev (seq 0 n))) as Hplan.
  { intros n Hn Habove Hbelow. exists (rev (take n items)). split_and!; [by apply Forall2_rev_seq| | |].
    - cbn [visited]. rewrite filter_concat. rewrite <- (take_drop n items) at 1. rewrite !fmap_app, concat_app.
      rewrite (concat_all_nil (_ <$> (drop n items).*2)).
      + rewrite app_nil_r, rev_concat. f_equal.
        change (@fmap list _ ?A ?B ?f ?l) with (map f l). rewrite <- !map_rev, !map_map. done.
      + apply Forall_fmap, Forall_fmap, Forall_forall. intros it (i & Hi & Hit)%elem_drop. cbn. apply filter_none.
        intros e He. specialize (Habove i it e Hit He Hi). lia.
    - apply Forall_forall. intros it Hit _. apply list_elem_of_In, in_rev, list_elem_of_In, elem_take in Hit as (i & Hi & Hit).
      rewrite Forall_forall in Hf. destruct (item_head _ _ _ (Hf it ltac:(by apply list_elem_of_lookup_2 in Hit))) as (v & r' & E).
      exists (it.1.1, v). rewrite E. split; [left|]. by apply (Hbelow i).
    - intros ->. apply Forall_forall. intros it Hit. apply list_elem_of_In, in_rev, list_elem_of_In, elem_take in Hit as (i & Hi & Hit).
      rewrite Forall_forall in Hf. destruct (leaf_single it) as (v & E); [apply Hf; by apply list_elem_of_lookup_2 in Hit|].
      rewrite E. cbn [visited]. rewrite filter_single; [done|]. cbn [fst]. by apply (Hbelow i). }
  assert (forall i it, items !! i = Some it -> exists e, e ∈ it.2 /\ e.1 = it.1.1) as Hhead.
  { intros i it Hi. rewrite Forall_forall in Hf. destruct (item_head _ _ _ (Hf it ltac:(by apply list_elem_of_lookup_2 in Hi))) as (v & r' & E).
    exists (it.1.1, v). rewrite E. split; [left|done]. }
  destruct r as [j|[|j]].
  - left. eexists. split; [done|]. apply Hplan.
    + destruct Hp as (e & Hj & _). apply lookup_lt_Some in Hj. rewrite length_fmap in Hj. lia.
    + intros i it e Hi He Hge. pose proof (place_before l items _ i it e Hf Hs Hp Hi He) as (_ & H & _). apply H. lia.
    + intros i it Hi Hlt. destruct (Hhead i it Hi) as (e & He & Ee).
      pose proof (place_before l items _ i it e Hf Hs Hp Hi He) as (H1 & _ & H3). rewrite Ee in *.
      destruct (decide (j = i)) as [E|]; [by apply H3|]. specialize (H1 ltac:(lia)). lia.
  - right. split; [done|]. cbn [visited]. rewrite filter_none; [done|]. intros e He.
    apply list_elem_of_In, in_concat in He as (es & Hes & He). apply list_elem_of_In in Hes, He.
    apply list_elem_of_fmap in Hes as (it & -> & Hit). apply list_elem_of_lookup_1 in Hit as (i & Hi).
    pose proof (place_before l items _ i it e Hf Hs Hp Hi He) as (_ & H & _). specialize (H ltac:(lia)). lia.
  - left. eexists. split; [done|]. apply Hplan.
    + destruct Hp as [Hj _]. rewrite length_fmap in Hj. lia.
    + intros i it e Hi He Hge. pose proof (place_before l items _ i it e Hf Hs Hp Hi He) as (_ & H & _). apply H. lia.
    + intros i it Hi Hlt. destruct (Hhead i it Hi) as (e & He & _).
      pose proof (place_before l items _ i it e Hf Hs Hp Hi He) as (_ & _ & H). specialize (H ltac:(lia)). lia.
Qed.
End nodes.

(** ** Visiting a subtree *)

Section visit.
Context (blocks : list (list byte)) (read_blk : Z -> outcome btree_fail (list byte)) (start_blk : Z).
Context (Hread : forall i page, blocks !! i = Some page -> read_blk (start_blk + Z.of_nat i) = Ok page).
Context (Hfit : start_blk + Z.of_nat (length blocks) <= 2 ^ 32).
Context (k : list byte) (dir : VisitDirection).
Context {St : Type} (visitor : St -> list byte -> Z -> St * bool).

Fixpoint fold_visit (s : St) (es : list entry) : St * bool :=
  match es with
  | [] => (s, true)
  | e :: es => let '(s, go_on) := visitor s e.1 e.2 in if go_on then fold_visit s es else (s, false)
  end.

Lemma fold_visit_app es1 es2 s :
  fold_visit s (es1 ++ es2) = let '(s', go_on) := fold_visit s es1 in if go_on then fold_visit s' es2 else (s', false).
Proof.
  revert s. induction es1 as [|e es1 IH]; intros s; [done|]. cbn [app fold_visit].
  destruct (visitor s e.1 e.2) as [s' [|]]; [apply IH|done].
Qed.

Definition entries_width (es : list entry) : Prop := Forall (fun e => length e.1 = length k) es.

(** What the node of a subtree looks like to the reader. *)
Lemma read_node_ok l blk es :
  subtree blocks l blk es -> StronglySorted key_lt es -> entries_width es ->
  exists od items, read_node read_blk start_blk blk = Ok od /\ od_level od = Z.of_nat l
  /\ node_holds od items.*1 /\ Forall (item_ok blocks l) items /\ es = concat items.*2
  /\ Forall (fun e => length e.1 = length k) items.*1.
Proof.
  intros (page & items & Hb & Hpg & Hne & (od & Hdp & Hlv & Hn & Hod) & Hf & ->) Hs Hw.
  exists od, items. pose proof (lookup_lt_Some _ _ _ Hpg) as Hlt. split_and!; [|done|done|done|done|].
  - unfold read_node. rewrite bool_decide_eq_true_2 by lia. cbn [ensure of_option]. rewrite ok_bind.
    specialize (Hread _ _ Hpg). rewrite Z2Nat.id in Hread by lia. rewrite Hread, ok_bind, Hdp, ok_bind.
    rewrite bool_decide_eq_true_2 by (rewrite Hn, length_fmap; destruct items; [done|cbn [length]; lia]). done.
  - apply Forall_fmap, Forall_forall. intros it Hit. cbn. unfold entries_width in Hw. rewrite Forall_forall in Hf. rewrite Forall_forall in Hw.
    destruct (item_head _ _ _ (Hf it Hit)) as (v & r & E). apply (Hw (it.1.1, v)). apply list_elem_of_In, in_concat.
    exists it.2. split; apply list_elem_of_In; [by apply (list_elem_of_fmap_2 snd)|rewrite E; left].
Qed.

Lemma visit_leaf od items : forall iter its s,
  od_level od = 0 -> node_holds od items.*1 -> Forall (item_ok blocks 0) items ->
  Forall2 (fun i it => items !! i = Some it) iter its ->
  visit_node visitor od iter s
  = Ok (let '(s', go_on) := fold_visit s (concat its.*2) in (s', if go_on : bool then Exhausted else Stopped)).
Proof.
  intros iter its s Hl Hod Hf Hi. revert s. induction Hi as [|i it iter its Hi _ IH]; intros s; [done|].
  cbn [visit_node]. destruct (proj2 Hod i it.1) as [-> ->]; [by rewrite list_lookup_fmap, Hi|].
  cbn [of_option]. rewrite !ok_bind, decide_True by done. rewrite Forall_forall in Hf.
  destruct (Hf it ltac:(by apply list_elem_of_lookup_2 in Hi)) as [_ (v & Hv & E1 & E2)].
  unfold value_to_u64. rewrite E1, be_Z_be_bytes_small by (unfold in_u, MAX_VALUE in *; lia).
  cbn [fmap list_fmap concat]. rewrite E2. cbn [app fold_visit fst snd].
  destruct (visitor s it.1.1 v) as [s' [|]]; [apply IH|done].
Qed.

Definition then_visit (fuel : nat) (stack : list (Z * option (list nat))) (r : St * bool) : outcome btree_fail (St * bool) :=
  if r.2 then visit_loop read_blk start_blk visitor fuel k dir stack r.1 else Ok (r.1, false).

Lemma visit_children l blk od items :
  read_node read_blk start_blk blk = Ok od -> od_level od = Z.of_nat (S l) -> node_holds od items.*1 ->
  Forall (item_ok blocks (S l)) items ->
  (forall blk' es, subtree blocks l blk' es -> (exists it, it ∈ items /\ es = it.2) -> reaches k dir es ->
     exists n, forall fuel stack s, visit_loop read_blk start_blk visitor (n + fuel) k dir ((blk', None) :: stack) s
       = then_visit fuel stack (fold_visit s (visited dir k es))) ->
  forall iter its, Forall2 (fun i it => items !! i = Some it) iter its -> Forall (fun it => reaches k dir it.2) its ->
  exists n, forall fuel stack s, visit_loop read_blk start_blk visitor (S n + fuel) k dir ((blk, Some iter) :: stack) s
    = then_visit fuel stack (fold_visit s (concat (visited dir k <$> its.*2))).
Proof.
  intros Hrd Hl Hod Hf IH iter its Hi. induction Hi as [|i it iter its Hi _ IHi]; intros Hre.
  - exists 0%nat. intros fuel stack s. cbn [Nat.add visit_loop]. rewrite Hrd, !ok_bind. cbn [visit_node]. by rewrite ok_bind.
  - apply Forall_cons in Hre as [Hit Hre]. destruct (IHi Hre) as (n2 & H2). pose proof (list_elem_of_lookup_2 _ _ _ Hi) as Hin.
    rewrite Forall_forall in Hf. destruct (Hf it Hin) as [_ (blk' & Ev & Hsub)].
    destruct (IH blk' it.2 Hsub ltac:(by exists it) Hit) as (n1 & H1). exists (n1 + S n2)%nat. intros fuel stack s.
    cbn [Nat.add visit_loop]. rewrite Hrd, !ok_bind. cbn [visit_node].
    destruct (proj2 Hod i it.1) as [-> ->]; [by rewrite list_lookup_fmap, Hi|]. cbn [of_option]. rewrite !ok_bind.
    rewrite decide_False by lia. destruct Hsub as (page & its' & Hb & _). rewrite Ev, blknum_round_trip by lia.
    cbn [of_option]. rewrite !ok_bind. rewrite <- Nat.add_assoc, H1. cbn [fmap list_fmap concat]. rewrite fold_visit_app.
    unfold then_visit at 1. destruct (fold_visit s (visited dir k it.2)) as [s' [|]]; cbn [fst snd]; [apply H2|done].
Qed.

Lemma node_plan l od items :
  od_level od = Z.of_nat l -> node_holds od items.*1 -> Forall (item_ok blocks l) items ->
  StronglySorted key_lt (concat items.*2) -> Forall (fun e => length e.1 = length k) items.*1 ->
  reaches k dir (concat items.*2) ->
  exists iter, node_iter od k dir = Ok (Some iter) /\ plan k dir l items iter.
Proof.
  intros Hl Hod Hf Hs Hwi Hre. unfold node_iter. destruct dir.
  - destruct (forwards_plan blocks k l od items Hod Hl Hf Hs Hwi) as (iter & -> & Hp). by exists iter.
  - destruct (backwards_plan blocks k l od items Hod Hf Hs Hwi) as [(iter & -> & Hp)|[_ Hnil]]; [by exists iter|].
    exfalso. destruct (Hre eq_refl) as (e & He & Hle). apply (not_elem_of_nil e). rewrite <- Hnil. cbn [visited].
    apply list_elem_of_In. rewrite <- in_rev. apply list_elem_of_In, list_elem_of_filter. done.
Qed.

Lemma visit_subtree l : forall blk es,
  subtree blocks l blk es -> StronglySorted key_lt es -> entries_width es -> reaches k dir es ->
  exists n, forall fuel stack s, visit_loop read_blk start_blk visitor (n + fuel) k dir ((blk, None) :: stack) s
    = then_visit fuel stack (fold_visit s (visited dir k es)).
Proof.
  induction l as [|l IH]; intros blk es Hsub Hs Hw Hre;
    destruct (read_node_ok _ _ _ Hsub Hs Hw) as (od & items & Hrd & Hl & Hod & Hf & -> & Hwi).
  all: destruct (node_plan _ od items Hl Hod Hf Hs Hwi Hre) as (iter & Hiter & its & H2 & Hv & Hr & Hleaf).
  all: assert (forall fuel stack s, visit_loop read_blk start_blk visitor (S fuel) k dir ((blk, None) :: stack) s
    = visit_loop read_blk start_blk visitor (S fuel) k dir ((blk, Some iter) :: stack) s) as Hstep
    by (intros fuel stack s; cbn [visit_loop]; rewrite Hrd, !ok_bind; unfold node_iter in Hiter;
        destruct dir; rewrite Hiter; by rewrite ok_bind).
  - exists 1%nat. intros fuel stack s. cbn [Nat.add]. rewrite Hstep. cbn [visit_loop]. rewrite Hrd, !ok_bind.
    rewrite (visit_leaf od items iter its s Hl Hod Hf H2), ok_bind, Hv. specialize (Hleaf eq_refl).
    assert (visited dir k <$> its.*2 = its.*2) as ->.
    { clear -Hleaf. induction Hleaf as [|it its Hit _ IH]; [done|]. cbn [fmap list_fmap]. by rewrite Hit, IH. }
    unfold then_visit. by destruct (fold_visit s (concat its.*2)) as [s' [|]].
  - destruct (visit_children l blk od items Hrd Hl Hod Hf) with (iter := iter) (its := its) as (n & Hn); [|done|done|].
    + intros blk' es Hsub' (it & Hin & ->) Hre'. apply IH; [done| | |done].
      * apply list_elem_of_split in Hin as (l1 & l2 & ->). rewrite fmap_app, concat_app in Hs. apply StronglySorted_app_1_r in Hs.
        cbn [fmap list_fmap concat] in Hs. by apply StronglySorted_app_1_l in Hs.
      * apply list_elem_of_split in Hin as (l1 & l2 & ->). unfold entries_width in *. rewrite fmap_app, concat_app in Hw.
        apply Forall_app in Hw as [_ Hw]. cbn [fmap list_fmap concat] in Hw. by apply Forall_app in Hw as [Hw _].
    + exists (S n). intros fuel stack s. cbn [Nat.add]. rewrite Hstep.
      change (S (n + fuel)) with (S n + fuel)%nat. by rewrite Hn, <- Hv.
Qed.
End visit.

(** ** The whole tree *)

Section reader.
Context (blocks : list (list byte)) (read_blk : Z -> outcome btree_fail (list byte)) (start_blk root_blk : Z).
Context (Hread : forall i page, blocks !! i = Some page -> read_blk (start_blk + Z.of_nat i) = Ok page).
Context (Hfit : start_blk + Z.of_nat (length blocks) <= 2 ^ 32).
Context (l : nat) (es : list entry) (Hsub : subtree blocks l root_blk es).
Context (k : list byte) (Hs : StronglySorted key_lt es) (Hw : entries_width k es).

Lemma visited_empty dir : reaches k dir es \/ dir = Backwards /\ visited dir k es = [].
Proof.
  destruct dir; [left; done|]. destruct (visited Backwards k es) as [|e r] eqn:E; [by right|]. left. intros _.
  assert (e ∈ visited Backwards k es) as He by (rewrite E; left). cbn [visited] in He.
  apply list_elem_of_In, in_rev, list_elem_of_In, list_elem_of_filter in He as [Hle He]. by exists e.
Qed.

Lemma backwards_iter od iter : backwards_from od k = Ok (Some iter) -> iter <> [].
Proof.
  unfold backwards_from. destruct (binary_search od k) as [[j|[|j]]|e|]; try done; rewrite ok_bind; intros [= <-] E;
    apply (f_equal length) in E; rewrite length_rev, length_seq in E; cbn [length] in E; lia.
Qed.

(** [visit] hands the visitor the entries of the tree on the asked side of the
    search key, nearest first, until the visitor stops it; walking backwards
    from before the first key reports a stop. *)
Definition visit_result {St} (visitor : St -> list byte -> Z -> St * bool) (dir : VisitDirection) (s : St) : St * bool :=
  match dir, visited dir k es with
  | Backwards, [] => (s, false)
  | _, vs => fold_visit visitor s vs
  end.

Lemma visit_result_reaches {St} (visitor : St -> list byte -> Z -> St * bool) dir s :
  reaches k dir es -> visit_result visitor dir s = fold_visit visitor s (visited dir k es).
Proof.
  intros Hre. unfold visit_result. destruct dir; [done|]. destruct (visited Backwards k es) as [|e r] eqn:E; [|done]. exfalso.
  destruct (Hre eq_refl) as (e & He & Hle). apply (not_elem_of_nil e). rewrite <- E. cbn [visited].
  apply list_elem_of_In. rewrite <- in_rev. by apply list_elem_of_In, list_elem_of_filter.
Qed.

Lemma visit_ok {St} (visitor : St -> list byte -> Z -> St * bool) dir :
  exists n, forall fuel s, (n <= fuel)%nat ->
  visit read_blk start_blk root_blk visitor fuel k dir s = Ok (visit_result visitor dir s).
Proof.
  unfold visit. destruct (visited_empty dir) as [Hre|[-> Hnil]].
  - destruct (visit_subtree blocks read_blk start_blk Hread Hfit k dir visitor l root_blk es Hsub Hs Hw Hre) as (n & Hn).
    exists n. intros fuel s Hfu. replace fuel with (n + (fuel - n))%nat by lia. rewrite Hn. unfold then_visit.
    rewrite visit_result_reaches by done.
    destruct (fold_visit visitor s (visited dir k es)) as [s' [|]]; cbn [fst snd]; [|done]. by destruct (fuel - n)%nat.
  - unfold visit_result. rewrite Hnil. exists 1%nat. intros [|fuel] s Hfu; [lia|].
    destruct (read_node_ok blocks read_blk start_blk Hread Hfit k l root_blk es Hsub Hs Hw)
      as (od & items & Hrd & Hl & Hod & Hf & E & Hwi). subst es. cbn [visit_loop]. rewrite Hrd, ok_bind.
    destruct (backwards_plan blocks k l od items Hod Hf Hs Hwi) as [(iter & Hb & its & H2 & Hv & Hr & _)|[-> _]];
      [|by rewrite ok_bind]. exfalso. pose proof (backwards_iter od iter Hb) as Hne. rewrite Hnil in Hv.
    destruct H2 as [|i it iter its _ _]; [done|]. apply Forall_cons in Hr as [Hit _].
    destruct (Hit eq_refl) as (e & He & Hle). apply (not_elem_of_nil e). rewrite Hv. cbn [fmap list_fmap concat visited].
    apply elem_of_app. left. apply list_elem_of_In. rewrite <- in_rev. by apply list_elem_of_In, list_elem_of_filter.
Qed.

(** A visitor that collects what it is shown. *)
Definition collect_entries (acc : list entry) (key : list byte) (value : Z) : list entry * bool := (acc ++ [(key, value)], true).

Lemma fold_collect acc vs : fold_visit collect_entries acc vs = (acc ++ vs, true).
Proof.
  revert acc. induction vs as [|[key v] vs IH]; intros acc; [by rewrite app_nil_r|].
  cbn [fold_visit collect_entries fst snd]. by rewrite IH, <- app_assoc.
Qed.

Lemma stream_node_visit od iter : forall acc acc' st,
  visit_node collect_entries od iter acc = Ok (acc', st) -> exists vs, stream_node od iter = (vs, Ok st) /\ acc' = acc ++ vs.
Proof.
  induction iter as [|i iter IH]; intros acc acc' st; cbn [visit_node stream_node].
  - intros [= <- <-]. exists []. by rewrite app_nil_r.
  - destruct (node_key od i) as [key|]; [|done]. destruct (node_value od i) as [v|]; [|done]. cbn [of_option]. rewrite !ok_bind.
    destruct (decide (od_level od = 0)).
    + cbn [collect_entries]. intros (vs & -> & ->)%IH. eexists. split; [done|]. by rewrite <- app_assoc.
    + destruct (value_to_blknum v) as [child|]; [|done]. cbn [of_option]. rewrite !ok_bind. intros [= <- <-].
      exists []. by rewrite app_nil_r.
Qed.

Lemma stream_loop_visit fuel : forall stack acc acc' b,
  visit_loop read_blk start_blk collect_entries fuel k Forwards stack acc = Ok (acc', b) ->
  b = true -> exists vs, stream_loop read_blk start_blk fuel k stack = (vs, Ok tt) /\ acc' = acc ++ vs.
Proof.
  induction fuel as [|fuel IH]; intros [|[blk opt] stack] acc acc' b H ->; cbn [visit_loop stream_loop] in *; try done.
  1,2: injection H as <-; exists []; by rewrite app_nil_r.
  destruct (read_node read_blk start_blk blk) as [od|e|]; [|done|done]. rewrite ok_bind in H. rewrite ok_bind.
  assert (exists iter, match opt with Some iter => Ok iter | None => forwards_from od k end = Ok iter
    /\ (visit_node collect_entries od iter acc ≫= fun '(s, step) => match step with
        | Exhausted => visit_loop read_blk start_blk collect_entries fuel k Forwards stack s
        | Stopped => Ok (s, false)
        | Descend iter child => visit_loop read_blk start_blk collect_entries fuel k Forwards ((child, None) :: (blk, Some iter) :: stack) s
        end) = Ok (acc', true)) as (iter & -> & H').
  { destruct opt as [iter|]; [rewrite ok_bind in H; by exists iter|].
    destruct (forwards_from od k) as [iter|e|]; [|done|done]. rewrite !ok_bind in H. by exists iter. }
  clear H. rewrite !ok_bind. destruct (visit_node collect_entries od iter acc) as [[s st]|e|] eqn:Ev; [|done|done]. rewrite ok_bind in H'.
  destruct (stream_node_visit _ _ _ _ _ Ev) as (vs & -> & ->).
  destruct st as [| |iter' child]; [|done|]; destruct (IH _ _ _ _ H' eq_refl) as (vs' & -> & ->);
    eexists; (split; [done|]); by rewrite <- app_assoc.
Qed.

Lemma into_stream_ok :
  exists n, forall fuel, (n <= fuel)%nat -> into_stream read_blk start_blk root_blk fuel k = (visited Forwards k es, Ok tt).
Proof.
  destruct (visit_ok collect_entries Forwards) as (n & Hn). exists n. intros fuel Hfu. specialize (Hn fuel [] Hfu).
  unfold visit_result in Hn. rewrite fold_collect in Hn. unfold visit in Hn.
  destruct (stream_loop_visit _ _ _ _ _ Hn eq_refl) as (vs & Hvs & E). rewrite !app_nil_l in E. by subst vs.
Qed.

Lemma btree_get_ok :
  exists n r, (forall fuel, (n <= fuel)%nat -> btree_get read_blk start_blk root_blk fuel k = Ok r)
  /\ forall v, r = Some v <-> (k, v) ∈ es.
Proof.
  unfold btree_get. destruct (visit_ok (fun result key value => ((if decide (key = k) then Some value else result), false)) Forwards)
    as (n & Hn). exists n. unfold visit_result in Hn.
  assert (forall v, (k, v) ∈ es <-> (k, v) ∈ visited Forwards k es) as Hel.
  { intros v. cbn [visited]. rewrite list_elem_of_filter. cbn [fst]. split; [intros; split; [lia|done]|by intros [_ ?]]. }
  assert (StronglySorted key_lt (visited Forwards k es)) as Hsv by (cbn [visited]; by apply StronglySorted_filter').
  assert (forall e, e ∈ visited Forwards k es -> be_Z k <= be_Z e.1) as Hlo by (intros e; cbn [visited]; rewrite list_elem_of_filter; by intros [? _]).
  destruct (visited Forwards k es) as [|[key v] vs] eqn:E.
  - exists None. split; [intros fuel Hfu; by rewrite (Hn fuel None Hfu), ok_bind|]. intros v. rewrite Hel. split; [done|by intros ?%not_elem_of_nil].
  - exists (if decide (key = k) then Some v else None). split; [intros fuel Hfu; by rewrite (Hn fuel None Hfu), ok_bind|].
    intros v'. rewrite Hel. apply StronglySorted_cons in Hsv as [Hfa _]. rewrite Forall_forall in Hfa. destruct (decide (key = k)) as [->|Hk].
    + split; [intros [= ->]; left|]. intros [[= ->]|Hin]%elem_of_cons; [done|]. apply Hfa in Hin. unfold key_lt in Hin. cbn [fst] in Hin. lia.
    + split; [done|]. intros [[= -> _]|Hin]%elem_of_cons; [done|]. apply Hfa in Hin. unfold key_lt in Hin. cbn [fst] in Hin.
      specialize (Hlo (key, v) ltac:(left)). cbn [fst] in Hlo. lia.
Qed.
End reader.

(** ** Building and reading back *)

Lemma btree_round_trip_lemma (L : nat) (es : list (list byte * Z)) :
  (0 < L <= 255)%nat -> entries_ok L es -> es <> [] -> Z.of_nat (length es) < 2 ^ 31 ->
  exists b root blocks,
    append_all L (builder_new []) es = Ok b /\ btree_finish L 64 b = Ok (root, blocks)
    /\ Forall (fun page => length page = PAGE_SZ) blocks
    /\ forall read_blk start_blk k,
         (forall i page, blocks !! i = Some page -> read_blk (start_blk + Z.of_nat i) = Ok page) ->
         start_blk + Z.of_nat (length blocks) <= 2 ^ 32 -> length k = L ->
         exists n, forall fuel, (n <= fuel)%nat ->
           into_stream read_blk start_blk root fuel k = (filter (fun e => be_Z k <= be_Z e.1) es, Ok tt)
           /\ (exists go_on, visit read_blk start_blk root collect_entries fuel k Backwards []
                = Ok (rev (filter (fun e => be_Z e.1 <= be_Z k) es), go_on))
           /\ exists r, btree_get read_blk start_blk root fuel k = Ok r /\ forall v, r = Some v <-> (k, v) ∈ es.
Proof.
  intros HL Hes Hne Hn. destruct (append_all_ok L HL es (builder_new []) [] (built_new L HL) Hes Hn) as (b & Hb & Hbt).
  destruct (btree_finish_ok L HL 64 b es Hbt Hes Hne Hn (le_n 64)) as (root & blocks & l & Hfin & Hsub & Hpg & _).
  exists b, root, blocks. split_and!; [done|done|done|]. intros read_blk start_blk k Hread Hfit Hk.
  destruct Hes as [Hs Hf]. assert (entries_width k es) as Hw by (apply (Forall_impl _ _ _ Hf); intros e [He _]; congruence).
  destruct (into_stream_ok blocks read_blk start_blk root Hread Hfit l es Hsub k Hs Hw) as (n1 & H1).
  destruct (visit_ok blocks read_blk start_blk root Hread Hfit l es Hsub k Hs Hw collect_entries Backwards) as (n2 & H2).
  destruct (btree_get_ok blocks read_blk start_blk root Hread Hfit l es Hsub k Hs Hw) as (n3 & r & H3 & Hr).
  exists (n1 + n2 + n3)%nat. intros fuel Hfu. split_and!; [apply H1; lia| |exists r; split; [apply H3; lia|done]].
  rewrite H2 by lia. unfold visit_result. cbn [visited]. destruct (rev _) as [|e vs]; [by eexists|].
  rewrite fold_collect. by eexists.
Qed.

(** C11: a tree built by appending entries with increasing keys and finishing
    is a run of whole pages, and read back from wherever the pages were put:
    the stream from a key yields exactly the entries at or after it in order,
    a backward visit exactly those at or before it in descending order, and a
    lookup finds a value if and only if it was appended with that key. *)
Theorem btree_round_trip (L : nat) (es : list (list byte * Z)) :
  (0 < L <= 255)%nat -> entries_ok L es -> es <> [] -> Z.of_nat (length es) < 2 ^ 31 ->
  exists b root blocks,
    append_all L (builder_new []) es = Ok b /\ btree_finish L 64 b = Ok (root, blocks)
    /\ Forall (fun page => length page = PAGE_SZ) blocks
    /\ forall read_blk start_blk k,
         (forall i page, blocks !! i = Some page -> read_blk (start_blk + Z.of_nat i) = Ok page) ->
         start_blk + Z.of_nat (length blocks) <= 2 ^ 32 -> length k = L ->
         exists n, forall fuel, (n <= fuel)%nat ->
           into_stream read_blk start_blk root fuel k = (filter (fun e => be_Z k <= be_Z e.1) es, Ok tt)
           /\ (exists go_on, visit read_blk start_blk root collect_entries fuel k Backwards []
                = Ok (rev (filter (fun e => be_Z e.1 <= be_Z k) es), go_on))
           /\ exists r, btree_get read_blk start_blk root fuel k = Ok r /\ forall v, r = Some v <-> (k, v) ∈ es.
Proof. apply btree_round_trip_lemma. Qed.

Lemma btree_round_trip_witness :
  let es := [(be_bytes 18 3, 7); (be_bytes 18 300, 5); (be_bytes 18 301, 9)] in
  exists b root blocks,
    append_all 18 (builder_new []) es = Ok b /\ btree_finish 18 64 b = Ok (root, blocks)
    /\ Forall (fun page => length page = PAGE_SZ) blocks.
Proof.
  intros es. destruct (btree_round_trip 18 es) as (b & root & blocks & H1 & H2 & H3 & _);
    [lia| |done|by vm_compute|by exists b, root, blocks].
  split; repeat constructor; by vm_compute.
Defined.
