(* ===== verification/IndexPart.v ===== *)
(** * The index of a timeline in remote storage

    [pageserver/src/tenant/remote_timeline_client/index.rs]: [IndexPart] with the
    metadata of the layers it names; [pageserver/src/tenant/metadata.rs]: the
    metadata of a timeline; [is_same_remote_layer_path] of
    [remote_timeline_client.rs].  A time is a number; [Utc::now] is an argument of
    the operations that read the clock.  The JSON and bincode forms are serde's and
    not modelled. *)

From S2P Require Import Prelude Lsn XlogUtils Key Shard LayerName.

Definition NaiveDateTime : Type := Z.
Definition TimelineId : Type := Id.

#[global] Instance TimelineId_eq_dec : EqDecision TimelineId.
Proof. unfold TimelineId, Id. solve_decision. Defined.
#[global] Instance ShardIndex_eq_dec : EqDecision ShardIndex.
Proof. unfold EqDecision, Decision, ShardNumber, ShardCount. decide equality; solve_decision. Defined.

(** ** Keys of hash maps *)

(** As lists of numbers, which keeps the codes short. *)
Definition key_numbers (k : Key) : list Z := [field1 k; field2 k; field3 k; field4 k; field5 k; field6 k].
Definition layer_name_numbers (n : LayerName) : list Z :=
  match n with
  | Image n => 0 :: in_lsn n :: key_numbers (start (in_key_range n)) ++ key_numbers (end_ (in_key_range n))
  | Delta n => 1 :: start (dn_lsn_range n) :: end_ (dn_lsn_range n)
               :: key_numbers (start (dn_key_range n)) ++ key_numbers (end_ (dn_key_range n))
  end.
Definition numbers_layer_name (l : list Z) : option LayerName :=
  match l with
  | [0; lsn; a; b; c; d; e; f; a'; b'; c'; d'; e'; f'] =>
      Some (Image (mkImageLayerName (mkRange (mkKey a b c d e f) (mkKey a' b' c' d' e' f')) lsn))
  | [1; s; t; a; b; c; d; e; f; a'; b'; c'; d'; e'; f'] =>
      Some (Delta (mkDeltaLayerName (mkRange (mkKey a b c d e f) (mkKey a' b' c' d' e' f')) (mkRange s t)))
  | _ => None
  end.

#[global] Instance LayerName_countable : Countable LayerName.
Proof. refine (inj_countable layer_name_numbers numbers_layer_name _). by intros [[[[] []] ?]|[[[] []] []]]. Defined.
#[global] Instance Generation_countable : Countable Generation.
Proof.
  refine (inj_countable' (fun g => match g with GNone => None | GValid v => Some v end)
    (fun o => match o with None => GNone | Some v => GValid v end) _). by intros [].
Defined.
#[global] Instance ShardIndex_countable : Countable ShardIndex.
Proof.
  refine (inj_countable' (fun s : ShardIndex => (si_number s : Z, si_count s : Z)) (fun '(n, c) => mkShardIndex n c) _).
  by intros [].
Defined.

(** ** Timeline metadata

    The body; the header is the checksum of the old file format. *)

Record TimelineMetadata := mkTimelineMetadata {
  tm_disk_consistent_lsn : Lsn;
  tm_prev_record_lsn : option Lsn;
  tm_ancestor_timeline : option TimelineId;
  tm_ancestor_lsn : Lsn;
  tm_latest_gc_cutoff_lsn : Lsn;
  tm_initdb_lsn : Lsn;
  tm_pg_version : Z
}.

Record MetadataUpdate := mkMetadataUpdate {
  mu_disk_consistent_lsn : Lsn; mu_prev_record_lsn : option Lsn; mu_latest_gc_cutoff_lsn : Lsn
}.

Definition metadata_apply (update : MetadataUpdate) (self : TimelineMetadata) : TimelineMetadata :=
  mkTimelineMetadata (mu_disk_consistent_lsn update) (mu_prev_record_lsn update) (tm_ancestor_timeline self)
    (tm_ancestor_lsn self) (mu_latest_gc_cutoff_lsn update) (tm_initdb_lsn self) (tm_pg_version self).

Definition set_ancestor (ancestor : option TimelineId) (lsn : Lsn) (self : TimelineMetadata) : TimelineMetadata :=
  mkTimelineMetadata (tm_disk_consistent_lsn self) (tm_prev_record_lsn self) ancestor lsn
    (tm_latest_gc_cutoff_lsn self) (tm_initdb_lsn self) (tm_pg_version self).

Definition reparent (timeline : TimelineId) (self : TimelineMetadata) : option TimelineMetadata :=
  match tm_ancestor_timeline self with
  | None => None
  | Some _ => Some (set_ancestor (Some timeline) (tm_ancestor_lsn self) self)
  end.

Definition detach_from_ancestor (branchpoint : TimelineId * Lsn) (self : TimelineMetadata) : option TimelineMetadata :=
  if decide (tm_ancestor_lsn self <> 0 /\ tm_ancestor_lsn self <> branchpoint.2) then None
  else Some (set_ancestor None 0 self).

(** ** Layers *)

Record LayerFileMetadata := mkLayerFileMetadata {
  lm_file_size : Z; lm_generation : Generation; lm_shard : ShardIndex
}.

Definition is_same_remote_layer_path (aname : LayerName) (ameta : LayerFileMetadata)
    (bname : LayerName) (bmeta : LayerFileMetadata) : bool :=
  bool_decide (aname = bname) && bool_decide (lm_shard ameta = lm_shard bmeta)
  && bool_decide (lm_generation ameta = lm_generation bmeta).

(** ** Lineage *)

Record Lineage := mkLineage {
  reparenting_history_truncated : bool;
  reparenting_history : list TimelineId;
  original_ancestor : option (TimelineId * Lsn * NaiveDateTime)
}.

Definition REMEMBER_AT_MOST : nat := 100.

Definition record_previous_ancestor (old_ancestor : TimelineId) (self : Lineage) : Lineage * bool :=
  if decide (last (reparenting_history self) = Some old_ancestor) then (self, false)
  else
    let drop_oldest := bool_decide (REMEMBER_AT_MOST <= length (reparenting_history self) + 1)%nat in
    (mkLineage (reparenting_history_truncated self || drop_oldest)
       ((if drop_oldest then drop 1 (reparenting_history self) else reparenting_history self) ++ [old_ancestor])
       (original_ancestor self), true).

(** [None]: a failed [assert_eq!]. *)
Definition record_detaching (now : NaiveDateTime) (branchpoint : TimelineId * Lsn) (self : Lineage) :
    option (Lineage * bool) :=
  match original_ancestor self with
  | Some (id, lsn, _) => if decide ((id, lsn) = branchpoint) then Some (self, false) else None
  | None =>
      Some (mkLineage (reparenting_history_truncated self) (reparenting_history self)
              (Some (branchpoint.1, branchpoint.2, now)), true)
  end.

Definition is_previous_ancestor_lsn (lsn : Lsn) (self : Lineage) : bool :=
  match original_ancestor self with Some (_, ancestor_lsn, _) => bool_decide (ancestor_lsn = lsn) | None => false end.
Definition is_detached_from_ancestor (self : Lineage) : bool := bool_decide (is_Some (original_ancestor self)).
Definition detached_previous_ancestor (self : Lineage) : option (TimelineId * Lsn) := fst <$> original_ancestor self.

(** ** Reasons that block garbage collection *)

Inductive GcBlockingReason : Set := Manual | DetachAncestor.

#[global] Instance GcBlockingReason_eq_dec : EqDecision GcBlockingReason.
Proof. solve_decision. Defined.

(** An [EnumSet] is the list of its elements. *)
Record GcBlocking := mkGcBlocking { started_at : NaiveDateTime; reasons : list GcBlockingReason }.

Definition started_now_for (now : NaiveDateTime) (reason : GcBlockingReason) : GcBlocking := mkGcBlocking now [reason].
Definition blocked_by (reason : GcBlockingReason) (self : GcBlocking) : bool := bool_decide (reason ∈ reasons self).

Definition with_reason (reason : GcBlockingReason) (self : GcBlocking) : option GcBlocking :=
  if blocked_by reason self then None else Some (mkGcBlocking (started_at self) (reason :: reasons self)).

(** The outer [None]: a failed assertion. *)
Definition without_reason (reason : GcBlockingReason) (self : GcBlocking) : option (option GcBlocking) :=
  if blocked_by reason self then
    if decide (length (reasons self) = 1)%nat then Some None
    else
      let rest := filter (fun r => r <> reason) (reasons self) in
      match rest with
      | [] => None
      | _ => Some (Some (mkGcBlocking (started_at self) rest))
      end
  else None.

(** ** Imports ([timeline/import_pgdata/index_part_format.rs]) *)

(** [IdempotencyKey] and [Location] are text the code only copies. *)
Inductive ImportRoot : Type :=
| ImportInProgress (idempotency_key : list byte) (location : list byte) (started : NaiveDateTime)
| ImportDone (idempotency_key : list byte) (started finished : NaiveDateTime).

Definition import_is_done (self : ImportRoot) : bool := match self with ImportDone _ _ _ => true | _ => false end.
Definition import_idempotency_key (self : ImportRoot) : list byte :=
  match self with ImportInProgress k _ _ => k | ImportDone k _ _ => k end.
Definition import_started_at (self : ImportRoot) : NaiveDateTime :=
  match self with ImportInProgress _ _ s => s | ImportDone _ s _ => s end.

(** ** The index *)

Inductive RelSizeMigration : Set := Legacy | Migrating | Migrated.

(** [last_aux_file_policy] and [l2_lsn] are kept for old readers and never set. *)
Record IndexPart := mkIndexPart {
  ip_version : Z;
  ip_deleted_at : option NaiveDateTime;
  ip_archived_at : option NaiveDateTime;
  ip_import_pgdata : option ImportRoot;
  layer_metadata : gmap LayerName LayerFileMetadata;
  ip_disk_consistent_lsn : Lsn;
  ip_metadata : TimelineMetadata;
  ip_lineage : Lineage;
  ip_gc_blocking : option GcBlocking;
  ip_rel_size_migration : option RelSizeMigration;
  ip_gc_compaction : option Lsn;
  ip_marked_invisible_at : option NaiveDateTime;
  ip_rel_size_migrated_at : option Lsn
}.

Definition LATEST_VERSION : Z := 15.

Definition index_part_empty (metadata : TimelineMetadata) : IndexPart :=
  mkIndexPart LATEST_VERSION None None None ∅ (tm_disk_consistent_lsn metadata) metadata
    (mkLineage false [] None) None None None None None.

Definition references (self : IndexPart) (name : LayerName) (metadata : LayerFileMetadata) : bool :=
  match layer_metadata self !! name with
  | None => false
  | Some index_metadata => is_same_remote_layer_path name metadata name index_metadata
  end.

(** [false]: "Index has no ancestor and no layers". *)
Definition index_validate (self : IndexPart) : bool :=
  negb (bool_decide (ip_import_pgdata self = None) && bool_decide (tm_ancestor_timeline (ip_metadata self) = None)
        && bool_decide (layer_metadata self = ∅)).

(** Assignments to one field. *)
Definition with_layers (f : gmap LayerName LayerFileMetadata -> gmap LayerName LayerFileMetadata) (i : IndexPart) : IndexPart :=
  mkIndexPart (ip_version i) (ip_deleted_at i) (ip_archived_at i) (ip_import_pgdata i) (f (layer_metadata i))
    (ip_disk_consistent_lsn i) (ip_metadata i) (ip_lineage i) (ip_gc_blocking i) (ip_rel_size_migration i)
    (ip_gc_compaction i) (ip_marked_invisible_at i) (ip_rel_size_migrated_at i).
Definition with_deleted_at (v : option NaiveDateTime) (i : IndexPart) : IndexPart :=
  mkIndexPart (ip_version i) v (ip_archived_at i) (ip_import_pgdata i) (layer_metadata i)
    (ip_disk_consistent_lsn i) (ip_metadata i) (ip_lineage i) (ip_gc_blocking i) (ip_rel_size_migration i)
    (ip_gc_compaction i) (ip_marked_invisible_at i) (ip_rel_size_migrated_at i).
Definition with_archived_at (v : option NaiveDateTime) (i : IndexPart) : IndexPart :=
  mkIndexPart (ip_version i) (ip_deleted_at i) v (ip_import_pgdata i) (layer_metadata i)
    (ip_disk_consistent_lsn i) (ip_metadata i) (ip_lineage i) (ip_gc_blocking i) (ip_rel_size_migration i)
    (ip_gc_compaction i) (ip_marked_invisible_at i) (ip_rel_size_migrated_at i).
Definition with_import_pgdata (v : option ImportRoot) (i : IndexPart) : IndexPart :=
  mkIndexPart (ip_version i) (ip_deleted_at i) (ip_archived_at i) v (layer_metadata i)
    (ip_disk_consistent_lsn i) (ip_metadata i) (ip_lineage i) (ip_gc_blocking i) (ip_rel_size_migration i)
    (ip_gc_compaction i) (ip_marked_invisible_at i) (ip_rel_size_migrated_at i).
Definition with_disk_consistent_lsn (v : Lsn) (i : IndexPart) : IndexPart :=
  mkIndexPart (ip_version i) (ip_deleted_at i) (ip_archived_at i) (ip_import_pgdata i) (layer_metadata i)
    v (ip_metadata i) (ip_lineage i) (ip_gc_blocking i) (ip_rel_size_migration i)
    (ip_gc_compaction i) (ip_marked_invisible_at i) (ip_rel_size_migrated_at i).
Definition with_metadata (v : TimelineMetadata) (i : IndexPart) : IndexPart :=
  mkIndexPart (ip_version i) (ip_deleted_at i) (ip_archived_at i) (ip_import_pgdata i) (layer_metadata i)
    (ip_disk_consistent_lsn i) v (ip_lineage i) (ip_gc_blocking i) (ip_rel_size_migration i)
    (ip_gc_compaction i) (ip_marked_invisible_at i) (ip_rel_size_migrated_at i).
Definition with_lineage (v : Lineage) (i : IndexPart) : IndexPart :=
  mkIndexPart (ip_version i) (ip_deleted_at i) (ip_archived_at i) (ip_import_pgdata i) (layer_metadata i)
    (ip_disk_consistent_lsn i) (ip_metadata i) v (ip_gc_blocking i) (ip_rel_size_migration i)
    (ip_gc_compaction i) (ip_marked_invisible_at i) (ip_rel_size_migrated_at i).
Definition with_gc_blocking (v : option GcBlocking) (i : IndexPart) : IndexPart :=
  mkIndexPart (ip_version i) (ip_deleted_at i) (ip_archived_at i) (ip_import_pgdata i) (layer_metadata i)
    (ip_disk_consistent_lsn i) (ip_metadata i) (ip_lineage i) v (ip_rel_size_migration i)
    (ip_gc_compaction i) (ip_marked_invisible_at i) (ip_rel_size_migrated_at i).
Definition with_gc_compaction (v : option Lsn) (i : IndexPart) : IndexPart :=
  mkIndexPart (ip_version i) (ip_deleted_at i) (ip_archived_at i) (ip_import_pgdata i) (layer_metadata i)
    (ip_disk_consistent_lsn i) (ip_metadata i) (ip_lineage i) (ip_gc_blocking i) (ip_rel_size_migration i)
    v (ip_marked_invisible_at i) (ip_rel_size_migrated_at i).
Definition with_marked_invisible_at (v : option NaiveDateTime) (i : IndexPart) : IndexPart :=
  mkIndexPart (ip_version i) (ip_deleted_at i) (ip_archived_at i) (ip_import_pgdata i) (layer_metadata i)
    (ip_disk_consistent_lsn i) (ip_metadata i) (ip_lineage i) (ip_gc_blocking i) (ip_rel_size_migration i)
    (ip_gc_compaction i) v (ip_rel_size_migrated_at i).
Definition with_rel_size (m : option RelSizeMigration) (at_ : option Lsn) (i : IndexPart) : IndexPart :=
  mkIndexPart (ip_version i) (ip_deleted_at i) (ip_archived_at i) (ip_import_pgdata i) (layer_metadata i)
    (ip_disk_consistent_lsn i) (ip_metadata i) (ip_lineage i) (ip_gc_blocking i) m
    (ip_gc_compaction i) (ip_marked_invisible_at i) at_.

(** ** Paths

    The path of a layer within its timeline, by its components: what
    [is_same_remote_layer_path] compares. *)

Definition path : Type := LayerName * ShardIndex * Generation.
Definition layer_path (name : LayerName) (meta : LayerFileMetadata) : path := (name, lm_shard meta, lm_generation meta).

Lemma same_path_spec an am bn bm : is_same_remote_layer_path an am bn bm = true <-> layer_path an am = layer_path bn bm.
Proof.
  unfold is_same_remote_layer_path, layer_path. rewrite !andb_true_iff, !bool_decide_eq_true. naive_solver congruence.
Qed.

(** The paths an index refers to. *)
Definition refers (i : IndexPart) (p : path) : Prop :=
  exists meta, layer_metadata i !! p.1.1 = Some meta /\ layer_path p.1.1 meta = p.

#[global] Instance path_eq_dec : EqDecision path.
Proof. unfold path. solve_decision. Defined.

#[global] Instance refers_dec i p : Decision (refers i p).
Proof.
  destruct (layer_metadata i !! p.1.1) as [meta|] eqn:E.
  - destruct (decide (layer_path p.1.1 meta = p)) as [Hp|Hp]; [left; by exists meta|].
    right. intros (m & Hm & Hq). by rewrite E in Hm; simplify_eq.
  - right. intros (m & Hm & _). by rewrite E in Hm.
Defined.

Lemma references_spec i name meta : references i name meta = true <-> refers i (layer_path name meta).
Proof.
  unfold references, refers. cbn [layer_path fst]. destruct (layer_metadata i !! name) as [m|] eqn:E.
  - rewrite same_path_spec. split.
    + intros H. exists m. split; [done|]. by rewrite <- H.
    + intros (m' & [= <-] & H). by rewrite H.
  - split; [done|]. by intros (m & ? & _).
Qed.

Lemma references_false i name meta : references i name meta = false <-> ~ refers i (layer_path name meta).
Proof. rewrite <- references_spec. destruct (references i name meta); naive_solver. Qed.
