(* ===== verification/UploadQueue.v ===== *)
(** * The upload queue of a timeline ([pageserver/src/tenant/upload_queue.rs])

    Uploads of layers, deletions, uploads of the index, barriers and the final
    shutdown wait in a queue; an operation starts when it conflicts with none in
    progress and none ahead of it.  A [HashMap] of tasks is the list of its values:
    the order is the one the code leaves open (see [bypasses_all_perm] of
    [UploadQueueFacts]).  A channel is a number.  Counters are unbounded.  The two
    kill switches are arguments.  [None] is a failed [assert!] or [expect]. *)

From S2P Require Import Prelude Lsn XlogUtils Key Shard LayerName IndexPart.

Inductive OpType : Set := MayReorder | FlushDeletion.

(** A layer that is on local disk, with the generation and shard it was written in. *)
Record ResidentLayer := mkResidentLayer {
  rl_desc : PersistentLayerDesc; rl_generation : Generation; rl_shard : ShardIndex
}.

Definition layer_file_metadata (self : ResidentLayer) : LayerFileMetadata :=
  mkLayerFileMetadata (ld_file_size (rl_desc self)) (rl_generation self) (rl_shard self).

Definition Delete : Type := list (LayerName * LayerFileMetadata).

Definition paths (layers : Delete) : list path := map (fun l => layer_path l.1 l.2) layers.

(** The name of the layer of an upload is kept beside it. *)
Inductive UploadOp : Type :=
| UploadLayer (name : LayerName) (metadata : LayerFileMetadata) (mode : option OpType)
| UploadMetadata (uploaded : IndexPart)
| DeleteOp (layers : Delete)
| Barrier (sender : nat)
| Shutdown.

Record UploadTask := mkUploadTask { task_id : Z; task_op : UploadOp; coalesced_ops : list UploadOp }.

Record UploadQueueInitialized := mkQueue {
  inprogress_limit : nat;
  task_counter : Z;
  dirty : IndexPart;
  clean : IndexPart * option Z;
  latest_files_changes_since_metadata_upload_scheduled : Z;
  visible_remote_consistent_lsn : Lsn;
  inprogress_tasks : list UploadTask;
  queued_operations : list UploadOp;
  recently_deleted : gset (LayerName * Generation);
  blocked_deletions : list Delete;
  shutting_down : bool;
  shutdown_ready : bool
}.

(** ** Assignments *)

Definition with_dirty (f : IndexPart -> IndexPart) (q : UploadQueueInitialized) : UploadQueueInitialized :=
  mkQueue (inprogress_limit q) (task_counter q) (f (dirty q)) (clean q)
    (latest_files_changes_since_metadata_upload_scheduled q) (visible_remote_consistent_lsn q) (inprogress_tasks q)
    (queued_operations q) (recently_deleted q) (blocked_deletions q) (shutting_down q) (shutdown_ready q).
Definition with_clean (v : IndexPart * option Z) (q : UploadQueueInitialized) : UploadQueueInitialized :=
  mkQueue (inprogress_limit q) (task_counter q) (dirty q) v
    (latest_files_changes_since_metadata_upload_scheduled q) (visible_remote_consistent_lsn q) (inprogress_tasks q)
    (queued_operations q) (recently_deleted q) (blocked_deletions q) (shutting_down q) (shutdown_ready q).
Definition with_changes (v : Z) (q : UploadQueueInitialized) : UploadQueueInitialized :=
  mkQueue (inprogress_limit q) (task_counter q) (dirty q) (clean q)
    v (visible_remote_consistent_lsn q) (inprogress_tasks q)
    (queued_operations q) (recently_deleted q) (blocked_deletions q) (shutting_down q) (shutdown_ready q).
Definition with_visible_lsn (v : Lsn) (q : UploadQueueInitialized) : UploadQueueInitialized :=
  mkQueue (inprogress_limit q) (task_counter q) (dirty q) (clean q)
    (latest_files_changes_since_metadata_upload_scheduled q) v (inprogress_tasks q)
    (queued_operations q) (recently_deleted q) (blocked_deletions q) (shutting_down q) (shutdown_ready q).
Definition with_tasks (counter : Z) (v : list UploadTask) (q : UploadQueueInitialized) : UploadQueueInitialized :=
  mkQueue (inprogress_limit q) counter (dirty q) (clean q)
    (latest_files_changes_since_metadata_upload_scheduled q) (visible_remote_consistent_lsn q) v
    (queued_operations q) (recently_deleted q) (blocked_deletions q) (shutting_down q) (shutdown_ready q).
Definition with_queued (v : list UploadOp) (q : UploadQueueInitialized) : UploadQueueInitialized :=
  mkQueue (inprogress_limit q) (task_counter q) (dirty q) (clean q)
    (latest_files_changes_since_metadata_upload_scheduled q) (visible_remote_consistent_lsn q) (inprogress_tasks q)
    v (recently_deleted q) (blocked_deletions q) (shutting_down q) (shutdown_ready q).
Definition with_recently_deleted (v : gset (LayerName * Generation)) (q : UploadQueueInitialized) : UploadQueueInitialized :=
  mkQueue (inprogress_limit q) (task_counter q) (dirty q) (clean q)
    (latest_files_changes_since_metadata_upload_scheduled q) (visible_remote_consistent_lsn q) (inprogress_tasks q)
    (queued_operations q) v (blocked_deletions q) (shutting_down q) (shutdown_ready q).
Definition with_blocked (v : list Delete) (q : UploadQueueInitialized) : UploadQueueInitialized :=
  mkQueue (inprogress_limit q) (task_counter q) (dirty q) (clean q)
    (latest_files_changes_since_metadata_upload_scheduled q) (visible_remote_consistent_lsn q) (inprogress_tasks q)
    (queued_operations q) (recently_deleted q) v (shutting_down q) (shutdown_ready q).
Definition with_shutting_down (v : bool) (q : UploadQueueInitialized) : UploadQueueInitialized :=
  mkQueue (inprogress_limit q) (task_counter q) (dirty q) (clean q)
    (latest_files_changes_since_metadata_upload_scheduled q) (visible_remote_consistent_lsn q) (inprogress_tasks q)
    (queued_operations q) (recently_deleted q) (blocked_deletions q) v (shutdown_ready q).
Definition close_shutdown_ready (q : UploadQueueInitialized) : UploadQueueInitialized :=
  mkQueue (inprogress_limit q) (task_counter q) (dirty q) (clean q)
    (latest_files_changes_since_metadata_upload_scheduled q) (visible_remote_consistent_lsn q) (inprogress_tasks q)
    (queued_operations q) (recently_deleted q) (blocked_deletions q) (shutting_down q) true.

Definition push_back (op : UploadOp) (q : UploadQueueInitialized) : UploadQueueInitialized :=
  with_queued (queued_operations q ++ [op]) q.

(** ** Conflicts *)

Definition upload_delete_disjoint (name : LayerName) (meta : LayerFileMetadata) (d : Delete) : bool :=
  forallb (fun '(dname, dmeta) => negb (is_same_remote_layer_path name meta dname dmeta)) d.
Definition unreferenced (i index : IndexPart) (name : LayerName) (meta : LayerFileMetadata) : bool :=
  negb (references i name meta) && negb (references index name meta).

Definition can_bypass (self other : UploadOp) (index : IndexPart) : bool :=
  match self, other with
  | Barrier _, _ | _, Barrier _ => false
  | Shutdown, _ | _, Shutdown => false
  | UploadLayer aname ameta _, UploadLayer bname bmeta _ => negb (is_same_remote_layer_path aname ameta bname bmeta)
  | UploadLayer u umeta _, DeleteOp d | DeleteOp d, UploadLayer u umeta _ => upload_delete_disjoint u umeta d
  | DeleteOp _, DeleteOp _ => true
  | UploadLayer u umeta _, UploadMetadata i | UploadMetadata i, UploadLayer u umeta _ => unreferenced i index u umeta
  | DeleteOp d, UploadMetadata i | UploadMetadata i, DeleteOp d =>
      forallb (fun '(dname, dmeta) => unreferenced i index dname dmeta) d
  | UploadMetadata _, UploadMetadata _ => false
  end.

(** Whether the candidate can bypass all of the operations, with the index that
    is active at each of them. *)
Fixpoint bypasses_all (candidate : UploadOp) (next_active_index : IndexPart) (ops : list UploadOp) : bool :=
  match ops with
  | [] => true
  | op :: ops =>
      can_bypass candidate op next_active_index
      && bypasses_all candidate (match op with UploadMetadata uploaded => uploaded | _ => next_active_index end) ops
  end.

Definition ops_ahead (self : UploadQueueInitialized) (pos : nat) : list UploadOp :=
  map task_op (inprogress_tasks self) ++ take pos (queued_operations self).

Definition is_ready (self : UploadQueueInitialized) (pos : nat) : option bool :=
  candidate ← queued_operations self !! pos;
  Some (bypasses_all candidate (clean self).1 (ops_ahead self pos)).

(** ** The next operation *)

Definition is_metadata (op : UploadOp) : bool := match op with UploadMetadata _ => true | _ => false end.
Definition is_shutdown (op : UploadOp) : bool := match op with Shutdown => true | _ => false end.
Definition is_barrier (op : UploadOp) : bool := match op with Barrier _ => true | _ => false end.

Definition assert_that (b : bool) : option unit := if b then Some tt else None.

(** [VecDeque::remove]. *)
Definition remove_at (i : nat) (q : UploadQueueInitialized) : option (UploadOp * UploadQueueInitialized) :=
  op ← queued_operations q !! i;
  Some (op, with_queued (take i (queued_operations q) ++ drop (S i) (queued_operations q)) q).

Section switches.
Context (DISABLE_UPLOAD_QUEUE_REORDERING DISABLE_UPLOAD_QUEUE_INDEX_COALESCING : bool).

(** The loop over the index uploads that follow; [fuel] bounds their number. *)
Fixpoint coalesce (fuel : nat) (i : nat) (self : UploadQueueInitialized) (op : UploadOp) (coalesced : list UploadOp) :
    option (UploadQueueInitialized * (UploadOp * list UploadOp)) :=
  match queued_operations self !! i with
  | Some (UploadMetadata _) =>
      if DISABLE_UPLOAD_QUEUE_INDEX_COALESCING then Some (self, (op, coalesced)) else
      ready ← is_ready self i;
      if negb ready then Some (self, (op, coalesced)) else
      match fuel with
      | O => None
      | S fuel => '(next, self) ← remove_at i self; coalesce fuel i self next (coalesced ++ [op])
      end
  | _ => Some (self, (op, coalesced))
  end.

Fixpoint next_ready_from (self : UploadQueueInitialized) (ops : list UploadOp) (i : nat) :
    option (UploadQueueInitialized * option (UploadOp * list UploadOp)) :=
  match ops with
  | [] => Some (self, None)
  | candidate :: ops =>
      ready ← is_ready self i;
      if ready : bool then
        if is_shutdown candidate then
          _ ← assert_that (bool_decide (inprogress_tasks self = []));
          _ ← assert_that (bool_decide (i = 0%nat));
          Some (close_shutdown_ready self, None)
        else
          '(op, self) ← remove_at i self;
          if is_metadata op then
            '(self, r) ← coalesce (length (queued_operations self)) i self op [];
            Some (self, Some r)
          else Some (self, Some (op, []))
      else if is_barrier candidate || is_shutdown candidate then Some (self, None)
      else if DISABLE_UPLOAD_QUEUE_REORDERING then Some (self, None)
      else next_ready_from self ops (S i)
  end.

Definition next_ready (self : UploadQueueInitialized) :
    option (UploadQueueInitialized * option (UploadOp * list UploadOp)) :=
  if decide (0 < inprogress_limit self /\ inprogress_limit self <= length (inprogress_tasks self))%nat
  then Some (self, None)
  else next_ready_from self (queued_operations self) 0.

(** ** Launching ([RemoteTimelineClient::launch_queued_tasks])

    The tasks spawned and the channels notified, in order. *)

Inductive launched : Type := Spawned (task : UploadTask) | Notified (channel : nat).

Definition spawn (op : UploadOp) (coalesced : list UploadOp) (q : UploadQueueInitialized) :
    UploadQueueInitialized * UploadTask :=
  let upload_task_id := task_counter q + 1 in
  let task := mkUploadTask upload_task_id op coalesced in
  (with_tasks upload_task_id (inprogress_tasks q ++ [task]) q, task).

(** What becomes of the operation taken from the queue. *)
Definition launch_op (op : UploadOp) (coalesced : list UploadOp) (q : UploadQueueInitialized) :
    option (UploadQueueInitialized * launched) :=
  match op with
  | UploadLayer name meta _ =>
      let key := (name, lm_generation meta) in
      let mode := if decide (key ∈ recently_deleted q) then FlushDeletion else MayReorder in
      let '(q, task) := spawn (UploadLayer name meta (Some mode)) coalesced
                          (with_recently_deleted (recently_deleted q ∖ {[key]}) q) in
      Some (q, Spawned task)
  | UploadMetadata _ => let '(q, task) := spawn op coalesced q in Some (q, Spawned task)
  | DeleteOp layers =>
      let keys := list_to_set (map (fun '(name, meta) => (name, lm_generation meta)) layers) in
      let '(q, task) := spawn op coalesced (with_recently_deleted (recently_deleted q ∪ keys) q) in
      Some (q, Spawned task)
  | Barrier sender => Some (q, Notified sender)
  | Shutdown => None
  end.

Fixpoint launch_loop (fuel : nat) (q : UploadQueueInitialized) : option (UploadQueueInitialized * list launched) :=
  '(q, next) ← next_ready q;
  match next with
  | None => Some (q, [])
  | Some (op, coalesced) =>
      match fuel with
      | O => None
      | S fuel =>
          '(q, l) ← launch_op op coalesced q;
          '(q, ls) ← launch_loop fuel q;
          Some (q, l :: ls)
      end
  end.

Definition launch_queued_tasks (q : UploadQueueInitialized) : option (UploadQueueInitialized * list launched) :=
  launch_loop (length (queued_operations q)) q.
End switches.

(** ** The states of the queue *)

Inductive SetDeletedFlagProgress : Type := NotRunning | InProgress (at_ : NaiveDateTime) | Successful (at_ : NaiveDateTime).

Record UploadQueueStoppedDeletable := mkDeletable {
  upload_queue_for_deletion : UploadQueueInitialized; deleted_at : SetDeletedFlagProgress
}.

Inductive UploadQueueStopped : Type := Deletable (d : UploadQueueStoppedDeletable) | StoppedUninitialized.

Inductive UploadQueue : Type :=
| QUninitialized
| QInitialized (q : UploadQueueInitialized)
| QStopped (s : UploadQueueStopped).

Inductive NotInitialized : Set := NUninitialized | NStopped | NShuttingDown.

Definition no_pending_work (self : UploadQueueInitialized) : bool :=
  bool_decide (inprogress_tasks self = []) && bool_decide (queued_operations self = []).

Definition get_last_remote_consistent_lsn_projected (self : UploadQueueInitialized) : option Lsn :=
  (fun _ => tm_disk_consistent_lsn (ip_metadata (clean self).1)) <$> (clean self).2.

Definition new_queue (limit : nat) (index_part : IndexPart) (visible : Lsn) : UploadQueueInitialized :=
  mkQueue limit 0 index_part (index_part, None) 0 visible [] [] ∅ [] false false.

(** [None]: "already initialized". *)
Definition initialize_empty_remote (metadata : TimelineMetadata) (limit : nat) (self : UploadQueue) : option UploadQueue :=
  match self with
  | QUninitialized => Some (QInitialized (new_queue limit (index_part_empty metadata) 0))
  | _ => None
  end.

Definition initialize_with_current_remote_index_part (index_part : IndexPart) (limit : nat) (self : UploadQueue) :
    option UploadQueue :=
  match self with
  | QUninitialized =>
      Some (QInitialized (new_queue limit index_part (tm_disk_consistent_lsn (ip_metadata index_part))))
  | _ => None
  end.

Definition initialized_mut (self : UploadQueue) : NotInitialized + UploadQueueInitialized :=
  match self with
  | QUninitialized => inl NUninitialized
  | QInitialized x => if shutting_down x then inl NShuttingDown else inr x
  | QStopped _ => inl NStopped
  end.

Definition stopped_mut (self : UploadQueue) : option UploadQueueStoppedDeletable :=
  match self with QStopped (Deletable d) => Some d | _ => None end.
