(* ===== verification/RemoteClient.v ===== *)
(** * The remote timeline client ([pageserver/src/tenant/remote_timeline_client.rs])

    The calls that schedule uploads, deletions and new versions of the index, the
    tasks that perform them, and the ways the queue is stopped.  A call holds the
    lock of the queue from beginning to end; a task takes it only to finish.  What
    the remote storage and the deletion queue do is part of the [World]: an object
    handed to the deletion queue may be deleted at any time from then on.  Awaiting
    a channel, logging and metrics are not modelled; nor are downloads. *)

From S2P Require Import Prelude Lsn XlogUtils Key Shard LayerName IndexPart UploadQueue.

Inductive client_error : Set :=
| ENotInitialized (e : NotInitialized)
| EInvalidIndex
| ENoAncestor
| ENotArchived
| EAlreadyInitialized.

Inductive TimelineArchivalState : Set := Archived | Unarchived.
Inductive TimelineVisibilityState : Set := Visible_ | Invisible_.

(** What a call works on while it holds the lock: the queue, what it has launched
    so far, and the number of channels created. *)
Record QState := mkQState { qs_queue : UploadQueueInitialized; qs_log : list launched; qs_channels : nat }.

Definition QM (A : Type) : Type := M client_error QState A.

Definition on_queue (f : UploadQueueInitialized -> UploadQueueInitialized) : QM unit :=
  modify (fun s => mkQState (f (qs_queue s)) (qs_log s) (qs_channels s)).
Definition queue {A} (f : UploadQueueInitialized -> A) : QM A := gets (fun s => f (qs_queue s)).

Section client.
Context (no_reordering no_coalescing : bool).
Context (tenant_shard_id : TenantShardId) (generation : Generation).

Definition launch : QM unit := fun s =>
  match launch_queued_tasks no_reordering no_coalescing (qs_queue s) with
  | Some (q, ls) => (Ok tt, mkQState q (qs_log s ++ ls) (qs_channels s))
  | None => (Panic, s)
  end.

(** ** Scheduling *)

Definition schedule_index_upload : QM unit :=
  _ ← on_queue (with_dirty (fun i => with_disk_consistent_lsn (tm_disk_consistent_lsn (ip_metadata i)) i));
  _ ← on_queue (fun q => push_back (UploadMetadata (dirty q)) q);
  _ ← on_queue (with_changes 0);
  launch.

Definition schedule_layer_file_upload0 (layer : ResidentLayer) : QM unit :=
  let metadata := layer_file_metadata layer in
  name ← unwrap (desc_layer_name (rl_desc layer));
  _ ← on_queue (with_dirty (with_layers <[name := metadata]>));
  _ ← on_queue (fun q => with_changes (latest_files_changes_since_metadata_upload_scheduled q + 1) q);
  on_queue (push_back (UploadLayer name metadata None)).

Definition schedule_layer_file_upload (layer : ResidentLayer) : QM unit :=
  _ ← schedule_layer_file_upload0 layer; launch.

(** The [filter_map] over the names. *)
Fixpoint unlink_names (names : list LayerName) : QM Delete :=
  match names with
  | [] => mret []
  | name :: names =>
      meta ← queue (fun q => layer_metadata (dirty q) !! name);
      match meta with
      | Some meta =>
          _ ← on_queue (with_dirty (with_layers (delete name)));
          _ ← on_queue (fun q => with_changes (latest_files_changes_since_metadata_upload_scheduled q + 1) q);
          rest ← unlink_names names;
          mret ((name, meta) :: rest)
      | None => unlink_names names
      end
  end.

Definition schedule_unlinking_of_layers_from_index_part0 (names : list LayerName) : QM Delete :=
  with_metadata ← unlink_names names;
  changes ← queue latest_files_changes_since_metadata_upload_scheduled;
  _ ← (if decide (0 < changes) then schedule_index_upload else mret tt);
  mret with_metadata.

(** Only layers written by this shard are deleted. *)
Definition own_layers (layers : Delete) : Delete :=
  filter (fun l => si_number (lm_shard l.2) = ts_shard_number tenant_shard_id
                   /\ si_count (lm_shard l.2) = ts_shard_count tenant_shard_id) layers.

Definition schedule_deletion_of_unlinked0 (with_metadata : Delete) : QM unit :=
  match own_layers with_metadata with
  | [] => mret tt
  | layers => on_queue (push_back (DeleteOp layers))
  end.

Definition schedule_layer_file_deletion (names : list LayerName) : QM unit :=
  with_metadata ← schedule_unlinking_of_layers_from_index_part0 names;
  _ ← schedule_deletion_of_unlinked0 with_metadata;
  launch.

Definition schedule_gc_update (names : list LayerName) : QM unit :=
  _ ← schedule_unlinking_of_layers_from_index_part0 names;
  launch.

Definition schedule_unlinking_of_layers_from_index_part (names : list LayerName) : QM unit :=
  _ ← schedule_unlinking_of_layers_from_index_part0 names;
  mret tt.

Definition schedule_deletion_of_unlinked (layers : Delete) : QM unit :=
  _ ← schedule_deletion_of_unlinked0 layers;
  launch.

Fixpoint upload_all (layers : list ResidentLayer) : QM unit :=
  match layers with
  | [] => mret tt
  | layer :: layers => _ ← schedule_layer_file_upload0 layer; upload_all layers
  end.

Definition schedule_compaction_update (compacted_from : list LayerName) (compacted_to : list ResidentLayer) : QM unit :=
  _ ← upload_all compacted_to;
  _ ← schedule_unlinking_of_layers_from_index_part0 compacted_from;
  launch.

(** The receiver is the channel created. *)
Definition schedule_barrier0 : QM nat :=
  channel ← gets qs_channels;
  _ ← modify (fun s => mkQState (qs_queue s) (qs_log s) (S (qs_channels s)));
  _ ← on_queue (push_back (Barrier channel));
  _ ← launch;
  mret channel.

(** A barrier whose channel the caller then waits for. *)
Definition awaited_barrier : QM (option nat) := channel ← schedule_barrier0; mret (Some channel).

(** ** New versions of the index *)

Definition schedule_index_upload_for_full_metadata_update (metadata : TimelineMetadata) : QM unit :=
  _ ← on_queue (with_dirty (IndexPart.with_metadata metadata));
  schedule_index_upload.

Definition schedule_index_upload_for_metadata_update (update : MetadataUpdate) : QM unit :=
  _ ← on_queue (with_dirty (fun i => IndexPart.with_metadata (metadata_apply update (ip_metadata i)) i));
  valid ← queue (fun q => index_validate (dirty q));
  if valid : bool then schedule_index_upload else bail EInvalidIndex.

Definition archival_need_change (archived_at : option NaiveDateTime) (state : TimelineArchivalState) : option bool :=
  match archived_at, state with
  | Some _, Archived | None, Unarchived => None
  | None, Archived => Some true
  | Some _, Unarchived => Some false
  end.

(** Whether the caller has to wait for the queue. *)
Definition schedule_index_upload_for_timeline_archival_state (now : NaiveDateTime) (state : TimelineArchivalState) : QM bool :=
  archived_at ← queue (fun q => ip_archived_at (dirty q));
  _ ← (match archival_need_change archived_at state with
       | Some archived_at_set =>
           _ ← on_queue (with_dirty (with_archived_at (if archived_at_set : bool then Some now else None)));
           schedule_index_upload
       | None => mret tt
       end);
  uploaded ← queue (fun q => ip_archived_at (clean q).1);
  mret (bool_decide (is_Some (archival_need_change uploaded state))).

Definition invisible_need_change (marked_invisible_at : option NaiveDateTime) (state : TimelineVisibilityState) : option bool :=
  match marked_invisible_at, state with
  | Some _, Invisible_ => Some false
  | None, Invisible_ => Some true
  | Some _, Visible_ => Some false
  | None, Visible_ => Some true
  end.

Definition schedule_index_upload_for_timeline_invisible_state (now : NaiveDateTime) (state : TimelineVisibilityState) : QM unit :=
  marked_invisible_at ← queue (fun q => ip_marked_invisible_at (dirty q));
  match invisible_need_change marked_invisible_at state with
  | Some marked_invisible_at_set =>
      _ ← on_queue (with_dirty (with_marked_invisible_at (if marked_invisible_at_set : bool then Some now else None)));
      schedule_index_upload
  | None => mret tt
  end.

Definition schedule_index_upload_for_import_pgdata_state_update (state : option ImportRoot) : QM unit :=
  _ ← on_queue (with_dirty (with_import_pgdata state));
  schedule_index_upload.

Definition schedule_index_upload_for_import_pgdata_finalize (now : NaiveDateTime) : QM unit :=
  import ← queue (fun q => ip_import_pgdata (dirty q));
  match import with
  | Some old =>
      if import_is_done old then mret tt else
      _ ← on_queue (with_dirty (with_import_pgdata
                      (Some (ImportDone (import_idempotency_key old) (import_started_at old) now))));
      schedule_index_upload
  | None => mret tt
  end.

Definition schedule_index_upload_for_gc_compaction_state_update (last_completed_lsn : Lsn) : QM unit :=
  _ ← on_queue (with_dirty (with_gc_compaction (Some last_completed_lsn)));
  schedule_index_upload.

(** Only the index in memory is changed. *)
Definition schedule_index_upload_for_rel_size_v2_status_update (status : RelSizeMigration) (migrated_at : option Lsn) : QM unit :=
  on_queue (with_dirty (with_rel_size (Some status) migrated_at)).

Definition schedule_index_upload_for_file_changes : QM unit :=
  changes ← queue latest_files_changes_since_metadata_upload_scheduled;
  if decide (0 < changes) then schedule_index_upload else mret tt.

Definition force_schedule_index_upload : QM unit := schedule_index_upload.

(** The channel to wait for. *)
Definition schedule_reparenting (new_parent : TimelineId) : QM (option nat) :=
  prev ← queue (fun q => tm_ancestor_timeline (ip_metadata (dirty q)));
  prev ← ok_or ENoAncestor prev;
  uploaded ← queue (fun q => ip_metadata (clean q).1);
  if bool_decide (tm_ancestor_timeline uploaded = None) && negb (is_valid (tm_ancestor_lsn uploaded))
  then mret None
  else
    metadata ← queue (fun q => reparent new_parent (ip_metadata (dirty q)));
    metadata ← unwrap metadata;
    _ ← on_queue (with_dirty (IndexPart.with_metadata metadata));
    _ ← on_queue (with_dirty (fun i => with_lineage (record_previous_ancestor prev (ip_lineage i)).1 i));
    _ ← schedule_index_upload;
    awaited_barrier.

Fixpoint add_existing (layers : list ResidentLayer) : QM unit :=
  match layers with
  | [] => mret tt
  | layer :: layers =>
      name ← unwrap (desc_layer_name (rl_desc layer));
      prev ← queue (fun q => layer_metadata (dirty q) !! name);
      _ ← on_queue (with_dirty (with_layers <[name := layer_file_metadata layer]>));
      _ ← assert (bool_decide (prev = None));
      add_existing layers
  end.

Definition schedule_adding_existing_layers_to_index_detach (now : NaiveDateTime) (layers : list ResidentLayer)
    (adopted : TimelineId * Lsn) : QM (option nat) :=
  detached ← queue (fun q => detached_previous_ancestor (ip_lineage (clean q).1));
  if decide (detached = Some adopted) then mret None else
  metadata ← queue (fun q => detach_from_ancestor adopted (ip_metadata (dirty q)));
  metadata ← unwrap metadata;
  _ ← on_queue (with_dirty (IndexPart.with_metadata metadata));
  lineage ← queue (fun q => record_detaching now adopted (ip_lineage (dirty q)));
  lineage ← unwrap lineage;
  _ ← on_queue (with_dirty (with_lineage lineage.1));
  _ ← add_existing layers;
  _ ← schedule_index_upload;
  awaited_barrier.

Definition wants_block (reason : GcBlockingReason) (x : option GcBlocking) : bool :=
  match x with Some b => blocked_by reason b | None => false end.

Definition schedule_insert_gc_block_reason (now : NaiveDateTime) (reason : GcBlockingReason) : QM (option nat) :=
  ancestor ← queue (fun q => tm_ancestor_timeline (ip_metadata (dirty q)));
  _ ← assert (negb (bool_decide (reason = DetachAncestor /\ ancestor = None)));
  current ← queue (fun q => ip_gc_blocking (dirty q));
  uploaded ← queue (fun q => ip_gc_blocking (clean q).1);
  if wants_block reason current then
    if wants_block reason uploaded then mret None else awaited_barrier
  else
    new ← (match current with
           | Some x => unwrap (with_reason reason x)
           | None => mret (started_now_for now reason)
           end);
    _ ← on_queue (with_dirty (with_gc_blocking (Some new)));
    _ ← schedule_index_upload;
    awaited_barrier.

Definition schedule_remove_gc_block_reason (reason : GcBlockingReason) : QM (option nat) :=
  detached ← queue (fun q => is_detached_from_ancestor (ip_lineage (clean q).1));
  _ ← assert (negb (bool_decide (reason = DetachAncestor) && negb detached));
  current ← queue (fun q => ip_gc_blocking (dirty q));
  uploaded ← queue (fun q => ip_gc_blocking (clean q).1);
  if negb (wants_block reason current) then
    if negb (wants_block reason uploaded) then mret None else awaited_barrier
  else
    new ← (match current with Some x => unwrap (without_reason reason x) | None => mret None end);
    _ ← on_queue (with_dirty (with_gc_blocking new));
    _ ← assert (negb (wants_block reason new));
    _ ← schedule_index_upload;
    awaited_barrier.

(** The part of [shutdown] done under the lock: nothing is added once shutting down. *)
Definition begin_shutdown : QM unit :=
  down ← queue shutting_down;
  if down : bool then mret tt else
  _ ← on_queue (with_shutting_down true);
  _ ← on_queue (push_back Shutdown);
  launch.

Definition shutdown_if_archived : QM unit :=
  dirty_none ← queue (fun q => bool_decide (ip_archived_at (dirty q) = None));
  clean_none ← queue (fun q => bool_decide (ip_archived_at (clean q).1 = None));
  if dirty_none || clean_none then bail ENotArchived else begin_shutdown.

(** ** Finishing a task

    The LSN is handed to the deletion queue for validation. *)

Definition record_uploaded (process_remote_consistent_lsn_updates : bool) (id : Z) (uploaded : IndexPart) : QM (option Lsn) :=
  last_updater ← queue (fun q => (clean q).2);
  _ ← assert (match last_updater with Some id' => bool_decide (id' < id) | None => true end);
  _ ← on_queue (with_clean (uploaded, Some id));
  let lsn := tm_disk_consistent_lsn (ip_metadata uploaded) in
  if decide (generation = GNone) then _ ← on_queue (with_visible_lsn lsn); mret None
  else if process_remote_consistent_lsn_updates then mret (Some lsn) else mret None.

Definition finish_task (process_remote_consistent_lsn_updates : bool) (task : UploadTask) : QM (option Lsn) :=
  _ ← on_queue (fun q => with_tasks (task_counter q)
                           (filter (fun t => task_id t <> task_id task) (inprogress_tasks q)) q);
  lsn_update ← (match task_op task with
                | UploadLayer _ _ _ | DeleteOp _ => mret None
                | UploadMetadata uploaded =>
                    record_uploaded process_remote_consistent_lsn_updates (task_id task) uploaded
                | Barrier _ | Shutdown => panic
                end);
  _ ← launch;
  mret lsn_update.

(** ** The client, remote storage and the deletion queue *)

Record RemoteTimelineClientConfig := mkConfig {
  process_remote_consistent_lsn_updates : bool; block_deletions : bool
}.

Record World := mkWorld {
  w_queue : UploadQueue;
  w_config : RemoteTimelineClientConfig;
  w_running : list UploadTask;   (* tasks spawned that have not returned *)
  w_done : list Z;               (* the tasks whose operation has succeeded *)
  w_channels : nat;              (* channels created *)
  w_log : list launched;         (* everything launched, in order *)
  w_index : option IndexPart;    (* the index in remote storage *)
  w_layers : gset path;          (* the layers in remote storage *)
  w_deletions : list path;       (* what the deletion queue was given *)
  w_lsn_updates : list Lsn       (* LSNs given to it for validation *)
}.

Definition set_queue (v : UploadQueue) (w : World) : World :=
  mkWorld v (w_config w) (w_running w) (w_done w) (w_channels w) (w_log w) (w_index w) (w_layers w)
    (w_deletions w) (w_lsn_updates w).
Definition set_config (v : RemoteTimelineClientConfig) (w : World) : World :=
  mkWorld (w_queue w) v (w_running w) (w_done w) (w_channels w) (w_log w) (w_index w) (w_layers w)
    (w_deletions w) (w_lsn_updates w).
Definition set_running (v : list UploadTask) (w : World) : World :=
  mkWorld (w_queue w) (w_config w) v (w_done w) (w_channels w) (w_log w) (w_index w) (w_layers w)
    (w_deletions w) (w_lsn_updates w).
Definition set_done (v : list Z) (w : World) : World :=
  mkWorld (w_queue w) (w_config w) (w_running w) v (w_channels w) (w_log w) (w_index w) (w_layers w)
    (w_deletions w) (w_lsn_updates w).
Definition set_index (v : option IndexPart) (w : World) : World :=
  mkWorld (w_queue w) (w_config w) (w_running w) (w_done w) (w_channels w) (w_log w) v (w_layers w)
    (w_deletions w) (w_lsn_updates w).
Definition set_layers (v : gset path) (w : World) : World :=
  mkWorld (w_queue w) (w_config w) (w_running w) (w_done w) (w_channels w) (w_log w) (w_index w) v
    (w_deletions w) (w_lsn_updates w).
Definition set_deletions (v : list path) (w : World) : World :=
  mkWorld (w_queue w) (w_config w) (w_running w) (w_done w) (w_channels w) (w_log w) (w_index w) (w_layers w)
    v (w_lsn_updates w).
Definition set_lsn_updates (v : list Lsn) (w : World) : World :=
  mkWorld (w_queue w) (w_config w) (w_running w) (w_done w) (w_channels w) (w_log w) (w_index w) (w_layers w)
    (w_deletions w) v.

Definition spawned (ls : list launched) : list UploadTask :=
  omap (fun l => match l with Spawned t => Some t | Notified _ => None end) ls.

(** What the holder of the lock leaves behind. *)
Definition unlock (s : QState) (w : World) : World :=
  mkWorld (QInitialized (qs_queue s)) (w_config w) (w_running w ++ spawned (qs_log s)) (w_done w) (qs_channels s)
    (w_log w ++ qs_log s) (w_index w) (w_layers w) (w_deletions w) (w_lsn_updates w).

Definition with_lock {A} (q : UploadQueueInitialized) (m : QM A) : M client_error World A := fun w =>
  let '(o, s) := m (mkQState q [] (w_channels w)) in (o, unlock s w).

(** [guard.initialized_mut()?] and the rest of the call. *)
Definition locked {A} (m : QM A) : M client_error World A := fun w =>
  match initialized_mut (w_queue w) with
  | inl e => (Err (ENotInitialized e), w)
  | inr q => with_lock q m w
  end.

(** [if let Ok(queue) = queue_locked.initialized_mut()]. *)
Definition if_initialized (f : UploadQueueInitialized -> UploadQueueInitialized) : M client_error World unit :=
  modify (fun w => match initialized_mut (w_queue w) with inr q => set_queue (QInitialized (f q)) w | inl _ => w end).

(** *** Starting and stopping *)

Definition init_upload_queue (limit : nat) (index_part : IndexPart) : M client_error World unit :=
  q ← gets w_queue;
  q ← ok_or EAlreadyInitialized (initialize_with_current_remote_index_part index_part limit q);
  modify (set_queue q).

Definition init_upload_queue_for_empty_remote (limit : nat) (local_metadata : TimelineMetadata)
    (rel_size_v2_migration : option RelSizeMigration) (rel_size_migrated_at : option Lsn) : M client_error World unit :=
  q ← gets w_queue;
  q ← ok_or EAlreadyInitialized (initialize_empty_remote local_metadata limit q);
  _ ← modify (set_queue q);
  if_initialized (with_dirty (with_rel_size rel_size_v2_migration rel_size_migrated_at)).

(** The queue kept for a deletion has no tasks and no operations. *)
Definition queue_for_deletion (q : UploadQueueInitialized) : UploadQueueInitialized :=
  mkQueue (inprogress_limit q) 0 (dirty q) (clean q) 0 (visible_remote_consistent_lsn q) [] [] ∅ [] false false.

Definition stop : M client_error World unit :=
  modify (fun w =>
    match w_queue w with
    | QUninitialized => set_queue (QStopped StoppedUninitialized) w
    | QStopped _ => w
    | QInitialized q => set_queue (QStopped (Deletable (mkDeletable (queue_for_deletion q) NotRunning))) w
    end).

(** [shutdown] up to where it waits for [shutdown_ready]; then it calls [stop]. *)
Definition shutdown : M client_error World unit := fun w =>
  match w_queue w with
  | QStopped _ => (Ok tt, w)
  | QUninitialized => stop w
  | QInitialized q => with_lock q begin_shutdown w
  end.

(** *** Tasks *)

Definition push_layers (layers : Delete) : M client_error World unit :=
  _ ← assert (bool_decide (generation <> GNone));
  modify (fun w => set_deletions (w_deletions w ++ paths layers) w).

Context (debug_assertions : bool).

Definition modified_layers (op : UploadOp) : Delete :=
  match op with
  | UploadLayer name meta _ => [(name, meta)]
  | DeleteOp layers => layers
  | _ => []
  end.

(** Layers are not modified while referenced by the current index. *)
Definition modifies_unreferenced (op : UploadOp) (w : World) : bool :=
  match initialized_mut (w_queue w) with
  | inr q => forallb (fun '(name, meta) => negb (references (clean q).1 name meta)) (modified_layers op)
  | inl _ => true
  end.

(** How a request to remote storage ends: an error may come after it took effect. *)
Inductive response : Set := Succeeded | Failed (took_effect : bool).

Definition took_effect (r : response) : bool := match r with Succeeded => true | Failed b => b end.

Definition cancel_blocked (name : LayerName) (meta : LayerFileMetadata) (q : UploadQueueInitialized) : UploadQueueInitialized :=
  with_blocked (map (filter (fun l => ~ (l.1 = name /\ lm_generation l.2 = lm_generation meta))) (blocked_deletions q)) q.

(** One iteration of the loop of [perform_upload_task]; [true]: it leaves the loop. *)
Definition attempt (task : UploadTask) (r : response) : M client_error World bool :=
  fine ← gets (modifies_unreferenced (task_op task));
  _ ← assert (negb debug_assertions || fine);
  config ← gets w_config;
  match task_op task with
  | UploadLayer name meta mode =>
      _ ← (match mode with
           | Some FlushDeletion =>
               if block_deletions config then if_initialized (cancel_blocked name meta)
               else if_initialized (with_recently_deleted ∅)
           | _ => mret tt
           end);
      _ ← assert (bool_decide (lm_generation meta = generation));
      _ ← (if took_effect r then modify (fun w => set_layers (w_layers w ∪ {[layer_path name meta]}) w) else mret tt);
      mret (match r with Succeeded => true | _ => false end)
  | UploadMetadata uploaded =>
      _ ← (if took_effect r then modify (set_index (Some uploaded)) else mret tt);
      mret (match r with Succeeded => true | _ => false end)
  | DeleteOp layers =>
      if block_deletions config then
        _ ← if_initialized (fun q => with_blocked (blocked_deletions q ++ [layers]) q);
        mret true
      else
        match r with
        | Succeeded => _ ← push_layers layers; mret true
        | Failed _ => mret false
        end
  | Barrier _ | Shutdown => mret true
  end.

Definition attempt_task (task : UploadTask) (r : response) : M client_error World unit :=
  finished ← attempt task r;
  if finished : bool then modify (fun w => set_done (w_done w ++ [task_id task]) w) else mret tt.

(** The end of [perform_upload_task]. *)
Definition complete_task (task : UploadTask) : M client_error World unit := fun w =>
  let returned w := set_running (filter (fun t => task_id t <> task_id task) (w_running w)) w in
  match w_queue w with
  | QUninitialized => (Panic, w)
  | QStopped _ => (Ok tt, returned w)
  | QInitialized q =>
      (lsn_update ← with_lock q (finish_task (process_remote_consistent_lsn_updates (w_config w)) task);
       _ ← modify (fun w => set_lsn_updates (w_lsn_updates w ++ option_list lsn_update) w);
       modify returned) w
  end.

(** [pushed] of the blocked deletions reach the deletion queue before it refuses one. *)
Definition update_config (new_conf : RemoteTimelineClientConfig) (pushed : nat) : M client_error World unit :=
  _ ← modify (set_config new_conf);
  if block_deletions new_conf then mret tt else
  queue ← gets w_queue;
  match initialized_mut queue with
  | inl _ => mret tt
  | inr q =>
      _ ← modify (set_queue (QInitialized (with_blocked [] q)));
      match blocked_deletions q with
      | [] => mret tt
      | blocked => push_layers (concat (take pushed blocked))
      end
  end.
End client.
