(* ===== verification/UploadQueueFacts.v ===== *)
(** * What the upload queue launches

    A launch takes operations from the queue one at a time, each of which can
    bypass everything in progress and everything ahead of it; the order in which
    the tasks in progress are looked at does not matter; launching never panics. *)

From S2P Require Import Prelude Lsn XlogUtils Key Shard LayerName IndexPart UploadQueue.

(** ** Conflicts *)

Definition index_of (op : UploadOp) : option IndexPart :=
  match op with UploadMetadata i => Some i | _ => None end.

(** The versions of the index among some operations, in order. *)
Definition indexes (ops : list UploadOp) : list IndexPart := omap index_of ops.

Definition modifies (op : UploadOp) (p : path) : Prop :=
  match op with
  | UploadLayer name meta _ => p = layer_path name meta
  | DeleteOp layers => exists name meta, (name, meta) ∈ layers /\ p = layer_path name meta
  | _ => False
  end.

Lemma unreferenced_spec i index name meta :
  unreferenced i index name meta = true <-> ~ refers i (layer_path name meta) /\ ~ refers index (layer_path name meta).
Proof. unfold unreferenced. by rewrite andb_true_iff, !negb_true_iff, !references_false. Qed.

Lemma unreferenced_all i index d :
  forallb (fun '(dname, dmeta) => unreferenced i index dname dmeta) d = true
  <-> forall name meta, (name, meta) ∈ d -> ~ refers i (layer_path name meta) /\ ~ refers index (layer_path name meta).
Proof.
  rewrite forallb_forall. split.
  - intros H name meta Hin. apply unreferenced_spec. apply (H (name, meta)). by apply list_elem_of_In.
  - intros H [name meta] Hin%list_elem_of_In. by apply unreferenced_spec, H.
Qed.

Lemma disjoint_spec name meta d :
  upload_delete_disjoint name meta d = true <-> forall n m, (n, m) ∈ d -> layer_path name meta <> layer_path n m.
Proof.
  unfold upload_delete_disjoint. rewrite forallb_forall. split.
  - intros H n m Hin E. specialize (H (n, m) ltac:(by apply list_elem_of_In)). cbn in H.
    apply negb_true_iff in H. apply same_path_spec in E. congruence.
  - intros H [n m] Hin%list_elem_of_In. apply negb_true_iff, not_true_iff_false. rewrite same_path_spec. by apply H.
Qed.

(** A change of layers bypasses an upload of the index, or is bypassed by it, only
    if neither that index nor the active one refers to a layer it changes. *)
Lemma can_bypass_index op i index :
  can_bypass op (UploadMetadata i) index = true ->
  is_metadata op = false /\ forall p, modifies op p -> ~ refers i p /\ ~ refers index p.
Proof.
  destruct op as [name meta mode|j|d|c|]; cbn [can_bypass]; try done.
  - intros H%unreferenced_spec. split; [done|]. by intros p ->.
  - rewrite unreferenced_all. intros H. split; [done|]. intros p (n & m & Hin & ->). by apply H.
Qed.

Lemma index_can_bypass op i index :
  can_bypass (UploadMetadata i) op index = true ->
  is_metadata op = false /\ forall p, modifies op p -> ~ refers i p /\ ~ refers index p.
Proof.
  destruct op as [name meta mode|j|d|c|]; cbn [can_bypass]; try done.
  - intros H%unreferenced_spec. split; [done|]. by intros p ->.
  - rewrite unreferenced_all. intros H. split; [done|]. intros p (n & m & Hin & ->). by apply H.
Qed.

(** The active index matters only next to an upload of the index, and conflicts are symmetric. *)
Lemma can_bypass_active a b i j :
  is_metadata a = false -> is_metadata b = false -> can_bypass a b i = can_bypass a b j.
Proof. by destruct a, b. Qed.

Lemma can_bypass_sym a b i : can_bypass a b i = can_bypass b a i.
Proof.
  destruct a as [n m o|x|d|c|], b as [n' m' o'|x'|d'|c'|]; try done. cbn [can_bypass]. f_equal.
  apply eq_true_iff_eq. rewrite !same_path_spec. naive_solver.
Qed.

(** ** Bypassing all of a list *)

Definition last_index (i : IndexPart) (ops : list UploadOp) : IndexPart := default i (last (indexes ops)).

Lemma indexes_app a b : indexes (a ++ b) = indexes a ++ indexes b.
Proof. apply omap_app. Qed.

Lemma last_index_cons i op ops :
  last_index i (op :: ops) = last_index (match op with UploadMetadata u => u | _ => i end) ops.
Proof.
  unfold last_index. destruct op as [n m o|u|d|c|]; try done.
  change (indexes (UploadMetadata u :: ops)) with (u :: indexes ops). rewrite last_cons. by destruct (last (indexes ops)).
Qed.

Lemma last_index_app i a b : last_index i (a ++ b) = last_index (last_index i a) b.
Proof. revert i. induction a as [|op a IH]; intros i; [done|]. cbn [app]. by rewrite !last_index_cons, IH. Qed.

Lemma bypasses_all_app c i a b :
  bypasses_all c i (a ++ b) = bypasses_all c i a && bypasses_all c (last_index i a) b.
Proof.
  revert i. induction a as [|op a IH]; intros i; [done|]. cbn [app bypasses_all].
  by rewrite IH, last_index_cons, andb_assoc.
Qed.

Lemma bypasses_all_elem c i ops op :
  bypasses_all c i ops = true -> op ∈ ops ->
  exists l1 l2, ops = l1 ++ op :: l2 /\ can_bypass c op (last_index i l1) = true.
Proof.
  intros H (l1 & l2 & ->)%list_elem_of_split. exists l1, l2. split; [done|].
  rewrite bypasses_all_app, andb_true_iff in H. destruct H as [_ H]. cbn [bypasses_all] in H.
  by apply andb_true_iff in H as [H _].
Qed.

(** The indexes a change of layers has bypassed, and the one active before them. *)
Lemma bypasses_all_unreferenced c i ops p :
  bypasses_all c i ops = true -> modifies c p -> (indexes ops = [] -> ~ refers i p) ->
  forall j, j ∈ i :: indexes ops -> ~ refers j p.
Proof.
  revert i. induction ops as [|op ops IH]; intros i H Hp Hi j Hj.
  - apply list_elem_of_singleton in Hj as ->. by apply Hi.
  - cbn [bypasses_all] in H. apply andb_true_iff in H as [H1 H2]. destruct op as [n m o|u|d|c'|];
      try (by apply (IH i)).
    apply can_bypass_index in H1 as [_ Hr]. destruct (Hr p Hp) as [Hu Hai].
    apply elem_of_cons in Hj as [->|Hj]; [done|]. by apply (IH u).
Qed.

(** ** The order of the tasks in progress

    At most one of them uploads the index, so each sees the same active index. *)

Lemma bypasses_all_one_index c i ops :
  (length (indexes ops) <= 1)%nat -> bypasses_all c i ops = forallb (fun op => can_bypass c op i) ops.
Proof.
  destruct (is_metadata c) eqn:Hc.
  - destruct c as [|u| | |]; try done. revert i. induction ops as [|op ops IH]; intros i Hl; [done|].
    cbn [bypasses_all forallb]. destruct op as [n m o|v|d|c|]; try (by rewrite IH). done.
  - assert (forall j ops, indexes ops = [] -> bypasses_all c j ops = forallb (fun op => can_bypass c op i) ops) as Hnone.
    { intros j ops'. induction ops' as [|op ops' IH]; intros Hi; [done|]. cbn [bypasses_all forallb].
      destruct op as [n m o|v|d|c'|]; try discriminate Hi; (rewrite IH by done; f_equal; by apply can_bypass_active). }
    revert i Hnone. induction ops as [|op ops IH]; intros i Hnone Hl; [done|]. cbn [bypasses_all forallb].
    destruct op as [n m o|v|d|c'|]; try (by rewrite IH). f_equal. apply Hnone.
    change (indexes (UploadMetadata v :: ops)) with (v :: indexes ops) in Hl. cbn [length] in Hl.
    apply length_zero_iff_nil. lia.
Qed.

Lemma forallb_perm {A} (f : A -> bool) l k : l ≡ₚ k -> forallb f l = forallb f k.
Proof.
  induction 1 as [|x l k _ IH|x y l|l k m _ IH1 _ IH2]; cbn [forallb]; [done|by rewrite IH| |congruence].
  rewrite !andb_assoc. f_equal. apply andb_comm.
Qed.

Lemma last_index_perm i a b : (length (indexes a) <= 1)%nat -> a ≡ₚ b -> last_index i a = last_index i b.
Proof.
  intros Hl Hp. unfold last_index. assert (indexes a ≡ₚ indexes b) as Hi by (unfold indexes; by rewrite Hp).
  destruct (indexes a) as [|x [|y xs]]; [| |cbn [length] in Hl; lia].
  - by apply Permutation_nil_l in Hi as <-.
  - by apply Permutation_singleton_l in Hi as ->.
Qed.

Lemma bypasses_all_perm c i a b post :
  (length (indexes a) <= 1)%nat -> a ≡ₚ b -> bypasses_all c i (a ++ post) = bypasses_all c i (b ++ post).
Proof.
  intros Hl Hp. rewrite !bypasses_all_app, (last_index_perm i a b Hl Hp). f_equal.
  assert (length (indexes b) <= 1)%nat as Hl'.
  { assert (indexes a ≡ₚ indexes b) as Hi by (unfold indexes; by rewrite Hp). by rewrite <- (Permutation_length Hi). }
  rewrite !bypasses_all_one_index by done. by apply forallb_perm.
Qed.

(** ** Taking an operation from the queue *)

Definition ops_of (q : UploadQueueInitialized) : list UploadOp := map task_op (inprogress_tasks q).

(** There is room for another task. *)
Definition room (q : UploadQueueInitialized) : Prop :=
  inprogress_limit q = 0%nat \/ (length (inprogress_tasks q) < inprogress_limit q)%nat.

Inductive taken (q : UploadQueueInitialized) (pre coalesced : list UploadOp) (op : UploadOp) (post : list UploadOp) : Prop :=
| taken_intro :
    queued_operations q = pre ++ coalesced ++ op :: post ->
    bypasses_all op (clean q).1 (ops_of q ++ pre) = true ->
    (coalesced <> [] -> is_metadata op = true) -> Forall (fun o => is_metadata o = true) coalesced ->
    Forall (fun o => is_barrier o || is_shutdown o = false) pre -> is_shutdown op = false -> room q ->
    (forall first pre', pre = first :: pre' -> bypasses_all first (clean q).1 (ops_of q) = false) ->
    taken q pre coalesced op post.

Section launch.
Context (no_reordering no_coalescing : bool).

Lemma is_ready_at q pre op post :
  queued_operations q = pre ++ op :: post ->
  is_ready q (length pre) = Some (bypasses_all op (clean q).1 (ops_of q ++ pre)).
Proof.
  intros E. unfold is_ready, ops_ahead. rewrite E, list_lookup_middle by done. cbn [mbind option_bind].
  by rewrite take_app_length.
Qed.

Lemma remove_at_eq q pre op post :
  queued_operations q = pre ++ op :: post -> remove_at (length pre) q = Some (op, with_queued (pre ++ post) q).
Proof.
  intros E. unfold remove_at. rewrite E, list_lookup_middle by done. cbn [mbind option_bind].
  rewrite take_app_length. change (op :: post) with ([op] ++ post). rewrite app_assoc, drop_app_length'; [done|].
  rewrite length_app. cbn [length]. lia.
Qed.

Lemma with_queued_twice a b q : with_queued a (with_queued b q) = with_queued a q.
Proof. done. Qed.

(** Coalescing takes a run of index uploads, all of them ready. *)
Lemma coalesce_spec q pre : forall post fuel op done_,
  (length post <= fuel)%nat -> is_metadata op = true ->
  exists co op' post', coalesce no_coalescing fuel (length pre) (with_queued (pre ++ post) q) op done_
    = Some (with_queued (pre ++ post') q, (op', done_ ++ co)) /\ op :: post = co ++ op' :: post'
  /\ Forall (fun o => is_metadata o = true) co /\ is_metadata op' = true
  /\ (bypasses_all op (clean q).1 (ops_of q ++ pre) = true -> bypasses_all op' (clean q).1 (ops_of q ++ pre) = true).
Proof.
  induction post as [|op1 post IH]; intros fuel op done_ Hf Hm.
  - exists [], op, []. destruct fuel; cbn [coalesce queued_operations with_queued];
      rewrite app_nil_r, lookup_ge_None_2 by done; by rewrite app_nil_r.
  - assert (queued_operations (with_queued (pre ++ op1 :: post) q) = pre ++ op1 :: post) as EQ by done.
    assert (exists co op' post', Some (with_queued (pre ++ op1 :: post) q, (op, done_))
      = Some (with_queued (pre ++ post') q, (op', done_ ++ co)) /\ op :: op1 :: post = co ++ op' :: post'
      /\ Forall (fun o => is_metadata o = true) co /\ is_metadata op' = true
      /\ (bypasses_all op (clean q).1 (ops_of q ++ pre) = true -> bypasses_all op' (clean q).1 (ops_of q ++ pre) = true)) as Hstop.
    { exists [], op, (op1 :: post). by rewrite app_nil_r. }
    destruct fuel as [|fuel]; [cbn [length] in Hf; lia|]. cbn [coalesce queued_operations with_queued].
    rewrite list_lookup_middle by done.
    destruct op1 as [n m o|u|d|c|]; try exact Hstop. destruct no_coalescing eqn:Hnc; [exact Hstop|].
    rewrite (is_ready_at _ _ _ _ EQ). cbn [mbind option_bind].
    change (ops_of (with_queued (pre ++ UploadMetadata u :: post) q)) with (ops_of q).
    change (clean (with_queued (pre ++ UploadMetadata u :: post) q)) with (clean q).
    destruct (bypasses_all (UploadMetadata u) (clean q).1 (ops_of q ++ pre)) eqn:Hby; cbn [negb]; [|exact Hstop].
    rewrite (remove_at_eq _ _ _ _ EQ). cbn [mbind option_bind]. rewrite with_queued_twice.
    destruct (IH fuel (UploadMetadata u) (done_ ++ [op])) as (co & op' & post' & -> & E & Hco & Hm' & Hb);
      [cbn [length] in Hf; lia|done|].
    exists (op :: co), op', post'. split_and!; [by rewrite <- app_assoc|by rewrite E|by constructor|done|]. intros _. by apply Hb.
Qed.

Lemma not_shutdown_bypass i ops : bypasses_all Shutdown i ops = true -> ops = [].
Proof. destruct ops as [|op ops]; [done|]. cbn [bypasses_all]. by destruct op. Qed.

(** The scan finds the first operation that is ready. *)
Lemma next_ready_from_spec q : forall post pre,
  queued_operations q = pre ++ post -> Forall (fun o => is_barrier o || is_shutdown o = false) pre -> room q ->
  (forall first pre', pre = first :: pre' -> bypasses_all first (clean q).1 (ops_of q) = false) ->
  (exists pre' co op post', next_ready_from no_reordering no_coalescing q post (length pre)
     = Some (with_queued (pre' ++ post') q, Some (op, co)) /\ taken q pre' co op post')
  \/ (next_ready_from no_reordering no_coalescing q post (length pre) = Some (q, None)
      /\ forall op post', post = op :: post' -> bypasses_all op (clean q).1 (ops_of q ++ pre) = false)
  \/ (next_ready_from no_reordering no_coalescing q post (length pre) = Some (close_shutdown_ready q, None)
      /\ inprogress_tasks q = [] /\ exists post', queued_operations q = Shutdown :: post').
Proof.
  induction post as [|op post IH]; intros pre EQ Hpre Hroom Hfirst; [right; left; by split|].
  cbn [next_ready_from]. rewrite (is_ready_at _ _ _ _ EQ). cbn [mbind option_bind].
  destruct (bypasses_all op (clean q).1 (ops_of q ++ pre)) eqn:Hby.
  - destruct (is_shutdown op) eqn:Hsh.
    + right. right. destruct op; try done. apply not_shutdown_bypass, app_eq_nil in Hby as [Ht ->].
      apply map_eq_nil in Ht. unfold assert_that. rewrite !bool_decide_eq_true_2 by done. split; [done|]. split; [done|].
      by exists post.
    + left. rewrite (remove_at_eq _ _ _ _ EQ). cbn [mbind option_bind]. destruct (is_metadata op) eqn:Hm.
      * destruct (coalesce_spec q pre post (length (queued_operations (with_queued (pre ++ post) q))) op []) as
          (co & op' & post' & -> & E & Hco & Hm' & Hb); [cbn [queued_operations with_queued]; rewrite length_app; lia|done|].
        exists pre, co, op', post'. split; [done|]. split; try done; [by rewrite EQ, E|by apply Hb|by destruct op'].
      * exists pre, [], op, post. split; [done|]. by split.
  - destruct (is_barrier op || is_shutdown op) eqn:Hbs; [right; left; by split; [|intros ? ? [= <- <-]]|].
    destruct no_reordering; [right; left; by split; [|intros ? ? [= <- <-]]|].
    replace (S (length pre)) with (length (pre ++ [op])) by (rewrite length_app; cbn [length]; lia).
    destruct (IH (pre ++ [op])) as [H|[[H1 H2]|H]]; [by rewrite <- app_assoc|by apply Forall_app; split; [|constructor]|done| |..].
    { intros first pre' E. destruct pre as [|x pre]; injection E as <- <-; [by rewrite app_nil_r in Hby|by apply (Hfirst x pre)]. }
    + by left.
    + right. left. split; [done|]. by intros ? ? [= <- <-].
    + by right; right.
Qed.

(** A queue from which nothing more can start. *)
Definition settled (q : UploadQueueInitialized) : Prop :=
  room q -> forall op post, queued_operations q = op :: post ->
  (is_shutdown op = true /\ inprogress_tasks q = [] /\ shutdown_ready q = true)
  \/ bypasses_all op (clean q).1 (ops_of q) = false.

Lemma next_ready_spec q :
  (exists pre co op post, next_ready no_reordering no_coalescing q
     = Some (with_queued (pre ++ post) q, Some (op, co)) /\ taken q pre co op post)
  \/ exists q', next_ready no_reordering no_coalescing q = Some (q', None) /\ settled q'
     /\ (q' = q \/ q' = close_shutdown_ready q).
Proof.
  unfold next_ready. destruct (decide _) as [Hlim|Hlim].
  - right. exists q. split_and!; [done| |by left]. intros [Hr|Hr]; lia.
  - assert (room q) as Hroom by (unfold room; lia).
    destruct (next_ready_from_spec q (queued_operations q) [] eq_refl) as [H|[[H1 H2]|(H1 & H2 & post & H3)]];
      [by constructor|done|done|by left|..]; right.
    + exists q. split_and!; [done| |by left]. intros _ op post EQ. right. rewrite app_nil_r in H2. by apply (H2 op post).
    + exists (close_shutdown_ready q). split_and!; [done| |by right]. intros _ op post' EQ. left.
      change (queued_operations (close_shutdown_ready q)) with (queued_operations q) in EQ. rewrite H3 in EQ. by injection EQ as <- <-.
Qed.

(** ** Launching *)

(** One operation taken and launched. *)
Inductive launch1 (q : UploadQueueInitialized) : launched -> UploadQueueInitialized -> Prop :=
| launch1_intro pre co op post l q' :
    taken q pre co op post -> launch_op op co (with_queued (pre ++ post) q) = Some (q', l) -> launch1 q l q'.

Inductive launches : UploadQueueInitialized -> list launched -> UploadQueueInitialized -> Prop :=
| launches_nil q : launches q [] q
| launches_cons q l q1 ls q2 : launch1 q l q1 -> launches q1 ls q2 -> launches q (l :: ls) q2.

Lemma launch_op_total op co q : is_shutdown op = false -> exists q' l, launch_op op co q = Some (q', l).
Proof. destruct op; try done; intros _; eexists _, _; reflexivity. Qed.

Lemma launch_op_queued op co q q' l : launch_op op co q = Some (q', l) -> queued_operations q' = queued_operations q.
Proof. destruct op; cbn [launch_op spawn]; intros [= <- <-]; done. Qed.

Lemma launch_loop_spec fuel : forall q, (length (queued_operations q) <= fuel)%nat ->
  exists q1 q' ls, launch_loop no_reordering no_coalescing fuel q = Some (q', ls) /\ launches q ls q1
  /\ (q' = q1 \/ q' = close_shutdown_ready q1) /\ settled q'.
Proof.
  induction fuel as [|fuel IH]; intros q Hf;
    destruct (next_ready_spec q) as [(pre & co & op & post & Hn & Ht)|(q' & Hn & Hs & Hq)].
  - destruct Ht as [EQ _ _ _ _ _ _ _]. rewrite EQ, !length_app in Hf. cbn [length] in Hf. lia.
  - exists q, q', []. cbn [launch_loop]. rewrite Hn. split_and!; [done|constructor|done|done].
  - cbn [launch_loop]. rewrite Hn. cbn [mbind option_bind]. pose proof Ht as [EQ _ _ _ _ Hsh _ _].
    destruct (launch_op_total op co (with_queued (pre ++ post) q) Hsh) as (q2 & l & Hl). rewrite Hl. cbn [mbind option_bind].
    destruct (IH q2) as (q1 & q' & ls & -> & Hls & Hq & Hs).
    { rewrite (launch_op_queued _ _ _ _ _ Hl). cbn [queued_operations with_queued]. rewrite EQ, !length_app in Hf.
      cbn [length] in Hf. rewrite length_app. lia. }
    exists q1, q', (l :: ls). split_and!; [done| |done|done]. eapply launches_cons; [by eapply launch1_intro|done].
  - exists q, q', []. cbn [launch_loop]. rewrite Hn. split_and!; [done|constructor|done|done].
Qed.

(** [launch_queued_tasks] always returns, with nothing left that could start. *)
Lemma launch_queued_tasks_spec q :
  exists q1 q' ls, launch_queued_tasks no_reordering no_coalescing q = Some (q', ls) /\ launches q ls q1
  /\ (q' = q1 \/ q' = close_shutdown_ready q1) /\ settled q'.
Proof. by apply launch_loop_spec. Qed.
End launch.
