(* ===== verification/UploadQueueSafety.v ===== *)
(** * What the queue keeps true of the layers and the indexes

    For the index in remote storage to name only layers that are there: an index
    waits for the uploads of the layers it names, a deletion for the indexes that
    still name its layers, and an upload changes no layer an index names.  The
    queue is seen as the operations in progress [ts], those waiting [qs], the index
    [c] uploaded last and the one in memory [d]; [doomed] are the paths that may be
    deleted at any time. *)

From S2P Require Import Prelude Lsn XlogUtils Key Shard LayerName IndexPart UploadQueue UploadQueueFacts.

Definition uploads (op : UploadOp) (p : path) : Prop :=
  match op with UploadLayer name meta _ => p = layer_path name meta | _ => False end.
Definition deletes (op : UploadOp) (p : path) : Prop :=
  match op with DeleteOp layers => p ∈ paths layers | _ => False end.

Lemma modifies_spec op p : modifies op p <-> uploads op p \/ deletes op p.
Proof.
  destruct op as [n m o|i|d|c|]; cbn [modifies uploads deletes]; try tauto. unfold paths. split.
  - intros (n & m & Hin & ->). right. by apply (list_elem_of_fmap_2 (fun l => layer_path l.1 l.2) d (n, m)).
  - intros [[]|Hp]. apply list_elem_of_fmap in Hp as ([n m] & -> & Hin). by exists n, m.
Qed.

Lemma elem_indexes i ops : i ∈ indexes ops <-> UploadMetadata i ∈ ops.
Proof.
  unfold indexes. rewrite list_elem_of_omap. split.
  - intros (o & Ho & E). destruct o; try discriminate E. by injection E as ->.
  - intros H. by exists (UploadMetadata i).
Qed.

(** Membership of operations and of indexes. *)
Ltac mem := rewrite ?elem_of_cons, ?elem_indexes, ?elem_of_app, ?elem_of_cons, ?elem_of_nil in *; naive_solver.

Section seq.
Context (layers : gset path) (doomed : path -> Prop).

Record seq_ok (c d : IndexPart) (ts qs : list UploadOp) : Prop := {
  so_one : (length (indexes ts) <= 1)%nat;
  so_upload pre op post p : qs = pre ++ op :: post -> uploads op p ->
    (forall i, i ∈ c :: indexes (ts ++ pre) -> ~ refers i p) /\ (forall o, o ∈ ts ++ pre -> ~ deletes o p) /\ ~ doomed p;
  so_uploading op p : op ∈ ts -> uploads op p ->
    (forall i, i ∈ c :: indexes ts -> ~ refers i p) /\ (forall o, o ∈ ts -> ~ deletes o p) /\ ~ doomed p;
  so_index pre i post p : qs = pre ++ UploadMetadata i :: post -> refers i p ->
    p ∈ layers \/ exists o, o ∈ ts ++ pre /\ uploads o p;
  so_active i p : i ∈ c :: indexes ts -> refers i p -> p ∈ layers;
  so_dirty p : refers d p -> p ∈ layers \/ exists o, o ∈ ts ++ qs /\ uploads o p;
  so_delete pre op post p : qs = pre ++ op :: post -> deletes op p ->
    ~ refers (last_index c (ts ++ pre)) p /\ (forall i, i ∈ indexes post -> ~ refers i p) /\ ~ refers d p;
  so_doomed p : doomed p \/ (exists o, o ∈ ts /\ deletes o p) ->
    (forall i, i ∈ c :: indexes (ts ++ qs) -> ~ refers i p) /\ ~ refers d p
}.

Lemma indexes_nil op : is_metadata op = false -> indexes [op] = [].
Proof. by destruct op. Qed.

(** A position in two lists put together is in one or the other. *)
Lemma app_middle {A} (pre post l1 : list A) x l2 :
  pre ++ post = l1 ++ x :: l2 ->
  (exists l, pre = l1 ++ x :: l /\ l2 = l ++ post) \/ (exists l, post = l ++ x :: l2 /\ l1 = pre ++ l).
Proof.
  intros E. destruct (app_eq_inv _ _ _ _ E) as [(k & E1 & E2)|(k & E1 & E2)]; [|right; by exists k].
  destruct k as [|y k]; cbn [app] in E2.
  - right. exists []. rewrite app_nil_r in *. by subst.
  - injection E2 as <- ->. left. by exists k.
Qed.

Lemma last_index_skip c op ops : is_metadata op = false -> last_index c (op :: ops) = last_index c ops.
Proof. rewrite last_index_cons. by destruct op. Qed.

Lemma last_index_drop c op a b : is_metadata op = false -> last_index c (a ++ op :: b) = last_index c (a ++ b).
Proof. intros H. by rewrite !last_index_app, last_index_skip. Qed.

Lemma last_index_none c ops : indexes ops = [] -> last_index c ops = c.
Proof. unfold last_index. by intros ->. Qed.

Lemma not_metadata op i : is_metadata op = false -> op <> UploadMetadata i.
Proof. by intros H ->. Qed.

(** *** Starting an upload or a deletion *)

Lemma bypass_delete_upload op c ops p o :
  bypasses_all op c ops = true -> deletes op p -> o ∈ ops -> ~ uploads o p.
Proof.
  intros Hby Hd Ho Hu. destruct (bypasses_all_elem op c _ o Hby Ho) as (l1 & l2 & _ & Hc).
  destruct op as [| |d| |]; try done. destruct o as [n m x| | | |]; try done. cbn [can_bypass] in Hc.
  unfold deletes, paths in Hd. apply list_elem_of_fmap in Hd as ([n' m'] & E & Hin). rewrite disjoint_spec in Hc.
  apply (Hc n' m' Hin). cbn [uploads] in Hu. by rewrite <- Hu, E.
Qed.

Lemma start_change c d ts pre op op' post :
  seq_ok c d ts (pre ++ op :: post) -> bypasses_all op c (ts ++ pre) = true -> is_metadata op = false ->
  is_metadata op' = false -> (forall p, uploads op p <-> uploads op' p) -> (forall p, deletes op p <-> deletes op' p) ->
  seq_ok c d (ts ++ [op']) (pre ++ post).
Proof.
  intros Hok Hby Hm Hm' Hu Hd.
  assert (forall i, UploadMetadata i <> op) as Hn by (intros i <-; done).
  assert (forall i, UploadMetadata i <> op') as Hn' by (intros i <-; done).
  assert (forall p, deletes op p -> ~ uploads op p) as Hdu by (intros p H1 H2; by destruct op).
  split.
  - rewrite indexes_app, (indexes_nil op'), app_nil_r by done. apply Hok.
  - intros l1 x l2 p E Hx. destruct (app_middle _ _ _ _ _ E) as [(l & -> & ->)|(l & -> & ->)].
    + destruct (so_upload _ _ _ _ Hok l1 x (l ++ op :: post) p) as (H1 & H2 & H3); [by rewrite <- app_assoc|done|].
      pose proof (bypass_delete_upload op c _ p x Hby) as Hb. split_and!; [|intros o Ho Hdo|done].
      * intros i Hi. apply H1. mem.
      * rewrite !elem_of_app, list_elem_of_singleton in Ho. destruct Ho as [[Ho| ->]|Ho]; [apply (H2 o); mem| |apply (H2 o); mem].
        apply Hb in Hx; [done|by apply Hd|mem].
    + destruct (so_upload _ _ _ _ Hok (pre ++ op :: l) x l2 p) as (H1 & H2 & H3); [by rewrite <- app_assoc|done|].
      split_and!; [|intros o Ho Hdo|done].
      * intros i Hi. apply H1. mem.
      * rewrite !elem_of_app, list_elem_of_singleton in Ho. destruct Ho as [[Ho| ->]|[Ho|Ho]]; [apply (H2 o); mem| |apply (H2 o); mem..].
        apply (H2 op); [mem|by apply Hd].
  - intros x p Hx Hux. rewrite elem_of_app, list_elem_of_singleton in Hx. destruct Hx as [Hx| ->].
    + destruct (so_uploading _ _ _ _ Hok x p Hx Hux) as (H1 & H2 & H3).
      pose proof (bypass_delete_upload op c _ p x Hby) as Hb. split_and!; [|intros o Ho Hdo|done].
      * intros i Hi. apply H1. mem.
      * rewrite elem_of_app, list_elem_of_singleton in Ho. destruct Ho as [Ho| ->]; [by apply (H2 o)|].
        apply Hb in Hux; [done|by apply Hd|mem].
    + apply Hu in Hux. destruct (so_upload _ _ _ _ Hok pre op post p eq_refl Hux) as (H1 & H2 & H3). split_and!; [|intros o Ho Hdo|done].
      * intros i Hi. apply H1. mem.
      * rewrite elem_of_app, list_elem_of_singleton in Ho. destruct Ho as [Ho| ->]; [apply (H2 o); mem|].
        apply Hd in Hdo. by apply (Hdu p).
  - intros l1 i l2 p E Hr. destruct (app_middle _ _ _ _ _ E) as [(l & -> & ->)|(l & -> & ->)].
    + destruct (so_index _ _ _ _ Hok l1 i (l ++ op :: post) p) as [?|(o & Ho & Huo)]; [by rewrite <- app_assoc|done|by left|].
      right. exists o. mem.
    + destruct (so_index _ _ _ _ Hok (pre ++ op :: l) i l2 p) as [?|(o & Ho & Huo)]; [by rewrite <- app_assoc|done|by left|].
      right. rewrite !elem_of_app, elem_of_cons in Ho. destruct Ho as [Ho|[Ho|[->|Ho]]]; [exists o; mem..| |exists o; mem].
      exists op'. rewrite <- Hu. mem.
  - intros i p Hi. apply (so_active _ _ _ _ Hok). mem.
  - intros p Hr. destruct (so_dirty _ _ _ _ Hok p Hr) as [?|(o & Ho & Huo)]; [by left|]. right.
    rewrite !elem_of_app, elem_of_cons in Ho. destruct Ho as [Ho|[Ho|[->|Ho]]]; [exists o; mem..| |exists o; mem].
    exists op'. rewrite <- Hu. mem.
  - intros l1 x l2 p E Hx. destruct (app_middle _ _ _ _ _ E) as [(l & -> & ->)|(l & -> & ->)].
    + destruct (so_delete _ _ _ _ Hok l1 x (l ++ op :: post) p) as (H1 & H2 & H3); [by rewrite <- app_assoc|done|].
      split_and!; [|intros i Hi; apply H2; mem|done]. rewrite <- app_assoc. cbn [app]. by rewrite last_index_drop.
    + destruct (so_delete _ _ _ _ Hok (pre ++ op :: l) x l2 p) as (H1 & H2 & H3); [by rewrite <- app_assoc|done|].
      split_and!; [|done|done]. rewrite <- app_assoc. cbn [app]. rewrite last_index_drop by done.
      rewrite app_assoc, last_index_drop, <- app_assoc in H1 by done. done.
  - intros p [Hp|(o & Ho & Hdo)].
    + destruct (so_doomed _ _ _ _ Hok p (or_introl Hp)) as [H1 H2]. split; [|done]. intros i Hi. apply H1. mem.
    + rewrite elem_of_app, list_elem_of_singleton in Ho. destruct Ho as [Ho| ->].
      * destruct (so_doomed _ _ _ _ Hok p) as [H1 H2]; [right; by exists o|]. split; [|done]. intros i Hi. apply H1. mem.
      * apply Hd in Hdo. destruct (so_delete _ _ _ _ Hok pre op post p eq_refl Hdo) as (H1 & H2 & H3). split; [|done].
        assert (forall i, i ∈ c :: indexes (ts ++ pre) -> ~ refers i p) as Hpre.
        { apply (bypasses_all_unreferenced op c (ts ++ pre) p Hby); [apply modifies_spec; by right|].
          intros Hnil. by rewrite last_index_none in H1. }
        intros i Hi. assert (i ∈ c :: indexes (ts ++ pre) \/ i ∈ indexes post) as [?|?] by mem; [by apply Hpre|by apply H2].
Qed.

(** *** Starting an upload of the index *)

Lemma index_bypass_none i c ops : bypasses_all (UploadMetadata i) c ops = true -> indexes ops = [].
Proof.
  revert c. induction ops as [|op ops IH]; intros c H; [done|]. cbn [bypasses_all] in H.
  apply andb_true_iff in H as [H1 H2]. destruct op; try done; apply (IH _ H2).
Qed.

Lemma index_bypass_unreferenced i c ops o p :
  bypasses_all (UploadMetadata i) c ops = true -> o ∈ ops -> uploads o p \/ deletes o p -> ~ refers i p.
Proof.
  intros Hby Ho Hm. destruct (bypasses_all_elem _ c _ o Hby Ho) as (l1 & l2 & _ & Hc).
  apply index_can_bypass in Hc as [_ Hc]. apply Hc. by apply modifies_spec.
Qed.

Lemma start_index c d ts pre co i post :
  seq_ok c d ts (pre ++ co ++ UploadMetadata i :: post) -> bypasses_all (UploadMetadata i) c (ts ++ pre) = true ->
  Forall (fun o => is_metadata o = true) co ->
  seq_ok c d (ts ++ [UploadMetadata i]) (pre ++ post).
Proof.
  intros Hok Hby Hco.
  assert (indexes ts = [] /\ indexes pre = []) as [Hts Hpre].
  { apply app_eq_nil. rewrite <- indexes_app. by eapply index_bypass_none. }
  assert (forall o p, o ∈ co -> ~ uploads o p) as Hcu.
  { intros o p Ho Hu. rewrite Forall_forall in Hco. specialize (Hco o Ho). by destruct o. }
  assert (forall j, UploadMetadata j ∉ ts ++ pre) as Hno.
  { intros j Hj. apply elem_indexes in Hj. rewrite indexes_app, Hts, Hpre in Hj. by apply not_elem_of_nil in Hj. }
  split.
  - rewrite indexes_app, Hts. done.
  - intros l1 x l2 p E Hx. destruct (app_middle _ _ _ _ _ E) as [(l & -> & ->)|(l & -> & ->)].
    + destruct (so_upload _ _ _ _ Hok l1 x (l ++ co ++ UploadMetadata i :: post) p) as (H1 & H2 & H3); [by rewrite <- app_assoc|done|].
      pose proof (index_bypass_unreferenced i c _ x p Hby) as Hb. split_and!; [|intros o Ho|done].
      * intros j Hj. assert (j = i \/ j ∈ c :: indexes (ts ++ l1)) as [->|Hj'] by mem; [apply Hb; [mem|by left]|by apply H1].
      * assert (o ∈ ts ++ l1 \/ o = UploadMetadata i) as [?| ->] by mem; [by apply H2|by intros []].
    + destruct (so_upload _ _ _ _ Hok (pre ++ co ++ UploadMetadata i :: l) x l2 p) as (H1 & H2 & H3);
        [by rewrite <- !app_assoc|done|]. split_and!; [intros j Hj; apply H1; mem|intros o Ho|done].
      assert (o ∈ ts ++ pre ++ co ++ UploadMetadata i :: l) by mem. by apply H2.
  - intros x p Hx Hux. assert (x ∈ ts) as Hxt by (destruct x; try done; mem).
    destruct (so_uploading _ _ _ _ Hok x p Hxt Hux) as (H1 & H2 & H3). split_and!; [|intros o Ho|done].
    + intros j Hj. assert (j = i \/ j ∈ c :: indexes ts) as [->|Hj'] by mem; [|by apply H1].
      apply (index_bypass_unreferenced i c _ x p Hby); [mem|by left].
    + assert (o ∈ ts \/ o = UploadMetadata i) as [?| ->] by mem; [by apply H2|by intros []].
  - intros l1 j l2 p E Hr. destruct (app_middle _ _ _ _ _ E) as [(l & -> & ->)|(l & -> & ->)]; [exfalso; apply (Hno j); mem|].
    destruct (so_index _ _ _ _ Hok (pre ++ co ++ UploadMetadata i :: l) j l2 p) as [?|(o & Ho & Huo)];
      [by rewrite <- !app_assoc|done|by left|]. right. exists o. split; [|done].
    assert (o ∉ co) by (intros Hc; by apply (Hcu o p)). mem.
  - intros j p Hj Hr. assert (j = i \/ j ∈ c :: indexes ts) as [->|Hj'] by mem; [|by apply (so_active _ _ _ _ Hok j)].
    destruct (so_index _ _ _ _ Hok (pre ++ co) i post p) as [?|(o & Ho & Huo)]; [by rewrite <- app_assoc|done|done|]. exfalso.
    assert (o ∈ co \/ o ∈ ts ++ pre) as [Hc|Hc] by mem; [by apply (Hcu o p)|].
    by apply (index_bypass_unreferenced i c _ o p Hby Hc); [left|].
  - intros p Hr. destruct (so_dirty _ _ _ _ Hok p Hr) as [?|(o & Ho & Huo)]; [by left|]. right. exists o. split; [|done].
    assert (o ∉ co) by (intros Hc; by apply (Hcu o p)). mem.
  - intros l1 x l2 p E Hx. destruct (app_middle _ _ _ _ _ E) as [(l & -> & ->)|(l & -> & ->)].
    + destruct (so_delete _ _ _ _ Hok l1 x (l ++ co ++ UploadMetadata i :: post) p) as (H1 & H2 & H3); [by rewrite <- app_assoc|done|].
      split_and!; [|intros j Hj; apply H2; mem|done]. rewrite <- app_assoc, last_index_app. cbn [app]. rewrite last_index_cons.
      rewrite last_index_none; [apply H2; mem|]. rewrite indexes_app in Hpre. by apply app_eq_nil in Hpre as [? _].
    + destruct (so_delete _ _ _ _ Hok (pre ++ co ++ UploadMetadata i :: l) x l2 p) as (H1 & H2 & H3);
        [by rewrite <- !app_assoc|done|]. split_and!; [|done|done].
      rewrite !last_index_app, last_index_cons in H1. rewrite !last_index_app, last_index_cons.
      by rewrite (last_index_none _ pre Hpre).
  - intros p Hp. destruct (so_doomed _ _ _ _ Hok p) as [H1 H2]; [destruct Hp as [?|(o & Ho & Hdo)]; [by left|]|].
    { right. exists o. split; [|done]. assert (o ∈ ts \/ o = UploadMetadata i) as [?| ->] by mem; done. }
    split; [|done]. intros j Hj. apply H1. mem.
Qed.

(** *** Scheduling *)

Lemma drop_barrier c d ts b qs : seq_ok c d ts (Barrier b :: qs) -> seq_ok c d ts qs.
Proof.
  intros Hok. split.
  - apply Hok.
  - intros l1 x l2 p -> Hx. destruct (so_upload _ _ _ _ Hok (Barrier b :: l1) x l2 p eq_refl Hx) as (H1 & H2 & H3).
    split_and!; [intros i Hi; apply H1; mem|intros o Ho; apply H2; mem|done].
  - apply Hok.
  - intros l1 i l2 p -> Hr. destruct (so_index _ _ _ _ Hok (Barrier b :: l1) i l2 p eq_refl Hr) as [?|(o & Ho & Hu)]; [by left|].
    right. exists o. split; [|done]. assert (o <> Barrier b) by (intros ->; done). mem.
  - apply Hok.
  - intros p Hr. destruct (so_dirty _ _ _ _ Hok p Hr) as [?|(o & Ho & Hu)]; [by left|].
    right. exists o. split; [|done]. assert (o <> Barrier b) by (intros ->; done). mem.
  - intros l1 x l2 p -> Hx. destruct (so_delete _ _ _ _ Hok (Barrier b :: l1) x l2 p eq_refl Hx) as (H1 & H2 & H3).
    split_and!; [|done|done]. by rewrite last_index_drop in H1.
  - intros p Hp. destruct (so_doomed _ _ _ _ Hok p Hp) as [H1 H2]. split; [|done]. intros i Hi. apply H1. mem.
Qed.

(** A position in a queue with one more operation at the end. *)
Lemma app_last {A} (qs l1 : list A) op x l2 :
  qs ++ [op] = l1 ++ x :: l2 -> (exists l, qs = l1 ++ x :: l /\ l2 = l ++ [op]) \/ (l1 = qs /\ x = op /\ l2 = []).
Proof.
  intros E. destruct (app_middle _ _ _ _ _ E) as [H|(l & E1 & ->)]; [by left|]. right.
  destruct l as [|y l]; cbn [app] in E1; [injection E1 as -> <-; by rewrite app_nil_r|]. by destruct l.
Qed.

Lemma push_plain c d ts qs op : is_barrier op || is_shutdown op = true -> seq_ok c d ts qs -> seq_ok c d ts (qs ++ [op]).
Proof.
  intros Hop Hok. assert (forall i, UploadMetadata i <> op) as Hn by (intros i <-; done). split.
  - apply Hok.
  - intros l1 x l2 p [(l & -> & ->)|(-> & -> & ->)]%app_last Hx; [by eapply (so_upload _ _ _ _ Hok)|]. by destruct op.
  - apply Hok.
  - intros l1 i l2 p [(l & -> & ->)|(-> & <- & ->)]%app_last Hr; [by eapply (so_index _ _ _ _ Hok)|done].
  - apply Hok.
  - intros p Hr. destruct (so_dirty _ _ _ _ Hok p Hr) as [?|(o & Ho & Hu)]; [by left|]. right. exists o. mem.
  - intros l1 x l2 p [(l & -> & ->)|(-> & -> & ->)]%app_last Hx; [|by destruct op].
    destruct (so_delete _ _ _ _ Hok l1 x l p eq_refl Hx) as (H1 & H2 & H3). split_and!; [done|intros i Hi; apply H2; mem|done].
  - intros p Hp. destruct (so_doomed _ _ _ _ Hok p Hp) as [H1 H2]. split; [|done]. intros i Hi. apply H1. mem.
Qed.

(** A new version of the index in memory that names no more layers. *)
Lemma fewer_layers c d d' ts qs : (forall p, refers d' p -> refers d p) -> seq_ok c d ts qs -> seq_ok c d' ts qs.
Proof.
  intros Hsub Hok. split; try apply Hok.
  - intros p Hr. by apply (so_dirty _ _ _ _ Hok), Hsub.
  - intros l1 x l2 p E Hx. destruct (so_delete _ _ _ _ Hok l1 x l2 p E Hx) as (H1 & H2 & H3). split_and!; [done|done|naive_solver].
  - intros p Hp. destruct (so_doomed _ _ _ _ Hok p Hp) as [H1 H2]. split; [done|naive_solver].
Qed.

Lemma push_index c d ts qs : seq_ok c d ts qs -> seq_ok c d ts (qs ++ [UploadMetadata d]).
Proof.
  intros Hok. split.
  - apply Hok.
  - intros l1 x l2 p [(l & -> & ->)|(-> & -> & ->)]%app_last Hx; [by eapply (so_upload _ _ _ _ Hok)|done].
  - apply Hok.
  - intros l1 i l2 p [(l & -> & ->)|(-> & [= ->] & ->)]%app_last Hr; [by eapply (so_index _ _ _ _ Hok)|by apply Hok].
  - apply Hok.
  - intros p Hr. destruct (so_dirty _ _ _ _ Hok p Hr) as [?|(o & Ho & Hu)]; [by left|]. right. exists o. mem.
  - intros l1 x l2 p [(l & -> & ->)|(-> & -> & ->)]%app_last Hx; [|done].
    destruct (so_delete _ _ _ _ Hok l1 x l p eq_refl Hx) as (H1 & H2 & H3). split_and!; [done| |done].
    intros i Hi. assert (i = d \/ i ∈ indexes l) as [->|?] by mem; [done|by apply H2].
  - intros p Hp. destruct (so_doomed _ _ _ _ Hok p Hp) as [H1 H2]. split; [|done].
    intros i Hi. assert (i = d \/ i ∈ c :: indexes (ts ++ qs)) as [->|?] by mem; [done|by apply H1].
Qed.

Lemma refers_insert d name meta p :
  refers (with_layers <[name := meta]> d) p -> p = layer_path name meta \/ refers d p.
Proof.
  intros (m & Hm & E). cbn [layer_metadata with_layers] in Hm. destruct (decide (name = p.1.1)) as [->|Hn].
  - rewrite lookup_insert_eq in Hm. injection Hm as ->. by left.
  - rewrite lookup_insert_ne in Hm by done. right. by exists m.
Qed.

(** A path that is new to the queue. *)
Definition fresh (c d : IndexPart) (ts qs : list UploadOp) (p : path) : Prop :=
  (forall i, i ∈ c :: d :: indexes (ts ++ qs) -> ~ refers i p) /\ (forall o, o ∈ ts ++ qs -> ~ deletes o p) /\ ~ doomed p.

Lemma push_upload c d ts qs name meta mode :
  fresh c d ts qs (layer_path name meta) -> seq_ok c d ts qs ->
  seq_ok c (with_layers <[name := meta]> d) ts (qs ++ [UploadLayer name meta mode]).
Proof.
  intros (F1 & F2 & F3) Hok. split.
  - apply Hok.
  - intros l1 x l2 p [(l & -> & ->)|(-> & -> & ->)]%app_last Hx; [by eapply (so_upload _ _ _ _ Hok)|].
    cbn [uploads] in Hx. subst p. split_and!; [intros i Hi; apply F1; mem|done|done].
  - apply Hok.
  - intros l1 i l2 p [(l & -> & ->)|(-> & [=] & ->)]%app_last Hr. by eapply (so_index _ _ _ _ Hok).
  - apply Hok.
  - intros p [->|Hr]%refers_insert; [right; exists (UploadLayer name meta mode); mem|].
    destruct (so_dirty _ _ _ _ Hok p Hr) as [?|(o & Ho & Hu)]; [by left|]. right. exists o. mem.
  - intros l1 x l2 p [(l & -> & ->)|(-> & -> & ->)]%app_last Hx; [|done].
    destruct (so_delete _ _ _ _ Hok l1 x l p eq_refl Hx) as (H1 & H2 & H3). split_and!; [done|intros i Hi; apply H2; mem|].
    intros [->|?]%refers_insert; [|done]. apply (F2 x); [mem|done].
  - intros p Hp. destruct (so_doomed _ _ _ _ Hok p Hp) as [H1 H2]. split; [intros i Hi; apply H1; mem|].
    intros [->|?]%refers_insert; [|done]. destruct Hp as [?|(o & Ho & Hd)]; [done|]. apply (F2 o); [mem|done].
Qed.

(** A layer known to be in remote storage is added to the index. *)
Lemma adopt_layer c d ts qs name meta :
  layer_path name meta ∈ layers -> (forall o, o ∈ ts ++ qs -> ~ deletes o (layer_path name meta)) -> ~ doomed (layer_path name meta) ->
  seq_ok c d ts qs -> seq_ok c (with_layers <[name := meta]> d) ts qs.
Proof.
  intros F1 F2 F3 Hok. split; try apply Hok.
  - intros p [->|Hr]%refers_insert; [by left|by apply Hok].
  - intros l1 x l2 p E Hx. destruct (so_delete _ _ _ _ Hok l1 x l2 p E Hx) as (H1 & H2 & H3). split_and!; [done|done|].
    intros [->|?]%refers_insert; [|done]. apply (F2 x); [subst; mem|done].
  - intros p Hp. destruct (so_doomed _ _ _ _ Hok p Hp) as [H1 H2]. split; [done|].
    intros [->|?]%refers_insert; [|done]. destruct Hp as [?|(o & Ho & Hd)]; [done|]. apply (F2 o); [mem|done].
Qed.

(** A path that neither the index in memory nor the last version scheduled names. *)
Definition unlinked (c d : IndexPart) (ts qs : list UploadOp) (p : path) : Prop :=
  ~ refers d p /\ ~ refers (last_index c (ts ++ qs)) p.

Lemma push_delete c d ts qs ls :
  (forall p, p ∈ paths ls -> unlinked c d ts qs p) -> seq_ok c d ts qs -> seq_ok c d ts (qs ++ [DeleteOp ls]).
Proof.
  intros Hun Hok. split.
  - apply Hok.
  - intros l1 x l2 p [(l & -> & ->)|(-> & -> & ->)]%app_last Hx; [by eapply (so_upload _ _ _ _ Hok)|done].
  - apply Hok.
  - intros l1 i l2 p [(l & -> & ->)|(-> & [=] & ->)]%app_last Hr. by eapply (so_index _ _ _ _ Hok).
  - apply Hok.
  - intros p Hr. destruct (so_dirty _ _ _ _ Hok p Hr) as [?|(o & Ho & Hu)]; [by left|]. right. exists o. mem.
  - intros l1 x l2 p [(l & -> & ->)|(-> & -> & ->)]%app_last Hx.
    + destruct (so_delete _ _ _ _ Hok l1 x l p eq_refl Hx) as (H1 & H2 & H3). split_and!; [done|intros i Hi; apply H2; mem|done].
    + destruct (Hun p Hx) as [H1 H2]. split_and!; [done|by intros i ?%not_elem_of_nil|done].
  - intros p Hp. destruct (so_doomed _ _ _ _ Hok p Hp) as [H1 H2]. split; [|done]. intros i Hi. apply H1. mem.
Qed.

(** *** Finishing *)

Lemma finish_change c d t1 op t2 qs :
  is_metadata op = false -> (forall p, uploads op p -> p ∈ layers) ->
  seq_ok c d (t1 ++ op :: t2) qs -> seq_ok c d (t1 ++ t2) qs.
Proof.
  intros Hm Hup Hok. assert (forall i, UploadMetadata i <> op) as Hn by (intros i <-; done).
  assert (forall l, last_index c ((t1 ++ op :: t2) ++ l) = last_index c ((t1 ++ t2) ++ l)) as Hlast.
  { intros l. rewrite <- !app_assoc. cbn [app]. by apply last_index_drop. }
  split.
  - pose proof (so_one _ _ _ _ Hok) as H. rewrite indexes_app in *. change (op :: t2) with ([op] ++ t2) in H.
    by rewrite indexes_app, (indexes_nil op Hm) in H.
  - intros l1 x l2 p -> Hx. destruct (so_upload _ _ _ _ Hok l1 x l2 p eq_refl Hx) as (H1 & H2 & H3).
    split_and!; [intros i Hi; apply H1; mem|intros o Ho; apply H2; mem|done].
  - intros x p Hx Hu. destruct (so_uploading _ _ _ _ Hok x p ltac:(mem) Hu) as (H1 & H2 & H3).
    split_and!; [intros i Hi; apply H1; mem|intros o Ho; apply H2; mem|done].
  - intros l1 i l2 p E Hr. destruct (so_index _ _ _ _ Hok l1 i l2 p E Hr) as [?|(o & Ho & Hu)]; [by left|].
    destruct (decide (p ∈ layers)); [by left|]. right. exists o. assert (o <> op) by naive_solver. mem.
  - intros i p Hi. apply (so_active _ _ _ _ Hok). mem.
  - intros p Hr. destruct (so_dirty _ _ _ _ Hok p Hr) as [?|(o & Ho & Hu)]; [by left|].
    destruct (decide (p ∈ layers)); [by left|]. right. exists o. assert (o <> op) by naive_solver. mem.
  - intros l1 x l2 p E Hx. destruct (so_delete _ _ _ _ Hok l1 x l2 p E Hx) as (H1 & H2 & H3). split_and!; [|done|done]. by rewrite <- Hlast.
  - intros p Hp. destruct (so_doomed _ _ _ _ Hok p) as [H1 H2]; [destruct Hp as [?|(o & Ho & Hd)]; [by left|right; exists o; mem]|].
    split; [|done]. intros i Hi. apply H1. mem.
Qed.

Lemma finish_index c d t1 i t2 qs : seq_ok c d (t1 ++ UploadMetadata i :: t2) qs -> seq_ok i d (t1 ++ t2) qs.
Proof.
  intros Hok. assert (indexes (t1 ++ t2) = []) as Hnone.
  { pose proof (so_one _ _ _ _ Hok) as H. rewrite !indexes_app in *.
    change (indexes (UploadMetadata i :: t2)) with (i :: indexes t2) in H. rewrite length_app in H. cbn [length] in H.
    destruct (indexes t1), (indexes t2); cbn [length] in H; try lia. done. }
  assert (forall l, last_index c ((t1 ++ UploadMetadata i :: t2) ++ l) = last_index i ((t1 ++ t2) ++ l)) as Hlast.
  { intros l. rewrite !last_index_app, last_index_cons. rewrite indexes_app in Hnone. apply app_eq_nil in Hnone as [Hn1 Hn2].
    by rewrite (last_index_none _ t2 Hn2), (last_index_none _ t1 Hn1), (last_index_none _ t2 Hn2). }
  split.
  - rewrite Hnone. cbn [length]. lia.
  - intros l1 x l2 p -> Hx. destruct (so_upload _ _ _ _ Hok l1 x l2 p eq_refl Hx) as (H1 & H2 & H3).
    split_and!; [intros j Hj; apply H1; mem|intros o Ho; apply H2; mem|done].
  - intros x p Hx Hu. destruct (so_uploading _ _ _ _ Hok x p ltac:(mem) Hu) as (H1 & H2 & H3).
    split_and!; [intros j Hj; apply H1; mem|intros o Ho; apply H2; mem|done].
  - intros l1 j l2 p E Hr. destruct (so_index _ _ _ _ Hok l1 j l2 p E Hr) as [?|(o & Ho & Hu)]; [by left|].
    right. exists o. assert (o <> UploadMetadata i) by (intros ->; done). mem.
  - intros j p Hj. apply (so_active _ _ _ _ Hok). mem.
  - intros p Hr. destruct (so_dirty _ _ _ _ Hok p Hr) as [?|(o & Ho & Hu)]; [by left|].
    right. exists o. assert (o <> UploadMetadata i) by (intros ->; done). mem.
  - intros l1 x l2 p E Hx. destruct (so_delete _ _ _ _ Hok l1 x l2 p E Hx) as (H1 & H2 & H3). split_and!; [|done|done]. by rewrite <- Hlast.
  - intros p Hp. destruct (so_doomed _ _ _ _ Hok p) as [H1 H2]; [destruct Hp as [?|(o & Ho & Hd)]; [by left|right; exists o; mem]|].
    split; [|done]. intros j Hj. apply H1. mem.
Qed.
End seq.

(** Remote storage changes: layers appear, doomed ones go, and what a deletion in
    progress deletes becomes doomed. *)
Lemma seq_ok_world layers doomed layers' doomed' c d ts qs :
  (forall p, doomed' p -> doomed p \/ exists o, o ∈ ts /\ deletes o p) ->
  (forall p, p ∈ layers -> p ∈ layers' \/ doomed p \/ exists o, o ∈ ts /\ deletes o p) ->
  seq_ok layers doomed c d ts qs -> seq_ok layers' doomed' c d ts qs.
Proof.
  intros Hd Hl Hok.
  assert (forall i p, i ∈ c :: d :: indexes (ts ++ qs) -> refers i p -> p ∈ layers -> p ∈ layers') as Hstay.
  { intros i p Hi Hr Hp. destruct (Hl p Hp) as [?|Hp']; [done|]. exfalso.
    destruct (so_doomed _ _ _ _ _ _ Hok p) as [H1 H2]; [tauto|]. rewrite !elem_of_cons in Hi.
    destruct Hi as [->|[->|Hi]]; [by apply (H1 c); [left|]|done|]. by apply (H1 i); [right|]. }
  split.
  - apply Hok.
  - intros l1 x l2 p E Hx. destruct (so_upload _ _ _ _ _ _ Hok l1 x l2 p E Hx) as (H1 & H2 & H3). split_and!; [done|done|].
    intros [?|(o & Ho & Hdo)]%Hd; [done|]. apply (H2 o); [mem|done].
  - intros x p Hx Hu. destruct (so_uploading _ _ _ _ _ _ Hok x p Hx Hu) as (H1 & H2 & H3). split_and!; [done|done|].
    intros [?|(o & Ho & Hdo)]%Hd; [done|]. by apply (H2 o).
  - intros l1 i l2 p E Hr. destruct (so_index _ _ _ _ _ _ Hok l1 i l2 p E Hr) as [?|?]; [|by right]. left.
    apply (Hstay i); [subst; mem|done|done].
  - intros i p Hi Hr. apply (Hstay i); [mem|done|]. by apply (so_active _ _ _ _ _ _ Hok i).
  - intros p Hr. destruct (so_dirty _ _ _ _ _ _ Hok p Hr) as [?|?]; [|by right]. left. apply (Hstay d); [mem|done|done].
  - apply Hok.
  - intros p Hp. apply (so_doomed _ _ _ _ _ _ Hok). destruct Hp as [Hp|Hp]; [by apply Hd|by right].
Qed.

(** ** The queue *)

Section queue.
Context (no_reordering no_coalescing : bool) (layers : gset path) (deletions : list path).

Definition doomed (q : UploadQueueInitialized) (p : path) : Prop :=
  p ∈ deletions \/ exists d, d ∈ blocked_deletions q /\ p ∈ paths d.

Record tasks_ok (q : UploadQueueInitialized) : Prop := {
  to_ids : NoDup (map task_id (inprogress_tasks q));
  to_counter t : t ∈ inprogress_tasks q -> task_id t <= task_counter q;
  to_clean id : (clean q).2 = Some id ->
    id <= task_counter q /\ forall t, t ∈ inprogress_tasks q -> is_metadata (task_op t) = true -> id < task_id t;
  to_ops t : t ∈ inprogress_tasks q -> is_barrier (task_op t) || is_shutdown (task_op t) = false;
  to_limit : inprogress_limit q = 0%nat \/ (length (inprogress_tasks q) <= inprogress_limit q)%nat
}.

Record queue_ok (q : UploadQueueInitialized) : Prop := {
  qo_seq : seq_ok layers (doomed q) (clean q).1 (dirty q) (ops_of q) (queued_operations q);
  qo_tasks : tasks_ok q
}.

Lemma tasks_ok_same q q' :
  inprogress_tasks q' = inprogress_tasks q -> task_counter q' = task_counter q -> clean q' = clean q ->
  inprogress_limit q' = inprogress_limit q -> tasks_ok q -> tasks_ok q'.
Proof. intros E1 E2 E3 E4 [H1 H2 H3 H4 H5]. split; rewrite ?E1, ?E2, ?E3, ?E4; done. Qed.

Lemma taken_not_barrier q pre co op post : taken q pre co op post -> is_barrier op = true -> ops_of q = [] /\ pre = [].
Proof.
  intros [_ Hby _ _ _ _ _] Hb. apply app_eq_nil. destruct op as [| | |c|]; try done.
  destruct (ops_of q ++ pre) as [|o os]; [done|]. cbn [bypasses_all] in Hby. by destruct o.
Qed.

Lemma spawn_tasks q op co :
  tasks_ok q -> room q -> is_barrier op || is_shutdown op = false -> (is_metadata op = true -> indexes (ops_of q) = []) ->
  tasks_ok (spawn op co q).1.
Proof.
  intros Hok Hroom Hop Hm. unfold spawn. cbn [fst]. split; cbn [inprogress_tasks task_counter clean inprogress_limit with_tasks].
  - rewrite map_app. apply NoDup_app. split_and!; [apply Hok| |apply NoDup_singleton].
    intros id Hid Hs. apply list_elem_of_singleton in Hs as ->. apply list_elem_of_fmap in Hid as (t & E & Ht).
    pose proof (to_counter q Hok t Ht). cbn [task_id] in E. lia.
  - intros t. rewrite elem_of_app, list_elem_of_singleton. intros [Ht| ->]; [pose proof (to_counter q Hok t Ht); lia|cbn [task_id]; lia].
  - intros id Hid. destruct (to_clean q Hok id Hid) as [H1 H2]. split; [lia|].
    intros t. rewrite elem_of_app, list_elem_of_singleton. intros [Ht| ->] Hmt; [by apply H2|cbn [task_id]; lia].
  - intros t. rewrite elem_of_app, list_elem_of_singleton. intros [Ht| ->]; [by apply Hok|done].
  - rewrite length_app. cbn [length]. destruct Hroom; lia.
Qed.

Lemma launch1_ok q l q' : launch1 q l q' -> queue_ok q -> queue_ok q'.
Proof.
  intros [pre co op post l' q1 Ht Hl] [Hseq Htasks]. pose proof (taken_not_barrier _ _ _ _ _ Ht) as Hbar.
  destruct Ht as [EQ Hby Hco1 Hco2 Hpre Hsh Hroom Hfirst]. rewrite EQ in Hseq.
  destruct op as [name meta mode|i|ls|b|]; try done; cbn [launch_op] in Hl.
  - destruct co as [|o co]; [|by specialize (Hco1 ltac:(done))]. cbn [app] in Hseq. injection Hl as <- <-. split.
    + unfold ops_of. cbn [with_tasks inprogress_tasks with_queued with_recently_deleted]. rewrite map_app.
      by eapply start_change.
    + apply (spawn_tasks (with_recently_deleted (recently_deleted q ∖ {[(name, lm_generation meta)]}) (with_queued (pre ++ post) q))
        (UploadLayer name meta (Some _)) []); [by eapply tasks_ok_same; [..|exact Htasks]|done..].
  - injection Hl as <- <-. split.
    + unfold ops_of. cbn [with_tasks inprogress_tasks with_queued]. rewrite map_app. by eapply start_index.
    + apply (spawn_tasks (with_queued (pre ++ post) q) (UploadMetadata i) co); [by eapply tasks_ok_same; [..|exact Htasks]|done|done|]. intros _. apply index_bypass_none in Hby. rewrite indexes_app in Hby.
      by apply app_eq_nil in Hby as [? _].
  - destruct co as [|o co]; [|by specialize (Hco1 ltac:(done))]. cbn [app] in Hseq. injection Hl as <- <-. split.
    + unfold ops_of. cbn [with_tasks inprogress_tasks with_queued with_recently_deleted]. rewrite map_app.
      by eapply start_change.
    + apply (spawn_tasks (with_recently_deleted (recently_deleted q ∪ list_to_set (map (fun '(name, meta) => (name, lm_generation meta)) ls))
        (with_queued (pre ++ post) q)) (DeleteOp ls) []); [by eapply tasks_ok_same; [..|exact Htasks]|done..].
  - destruct co as [|o co]; [|by specialize (Hco1 ltac:(done))]. injection Hl as <- <-. destruct (Hbar eq_refl) as [_ ->].
    cbn [app] in Hseq. split; [by eapply drop_barrier|by eapply tasks_ok_same; [..|exact Htasks]].
Qed.

Lemma launches_ok q ls q' : launches q ls q' -> queue_ok q -> queue_ok q'.
Proof. induction 1 as [|q l q1 ls q2 H1 _ IH]; [done|]. intros Hq. by apply IH, (launch1_ok q l). Qed.

Lemma close_ok q : queue_ok q -> queue_ok (close_shutdown_ready q).
Proof. intros [H1 H2]. split; [done|by eapply tasks_ok_same; [..|exact H2]]. Qed.

Lemma launch_ok q : queue_ok q ->
  exists q' ls, launch_queued_tasks no_reordering no_coalescing q = Some (q', ls) /\ queue_ok q'.
Proof.
  intros Hok. destruct (launch_queued_tasks_spec no_reordering no_coalescing q) as (q1 & q' & ls & HE & Hl & Hq & _).
  exists q', ls. split; [done|]. pose proof (launches_ok _ _ _ Hl Hok). destruct Hq as [->| ->]; [done|by apply close_ok].
Qed.
End queue.
