(* ===== verification/RemoteClientFacts.v ===== *)
(** * What the calls of the remote timeline client preserve

    Every call is made of a few steps: changing the index in memory, queueing an
    operation, launching.  An assertion that these steps preserve is preserved by
    every call. *)

From S2P Require Import Prelude Lsn XlogUtils Key Shard LayerName IndexPart UploadQueue.
From S2P Require Import UploadQueueFacts UploadQueueSafety RemoteClient.

Definition upd (f : UploadQueueInitialized -> UploadQueueInitialized) (s : QState) : QState :=
  mkQState (f (qs_queue s)) (qs_log s) (qs_channels s).

(** The result of a call that does not panic. *)
Definition unless_panic {A} (L : QState -> Prop) (o : outcome client_error A) (s : QState) : Prop :=
  match o with Panic => True | _ => L s end.

(** ** The calls *)

Inductive call : Type :=
| CUpload (layer : ResidentLayer)
| CCompaction (compacted_from : list LayerName) (compacted_to : list ResidentLayer)
| CDelete (names : list LayerName)
| CDeleteUnlinked (layers : Delete)
| CGcUpdate (names : list LayerName)
| CUnlink (names : list LayerName)
| CDetach (now : NaiveDateTime) (layers : list ResidentLayer) (adopted : TimelineId * Lsn)
| CMetadata (metadata : TimelineMetadata)
| CMetadataUpdate (update : MetadataUpdate)
| CArchival (now : NaiveDateTime) (state : TimelineArchivalState)
| CInvisible (now : NaiveDateTime) (state : TimelineVisibilityState)
| CImport (state : option ImportRoot)
| CImportFinalize (now : NaiveDateTime)
| CGcCompaction (last_completed_lsn : Lsn)
| CRelSize (status : RelSizeMigration) (migrated_at : option Lsn)
| CFileChanges
| CForceIndex
| CReparent (new_parent : TimelineId)
| CBlockGc (now : NaiveDateTime) (reason : GcBlockingReason)
| CUnblockGc (reason : GcBlockingReason)
| CBarrier
| CShutdownIfArchived.

Definition ignore {A} (m : QM A) : QM unit := _ ← m; mret tt.

Section calls.
Context (no_reordering no_coalescing : bool) (tenant_shard_id : TenantShardId).
Abbreviation with_switches f := (f no_reordering no_coalescing).

Definition run_call (c : call) : QM unit :=
  match c with
  | CUpload layer => with_switches schedule_layer_file_upload layer
  | CCompaction from to => with_switches schedule_compaction_update from to
  | CDelete names => with_switches schedule_layer_file_deletion tenant_shard_id names
  | CDeleteUnlinked layers => with_switches schedule_deletion_of_unlinked tenant_shard_id layers
  | CGcUpdate names => with_switches schedule_gc_update names
  | CUnlink names => with_switches schedule_unlinking_of_layers_from_index_part names
  | CDetach now layers adopted => ignore (with_switches schedule_adding_existing_layers_to_index_detach now layers adopted)
  | CMetadata metadata => with_switches schedule_index_upload_for_full_metadata_update metadata
  | CMetadataUpdate update => with_switches schedule_index_upload_for_metadata_update update
  | CArchival now state => ignore (with_switches schedule_index_upload_for_timeline_archival_state now state)
  | CInvisible now state => with_switches schedule_index_upload_for_timeline_invisible_state now state
  | CImport state => with_switches schedule_index_upload_for_import_pgdata_state_update state
  | CImportFinalize now => with_switches schedule_index_upload_for_import_pgdata_finalize now
  | CGcCompaction lsn => with_switches schedule_index_upload_for_gc_compaction_state_update lsn
  | CRelSize status migrated_at => schedule_index_upload_for_rel_size_v2_status_update status migrated_at
  | CFileChanges => with_switches schedule_index_upload_for_file_changes
  | CForceIndex => with_switches force_schedule_index_upload
  | CReparent new_parent => ignore (with_switches schedule_reparenting new_parent)
  | CBlockGc now reason => ignore (with_switches schedule_insert_gc_block_reason now reason)
  | CUnblockGc reason => ignore (with_switches schedule_remove_gc_block_reason reason)
  | CBarrier => ignore (with_switches awaited_barrier)
  | CShutdownIfArchived => with_switches shutdown_if_archived
  end.
End calls.

(** ** Assertions that the steps of a call preserve *)

Section preserved.
Context (no_reordering no_coalescing : bool) (tenant_shard_id : TenantShardId) (generation : Generation).

(** The counter of changes is unsigned. *)
Definition nonneg (f : UploadQueueInitialized -> Z) : Prop :=
  forall q, 0 <= latest_files_changes_since_metadata_upload_scheduled q -> 0 <= f q.

(** [I] holds throughout a call, [L] whenever the lock is free. *)
Class Preserved (I L : QState -> Prop) : Prop := {
  pr_weaken s : L s -> I s;
  pr_dirty f s : (forall i, layer_metadata (f i) = layer_metadata i) -> I s -> I (upd (with_dirty f) s);
  pr_dirty' f s : (forall i, layer_metadata (f i) = layer_metadata i) -> L s -> L (upd (with_dirty f) s);
  pr_unlink name s : I s -> I (upd (with_dirty (with_layers (delete name))) s);
  pr_unlink' name s : L s -> L (upd (with_dirty (with_layers (delete name))) s);
  pr_changes f s : nonneg f -> I s -> I (upd (fun q => with_changes (f q) q) s);
  pr_changes' f s : nonneg f -> L s -> L (upd (fun q => with_changes (f q) q) s);
  pr_shutting s : I s -> I (upd (with_shutting_down true) s);
  pr_index s : I s -> I (upd (fun q => push_back (UploadMetadata (dirty q)) q) s);
  pr_shutdown s : I s -> I (upd (push_back Shutdown) s);
  pr_barrier s : I s -> I (mkQState (push_back (Barrier (qs_channels s)) (qs_queue s)) (qs_log s) (S (qs_channels s)));
  pr_launch s q ls : I s -> launch_queued_tasks no_reordering no_coalescing (qs_queue s) = Some (q, ls) ->
    L (mkQState q (qs_log s ++ ls) (qs_channels s))
}.

Context (I L : QState -> Prop) `{HP : !Preserved I L}.

Lemma wp_on_queue f (Q : outcome client_error unit -> QState -> Prop) s : Q (Ok tt) (upd f s) -> wp (on_queue f) Q s.
Proof. done. Qed.
Lemma wp_queue {A} (f : UploadQueueInitialized -> A) (Q : outcome client_error A -> QState -> Prop) s :
  Q (Ok (f (qs_queue s))) s -> wp (queue f) Q s.
Proof. done. Qed.

Lemma wp_launch (Q : outcome client_error unit -> QState -> Prop) s :
  I s -> (forall s', L s' -> Q (Ok tt) s') -> wp (launch no_reordering no_coalescing) Q s.
Proof.
  intros Hs HQ. unfold wp, launch. destruct (launch_queued_tasks_spec no_reordering no_coalescing (qs_queue s))
    as (q1 & q' & ls & E & _). rewrite E. apply HQ. by apply (pr_launch s).
Qed.

Lemma wp_index (Q : outcome client_error unit -> QState -> Prop) s :
  I s -> (forall s', L s' -> Q (Ok tt) s') -> wp (schedule_index_upload no_reordering no_coalescing) Q s.
Proof.
  intros Hs HQ. unfold schedule_index_upload. do 3 (apply wp_bind, wp_on_queue). apply wp_launch; [|done].
  apply (pr_changes (fun _ => 0)); [done|]. apply pr_index, pr_dirty; done.
Qed.

Lemma wp_barrier (Q : outcome client_error (option nat) -> QState -> Prop) s :
  I s -> (forall c s', L s' -> Q (Ok (Some c)) s') -> wp (awaited_barrier no_reordering no_coalescing) Q s.
Proof.
  intros Hs HQ. unfold awaited_barrier, schedule_barrier0. apply wp_bind, wp_bind, wp_gets, wp_bind, wp_modify, wp_bind, wp_on_queue, wp_bind.
  apply wp_launch; [exact (pr_barrier s Hs)|]. intros s' HL. apply wp_ret, wp_ret. by apply HQ.
Qed.

Lemma wp_unlink_names names : forall (Q : outcome client_error Delete -> QState -> Prop) s,
  L s -> (forall ms s', L s' -> Q (Ok ms) s') -> wp (unlink_names names) Q s.
Proof.
  induction names as [|name names IH]; intros Q s Hs HQ; cbn [unlink_names]; [apply wp_ret; by apply HQ|].
  apply wp_bind, wp_queue. destruct (layer_metadata (dirty (qs_queue s)) !! name) as [meta|]; [|by apply IH].
  do 2 (apply wp_bind, wp_on_queue). apply wp_bind. apply IH; [apply pr_changes'; [intros q ?; lia|]; by apply pr_unlink'|].
  intros ms s' Hs'. apply wp_ret. by apply HQ.
Qed.

Lemma wp_unlinking0 names (Q : outcome client_error Delete -> QState -> Prop) s :
  L s -> (forall ms s', L s' -> Q (Ok ms) s') ->
  wp (schedule_unlinking_of_layers_from_index_part0 no_reordering no_coalescing names) Q s.
Proof.
  intros Hs HQ. apply wp_bind. apply wp_unlink_names; [done|]. intros ms s' Hs'. apply wp_bind, wp_queue, wp_bind.
  destruct (decide _); [apply wp_index; [by apply pr_weaken|]|apply wp_ret]; intros; apply wp_ret; by apply HQ.
Qed.

(** The calls that name no layer but to unlink it. *)
Definition plain (c : call) : bool :=
  match c with CUpload _ | CCompaction _ _ | CDelete _ | CDeleteUnlinked _ | CDetach _ _ _ => false | _ => true end.

Lemma wp_unwrap {A} (o : option A) (Q : outcome client_error A -> QState -> Prop) s :
  (forall a, o = Some a -> Q (Ok a) s) -> Q Panic s -> wp (unwrap o) Q s.
Proof. destruct o; intros H1 H2; [by apply (wp_ret a), H1|done]. Qed.

Lemma wp_ok_or {A} e (o : option A) (Q : outcome client_error A -> QState -> Prop) s :
  (forall a, o = Some a -> Q (Ok a) s) -> Q (Err e) s -> wp (ok_or e o) Q s.
Proof. destruct o; intros H1 H2; [by apply (wp_ret a), H1|done]. Qed.

#[local] Opaque schedule_index_upload awaited_barrier launch on_queue queue.

Ltac steps :=
  repeat first
    [ progress cbn [unless_panic] | done
    | apply wp_index; [|intros] | apply wp_barrier; [|intros] | apply wp_launch; [|intros]
    | apply wp_bind | apply wp_queue | apply wp_on_queue | apply wp_bail | apply wp_ret | apply wp_assert; intros
    | apply wp_unwrap; [intros|] | apply wp_ok_or; [intros|]
    | apply pr_shutdown | apply pr_shutting | apply pr_dirty; [by intros|] | apply pr_dirty'; [by intros|]
    | match goal with
      | |- wp (if ?b then _ else _) _ _ => destruct b
      | |- wp (match ?x with Some _ => _ | None => _ end) _ _ => destruct x
      end
    | by apply pr_weaken ].

Lemma plain_preserved c s :
  plain c = true -> L s -> wp (run_call no_reordering no_coalescing tenant_shard_id c) (unless_panic L) s.
Proof.
  intros Hc Hs. destruct c; try done; cbn [run_call].
  - apply wp_bind. apply wp_unlinking0; [done|]. intros ms s' Hs'. steps.
  - apply wp_bind. apply wp_unlinking0; [done|]. intros ms s' Hs'. steps.
  - unfold schedule_index_upload_for_full_metadata_update. steps.
  - unfold schedule_index_upload_for_metadata_update. steps.
  - unfold ignore, schedule_index_upload_for_timeline_archival_state. steps.
  - unfold schedule_index_upload_for_timeline_invisible_state. steps.
  - unfold schedule_index_upload_for_import_pgdata_state_update. steps.
  - unfold schedule_index_upload_for_import_pgdata_finalize. steps.
  - unfold schedule_index_upload_for_gc_compaction_state_update. steps.
  - unfold schedule_index_upload_for_rel_size_v2_status_update. steps.
  - unfold schedule_index_upload_for_file_changes. steps.
  - unfold force_schedule_index_upload. steps.
  - unfold ignore, schedule_reparenting. steps.
  - unfold ignore, schedule_insert_gc_block_reason. steps.
  - unfold ignore, schedule_remove_gc_block_reason. steps.
  - unfold ignore. steps.
  - unfold shutdown_if_archived, begin_shutdown. steps.
Qed.
End preserved.

Arguments pr_weaken {_ _ _ _ _}.
Arguments pr_dirty {_ _ _ _ _}.
Arguments pr_dirty' {_ _ _ _ _}.
Arguments pr_unlink {_ _ _ _ _}.
Arguments pr_unlink' {_ _ _ _ _}.
Arguments pr_changes {_ _ _ _ _}.
Arguments pr_changes' {_ _ _ _ _}.
Arguments pr_shutting {_ _ _ _ _}.
Arguments pr_index {_ _ _ _ _}.
Arguments pr_shutdown {_ _ _ _ _}.
Arguments pr_barrier {_ _ _ _ _}.
Arguments pr_launch {_ _ _ _ _}.

(** ** Properties that do not depend on the layers named *)

Class Insensitive (no_reordering no_coalescing : bool) (I L : QState -> Prop) : Prop := {
  in_preserved :: Preserved no_reordering no_coalescing I L;
  in_dirty f s : I s -> I (upd (with_dirty f) s);
  in_push op s : I s -> I (upd (push_back op) s)
}.

Definition no_error {A} (I : QState -> Prop) (o : outcome client_error A) (s : QState) : Prop :=
  match o with Ok _ => I s | Err _ => False | Panic => True end.

Section insensitive.
Context (nr nc : bool) (tenant_shard_id : TenantShardId).
Context (I L : QState -> Prop) `{HI : !Insensitive nr nc I L}.

Lemma weak_preserved : Preserved nr nc I I.
Proof.
  split; try (intros; done); intros; try (by first [apply in_dirty|apply pr_changes|apply pr_shutting|apply pr_index|apply pr_shutdown|apply pr_barrier]).
  by apply (pr_weaken (L := L)), (pr_launch s).
Qed.

Lemma upload_all_insensitive ls : forall s, I s -> wp (upload_all ls) (no_error I) s.
Proof.
  induction ls as [|l ls IH]; intros s Hs; cbn [upload_all]; [by apply wp_ret|].
  apply wp_bind. unfold schedule_layer_file_upload0. apply wp_bind, wp_unwrap; [|done]. intros name _.
  do 2 (apply wp_bind, wp_on_queue). apply wp_on_queue, IH, in_push.
  apply (pr_changes (fun q => latest_files_changes_since_metadata_upload_scheduled q + 1)); [intros q ?; lia|]. by apply in_dirty.
Qed.

Lemma add_existing_insensitive ls : forall s, I s -> wp (add_existing ls) (no_error I) s.
Proof.
  induction ls as [|l ls IH]; intros s Hs; cbn [add_existing]; [by apply wp_ret|].
  apply wp_bind, wp_unwrap; [|done]. intros name _. apply wp_bind, wp_queue, wp_bind, wp_on_queue, wp_bind, wp_assert; [|done].
  intros _. by apply IH, in_dirty.
Qed.

Lemma deletion_insensitive ms s : I s -> wp (schedule_deletion_of_unlinked0 tenant_shard_id ms) (no_error I) s.
Proof.
  intros Hs. unfold schedule_deletion_of_unlinked0. destruct (own_layers _ _); [by apply wp_ret|]. apply wp_on_queue. by apply in_push.
Qed.

Lemma then_launch_insensitive (m : QM unit) s : wp m (no_error I) s -> wp (m ≫= fun _ => launch nr nc) (unless_panic L) s.
Proof.
  intros Hm. apply wp_bind. eapply wp_mono; [exact Hm|]. intros [[]|e|] s' Hs'; [|done|done].
  by apply (wp_launch nr nc I L).
Qed.

Lemma unlinking0_insensitive names s :
  I s -> wp (schedule_unlinking_of_layers_from_index_part0 nr nc names) (no_error I) s.
Proof. intros Hs. apply (wp_unlinking0 nr nc I I (HP := weak_preserved)); done. Qed.

Lemma call_insensitive c s : L s -> wp (run_call nr nc tenant_shard_id c) (unless_panic L) s.
Proof.
  intros HL. pose proof (pr_weaken s HL) as Hs. destruct (plain c) eqn:Hp; [by apply (plain_preserved nr nc tenant_shard_id I L)|].
  destruct c; try done; cbn [run_call].
  - apply then_launch_insensitive. pose proof (upload_all_insensitive [layer] s Hs) as H. unfold wp, upload_all, mbind, M_bind in *.
    by destruct (schedule_layer_file_upload0 layer s) as [[[]|e|] s'].
  - apply wp_bind. eapply wp_mono; [by apply upload_all_insensitive|]. intros [[]|e|] s1 H1; [|done|done].
    apply wp_bind. eapply wp_mono; [by apply unlinking0_insensitive|]. intros [ms|e|] s2 H2; [|done|done].
    by apply (wp_launch nr nc I L).
  - apply wp_bind. eapply wp_mono; [by apply unlinking0_insensitive|]. intros [ms|e|] s1 H1; [|done|done].
    by apply then_launch_insensitive, deletion_insensitive.
  - by apply then_launch_insensitive, deletion_insensitive.
  - unfold ignore, schedule_adding_existing_layers_to_index_detach. apply wp_bind, wp_bind, wp_queue.
    destruct (decide _); [by apply wp_ret, wp_ret|]. apply wp_bind, wp_queue, wp_bind, wp_unwrap; [|done]. intros md _.
    apply wp_bind, wp_on_queue, wp_bind, wp_queue, wp_bind, wp_unwrap; [|done]. intros lin _. apply wp_bind, wp_on_queue, wp_bind.
    eapply wp_mono; [by apply add_existing_insensitive, in_dirty, in_dirty|]. intros [[]|e|] s1 H1; [|done|done].
    apply wp_bind. apply (wp_index nr nc I L); [done|]. intros s2 H2%pr_weaken.
    apply (wp_barrier nr nc I L); [done|]. intros ch s3 H3. by apply wp_ret.
Qed.
End insensitive.
