(* ===== verification/RemoteSafety.v ===== *)
(** * The index in remote storage names only layers that are there

    The client, remote storage and the deletion queue together: whatever is
    called, however requests end and in whatever order tasks finish, the index in
    remote storage refers to no layer that is missing, and no assertion of a task
    fails.  The callers' side of the contract is [allowed]. *)

From S2P Require Import Prelude Lsn XlogUtils Key Shard LayerName IndexPart UploadQueue.
From S2P Require Import UploadQueueFacts UploadQueueSafety RemoteClient RemoteClientFacts.

(** ** What launching leaves alone *)

Lemma launch1_same q l q' : launch1 q l q' ->
  dirty q' = dirty q /\ clean q' = clean q /\ blocked_deletions q' = blocked_deletions q
  /\ latest_files_changes_since_metadata_upload_scheduled q' = latest_files_changes_since_metadata_upload_scheduled q
  /\ last_index (clean q').1 (ops_of q' ++ queued_operations q') = last_index (clean q).1 (ops_of q ++ queued_operations q)
  /\ inprogress_tasks q' = inprogress_tasks q ++ spawned [l] /\ inprogress_limit q' = inprogress_limit q
  /\ task_counter q <= task_counter q' /\ Forall (fun t => task_counter q < task_id t) (spawned [l])
  /\ shutting_down q' = shutting_down q.
Proof.
  intros [pre co op post l' q1 Ht Hl]. pose proof (taken_not_barrier q pre co op post Ht) as Hbar.
  destruct Ht as [EQ Hby Hco1 Hco2 Hpre Hsh Hroom Hfirst].
  destruct op as [name meta mode|i|ls|b|]; try done; cbn [launch_op] in Hl; injection Hl as <- <-;
    cbn [with_tasks with_queued with_recently_deleted dirty clean blocked_deletions spawned omap list_omap inprogress_tasks
         latest_files_changes_since_metadata_upload_scheduled inprogress_limit task_counter shutting_down queued_operations];
    (split_and!; [done|done|done|done| |try done; by rewrite app_nil_r|done|lia| |done]);
    try (repeat constructor; cbn [task_id task_counter with_recently_deleted with_queued]; lia);
    unfold ops_of; cbn [inprogress_tasks with_tasks]; rewrite ?map_app, EQ.
  - destruct co as [|o co]; [|by specialize (Hco1 ltac:(done))]. rewrite <- app_assoc. cbn [map app].
    by rewrite last_index_drop, (app_assoc _ pre (_ :: post)), last_index_drop, <- app_assoc.
  - cbn [map task_op]. apply index_bypass_none in Hby. rewrite indexes_app in Hby. apply app_eq_nil in Hby as [H1 H2].
    rewrite !last_index_app, !last_index_cons. by rewrite !(last_index_none _ pre H2).
  - destruct co as [|o co]; [|by specialize (Hco1 ltac:(done))]. rewrite <- app_assoc. cbn [map app].
    by rewrite last_index_drop, (app_assoc _ pre (_ :: post)), last_index_drop, <- app_assoc.
  - destruct co as [|o co]; [|by specialize (Hco1 ltac:(done))]. cbn [app].
    by rewrite (app_assoc _ pre (_ :: post)), last_index_drop, <- app_assoc.
Qed.

Lemma spawned_app a b : spawned (a ++ b) = spawned a ++ spawned b.
Proof. apply omap_app. Qed.

(** What a sequence of launches leaves alone. *)
Record same_but_tasks (q : UploadQueueInitialized) (ls : list launched) (q' : UploadQueueInitialized) : Prop := {
  sb_dirty : dirty q' = dirty q;
  sb_clean : clean q' = clean q;
  sb_blocked : blocked_deletions q' = blocked_deletions q;
  sb_changes : latest_files_changes_since_metadata_upload_scheduled q' = latest_files_changes_since_metadata_upload_scheduled q;
  sb_last : last_index (clean q').1 (ops_of q' ++ queued_operations q')
            = last_index (clean q).1 (ops_of q ++ queued_operations q);
  sb_tasks : inprogress_tasks q' = inprogress_tasks q ++ spawned ls;
  sb_limit : inprogress_limit q' = inprogress_limit q;
  sb_counter : task_counter q <= task_counter q';
  sb_new : Forall (fun t => task_counter q < task_id t) (spawned ls);
  sb_down : shutting_down q' = shutting_down q
}.

Lemma launches_same q ls q' : launches q ls q' -> same_but_tasks q ls q'.
Proof.
  induction 1 as [q|q l q1 ls q2 H1 _ IH]; [split; rewrite ?app_nil_r; done|].
  destruct (launch1_same q l q1 H1) as (E1 & E2 & E3 & E4 & E5 & E6 & E7 & E8 & E9 & E10).
  destruct IH as [F1 F2 F3 F4 F5 F6 F7 F8 F9 F10]. change (l :: ls) with ([l] ++ ls).
  split; try congruence; [|lia|].
  - rewrite F6, E6, spawned_app, <- app_assoc. done.
  - rewrite spawned_app. apply Forall_app. split; [done|]. eapply Forall_impl; [exact F9|]. cbn. lia.
Qed.

Lemma launch_same nr nc q q' ls : launch_queued_tasks nr nc q = Some (q', ls) -> same_but_tasks q ls q'.
Proof.
  destruct (launch_queued_tasks_spec nr nc q) as (q1 & q2 & ls' & E & Hl & Hq & _). rewrite E. intros [= -> ->].
  apply launches_same in Hl. destruct Hq as [->| ->]; [done|]. destruct Hl. by split.
Qed.

(** The uploads in progress and waiting were there before. *)
Definition uploads_from (q q' : UploadQueueInitialized) : Prop :=
  forall name meta mode, UploadLayer name meta mode ∈ ops_of q' ++ queued_operations q' ->
  exists mode', UploadLayer name meta mode' ∈ ops_of q ++ queued_operations q.

Lemma launch1_uploads q l q' : launch1 q l q' -> uploads_from q q'.
Proof.
  intros [pre co op post l' q1 [EQ _ _ _ _ _ _] Hl] name meta mode. unfold ops_of.
  destruct op as [n m o|i|ls|b|]; try done; cbn [launch_op] in Hl; injection Hl as <- <-;
    cbn [with_tasks with_queued with_recently_deleted inprogress_tasks queued_operations]; rewrite EQ, ?map_app; cbn [map task_op];
    intros Hin; rewrite ?elem_of_app, ?elem_of_cons in Hin.
  - destruct Hin as [[Hin|[[= -> -> ->]|Hin%not_elem_of_nil]]|[Hin|Hin]]; try done; [exists mode|exists o|exists mode..]; mem.
  - destruct Hin as [[Hin|[Hin|Hin%not_elem_of_nil]]|[Hin|Hin]]; try done; exists mode; mem.
  - destruct Hin as [[Hin|[Hin|Hin%not_elem_of_nil]]|[Hin|Hin]]; try done; exists mode; mem.
  - exists mode. mem.
Qed.

Lemma launch_uploads nr nc q q' ls : launch_queued_tasks nr nc q = Some (q', ls) -> uploads_from q q'.
Proof.
  destruct (launch_queued_tasks_spec nr nc q) as (q1 & q2 & ls' & E & Hl & Hq & _). rewrite E. intros [= -> ->].
  assert (uploads_from q q1) as H.
  { clear -Hl. induction Hl as [q|q l q1 ls q2 H1 _ IH]; [by intros ? ? mode ?; exists mode|].
    intros name meta mode (m1 & Hm1)%IH. by apply (launch1_uploads _ _ _ H1) in Hm1. }
  by destruct Hq as [->| ->].
Qed.

(** ** During a call *)

Lemma refers_ext i j p : layer_metadata i = layer_metadata j -> refers i p <-> refers j p.
Proof. unfold refers. by intros ->. Qed.

Lemma refers_delete name i p : refers (with_layers (delete name) i) p <-> refers i p /\ p.1.1 <> name.
Proof.
  unfold refers. cbn [with_layers layer_metadata]. split.
  - intros (m & Hm & E). apply lookup_delete_Some in Hm as [Hn Hm]. split; [by exists m|done].
  - intros [(m & Hm & E) Hn]. exists m. split; [|done]. by apply lookup_delete_Some.
Qed.

Section state.
Context (nr nc : bool) (tenant_shard_id : TenantShardId) (generation : Generation).
Context (layers : gset path) (deletions : list path) (running : list UploadTask) (counter : Z) (uploaded : IndexPart * option Z).

(** Since the lock was taken with [running], [counter] and [uploaded]. *)
Record state_ok (s : QState) : Prop := {
  st_queue : queue_ok layers deletions (qs_queue s);
  st_running : inprogress_tasks (qs_queue s) = running ++ spawned (qs_log s);
  st_generation name meta mode : UploadLayer name meta mode ∈ ops_of (qs_queue s) ++ queued_operations (qs_queue s) ->
    lm_generation meta = generation;
  st_changes : 0 <= latest_files_changes_since_metadata_upload_scheduled (qs_queue s);
  st_counter : counter <= task_counter (qs_queue s);
  st_new : Forall (fun t => counter < task_id t) (spawned (qs_log s));
  st_clean : clean (qs_queue s) = uploaded
}.

(** A change of the index in memory. *)
Lemma state_dirty f s :
  (forall p, refers (f (dirty (qs_queue s))) p -> refers (dirty (qs_queue s)) p) ->
  state_ok s -> state_ok (upd (with_dirty f) s).
Proof.
  intros Hf [[H1 H2] H3 H4 H5 H6 H7 H8]. split; [split|done..]; [|by eapply tasks_ok_same; [..|exact H2]].
  by eapply fewer_layers; [|exact H1].
Qed.

Lemma state_changes f s : 0 <= f (qs_queue s) -> state_ok s -> state_ok (upd (fun q => with_changes (f q) q) s).
Proof. intros Hf [[H1 H2] H3 H4 H5 H6 H7 H8]. split; [split|done..]; [done|by eapply tasks_ok_same; [..|exact H2]]. Qed.

(** Another operation in the queue. *)
Lemma state_push op f s :
  seq_ok layers (doomed deletions (qs_queue s)) (clean (qs_queue s)).1 (f (dirty (qs_queue s))) (ops_of (qs_queue s))
    (queued_operations (qs_queue s) ++ [op]) ->
  (forall name meta mode, op = UploadLayer name meta mode -> lm_generation meta = generation) ->
  forall n, state_ok s -> state_ok (mkQState (push_back op (with_dirty f (qs_queue s))) (qs_log s) n).
Proof.
  intros Hseq Hgen n [[H1 H2] H3 H4 H5 H6 H7 H8]. split; [split|done| |done..]; [done|by eapply tasks_ok_same; [..|exact H2]|].
  cbn [qs_queue push_back with_queued with_dirty queued_operations]. intros name meta mode Hin.
  change (ops_of (push_back op (with_dirty f (qs_queue s)))) with (ops_of (qs_queue s)) in Hin.
  rewrite !elem_of_app, list_elem_of_singleton in Hin. destruct Hin as [Hin|[Hin|Hin]]; [..|by eapply Hgen];
    eapply H4; rewrite elem_of_app; eauto.
Qed.

Lemma state_launch s q ls :
  state_ok s -> launch_queued_tasks nr nc (qs_queue s) = Some (q, ls) -> state_ok (mkQState q (qs_log s ++ ls) (qs_channels s)).
Proof.
  intros [H1 H2 H3 H4 H6 H7 H8] E. destruct (launch_ok nr nc layers deletions _ H1) as (q' & ls' & E' & Hq). rewrite E in E'. injection E' as <- <-.
  pose proof (launch_same _ _ _ _ _ E) as Hs. split; cbn [qs_queue qs_log].
  - done.
  - by rewrite (sb_tasks _ _ _ Hs), H2, spawned_app, app_assoc.
  - intros name meta mode (m & Hm)%(launch_uploads _ _ _ _ _ E). by apply H3 in Hm.
  - by rewrite (sb_changes _ _ _ Hs).
  - pose proof (sb_counter _ _ _ Hs). lia.
  - rewrite spawned_app. apply Forall_app. split; [done|]. eapply Forall_impl; [apply (sb_new _ _ _ Hs)|]. cbn. lia.
  - by rewrite (sb_clean _ _ _ Hs).
Qed.

#[global] Instance state_preserved : Preserved nr nc state_ok state_ok.
Proof.
  split; try done.
  - intros f s Hf. apply state_dirty. intros p. by apply refers_ext.
  - intros f s Hf. apply state_dirty. intros p. by apply refers_ext.
  - intros name s. apply state_dirty. by intros p [? _]%refers_delete.
  - intros name s. apply state_dirty. by intros p [? _]%refers_delete.
  - intros f s Hf Hs. apply state_changes; [apply Hf, Hs|done].
  - intros f s Hf Hs. apply state_changes; [apply Hf, Hs|done].
  - intros s [[H1 H2] H3 H4 H5 H6 H7 H8]. split; [split|done..]; [done|by eapply tasks_ok_same; [..|exact H2]].
  - intros s Hs. apply (state_push (UploadMetadata (dirty (qs_queue s))) id); [|done|done]. apply push_index, Hs.
  - intros s Hs. apply (state_push Shutdown id); [|done|done]. apply push_plain; [done|]. apply Hs.
  - intros s Hs. apply (state_push (Barrier (qs_channels s)) id); [|done|done]. apply push_plain; [done|]. apply Hs.
  - intros s q ls. apply state_launch.
Qed.

(** ** Calls that bring in layers or delete them *)

Definition fresh_in (s : QState) (p : path) : Prop :=
  fresh (doomed deletions (qs_queue s)) (clean (qs_queue s)).1 (dirty (qs_queue s)) (ops_of (qs_queue s))
    (queued_operations (qs_queue s)) p.
Definition unlinked_in (s : QState) (p : path) : Prop :=
  unlinked (clean (qs_queue s)).1 (dirty (qs_queue s)) (ops_of (qs_queue s)) (queued_operations (qs_queue s)) p.
Definition present_in (s : QState) (p : path) : Prop :=
  p ∈ layers /\ (forall o, o ∈ ops_of (qs_queue s) ++ queued_operations (qs_queue s) -> ~ deletes o p)
  /\ ~ doomed deletions (qs_queue s) p.

Definition layer_paths (ls : list ResidentLayer) : list path :=
  omap (fun l => name ← desc_layer_name (rl_desc l); Some (layer_path name (layer_file_metadata l))) ls.

Lemma layer_paths_cons l ls name :
  desc_layer_name (rl_desc l) = Some name -> layer_paths (l :: ls) = layer_path name (layer_file_metadata l) :: layer_paths ls.
Proof. intros E. unfold layer_paths. cbn [omap list_omap]. by rewrite E. Qed.

(** New layers: of this generation, and with paths nobody has used. *)
Definition uploadable (ls : list ResidentLayer) (s : QState) : Prop :=
  (forall l, l ∈ ls -> rl_generation l = generation) /\ NoDup (layer_paths ls) /\ (forall p, p ∈ layer_paths ls -> fresh_in s p).

Lemma upload_all_ok ls : forall s, uploadable ls s -> state_ok s -> wp (upload_all ls) (unless_panic state_ok) s.
Proof.
  induction ls as [|l ls IH]; intros s (Hgen & Hnd & Hfr) Hs; cbn [upload_all]; [by apply wp_ret|].
  apply wp_bind. unfold schedule_layer_file_upload0. apply wp_bind, wp_unwrap; [|done]. intros name Hname.
  rewrite (layer_paths_cons _ _ _ Hname) in *. apply NoDup_cons in Hnd as [Hnin Hnd].
  do 2 (apply wp_bind, wp_on_queue). apply wp_on_queue. cbn [unless_panic].
  pose proof (Hfr _ ltac:(left)) as F. apply IH.
  - split_and!; [intros x Hx; apply Hgen; by right|done|]. intros p Hp. destruct (Hfr p ltac:(by right)) as (F1 & F2 & F3).
    split_and!; [|intros o Ho|done].
    + intros i Hi. cbn [qs_queue upd push_back with_queued with_changes with_dirty clean dirty queued_operations] in Hi.
      change (ops_of _) with (ops_of (qs_queue s)) in Hi. rewrite !elem_of_cons in Hi. destruct Hi as [->|[->|Hi]].
      * apply F1. left.
      * intros [->|Hr]%refers_insert; [done|]. revert Hr. apply F1. right. left.
      * apply F1. mem.
    + change (o ∈ ops_of (qs_queue s) ++ queued_operations (qs_queue s) ++ [UploadLayer name (layer_file_metadata l) None]) in Ho.
      rewrite app_assoc, elem_of_app, list_elem_of_singleton in Ho. destruct Ho as [Ho| ->]; [by apply F2|by intros []].
  - apply (state_changes (fun _ => latest_files_changes_since_metadata_upload_scheduled (qs_queue s) + 1)
             (mkQState (push_back (UploadLayer name (layer_file_metadata l) None)
                          (with_dirty (with_layers <[name := layer_file_metadata l]>) (qs_queue s))) (qs_log s) (qs_channels s))).
    + pose proof (st_changes s Hs). lia.
    + apply state_push; [apply push_upload; [done|apply Hs]| |done]. intros n m o [= _ <- _]. cbn. apply Hgen. left.
Qed.

Lemma delete0_ok ls s :
  (forall p, p ∈ paths (own_layers tenant_shard_id ls) -> unlinked_in s p) -> state_ok s ->
  wp (schedule_deletion_of_unlinked0 tenant_shard_id ls) (unless_panic state_ok) s.
Proof.
  intros Hun Hs. unfold schedule_deletion_of_unlinked0. destruct (own_layers tenant_shard_id ls) as [|l os] eqn:E; [by apply wp_ret|].
  apply wp_on_queue. apply (state_push (DeleteOp (l :: os)) id); [|done|done]. apply push_delete; [|apply Hs]. exact Hun.
Qed.

Lemma unlink_names_ok names : forall s, state_ok s ->
  wp (unlink_names names) (fun o s' => exists ms, o = Ok ms /\ state_ok s'
    /\ (forall p, refers (dirty (qs_queue s')) p -> refers (dirty (qs_queue s)) p)
    /\ (forall p, p ∈ paths ms -> ~ refers (dirty (qs_queue s')) p)
    /\ latest_files_changes_since_metadata_upload_scheduled (qs_queue s) + Z.of_nat (length ms)
       <= latest_files_changes_since_metadata_upload_scheduled (qs_queue s')) s.
Proof.
  induction names as [|name names IH]; intros s Hs; cbn [unlink_names].
  - apply wp_ret. exists []. split_and!; [done|done|done|by intros p ?%not_elem_of_nil|cbn; lia].
  - apply wp_bind, wp_queue. destruct (layer_metadata (dirty (qs_queue s)) !! name) as [meta|] eqn:Em; [|by apply IH].
    do 2 (apply wp_bind, wp_on_queue). apply wp_bind. eapply wp_mono; [apply IH|].
    + apply (state_changes (fun q => latest_files_changes_since_metadata_upload_scheduled q + 1)).
      * pose proof (st_changes s Hs). cbn [upd qs_queue with_dirty latest_files_changes_since_metadata_upload_scheduled]. lia.
      * apply state_dirty; [|done]. by intros p [? _]%refers_delete.
    + intros o s' (ms & -> & Hs' & Hsub & Hms & Hch). apply wp_ret. exists ((name, meta) :: ms).
      cbn [upd qs_queue with_changes with_dirty dirty latest_files_changes_since_metadata_upload_scheduled] in Hsub, Hch.
      split_and!; [done|done| | |cbn [length]; lia].
      * intros p Hr%Hsub. by apply refers_delete in Hr as [? _].
      * intros p Hp. cbn [paths map] in Hp. apply elem_of_cons in Hp as [->|Hp]; [|by apply Hms].
        intros Hr%Hsub. by apply refers_delete in Hr as [_ ?].
Qed.

Lemma wp_launch_state (Q : outcome client_error unit -> QState -> Prop) s :
  (forall q ls, launch_queued_tasks nr nc (qs_queue s) = Some (q, ls) -> Q (Ok tt) (mkQState q (qs_log s ++ ls) (qs_channels s))) ->
  wp (launch nr nc) Q s.
Proof.
  intros HQ. unfold wp, launch. destruct (launch_queued_tasks_spec nr nc (qs_queue s)) as (q1 & q' & ls & E & _).
  rewrite E. by apply HQ.
Qed.

(** After a new version of the index has been scheduled it is the last one. *)
Lemma index_upload_last s : state_ok s ->
  wp (schedule_index_upload nr nc) (fun o s' => o = Ok tt /\ state_ok s'
    /\ layer_metadata (dirty (qs_queue s')) = layer_metadata (dirty (qs_queue s))
    /\ last_index (clean (qs_queue s')).1 (ops_of (qs_queue s') ++ queued_operations (qs_queue s')) = dirty (qs_queue s')) s.
Proof.
  intros Hs. unfold schedule_index_upload. do 3 (apply wp_bind, wp_on_queue).
  set (s2 := upd (with_changes 0) _).
  assert (state_ok s2) as Hs2 by (apply (pr_changes (fun _ => 0)); [done|]; apply pr_index, pr_dirty; done).
  apply wp_launch_state. intros q ls E. pose proof (launch_same _ _ _ _ _ E) as Hl. split_and!; [done|by apply state_launch| |].
  - cbn [qs_queue]. by rewrite (sb_dirty _ _ _ Hl).
  - cbn [qs_queue]. rewrite (sb_last _ _ _ Hl), (sb_dirty _ _ _ Hl).
    cbn [s2 upd qs_queue with_changes push_back with_queued queued_operations clean dirty].
    by rewrite app_assoc, last_index_app.
Qed.

Lemma unlinking0_ok names s : state_ok s ->
  wp (schedule_unlinking_of_layers_from_index_part0 nr nc names)
    (fun o s' => exists ms, o = Ok ms /\ state_ok s' /\ forall p, p ∈ paths ms -> unlinked_in s' p) s.
Proof.
  intros Hs. apply wp_bind. eapply wp_mono; [by apply unlink_names_ok|].
  intros o s1 (ms & -> & Hs1 & _ & Hms & Hch). apply wp_bind, wp_queue, wp_bind. pose proof (st_changes s Hs).
  destruct (decide _) as [Hpos|Hz].
  - eapply wp_mono; [by apply index_upload_last|]. intros o s2 (-> & Hs2 & Hl & Hlast). apply wp_ret. exists ms.
    split_and!; [done|done|]. intros p Hp. specialize (Hms p Hp). rewrite (refers_ext _ _ _ (eq_sym Hl)) in Hms.
    split; [done|]. by rewrite Hlast.
  - apply wp_ret, wp_ret. exists ms. split_and!; [done|done|]. destruct ms; [by intros p ?%not_elem_of_nil|].
    cbn [length] in Hch. lia.
Qed.

Lemma own_layers_paths ls p : p ∈ paths (own_layers tenant_shard_id ls) -> p ∈ paths ls.
Proof.
  unfold paths, own_layers. intros (l & -> & Hl)%list_elem_of_fmap. apply list_elem_of_filter in Hl as [_ Hl].
  by apply (list_elem_of_fmap_2 (fun l => layer_path l.1 l.2)).
Qed.

Lemma add_existing_ok ls : forall s,
  (forall p, p ∈ layer_paths ls -> present_in s p) -> state_ok s -> wp (add_existing ls) (unless_panic state_ok) s.
Proof.
  induction ls as [|l ls IH]; intros s Hpr Hs; cbn [add_existing]; [by apply wp_ret|].
  apply wp_bind, wp_unwrap; [|done]. intros name Hname. rewrite (layer_paths_cons _ _ _ Hname) in *.
  apply wp_bind, wp_queue, wp_bind, wp_on_queue, wp_bind, wp_assert; [|done]. intros _. apply IH; [intros p Hp; apply (Hpr p); by right|].
  destruct (Hpr _ ltac:(left)) as (P1 & P2 & P3). destruct Hs as [[H1 H2] H3 H4 H5 H6 H7 H8].
  split; [split|done..]; [by apply adopt_layer|by eapply tasks_ok_same; [..|exact H2]].
Qed.

(** What the caller of a call answers for. *)
Definition call_allowed (c : call) (s : QState) : Prop :=
  match c with
  | CUpload layer => uploadable [layer] s
  | CCompaction _ compacted_to => uploadable compacted_to s
  | CDeleteUnlinked ls => forall p, p ∈ paths (own_layers tenant_shard_id ls) -> unlinked_in s p
  | CDetach _ ls _ => forall p, p ∈ layer_paths ls -> present_in s p
  | _ => True
  end.

Lemma wp_bind_ret (m : QM unit) (Q : outcome client_error unit -> QState -> Prop) s :
  wp (m ≫= fun _ => mret tt) Q s -> wp m Q s.
Proof. unfold wp, mbind, M_bind. by destruct (m s) as [[[]|e|] s']. Qed.

Lemma then_launch (m : QM unit) s :
  wp m (unless_panic state_ok) s -> wp (m ≫= fun _ => launch nr nc) (unless_panic state_ok) s.
Proof.
  intros H. apply wp_bind. eapply wp_mono; [exact H|].
  intros [[]|e|] s2 H2; [|done|done]. apply wp_launch_state. intros q ls E. by apply (state_launch s2).
Qed.

Lemma call_ok c s : call_allowed c s -> state_ok s -> wp (run_call nr nc tenant_shard_id c) (unless_panic state_ok) s.
Proof.
  intros Hc Hs. destruct (plain c) eqn:Hp; [by apply (plain_preserved nr nc tenant_shard_id state_ok state_ok)|]. destruct c; try done; cbn [run_call].
  - apply then_launch, wp_bind_ret. by apply (upload_all_ok [layer]).
  - apply wp_bind. eapply wp_mono; [by apply upload_all_ok|]. intros [[]|e|] s1 H1; [|done|done].
    apply wp_bind. eapply wp_mono; [by apply unlinking0_ok|]. intros o s' (ms & -> & Hs' & _).
    apply wp_launch_state. intros q ls E. by apply (state_launch s').
  - apply wp_bind. eapply wp_mono; [by apply unlinking0_ok|]. intros o s' (ms & -> & Hs' & Hms).
    apply then_launch, delete0_ok; [|done]. intros p Hp'%own_layers_paths. by apply Hms.
  - by apply then_launch, delete0_ok.
  - unfold ignore, schedule_adding_existing_layers_to_index_detach. apply wp_bind, wp_bind, wp_queue.
    destruct (decide _); [by apply wp_ret, wp_ret|]. apply wp_bind, wp_queue, wp_bind, wp_unwrap; [|done]. intros md _.
    apply wp_bind, wp_on_queue, wp_bind, wp_queue, wp_bind, wp_unwrap; [|done]. intros lin _. apply wp_bind, wp_on_queue, wp_bind.
    eapply wp_mono; [apply add_existing_ok; [exact Hc|]|].
    { apply pr_dirty; [done|]. by apply pr_dirty. }
    intros [[]|e|] s1 H1; [|done|done]. apply wp_bind. apply (wp_index nr nc state_ok state_ok); [done|]. intros s2 H2.
    apply (wp_barrier nr nc state_ok state_ok); [done|]. intros ch s3 H3. by apply wp_ret.
Qed.
End state.

(** ** Finishing a task *)

Lemma filter_id_middle t1 t t2 :
  NoDup (map task_id (t1 ++ t :: t2)) -> filter (fun x => task_id x <> task_id t) (t1 ++ t :: t2) = t1 ++ t2.
Proof.
  intros Hnd. rewrite map_app in Hnd. cbn [map] in Hnd. apply NoDup_app in Hnd as (_ & Hd1 & Hnd).
  apply NoDup_cons in Hnd as [Hn _]. rewrite filter_app, filter_cons_False by tauto. f_equal; apply filter_all; intros x Hx E.
  - apply (Hd1 (task_id x)); [by apply (list_elem_of_fmap_2 task_id)|]. rewrite E. left.
  - apply Hn. rewrite <- E. by apply (list_elem_of_fmap_2 task_id).
Qed.

Lemma to_ids_inj q t u : tasks_ok q -> t ∈ inprogress_tasks q -> u ∈ inprogress_tasks q -> task_id t = task_id u -> t = u.
Proof.
  intros Ht (a & Ha)%list_elem_of_lookup_1 (b & Hb)%list_elem_of_lookup_1 E. pose proof (to_ids q Ht) as Hnd.
  change (map task_id) with (fmap (M := list) task_id) in Hnd.
  assert (a = b) as ->; [|congruence].
  apply (NoDup_lookup _ a b (task_id t) Hnd); rewrite list_lookup_fmap; [by rewrite Ha|rewrite Hb; cbn; by rewrite E].
Qed.

Section finish.
Context (nr nc : bool) (generation : Generation) (layers : gset path) (deletions : list path).

Definition without (t : UploadTask) (ts : list UploadTask) : list UploadTask := filter (fun x => task_id x <> task_id t) ts.

Definition uploaded_by (t : UploadTask) (old : IndexPart * option Z) : IndexPart * option Z :=
  match task_op t with UploadMetadata i => (i, Some (task_id t)) | _ => old end.

Lemma finish_queue_ok q t visible :
  queue_ok layers deletions q -> t ∈ inprogress_tasks q -> (forall p, uploads (task_op t) p -> p ∈ layers) ->
  queue_ok layers deletions
    (with_visible_lsn visible (with_clean (uploaded_by t (clean q)) (with_tasks (task_counter q) (without t (inprogress_tasks q)) q))).
Proof.
  intros [Hseq Ht] Hin Hup. apply list_elem_of_split in Hin as (t1 & t2 & E).
  assert (without t (inprogress_tasks q) = t1 ++ t2) as Ew.
  { rewrite E. apply filter_id_middle. rewrite <- E. apply Ht. }
  unfold ops_of in Hseq. rewrite E, map_app in Hseq. cbn [map] in Hseq. split.
  - unfold ops_of. cbn [with_visible_lsn with_clean with_tasks inprogress_tasks clean dirty queued_operations].
    rewrite Ew, map_app. unfold uploaded_by. destruct (task_op t) as [n m o|i|d|b|] eqn:Eop; cbn [fst].
    + eapply finish_change; [..|exact Hseq]; done.
    + by eapply finish_index.
    + eapply finish_change; [..|exact Hseq]; [done|]. by intros p [].
    + eapply finish_change; [..|exact Hseq]; [done|]. by intros p [].
    + eapply finish_change; [..|exact Hseq]; [done|]. by intros p [].
  - assert (forall x, x ∈ t1 ++ t2 -> x ∈ inprogress_tasks q) as Hsub by (intros x Hx; rewrite E; mem).
    split; cbn [with_visible_lsn with_clean with_tasks inprogress_tasks task_counter inprogress_limit clean]; rewrite ?Ew.
    + pose proof (to_ids q Ht) as H. rewrite E, map_app in H. cbn [map] in H. rewrite map_app.
      apply NoDup_app in H as (H1 & H2 & [_ H3]%NoDup_cons). apply NoDup_app. split_and!; [done| |done].
      intros x Hx Hx2. apply (H2 x Hx). by right.
    + intros x Hx. by apply Ht, Hsub.
    + intros id Hid. unfold uploaded_by in Hid. destruct (task_op t) as [n m o|i|d|b|] eqn:Eop;
        try (destruct (to_clean q Ht id Hid) as [H1 H2]; split; [done|intros x Hx; apply H2; by apply Hsub]).
      injection Hid as <-. split; [apply Ht; rewrite E; mem|]. intros x Hx Hm. exfalso.
      pose proof (so_one _ _ _ _ _ _ Hseq) as Ho. rewrite indexes_app in Ho.
      change (indexes (UploadMetadata i :: map task_op t2)) with (i :: indexes (map task_op t2)) in Ho.
      destruct (task_op x) as [|j| | |] eqn:Ex; try done.
      assert (j ∈ indexes (map task_op t1) \/ j ∈ indexes (map task_op t2)) as Hj.
      { rewrite !elem_indexes, <- Ex. apply elem_of_app in Hx as [Hx|Hx]; [left|right]; by apply (list_elem_of_fmap_2 task_op). }
      rewrite length_app in Ho. cbn [length] in Ho.
      assert (forall l : list IndexPart, j ∈ l -> (0 < length l)%nat) as Hlen
        by (intros [|? l] Hl; [by apply not_elem_of_nil in Hl|cbn [length]; lia]).
      destruct Hj as [Hj|Hj]; apply Hlen in Hj; lia.
    + intros x Hx. by apply Ht, Hsub.
    + destruct (to_limit q Ht) as [H|H]; [by left|]. right. rewrite E in H. rewrite length_app in *. cbn [length] in H. lia.
Qed.

(** Nothing panics when a task in progress finishes. *)
Lemma finish_ok q t n process :
  queue_ok layers deletions q -> t ∈ inprogress_tasks q -> (forall p, uploads (task_op t) p -> p ∈ layers) ->
  (forall name meta mode, UploadLayer name meta mode ∈ ops_of q ++ queued_operations q -> lm_generation meta = generation) ->
  0 <= latest_files_changes_since_metadata_upload_scheduled q ->
  wp (finish_task nr nc generation process t)
    (fun o s' => (exists lsn, o = Ok lsn)
       /\ state_ok generation layers deletions (without t (inprogress_tasks q)) (task_counter q) (uploaded_by t (clean q)) s')
    (mkQState q [] n).
Proof.
  intros Hq Ht Hup Hgen Hch.
  set (q2 visible := with_visible_lsn visible (with_clean (uploaded_by t (clean q))
                       (with_tasks (task_counter q) (without t (inprogress_tasks q)) q))).
  assert (forall visible, state_ok generation layers deletions (without t (inprogress_tasks q)) (task_counter q)
            (uploaded_by t (clean q)) (mkQState (q2 visible) [] n)) as Hs2.
  { intros visible. split; cbn [qs_queue qs_log q2].
    - by apply finish_queue_ok.
    - cbn [with_visible_lsn with_clean with_tasks inprogress_tasks]. by rewrite app_nil_r.
    - intros name meta mode Hin. apply (Hgen name meta mode). rewrite elem_of_app in *. destruct Hin as [Hin|Hin]; [left|by right].
      unfold ops_of in *. apply list_elem_of_fmap in Hin as (x & E & Hx). apply list_elem_of_filter in Hx as [_ Hx]. rewrite E.
      by apply (list_elem_of_fmap_2 task_op).
    - done.
    - done.
    - constructor.
    - done. }
  unfold finish_task. apply wp_bind, wp_on_queue, wp_bind. pose proof (qo_tasks _ _ _ Hq) as Htk. pose proof (to_ops _ Htk t Ht) as Hop.
  assert (forall (lsn : option Lsn) (visible : Lsn), wp (launch nr nc ≫= fun _ => mret lsn) (fun o s' => (exists lsn, o = Ok lsn)
      /\ state_ok generation layers deletions (without t (inprogress_tasks q)) (task_counter q) (uploaded_by t (clean q)) s')
      (mkQState (q2 visible) [] n)) as Hlaunch.
  { intros lsn visible. apply wp_bind, wp_launch_state. intros q' ls E. apply wp_ret. split; [by eexists|].
    eapply state_launch; [apply Hs2|exact E]. }
  subst q2. clear Hs2. unfold uploaded_by in Hlaunch |- *. destruct (task_op t) as [nm mt o|i|d|b|] eqn:Eop; try done; [by apply wp_ret, (Hlaunch None (visible_remote_consistent_lsn q))| |by apply wp_ret, (Hlaunch None (visible_remote_consistent_lsn q))].
  unfold record_uploaded. apply wp_bind, wp_queue, wp_bind, wp_assert.
  - intros _. apply wp_bind, wp_on_queue. destruct (decide (generation = GNone)).
    + apply wp_bind, wp_on_queue, wp_ret. apply (Hlaunch None).
    + destruct process; apply wp_ret; [apply (Hlaunch (Some _) (visible_remote_consistent_lsn q))|apply (Hlaunch None (visible_remote_consistent_lsn q))].
  - cbn [upd qs_queue with_tasks clean]. destruct ((clean q).2) as [id|] eqn:Ec; [|done]. rewrite bool_decide_eq_false. intros Hn. exfalso.
    apply Hn. apply (to_clean _ Htk id Ec); [done|by rewrite Eop].
Qed.
End finish.

(** ** Runs *)

Section runs.
Context (nr nc debug_assertions : bool) (tenant_shard_id : TenantShardId) (generation : Generation).

Inductive event : Type :=
| EInit (limit : nat) (index_part : IndexPart)
| EInitEmpty (limit : nat) (metadata : TimelineMetadata) (migration : option RelSizeMigration) (at_ : option Lsn)
| ECall (c : call)
| EAttempt (task : UploadTask) (r : response)
| EComplete (task : UploadTask)
| EConfig (conf : RemoteTimelineClientConfig) (pushed : nat)
| EShutdown
| EStop
| EDeleted (p : path).

Definition run_event (e : event) : M client_error World unit :=
  match e with
  | EInit limit index_part => init_upload_queue limit index_part
  | EInitEmpty limit metadata migration at_ => init_upload_queue_for_empty_remote limit metadata migration at_
  | ECall c => locked (run_call nr nc tenant_shard_id c)
  | EAttempt task r => attempt_task generation debug_assertions task r
  | EComplete task => complete_task nr nc generation task
  | EConfig conf pushed => update_config generation conf pushed
  | EShutdown => shutdown nr nc
  | EStop => stop
  | EDeleted p => modify (fun w => set_layers (w_layers w ∖ {[p]}) w)
  end.

(** The index given to the client is the remote one; calls keep their contract;
    a task that is still in its loop makes an attempt, one that has left it
    completes; only what the deletion queue was given is deleted. *)
Definition allowed (e : event) (w : World) : Prop :=
  match e with
  | EInit _ index_part => w_index w = Some index_part
  | EInitEmpty _ _ _ _ => w_index w = None
  | ECall c =>
      match w_queue w with
      | QInitialized q => call_allowed tenant_shard_id generation (w_layers w) (w_deletions w) c (mkQState q [] (w_channels w))
      | _ => True
      end
  | EAttempt task _ => task ∈ w_running w /\ task_id task ∉ w_done w
  | EComplete task => task ∈ w_running w /\ task_id task ∈ w_done w
  | EDeleted p => p ∈ w_deletions w
  | _ => True
  end.

(** A client that has not been initialised, next to a sound remote state. *)
Definition initial (w : World) : Prop :=
  w_queue w = QUninitialized /\ w_running w = [] /\ w_done w = []
  /\ forall i p, w_index w = Some i -> refers i p -> p ∈ w_layers w /\ p ∉ w_deletions w.

Inductive reachable : World -> Prop :=
| reachable_init w : initial w -> reachable w
| reachable_step w e o w' : reachable w -> allowed e w -> run_event e w = (o, w') -> o <> Panic -> reachable w'.

(** The index in remote storage, or on its way there, names layers that are there to stay. *)
Definition index_safe (w : World) : Prop :=
  forall i p, (w_index w = Some i \/ (UploadMetadata i ∈ map task_op (w_running w))) -> refers i p ->
  p ∈ w_layers w /\ (p ∉ w_deletions w) /\ (forall o, o ∈ map task_op (w_running w) -> ~ deletes o p).

Definition this_generation (w : World) : Prop :=
  forall name meta mode, UploadLayer name meta mode ∈ map task_op (w_running w) -> lm_generation meta = generation.

Record init_ok (q : UploadQueueInitialized) (w : World) : Prop := {
  io_state : state_ok generation (w_layers w) (w_deletions w) (w_running w) (task_counter q) (clean q)
               (mkQState q [] (w_channels w));
  io_index i : w_index w = Some i -> i ∈ (clean q).1 :: indexes (ops_of q);
  io_done t : t ∈ w_running w -> task_id t ∈ w_done w ->
    (forall p, uploads (task_op t) p -> p ∈ w_layers w) /\ (forall i, task_op t = UploadMetadata i -> w_index w = Some i);
  io_counter id : id ∈ w_done w -> id <= task_counter q
}.

Definition world_ok (w : World) : Prop :=
  match w_queue w with
  | QInitialized q => init_ok q w
  | QUninitialized => index_safe w /\ w_running w = [] /\ w_done w = []
  | QStopped _ => index_safe w /\ this_generation w
  end.

Lemma init_ok_running q w : init_ok q w -> w_running w = inprogress_tasks q.
Proof. intros [[_ H _ _ _ _ _] _ _ _]. cbn [qs_queue qs_log spawned omap list_omap] in H. by rewrite app_nil_r in H. Qed.

Lemma init_ok_seq q w : init_ok q w ->
  seq_ok (w_layers w) (doomed (w_deletions w) q) (clean q).1 (dirty q) (ops_of q) (queued_operations q).
Proof. intros [[[H _] _ _ _ _ _ _] _ _ _]. done. Qed.

Lemma elem_cons_app {A} (x c : A) a b : x ∈ c :: a -> x ∈ c :: a ++ b.
Proof. rewrite !elem_of_cons, elem_of_app. tauto. Qed.

Lemma init_ok_safe q w : init_ok q w -> index_safe w.
Proof.
  intros Hok i p Hi Hr. pose proof (init_ok_seq q w Hok) as Hs. rewrite (init_ok_running q w Hok) in *.
  assert (i ∈ (clean q).1 :: indexes (ops_of q)) as Hin.
  { destruct Hi as [Hi|Hi]; [by apply Hok|]. right. by apply elem_indexes. }
  assert (forall p, doomed (w_deletions w) q p \/ (exists o, o ∈ ops_of q /\ deletes o p) -> ~ refers i p) as Hno.
  { intros p' Hp'. destruct (so_doomed _ _ _ _ _ _ Hs p' Hp') as [H1 _]. apply H1. rewrite indexes_app. by apply elem_cons_app. }
  split_and!; [by apply (so_active _ _ _ _ _ _ Hs i)| |].
  - intros Hd. apply (Hno p); [|done]. left. by left.
  - intros o Ho Hd. apply (Hno p); [|done]. right. by exists o.
Qed.

Lemma world_ok_safe w : world_ok w -> index_safe w.
Proof. unfold world_ok. destruct (w_queue w) as [|q|s]; [by intros [? _]|by apply init_ok_safe|by intros [? _]]. Qed.

Lemma world_ok_generation w : world_ok w -> this_generation w.
Proof.
  unfold world_ok. destruct (w_queue w) as [|q|s]; [|intros Hok|by intros [_ ?]].
  - intros (_ & Hr & _) name meta mode. rewrite Hr. by intros ?%not_elem_of_nil.
  - intros name meta mode Hin. rewrite (init_ok_running q w Hok) in Hin. destruct Hok as [[_ _ H _ _ _ _] _ _ _].
    apply (H name meta mode). apply elem_of_app. by left.
Qed.

(** A call leaves the world in order. *)
Lemma unlock_ok q s w :
  init_ok q w ->
  state_ok generation (w_layers w) (w_deletions w) (w_running w) (task_counter q) (clean q) s ->
  world_ok (unlock s w).
Proof.
  intros [H1 H2 H3 H4] Hs. unfold world_ok, unlock. cbn [w_queue]. split; cbn [w_layers w_deletions w_running w_index w_done w_channels].
  - destruct Hs as [G1 G2 G3 G4 G5 G6 G7]. split; cbn [qs_queue qs_log]; try done. by rewrite G2, app_nil_r.
  - intros i Hi. apply H2 in Hi. destruct Hs as [_ G2 _ _ _ _ G7]. rewrite G7. unfold ops_of in *. rewrite G2.
    destruct H1 as [_ E _ _ _ _ _]. cbn [qs_queue qs_log spawned omap list_omap] in E. rewrite app_nil_r in E. rewrite E in Hi.
    rewrite map_app, indexes_app. by apply elem_cons_app.
  - intros t Ht Hd. apply elem_of_app in Ht as [Ht|Ht]; [by apply H3|].
    pose proof (st_new _ _ _ _ _ _ _ Hs) as Hn. rewrite Forall_forall in Hn. specialize (Hn t Ht). specialize (H4 _ Hd). lia.
  - intros id Hid. specialize (H4 id Hid). pose proof (st_counter _ _ _ _ _ _ _ Hs). lia.
Qed.

Lemma call_step c w :
  world_ok w -> allowed (ECall c) w -> wp (locked (run_call nr nc tenant_shard_id c)) (fun o w' => o <> Panic -> world_ok w') w.
Proof.
  unfold world_ok at 1, allowed, wp, locked. intros Hok Hal. destruct (w_queue w) as [|q|st] eqn:Eq; cbn [initialized_mut].
  - intros _. cbn [snd]. unfold world_ok. by rewrite Eq.
  - destruct (shutting_down q); [intros _; cbn [snd]; unfold world_ok; by rewrite Eq|]. unfold with_lock.
    pose proof (call_ok nr nc tenant_shard_id generation _ _ _ _ _ c _ Hal (io_state _ _ Hok)) as H. unfold wp in H.
    destruct (run_call nr nc tenant_shard_id c (mkQState q [] (w_channels w))) as [o s]. cbn [fst snd] in *.
    intros Ho. apply (unlock_ok q); [done|]. by destruct o.
  - intros _. cbn [snd]. unfold world_ok. by rewrite Eq.
Qed.

Lemma init_step e w : (exists limit i, e = EInit limit i) \/ (exists limit m g a, e = EInitEmpty limit m g a) ->
  world_ok w -> allowed e w -> wp (run_event e) (fun o w' => o <> Panic -> world_ok w') w.
Proof.
  intros He Hok Hal.
  assert (forall q i d, w_queue w = QUninitialized -> (w_index w = Some i \/ w_index w = None /\ layer_metadata i = ∅) ->
    layer_metadata d = layer_metadata i -> clean q = (i, None) -> dirty q = d -> inprogress_tasks q = [] -> queued_operations q = [] ->
    blocked_deletions q = [] -> latest_files_changes_since_metadata_upload_scheduled q = 0 ->
    world_ok (set_queue (QInitialized q) w)) as Hnew.
  { intros q i d Eq Hi Hdl Ec Ed Et Eqq Eb Ech. unfold world_ok in Hok. rewrite Eq in Hok. destruct Hok as (Hsafe & Hrun & Hdone).
    assert (forall p, refers i p -> p ∈ w_layers w /\ p ∉ w_deletions w) as Hi'.
    { intros p Hr. destruct Hi as [Hi|[_ Hi]]; [destruct (Hsafe i p (or_introl Hi) Hr) as (? & ? & _); done|].
      destruct Hr as (m & Hm & _). rewrite Hi in Hm. by rewrite lookup_empty in Hm. }
    unfold world_ok. cbn [w_queue set_queue]. split; cbn [w_layers w_deletions w_running w_index w_done set_queue].
    - split; cbn [qs_queue qs_log]; rewrite ?Et, ?Eqq, ?Hrun, ?Ech; try done.
      + split; [|split; rewrite ?Et, ?Ec; try done; [constructor|by intros t ?%not_elem_of_nil..|right; cbn [length]; lia]].
        unfold ops_of. rewrite Et, Eqq, Ec, Ed. cbn [map fst]. split; cbn [app indexes omap list_omap].
        * cbn [length]. lia.
        * intros [|? ?] ? ? ? [=].
        * by intros op p ?%not_elem_of_nil.
        * intros [|? ?] ? ? ? [=].
        * intros j p ->%list_elem_of_singleton Hr. by apply Hi'.
        * intros p Hr. left. apply Hi'. by apply (refers_ext d i).
        * intros [|? ?] ? ? ? [=].
        * assert (forall p, doomed (w_deletions w) q p -> ~ refers i p) as Hno.
          { intros p [Hp|(x & Hx & _)] Hr; [by apply Hi' in Hr as [_ ?]|]. rewrite Eb in Hx. by apply not_elem_of_nil in Hx. }
          intros p [Hp|(o & Ho & _)]; [|by apply not_elem_of_nil in Ho]. split; [|rewrite (refers_ext d i) by done; by apply Hno].
          intros j ->%list_elem_of_singleton. by apply Hno.
      + unfold ops_of. rewrite Et. by intros ? ? ? ?%not_elem_of_nil.
    - intros j Hj. rewrite Ec. destruct Hi as [Hi|[Hi _]]; rewrite Hi in Hj; [injection Hj as <-; left|done].
    - rewrite Hrun. by intros t ?%not_elem_of_nil.
    - rewrite Hdone. by intros id ?%not_elem_of_nil. }
  unfold wp. destruct He as [(limit & i & ->)|(limit & m & g & a & ->)]; cbn [run_event allowed] in *.
  - unfold init_upload_queue, mbind, M_bind, gets.
    destruct (w_queue w) as [|q|st] eqn:Eq; cbn; intros _; [|done..].
    eapply Hnew; [done|left; exact Hal|done..].
  - unfold init_upload_queue_for_empty_remote, mbind, M_bind, gets.
    destruct (w_queue w) as [|q|st] eqn:Eq; cbn; intros _; [|done..].
    by apply (Hnew (with_dirty (with_rel_size g a) (new_queue limit (index_part_empty m) 0)) (index_part_empty m)
                (with_rel_size g a (index_part_empty m))); [|right|..].
Qed.

(** *** Attempts *)

Lemma init_ok_world w w' q q' :
  init_ok q w -> w_queue w' = QInitialized q' ->
  (forall p, doomed (w_deletions w') q' p -> doomed (w_deletions w) q p \/ exists o, o ∈ ops_of q /\ deletes o p) ->
  (forall p, p ∈ w_layers w -> p ∈ w_layers w' \/ doomed (w_deletions w) q p) ->
  w_running w' = w_running w -> w_done w' = w_done w ->
  (forall i, w_index w' = Some i -> i ∈ (clean q).1 :: indexes (ops_of q)) ->
  (forall t i, t ∈ w_running w -> task_id t ∈ w_done w -> task_op t = UploadMetadata i -> w_index w' = Some i) ->
  clean q' = clean q -> dirty q' = dirty q -> inprogress_tasks q' = inprogress_tasks q ->
  queued_operations q' = queued_operations q -> task_counter q' = task_counter q -> inprogress_limit q' = inprogress_limit q ->
  latest_files_changes_since_metadata_upload_scheduled q' = latest_files_changes_since_metadata_upload_scheduled q ->
  init_ok q' w'.
Proof.
  intros Hok Eq Hdoom Hlay Erun Edone Hidx Hdm Ec Ed Et Eqq Ecnt Elim Ech.
  pose proof (init_ok_seq q w Hok) as Hseq. pose proof (init_ok_running q w Hok) as Hrun.
  destruct Hok as [[[_ Htk] H2 H3 H4 H5 H6 H7] G2 G3 G4]. cbn [qs_queue qs_log] in *.
  split; [split; cbn [qs_queue qs_log]|..]; unfold ops_of in *; rewrite ?Ec, ?Et, ?Eqq, ?Ecnt, ?Ech, ?Erun, ?Edone; try done.
  - split; [|by eapply tasks_ok_same; [..|exact Htk]]. unfold ops_of. rewrite Ec, Ed, Et, Eqq.
    eapply seq_ok_world; [exact Hdoom| |exact Hseq]. intros p Hp. destruct (Hlay p Hp); tauto.
  - intros t Ht Hd. destruct (G3 t Ht Hd) as [D1 D2]. split; [|intros i Hi; by apply (Hdm t)].
    intros p Hp. destruct (Hlay p (D1 p Hp)) as [?|Hdp]; [done|]. exfalso.
    rewrite Hrun in Ht. destruct (so_uploading _ _ _ _ _ _ Hseq (task_op t) p) as (_ & _ & Hn); [|done|done].
    by apply (list_elem_of_fmap_2 task_op).
Qed.

(** The changes an attempt is made of. *)
Lemma world_queue f w :
  world_ok w ->
  (forall q, (forall d, d ∈ blocked_deletions (f q) -> (exists d', d' ∈ blocked_deletions q /\ forall p, p ∈ paths d -> p ∈ paths d')
                                                      \/ DeleteOp d ∈ map task_op (w_running w))
     /\ clean (f q) = clean q /\ dirty (f q) = dirty q /\ inprogress_tasks (f q) = inprogress_tasks q
     /\ queued_operations (f q) = queued_operations q /\ task_counter (f q) = task_counter q
     /\ inprogress_limit (f q) = inprogress_limit q
     /\ latest_files_changes_since_metadata_upload_scheduled (f q) = latest_files_changes_since_metadata_upload_scheduled q) ->
  world_ok (match initialized_mut (w_queue w) with inr q => set_queue (QInitialized (f q)) w | inl _ => w end).
Proof.
  intros Hok Hf. destruct (w_queue w) as [|q|st] eqn:Eq; cbn [initialized_mut]; [done| |done].
  destruct (shutting_down q); [done|]. destruct (Hf q) as (Hb & E1 & E2 & E3 & E4 & E5 & E6 & E7).
  unfold world_ok in Hok. rewrite Eq in Hok. unfold world_ok. cbn [w_queue set_queue].
  pose proof (init_ok_running q w Hok) as Hrun.
  eapply init_ok_world; try done.
  - intros p [Hp|(d & Hd & Hp)]; [left; by left|]. destruct (Hb d Hd) as [(d' & Hd' & Hs)|Ht].
    + left. right. exists d'. split; [done|by apply Hs].
    + right. exists (DeleteOp d). by rewrite Hrun in Ht.
  - by left.
  - apply Hok.
  - intros t i Ht Hd Ei. by apply (io_done _ _ Hok t Ht Hd).
Qed.

Lemma world_layers ls w :
  world_ok w -> (forall p, p ∈ w_layers w -> p ∈ ls \/ p ∈ w_deletions w) -> world_ok (set_layers ls w).
Proof.
  intros Hok Hls. pose proof (world_ok_safe w Hok) as Hsafe.
  assert (index_safe (set_layers ls w)) as Hsafe'.
  { intros i p Hi Hr. destruct (Hsafe i p Hi Hr) as (H1 & H2 & H3). split_and!; [|done|done]. by destruct (Hls p H1). }
  unfold world_ok in *. cbn [w_queue set_layers] in *. destruct (w_queue w) as [|q|st] eqn:Eq; [by destruct Hok| |by destruct Hok].
  eapply (init_ok_world w); try done.
  - by left.
  - intros p Hp. destruct (Hls p Hp) as [?|?]; [by left|]. right. by left.
  - apply Hok.
  - intros t i Ht Hd Ei. by apply (io_done _ _ Hok t Ht Hd).
Qed.

Lemma only_index ts i j : (length (indexes ts) <= 1)%nat -> UploadMetadata i ∈ ts -> UploadMetadata j ∈ ts -> i = j.
Proof.
  intros Hl Hi Hj. apply elem_indexes in Hi, Hj. destruct (indexes ts) as [|x [|y l]]; [by apply not_elem_of_nil in Hi| |cbn in Hl; lia].
  apply list_elem_of_singleton in Hi, Hj. congruence.
Qed.

Lemma world_index i w :
  world_ok w -> UploadMetadata i ∈ map task_op (w_running w) -> world_ok (set_index (Some i) w).
Proof.
  intros Hok Hin. pose proof (world_ok_safe w Hok) as Hsafe.
  assert (index_safe (set_index (Some i) w)) as Hsafe'.
  { intros j p [[= <-]|Hj]; apply Hsafe; by right. }
  unfold world_ok in *. cbn [w_queue set_index] in *. destruct (w_queue w) as [|q|st] eqn:Eq; [by destruct Hok| |by destruct Hok].
  pose proof (init_ok_running q w Hok) as Hrun. eapply (init_ok_world w); try done.
  - by left.
  - by left.
  - intros j [= <-]. right. apply elem_indexes. by rewrite Hrun in Hin.
  - intros t j Ht Hd Ej. cbn [w_index set_index]. f_equal. apply (only_index (map task_op (w_running w))).
    + rewrite Hrun. apply (so_one _ _ _ _ _ _ (init_ok_seq q w Hok)).
    + done.
    + rewrite <- Ej. by apply (list_elem_of_fmap_2 task_op).
Qed.

Lemma world_deletions ps w :
  world_ok w ->
  (forall p, p ∈ ps -> p ∈ w_deletions w
     \/ (exists o, o ∈ map task_op (w_running w) /\ deletes o p)
     \/ match w_queue w with QInitialized q => doomed [] q p | _ => False end) ->
  world_ok (set_deletions ps w).
Proof.
  intros Hok Hps. pose proof (world_ok_safe w Hok) as Hsafe.
  unfold world_ok in *. cbn [w_queue set_deletions] in *. destruct (w_queue w) as [|q|st] eqn:Eq.
  - destruct Hok as (H1 & H2 & H3). split_and!; [|done|done]. intros i p Hi Hr. destruct (Hsafe i p Hi Hr) as (G1 & G2 & G3).
    split_and!; [done| |done]. intros [?|[(o & Ho & Hd)|[]]]%Hps; [done|]. by apply (G3 o).
  - pose proof (init_ok_running q w Hok) as Hrun. eapply (init_ok_world w); try done.
    + intros p [Hp|Hp]; [|left; by right]. destruct (Hps p Hp) as [?|[?|[Hx|Hx]]].
      * left. by left.
      * right. unfold ops_of. by rewrite <- Hrun.
      * by apply not_elem_of_nil in Hx.
      * left. by right.
    + by left.
    + apply Hok.
    + intros t i Ht Hd Ei. by apply (io_done _ _ Hok t Ht Hd).
  - destruct Hok as [H1 H2]. split; [|done]. intros i p Hi Hr. destruct (Hsafe i p Hi Hr) as (G1 & G2 & G3).
    split_and!; [done| |done]. intros [?|[(o & Ho & Hd)|[]]]%Hps; [done|]. by apply (G3 o).
Qed.

Lemma world_done task w :
  world_ok w -> task ∈ w_running w -> (forall p, uploads (task_op task) p -> p ∈ w_layers w) ->
  (forall i, task_op task = UploadMetadata i -> w_index w = Some i) ->
  world_ok (set_done (w_done w ++ [task_id task]) w).
Proof.
  intros Hok Hin Hup Hidx. unfold world_ok in *. cbn [w_queue set_done] in *. destruct (w_queue w) as [|q|st] eqn:Eq.
  - destruct Hok as (_ & Hr & _). rewrite Hr in Hin. by apply not_elem_of_nil in Hin.
  - pose proof (init_ok_running q w Hok) as Hrun. destruct Hok as [H1 H2 H3 H4]. split; try done; cbn [w_running w_done set_done w_layers w_index].
    + intros t Ht Hd. apply elem_of_app in Hd as [Hd|Hd]; [by apply H3|]. apply list_elem_of_singleton in Hd.
      assert (t = task) as ->; [|done]. rewrite Hrun in Ht, Hin.
      destruct H1 as [[_ Htk] _ _ _ _ _ _]. by apply (to_ids_inj q).
    + intros id Hid. apply elem_of_app in Hid as [Hid|Hid]; [by apply H4|]. apply list_elem_of_singleton in Hid as ->.
      rewrite Hrun in Hin. destruct H1 as [[_ Htk] _ _ _ _ _ _]. by apply (to_counter _ Htk).
  - done.
Qed.

(** The debug assertion of a task holds. *)
Lemma modifies_unreferenced_ok task w :
  world_ok w -> task ∈ w_running w -> modifies_unreferenced (task_op task) w = true.
Proof.
  intros Hok Hin. unfold modifies_unreferenced, world_ok in *. destruct (w_queue w) as [|q|st] eqn:Eq; cbn [initialized_mut]; [done| |done].
  destruct (shutting_down q); [done|]. apply forallb_forall. intros [name meta] Hm%list_elem_of_In.
  rewrite negb_true_iff, references_false. pose proof (init_ok_seq q w Hok) as Hs.
  assert (task_op task ∈ ops_of q) as Hop.
  { rewrite (init_ok_running q w Hok) in Hin. by apply (list_elem_of_fmap_2 task_op). }
  destruct (task_op task) as [n m o|i|ls|b|] eqn:Eop; cbn [modified_layers] in Hm; try (by apply not_elem_of_nil in Hm).
  - apply list_elem_of_singleton in Hm. injection Hm as -> ->.
    destruct (so_uploading _ _ _ _ _ _ Hs _ (layer_path n m) Hop eq_refl) as (H1 & _ & _). apply H1. left.
  - destruct (so_doomed _ _ _ _ _ _ Hs (layer_path name meta)) as [H1 _].
    + right. exists (DeleteOp ls). split; [done|]. by apply (list_elem_of_fmap_2 (fun l => layer_path l.1 l.2) ls (name, meta)).
    + apply H1. left.
Qed.

Lemma running_op task w : task ∈ w_running w -> task_op task ∈ map task_op (w_running w).
Proof. apply (list_elem_of_fmap_2 task_op). Qed.

Definition step_post (P : Prop) (o : outcome client_error unit) (w : World) : Prop := world_ok w /\ (P -> o <> Panic).

Lemma if_initialized_running f w :
  w_running (match initialized_mut (w_queue w) with inr q => set_queue (QInitialized (f q)) w | inl _ => w end) = w_running w.
Proof. by destruct (initialized_mut (w_queue w)). Qed.

(** The handling of deletions before an upload. *)
Lemma flush_step name meta mode w config :
  world_ok w ->
  wp (match mode with
      | Some FlushDeletion =>
          if block_deletions config then if_initialized (cancel_blocked name meta) else if_initialized (with_recently_deleted ∅)
      | _ => mret tt
      end) (fun o w' => o = Ok tt /\ world_ok w' /\ w_running w' = w_running w) w.
Proof.
  intros Hok. destruct mode as [[|]|]; [done| |done]. destruct (block_deletions config); apply wp_modify; (split; [done|]);
    (split; [|apply if_initialized_running]); (apply world_queue; [done|]); intros q; (split; [|done]).
  - intros d Hd. left. cbn [cancel_blocked with_blocked blocked_deletions] in Hd. apply list_elem_of_fmap in Hd as (d' & -> & Hd').
    exists d'. split; [done|]. unfold paths. intros p (l & -> & Hl)%list_elem_of_fmap. apply list_elem_of_filter in Hl as [_ Hl].
    by apply (list_elem_of_fmap_2 (fun l => layer_path l.1 l.2)).
  - intros d Hd. left. by exists d.
Qed.

Lemma attempt_step task r w :
  world_ok w -> task ∈ w_running w -> wp (attempt_task generation debug_assertions task r) (step_post (generation <> GNone)) w.
Proof.
  intros Hok Hin. unfold attempt_task, attempt.
  apply wp_bind, wp_bind, wp_gets, wp_bind, wp_assert; [|by rewrite (modifies_unreferenced_ok task w Hok Hin), orb_true_r].
  intros _. apply wp_bind, wp_gets. pose proof (running_op _ _ Hin) as Hop.
  assert (forall w', world_ok w' -> w_running w' = w_running w -> (forall p, uploads (task_op task) p -> p ∈ w_layers w') ->
    (forall i, task_op task = UploadMetadata i -> w_index w' = Some i) ->
    step_post (generation <> GNone) (Ok tt) (set_done (w_done w' ++ [task_id task]) w')) as Hdone.
  { intros w' Hok' Hr Hu Hi. split; [|done]. by apply world_done; rewrite ?Hr. }
  destruct (task_op task) as [name meta mode|i|ls|b|] eqn:Eop.
  - apply wp_bind. eapply wp_mono; [by apply flush_step|]. intros o w1 (-> & Hok1 & Hr1).
    apply wp_bind, wp_assert; [|intros Hn; rewrite bool_decide_eq_false in Hn; destruct Hn; by eapply (world_ok_generation w Hok name meta mode)].
    intros _. destruct r as [|[|]]; cbn [took_effect].
    + apply wp_bind, wp_modify, wp_ret, wp_modify. apply Hdone; [apply world_layers; [done|set_solver]|done| |done].
      intros p ->. cbn [w_layers set_layers]. set_solver.
    + apply wp_bind, wp_modify, wp_ret, wp_ret. split; [|done]. apply world_layers; [done|set_solver].
    + apply wp_bind, wp_ret, wp_ret, wp_ret. by split.
  - destruct r as [|[|]]; cbn [took_effect].
    + apply wp_bind, wp_modify, wp_ret, wp_modify. apply Hdone; [by apply world_index|done|by intros p []|by intros j [= ->]].
    + apply wp_bind, wp_modify, wp_ret, wp_ret. split; [|done]. by apply world_index.
    + apply wp_bind, wp_ret, wp_ret, wp_ret. by split.
  - destruct (block_deletions (w_config w)).
    + apply wp_bind, wp_modify, wp_ret, wp_modify. apply Hdone; [|apply if_initialized_running|by intros p []|done].
      apply world_queue; [done|]. intros q. split; [|done]. intros d Hd. cbn [with_blocked blocked_deletions] in Hd.
      apply elem_of_app in Hd as [Hd|Hd]; [left; by exists d|]. apply list_elem_of_singleton in Hd as ->. by right.
    + destruct r as [|b]; [|apply wp_ret, wp_ret; by split]. unfold push_layers. apply wp_bind, wp_bind, wp_assert.
      * intros _. apply wp_modify, wp_ret, wp_modify. apply Hdone; [|done|by intros p []|done]. apply world_deletions; [done|].
        intros p [Hp|Hp]%elem_of_app; [by left|]. right. left. by exists (DeleteOp ls).
      * intros Hn%bool_decide_eq_false. split; [done|]. intros Hg. by destruct Hn.
  - apply wp_ret, wp_modify. apply Hdone; [done|done|by intros p []|done].
  - apply wp_ret, wp_modify. apply Hdone; [done|done|by intros p []|done].
Qed.

Lemma complete_step task w :
  world_ok w -> task ∈ w_running w -> task_id task ∈ w_done w ->
  wp (complete_task nr nc generation task) (step_post True) w.
Proof.
  intros Hok Hin Hd. unfold wp, complete_task. unfold world_ok in Hok. destruct (w_queue w) as [|q|st] eqn:Eq.
  - destruct Hok as (_ & Hr & _). rewrite Hr in Hin. by apply not_elem_of_nil in Hin.
  - pose proof (init_ok_running q w Hok) as Hrun. destruct (io_done _ _ Hok task Hin Hd) as [Hup Hidx].
    destruct (finish_ok nr nc generation (w_layers w) (w_deletions w) q task (w_channels w)
      (process_remote_consistent_lsn_updates (w_config w))) as [(lsn & Ho) Hs]; [apply Hok|by rewrite <- Hrun|done|apply Hok|apply Hok|].
    unfold mbind, M_bind, with_lock.
    destruct (finish_task nr nc generation (process_remote_consistent_lsn_updates (w_config w)) task
      (mkQState q [] (w_channels w))) as [o s]. cbn [fst snd] in *. subst o. cbn [modify fst snd]. split; [|done].
    assert (task_id task <= task_counter q) as Hid by by apply (io_counter _ _ Hok).
    assert (filter (fun t => task_id t <> task_id task) (w_running w ++ spawned (qs_log s))
            = without task (inprogress_tasks q) ++ spawned (qs_log s)) as Ef.
    { rewrite filter_app, Hrun. f_equal. apply filter_all. intros t Ht E. pose proof (st_new _ _ _ _ _ _ _ Hs) as Hn.
      rewrite Forall_forall in Hn. specialize (Hn t Ht). lia. }
    destruct Hs as [G1 G2 G3 G4 G5 G6 G7].
    unfold world_ok, set_running, set_lsn_updates, unlock. cbn [w_queue w_running w_layers w_deletions w_channels w_index w_done].
    split; cbn [w_queue w_running w_layers w_deletions w_channels w_index w_done].
    + rewrite Ef. split; cbn [qs_queue qs_log]; try done. by rewrite G2, app_nil_r.
    + intros i Hi. rewrite G7. unfold uploaded_by. destruct (task_op task) as [n m x|i0|ls|b|] eqn:Eop;
        try (pose proof (io_index _ _ Hok i Hi) as Hi'; unfold ops_of in *; rewrite G2, map_app, indexes_app; apply elem_cons_app;
             apply elem_of_cons in Hi' as [->|Hi']; [left|right]; rewrite elem_indexes in *;
             apply list_elem_of_fmap in Hi' as (t & Et & Ht); rewrite Et; apply (list_elem_of_fmap_2 task_op);
             apply list_elem_of_filter; split; [|done]; intros E; rewrite Hrun in Hin;
             rewrite (to_ids_inj q t task) in Et by (try done; apply Hok); congruence).
      rewrite (Hidx i0 eq_refl) in Hi. injection Hi as <-. left.
    + rewrite Ef. intros t Ht Hdt. apply elem_of_app in Ht as [Ht|Ht].
      * apply list_elem_of_filter in Ht as [_ Ht]. rewrite <- Hrun in Ht. by apply (io_done _ _ Hok).
      * rewrite Forall_forall in G6. specialize (G6 t Ht). pose proof (io_counter _ _ Hok _ Hdt). lia.
    + intros id Hdi. pose proof (io_counter _ _ Hok _ Hdi). lia.
  - split; [|done]. cbn [snd]. unfold world_ok. cbn [w_queue set_running]. rewrite Eq. destruct Hok as [H1 H2].
    assert (forall o, o ∈ map task_op (filter (fun t => task_id t <> task_id task) (w_running w)) -> o ∈ map task_op (w_running w)) as Hsub.
    { intros o (t & -> & Ht)%list_elem_of_fmap. apply list_elem_of_filter in Ht as [_ Ht]. by apply (list_elem_of_fmap_2 task_op). }
    split.
    + intros i p Hi Hr. destruct (H1 i p) as (G1 & G2 & G3); [destruct Hi as [?|Hi]; [by left|right; by apply Hsub]|done|].
      split_and!; [done|done|]. intros o Ho. apply G3. by apply Hsub.
    + intros name meta mode Hm. apply (H2 name meta mode). by apply Hsub.
Qed.

Lemma world_config conf w : world_ok w -> world_ok (set_config conf w).
Proof.
  unfold world_ok. cbn [w_queue set_config]. destruct (w_queue w) as [|q|st]; [done| |done]. intros [H1 H2 H3 H4]. by split.
Qed.

Lemma config_step conf pushed w : world_ok w -> wp (update_config generation conf pushed) (step_post (generation <> GNone)) w.
Proof.
  intros Hok. unfold update_config. apply wp_bind, wp_modify. pose proof (world_config conf w Hok) as Hok1.
  destruct (block_deletions conf); [by apply wp_ret|]. apply wp_bind, wp_gets.
  cbn [w_queue set_config]. destruct (w_queue w) as [|q|st] eqn:Eq; cbn [initialized_mut]; [by apply wp_ret| |by apply wp_ret].
  destruct (shutting_down q) eqn:Esd; [by apply wp_ret|]. apply wp_bind, wp_modify.
  pose proof (world_queue (with_blocked []) _ Hok1) as Hok2. cbn [w_queue set_config] in Hok2. rewrite Eq in Hok2.
  cbn [initialized_mut] in Hok2. rewrite Esd in Hok2.
  assert (forall P, step_post P (Ok tt) (set_queue (QInitialized (with_blocked [] q)) (set_config conf w))) as Hdone.
  { intros P. split; [|done]. apply Hok2. intros q'. split; [|done]. by intros d ?%not_elem_of_nil. }
  destruct (blocked_deletions q) as [|b bs] eqn:Eb; [apply wp_ret, Hdone|]. unfold push_layers. apply wp_bind, wp_assert.
  2: { intros Hn%bool_decide_eq_false. split; [apply (Hdone True)|]. intros Hg. by destruct Hn. }
  intros _. apply wp_modify. split; [|done]. unfold world_ok in Hok. rewrite Eq in Hok. rewrite <- Eb.
  eapply (init_ok_world w _ q); try done; cbn [w_deletions set_deletions set_queue set_config w_layers].
  - intros p [Hp|(d & Hd & _)]; [|by apply not_elem_of_nil in Hd]. left. apply elem_of_app in Hp as [Hp|Hp]; [by left|].
    right. unfold paths in Hp. apply list_elem_of_fmap in Hp as (l & -> & Hl). apply list_elem_of_In, in_concat in Hl as (d & Hd & Hl).
    exists d. apply list_elem_of_In in Hd, Hl. split; [by eapply elem_of_take in Hd as (k & Hd & _); apply list_elem_of_lookup; exists k|].
    by apply (list_elem_of_fmap_2 (fun l => layer_path l.1 l.2)).
  - by left.
  - apply Hok.
  - intros t i Ht Hd Ei. by apply (io_done _ _ Hok t Ht Hd).
Qed.

Lemma stop_ok w : world_ok w -> world_ok (stop w).2.
Proof.
  intros Hok. pose proof (world_ok_safe w Hok) as H1. pose proof (world_ok_generation w Hok) as H2.
  unfold stop. cbn [modify snd]. destruct (w_queue w) as [|q|st] eqn:Eq; [by split|by split|done].
Qed.

Lemma shutdown_step w : world_ok w -> wp (shutdown nr nc) (step_post True) w.
Proof.
  intros Hok. unfold wp, shutdown. destruct (w_queue w) as [|q|st] eqn:Eq.
  - split; [|done]. by apply stop_ok.
  - unfold world_ok in Hok. rewrite Eq in Hok.
    assert (wp (begin_shutdown nr nc) (fun o s => o = Ok tt /\ state_ok generation (w_layers w) (w_deletions w) (w_running w)
      (task_counter q) (clean q) s) (mkQState q [] (w_channels w))) as H.
    { unfold begin_shutdown. apply wp_bind, wp_queue. destruct (shutting_down _); [apply wp_ret; split; [done|apply Hok]|].
      apply wp_bind, wp_on_queue, wp_bind, wp_on_queue. apply wp_launch_state. intros q' ls E. split; [done|].
      refine (state_launch nr nc generation _ _ _ _ _ _ q' ls _ E). apply (pr_shutdown (Preserved := state_preserved nr nc _ _ _ _ _ _)), (pr_shutting (Preserved := state_preserved nr nc _ _ _ _ _ _)), Hok. }
    unfold with_lock. unfold wp in H. destruct (begin_shutdown nr nc (mkQState q [] (w_channels w))) as [o s].
    destruct H as [Ho Hs]. cbn [fst snd] in *. subst o. split; [|done]. by apply (unlock_ok q).
  - split; [|done]. exact Hok.
Qed.

(** Events that do not depend on what the caller passes: they never panic. *)
Definition internal (e : event) : Prop := match e with EInit _ _ | EInitEmpty _ _ _ _ | ECall _ => False | _ => True end.

Lemma event_step e w :
  world_ok w -> allowed e w ->
  wp (run_event e) (fun o w' => (o <> Panic -> world_ok w') /\ (internal e -> generation <> GNone -> o <> Panic)) w.
Proof.
  intros Hok Hal. destruct e as [limit i|limit m g a|c|task r|task|conf pushed| | |p].
  - eapply wp_mono; [apply init_step; [left; by eexists _, _|done|done]|]. done.
  - eapply wp_mono; [apply init_step; [right; by eexists _, _, _, _|done|done]|]. done.
  - eapply wp_mono; [by apply call_step|]. done.
  - destruct Hal as [Ht _]. eapply wp_mono; [by apply attempt_step|]. intros o w' [H1 H2]. split; [done|]. intros _. apply H2.
  - destruct Hal as [Ht Hd]. eapply wp_mono; [by apply complete_step|]. intros o w' [H1 H2]. split; [done|]. intros _ _. by apply H2.
  - eapply wp_mono; [by apply config_step|]. intros o w' [H1 H2]. split; [done|]. intros _. apply H2.
  - eapply wp_mono; [by apply shutdown_step|]. intros o w' [H1 H2]. split; [done|]. intros _ _. by apply H2.
  - split; [|done]. intros _. by apply stop_ok.
  - apply wp_modify. split; [|done]. intros _. apply world_layers; [done|]. cbn [allowed] in Hal. intros q Hq.
    destruct (decide (q = p)) as [->|]; [by right|left; set_solver].
Qed.

Lemma reachable_ok w : reachable w -> world_ok w.
Proof.
  induction 1 as [w (Hq & Hr & Hd & Hi)|w e o w' _ IH Hal He Ho].
  - unfold world_ok. rewrite Hq. split_and!; [|done|done]. intros i p [Hidx|Hm] Hp; [|rewrite Hr in Hm; by apply not_elem_of_nil in Hm].
    destruct (Hi i p Hidx Hp). split_and!; [done|done|]. intros op Hop. rewrite Hr in Hop. by apply not_elem_of_nil in Hop.
  - pose proof (event_step e w IH Hal) as H. unfold wp in H. rewrite He in H. by apply H.
Qed.
End runs.

(** ** The theorems *)

(** A run to look at: a timeline with an empty remote, a layer uploaded, then the
    index that names it, then its deletion. *)
Module Example.
Definition shard : TenantShardId := mkTenantShardId [] 0 0.
Definition layer : ResidentLayer :=
  mkResidentLayer (mkLayerDesc shard [] (mkRange (mkKey 0 0 0 0 0 0) (mkKey 0 0 0 0 0 9)) (mkRange 16 17) false 8192)
    (GValid 3) (mkShardIndex 0 0).
Definition name : LayerName := Image (mkImageLayerName (mkRange (mkKey 0 0 0 0 0 0) (mkKey 0 0 0 0 0 9)) 16).
Definition meta : LayerFileMetadata := layer_file_metadata layer.
Definition metadata : TimelineMetadata := mkTimelineMetadata 16 None None 0 0 0 16.
Definition world0 : World := mkWorld QUninitialized (mkConfig true false) [] [] 0 [] None ∅ [] [].

Definition run (e : event) (w : World) : World := (run_event false false true shard (GValid 3) e w).2.
Definition upload : UploadTask := mkUploadTask 1 (UploadLayer name meta (Some MayReorder)) [].
Definition index_task : UploadTask :=
  mkUploadTask 2 (UploadMetadata (with_layers <[name := meta]> (index_part_empty metadata))) [].
Definition world1 : World := run (EInitEmpty 4 metadata None None) world0.
Definition world2 : World := run (ECall (CUpload layer)) world1.
Definition world3 : World := run (ECall CFileChanges) world2.
Definition world4 : World := run (EAttempt upload Succeeded) world3.
Definition world5 : World := run (EComplete upload) world4.
Definition world6 : World := run (EAttempt index_task Succeeded) world5.

Definition example_reachable : World -> Prop := reachable false false true shard (GValid 3).

Lemma example_step e w w' : example_reachable w -> allowed shard (GValid 3) e w ->
  run_event false false true shard (GValid 3) e w = (Ok tt, w') -> example_reachable w'.
Proof. intros Hr Ha He. by eapply reachable_step. Qed.

Lemma uploadable_first limit n :
  uploadable (GValid 3) [] [layer] (mkQState (with_dirty (with_rel_size None None) (new_queue limit (index_part_empty metadata) 0)) [] n).
Proof.
  split_and!; [by intros l ->%list_elem_of_singleton|apply NoDup_singleton|]. intros p Hp. split_and!; cbn.
  - intros i Hi (m & Hm & _). repeat (apply elem_of_cons in Hi as [->|Hi]; [by change ((∅ : gmap LayerName LayerFileMetadata) !! p.1.1 = Some m) in Hm; rewrite lookup_empty in Hm|]).
    by apply not_elem_of_nil in Hi.
  - by intros o ?%not_elem_of_nil.
  - intros [Hx|(d & Hd & _)]; [by apply not_elem_of_nil in Hx|by apply not_elem_of_nil in Hd].
Qed.

(** [e] leads from [w] to [w'] within the contract. *)
Definition leads (e : event) (w w' : World) : Prop :=
  allowed shard (GValid 3) e w /\ run_event false false true shard (GValid 3) e w = (Ok tt, w').

Lemma upload_runs : leads (EAttempt upload Succeeded) world3 world4 /\ leads (EComplete upload) world4 world5.
Proof.
  split; (split; [|vm_compute; reflexivity]); cbn [allowed].
  - split; [replace (w_running world3) with [upload] by (vm_compute; reflexivity); left|by intros ?%not_elem_of_nil].
  - split; [replace (w_running world4) with [upload] by (vm_compute; reflexivity)|replace (w_done world4) with [1] by (vm_compute; reflexivity)];
      left.
Qed.

Lemma scheduled : example_reachable world3.
Proof.
  assert (example_reachable world0) as H0.
  { apply reachable_init. split_and!; [done..|]. intros i p [=]. }
  assert (example_reachable world1) as H1 by by apply (example_step (EInitEmpty 4 metadata None None) world0).
  assert (example_reachable world2) as H2.
  { apply (example_step (ECall (CUpload layer)) world1); [done|apply uploadable_first|vm_compute; reflexivity]. }
  by apply (example_step (ECall CFileChanges) world2); [..|vm_compute; reflexivity].
Qed.

Lemma uploaded : example_reachable world5 /\ example_reachable world6.
Proof.
  destruct upload_runs as [[H1 H2] [H3 H4]]. pose proof (example_step _ _ _ scheduled H1 H2) as Hr.
  pose proof (example_step _ _ _ Hr H3 H4) as Hr'. split; [done|].
  apply (example_step (EAttempt index_task Succeeded) world5); [done| |vm_compute; reflexivity].
  split; [replace (w_running world5) with [index_task] by (vm_compute; reflexivity); left|].
  replace (w_done world5) with [1] by (vm_compute; reflexivity). by intros [=]%list_elem_of_singleton.
Qed.
End Example.

(** C5: Whatever the callers schedule within their contract, however the requests
    to remote storage fail (also after having taken effect), in whatever order
    tasks run and finish, and whenever the client is stopped: the index in remote
    storage names only layers that are in remote storage, and none that has been
    handed to the deletion queue. *)
Theorem index_names_present_layers nr nc debug_assertions tenant_shard_id generation w i name meta :
  reachable nr nc debug_assertions tenant_shard_id generation w ->
  w_index w = Some i -> layer_metadata i !! name = Some meta ->
  layer_path name meta ∈ w_layers w /\ layer_path name meta ∉ w_deletions w.
Proof.
  intros Hr Hi Hm. pose proof (world_ok_safe _ _ (reachable_ok nr nc debug_assertions tenant_shard_id generation w Hr)) as Hs.
  destruct (Hs i (layer_path name meta)) as (H1 & H2 & _); [by left|by exists meta|done].
Qed.

Lemma index_names_present_layers_witness :
  let i := with_layers <[Example.name := Example.meta]> (index_part_empty Example.metadata) in
  w_index Example.world6 = Some i /\ layer_path Example.name Example.meta ∈ w_layers Example.world6.
Proof.
  split; [vm_compute; reflexivity|].
  apply (index_names_present_layers false false true Example.shard (GValid 3) Example.world6
    (with_layers <[Example.name := Example.meta]> (index_part_empty Example.metadata)) Example.name Example.meta
    (proj2 Example.uploaded)); vm_compute; reflexivity.
Defined.

(** C23: With a generation, no attempt of a task, completion of a task, change of
    the configuration, shutdown or stop ever panics: the debug assertion that a
    task modifies no layer the uploaded index names, the assertion on the
    generation of an uploaded layer, and the one that index versions are uploaded
    in order all hold in every run. *)
Theorem tasks_never_panic nr nc debug_assertions tenant_shard_id generation w e :
  reachable nr nc debug_assertions tenant_shard_id generation w ->
  generation <> GNone -> allowed tenant_shard_id generation e w -> internal e ->
  (run_event nr nc debug_assertions tenant_shard_id generation e w).1 <> Panic.
Proof.
  intros Hr Hg Ha Hi.
  by apply (event_step nr nc debug_assertions tenant_shard_id generation e w (reachable_ok _ _ _ _ _ w Hr) Ha).
Qed.

Lemma tasks_never_panic_witness :
  (run_event false false true Example.shard (GValid 3) (EAttempt Example.index_task (Failed true)) Example.world5).1 <> Panic.
Proof.
  apply (tasks_never_panic false false true Example.shard (GValid 3) Example.world5 (EAttempt Example.index_task (Failed true))
    (proj1 Example.uploaded)); [discriminate| |exact I].
  split; [replace (w_running Example.world5) with [Example.index_task] by (vm_compute; reflexivity); left|].
  replace (w_done Example.world5) with [1] by (vm_compute; reflexivity). by intros [=]%list_elem_of_singleton.
Defined.

(** Asking for a visibility toggles it instead of setting it: whichever state is
    asked for, the timeline is marked invisible afterwards exactly if it was not
    before.  Asking for a visible timeline to be visible marks it invisible, and
    asking for an invisible one to be invisible clears the mark. *)
Theorem invisible_state_toggles nr nc now state s :
  ip_marked_invisible_at (dirty (qs_queue (schedule_index_upload_for_timeline_invisible_state nr nc now state s).2))
  = match ip_marked_invisible_at (dirty (qs_queue s)) with None => Some now | Some _ => None end.
Proof.
  assert (forall f s, wp (_ ← on_queue (with_dirty (with_marked_invisible_at f)); schedule_index_upload nr nc)
    (fun _ s' => ip_marked_invisible_at (dirty (qs_queue s')) = f) s) as H.
  { intros f s'. apply wp_bind, wp_on_queue. unfold schedule_index_upload. do 3 (apply wp_bind, wp_on_queue).
    apply wp_launch_state. intros q ls E. apply launch_same in E as [E _ _ _ _ _ _ _ _ _]. cbn [qs_queue snd]. by rewrite E. }
  unfold schedule_index_upload_for_timeline_invisible_state. unfold mbind at 1, M_bind at 1, queue at 1, gets at 1.
  cbn [fst snd]. destruct (ip_marked_invisible_at (dirty (qs_queue s))) as [at_|], state; apply H.
Qed.
