(* ===== verification/RemoteRuns.v ===== *)
(** * Following the queue through a run

    A property of the queue and of what has been launched so far holds throughout a
    run of the client once it is kept by a change of the queue that leaves its
    progress alone, by adding to its end, by a launch, and by the end of a task. *)

From S2P Require Import Prelude Lsn XlogUtils Key Shard LayerName IndexPart UploadQueue.
From S2P Require Import UploadQueueFacts UploadQueueSafety RemoteClient RemoteClientFacts RemoteSafety.

(** ** What has been launched *)

(** The mode of an upload is decided at its launch. *)
Definition anonymous (op : UploadOp) : UploadOp :=
  match op with UploadLayer name meta _ => UploadLayer name meta None | _ => op end.

Definition launched_op (l : launched) : list UploadOp :=
  match l with
  | Spawned t => map anonymous (coalesced_ops t ++ [task_op t])
  | Notified channel => [Barrier channel]
  end.
Definition launched_ops (ls : list launched) : list UploadOp := concat (map launched_op ls).

Lemma launched_ops_app a b : launched_ops (a ++ b) = launched_ops a ++ launched_ops b.
Proof. unfold launched_ops. by rewrite map_app, concat_app. Qed.

Lemma can_bypass_anonymous x a b i : anonymous a = anonymous b -> can_bypass x a i = can_bypass x b i.
Proof. destruct a, b; intros E; by simplify_eq/=. Qed.

Lemma is_metadata_anonymous a b : anonymous a = anonymous b -> is_metadata a = is_metadata b.
Proof. by destruct a, b. Qed.

Lemma index_of_anonymous a b : anonymous a = anonymous b -> index_of a = index_of b.
Proof. destruct a, b; intros E; by simplify_eq/=. Qed.

(** What one launch does to the tasks. *)
Lemma launch_op_effect op co q q' l :
  launch_op op co q = Some (q', l) -> (co <> [] -> is_metadata op = true) ->
  inprogress_limit q' = inprogress_limit q /\ clean q' = clean q /\ queued_operations q' = queued_operations q
  /\ launched_op l = map anonymous (co ++ [op])
  /\ (is_barrier op = true /\ inprogress_tasks q' = inprogress_tasks q /\ task_counter q' = task_counter q
      \/ exists t, inprogress_tasks q' = inprogress_tasks q ++ [t] /\ anonymous (task_op t) = anonymous op
           /\ l = Spawned t /\ task_id t = task_counter q + 1 /\ task_counter q' = task_counter q + 1).
Proof.
  intros H Hco. destruct op as [n m o|i|d|c|]; cbn [launch_op spawn] in H; try discriminate H; injection H as <- <-;
    cbn [launched_op coalesced_ops task_op]; rewrite ?map_app;
    (split_and!; [done|done|done|try done|try (right; eexists; split_and!; done)]).
  - destruct co as [|x co]; [done|]. by specialize (Hco ltac:(done)).
  - by left.
Qed.

(** ** Properties of the queue and its log *)

Definition same_progress (q q' : UploadQueueInitialized) : Prop :=
  inprogress_limit q' = inprogress_limit q /\ task_counter q' = task_counter q /\ clean q' = clean q
  /\ inprogress_tasks q' = inprogress_tasks q /\ queued_operations q' = queued_operations q /\ shutdown_ready q' = shutdown_ready q.

(** The queue with the task taken out, before the launch that follows. *)
Definition finished (task : UploadTask) (visible : Lsn) (q : UploadQueueInitialized) : UploadQueueInitialized :=
  with_visible_lsn visible (with_clean (uploaded_by task (clean q)) (with_tasks (task_counter q) (without task (inprogress_tasks q)) q)).

(** [I] holds throughout a call, [L] whenever the lock is free. *)
Class Tracked (nr nc : bool) (I L : list launched -> UploadQueueInitialized -> Prop) : Prop := {
  tk_weaken log q : L log q -> I log q;
  tk_quiet log q q' : same_progress q q' -> I log q -> I log q';
  tk_quiet' log q q' : same_progress q q' -> L log q -> L log q';
  tk_push log op q : I log q -> I log (push_back op q);
  tk_launch log q q' ls : I log q -> launch_queued_tasks nr nc q = Some (q', ls) -> L (log ++ ls) q';
  tk_finish log q task visible : tasks_ok q -> task ∈ inprogress_tasks q -> L log q -> I log (finished task visible q)
}.

(** During a call. *)
Definition within (I : list launched -> UploadQueueInitialized -> Prop) (log : list launched) (s : QState) : Prop :=
  I (log ++ qs_log s) (qs_queue s).

#[global] Instance tracked_insensitive nr nc I L log : Tracked nr nc I L -> Insensitive nr nc (within I log) (within L log).
Proof.
  intros HT. split; [split|..]; unfold within; try (intros; by apply (tk_push (Tracked := HT)));
    try (intros; eapply (tk_quiet (Tracked := HT)); [|eassumption]; done);
    try (intros; eapply (tk_quiet' (Tracked := HT)); [|eassumption]; done).
  - intros s. apply tk_weaken.
  - intros s q ls Hs E. cbn [qs_log qs_queue]. rewrite app_assoc. by apply (tk_launch (Tracked := HT) _ (qs_queue s)).
Qed.

Definition is_stopped (w : World) : Prop := exists st, w_queue w = QStopped st.

(** Changes that leave the progress of the queue alone. *)
Definition untouched (w w' : World) : Prop :=
  w_log w' = w_log w /\
  match w_queue w with
  | QInitialized q => exists blocked recent, w_queue w' = QInitialized (with_blocked blocked (with_recently_deleted recent q))
  | _ => w_queue w' = w_queue w
  end.

Section runs.
Context (nr nc debug_assertions : bool) (tenant_shard_id : TenantShardId) (generation : Generation).

Lemma untouched_refl w : untouched w w.
Proof. split; [done|]. destruct (w_queue w) as [|q|]; [done| |done]. exists (blocked_deletions q), (recently_deleted q). by destruct q. Qed.

Lemma untouched_trans w1 w2 w3 : untouched w1 w2 -> untouched w2 w3 -> untouched w1 w3.
Proof.
  intros [E1 H1] [E2 H2]. split; [by rewrite E2|]. destruct (w_queue w1) as [|q|] eqn:Eq; [rewrite H1 in H2; by rewrite H2| |rewrite H1 in H2; by rewrite H2].
  destruct H1 as (b & r & H1). rewrite H1 in H2. destruct H2 as (b' & r' & H2). by exists b', r'.
Qed.

(** Computations that change no more than that. *)
Definition keeps {A} (m : M client_error World A) : Prop := forall w, wp m (fun _ w' => untouched w w') w.

Lemma keeps_bind {A B} (m : M client_error World A) (f : A -> M client_error World B) :
  keeps m -> (forall a, keeps (f a)) -> keeps (m ≫= f).
Proof.
  intros Hm Hf w. apply wp_bind. eapply wp_mono; [apply Hm|]. intros [a|e|] w' Hw'; [|done|done].
  eapply wp_mono; [apply Hf|]. intros o w''. by apply untouched_trans.
Qed.
Lemma keeps_ret {A} (a : A) : keeps (mret a).
Proof. intros w. apply wp_ret, untouched_refl. Qed.
Lemma keeps_gets {A} (f : World -> A) : keeps (gets f).
Proof. intros w. apply wp_gets, untouched_refl. Qed.
Lemma keeps_assert b : keeps (assert b).
Proof. intros w. apply wp_assert; intros _; apply untouched_refl. Qed.
Lemma keeps_modify (f : World -> World) : (forall w, w_log (f w) = w_log w /\ w_queue (f w) = w_queue w) -> keeps (modify f).
Proof.
  intros Hf w. apply wp_modify. destruct (Hf w) as [E1 E2]. split; [done|]. rewrite E2. apply (untouched_refl w).
Qed.
Lemma keeps_if_initialized f :
  (forall q, f q = with_blocked (blocked_deletions (f q)) (with_recently_deleted (recently_deleted (f q)) q)) ->
  keeps (if_initialized f).
Proof.
  intros Hf w. apply wp_modify. destruct (w_queue w) as [|q|] eqn:Eq; cbn [initialized_mut]; try apply untouched_refl.
  destruct (shutting_down q); [apply untouched_refl|]. split; [done|]. rewrite Eq. eexists _, _.
  cbn [w_queue set_queue]. by rewrite (Hf q) at 1.
Qed.

Ltac keep :=
  repeat first
    [ apply keeps_bind; [|intros] | apply keeps_ret | apply keeps_gets | apply keeps_assert | by apply keeps_modify
    | by apply keeps_if_initialized; intros []
    | match goal with |- keeps (match ?x with _ => _ end) => destruct x end ].

Lemma attempt_keeps task r : keeps (attempt_task generation debug_assertions task r).
Proof. unfold attempt_task, attempt, push_layers. keep. Qed.

Lemma config_keeps conf pushed : keeps (update_config generation conf pushed).
Proof.
  unfold update_config, push_layers. apply keeps_bind; [by apply keeps_modify|]. intros _. destruct (block_deletions conf); [apply keeps_ret|].
  intros w. apply wp_bind, wp_gets. destruct (w_queue w) as [|q|] eqn:Eq; cbn [initialized_mut]; try (apply wp_ret, untouched_refl).
  destruct (shutting_down q); [apply wp_ret, untouched_refl|]. apply wp_bind, wp_modify.
  assert (untouched w (set_queue (QInitialized (with_blocked [] q)) w)) as Hu.
  { split; [done|]. rewrite Eq. exists [], (recently_deleted q). by destruct q. }
  assert (keeps (match blocked_deletions q with
      | [] => mret tt | blocked => push_layers generation (concat (take pushed blocked)) end)) as Hk by (unfold push_layers; keep).
  eapply wp_mono; [apply Hk|]. intros o w'. by apply untouched_trans.
Qed.

Lemma finish_launches (R : QState -> Prop) process task q ch :
  (forall visible, wp (launch nr nc) (unless_panic R) (mkQState (finished task visible q) [] ch)) ->
  wp (finish_task nr nc generation process task) (unless_panic R) (mkQState q [] ch).
Proof.
  intros Hl. assert (forall (lsn : option Lsn) visible,
    wp (launch nr nc ≫= fun _ => mret lsn) (unless_panic R) (mkQState (finished task visible q) [] ch)) as H.
  { intros lsn visible. apply wp_bind. eapply wp_mono; [apply Hl|]. by intros [[]|e|] s Hs; [apply wp_ret|..]. }
  unfold finish_task. apply wp_bind, wp_on_queue, wp_bind. unfold finished, uploaded_by in H.
  destruct (task_op task) as [nm mt mode|i|d|b|]; try done; [apply wp_ret, (H None (visible_remote_consistent_lsn q))| |apply wp_ret, (H None (visible_remote_consistent_lsn q))].
  unfold record_uploaded. apply wp_bind, wp_queue, wp_bind, wp_assert; [|done]. intros _. apply wp_bind, wp_on_queue.
  destruct (decide (generation = GNone)); [apply wp_bind, wp_on_queue, wp_ret, (H None)|].
  destruct process; apply wp_ret; [apply (H (Some _) (visible_remote_consistent_lsn q))|apply (H None (visible_remote_consistent_lsn q))].
Qed.

(** ** Events *)

Section tracked.
Context (I L : list launched -> UploadQueueInitialized -> Prop) `{HT : !Tracked nr nc I L}.

Definition world_tracks (log0 : list launched) (w : World) : Prop :=
  exists q log, w_queue w = QInitialized q /\ w_log w = log0 ++ log /\ L log q.

Lemma untouched_tracks log0 w w' : untouched w w' -> world_tracks log0 w -> world_tracks log0 w'.
Proof.
  intros [El Hq] (q & log & Eq & Elog & H). rewrite Eq in Hq. destruct Hq as (b & r & Eq').
  exists (with_blocked b (with_recently_deleted r q)), log. split_and!; [done|by rewrite El|]. by apply (tk_quiet' (Tracked := HT) log q).
Qed.

Lemma lock_tracks {A} (m : QM A) log0 log q w :
  w_log w = log0 ++ log -> wp m (unless_panic (within L log)) (mkQState q [] (w_channels w)) ->
  wp (with_lock q m) (fun o w' => o <> Panic -> world_tracks log0 w') w.
Proof.
  intros El H. unfold wp, with_lock in *. destruct (m (mkQState q [] (w_channels w))) as [o s]. cbn [fst snd] in *.
  intros Ho. exists (qs_queue s), (log ++ qs_log s). unfold unlock. cbn [w_queue w_log].
  split_and!; [done|by rewrite El, app_assoc|by destruct o].
Qed.

Lemma within_start log q ch : L log q -> within L log (mkQState q [] ch).
Proof. unfold within. cbn [qs_log qs_queue]. by rewrite app_nil_r. Qed.

Lemma complete_tracks log0 task w :
  world_ok generation w -> task ∈ w_running w -> world_tracks log0 w ->
  wp (complete_task nr nc generation task) (fun o w' => o <> Panic -> world_tracks log0 w') w.
Proof.
  intros Hok Hin (q & log & Eq & El & Hw). unfold complete_task, wp. rewrite Eq. unfold world_ok in Hok. rewrite Eq in Hok.
  rewrite (init_ok_running _ _ _ Hok) in Hin.
  assert (tasks_ok q) as Htk by (destruct Hok as [[[_ ?] _ _ _ _ _ _] _ _ _]; done).
  assert (wp (finish_task nr nc generation (process_remote_consistent_lsn_updates (w_config w)) task) (unless_panic (within L log))
    (mkQState q [] (w_channels w))) as Hf.
  { apply finish_launches. intros v. apply (wp_launch nr nc (within I log) (within L log)); [|done].
    unfold within. cbn [qs_log qs_queue]. rewrite app_nil_r. by apply tk_finish. }
  pose proof (lock_tracks _ log0 log q w El Hf) as H.
  unfold wp, mbind, M_bind in *. destruct (with_lock _ _ w) as [[a|e|] w1]; cbn [fst snd] in *; intros Ho; [|by apply H|done].
  apply H. discriminate.
Qed.

Lemma shutdown_tracks log0 w :
  world_tracks log0 w -> wp (shutdown nr nc) (fun o w' => o <> Panic -> world_tracks log0 w') w.
Proof.
  intros (q & log & Eq & El & Hw). unfold wp, shutdown. rewrite Eq. apply (lock_tracks _ log0 log); [done|].
  unfold begin_shutdown. apply wp_bind, wp_queue. apply within_start with (ch := w_channels w) in Hw.
  destruct (shutting_down _); [by apply wp_ret|].
  apply wp_bind, wp_on_queue, wp_bind, wp_on_queue. apply (wp_launch nr nc (within I log) (within L log)); [|done].
  pose proof (tracked_insensitive nr nc I L log HT) as [Hp _ _].
  by apply (pr_shutdown (Preserved := Hp)), (pr_shutting (Preserved := Hp)), (pr_weaken (Preserved := Hp)).
Qed.

Lemma event_tracks log0 e w :
  world_ok generation w -> allowed tenant_shard_id generation e w -> world_tracks log0 w ->
  wp (run_event nr nc debug_assertions tenant_shard_id generation e)
    (fun o w' => o <> Panic -> world_tracks log0 w' \/ is_stopped w') w.
Proof.
  intros Hok Hal Hw. assert (forall m : M client_error World unit, keeps m ->
    wp m (fun o w' => o <> Panic -> world_tracks log0 w' \/ is_stopped w') w) as Hk.
  { intros m Hm. eapply wp_mono; [apply Hm|]. intros o w' Hu _. left. exact (untouched_tracks log0 w w' Hu Hw). }
  assert (forall m : M client_error World unit, wp m (fun o w' => o <> Panic -> world_tracks log0 w') w ->
    wp m (fun o w' => o <> Panic -> world_tracks log0 w' \/ is_stopped w') w) as Hleft.
  { intros m Hm. eapply wp_mono; [exact Hm|]. intros o w' H Ho. left. by apply H. }
  pose proof Hw as (q & log & Eq & El & Hi).
  destruct e as [limit i|limit m g a|c|task r|task|conf pushed| | |p]; cbn [run_event].
  - unfold wp, init_upload_queue, mbind, M_bind, gets. rewrite Eq. cbn. by left.
  - unfold wp, init_upload_queue_for_empty_remote, mbind, M_bind, gets. rewrite Eq. cbn. by left.
  - apply Hleft. unfold wp, locked. rewrite Eq. cbn [initialized_mut]. destruct (shutting_down q); [by intros _|].
    apply (lock_tracks _ log0 log q w El).
    exact (call_insensitive nr nc tenant_shard_id (within I log) (within L log) c _ (within_start _ _ _ Hi)).
  - apply Hk, attempt_keeps.
  - apply Hleft. destruct Hal as [Hin _]. by apply complete_tracks.
  - apply Hk, config_keeps.
  - by apply Hleft, shutdown_tracks.
  - intros _. right. unfold is_stopped. cbn [stop modify snd]. rewrite Eq. by eexists.
  - apply Hk. by apply keeps_modify.
Qed.
End tracked.

(** ** Runs *)

Definition step (w w' : World) : Prop :=
  exists e o, allowed tenant_shard_id generation e w
    /\ run_event nr nc debug_assertions tenant_shard_id generation e w = (o, w') /\ o <> Panic.

Abbreviation reachable := (reachable nr nc debug_assertions tenant_shard_id generation).

Lemma steps_reachable w w' : rtc step w w' -> reachable w -> reachable w'.
Proof. induction 1 as [|w w1 w2 (e & o & H1 & H2 & H3) _ IH]; intros Hr; [done|]. apply IH. by eapply reachable_step. Qed.

#[local] Instance initialized_dec w : Decision (exists q, w_queue w = QInitialized q).
Proof. destruct (w_queue w) as [|q|st]; [right; by intros [? [=]]|left; by eexists|right; by intros [? [=]]]. Defined.

(** The queue starts empty. *)
Lemma step_starts w w' q :
  step w w' -> w_queue w' = QInitialized q -> (exists q0, w_queue w = QInitialized q0) \/ queued_operations q = [].
Proof.
  intros (e & o & _ & He & _) Eq. destruct (decide (exists q0, w_queue w = QInitialized q0)) as [?|Hno]; [by left|right].
  assert (forall m, keeps m -> m w = (o, w') -> queued_operations q = []) as Hk.
  { intros m Hm E. specialize (Hm w). unfold wp in Hm. rewrite E in Hm. destruct Hm as [_ Hm]. cbn [snd] in Hm. rewrite Eq in Hm.
    destruct (w_queue w) as [|q0|st]; [done| |done]. destruct Hno. by eexists. }
  destruct e as [limit i|limit m g a|c|task r|task|conf pushed| | |p]; cbn [run_event] in He;
    first [by apply (Hk _ (attempt_keeps task r))|by apply (Hk _ (config_keeps conf pushed))
          |unfold init_upload_queue, init_upload_queue_for_empty_remote, locked, complete_task, shutdown, stop, mbind, M_bind, gets, modify in He];
    (destruct (w_queue w) as [|q0|st] eqn:Eq0; [|destruct Hno; by eexists|]); cbn in He; injection He as _ <-; cbn in Eq;
    rewrite ?Eq0 in Eq; by simplify_eq.
Qed.

Lemma stopped_stays w w' : is_stopped w -> rtc step w w' -> is_stopped w'.
Proof.
  intros Hs Hr. induction Hr as [|w w1 w2 (e & o & _ & He & _) _ IH]; [done|]. apply IH. destruct Hs as [st Eq].
  assert (forall m, keeps m -> m w = (o, w1) -> is_stopped w1) as Hk.
  { intros m Hm E. specialize (Hm w). unfold wp in Hm. rewrite E in Hm. destruct Hm as [_ Hm]. cbn [snd] in Hm. rewrite Eq in Hm. by eexists. }
  destruct e as [limit i|limit m g a|c|task r|task|conf pushed| | |p]; cbn [run_event] in He;
    first [by apply (Hk _ (attempt_keeps task r))|by apply (Hk _ (config_keeps conf pushed))
          |unfold init_upload_queue, init_upload_queue_for_empty_remote, locked, complete_task, shutdown, stop, mbind, M_bind, gets, modify in He];
    rewrite ?Eq in He; cbn in He; injection He as _ <-; by eexists.
Qed.

Lemma steps_track I L `{HT : !Tracked nr nc I L} log0 w w' :
  rtc step w w' -> reachable w -> world_tracks L log0 w -> world_tracks L log0 w' \/ is_stopped w'.
Proof.
  induction 1 as [|w w1 w2 (e & o & Hal & He & Ho) Hrest IH]; intros Hr Hw; [by left|].
  pose proof (event_tracks I L log0 e w (reachable_ok _ _ _ _ _ _ Hr) Hal Hw) as H. unfold wp in H. rewrite He in H.
  destruct (H Ho) as [H1|H1]; [apply IH; [by eapply reachable_step|done]|right; by apply (stopped_stays w1)].
Qed.
End runs.
