(* ===== verification/UploadQueueLiveness.v ===== *)
(** * Every operation that is scheduled is launched

    Operations may overtake others, and callers may go on scheduling: still the
    operation at the head of the queue waits only for the tasks that were in
    progress when it got there, because what overtakes it does not conflict with
    it.  A round is a run in which every task in progress at its start finishes;
    after [n] rounds the first [n] operations have been launched. *)

From S2P Require Import Prelude Lsn XlogUtils Key Shard LayerName IndexPart UploadQueue.
From S2P Require Import UploadQueueFacts UploadQueueSafety RemoteClient RemoteClientFacts RemoteSafety RemoteRuns.

(** ** Waiting at the head of the queue *)

(** At most one version of the index is being uploaded, and the limit is kept. *)
Definition bounded (q : UploadQueueInitialized) : Prop :=
  (length (indexes (ops_of q)) <= 1)%nat
  /\ (inprogress_limit q = 0%nat \/ (length (inprogress_tasks q) <= inprogress_limit q)%nat).

(** A task that does not stand in the way of [x]. *)
Definition passed (x : UploadOp) (q : UploadQueueInitialized) (op : UploadOp) : Prop :=
  can_bypass x op (if is_metadata op then (clean q).1 else last_index (clean q).1 (ops_of q)) = true.

Lemma indexes_none ops : (forall o, o ∈ ops -> is_metadata o = false) -> indexes ops = [].
Proof.
  induction ops as [|o ops IH]; intros H; [done|]. unfold indexes. cbn [omap list_omap].
  specialize (H o ltac:(left)) as Ho. destruct o; try discriminate Ho; apply IH; intros o' Ho'; apply H; by right.
Qed.

(** When every task in progress has been passed, the operation is ready. *)
Lemma all_passed_ready x q :
  bounded q -> (forall t, t ∈ inprogress_tasks q -> passed x q (task_op t)) -> bypasses_all x (clean q).1 (ops_of q) = true.
Proof.
  intros [Hb _] Hall. rewrite bypasses_all_one_index by done. apply forallb_forall. intros op Hop%list_elem_of_In.
  assert (forall o, o ∈ ops_of q -> passed x q o) as Hp.
  { intros o (t & -> & Ht)%list_elem_of_fmap. by apply Hall. }
  pose proof (Hp op Hop) as H. unfold passed in H. destruct (is_metadata op) eqn:Eop; [done|].
  destruct (is_metadata x) eqn:Ex; [|by rewrite (can_bypass_active x op _ (last_index (clean q).1 (ops_of q)))].
  rewrite last_index_none in H; [done|]. apply indexes_none. intros o Ho. specialize (Hp o Ho). unfold passed in Hp.
  destruct x as [|xi| | |]; try done. by destruct o.
Qed.

(** A stretch taken out of a list, and what is left of a prefix of it. *)
Lemma take_out {A} (pre mid post keep rest : list A) :
  pre ++ mid ++ post = keep ++ rest ->
  exists keep' rest' out, pre ++ post = keep' ++ rest' /\ keep ≡ₚ keep' ++ out /\ out ⊆+ mid
  /\ (pre = [] -> mid <> [] -> keep <> [] -> (length keep' < length keep)%nat)
  /\ (forall x k, keep = x :: k -> pre <> [] -> exists k' pre', keep' = x :: k' /\ pre = x :: pre').
Proof.
  intros E. apply app_eq_app in E as (k & [[-> ->]|[-> E]]).
  - exists keep, (k ++ post), []. rewrite <- app_assoc, app_nil_r. split_and!; [done|done|apply submseteq_nil_l| |].
    + intros [Hk _]%app_eq_nil _ Hn. done.
    + intros x k' -> _. by eexists _, _.
  - assert (forall k2, (pre = [] -> mid <> [] -> (length k2 < length k)%nat)
              -> pre = [] -> mid <> [] -> pre ++ k <> [] -> (length (pre ++ k2) < length (pre ++ k))%nat) as Hlen.
    { intros k2 H -> Hm _. cbn [app]. by apply H. }
    assert (forall k2 x k', pre ++ k = x :: k' -> pre <> [] -> exists k'' pre', pre ++ k2 = x :: k'' /\ pre = x :: pre') as Hfirst.
    { intros k2 x k' Ek Hpre. destruct pre as [|y pre]; [done|]. injection Ek as -> <-. by eexists _, _. }
    apply app_eq_app in E as (k2 & [[-> ->]|[-> ->]]).
    + exists pre, post, k. split_and!; [done|done|by apply submseteq_inserts_r| |].
      * intros -> Hm Hk. destruct k; [done|]. cbn [app length]. lia.
      * intros x k' Ek Hp. destruct (Hfirst [] x k' Ek Hp) as (k'' & pre' & E1 & ->). rewrite app_nil_r in E1. by eexists _, _.
    + exists (pre ++ k2), rest, mid. split_and!; [by rewrite <- app_assoc|by rewrite <- app_assoc, (Permutation_app_comm k2 mid)|done| |].
      * apply Hlen. intros _ Hm. rewrite length_app. destruct mid; [done|]. cbn [length]. lia.
      * intros x k'. apply Hfirst.
Qed.

Section waits.
Context (old : list UploadTask) (P : list UploadOp) (n : nat).

(** Of the operations [P], those not yet launched are at the front of the queue.
    Either fewer than [n] are left, or the first of them waits for a task of [old]
    to finish or ([strict] is false) there is room for it. *)
Definition waiting (strict : bool) (q : UploadQueueInitialized) (x : UploadOp) : Prop :=
  (forall t, t ∈ inprogress_tasks q -> t ∈ old \/ passed x q (task_op t))
  /\ ((exists t, t ∈ inprogress_tasks q /\ t ∈ old) \/ strict = false /\ room q).

Definition waits (strict : bool) (log : list launched) (q : UploadQueueInitialized) : Prop :=
  bounded q /\ exists keep rest,
    queued_operations q = keep ++ rest /\ P ⊆+ launched_ops log ++ map anonymous keep
    /\ Forall (fun o => is_shutdown o = false) keep
    /\ ((length keep < n)%nat \/ (length keep <= n)%nat /\ exists x k, keep = x :: k /\ waiting strict q x).

Lemma waits_weaken log q : waits true log q -> waits false log q.
Proof.
  intros (Hb & keep & rest & H1 & H2 & H3 & H4). split; [done|]. exists keep, rest. split_and!; [done..|].
  destruct H4 as [H4|(H4 & x & k & E & Hw1 & [Hw2|[Hw2 _]])]; [by left| |done]. right. split; [done|]. exists x, k. split; [done|]. split; [done|by left].
Qed.

(** Nobody of [old] is left, or everybody has been passed. *)
Lemma waiting_cases strict q x :
  waiting strict q x -> (exists t, t ∈ inprogress_tasks q /\ t ∈ old)
  \/ (strict = false /\ room q /\ forall t, t ∈ inprogress_tasks q -> passed x q (task_op t)).
Proof.
  intros [Hall [Ho|[Hs Hr]]]; [by left|].
  assert (forall ts : list UploadTask, (forall t, t ∈ ts -> t ∈ inprogress_tasks q) ->
    (exists t, t ∈ ts /\ t ∈ old) \/ forall t, t ∈ ts -> passed x q (task_op t)) as Hc.
  { induction ts as [|t ts IH]; intros Hsub; [right; by intros t ?%not_elem_of_nil|].
    destruct (Hall t) as [Ht|Ht]; [apply Hsub; left|left; exists t; by split; [left|]|].
    destruct IH as [(t' & H1 & H2)|IH]; [intros t' Ht'; apply Hsub; by right|left; exists t'; by split; [right|]|].
    right. by intros t' [->|Ht']%elem_of_cons; [|apply IH]. }
  destruct (Hc (inprogress_tasks q)) as [?|Hp]; [done|by left|by right].
Qed.

Lemma ops_of_app q ts t : inprogress_tasks q = ts ++ [t] -> ops_of q = map task_op ts ++ [task_op t].
Proof. unfold ops_of. intros ->. by rewrite map_app. Qed.

(** Passing is kept by a launch, and what overtakes is passed. *)
Lemma passed_launch x q q' t o :
  clean q' = clean q -> inprogress_tasks q' = inprogress_tasks q ++ [t] -> anonymous (task_op t) = anonymous o ->
  bypasses_all o (clean q).1 (ops_of q) = true -> can_bypass o x (last_index (clean q).1 (ops_of q)) = true ->
  passed x q' (task_op t) /\ forall op, passed x q op -> passed x q' op.
Proof.
  intros Ec Et Ea Hby Hx. unfold passed. rewrite Ec, (ops_of_app q' (inprogress_tasks q) t Et). fold (ops_of q).
  assert (is_metadata (task_op t) = is_metadata o) as Em by by apply is_metadata_anonymous.
  assert (is_metadata o = true -> indexes (ops_of q) = [] /\ is_metadata x = false) as Hidx.
  { intros Ho. destruct o as [|i| | |]; try done. split; [by eapply index_bypass_none|by destruct x]. }
  assert (is_metadata o = false -> last_index (clean q).1 (ops_of q ++ [task_op t]) = last_index (clean q).1 (ops_of q)) as Hlast.
  { intros Ho. rewrite last_index_app. apply last_index_none, indexes_none. intros y ->%list_elem_of_singleton. by rewrite Em. }
  split.
  - rewrite (can_bypass_anonymous x _ o _ Ea), can_bypass_sym, Em. destruct (is_metadata o) eqn:Eo; [|by rewrite Hlast].
    destruct (Hidx eq_refl) as [Hn _]. by rewrite last_index_none in Hx.
  - intros op Hop. destruct (is_metadata op) eqn:Eop; [done|]. destruct (is_metadata o) eqn:Eo; [|by rewrite Hlast].
    destruct (Hidx eq_refl) as [_ Hxm]. by rewrite (can_bypass_active x op _ (last_index (clean q).1 (ops_of q))).
Qed.

Lemma bounded_launch q q' t o :
  inprogress_limit q' = inprogress_limit q -> inprogress_tasks q' = inprogress_tasks q ++ [t] -> anonymous (task_op t) = anonymous o ->
  bypasses_all o (clean q).1 (ops_of q) = true -> room q -> bounded q -> bounded q'.
Proof.
  intros El Et Ea Hby Hr [Hb Hl]. split.
  - rewrite (ops_of_app q' (inprogress_tasks q) t Et). fold (ops_of q). rewrite indexes_app, length_app.
    unfold indexes at 2. cbn [omap list_omap]. rewrite (index_of_anonymous _ o Ea). destruct o as [|i| | |]; cbn [index_of length]; try lia.
    rewrite (index_bypass_none _ _ _ Hby). cbn [length]. lia.
  - rewrite El, Et, length_app. cbn [length]. destruct Hr; lia.
Qed.

(** One launch: the first operation goes, or still waits for a task of [old]. *)
Lemma launch1_waits log q l q' : waits false log q -> launch1 q l q' -> waits true (log ++ [l]) q'.
Proof.
  intros (Hb & keep & rest & Eq & HP & Hsh & Hn) Hl. destruct Hl as [pre co op post l q' Ht Hop].
  destruct Ht as [EQ Hby Hco1 Hco2 Hpre Hnsh Hroom Hfirst].
  destruct (launch_op_effect _ _ _ _ _ Hop Hco1) as (El & Ec & Equ & Elog & Htasks).
  cbn [with_queued inprogress_limit clean queued_operations inprogress_tasks] in El, Ec, Equ, Htasks.
  assert (pre ++ (co ++ [op]) ++ post = keep ++ rest) as E by (rewrite <- Eq, EQ, <- !app_assoc; done).
  apply take_out in E as (keep' & rest' & out & E1 & E2 & E3 & E4 & E5). rewrite bypasses_all_app, andb_true_iff in Hby.
  destruct Hby as [Hby1 Hby2].
  assert (bounded q') as Hb'.
  { destruct Htasks as [(_ & Ets & _)|(t & Ets & Ea & _)]; [|by eapply bounded_launch].
    destruct Hb as [H1 H2]. unfold bounded, ops_of in *. by rewrite El, Ets. }
  split; [done|]. exists keep', rest'. split_and!; [by rewrite Equ| | |].
  - rewrite launched_ops_app. unfold launched_ops at 2. cbn [map concat]. rewrite app_nil_r, Elog. etrans; [exact HP|].
    rewrite E2, map_app, <- app_assoc. apply submseteq_app; [done|].
    rewrite (Permutation_app_comm (map anonymous keep')). apply submseteq_app; [|done]. by apply fmap_submseteq.
  - rewrite E2 in Hsh. by apply Forall_app in Hsh as [? _].
  - assert (length keep' <= length keep)%nat as Hle by (rewrite E2, length_app; lia).
    destruct Hn as [Hn|(Hn & x & k & -> & Hw)]; [left; lia|]. destruct (decide (pre = [])) as [->|Hne].
    { left. specialize (E4 eq_refl ltac:(by destruct co) ltac:(done)). lia. }
    destruct (E5 x k eq_refl Hne) as (k' & pre' & -> & ->). right. split; [lia|]. exists x, k'. split; [done|].
    destruct (waiting_cases false q x Hw) as [(t0 & Ht0 & Hold)|(_ & _ & Hall)];
      [|specialize (Hfirst x pre' eq_refl); by rewrite (all_passed_ready x q Hb Hall) in Hfirst].
    cbn [bypasses_all] in Hby2. apply andb_true_iff in Hby2 as [Hx _].
    destruct Htasks as [(Hbar & _)|(t & Ets & Ea & _)]; [by destruct op|].
    destruct (passed_launch x q q' t op Ec Ets Ea Hby1 Hx) as [Hnew Hkept]. split.
    + rewrite Ets. intros u Hu. apply elem_of_app in Hu as [Hu|Hu]; [|apply list_elem_of_singleton in Hu as ->; by right].
      destruct (proj1 Hw u Hu) as [?|?]; [by left|right; by apply Hkept].
    + left. exists t0. rewrite Ets, elem_of_app. tauto.
Qed.

Lemma launches_waits q ls q' : launches q ls q' -> forall log, waits true log q -> waits true (log ++ ls) q'.
Proof.
  induction 1 as [q|q l q1 ls q2 H1 _ IH]; intros log Hw; [by rewrite app_nil_r|].
  apply waits_weaken in Hw. pose proof (launch1_waits log q l q1 Hw H1) as Hw1. apply IH in Hw1. by rewrite <- app_assoc in Hw1.
Qed.

Lemma waits_close strict log q : waits strict log q -> waits strict log (close_shutdown_ready q).
Proof. done. Qed.

(** A launch, after which nothing more can start. *)
Lemma launch_waits nr nc log q q' ls :
  waits false log q -> launch_queued_tasks nr nc q = Some (q', ls) -> waits true (log ++ ls) q' /\ settled q'.
Proof.
  intros Hw E. destruct (launch_queued_tasks_spec nr nc q) as (q1 & q2 & ls' & E' & Hls & Hq & Hset).
  rewrite E in E'. injection E' as <- <-. split; [|done].
  assert (waits true (log ++ ls) q1) as H1; [|by destruct Hq as [->| ->]].
  destruct Hls as [q|q l q1 ls q2 Hl Hls].
  - rewrite app_nil_r. destruct Hw as (Hb & keep & rest & H1 & H2 & H3 & H4). split; [done|]. exists keep, rest. split_and!; [done..|].
    destruct H4 as [H4|(H4 & x & k & -> & Hw)]; [by left|]. right. split; [done|]. exists x, k. split; [done|].
    destruct (waiting_cases false q x Hw) as [Ho|(_ & Hroom & Hall)]; [split; [apply Hw|by left]|]. exfalso.
    assert (is_shutdown x = true \/ bypasses_all x (clean q).1 (ops_of q) = false) as [Hsd|Hno].
    { destruct Hq as [->| ->]; (destruct (Hset Hroom x (k ++ rest) H1) as [(? & _)|?]; [by left|by right]). }
    + apply Forall_cons in H3 as [H3 _]. congruence.
    + by rewrite (all_passed_ready x q Hb Hall) in Hno.
  - rewrite cons_middle, app_assoc. apply (launches_waits q1); [done|]. by apply (launch1_waits log q).
Qed.

(** ** A task finishes *)

Lemma finish_waits log q t visible :
  tasks_ok q -> t ∈ inprogress_tasks q -> waits true log q ->
  waits false log (with_visible_lsn visible (with_clean (uploaded_by t (clean q))
                     (with_tasks (task_counter q) (without t (inprogress_tasks q)) q))).
Proof.
  intros Htk Hin (Hb & keep & rest & H1 & H2 & H3 & H4). set (q2 := with_visible_lsn _ _).
  apply list_elem_of_split in Hin as (t1 & t2 & E).
  assert (without t (inprogress_tasks q) = t1 ++ t2) as Ew by (rewrite E; apply filter_id_middle; rewrite <- E; apply Htk).
  assert (ops_of q ≡ₚ task_op t :: ops_of q2) as Hperm.
  { unfold ops_of. change (inprogress_tasks q2) with (without t (inprogress_tasks q)). rewrite Ew, E, !map_app. cbn [map].
    symmetry. apply Permutation_middle. }
  assert (indexes (ops_of q) ≡ₚ indexes (task_op t :: ops_of q2)) as Hidx by (unfold indexes; by rewrite Hperm).
  destruct Hb as [Hb1 Hb2]. assert (length (indexes (task_op t :: ops_of q2)) <= 1)%nat as Hone by by rewrite <- (Permutation_length Hidx).
  assert (room q2) as Hroom.
  { destruct Hb2 as [Hb2|Hb2]; [by left|]. right. change (inprogress_tasks q2) with (without t (inprogress_tasks q)).
    change (inprogress_limit q2) with (inprogress_limit q). rewrite Ew. rewrite E in Hb2. rewrite length_app in *. cbn [length] in Hb2. lia. }
  split.
  { split; [|destruct Hroom; lia]. unfold indexes in *. cbn [omap list_omap] in Hone. destruct (index_of (task_op t)); cbn [length] in Hone; lia. }
  exists keep, rest. split_and!; [done..|]. destruct H4 as [H4|(H4 & x & k & -> & Hw)]; [by left|]. right. split; [done|].
  exists x, k. split; [done|]. split; [|by right]. change (inprogress_tasks q2) with (without t (inprogress_tasks q)).
  intros u Hu. assert (u ∈ inprogress_tasks q) as Hu' by (rewrite Ew in Hu; rewrite E; mem).
  destruct (proj1 Hw u Hu') as [Ho|Hp]; [by left|]. right. unfold passed in *.
  assert (last_index (clean q2).1 (ops_of q2) = last_index (clean q).1 (ops_of q)) as El.
  { rewrite (last_index_perm _ _ _ Hb1 Hperm), last_index_cons. change (clean q2) with (uploaded_by t (clean q)).
    unfold uploaded_by. by destruct (task_op t). }
  rewrite El. destruct (is_metadata (task_op u)) eqn:Eu; [|done]. change (clean q2) with (uploaded_by t (clean q)). unfold uploaded_by.
  destruct (task_op t) as [|i| | |] eqn:Et; try done. exfalso. unfold indexes in Hone. cbn [omap list_omap index_of length] in Hone.
  assert (task_op u ∈ ops_of q2) as Hop by by apply (list_elem_of_fmap_2 task_op).
  destruct (task_op u) as [|j| | |]; try done. apply elem_indexes in Hop. unfold indexes in Hop.
  destruct (omap index_of (ops_of q2)); [by apply not_elem_of_nil in Hop|cbn [length] in Hone; lia].
Qed.
End waits.

(** ** Rounds *)

Definition busy (old : list UploadTask) (P : list UploadOp) (n : nat) : list launched -> UploadQueueInitialized -> Prop :=
  waits old P n false.
Definition idle (old : list UploadTask) (P : list UploadOp) (n : nat) (log : list launched) (q : UploadQueueInitialized) : Prop :=
  waits old P n true log q /\ settled q.

Lemma waits_push old P n log op q : waits old P n false log q -> waits old P n false log (push_back op q).
Proof.
  intros (Hb & keep & rest & H1 & H2 & H3 & H4). split; [done|]. exists keep, (rest ++ [op]). split_and!; [|done..].
  cbn [push_back with_queued queued_operations]. by rewrite H1, app_assoc.
Qed.

Lemma waits_same old P n strict log q q' : same_progress q q' -> waits old P n strict log q -> waits old P n strict log q'.
Proof.
  intros (E1 & E2 & E3 & E4 & E5 & E6). unfold waits, bounded, waiting, passed, room, ops_of. by rewrite E1, E3, E4, E5.
Qed.

Lemma settled_same q q' : same_progress q q' -> settled q -> settled q'.
Proof. intros (E1 & E2 & E3 & E4 & E5 & E6). unfold settled, room, ops_of. by rewrite E1, E3, E4, E5, E6. Qed.

#[global] Instance idle_tracked nr nc old P n : Tracked nr nc (busy old P n) (idle old P n).
Proof.
  split.
  - intros log q [H _]. by apply waits_weaken.
  - intros log q q'. apply waits_same.
  - intros log q q' E [H1 H2]. split; [by apply (waits_same _ _ _ _ _ q)|by apply (settled_same q)].
  - intros log op q. apply waits_push.
  - intros log q q' ls. apply launch_waits.
  - intros log q task visible Htk Hin [H _]. by apply finish_waits.
Qed.

Section liveness.
Context (nr nc debug_assertions : bool) (tenant_shard_id : TenantShardId) (generation : Generation).
Abbreviation reachable := (reachable nr nc debug_assertions tenant_shard_id generation).
Abbreviation step := (step nr nc debug_assertions tenant_shard_id generation).

(** A run during which every task in progress at its start finishes. *)
Definition round (w w' : World) : Prop := rtc step w w' /\ forall t, t ∈ w_running w -> t ∉ w_running w'.

Lemma reachable_settled w : reachable w -> forall q, w_queue w = QInitialized q -> settled q.
Proof.
  induction 1 as [w (Hq & _)|w e o w' Hr IH Hal He Ho]; intros q Eq; [congruence|].
  destruct (step_starts nr nc debug_assertions tenant_shard_id generation w w' q) as [(q0 & Eq0)|Hnil]; [by exists e, o|done| |intros _ op post; by rewrite Hnil].
  pose proof (reachable_ok _ _ _ _ _ _ Hr) as Hok. pose proof Hok as Hok'. unfold world_ok in Hok'. rewrite Eq0 in Hok'.
  destruct Hok' as [[[Hseq Htk] _ _ _ _ _ _] _ _ _].
  assert (world_tracks (idle [] [] 1) (w_log w) w) as Hw.
  { exists q0, []. split_and!; [done|by rewrite app_nil_r|]. split; [|by apply IH]. split; [split; [by apply (so_one _ _ _ _ _ _ Hseq)|by apply to_limit]|].
    exists [], (queued_operations q0). split_and!; [done|apply submseteq_nil_l|constructor|left; cbn; lia]. }
  pose proof (event_tracks nr nc debug_assertions tenant_shard_id generation _ _ (w_log w) e w Hok Hal Hw) as H. unfold wp in H. rewrite He in H.
  destruct (H Ho) as [(q' & log & Eq' & _ & _ & Hs)|[st Hst]]; cbn [fst snd] in *; [|congruence].
  rewrite Eq in Eq'. by injection Eq' as ->.
Qed.

(** What is left of the operations [P] after some rounds. *)
Definition tracked (P : list UploadOp) (log0 : list launched) (n : nat) (w : World) : Prop :=
  exists q log keep rest, w_queue w = QInitialized q /\ w_log w = log0 ++ log /\ queued_operations q = keep ++ rest
    /\ P ⊆+ launched_ops log ++ map anonymous keep /\ Forall (fun o => is_shutdown o = false) keep /\ (length keep <= n)%nat.

Lemma round_tracked P log0 n w w' :
  reachable w -> round w w' -> tracked P log0 (S n) w -> tracked P log0 n w' \/ is_stopped w'.
Proof.
  intros Hr [Hsteps Hfin] (q & log & keep & rest & Eq & El & Equ & HP & Hsh & Hn).
  pose proof (reachable_settled w Hr q Eq) as Hset. pose proof (reachable_ok _ _ _ _ _ _ Hr) as Hok. unfold world_ok in Hok. rewrite Eq in Hok.
  pose proof (init_ok_running _ _ _ Hok) as Hrun. destruct Hok as [[[Hseq Htk] _ _ _ _ _ _] _ _ _].
  assert (world_tracks (idle (w_running w) P (S n)) log0 w) as Hw.
  { exists q, log. split_and!; [done|done|]. split; [|done]. split; [split; [by apply (so_one _ _ _ _ _ _ Hseq)|by apply to_limit]|].
    exists keep, rest. split_and!; [done|done|done|]. destruct keep as [|x k]; [left; cbn; lia|right].
    split; [done|]. exists x, k. split; [done|]. rewrite Hrun. split; [by left|]. left.
    destruct (inprogress_tasks q) as [|t ts] eqn:Et; [|exists t; split; left]. exfalso.
    destruct (Hset ltac:(unfold room; rewrite Et; cbn [length]; lia) x (k ++ rest) Equ) as [(Hx & _)|Hx].
    - apply Forall_cons in Hsh as [Hsh _]. congruence.
    - unfold ops_of in Hx. by rewrite Et in Hx. }
  destruct (steps_track nr nc debug_assertions tenant_shard_id generation _ _ _ _ _ Hsteps Hr Hw) as [(q' & log' & Eq' & El' & [Hw' _])|?]; [left|by right].
  destruct Hw' as (_ & keep' & rest' & H1 & H2 & H3 & H4).
  exists q', log', keep', rest'. split_and!; [done..|]. destruct H4 as [H4|(_ & x & k & _ & _ & [(t & Ht & Hold)|[[=] _]])]; [lia|].
  exfalso. apply (Hfin t Hold). pose proof (reachable_ok _ _ _ _ _ _ (steps_reachable _ _ _ _ _ _ _ Hsteps Hr)) as Hok'. unfold world_ok in Hok'.
  rewrite Eq' in Hok'. by rewrite (init_ok_running _ _ _ Hok').
Qed.

Lemma rounds_stopped n w w' : nsteps round n w w' -> is_stopped w -> is_stopped w'.
Proof. induction 1 as [|n w w1 w2 [Hr _] _ IH]; [done|]. intros Hs. apply IH. by apply (stopped_stays nr nc debug_assertions tenant_shard_id generation w). Qed.

Lemma rounds_tracked P log0 n w w' :
  nsteps round n w w' -> reachable w -> tracked P log0 n w -> tracked P log0 0 w' \/ is_stopped w'.
Proof.
  induction 1 as [|n w w1 w2 Hround Hrest IH]; intros Hr Ht; [by left|].
  destruct (round_tracked P log0 n w w1 Hr Hround Ht) as [H|H]; [|right; by apply (rounds_stopped n w1)].
  apply IH; [by apply (steps_reachable nr nc debug_assertions tenant_shard_id generation w); [apply Hround|]|done].
Qed.

(** ** Draining *)

Definition size (q : UploadQueueInitialized) : nat := (length (inprogress_tasks q) + length (queued_operations q))%nat.

Lemma launches_size q ls q' : launches q ls q' -> (size q' <= size q)%nat.
Proof.
  induction 1 as [q|q l q1 ls q2 H1 _ IH]; [done|]. etrans; [exact IH|]. destruct H1 as [pre co op post l q' Ht Hop].
  destruct Ht as [EQ _ Hco _ _ _ _ _]. destruct (launch_op_effect _ _ _ _ _ Hop Hco) as (_ & _ & Eq & _ & Hts).
  unfold size. rewrite Eq, EQ, !length_app. cbn [with_queued queued_operations inprogress_tasks length] in *. rewrite length_app.
  destruct Hts as [(_ & -> & _)|(t & -> & _)]; rewrite ?length_app; cbn [length]; lia.
Qed.

Lemma finish_size process task q ch :
  task ∈ inprogress_tasks q ->
  wp (finish_task nr nc generation process task) (unless_panic (fun s => (size (qs_queue s) < size q)%nat)) (mkQState q [] ch).
Proof.
  intros Hin. apply (finish_launches nr nc generation). intros v. unfold wp, launch. cbn [qs_queue].
  destruct (launch_queued_tasks_spec nr nc (finished task v q)) as (q1 & q' & ls & -> & Hls & Hq & _). cbn [fst snd unless_panic qs_queue].
  apply launches_size in Hls. assert (size q' = size q1) as -> by by destruct Hq as [->| ->].
  enough (size (finished task v q) < size q)%nat by lia. unfold size. cbn [finished with_visible_lsn with_clean with_tasks inprogress_tasks queued_operations].
  assert (length (without task (inprogress_tasks q)) < length (inprogress_tasks q))%nat; [|lia].
  apply list_elem_of_split in Hin as (t1 & t2 & ->). unfold without. rewrite filter_app, filter_cons_False by naive_solver.
  rewrite !length_app. cbn [length]. pose proof (length_filter (fun x => task_id x <> task_id task) t1).
  pose proof (length_filter (fun x => task_id x <> task_id task) t2). lia.
Qed.

(** When the request succeeds the task leaves its loop. *)
Lemma attempt_succeeds task w :
  wp (attempt_task generation debug_assertions task Succeeded)
    (fun o w' => o <> Panic -> task_id task ∈ w_done w' /\ w_running w' = w_running w) w.
Proof.
  assert (forall w', w_running w' = w_running w ->
    wp (modify (fun w => set_done (w_done w ++ [task_id task]) w)) (fun (o : outcome client_error unit) w' =>
      o <> Panic -> task_id task ∈ w_done w' /\ w_running w' = w_running w) w') as Hdone.
  { intros w' E. apply wp_modify. intros _. split; [cbn [w_done set_done]; rewrite elem_of_app; right; left|done]. }
  unfold attempt_task, attempt. apply wp_bind, wp_bind, wp_gets, wp_bind, wp_assert; [intros _|done]. apply wp_bind, wp_gets.
  destruct (task_op task) as [name meta mode|i|ls|b|]; cbn [took_effect].
  - apply wp_bind. eapply (wp_mono _ (fun o w' => o = Ok tt /\ w_running w' = w_running w)).
    { destruct mode as [[|]|]; [by apply wp_ret| |by apply wp_ret].
      destruct (block_deletions (w_config w)); apply wp_modify; (split; [done|apply if_initialized_running]). }
    intros o w1 [-> E1]. apply wp_bind, wp_assert; [intros _|done]. apply wp_bind, wp_modify, wp_ret. by apply Hdone.
  - apply wp_bind, wp_modify, wp_ret. by apply Hdone.
  - destruct (block_deletions (w_config w)).
    + apply wp_bind, wp_modify, wp_ret. apply Hdone, if_initialized_running.
    + unfold push_layers. apply wp_bind, wp_bind, wp_assert; [intros _|done]. apply wp_modify, wp_ret. by apply Hdone.
  - apply wp_ret. by apply Hdone.
  - apply wp_ret. by apply Hdone.
Qed.

(** A task in progress makes an attempt that succeeds, or completes; nothing else happens. *)
Definition serve (w w' : World) : Prop :=
  exists task e o, (e = EAttempt task Succeeded \/ e = EComplete task) /\ allowed tenant_shard_id generation e w
    /\ run_event nr nc debug_assertions tenant_shard_id generation e w = (o, w') /\ o <> Panic.

Lemma serves_reachable w w' : rtc serve w w' -> reachable w -> reachable w'.
Proof.
  intros Hs. apply (steps_reachable nr nc debug_assertions tenant_shard_id generation). eapply rtc_subrel; [|exact Hs]. intros w1 w2 (task & e & o & _ & H). by exists e, o.
Qed.

(** One more task finishes, and less is left to do. *)
Lemma finish_one w q task :
  reachable w -> generation <> GNone -> w_queue w = QInitialized q -> task ∈ inprogress_tasks q ->
  exists w' q', rtc serve w w' /\ w_queue w' = QInitialized q' /\ (size q' < size q)%nat.
Proof.
  intros Hr Hg Eq Hin.
  assert (exists w1 q1, rtc serve w w1 /\ w_queue w1 = QInitialized q1 /\ inprogress_tasks q1 = inprogress_tasks q
    /\ queued_operations q1 = queued_operations q /\ task_id task ∈ w_done w1) as (w1 & q1 & Hs1 & Eq1 & Et & Equ & Hd).
  { destruct (decide (task_id task ∈ w_done w)) as [Hd|Hd]; [exists w, q; by split_and!|].
    pose proof (reachable_ok _ _ _ _ _ _ Hr) as Hok. pose proof Hok as Hok'. unfold world_ok in Hok'. rewrite Eq in Hok'.
    assert (allowed tenant_shard_id generation (EAttempt task Succeeded) w) as Hal by (split; [by rewrite (init_ok_running _ _ _ Hok')|done]).
    pose proof (event_step nr nc debug_assertions _ _ _ _ Hok Hal) as He. pose proof (attempt_succeeds task w) as Ha.
    pose proof (attempt_keeps debug_assertions generation task Succeeded w) as Hk. unfold wp in He, Ha, Hk. cbn [run_event] in He.
    destruct (attempt_task generation debug_assertions task Succeeded w) as [o w1] eqn:E. cbn [fst snd] in *.
    assert (o <> Panic) as Ho by (by apply He). destruct Hk as [_ Hk]. rewrite Eq in Hk. destruct Hk as (b & r & Eq1).
    exists w1, (with_blocked b (with_recently_deleted r q)). split_and!; try done; [|by apply Ha].
    apply rtc_once. exists task, (EAttempt task Succeeded), o. split_and!; [by left|done..]. }
  pose proof (serves_reachable _ _ Hs1 Hr) as Hr1. pose proof (reachable_ok _ _ _ _ _ _ Hr1) as Hok. pose proof Hok as Hok'.
  unfold world_ok in Hok'. rewrite Eq1 in Hok'.
  assert (allowed tenant_shard_id generation (EComplete task) w1) as Hal by (split; [by rewrite (init_ok_running _ _ _ Hok'), Et|done]).
  pose proof (event_step nr nc debug_assertions _ _ _ _ Hok Hal) as He. unfold wp in He. cbn [run_event] in He.
  destruct (complete_task nr nc generation task w1) as [o w2] eqn:E. assert (o <> Panic) as Ho by (by apply He).
  pose proof (finish_size (process_remote_consistent_lsn_updates (w_config w1)) task q1 (w_channels w1) ltac:(by rewrite Et)) as Hf.
  assert (exists q2, w_queue w2 = QInitialized q2 /\ (size q2 < size q1)%nat) as (q2 & Eq2 & Hlt).
  { unfold complete_task in E. rewrite Eq1 in E. unfold mbind, M_bind, with_lock, wp in *.
    destruct (finish_task _ _ _ _ _ _) as [[a|e|] s]; cbn in E, Hf; injection E as <- <-; [by eexists|by eexists|done]. }
  exists w2, q2. split_and!; [|done|unfold size in *; rewrite Et, Equ in Hlt; lia].
  eapply rtc_r; [exact Hs1|]. exists task, (EComplete task), o. split_and!; [by right|done..].
Qed.

Lemma drain n : forall w q, (size q <= n)%nat -> reachable w -> generation <> GNone -> w_queue w = QInitialized q ->
  exists w' q', rtc serve w w' /\ w_queue w' = QInitialized q' /\ inprogress_tasks q' = []
    /\ (queued_operations q' = [] \/ exists post, queued_operations q' = Shutdown :: post /\ shutdown_ready q' = true).
Proof.
  induction n as [|n IH]; intros w q Hn Hr Hg Eq; destruct (inprogress_tasks q) as [|t ts] eqn:Et;
    [| unfold size in Hn; rewrite Et in Hn; cbn [length] in Hn; lia| |].
  3: { destruct (finish_one w q t) as (w1 & q1 & Hs1 & Eq1 & Hlt); [done..|rewrite Et; left|].
       destruct (IH w1 q1) as (w2 & q2 & Hs2 & H2); [lia|by apply (serves_reachable w)|done|done|].
       exists w2, q2. split; [by transitivity w1|done]. }
  all: exists w, q; split_and!; [done..|]; destruct (queued_operations q) as [|op post] eqn:Equ; [by left|right].
  all: destruct (reachable_settled w Hr q Eq ltac:(unfold room; rewrite Et; cbn [length]; lia) op post Equ) as [(H1 & _ & H3)|H1];
    [exists post; by destruct op|unfold ops_of in H1; by rewrite Et in H1].
Qed.
End liveness.


(** C6: No operation starves.  Let the client run on from any reachable state, with
    whatever is scheduled meanwhile and whatever overtakes: after [n] rounds, in
    each of which the tasks in progress at its start have finished, the first [n]
    operations of the queue have been launched, each counted as often as it was
    queued, unless the client was stopped or they were behind a shutdown. *)
Theorem scheduled_operations_start nr nc debug_assertions tenant_shard_id generation n w q w' q' :
  reachable nr nc debug_assertions tenant_shard_id generation w -> w_queue w = QInitialized q ->
  Forall (fun op => is_shutdown op = false) (take n (queued_operations q)) ->
  nsteps (round nr nc debug_assertions tenant_shard_id generation) n w w' -> w_queue w' = QInitialized q' ->
  exists log, w_log w' = w_log w ++ log /\ map anonymous (take n (queued_operations q)) ⊆+ launched_ops log.
Proof.
  intros Hr Eq Hsh Hn Eq'.
  destruct (rounds_tracked nr nc debug_assertions tenant_shard_id generation (map anonymous (take n (queued_operations q))) (w_log w) n w w' Hn Hr)
    as [(q2 & log & keep & rest & _ & El & _ & HP & _ & Hlen)|[st Hst]]; [|exists log|congruence].
  - exists q, [], (take n (queued_operations q)), (drop n (queued_operations q)).
    rewrite app_nil_r, take_drop, length_take. split_and!; [done..|lia].
  - split; [done|]. destruct keep; [|cbn [length] in Hlen; lia]. by rewrite app_nil_r in HP.
Qed.

(** C24: The queue never gets stuck.  From every reachable state of a client with a
    generation, letting tasks in progress succeed and complete, with no other
    event, empties the queue, or leaves only the shutdown, which is then signalled as ready. *)
Theorem queue_drains nr nc debug_assertions tenant_shard_id generation w q :
  reachable nr nc debug_assertions tenant_shard_id generation w -> generation <> GNone -> w_queue w = QInitialized q ->
  exists w' q', rtc (serve nr nc debug_assertions tenant_shard_id generation) w w' /\ w_queue w' = QInitialized q'
    /\ inprogress_tasks q' = []
    /\ (queued_operations q' = [] \/ exists post, queued_operations q' = Shutdown :: post /\ shutdown_ready q' = true).
Proof. intros Hr Hg Eq. by apply (drain _ _ _ _ _ (size q) w q). Qed.

Definition example_queue (w : World) : UploadQueueInitialized :=
  match w_queue w with QInitialized q => q | _ => new_queue 0 (index_part_empty Example.metadata) 0 end.

Lemma queue_drains_witness :
  exists w' q', rtc (serve false false true Example.shard (GValid 3)) Example.world3 w' /\ w_queue w' = QInitialized q'
    /\ inprogress_tasks q' = []
    /\ (queued_operations q' = [] \/ exists post, queued_operations q' = Shutdown :: post /\ shutdown_ready q' = true).
Proof.
  apply (queue_drains false false true Example.shard (GValid 3) Example.world3 (example_queue Example.world3) Example.scheduled);
    [discriminate|vm_compute; reflexivity].
Defined.

Lemma scheduled_operations_start_witness :
  queued_operations (example_queue Example.world3)
    = [UploadMetadata (with_layers <[Example.name := Example.meta]> (index_part_empty Example.metadata))]
  /\ exists log, w_log Example.world5 = w_log Example.world3 ++ log
       /\ map anonymous (take 1 (queued_operations (example_queue Example.world3))) ⊆+ launched_ops log.
Proof.
  split; [vm_compute; reflexivity|].
  apply (scheduled_operations_start false false true Example.shard (GValid 3) 1 Example.world3 (example_queue Example.world3)
    Example.world5 (example_queue Example.world5) Example.scheduled).
  - vm_compute; reflexivity.
  - vm_compute. repeat constructor.
  - eapply nsteps_l; [|apply nsteps_O]. destruct Example.upload_runs as [[H1 H2] [H3 H4]]. split.
    + apply (rtc_l _ _ Example.world4).
      * exists (EAttempt Example.upload Succeeded), (Ok tt). split; [exact H1|]. split; [exact H2|discriminate].
      * apply rtc_once. exists (EComplete Example.upload), (Ok tt). split; [exact H3|]. split; [exact H4|discriminate].
    + replace (w_running Example.world3) with [Example.upload] by (vm_compute; reflexivity).
      replace (w_running Example.world5) with [Example.index_task] by (vm_compute; reflexivity).
      intros t ->%list_elem_of_singleton. by intros [=]%list_elem_of_singleton.
  - vm_compute; reflexivity.
Defined.
