(* ===== verification/RemoteCompletion.v ===== *)
(** * Waiting for the queue

    [wait_completion] pushes a barrier and waits for its channel.  When the channel
    is notified, everything that was scheduled before the barrier has been launched
    and has completed. *)

From S2P Require Import Prelude Lsn XlogUtils Key Shard LayerName IndexPart UploadQueue.
From S2P Require Import UploadQueueFacts UploadQueueSafety RemoteClient RemoteClientFacts RemoteSafety RemoteRuns.

Section barrier.
Context (channel : nat) (P : list UploadOp) (running : list UploadTask).

(** The barrier still waits, behind what is left of [P]. *)
Definition pending (log : list launched) (q : UploadQueueInitialized) : Prop :=
  exists keep rest, queued_operations q = keep ++ Barrier channel :: rest /\ (Barrier channel ∉ keep) /\ (Notified channel ∉ log)
    /\ P ⊆+ launched_ops log ++ map anonymous keep
    /\ forall t, t ∈ running \/ Spawned t ∈ log -> task_id t <= task_counter q.

(** It was notified, with nothing in progress. *)
Definition reached (log : list launched) (q : UploadQueueInitialized) : Prop :=
  exists before after, log = before ++ Notified channel :: after /\ P ⊆+ launched_ops before
    /\ forall t, t ∈ running \/ Spawned t ∈ before -> task_id t <= task_counter q /\ t ∉ inprogress_tasks q.

Definition barrier_state (log : list launched) (q : UploadQueueInitialized) : Prop := pending log q \/ reached log q.

Lemma not_barrier_mid co op (b : UploadOp) k k' :
  is_barrier op = false -> Forall (fun o => is_metadata o = true) co -> is_barrier b = true -> co ++ [op] = k ++ b :: k' -> False.
Proof.
  intros Hop Hco Hb E. assert (b ∈ co ++ [op]) as Hin by (rewrite E; apply elem_of_app; right; left).
  apply elem_of_app in Hin as [Hin|Hin]; [|apply list_elem_of_singleton in Hin as ->; congruence].
  rewrite Forall_forall in Hco. specialize (Hco b Hin). by destruct b.
Qed.

(** What a launch takes from in front of the barrier. *)
Lemma before_barrier pre co op post keep rest :
  is_barrier op = false -> Forall (fun o => is_metadata o = true) co -> Forall (fun o => is_barrier o || is_shutdown o = false) pre ->
  pre ++ (co ++ [op]) ++ post = keep ++ Barrier channel :: rest ->
  exists keep', pre ++ post = keep' ++ Barrier channel :: rest /\ keep ≡ₚ keep' ++ co ++ [op].
Proof.
  intros Hop Hco Hpre E. apply app_eq_app in E as (k & [[-> E]|[-> E]]).
  - exfalso. destruct k as [|x k]; cbn [app] in E.
    + by apply (not_barrier_mid co op (Barrier channel) [] (tail (co ++ [op])) Hop Hco); [|destruct co as [|y co]; injection E as <- _].
    + injection E as <- _. apply Forall_app in Hpre as [_ Hpre]. apply Forall_cons in Hpre as [Hpre _]. done.
  - apply app_eq_app in E as (k2 & [[E1 E2]|[-> ->]]).
    + destruct k2 as [|x k2]; [|exfalso; injection E2 as <- _; by eapply (not_barrier_mid co op (Barrier channel))].
      rewrite app_nil_r in E1. subst k. exists pre. by rewrite E2.
    + exists (pre ++ k2). split; [by rewrite <- app_assoc|]. rewrite <- (app_assoc pre k2). apply Permutation_app_head, Permutation_app_comm.
Qed.

Lemma launch1_barrier log q l q' : launch1 q l q' -> barrier_state log q -> barrier_state (log ++ [l]) q'.
Proof.
  intros Hl1. destruct Hl1 as [pre co op post l q' Ht Hl]. pose proof Ht as [EQ Hby Hco1 Hco2 Hpre Hsh Hroom Hfirst].
  destruct (launch_op_effect _ _ _ _ _ Hl Hco1) as (_ & _ & Equ & Elog & Htasks).
  cbn [with_queued queued_operations inprogress_tasks task_counter] in Equ, Htasks. intros [Hp|Hr].
  - destruct Hp as (keep & rest & E & Hnk & Hnl & HP & Hid). rewrite EQ in E. destruct (is_barrier op) eqn:Eop.
    + destruct (taken_not_barrier _ _ _ _ _ Ht Eop) as [Eops ->]. destruct co as [|x co]; [|by destruct op; specialize (Hco1 ltac:(done))].
      destruct op as [| | |c|]; try done. injection Hl as <- <-. cbn [app] in E. destruct keep as [|x keep]; injection E as E1 E2.
      * subst c. right. exists log, []. split_and!; [done|by rewrite app_nil_r in HP|]. intros t Ht'. split; [by apply Hid|].
        apply map_eq_nil in Eops. cbn [with_queued inprogress_tasks]. rewrite Eops. apply not_elem_of_nil.
      * subst x. apply not_elem_of_cons in Hnk as [Hc Hnk]. left. exists keep, rest. split_and!; [done|done| | |].
        -- rewrite elem_of_app, list_elem_of_singleton. intros [?|[= ->]]; done.
        -- rewrite launched_ops_app. etrans; [exact HP|]. by rewrite <- app_assoc.
        -- intros t [Ht'|Ht']; apply Hid; [by left|right]. apply elem_of_app in Ht' as [?|Ht']; [done|]. by apply list_elem_of_singleton in Ht'.
    + assert (pre ++ (co ++ [op]) ++ post = keep ++ Barrier channel :: rest) as E' by (rewrite <- E, <- !app_assoc; done).
      apply before_barrier in E' as (keep' & E1 & E2); [|done..]. left. exists keep', rest.
      destruct Htasks as [(? & _)|(t & Ets & Ea & El & Eid & Ec)]; [congruence|]. subst l. split_and!.
      * by rewrite Equ.
      * intros Hin. apply Hnk. rewrite E2. apply elem_of_app. by left.
      * rewrite elem_of_app, list_elem_of_singleton. by intros [?|[=]].
      * rewrite launched_ops_app. unfold launched_ops at 2. cbn [map concat]. rewrite app_nil_r, Elog. etrans; [exact HP|].
        rewrite E2, (map_app _ keep'), <- app_assoc. apply submseteq_app; [done|]. by rewrite (Permutation_app_comm (map anonymous keep')).
      * rewrite Ec. intros u Hu. rewrite elem_of_app, list_elem_of_singleton in Hu.
        destruct Hu as [Hu|[Hu|[= ->]]]; [|..|lia]; specialize (Hid u); (enough (task_id u <= task_counter q) by lia); apply Hid; tauto.
  - destruct Hr as (before & after & -> & HP & Hid). right. exists before, (after ++ [l]). split_and!; [by rewrite <- app_assoc|done|].
    intros t Ht'. destruct (Hid t Ht') as [Hle Hnin]. destruct Htasks as [(_ & -> & ->)|(u & -> & _ & _ & Eid & ->)]; [done|].
    split; [lia|]. rewrite elem_of_app, list_elem_of_singleton. intros [?|<-]; [done|lia].
Qed.

Lemma launches_barrier q ls q' : launches q ls q' -> forall log, barrier_state log q -> barrier_state (log ++ ls) q'.
Proof.
  induction 1 as [q|q l q1 ls q2 H1 _ IH]; intros log Hw; [by rewrite app_nil_r|].
  apply (launch1_barrier log q l q1 H1), IH in Hw. by rewrite <- app_assoc in Hw.
Qed.

#[global] Instance barrier_tracked nr nc : Tracked nr nc barrier_state barrier_state.
Proof.
  assert (forall log q q', same_progress q q' -> barrier_state log q -> barrier_state log q') as Hsame.
  { intros log q q' (_ & E2 & _ & E4 & E5 & _). unfold barrier_state, pending, reached. by rewrite E2, E4, E5. }
  split; try done.
  - intros log op q [(keep & rest & E & H)|Hr]; [left|by right]. exists keep, (rest ++ [op]). split; [|exact H].
    cbn [push_back with_queued queued_operations]. rewrite E. by rewrite <- app_assoc.
  - intros log q q' ls H E. destruct (launch_queued_tasks_spec nr nc q) as (q1 & q2 & ls' & E' & Hls & Hq & _). rewrite E in E'.
    injection E' as <- <-. apply (launches_barrier _ _ _ Hls) in H. by destruct Hq as [->| ->].
  - intros log q task visible _ _ [H|(before & after & E & HP & Hid)]; [by left|right]. exists before, after. split_and!; [done|done|].
    intros t Ht. destruct (Hid t Ht) as [H1 H2]. split; [done|]. intros Hin. apply H2.
    cbn [finished with_visible_lsn with_clean with_tasks inprogress_tasks] in Hin. by apply list_elem_of_filter in Hin as [_ Hin].
Qed.
End barrier.

(** C7: Waiting for the queue is enough.  Take a reachable state in which a barrier
    waits behind some operations, and any run from it that does not stop the
    client.  If the barrier's channel has been notified, then the operations were
    all launched before that, and every task that was running or was launched
    before the notification has completed. *)
Theorem barrier_waits_for_completion nr nc debug_assertions tenant_shard_id generation w q pre channel post w' q' log :
  reachable nr nc debug_assertions tenant_shard_id generation w -> w_queue w = QInitialized q ->
  queued_operations q = pre ++ Barrier channel :: post -> Barrier channel ∉ pre ->
  rtc (step nr nc debug_assertions tenant_shard_id generation) w w' -> w_queue w' = QInitialized q' ->
  w_log w' = w_log w ++ log -> Notified channel ∈ log ->
  exists before after, log = before ++ Notified channel :: after /\ map anonymous pre ⊆+ launched_ops before
    /\ forall t, t ∈ w_running w \/ Spawned t ∈ before -> t ∉ w_running w'.
Proof.
  intros Hr Eq Equ Hpre Hs Eq' El Hin. pose proof (reachable_ok _ _ _ _ _ _ Hr) as Hok. unfold world_ok in Hok. rewrite Eq in Hok.
  pose proof (init_ok_running _ _ _ Hok) as Hrun. destruct Hok as [[[_ Htk] _ _ _ _ _ _] _ _ _].
  assert (world_tracks (barrier_state channel (map anonymous pre) (w_running w)) (w_log w) w) as Hw.
  { exists q, []. split_and!; [done|by rewrite app_nil_r|]. left. exists pre, post. split_and!; [done|done|apply not_elem_of_nil|done|].
    intros t [Ht|Ht]; [|by apply not_elem_of_nil in Ht]. apply to_counter; [done|by rewrite <- Hrun]. }
  destruct (steps_track _ _ _ _ _ _ _ _ _ _ Hs Hr Hw) as [(q2 & log2 & Eq2 & El2 & H)|[st Hst]]; [|congruence].
  rewrite Eq' in Eq2. injection Eq2 as <-. rewrite El in El2. apply app_inv_head in El2 as <-.
  destruct H as [(keep & rest & _ & _ & Hn & _)|(before & after & E & HP & Hid)]; [done|]. exists before, after. split_and!; [done|done|].
  intros t Ht. pose proof (reachable_ok _ _ _ _ _ _ (steps_reachable _ _ _ _ _ _ _ Hs Hr)) as Hok'. unfold world_ok in Hok'.
  rewrite Eq' in Hok'. rewrite (init_ok_running _ _ _ Hok'). by apply Hid.
Qed.

(** The run of [Example], with a barrier behind the index. *)
Definition waited0 : World := Example.run (ECall CBarrier) Example.world3.
Definition waited1 : World := Example.run (EAttempt Example.upload Succeeded) waited0.
Definition waited2 : World := Example.run (EComplete Example.upload) waited1.
Definition waited3 : World := Example.run (EAttempt Example.index_task Succeeded) waited2.
Definition waited4 : World := Example.run (EComplete Example.index_task) waited3.
Definition waited_queue (w : World) : UploadQueueInitialized :=
  match w_queue w with QInitialized q => q | _ => new_queue 0 (index_part_empty Example.metadata) 0 end.

Lemma waited_reachable : reachable false false true Example.shard (GValid 3) waited0.
Proof. by apply (Example.example_step (ECall CBarrier) _ _ Example.scheduled); [|vm_compute; reflexivity]. Qed.

Lemma waited_steps : rtc (step false false true Example.shard (GValid 3)) waited0 waited4.
Proof.
  assert (w_running waited0 = [Example.upload] /\ w_running waited1 = [Example.upload]
    /\ w_running waited2 = [Example.index_task] /\ w_running waited3 = [Example.index_task]
    /\ w_done waited0 = [] /\ w_done waited1 = [1] /\ w_done waited2 = [1] /\ w_done waited3 = [1; 2])
    as (R0 & R1 & R2 & R3 & D0 & D1 & D2 & D3) by (vm_compute; done).
  apply (rtc_l _ _ waited1); [exists (EAttempt Example.upload Succeeded), (Ok tt)|
  apply (rtc_l _ _ waited2); [exists (EComplete Example.upload), (Ok tt)|
  apply (rtc_l _ _ waited3); [exists (EAttempt Example.index_task Succeeded), (Ok tt)|
  apply rtc_once; exists (EComplete Example.index_task), (Ok tt)]]];
    (split_and!; [cbn [allowed]; rewrite ?R0, ?R1, ?R2, ?R3, ?D0, ?D1, ?D2, ?D3; split; [left|]|vm_compute; reflexivity|done]).
  - apply not_elem_of_nil.
  - left.
  - by intros [=]%list_elem_of_singleton.
  - right. left.
Qed.

Lemma barrier_waits_for_completion_witness :
  let index := UploadMetadata (with_layers <[Example.name := Example.meta]> (index_part_empty Example.metadata)) in
  queued_operations (waited_queue waited0) = [index; Barrier 0]
  /\ exists before after, [Spawned Example.index_task; Notified 0] = before ++ Notified 0 :: after /\ [index] ⊆+ launched_ops before
    /\ forall t, t ∈ w_running waited0 \/ Spawned t ∈ before -> t ∉ w_running waited4.
Proof.
  split; [vm_compute; reflexivity|].
  apply (barrier_waits_for_completion false false true Example.shard (GValid 3) waited0 (waited_queue waited0)
    [UploadMetadata (with_layers <[Example.name := Example.meta]> (index_part_empty Example.metadata))] 0 []
    waited4 (waited_queue waited4) [Spawned Example.index_task; Notified 0] waited_reachable).
  - vm_compute; reflexivity.
  - vm_compute; reflexivity.
  - by intros [=]%list_elem_of_singleton.
  - exact waited_steps.
  - vm_compute; reflexivity.
  - vm_compute; reflexivity.
  - right. left.
Defined.
