(* ===== verification/VecMap.v ===== *)
(** * The ordered map in a vector ([libs/utils/src/vec_map.rs])

    [VecMap] keeps its entries in a vector to which only keys beyond the last one may
    be appended.  The keys of the code are LSNs and file offsets.  A failing slice is
    [None]; how much memory an operation adds is not modelled. *)

From S2P Require Import Prelude.

Inductive VecMapOrdering : Set := Greater | GreaterOrEqual.

#[global] Instance VecMapOrdering_eq_dec : EqDecision VecMapOrdering.
Proof. solve_decision. Defined.

Inductive VecMapError : Set := InvalidKey | ExtendOrderingError.

Record VecMap (V : Type) := mkVecMap { vm_data : list (Z * V); vm_ordering : VecMapOrdering }.
Arguments mkVecMap {V}.
Arguments vm_data {V}.
Arguments vm_ordering {V}.

Inductive Bound : Type := Included (k : Z) | Excluded (k : Z) | Unbounded.

Section vec_map.
Context {V : Type}.
Implicit Types (self : VecMap V) (k : Z) (v : V).

Definition vm_default : VecMap V := mkVecMap [] Greater.

Definition vm_new (ordering : VecMapOrdering) : VecMap V := mkVecMap [] ordering.

Definition vm_is_empty self : bool := match vm_data self with [] => true | _ => false end.

(** [binary_search_by_key] on keys that do not repeat: the place of the key. *)
Definition vm_binary_search self k : nat + nat :=
  let i := length (filter (fun e => e.1 < k) (vm_data self)) in
  match vm_data self !! i with
  | Some e => if decide (e.1 = k) then inl i else inr i
  | None => inr i
  end.

Definition slice_range self (start_bound end_bound : Bound) : option (list (Z * V)) :=
  let start_idx :=
    match start_bound with
    | Unbounded => O
    | Included k => match vm_binary_search self k with inl i | inr i => i end
    | Excluded k => match vm_binary_search self k with inl i => S i | inr i => i end
    end in
  let end_idx :=
    match end_bound with
    | Unbounded => length (vm_data self)
    | Included k => match vm_binary_search self k with inl i => S i | inr i => i end
    | Excluded k => match vm_binary_search self k with inl i | inr i => i end
    end in
  if decide (start_idx <= end_idx)%nat then Some (take (end_idx - start_idx) (drop start_idx (vm_data self))) else None.

Definition validate_key_order self k : sum VecMapError unit :=
  match last (vm_data self) with
  | Some (last_key, _) =>
      match vm_ordering self, k ?= last_key with
      | Greater, Lt | Greater, Eq => inl InvalidKey
      | Greater, Gt => inr tt
      | GreaterOrEqual, Lt => inl InvalidKey
      | GreaterOrEqual, _ => inr tt
      end
  | None => inr tt
  end.

Definition vm_append self k v : sum VecMapError (VecMap V) :=
  match validate_key_order self k with
  | inl e => inl e
  | inr _ => inr (mkVecMap (vm_data self ++ [(k, v)]) (vm_ordering self))
  end.

(** Also the value that was replaced. *)
Definition append_or_update_last self k v : sum VecMapError (option V * VecMap V) :=
  let appended := inr (None, mkVecMap (vm_data self ++ [(k, v)]) (vm_ordering self)) in
  match last (vm_data self) with
  | Some (last_key, last_value) =>
      match k ?= last_key with
      | Lt => inl InvalidKey
      | Eq => inr (Some last_value,
                   mkVecMap (take (length (vm_data self) - 1) (vm_data self) ++ [(last_key, v)]) (vm_ordering self))
      | Gt => appended
      end
  | None => appended
  end.

(** The two maps afterwards. *)
Definition vm_extend self (other : VecMap V) : sum VecMapError (VecMap V * VecMap V) :=
  if decide (vm_ordering self <> vm_ordering other) then inl ExtendOrderingError else
  let other_first_opt := fst <$> last (vm_data other) in
  let valid := match other_first_opt with Some k => validate_key_order self k | None => inr tt end in
  match valid with
  | inl e => inl e
  | inr _ => inr (mkVecMap (vm_data self ++ vm_data other) (vm_ordering self), mkVecMap [] (vm_ordering other))
  end.

Fixpoint vm_from_iter self (iter : list (Z * V)) : option (VecMap V) :=
  match iter with
  | [] => Some self
  | (k, v) :: iter =>
      match vm_append self k v with
      | inl _ => None
      | inr self => vm_from_iter self iter
      end
  end.

(** ** Order *)

Definition key_before (o : VecMapOrdering) (a b : Z * V) : Prop :=
  match o with Greater => a.1 < b.1 | GreaterOrEqual => a.1 <= b.1 end.

Definition vm_ok self : Prop := StronglySorted (key_before (vm_ordering self)) (vm_data self).

Lemma key_before_trans o a b c : key_before o a b -> key_before o b c -> key_before o a c.
Proof. destruct o; cbn; lia. Qed.

Lemma sorted_snoc o (l : list (Z * V)) e :
  StronglySorted (key_before o) l -> (forall x, last l = Some x -> key_before o x e) ->
  StronglySorted (key_before o) (l ++ [e]).
Proof.
  intros Hs. induction Hs as [|a l Hs IH Hf]; intros Hl; cbn [app].
  - repeat constructor.
  - constructor.
    + apply IH. intros x Hx. apply Hl. destruct l; [done|exact Hx].
    + apply Forall_app. split; [done|]. apply Forall_singleton. destruct l as [|b l _] using rev_ind; [by apply Hl|].
      apply Forall_app in Hf as [_ [Hb _]%Forall_cons]. apply (key_before_trans o a b e Hb), Hl.
      by rewrite app_comm_cons, last_snoc.
Qed.

Lemma append_ok self k v :
  vm_ok self ->
  match vm_append self k v with
  | inr self' => vm_ok self' /\ vm_data self' = vm_data self ++ [(k, v)] /\ vm_ordering self' = vm_ordering self
  | inl e => e = InvalidKey /\ ~ StronglySorted (key_before (vm_ordering self)) (vm_data self ++ [(k, v)])
  end.
Proof.
  intros Hs. unfold vm_append, validate_key_order, vm_ok in *.
  assert (forall x, last (vm_data self) = Some x -> StronglySorted (key_before (vm_ordering self)) (vm_data self ++ [(k, v)]) ->
    key_before (vm_ordering self) x (k, v)) as Hconv.
  { intros x Hx Hs'. apply last_Some in Hx as (l & Hx). rewrite Hx, <- app_assoc in Hs'.
    apply StronglySorted_app_inv in Hs' as (_ & Hs' & _). inversion_clear Hs' as [|? ? _ Hf]. by apply Forall_cons in Hf as [? _]. }
  assert ((forall x, last (vm_data self) = Some x -> key_before (vm_ordering self) x (k, v)) ->
    StronglySorted (key_before (vm_ordering self)) (vm_data self ++ [(k, v)])) as Hsn by by apply sorted_snoc.
  destruct (last (vm_data self)) as [[lk lv]|]; [|split_and!; [by apply Hsn|done|done]].
  destruct (vm_ordering self), (Z.compare_spec k lk); cbn [key_before fst] in *.
  all: first [split_and!; [apply Hsn; intros ? [= <-]; cbn; lia|done|done]
             |split; [done|]; intros Hs'; specialize (Hconv _ eq_refl Hs'); cbn in Hconv; lia].
Qed.

(** The entries before a place are those with smaller keys. *)
Lemma place_split (l : list (Z * V)) k :
  StronglySorted (key_before Greater) l ->
  let i := length (filter (fun e => e.1 < k) l) in
  take i l = filter (fun e => e.1 < k) l /\ drop i l = filter (fun e => ~ e.1 < k) l.
Proof.
  intros Hs. induction Hs as [|a l Hs [IH1 IH2] Hf]; [done|]. rewrite !filter_cons.
  destruct (decide (a.1 < k)) as [Hlt|Hge].
  - rewrite (decide_False (P := ~ a.1 < k)) by tauto. cbn [length take drop]. by rewrite IH1, IH2.
  - rewrite (decide_True (P := ~ a.1 < k)) by done.
    assert (filter (fun e => e.1 < k) l = []) as Hn.
    { apply filter_none. intros x Hx. rewrite Forall_forall in Hf. apply Hf in Hx. cbn in Hx. lia. }
    rewrite Hn in *. cbn [length take] in *. rewrite !drop_0 in *. by rewrite <- IH2.
Qed.

(** The entries below a place, when the key itself is left out or taken in. *)
Lemma place_bounds self k :
  vm_ordering self = Greater -> vm_ok self ->
  let idx := match vm_binary_search self k with inl i | inr i => i end in
  let idx' := match vm_binary_search self k with inl i => S i | inr i => i end in
  idx = length (filter (fun e => e.1 < k) (vm_data self))
  /\ idx' = length (filter (fun e => e.1 < k + 1) (vm_data self)).
Proof.
  intros Ho Hs. unfold vm_ok in Hs. rewrite Ho in Hs. unfold vm_binary_search. set (i := length _).
  destruct (place_split _ k Hs) as [Ht Hd]. fold i in Ht, Hd.
  assert (filter (fun e => e.1 < k + 1) (vm_data self)
    = filter (fun e => e.1 < k) (vm_data self) ++ filter (fun e => e.1 < k + 1) (drop i (vm_data self))) as Hsplit.
  { rewrite <- (take_drop i (vm_data self)) at 1. rewrite filter_app, Ht. f_equal.
    apply filter_all. intros e [He _]%list_elem_of_filter. cbn in He. lia. }
  rewrite Hsplit, length_app. fold i.
  assert (vm_data self !! i = head (drop i (vm_data self))) as -> by by rewrite head_lookup, lookup_drop, Nat.add_0_r.
  assert (StronglySorted (key_before Greater) (drop i (vm_data self))) as Hsd.
  { rewrite <- (take_drop i (vm_data self)) in Hs. by apply StronglySorted_app_inv in Hs as (_ & Hs & _). }
  assert (Forall (fun e => ~ e.1 < k) (drop i (vm_data self))) as Hge.
  { rewrite Hd. apply Forall_forall. by intros e [He _]%list_elem_of_filter. }
  destruct (drop i (vm_data self)) as [|e l]; cbn [head]; [cbn; lia|].
  inversion_clear Hsd as [|? ? _ Hf]. apply Forall_cons in Hge as [He _].
  assert (filter (fun e => e.1 < k + 1) l = []) as Hl.
  { apply filter_none. intros x Hx. rewrite Forall_forall in Hf. apply Hf in Hx. cbn in Hx. lia. }
  rewrite filter_cons, Hl. case_decide; case_decide; cbn; lia.
Qed.

Definition above (b : Bound) (k : Z) : Prop :=
  match b with Unbounded => True | Included a => a <= k | Excluded a => a < k end.
Definition below (b : Bound) (k : Z) : Prop :=
  match b with Unbounded => True | Included a => k <= a | Excluded a => k < a end.

#[global] Instance above_dec b k : Decision (above b k).
Proof. destruct b; cbn; apply _. Defined.
#[global] Instance below_dec b k : Decision (below b k).
Proof. destruct b; cbn; apply _. Defined.

Lemma slice_between (l : list (Z * V)) a b :
  StronglySorted (key_before Greater) l -> a <= b ->
  let i := length (filter (fun e => e.1 < a) l) in
  let j := length (filter (fun e => e.1 < b) l) in
  (i <= j)%nat /\ take (j - i) (drop i l) = filter (fun e => a <= e.1 /\ e.1 < b) l.
Proof.
  intros Hs Hab i j. destruct (place_split l a Hs) as [Ta Da]. destruct (place_split l b Hs) as [Tb Db].
  fold i in Ta, Da. fold j in Tb, Db.
  assert (filter (fun e => e.1 < a) (filter (fun e => e.1 < b) l) = filter (fun e => e.1 < a) l) as Hab'.
  { rewrite list_filter_filter. apply list_filter_iff. intros e. lia. }
  split.
  - unfold i, j. rewrite <- Hab'. apply length_filter.
  - rewrite take_drop_commute. assert (i <= j)%nat as Hij by (unfold i, j; rewrite <- Hab'; apply length_filter).
    replace (i + (j - i))%nat with j by lia. rewrite Tb.
    assert (drop i (filter (fun e => e.1 < b) l) = filter (fun e => ~ e.1 < a) (filter (fun e => e.1 < b) l)) as ->.
    { assert (i = length (filter (fun e => e.1 < a) (filter (fun e => e.1 < b) l))) as -> by by rewrite Hab'.
      apply place_split. rewrite <- Tb. rewrite <- (take_drop j l) in Hs. by apply StronglySorted_app_inv in Hs as (Hs & _). }
    rewrite list_filter_filter. apply list_filter_iff. intros e. lia.
Qed.
End vec_map.

Arguments vm_default {V}.

(** A vector map stays in the order of its keys: an append and an update of the last
    entry are refused exactly when they would break the order, and a slice between
    bounds holds exactly the entries whose keys lie between them. *)
Theorem vec_map_ordered {V} (self : VecMap V) (k : Z) (v : V) (a b : Z) :
  vm_ok self -> vm_ordering self = Greater -> a <= b ->
  match vm_append self k v with
  | inr self' => vm_ok self' /\ vm_data self' = vm_data self ++ [(k, v)]
  | inl _ => exists e, last (vm_data self) = Some e /\ k <= e.1
  end
  /\ slice_range self (Included a) (Excluded b) = Some (filter (fun e => a <= e.1 /\ e.1 < b) (vm_data self)).
Proof.
  intros Hok Ho Hab. split.
  - pose proof (append_ok self k v Hok) as Ha. destruct (vm_append self k v) as [e|self'] eqn:E; [|naive_solver].
    unfold vm_append, validate_key_order in E. rewrite Ho in E.
    destruct (last (vm_data self)) as [[lk lv]|]; [|done]. exists (lk, lv). split; [done|].
    destruct (Z.compare_spec k lk); cbn; lia || done.
  - unfold slice_range. destruct (place_bounds self a Ho Hok) as [-> _]. destruct (place_bounds self b Ho Hok) as [-> _].
    unfold vm_ok in Hok. rewrite Ho in Hok. destruct (slice_between _ a b Hok Hab) as [Hle Hsl].
    by rewrite decide_True, Hsl.
Qed.

(** [extend] compares the last key of the other map with the last of this one, where
    its comment (and the name of the variable) mean the first: it accepts keys that
    violate the order, and the map it leaves is not sorted. *)
Theorem extend_accepts_unsorted :
  exists (self other self' : VecMap unit) rest,
    vm_ok self /\ vm_ok other /\ vm_extend self other = inr (self', rest) /\ ~ vm_ok self'.
Proof.
  exists (mkVecMap [(5, tt)] Greater), (mkVecMap [(1, tt); (10, tt)] Greater),
    (mkVecMap [(5, tt); (1, tt); (10, tt)] Greater), (mkVecMap [] Greater).
  split_and!; [repeat constructor..|done|].
  intros Hs. inversion_clear Hs as [|? ? _ Hf]. apply Forall_cons in Hf as [H _]. cbn in H. lia.
Qed.
