(* ===== verification/BlobIo.v ===== *)
(** * Blobs in layer files ([pageserver/src/tenant/blob_io.rs], [vectored_blob_io.rs])

    The values of a layer are blobs with a length header, written one after the
    other and read back either one by one through a block cursor or many at a time:
    a planner collects the offsets of the blobs wanted and joins neighbours to reads
    of whole chunks.  A file is the function that reads bytes at an offset; zstd is
    the class [Zstd].  The writer is what it has been given so far; a flush that is
    cancelled is not modelled. *)

From S2P Require Import Prelude Lsn XlogUtils Key OrdMap LayerCoverage DiskBtree VecMap.

(** ** Headers *)

Record Header := mkHeader { hd_header_len : nat; hd_data_len : nat; hd_compression_bits : Z }.

Definition LEN_COMPRESSION_BIT_MASK : Z := 0xf0.
Definition MAX_SUPPORTED_BLOB_LEN : Z := 0x0fffffff.
Definition BYTE_UNCOMPRESSED : Z := 0x80.
Definition BYTE_ZSTD : Z := Z.lor BYTE_UNCOMPRESSED 0x10.

Definition header_decode (bytes : list byte) : outcome string Header :=
  match bytes with
  | [] => Err "zero-length blob header"
  | first_header_byte :: _ =>
      if decide (byte_Z first_header_byte < 0x80) then
        Ok (mkHeader 1 (Z.to_nat (byte_Z first_header_byte)) BYTE_UNCOMPRESSED)
      else
        header_buf ← of_option (slice 0 4 bytes);
        match header_buf with
        | b0 :: rest =>
            let compression_bits := Z.land (byte_Z b0) LEN_COMPRESSION_BIT_MASK in
            let b0 := Z_byte (Z.land (byte_Z b0) (Z.lnot LEN_COMPRESSION_BIT_MASK)) in
            Ok (mkHeader 4 (Z.to_nat (be_Z (b0 :: rest))) compression_bits)
        | [] => Panic
        end
  end.

Definition total_len (self : Header) : nat := hd_header_len self + hd_data_len self.

(** ** Compression *)

Inductive ImageCompressionAlgorithm : Type := Disabled | ZstdLevel (level : option Z).

(** The [async_compression] crate: what a [ZstdEncoder] and a [ZstdDecoder] write. *)
Class Zstd := {
  zstd_encode : option Z -> list byte -> list byte;
  zstd_decode : list byte -> sum string (list byte)
}.

Class ZstdLaws `{!Zstd} := {
  zstd_decode_encode level bytes : zstd_decode (zstd_encode level bytes) = inr bytes
}.

Definition of_sum {E A} (r : sum E A) : outcome E A := match r with inl e => Err e | inr a => Ok a end.

(** ** The writer *)

Record CompressionInfo := mkCompressionInfo { written_compressed : bool; compressed_size : option nat }.

Inductive WriteBlobError : Type := WriteOther (msg : string).

(** [bw_bytes]: the bytes passed to the buffered writer, from where it started. *)
Record BlobWriter := mkBlobWriter { bw_bytes : list byte; bw_offset : Z }.

Definition bw_new (start_offset : Z) : BlobWriter := mkBlobWriter [] start_offset.

Definition bw_write_all (self : BlobWriter) (src_buf : list byte) : BlobWriter :=
  mkBlobWriter (bw_bytes self ++ src_buf) (bw_offset self + Z.of_nat (length src_buf)).

(** [BufferedWriterShutdownMode::ZeroPadToNextMultiple(n)]. *)
Definition zero_pad (n : nat) (bytes : list byte) : list byte :=
  let r := (length bytes mod n)%nat in
  if decide (r = O) then bytes else bytes ++ replicate (n - r) (Z_byte 0).

Section blob_io.
Context `{!Zstd}.

Definition write_blob_maybe_compressed (self : BlobWriter) (srcbuf : list byte)
    (algorithm : ImageCompressionAlgorithm) : outcome WriteBlobError (Z * CompressionInfo * BlobWriter) :=
  let offset := bw_offset self in
  let len := Z.of_nat (length srcbuf) in
  if decide (len < 128) then
    let self := bw_write_all self [Z_byte len] in
    let self := bw_write_all self srcbuf in
    Ok (offset, mkCompressionInfo false None, self)
  else if decide (MAX_SUPPORTED_BLOB_LEN < len) then Err (WriteOther "blob too large")
  else
    let '(high_bit_mask, len_written, compressed_buf, compression_info) :=
      match algorithm with
      | ZstdLevel level =>
          let compressed := zstd_encode level srcbuf in
          if decide (length compressed < length srcbuf)%nat then
            (BYTE_ZSTD, length compressed, Some compressed, mkCompressionInfo true (Some (length compressed)))
          else (BYTE_UNCOMPRESSED, length srcbuf, None, mkCompressionInfo false (Some (length compressed)))
      | Disabled => (BYTE_UNCOMPRESSED, length srcbuf, None, mkCompressionInfo false None)
      end in
    match be_bytes 4 (Z.of_nat len_written) with
    | b0 :: rest =>
        _ ← of_option (ensure (bool_decide (Z.land (byte_Z b0) 0xf0 = 0)));
        let self := bw_write_all self (Z_byte (Z.lor (byte_Z b0) high_bit_mask) :: rest) in
        let self := bw_write_all self (default srcbuf compressed_buf) in
        Ok (offset, compression_info, self)
    | [] => Panic
    end.

Definition write_blob (self : BlobWriter) (srcbuf : list byte) : outcome WriteBlobError (Z * BlobWriter) :=
  '(off, _, self) ← write_blob_maybe_compressed self srcbuf Disabled; Ok (off, self).

Definition write_blob_raw (self : BlobWriter) (raw_with_header : list byte) : outcome WriteBlobError (Z * BlobWriter) :=
  match header_decode raw_with_header with
  | Panic => Panic
  | Err e => Err (WriteOther e)
  | Ok header =>
      if decide (length raw_with_header <> total_len header) then Err (WriteOther "header length mismatch")
      else Ok (bw_offset self, bw_write_all self raw_with_header)
  end.

(** ** Reading one blob through a block cursor *)

Section cursor.
Context (read_blk : Z -> outcome string (list byte)) (read_compressed : bool).

(** The payload loop: from [off] in the block [buf], which is block [blknum]. *)
Fixpoint read_payload (fuel : nat) (blknum : Z) (buf : list byte) (off remain : nat) (acc : list byte) :
    outcome string (list byte) :=
  match remain with
  | O => Ok acc
  | _ =>
      match fuel with
      | O => Err "out of fuel"
      | S fuel =>
          let page_remain := (PAGE_SZ - off)%nat in
          '(blknum, buf, off, page_remain) ←
            (if decide (page_remain = O) then
               buf ← read_blk (blknum + 1); Ok (blknum + 1, buf, O, PAGE_SZ)
             else Ok (blknum, buf, off, page_remain));
          let this_blk_len := Nat.min remain page_remain in
          part ← of_option (slice off (off + this_blk_len) buf);
          read_payload fuel blknum buf (off + this_blk_len) (remain - this_blk_len) (acc ++ part)
      end
  end.

Definition read_blob (offset : Z) : outcome string (list byte) :=
  let blknum := wrap 32 (offset / Z.of_nat PAGE_SZ) in
  let off := Z.to_nat (offset mod Z.of_nat PAGE_SZ) in
  buf ← read_blk blknum;
  first_len_byte ← of_option (buf !! off);
  '(len, blknum, buf, off) ←
    (if decide (byte_Z first_len_byte < 0x80) then Ok (Z.to_nat (byte_Z first_len_byte), blknum, buf, S off)
     else
       let thislen := (PAGE_SZ - off)%nat in
       '(len_buf, blknum, buf, off) ←
         (if decide (thislen < 4)%nat then
            part ← of_option (slice off PAGE_SZ buf);
            buf ← read_blk (blknum + 1);
            part' ← of_option (slice 0 (4 - thislen) buf);
            Ok (part ++ part', blknum + 1, buf, (4 - thislen)%nat)
          else
            part ← of_option (slice off (off + 4) buf);
            Ok (part, blknum, buf, (off + 4)%nat));
       let bit_mask := if read_compressed then Z.lnot LEN_COMPRESSION_BIT_MASK else 0x7f in
       match len_buf with
       | b0 :: rest => Ok (Z.to_nat (be_Z (Z_byte (Z.land (byte_Z b0) bit_mask) :: rest)), blknum, buf, off)
       | [] => Panic
       end);
  let compression_bits := Z.land (byte_Z first_len_byte) LEN_COMPRESSION_BIT_MASK in
  compressed ←
    (if bool_decide (compression_bits <= BYTE_UNCOMPRESSED) || negb read_compressed then Ok false
     else if decide (compression_bits = BYTE_ZSTD) then Ok true
     else Err "invalid compression byte");
  data ← read_payload (S len) blknum buf off len [];
  if compressed : bool then of_sum (zstd_decode data) else Ok data.
End cursor.

(** ** Reading many blobs *)

Record BlobMeta := mkBlobMeta { bm_key : Key; bm_lsn : Lsn; bm_will_init : bool }.

Record VectoredBlob := mkVectoredBlob {
  vb_meta : BlobMeta;
  vb_header_start : nat;
  vb_data_start : nat;
  vb_end : nat;
  vb_compression_bits : Z
}.

Definition vb_read (self : VectoredBlob) (buf : list byte) : outcome string (list byte) :=
  view ← of_option (slice (vb_data_start self) (vb_end self) buf);
  if decide (vb_compression_bits self = BYTE_UNCOMPRESSED) then Ok view
  else if decide (vb_compression_bits self = BYTE_ZSTD) then of_sum (zstd_decode view)
  else Err "invalid compression byte".

Definition raw_with_header (self : VectoredBlob) (buf : list byte) : option (list byte) :=
  slice (vb_header_start self) (vb_end self) buf.

Record VectoredRead := mkVectoredRead { vr_start : Z; vr_end : Z; vr_blobs_at : VecMap BlobMeta }.

Definition vr_size (self : VectoredRead) : Z := vr_end self - vr_start self.

(** [DEFAULT_IO_BUFFER_ALIGNMENT]. *)
Definition CHUNK_SIZE : Z := 512.

Definition div_ceil (a b : Z) : Z := (a + b - 1) / b.

(** The file as [read_exact_at] sees it: an offset and a length. *)
Definition VirtualFile : Type := Z -> Z -> sum string (list byte).

Definition decode_blob (read_start : Z) (buf : list byte) (blob : Z * BlobMeta) : outcome string VectoredBlob :=
  let '(blob_start, meta) := blob in
  header_start ← of_option (checked_sub blob_start read_start);
  let header_start := Z.to_nat header_start in
  bytes ← of_option (slice header_start (length buf) buf);
  header ← header_decode bytes;
  let data_start := (header_start + hd_header_len header)%nat in
  let end_ := (data_start + hd_data_len header)%nat in
  Ok (mkVectoredBlob meta header_start data_start end_ (hd_compression_bits header)).

Fixpoint decode_blobs (read_start : Z) (buf : list byte) (blobs_at : list (Z * BlobMeta)) :
    outcome string (list VectoredBlob) :=
  match blobs_at with
  | [] => Ok []
  | blob :: blobs_at =>
      b ← decode_blob read_start buf blob;
      bs ← decode_blobs read_start buf blobs_at;
      Ok (b :: bs)
  end.

Definition read_blobs (file : VirtualFile) (read : VectoredRead) (capacity : Z) :
    outcome string (list byte * list VectoredBlob) :=
  _ ← of_option (ensure (bool_decide (0 < vr_size read)));
  _ ← of_option (ensure (bool_decide (vr_size read <= capacity)));
  _ ← of_option (ensure (bool_decide (vr_start read mod CHUNK_SIZE = 0)));
  buf ← of_sum (file (vr_start read) (vr_size read));
  blobs ← decode_blobs (vr_start read) buf (vm_data (vr_blobs_at read));
  Ok (buf, blobs).
End blob_io.

(** ** Planning *)

Inductive VectoredReadExtended : Set := Yes | No.

Record ChunkedVectoredReadBuilder := mkReadBuilder {
  rb_start_blk_no : Z;
  rb_end_blk_no : Z;
  rb_blobs_at : VecMap BlobMeta;
  rb_max_read_size : option Z
}.

Definition builder_new_impl (start_offset end_offset : Z) (meta : BlobMeta) (max_read_size : option Z) :
    option ChunkedVectoredReadBuilder :=
  match vm_append vm_default start_offset meta with
  | inl _ => None
  | inr blobs_at =>
      Some (mkReadBuilder (start_offset / CHUNK_SIZE) (div_ceil end_offset CHUNK_SIZE) blobs_at max_read_size)
  end.

Definition read_builder_new (start_offset end_offset : Z) (meta : BlobMeta) (max_read_size : Z) :
    option ChunkedVectoredReadBuilder :=
  builder_new_impl start_offset end_offset meta (Some max_read_size).

Definition new_streaming (start_offset end_offset : Z) (meta : BlobMeta) : option ChunkedVectoredReadBuilder :=
  builder_new_impl start_offset end_offset meta None.

Definition rb_extend (self : ChunkedVectoredReadBuilder) (start end_ : Z) (meta : BlobMeta) :
    option (VectoredReadExtended * ChunkedVectoredReadBuilder) :=
  let start_blk_no := start / CHUNK_SIZE in
  let end_blk_no := div_ceil end_ CHUNK_SIZE in
  not_limited_by_max_read_size ←
    match rb_max_read_size self with
    | Some max_read_size =>
        n ← checked_sub end_blk_no (rb_start_blk_no self);
        Some (bool_decide (n * CHUNK_SIZE <= max_read_size))
    | None => Some true
    end;
  let is_adjacent_chunk_read :=
    bool_decide (rb_end_blk_no self = start_blk_no + 1) || bool_decide (rb_end_blk_no self = start_blk_no) in
  if is_adjacent_chunk_read && not_limited_by_max_read_size then
    match vm_append (rb_blobs_at self) start meta with
    | inl _ => None
    | inr blobs_at => Some (Yes, mkReadBuilder (rb_start_blk_no self) end_blk_no blobs_at (rb_max_read_size self))
    end
  else Some (No, self).

Definition rb_size (self : ChunkedVectoredReadBuilder) : Z :=
  (rb_end_blk_no self - rb_start_blk_no self) * CHUNK_SIZE.

Definition rb_build (self : ChunkedVectoredReadBuilder) : VectoredRead :=
  mkVectoredRead (rb_start_blk_no self * CHUNK_SIZE) (rb_end_blk_no self * CHUNK_SIZE) (rb_blobs_at self).

Inductive BlobFlag : Set := FlagNone | FlagIgnore | FlagReplaceAll.

(** The LSN of a blob, its start and end, and whether it initializes the page. *)
Abbreviation planned_blob := (Lsn * Z * Z * bool)%type.

Record VectoredReadPlanner := mkPlanner {
  pl_blobs : ordmap Key (list planned_blob);
  pl_prev : option (Key * Lsn * Z * BlobFlag);
  pl_max_read_size : Z
}.

Definition planner_new (max_read_size : Z) : VectoredReadPlanner := mkPlanner [] None max_read_size.

(** [blobs.entry(key).or_default()], changed by [f]. *)
Definition blobs_entry (key : Key) (f : list planned_blob -> list planned_blob)
    (blobs : ordmap Key (list planned_blob)) : ordmap Key (list planned_blob) :=
  oinsert key (f (concat (snd <$> filter (fun e => e.1 = key) blobs))) blobs.

Definition add_blob (self : VectoredReadPlanner) (key : Key) (lsn : Lsn) (start_offset end_offset : Z)
    (flag : BlobFlag) : VectoredReadPlanner :=
  let blobs :=
    match flag with
    | FlagNone => blobs_entry key (fun l => l ++ [(lsn, start_offset, end_offset, false)]) (pl_blobs self)
    | FlagReplaceAll => blobs_entry key (fun _ => [(lsn, start_offset, end_offset, true)]) (pl_blobs self)
    | FlagIgnore => pl_blobs self
    end in
  mkPlanner blobs (pl_prev self) (pl_max_read_size self).

Definition with_prev (self : VectoredReadPlanner) (prev : option (Key * Lsn * Z * BlobFlag)) : VectoredReadPlanner :=
  mkPlanner (pl_blobs self) prev (pl_max_read_size self).

Definition handle (self : VectoredReadPlanner) (key : Key) (lsn : Lsn) (offset : Z) (flag : BlobFlag) :
    VectoredReadPlanner :=
  match pl_prev self with
  | None => with_prev self (Some (key, lsn, offset, flag))
  | Some (prev_key, prev_lsn, prev_offset, prev_flag) =>
      let self := add_blob self prev_key prev_lsn prev_offset offset prev_flag in
      with_prev self (Some (key, lsn, offset, flag))
  end.

Definition handle_range_end (self : VectoredReadPlanner) (offset : Z) : VectoredReadPlanner :=
  let self :=
    match pl_prev self with
    | Some (prev_key, prev_lsn, prev_offset, prev_flag) =>
        add_blob self prev_key prev_lsn prev_offset offset prev_flag
    | None => self
    end in
  with_prev self None.

(** One iteration of the inner loop of [finish]. *)
Definition planner_finish_blob (max_read_size : Z) (key : Key) (st : option ChunkedVectoredReadBuilder * list VectoredRead)
    (blob : planned_blob) : option (option ChunkedVectoredReadBuilder * list VectoredRead) :=
  let '(current_read_builder, reads) := st in
  let '(lsn, start_offset, end_offset, will_init) := blob in
  let meta := mkBlobMeta key lsn will_init in
  '(extended, current_read_builder) ←
    match current_read_builder with
    | Some read_builder =>
        '(extended, read_builder) ← rb_extend read_builder start_offset end_offset meta;
        Some (extended, Some read_builder)
    | None => Some (No, None)
    end;
  match extended with
  | Yes => Some (current_read_builder, reads)
  | No =>
      next_read_builder ← read_builder_new start_offset end_offset meta max_read_size;
      let reads :=
        match current_read_builder with
        | Some read_builder => reads ++ [rb_build read_builder]
        | None => reads
        end in
      Some (Some next_read_builder, reads)
  end.

Fixpoint planner_finish_key (max_read_size : Z) (key : Key) (st : option ChunkedVectoredReadBuilder * list VectoredRead)
    (blobs_for_key : list planned_blob) : option (option ChunkedVectoredReadBuilder * list VectoredRead) :=
  match blobs_for_key with
  | [] => Some st
  | blob :: blobs_for_key => st ← planner_finish_blob max_read_size key st blob; planner_finish_key max_read_size key st blobs_for_key
  end.

Fixpoint planner_finish_loop (max_read_size : Z) (st : option ChunkedVectoredReadBuilder * list VectoredRead)
    (blobs : ordmap Key (list planned_blob)) : option (option ChunkedVectoredReadBuilder * list VectoredRead) :=
  match blobs with
  | [] => Some st
  | (key, blobs_for_key) :: blobs => st ← planner_finish_key max_read_size key st blobs_for_key; planner_finish_loop max_read_size st blobs
  end.

Definition planner_finish (self : VectoredReadPlanner) : option (list VectoredRead) :=
  '(current_read_builder, reads) ← planner_finish_loop (pl_max_read_size self) (None, []) (pl_blobs self);
  Some (match current_read_builder with
        | Some read_builder => reads ++ [rb_build read_builder]
        | None => reads
        end).

(** ** The streaming planner of the layer iterators *)

Record StreamingVectoredReadPlanner := mkStreaming {
  sp_read_builder : option ChunkedVectoredReadBuilder;
  sp_prev : option (Key * Lsn * Z * bool);
  sp_max_read_size : Z;
  sp_max_cnt : Z;
  sp_cnt : Z
}.

Definition streaming_new (max_read_size max_cnt : Z) : option StreamingVectoredReadPlanner :=
  _ ← ensure (bool_decide (0 < max_cnt));
  _ ← ensure (bool_decide (0 < max_read_size));
  Some (mkStreaming None None max_read_size max_cnt 0).

Definition streaming_add_blob (self : StreamingVectoredReadPlanner) (key : Key) (lsn : Lsn)
    (start_offset end_offset : Z) (is_last_blob_in_read will_init : bool) :
    option (option VectoredRead * StreamingVectoredReadPlanner) :=
  let meta := mkBlobMeta key lsn will_init in
  read_builder ←
    match sp_read_builder self with
    | Some read_builder =>
        '(extended, read_builder) ← rb_extend read_builder start_offset end_offset meta;
        match extended with Yes => Some read_builder | No => None end
    | None => new_streaming start_offset end_offset meta
    end;
  let cnt := sp_cnt self + 1 in
  if is_last_blob_in_read || bool_decide (sp_max_read_size self <= rb_size read_builder)
     || bool_decide (sp_max_cnt self <= cnt)
  then Some (Some (rb_build read_builder),
             mkStreaming None (sp_prev self) (sp_max_read_size self) (sp_max_cnt self) 0)
  else Some (None, mkStreaming (Some read_builder) (sp_prev self) (sp_max_read_size self) (sp_max_cnt self) cnt).

Definition streaming_with_prev (self : StreamingVectoredReadPlanner) (prev : option (Key * Lsn * Z * bool)) :
    StreamingVectoredReadPlanner :=
  mkStreaming (sp_read_builder self) prev (sp_max_read_size self) (sp_max_cnt self) (sp_cnt self).

Definition streaming_handle (self : StreamingVectoredReadPlanner) (key : Key) (lsn : Lsn) (offset : Z)
    (will_init : bool) : option (option VectoredRead * StreamingVectoredReadPlanner) :=
  match sp_prev self with
  | None => Some (None, streaming_with_prev self (Some (key, lsn, offset, will_init)))
  | Some (prev_key, prev_lsn, prev_offset, prev_will_init) =>
      '(res, self) ← streaming_add_blob self prev_key prev_lsn prev_offset offset false prev_will_init;
      Some (res, streaming_with_prev self (Some (key, lsn, offset, will_init)))
  end.

Definition streaming_handle_range_end (self : StreamingVectoredReadPlanner) (offset : Z) :
    option (option VectoredRead * StreamingVectoredReadPlanner) :=
  '(res, self) ←
    match sp_prev self with
    | Some (prev_key, prev_lsn, prev_offset, prev_will_init) =>
        streaming_add_blob self prev_key prev_lsn prev_offset offset true prev_will_init
    | None => Some (None, self)
    end;
  Some (res, streaming_with_prev self None).
