(* ===== verification/BlobIoFacts.v ===== *)
(** * Blobs can be read back

    Headers and their compression bits, what the writer appends, how the planner
    groups blobs into reads, and that a read gives back every blob in it. *)

From S2P Require Import Prelude Lsn XlogUtils Key OrdMap LayerCoverage DiskBtree VecMap BlobIo.

(** ** Headers *)

Lemma hdr_bits b mask :
  0 <= b < 16 -> mask = BYTE_UNCOMPRESSED \/ mask = BYTE_ZSTD ->
  Z.land b 0xf0 = 0 /\ Z.land (Z.lor b mask) LEN_COMPRESSION_BIT_MASK = mask
  /\ Z.land (Z.lor b mask) (Z.lnot LEN_COMPRESSION_BIT_MASK) = b /\ 0x80 <= Z.lor b mask < 256.
Proof.
  intros Hb Hm.
  assert (b ∈ seqZ 0 16) as Hin by (apply elem_of_seqZ; lia). clear Hb. revert b Hin.
  assert (forallb (fun b => forallb (fun mask =>
    bool_decide (Z.land b 0xf0 = 0) && bool_decide (Z.land (Z.lor b mask) LEN_COMPRESSION_BIT_MASK = mask)
    && bool_decide (Z.land (Z.lor b mask) (Z.lnot LEN_COMPRESSION_BIT_MASK) = b)
    && bool_decide (0x80 <= Z.lor b mask) && bool_decide (Z.lor b mask < 256)) [BYTE_UNCOMPRESSED; BYTE_ZSTD])
    (seqZ 0 16) = true) as Hall by reflexivity.
  intros b Hin. rewrite forallb_forall in Hall. apply list_elem_of_In, Hall in Hin. rewrite forallb_forall in Hin.
  specialize (Hin mask ltac:(destruct Hm as [-> | ->]; cbn; auto)).
  rewrite !andb_true_iff, !bool_decide_eq_true in Hin. naive_solver.
Qed.

Section facts.
Context `{!Zstd, !ZstdLaws}.

(** [enc] is a blob with the contents [data], whatever follows it in the file. *)
Definition blob_encodes (enc data : list byte) : Prop :=
  exists h, (forall rest, header_decode (enc ++ rest) = Ok h) /\ length enc = total_len h
  /\ (0 < hd_header_len h)%nat
  /\ (hd_compression_bits h = BYTE_UNCOMPRESSED /\ drop (hd_header_len h) enc = data
      \/ hd_compression_bits h = BYTE_ZSTD /\ zstd_decode (drop (hd_header_len h) enc) = inr data).

Lemma header_decode_long n mask payload :
  0 <= n < 2 ^ 28 -> mask = BYTE_UNCOMPRESSED \/ mask = BYTE_ZSTD -> Z.of_nat (length payload) = n ->
  exists b0 rest, be_bytes 4 n = b0 :: rest /\ Z.land (byte_Z b0) 0xf0 = 0
  /\ forall r, header_decode ((Z_byte (Z.lor (byte_Z b0) mask) :: rest) ++ payload ++ r) = Ok (mkHeader 4 (length payload) mask).
Proof.
  intros Hn Hm Hlen. destruct (be_bytes 4 n) as [|b0 rest] eqn:E; [by apply (f_equal length) in E|].
  assert (length rest = 3%nat) as Hrest by (apply (f_equal length) in E; rewrite length_be_bytes in E; cbn in E; lia).
  assert (be_Z (b0 :: rest) = n) as Hv by (rewrite <- E; apply be_Z_be_bytes_small; cbn; lia).
  assert (0 <= byte_Z b0 < 16) as Hb0.
  { split; [apply byte_Z_bound|]. destruct rest as [|b1 [|b2 [|b3 [|]]]]; try done. unfold be_Z in Hv. cbn in Hv.
    pose proof (byte_Z_bound b1). pose proof (byte_Z_bound b2). pose proof (byte_Z_bound b3). lia. }
  destruct (hdr_bits (byte_Z b0) mask Hb0 Hm) as (H1 & H2 & H3 & H4).
  exists b0, rest. split_and!; [done|done|]. intros r. cbn [app header_decode].
  assert (byte_Z (Z_byte (Z.lor (byte_Z b0) mask)) = Z.lor (byte_Z b0) mask) as Hbyte
    by (rewrite byte_Z_Z_byte, Z.mod_small by lia; done).
  rewrite Hbyte. rewrite decide_False by lia.
  rewrite app_comm_cons, slice_app_l by (cbn; lia). cbn [of_option mbind outcome_bind].
  rewrite Hbyte, H2, H3, Z_byte_byte_Z, Hv. do 2 f_equal. lia.
Qed.

Lemma write_blob_ok (self : BlobWriter) src algorithm :
  Z.of_nat (length src) <= MAX_SUPPORTED_BLOB_LEN ->
  exists info enc, blob_encodes enc src /\ (length enc <= length src + 4)%nat
  /\ write_blob_maybe_compressed self src algorithm = Ok (bw_offset self, info, bw_write_all self enc).
Proof.
  intros Hlen. unfold write_blob_maybe_compressed. cbv zeta.
  assert (forall (w : BlobWriter) a b, bw_write_all (bw_write_all w a) b = bw_write_all w (a ++ b)) as Hw.
  { intros w a b. unfold bw_write_all. cbn. f_equal; [by rewrite app_assoc|rewrite length_app; lia]. }
  case_decide as Hs.
  - rewrite Hw. exists (mkCompressionInfo false None), ([Z_byte (Z.of_nat (length src))] ++ src).
    split; [|split; [cbn; lia|done]]. exists (mkHeader 1 (length src) BYTE_UNCOMPRESSED). split_and!; [|done|cbn; lia|by left].
    intros rest. cbn [app header_decode]. rewrite byte_Z_Z_byte, Z.mod_small by lia. rewrite decide_True by lia.
    do 2 f_equal. lia.
  - unfold MAX_SUPPORTED_BLOB_LEN in *. rewrite decide_False by lia.
    assert (forall mask payload (info : CompressionInfo), mask = BYTE_UNCOMPRESSED /\ payload = src
        \/ mask = BYTE_ZSTD /\ zstd_decode payload = inr src ->
      (length payload <= length src)%nat ->
      exists info' enc, blob_encodes enc src /\ (length enc <= length src + 4)%nat /\
        match be_bytes 4 (Z.of_nat (length payload)) with
        | b0 :: rest => _ ← of_option (ensure (bool_decide (Z.land (byte_Z b0) 0xf0 = 0)));
            Ok (bw_offset self, info, bw_write_all (bw_write_all self (Z_byte (Z.lor (byte_Z b0) mask) :: rest)) payload)
        | [] => Panic (E := WriteBlobError)
        end = Ok (bw_offset self, info', bw_write_all self enc)) as Hgen.
    { intros mask payload info Hp Hle.
      destruct (header_decode_long (Z.of_nat (length payload)) mask payload) as (b0 & rest & E & Hz & Hd);
        [lia|tauto|done|]. rewrite E, Hz. cbn. rewrite Hw.
      assert (length rest = 3%nat) as Hrest by (apply (f_equal length) in E; rewrite length_be_bytes in E; cbn in E; lia).
      exists info, ((Z_byte (Z.lor (byte_Z b0) mask) :: rest) ++ payload).
      split; [|split; [rewrite length_app; cbn; lia|done]].
      exists (mkHeader 4 (length payload) mask). split_and!; [|cbn; rewrite length_app; lia|cbn; lia|].
      - intros r. rewrite <- app_assoc. apply Hd.
      - cbn [hd_compression_bits hd_header_len].
        replace (drop 4 ((Z_byte (Z.lor (byte_Z b0) mask) :: rest) ++ payload)) with payload; [tauto|].
        symmetry. apply drop_app_length'. cbn. lia. }
    destruct algorithm as [|level].
    + apply (Hgen BYTE_UNCOMPRESSED src); [by left|done].
    + case_decide as Hc.
      * apply (Hgen BYTE_ZSTD (zstd_encode level src)); [right; split; [done|apply zstd_decode_encode]|lia].
      * apply (Hgen BYTE_UNCOMPRESSED src); [by left|done].
Qed.

Lemma encodes_length enc data : blob_encodes enc data -> (0 < length enc)%nat.
Proof. intros (h & _ & Hl & Hp & _). rewrite Hl. unfold total_len. lia. Qed.

(** A blob inside a buffer that was read from [read_start] on. *)
Lemma decode_blob_ok read_start l1 enc l2 data meta :
  0 <= read_start -> blob_encodes enc data ->
  exists vb, decode_blob read_start (l1 ++ enc ++ l2) (read_start + Z.of_nat (length l1), meta) = Ok vb
  /\ vb_meta vb = meta /\ vb_read vb (l1 ++ enc ++ l2) = Ok data.
Proof.
  intros Hrs (h & Hd & Hl & _ & Hc). unfold decode_blob, checked_sub. rewrite decide_True by lia.
  cbn [of_option mbind outcome_bind]. replace (read_start + Z.of_nat (length l1) - read_start) with (Z.of_nat (length l1)) by lia.
  rewrite Nat2Z.id. unfold slice at 1. rewrite decide_True by (rewrite length_app; lia).
  cbn [of_option mbind outcome_bind]. rewrite drop_app_length, take_ge by (rewrite !length_app; lia).
  rewrite Hd. cbn [mbind outcome_bind]. eexists. split_and!; [done|done|].
  unfold vb_read. cbn [vb_data_start vb_end vb_compression_bits]. unfold total_len in Hl.
  assert (slice (length l1 + hd_header_len h) (length l1 + hd_header_len h + hd_data_len h) (l1 ++ enc ++ l2)
    = Some (drop (hd_header_len h) enc)) as ->.
  { unfold slice. rewrite decide_True by (rewrite !length_app; lia). f_equal.
    rewrite drop_app_ge by lia. replace (length l1 + hd_header_len h - length l1)%nat with (hd_header_len h) by lia.
    rewrite drop_app_le by lia. rewrite take_app_length' by (rewrite length_drop; lia). done. }
  cbn [of_option mbind outcome_bind]. destruct Hc as [[-> ->]|[-> Hz]]; [done|]. cbn. by rewrite Hz.
Qed.
End facts.

(** ** Grouping blobs into reads *)

(** A blob to be read: where it starts, where the next one starts, what it is. *)
Abbreviation placed := (Z * Z * BlobMeta)%type.

Definition flat_key (key : Key) (l : list planned_blob) : list placed :=
  map (fun b => let '(lsn, s, e, will_init) := b in (s, e, mkBlobMeta key lsn will_init)) l.

Definition flat_blobs (blobs : ordmap Key (list planned_blob)) : list placed :=
  concat (map (fun e => flat_key e.1 e.2) blobs).

(** The blobs follow one another in the file. *)
Definition placed_ok (fl : list placed) : Prop :=
  Forall (fun b => 0 <= b.1.1 < b.1.2) fl /\ StronglySorted (fun a b => a.1.2 <= b.1.1) fl.

(** A read covers the blobs of a group, in whole chunks, up to the chunk in which the
    last of them ends. *)
Record group_ok (read : VectoredRead) (g : list placed) : Prop := {
  go_blobs : vm_data (vr_blobs_at read) = map (fun b => (b.1.1, b.2)) g;
  go_aligned : vr_start read mod CHUNK_SIZE = 0;
  go_nonempty : 0 <= vr_start read < vr_end read;
  go_inside : Forall (fun b => vr_start read <= b.1.1 /\ b.1.2 <= vr_end read) g;
  go_end : exists b, last g = Some b /\ vr_end read = div_ceil b.1.2 CHUNK_SIZE * CHUNK_SIZE
}.

Lemma div_ceil_bounds a b : 0 < b -> a <= div_ceil a b * b < a + b.
Proof.
  intros Hb. unfold div_ceil. pose proof (Z.div_mod (a + b - 1) b ltac:(lia)).
  pose proof (Z.mod_pos_bound (a + b - 1) b Hb). nia.
Qed.

Lemma placed_ok_app l1 l2 :
  placed_ok (l1 ++ l2) <-> placed_ok l1 /\ placed_ok l2 /\ forall a b, a ∈ l1 -> b ∈ l2 -> a.1.2 <= b.1.1.
Proof.
  unfold placed_ok. rewrite Forall_app. split.
  - intros [[H1 H2] Hs]. apply StronglySorted_app_inv in Hs as (S1 & S2 & S3). naive_solver.
  - intros ([F1 S1] & [F2 S2] & H). split; [done|]. induction S1 as [|a l1 S1 IH Hf]; [done|]. cbn [app].
    apply Forall_cons in F1 as [_ F1]. constructor.
    + apply IH; [done|]. intros x y Hx Hy. apply H; [by right|done].
    + apply Forall_app. split; [done|]. apply Forall_forall. intros y Hy. apply H; [by left|done].
Qed.

Definition reader_ok (rb : ChunkedVectoredReadBuilder) (g : list placed) : Prop :=
  vm_ordering (rb_blobs_at rb) = Greater /\ vm_ok (rb_blobs_at rb) /\ group_ok (rb_build rb) g.

Lemma read_builder_new_ok s e meta max :
  0 <= s < e -> exists rb, read_builder_new s e meta max = Some rb /\ reader_ok rb [(s, e, meta)].
Proof.
  intros Hse. unfold read_builder_new, builder_new_impl. cbn. eexists. split; [done|].
  split_and!; [done|repeat constructor|].
  pose proof (div_ceil_bounds e CHUNK_SIZE eq_refl). pose proof (Z.div_mod s CHUNK_SIZE ltac:(done)).
  pose proof (Z.mod_pos_bound s CHUNK_SIZE eq_refl). unfold rb_build. cbn.
  split; cbn [vr_start vr_end vr_blobs_at vm_data map].
  - done.
  - apply Z.mod_mul. done.
  - unfold CHUNK_SIZE in *. split; [|lia]. pose proof (Z.div_pos s 512). lia.
  - apply Forall_singleton. cbn. lia.
  - by exists (s, e, meta).
Qed.

Lemma rb_extend_ok rb g s e meta :
  reader_ok rb g -> placed_ok (g ++ [(s, e, meta)]) ->
  exists x rb', rb_extend rb s e meta = Some (x, rb')
  /\ match x with Yes => reader_ok rb' (g ++ [(s, e, meta)]) | No => rb' = rb end.
Proof.
  intros (Ho & Hv & Hg) Hp. apply placed_ok_app in Hp as (Hp1 & [[Hse _]%Forall_cons _] & Hp3). cbn [fst snd] in Hse.
  assert (forall b, b ∈ g -> b.1.2 <= s) as Hbs by (intros b Hb; by apply (Hp3 b (s, e, meta) Hb); left). clear Hp3.
  destruct Hg as [G1 G2 G3 G4 (last_b & Hlast & Hend)]. cbn [rb_build vr_start vr_end vr_blobs_at] in *.
  assert (last_b ∈ g) as Hlb by by apply last_Some_elem_of.
  pose proof (div_ceil_bounds e CHUNK_SIZE eq_refl) as He. pose proof (Z.div_mod s CHUNK_SIZE ltac:(done)).
  pose proof (Z.mod_pos_bound s CHUNK_SIZE eq_refl). pose proof (Hbs _ Hlb) as Hls.
  pose proof (div_ceil_bounds last_b.1.2 CHUNK_SIZE eq_refl) as Hl2.
  assert (Forall (fun b => rb_start_blk_no rb * CHUNK_SIZE <= b.1.1 /\ b.1.2 <= rb_end_blk_no rb * CHUNK_SIZE) g) as G4' by done.
  rewrite Forall_forall in G4. pose proof (G4 _ Hlb) as [G5 G6]. destruct Hp1 as [Hp1 _]. rewrite Forall_forall in Hp1.
  pose proof (Hp1 _ Hlb) as Hlb'. unfold CHUNK_SIZE in *.
  unfold rb_extend, CHUNK_SIZE. cbv zeta.
  set (lim := match rb_max_read_size rb with Some _ => _ | None => _ end).
  assert (exists nl, lim = Some nl) as [nl ->].
  { unfold lim. destruct (rb_max_read_size rb); [|by eexists]. unfold checked_sub. rewrite decide_True by lia. by eexists. }
  cbn [mbind option_bind].
  destruct ((bool_decide (rb_end_blk_no rb = s / 512 + 1) || bool_decide (rb_end_blk_no rb = s / 512)) && nl) eqn:Eadj;
    [|by exists No, rb].
  pose proof (append_ok (rb_blobs_at rb) s meta Hv) as Ha. destruct (vm_append (rb_blobs_at rb) s meta) as [er|bl].
  { exfalso. destruct Ha as [_ Hns]. apply Hns. rewrite Ho. apply sorted_snoc; [by unfold vm_ok in Hv; rewrite Ho in Hv|].
    rewrite G1. intros [x mx] Hx. change (last ((fun b : placed => (b.1.1, b.2)) <$> g) = Some (x, mx)) in Hx.
    rewrite fmap_last, Hlast in Hx. injection Hx as <- <-. cbn. lia. }
  destruct Ha as (Hv' & Hd & Ho'). exists Yes. eexists. split; [done|]. split_and!; [cbn; congruence|done|].
  assert (last_b.1.1 < e) by lia.
  split; cbn [rb_build vr_start vr_end vr_blobs_at rb_start_blk_no rb_end_blk_no rb_blobs_at].
  - rewrite Hd, G1, map_app. done.
  - done.
  - unfold CHUNK_SIZE. lia.
  - unfold CHUNK_SIZE. apply Forall_app. split; [|apply Forall_singleton; cbn; lia].
    eapply Forall_impl; [exact G4'|]. intros b [? ?]. cbn in *. split; [lia|].
    enough (rb_end_blk_no rb <= div_ceil e 512) by lia. nia.
  - exists (s, e, meta). by rewrite last_snoc.
Qed.

Definition finish_inv (st : option ChunkedVectoredReadBuilder * list VectoredRead) (fl : list placed) : Prop :=
  match st.1 with
  | None => fl = [] /\ st.2 = []
  | Some rb => exists groups g, concat groups ++ g = fl /\ Forall2 group_ok st.2 groups /\ reader_ok rb g
  end.

Lemma finish_blob_ok max key st blob fl :
  finish_inv st fl -> placed_ok (fl ++ flat_key key [blob]) ->
  exists st', planner_finish_blob max key st blob = Some st' /\ finish_inv st' (fl ++ flat_key key [blob]).
Proof.
  destruct st as [cur reads], blob as [[[lsn s] e] wi]. cbn [flat_key map]. intros Hi Hp.
  set (meta := mkBlobMeta key lsn wi) in *.
  assert (0 <= s < e) as Hse by (apply placed_ok_app in Hp as (_ & [[Hse _]%Forall_cons _] & _); exact Hse).
  unfold planner_finish_blob. fold meta. unfold finish_inv in Hi. cbn [fst snd] in Hi. destruct cur as [rb|].
  - destruct Hi as (groups & g & <- & Hgs & Hrb). rewrite <- app_assoc in Hp. apply placed_ok_app in Hp as (_ & Hp & _).
    destruct (rb_extend_ok rb g s e meta Hrb Hp) as (x & rb' & -> & Hx). cbn [mbind option_bind]. destruct x.
    + eexists. split; [done|]. exists groups, (g ++ [(s, e, meta)]). by rewrite app_assoc.
    + subst rb'. destruct (read_builder_new_ok s e meta max Hse) as (rb' & -> & Hrb'). cbn [mbind option_bind].
      eexists. split; [done|]. exists (groups ++ [g]), [(s, e, meta)]. cbn [fst snd]. split_and!; [|apply Forall2_app; [done|constructor; [apply Hrb|constructor]]|done].
      rewrite concat_app. cbn. by rewrite app_nil_r.
  - destruct Hi as [-> ->]. cbn [mbind option_bind].
    destruct (read_builder_new_ok s e meta max Hse) as (rb' & -> & Hrb'). cbn [mbind option_bind].
    eexists. split; [done|]. by exists [], [(s, e, meta)].
Qed.

Lemma finish_key_ok max key l : forall st fl,
  finish_inv st fl -> placed_ok (fl ++ flat_key key l) ->
  exists st', planner_finish_key max key st l = Some st' /\ finish_inv st' (fl ++ flat_key key l).
Proof.
  induction l as [|b l IH]; intros st fl Hi Hp; cbn [planner_finish_key].
  - exists st. cbn. by rewrite app_nil_r.
  - change (flat_key key (b :: l)) with (flat_key key [b] ++ flat_key key l) in *. rewrite app_assoc in *.
    pose proof Hp as (Hp1 & _ & _)%placed_ok_app.
    destruct (finish_blob_ok max key st b fl Hi Hp1) as (st' & -> & Hi'). cbn [mbind option_bind]. by apply IH.
Qed.

Lemma planner_finish_ok (self : VectoredReadPlanner) :
  placed_ok (flat_blobs (pl_blobs self)) ->
  exists reads groups, planner_finish self = Some reads
  /\ Forall2 group_ok reads groups /\ concat groups = flat_blobs (pl_blobs self).
Proof.
  intros Hp. unfold planner_finish.
  assert (forall blobs st fl, finish_inv st fl -> placed_ok (fl ++ flat_blobs blobs) ->
    exists st', planner_finish_loop (pl_max_read_size self) st blobs = Some st' /\ finish_inv st' (fl ++ flat_blobs blobs)) as Hloop.
  { induction blobs as [|[key l] blobs IH]; intros st fl Hi Hfl; cbn [planner_finish_loop].
    - exists st. cbn. by rewrite app_nil_r.
    - change (flat_blobs ((key, l) :: blobs)) with (flat_key key l ++ flat_blobs blobs) in *. rewrite app_assoc in *.
      pose proof Hfl as (Hp1 & _ & _)%placed_ok_app.
      destruct (finish_key_ok (pl_max_read_size self) key l st fl Hi Hp1) as (st' & -> & Hi'). cbn [mbind option_bind]. by apply IH. }
  destruct (Hloop (pl_blobs self) (None, []) []) as ([cur reads] & -> & Hi); [done|done|]. cbn [mbind option_bind app] in *.
  unfold finish_inv in Hi. cbn [fst snd] in Hi. destruct cur as [rb|].
  - destruct Hi as (groups & g & <- & Hgs & _ & _ & Hg). exists (reads ++ [rb_build rb]), (groups ++ [g]).
    split_and!; [done|apply Forall2_app; [done|constructor; [exact Hg|constructor]]|]. rewrite concat_app. cbn. by rewrite app_nil_r.
  - destruct Hi as [-> ->]. by exists [], [].
Qed.

(** ** Executing a read *)

(** Up to [limit] the file can be read and has these contents. *)
Definition file_holds (file : VirtualFile) (limit : Z) (bytes : list byte) : Prop :=
  limit <= Z.of_nat (length bytes)
  /\ forall a n, 0 <= a -> 0 < n -> a + n <= limit -> file a n = inr (take (Z.to_nat n) (drop (Z.to_nat a) bytes)).

Section read.
Context `{!Zstd}.

(** A blob with the contents [data] starts at [s] and ends before [e]. *)
Definition stored_at (bytes : list byte) (s e : Z) (data : list byte) : Prop :=
  exists l1 enc l2, bytes = l1 ++ enc ++ l2 /\ Z.of_nat (length l1) = s /\ s + Z.of_nat (length enc) <= e
  /\ blob_encodes enc data.

Lemma decode_stored bytes a n s e data meta :
  stored_at bytes s e data -> 0 <= a <= s -> e <= a + n ->
  exists vb, decode_blob a (take (Z.to_nat n) (drop (Z.to_nat a) bytes)) (s, meta) = Ok vb
  /\ vb_meta vb = meta /\ vb_read vb (take (Z.to_nat n) (drop (Z.to_nat a) bytes)) = Ok data.
Proof.
  intros (l1 & enc & l2 & -> & Hs & He & Henc) Ha Hn.
  assert (take (Z.to_nat n) (drop (Z.to_nat a) (l1 ++ enc ++ l2))
    = drop (Z.to_nat a) l1 ++ enc ++ take (Z.to_nat n - (length l1 - Z.to_nat a) - length enc) l2) as ->.
  { rewrite drop_app_le by lia. rewrite take_app_ge by (rewrite length_drop; lia). rewrite length_drop.
    rewrite take_app_ge by lia. done. }
  assert (s = a + Z.of_nat (length (drop (Z.to_nat a) l1))) as Es by (rewrite length_drop; lia).
  rewrite Es. apply decode_blob_ok; [lia|done].
Qed.

Lemma read_blobs_ok file limit bytes read g (D : placed -> list byte) capacity :
  file_holds file limit bytes -> group_ok read g -> vr_end read <= limit -> vr_size read <= capacity ->
  Forall (fun b => stored_at bytes b.1.1 b.1.2 (D b)) g ->
  exists buf blobs, read_blobs file read capacity = Ok (buf, blobs)
  /\ Forall2 (fun vb b => vb_meta vb = b.2 /\ vb_read vb buf = Ok (D b)) blobs g.
Proof.
  intros [_ Hf] [G1 G2 G3 G4 _] Hlim Hcap Hst. unfold read_blobs, vr_size in *.
  rewrite !bool_decide_true by (done || lia). cbn [ensure of_option mbind outcome_bind].
  rewrite Hf by lia. cbn [of_sum mbind outcome_bind]. set (buf := take _ _).
  assert (exists blobs, decode_blobs (vr_start read) buf (map (fun b => (b.1.1, b.2)) g) = Ok blobs
    /\ Forall2 (fun vb b => vb_meta vb = b.2 /\ vb_read vb buf = Ok (D b)) blobs g) as (blobs & Hb & Hbs).
  { clear G1. induction g as [|b g IH]; cbn [map decode_blobs]; [by eexists|].
    apply Forall_cons in G4 as [[Gs Ge] G4], Hst as [Hb Hst].
    destruct (decode_stored bytes (vr_start read) (vr_end read - vr_start read) b.1.1 b.1.2 (D b) b.2 Hb) as (vb & E1 & E2 & E3);
      [lia|lia|]. fold buf in E1, E3. rewrite E1. cbn [mbind outcome_bind].
    destruct IH as (blobs & -> & Hbs); [done|done|]. cbn [mbind outcome_bind]. eexists. split; [done|]. by constructor. }
  rewrite G1, Hb. cbn [mbind outcome_bind]. by exists buf, blobs.
Qed.
End read.
