(* ===== verification/PlannerFacts.v ===== *)
(** * What the planner collects

    The planner is fed the entries of an index in order and lags one entry behind, so
    that it knows where each blob ends.  For each key it keeps the blobs handed to it,
    from the last one that replaces all others on. *)

From S2P Require Import Prelude Lsn XlogUtils Key Shard KeySpace OrdMap LayerCoverage DiskBtree VecMap BlobIo BlobIoFacts.

(** An entry of a layer: the value of a key at an LSN, whether it initializes the
    page, where its blob starts and where the next one does, and its contents. *)
Record stored := mkStored {
  se_key : Key;
  se_lsn : Lsn;
  se_init : bool;
  se_pos : Z;
  se_end : Z;
  se_data : list byte
}.

(** Each blob ends where the next begins, the last one at [limit]. *)
Fixpoint chained (es : list stored) (limit : Z) : Prop :=
  match es with
  | [] => True
  | x :: es => match es with [] => se_end x = limit | y :: _ => se_end x = se_pos y end /\ chained es limit
  end.

Lemma chained_app l1 l2 limit : chained (l1 ++ l2) limit ->
  chained l1 (match l2 with [] => limit | y :: _ => se_pos y end) /\ chained l2 limit.
Proof.
  induction l1 as [|x l1 IH]; cbn [app chained]; [done|]. intros [Hx Hc]. destruct (IH Hc) as [IH1 IH2].
  split; [|done]. split; [|done]. destruct l1; [by destruct l2|done].
Qed.

(** ** The blobs of a key *)

Definition pl_lookup (k : Key) (blobs : ordmap Key (list planned_blob)) : list planned_blob :=
  concat (snd <$> filter (fun e => e.1 = k) blobs).

Lemma filter_oinsert {V} (k key : Key) (v : V) (m : ordmap Key V) :
  osorted m ->
  filter (fun e => e.1 = k) (oinsert key v m) = if decide (k = key) then [(key, v)] else filter (fun e => e.1 = k) m.
Proof.
  induction m as [|[k' v'] m IH]; intros Hs; cbn [oinsert].
  - rewrite filter_cons, filter_nil. cbn. repeat case_decide; naive_solver.
  - apply osorted_cons in Hs as [Hf Hs]. rewrite Forall_forall in Hf.
    assert (forall x, klt x k' -> filter (fun e : Key * V => e.1 = x) ((k', v') :: m) = []) as Hlow.
    { intros x Hx. apply filter_none. intros e He Heq. apply elem_of_cons in He as [->|He]; cbn in Heq; subst x.
      - by apply klt_irrefl in Hx.
      - apply Hf in He. cbn in He. eapply klt_irrefl, klt_trans; [exact Hx|exact He]. }
    destruct (kcmp key k') eqn:E.
    + apply kcmp_eq in E as <-. rewrite !filter_cons. cbn [fst]. repeat case_decide; try naive_solver.
      rewrite (filter_none _ m); [done|]. intros e He Heq. apply Hf in He. cbn in Heq, He. subst.
      by apply klt_irrefl in He.
    + rewrite filter_cons. cbn [fst]. repeat case_decide; try naive_solver. subst k. by rewrite Hlow.
    + rewrite !filter_cons. cbn [fst]. rewrite IH by done. repeat case_decide; try naive_solver. subst k' k.
      by rewrite kcmp_refl in E.
Qed.

Lemma pl_lookup_entry k key f blobs :
  osorted blobs ->
  pl_lookup k (blobs_entry key f blobs) = if decide (k = key) then f (pl_lookup key blobs) else pl_lookup k blobs.
Proof.
  intros Hs. unfold pl_lookup at 1, blobs_entry. rewrite filter_oinsert by done. case_decide; [|done].
  cbn. by rewrite app_nil_r.
Qed.

Definition planned (x : stored) (will_init : bool) : planned_blob := (se_lsn x, se_pos x, se_end x, will_init).

(** What [add_blob] does with one entry, and what it means for the key. *)
Definition add_stored (blobs : ordmap Key (list planned_blob)) (e : stored * BlobFlag) : ordmap Key (list planned_blob) :=
  let '(x, flag) := e in
  match flag with
  | FlagNone => blobs_entry (se_key x) (fun l => l ++ [planned x false]) blobs
  | FlagReplaceAll => blobs_entry (se_key x) (fun _ => [planned x true]) blobs
  | FlagIgnore => blobs
  end.

Definition key_step (l : list planned_blob) (e : stored * BlobFlag) : list planned_blob :=
  let '(x, flag) := e in
  match flag with
  | FlagNone => l ++ [planned x false]
  | FlagReplaceAll => [planned x true]
  | FlagIgnore => l
  end.

Lemma add_stored_sorted blobs e : osorted blobs -> osorted (add_stored blobs e).
Proof. intros Hs. destruct e as [x []]; cbn; [|done|]; by apply oinsert_sorted. Qed.

Lemma fold_add_sorted l : forall blobs, osorted blobs -> osorted (fold_left add_stored l blobs).
Proof. induction l as [|e l IH]; intros blobs Hs; [done|]. by apply IH, add_stored_sorted. Qed.

Lemma pl_lookup_fold k l : forall blobs, osorted blobs ->
  pl_lookup k (fold_left add_stored l blobs)
  = fold_left key_step (filter (fun e => se_key e.1 = k) l) (pl_lookup k blobs).
Proof.
  induction l as [|e l IH]; intros blobs Hs; [done|]. cbn [fold_left]. rewrite IH by by apply add_stored_sorted.
  rewrite filter_cons. destruct e as [x flag]. cbn [fst].
  destruct flag; cbn [add_stored]; [| |].
  - rewrite pl_lookup_entry by done. repeat case_decide; try naive_solver.
  - case_decide; done.
  - rewrite pl_lookup_entry by done. repeat case_decide; try naive_solver. 
Qed.

(** ** Feeding the planner *)

Definition run_handles (l : list (stored * BlobFlag)) (pl : VectoredReadPlanner) : VectoredReadPlanner :=
  fold_left (fun pl e => handle pl (se_key e.1) (se_lsn e.1) (se_pos e.1) e.2) l pl.

Lemma add_blob_stored pl x flag :
  add_blob pl (se_key x) (se_lsn x) (se_pos x) (se_end x) flag
  = mkPlanner (add_stored (pl_blobs pl) (x, flag)) (pl_prev pl) (pl_max_read_size pl).
Proof. by destruct flag. Qed.

Lemma run_handles_cons x flag l pl :
  run_handles ((x, flag) :: l) pl = run_handles l (handle pl (se_key x) (se_lsn x) (se_pos x) flag).
Proof. done. Qed.

Lemma run_handles_prev l : forall blobs max x flag limit,
  chained (x :: l.*1) limit ->
  handle_range_end (run_handles l (mkPlanner blobs (Some (se_key x, se_lsn x, se_pos x, flag)) max)) limit
  = mkPlanner (fold_left add_stored ((x, flag) :: l) blobs) None max.
Proof.
  induction l as [|[y fy] l IH]; intros blobs max x flag limit Hc.
  - cbn [run_handles fold_left fmap list_fmap] in *. destruct Hc as [Hx _]. unfold handle_range_end. cbn [pl_prev].
    rewrite <- Hx, add_blob_stored. done.
  - cbn [fmap list_fmap fst] in Hc. destruct Hc as [Hx Hc]. rewrite run_handles_cons. unfold handle. cbn [pl_prev].
    rewrite <- Hx at 1. rewrite add_blob_stored. cbn [with_prev pl_blobs pl_prev pl_max_read_size].
    apply (IH (add_stored blobs (x, flag)) max y fy limit Hc).
Qed.

Lemma run_handles_ok l blobs max limit :
  chained l.*1 limit ->
  handle_range_end (run_handles l (mkPlanner blobs None max)) limit = mkPlanner (fold_left add_stored l blobs) None max.
Proof.
  destruct l as [|[x flag] l]; [done|]. intros Hc. rewrite run_handles_cons. unfold handle. cbn [pl_prev].
  apply (run_handles_prev l blobs max x flag limit Hc).
Qed.
