(* ===== verification/ReconstructState.v ===== *)
(** * What a read collects ([pageserver/src/tenant/storage_layer.rs])

    Values and WAL records ([libs/wal_decoder/src/models]), and the state a vectored
    read accumulates while it visits layers: per key the values still to be read, with
    whether they suffice to reconstruct the page, and the keys that have become done.

    An I/O and the value it delivers are the two ends of a [oneshot] channel: a
    channel is its number in [vs_channels], which holds what has been sent.  The I/O
    of a layer runs when it is spawned ([IoConcurrency::Sequential]). *)

From S2P Require Import Prelude Lsn XlogUtils Key Shard KeySpace.

(** ** Values *)

(** [NeonWalRecord], without the variants of the tests. *)
Inductive NeonWalRecord : Type :=
| Postgres (will_init : bool) (rec : list byte)
| ClearVisibilityMapFlags (new_heap_blkno old_heap_blkno : option Z) (flags : Z)
| ClogSetCommitted (xids : list Z) (timestamp : Z)
| ClogSetAborted (xids : list Z)
| MultixactOffsetCreate (mid moff : Z)
| MultixactMembersCreate (moff : Z) (members : list (Z * Z))
| AuxFile (file_path : list byte) (content : option (list byte))
| TruncateVisibilityMap (trunc_byte trunc_offs : Z).

Definition record_will_init (self : NeonWalRecord) : bool :=
  match self with Postgres will_init _ => will_init | _ => false end.

Inductive Value : Type := VImage (img : list byte) | VWalRecord (rec : NeonWalRecord).

Definition is_image_value (self : Value) : bool := match self with VImage _ => true | VWalRecord _ => false end.

Definition value_will_init (self : Value) : bool :=
  match self with VImage _ => true | VWalRecord rec => record_will_init rec end.

Definition estimated_size (self : Value) : Z :=
  match self with
  | VImage image => Z.of_nat (length image)
  | VWalRecord (AuxFile _ (Some content)) => Z.of_nat (length content)
  | VWalRecord (Postgres _ rec) => Z.of_nat (length rec)
  | VWalRecord (ClogSetAborted xids) => Z.of_nat (length xids) * 4
  | VWalRecord (ClogSetCommitted xids _) => Z.of_nat (length xids) * 4
  | VWalRecord (MultixactMembersCreate _ members) => Z.of_nat (length members) * 8
  | _ => 8192
  end.

Inductive InvalidInput : Set := TooShortValue | TooShortPostgresRecord.

(** [ValueBytes::will_init]. *)
Definition value_bytes_will_init (raw : list byte) : outcome InvalidInput bool :=
  if decide (length raw < 12)%nat then Err TooShortValue else
  value_discriminator ← of_option (slice 0 4 raw);
  if decide (value_discriminator = be_bytes 4 0) then Ok true
  else if decide (value_discriminator <> be_bytes 4 1) then Ok false
  else
    walrecord_discriminator ← of_option (slice 4 8 raw);
    if decide (walrecord_discriminator <> be_bytes 4 0) then Ok false
    else if decide (length raw < 17)%nat then Err TooShortPostgresRecord
    else b ← of_option (raw !! 8%nat); Ok (bool_decide (byte_Z b = 1)).

(** [Value::ser] and [Value::des]: the big-endian [bincode] of the derived impls. *)
Class ValueCodec := {
  value_ser : Value -> list byte;
  value_des : list byte -> sum string Value
}.

(** What is serialized can be read back; an image and a Postgres record are
    serialized as the tests of [value.rs] show, other records have other tags. *)
Class ValueCodecLaws `{!ValueCodec} := {
  value_des_ser v : value_des (value_ser v) = inr v;
  value_ser_image img : value_ser (VImage img) = be_bytes 4 0 ++ be_bytes 8 (Z.of_nat (length img)) ++ img;
  value_ser_postgres wi rec :
    value_ser (VWalRecord (Postgres wi rec))
    = be_bytes 4 1 ++ be_bytes 4 0 ++ [Z_byte (if wi : bool then 1 else 0)] ++ be_bytes 8 (Z.of_nat (length rec)) ++ rec;
  value_ser_other rec :
    (forall wi r, rec <> Postgres wi r) ->
    exists tag rest, value_ser (VWalRecord rec) = be_bytes 4 1 ++ be_bytes 4 tag ++ rest /\ 0 < tag < 2 ^ 32
}.

(** ** The state of one key *)

Record ValueReconstructState := mkValueReconstructState {
  vrs_records : list (Lsn * NeonWalRecord);
  vrs_img : option (Lsn * list byte)
}.

Definition vrs_default : ValueReconstructState := mkValueReconstructState [] None.

(** [None] is the underflow. *)
Definition num_deltas (self : ValueReconstructState) : option Z :=
  let n := Z.of_nat (length (vrs_records self)) in
  match vrs_img self with Some _ => Some n | None => checked_sub n 1 end.

Inductive ValueReconstructSituation : Set := Complete | Continue.

#[global] Instance Situation_eq_dec : EqDecision ValueReconstructSituation.
Proof. solve_decision. Defined.

Inductive OnDiskValue : Type := RawImage (img : list byte) | WalRecordOrImage (buf : list byte).

Definition OnDiskValueIoResult : Type := sum string OnDiskValue.

(** The values of a key, each with the channel it will come through. *)
Record VectoredValueReconstructState := mkVectoredState {
  vv_on_disk_values : list (Lsn * nat);
  vv_situation : ValueReconstructSituation
}.

Definition vv_default : VectoredValueReconstructState := mkVectoredState [] Continue.

Inductive OnDiskValueIo : Type := Required (tx : nat) | Unnecessary.

Inductive PageReconstructError : Type := PreOther (msg : string) | PreCancelled | PreWalRedo (msg : string).

(** ** The state of a read *)

#[global] Instance Key_countable : Countable Key.
Proof.
  refine (inj_countable key_fields
    (fun l => match l with [a; b; c; d; e; f] => Some (mkKey a b c d e f) | _ => None end) _). by intros [].
Defined.

Record ValuesReconstructState := mkValuesState {
  vs_keys : gmap Key VectoredValueReconstructState;
  vs_keys_done : list KRange;
  vs_keys_with_image_coverage : option KRange;
  vs_layers_visited : Z;
  vs_delta_layers_visited : Z;
  vs_channels : list (option OnDiskValueIoResult);
  vs_num_active_ios : Z
}.

Definition vs_new : ValuesReconstructState := mkValuesState ∅ [] None 0 0 [] 0.

(** [OnDiskValueIo::complete]: the value is sent through the channel. *)
Definition io_complete (io : OnDiskValueIo) (res : OnDiskValueIoResult) (st : ValuesReconstructState) :
    ValuesReconstructState :=
  match io with
  | Required tx =>
      mkValuesState (vs_keys st) (vs_keys_done st) (vs_keys_with_image_coverage st) (vs_layers_visited st)
        (vs_delta_layers_visited st) (<[tx := Some res]> (vs_channels st)) (vs_num_active_ios st - 1)
  | Unnecessary => st
  end.

Definition on_layer_visited (is_persistent_delta : bool) (st : ValuesReconstructState) : ValuesReconstructState :=
  mkValuesState (vs_keys st) (vs_keys_done st) (vs_keys_with_image_coverage st) (vs_layers_visited st + 1)
    (if is_persistent_delta then vs_delta_layers_visited st + 1 else vs_delta_layers_visited st)
    (vs_channels st) (vs_num_active_ios st).

Definition on_image_layer_visited (key_range : KRange) (st : ValuesReconstructState) : option ValuesReconstructState :=
  match vs_keys_with_image_coverage st with
  | None =>
      Some (mkValuesState (vs_keys st) (vs_keys_done st) (Some key_range) (vs_layers_visited st)
              (vs_delta_layers_visited st) (vs_channels st) (vs_num_active_ios st))
  | Some _ => None
  end.

Definition update_key (key : Key) (lsn : Lsn) (completes : bool) (st : ValuesReconstructState) :
    option (OnDiskValueIo * ValuesReconstructState) :=
  let state := default vv_default (vs_keys st !! key) in
  let is_sparse_key := is_sparse key in
  match vv_situation state with
  | Complete =>
      if is_sparse_key
      then Some (Unnecessary,
                 mkValuesState (<[key := state]> (vs_keys st)) (vs_keys_done st) (vs_keys_with_image_coverage st)
                   (vs_layers_visited st) (vs_delta_layers_visited st) (vs_channels st) (vs_num_active_ios st))
      else None
  | Continue =>
      let tx := length (vs_channels st) in
      let state := mkVectoredState (vv_on_disk_values state ++ [(lsn, tx)]) (if completes then Complete else Continue) in
      keys_done ←
        (if completes && negb is_sparse_key
         then range ← singleton_range key; Some (kra_add_range (vs_keys_done st) range)
         else Some (vs_keys_done st));
      Some (Required tx,
            mkValuesState (<[key := state]> (vs_keys st)) keys_done (vs_keys_with_image_coverage st)
              (vs_layers_visited st) (vs_delta_layers_visited st) (vs_channels st ++ [None]) (vs_num_active_ios st + 1))
  end.

Definition consume_done_keys (st : ValuesReconstructState) :
    option (KeySpace * option KRange * ValuesReconstructState) :=
  keys_done ← kra_to_keyspace (vs_keys_done st);
  Some (keys_done, vs_keys_with_image_coverage st,
        mkValuesState (vs_keys st) [] None (vs_layers_visited st) (vs_delta_layers_visited st) (vs_channels st)
          (vs_num_active_ios st)).

(** ** Collecting the values of a key *)

Section collect.
Context `{!ValueCodec}.

(** One iteration of the loop of [collect_pending_ios]; [received] is what the
    channel delivers, [None] when its sender was dropped. *)
Definition collect_io (res : outcome PageReconstructError ValueReconstructState) (lsn : Lsn)
    (received : option OnDiskValueIoResult) : outcome PageReconstructError ValueReconstructState :=
  let set_img ok img :=
    match vrs_img ok with
    | None => Ok (mkValueReconstructState (vrs_records ok) (Some (lsn, img)))
    | Some _ => Panic
    end in
  match res with
  | Ok ok =>
      match received with
      | None => Err (PreOther "OnDiskValueIo was dropped without completing, likely the sidecar task panicked")
      | Some (inl err) => Err (PreOther err)
      | Some (inr (RawImage img)) => set_img ok img
      | Some (inr (WalRecordOrImage buf)) =>
          match value_des buf with
          | inr (VWalRecord rec) => Ok (mkValueReconstructState (vrs_records ok ++ [(lsn, rec)]) (vrs_img ok))
          | inr (VImage img) => set_img ok img
          | inl err => Err (PreOther err)
          end
      end
  | _ => res
  end.

Definition collect_pending_ios (channels : list (option OnDiskValueIoResult)) (self : VectoredValueReconstructState) :
    outcome PageReconstructError ValueReconstructState :=
  fold_left (fun res e => collect_io res e.1 (mjoin (channels !! e.2))) (vv_on_disk_values self) (Ok vrs_default).
End collect.
