(* ===== verification/LayerFile.v ===== *)
(** * Layer files ([pageserver/src/tenant/storage_layer/delta_layer.rs], [image_layer.rs])

    A layer file has a summary in its first block, then the values as blobs, then the
    B-tree that maps keys (of a delta layer: keys with LSNs) to the offsets of blobs.
    Here are the writers of both kinds of layer, loading a file, and the part of the
    read path that plans and executes the reads of a layer.  The [bincode] form of the
    summaries is the class [SummaryCodec].  Errors of writes are not modelled; errors
    of reads are those of the file. *)

From S2P Require Import Prelude Lsn XlogUtils Key Shard KeySpace OrdMap LayerCoverage LayerName.
From S2P Require Import DiskBtree VecMap BlobIo ReconstructState.

(** ** Errors of the read path *)

Inductive GetVectoredError : Type :=
| GvCancelled
| GvOversized (n max : Z)
| GvInvalidLsn (lsn : Lsn)
| GvMissingKey (keyspace : KeySpace) (original_hwm_lsn : Lsn) (ancestor_lsn : Lsn)
| GvOther (msg : string).

(** What a run ends with; [GvNoFuel] is no behaviour of the code. *)
Inductive gv_fail : Type := Gv (e : GetVectoredError) | GvNoFuel.

(** ** Keys and values of the index *)

Definition DELTA_KEY_SIZE : nat := KEY_SIZE + 8.

Definition delta_key_from_key_lsn (key : Key) (lsn : Lsn) : list byte := write_to_byte_slice key ++ be_bytes 8 lsn.

Definition delta_key_key (self : list byte) : option Key := from_slice self.

Definition extract_lsn_from_buf (buf : list byte) : option Lsn :=
  lsn_buf ← slice KEY_SIZE (length buf) buf;
  if decide (length lsn_buf = 8%nat) then Some (be_Z lsn_buf) else None.

Definition WILL_INIT : Z := 1.

Definition blob_ref_will_init (self : Z) : bool := negb (bool_decide (Z.land self WILL_INIT = 0)).
Definition blob_ref_pos (self : Z) : Z := Z.shiftr self 1.
Definition blob_ref_new (pos : Z) (will_init : bool) : Z :=
  let blob_ref := wrap 64 (Z.shiftl pos 1) in
  if will_init then Z.lor blob_ref WILL_INIT else blob_ref.

(** ** Summaries *)

Definition STORAGE_FORMAT_VERSION : Z := 3.
Definition IMAGE_FILE_MAGIC : Z := 0x5A60.
Definition DELTA_FILE_MAGIC : Z := 0x5A61.
Definition S3_UPLOAD_LIMIT : Z := 4500000000.

Record DeltaSummary := mkDeltaSummary {
  ds_magic : Z; ds_format_version : Z; ds_tenant_id : Id; ds_timeline_id : Id;
  ds_key_range : KRange; ds_lsn_range : Range Lsn; ds_index_start_blk : Z; ds_index_root_blk : Z
}.

Record ImageSummary := mkImageSummary {
  is_magic : Z; is_format_version : Z; is_tenant_id : Id; is_timeline_id : Id;
  is_key_range : KRange; is_lsn : Lsn; is_index_start_blk : Z; is_index_root_blk : Z
}.

#[global] Instance DeltaSummary_eq_dec : EqDecision DeltaSummary.
Proof. unfold EqDecision, Decision, Id. decide equality; solve_decision. Defined.
#[global] Instance ImageSummary_eq_dec : EqDecision ImageSummary.
Proof. unfold EqDecision, Decision, Id. decide equality; solve_decision. Defined.

Class SummaryCodec := {
  delta_ser : DeltaSummary -> list byte;
  delta_des_prefix : list byte -> sum string DeltaSummary;
  image_ser : ImageSummary -> list byte;
  image_des_prefix : list byte -> sum string ImageSummary
}.

(** The fields have the widths of their types. *)
Definition delta_summary_wf (s : DeltaSummary) : Prop :=
  in_u 16 (ds_magic s) /\ in_u 16 (ds_format_version s) /\ length (ds_tenant_id s) = 16%nat /\ length (ds_timeline_id s) = 16%nat
  /\ (key_wf (start (ds_key_range s)) /\ key_wf (end_ (ds_key_range s)))
  /\ (in_u 64 (start (ds_lsn_range s)) /\ in_u 64 (end_ (ds_lsn_range s)))
  /\ in_u 32 (ds_index_start_blk s) /\ in_u 32 (ds_index_root_blk s).

Definition image_summary_wf (s : ImageSummary) : Prop :=
  in_u 16 (is_magic s) /\ in_u 16 (is_format_version s) /\ length (is_tenant_id s) = 16%nat /\ length (is_timeline_id s) = 16%nat
  /\ (key_wf (start (is_key_range s)) /\ key_wf (end_ (is_key_range s)))
  /\ in_u 64 (is_lsn s) /\ in_u 32 (is_index_start_blk s) /\ in_u 32 (is_index_root_blk s).

(** [des_prefix] reads back what was written, whatever follows; a summary fits into
    its block. *)
Class SummaryCodecLaws `{!SummaryCodec} := {
  delta_des_ser s rest : delta_summary_wf s -> delta_des_prefix (delta_ser s ++ rest) = inr s;
  delta_ser_fits s : delta_summary_wf s -> (length (delta_ser s) <= PAGE_SZ)%nat;
  image_des_ser s rest : image_summary_wf s -> image_des_prefix (image_ser s ++ rest) = inr s;
  image_ser_fits s : image_summary_wf s -> (length (image_ser s) <= PAGE_SZ)%nat
}.

(** [Summary::expected]. *)
Definition delta_summary_expected (tenant_id timeline_id : Id) (keys : KRange) (lsns : Range Lsn) : DeltaSummary :=
  mkDeltaSummary DELTA_FILE_MAGIC STORAGE_FORMAT_VERSION tenant_id timeline_id keys lsns 0 0.
Definition image_summary_expected (tenant_id timeline_id : Id) (key_range : KRange) (lsn : Lsn) : ImageSummary :=
  mkImageSummary IMAGE_FILE_MAGIC STORAGE_FORMAT_VERSION tenant_id timeline_id key_range lsn 0 0.

(** [ser_into_page]: zeroes up to the capacity of the buffer. *)
Definition into_page (bytes : list byte) : list byte := bytes ++ replicate (PAGE_SZ - length bytes) (Z_byte 0).

(** ** Files *)

(** The file with these contents. *)
Definition file_of (bytes : list byte) : VirtualFile := fun offset len =>
  match slice (Z.to_nat offset) (Z.to_nat offset + Z.to_nat len) bytes with
  | Some part => inr part
  | None => inl "failed to fill whole buffer"%string
  end.

(** [FileBlockReader::read_blk]. *)
Definition file_read_blk (file : VirtualFile) (blknum : Z) : outcome string (list byte) :=
  of_sum (file (blknum * Z.of_nat PAGE_SZ) (Z.of_nat PAGE_SZ)).

Definition index_read_blk (file : VirtualFile) (blknum : Z) : outcome btree_fail (list byte) :=
  match file_read_blk file blknum with
  | Ok buf => Ok buf
  | Err _ => Err (BtreeError IoError)
  | Panic => Panic
  end.

Inductive PutError : Type := PutWriteBlob (e : WriteBlobError) | PutOther (msg : string).

Definition of_append {A} (r : outcome btree_fail A) : outcome PutError A :=
  match r with Ok a => Ok a | Err _ => Err (PutOther "append") | Panic => Panic end.

Definition of_write {A} (r : outcome WriteBlobError A) : outcome PutError A :=
  match r with Ok a => Ok a | Err e => Err (PutWriteBlob e) | Panic => Panic end.

Section layer_file.
Context `{!Zstd, !ValueCodec, !SummaryCodec}.

(** ** Writing a delta layer *)

Record DeltaLayerWriterInner := mkDeltaWriter {
  dw_timeline_id : Id;
  dw_tenant_shard_id : TenantShardId;
  dw_key_start : Key;
  dw_lsn_range : Range Lsn;
  dw_tree : DiskBtreeBuilder;
  dw_blob_writer : BlobWriter;
  dw_num_keys : Z
}.

Definition delta_writer_new (timeline_id : Id) (tenant_shard_id : TenantShardId) (key_start : Key)
    (lsn_range : Range Lsn) : DeltaLayerWriterInner :=
  mkDeltaWriter timeline_id tenant_shard_id key_start lsn_range (builder_new []) (bw_new (Z.of_nat PAGE_SZ)) 0.

Definition delta_put_value_bytes (self : DeltaLayerWriterInner) (key : Key) (lsn : Lsn) (val : list byte)
    (will_init : bool) : outcome PutError DeltaLayerWriterInner :=
  _ ← of_option (ensure (bool_decide (start (dw_lsn_range self) <= lsn)));
  '(off, _, blob_writer) ← of_write (write_blob_maybe_compressed (dw_blob_writer self) val Disabled);
  let blob_ref := blob_ref_new off will_init in
  let delta_key := delta_key_from_key_lsn key lsn in
  tree ← of_append (btree_append DELTA_KEY_SIZE (dw_tree self) delta_key blob_ref);
  Ok (mkDeltaWriter (dw_timeline_id self) (dw_tenant_shard_id self) (dw_key_start self) (dw_lsn_range self) tree
        blob_writer (dw_num_keys self + 1)).

Definition delta_put_value (self : DeltaLayerWriterInner) (key : Key) (lsn : Lsn) (val : Value) :
    outcome PutError DeltaLayerWriterInner :=
  delta_put_value_bytes self key lsn (value_ser val) (value_will_init val).

(** The descriptor of the layer and the contents of its file. *)
Definition delta_finish (self : DeltaLayerWriterInner) (key_end : Key) :
    outcome PutError (PersistentLayerDesc * list byte) :=
  let index_start_blk := wrap 32 (div_ceil (bw_offset (dw_blob_writer self)) (Z.of_nat PAGE_SZ)) in
  let values := zero_pad PAGE_SZ (bw_bytes (dw_blob_writer self)) in
  '(index_root_blk, blocks) ← of_append (btree_finish DELTA_KEY_SIZE 64 (dw_tree self));
  _ ← of_option (ensure (bool_decide (start (dw_lsn_range self) < end_ (dw_lsn_range self))));
  let key_range := mkRange (dw_key_start self) key_end in
  let summary :=
    mkDeltaSummary DELTA_FILE_MAGIC STORAGE_FORMAT_VERSION (ts_tenant_id (dw_tenant_shard_id self))
      (dw_timeline_id self) key_range (dw_lsn_range self) index_start_blk index_root_blk in
  let file := into_page (delta_ser summary) ++ values ++ concat blocks in
  if decide (S3_UPLOAD_LIMIT < Z.of_nat (length file)) then Err (PutOther "above limit")
  else Ok (desc_new_delta (dw_tenant_shard_id self) (dw_timeline_id self) key_range (dw_lsn_range self)
             (Z.of_nat (length file)), file).

(** ** Writing an image layer *)

Record ImageLayerWriterInner := mkImageWriter {
  iw_timeline_id : Id;
  iw_tenant_shard_id : TenantShardId;
  iw_key_range : KRange;
  iw_lsn : Lsn;
  iw_compression : ImageCompressionAlgorithm;
  iw_uncompressed_bytes : Z;
  iw_uncompressed_bytes_eligible : Z;
  iw_uncompressed_bytes_chosen : Z;
  iw_num_keys : Z;
  iw_blob_writer : BlobWriter;
  iw_tree : DiskBtreeBuilder
}.

Definition image_writer_new (compression : ImageCompressionAlgorithm) (timeline_id : Id)
    (tenant_shard_id : TenantShardId) (key_range : KRange) (lsn : Lsn) : ImageLayerWriterInner :=
  mkImageWriter timeline_id tenant_shard_id key_range lsn compression 0 0 0 0 (bw_new (Z.of_nat PAGE_SZ)) (builder_new []).

Definition put_image (self : ImageLayerWriterInner) (key : Key) (img : list byte) :
    outcome PutError ImageLayerWriterInner :=
  if negb (range_contains (iw_key_range self) key) then Err (PutOther "key not in range") else
  let uncompressed_len := Z.of_nat (length img) in
  '(off, compression_info, blob_writer) ←
    of_write (write_blob_maybe_compressed (iw_blob_writer self) img (iw_compression self));
  let eligible := match compressed_size compression_info with Some _ => uncompressed_len | None => 0 end in
  let chosen := if written_compressed compression_info then uncompressed_len else 0 in
  tree ← of_append (btree_append KEY_SIZE (iw_tree self) (write_to_byte_slice key) off);
  Ok (mkImageWriter (iw_timeline_id self) (iw_tenant_shard_id self) (iw_key_range self) (iw_lsn self)
        (iw_compression self) (iw_uncompressed_bytes self + uncompressed_len)
        (iw_uncompressed_bytes_eligible self + eligible) (iw_uncompressed_bytes_chosen self + chosen)
        (iw_num_keys self + 1) blob_writer tree).

Definition put_image_raw (self : ImageLayerWriterInner) (key : Key) (raw : list byte) :
    outcome PutError ImageLayerWriterInner :=
  if negb (range_contains (iw_key_range self) key) then Err (PutOther "key not in range") else
  '(offset, blob_writer) ← of_write (write_blob_raw (iw_blob_writer self) raw);
  tree ← of_append (btree_append KEY_SIZE (iw_tree self) (write_to_byte_slice key) offset);
  Ok (mkImageWriter (iw_timeline_id self) (iw_tenant_shard_id self) (iw_key_range self) (iw_lsn self)
        (iw_compression self) (iw_uncompressed_bytes self) (iw_uncompressed_bytes_eligible self)
        (iw_uncompressed_bytes_chosen self) (iw_num_keys self + 1) blob_writer tree).

Definition image_finish (self : ImageLayerWriterInner) (end_key : option Key) :
    outcome PutError (PersistentLayerDesc * list byte) :=
  let index_start_blk := wrap 32 (div_ceil (bw_offset (iw_blob_writer self)) (Z.of_nat PAGE_SZ)) in
  let values := zero_pad PAGE_SZ (bw_bytes (iw_blob_writer self)) in
  '(index_root_blk, blocks) ← of_append (btree_finish KEY_SIZE 64 (iw_tree self));
  let final_key_range :=
    match end_key with Some end_key => mkRange (start (iw_key_range self)) end_key | None => iw_key_range self end in
  let summary :=
    mkImageSummary IMAGE_FILE_MAGIC STORAGE_FORMAT_VERSION (ts_tenant_id (iw_tenant_shard_id self))
      (iw_timeline_id self) final_key_range (iw_lsn self) index_start_blk index_root_blk in
  let file := into_page (image_ser summary) ++ values ++ concat blocks in
  desc ← of_option (desc_new_img (iw_tenant_shard_id self) (iw_timeline_id self) final_key_range (iw_lsn self)
                      (Z.of_nat (length file)));
  Ok (desc, file).

(** ** Loading *)

Record DeltaLayerInner := mkDeltaLayer {
  dl_index_start_blk : Z;
  dl_index_root_blk : Z;
  dl_file : VirtualFile;
  dl_key_range : KRange;
  dl_lsn_range : Range Lsn;
  dl_max_vectored_read_bytes : option Z
}.

Record ImageLayerInner := mkImageLayer {
  ml_index_start_blk : Z;
  ml_index_root_blk : Z;
  ml_key_range : KRange;
  ml_lsn : Lsn;
  ml_file : VirtualFile;
  ml_max_vectored_read_bytes : option Z
}.

Definition delta_load (file : VirtualFile) (summary : option DeltaSummary) (max_vectored_read_bytes : option Z) :
    outcome string DeltaLayerInner :=
  summary_blk ← file_read_blk file 0;
  actual ← of_sum (delta_des_prefix summary_blk);
  let loaded :=
    mkDeltaLayer (ds_index_start_blk actual) (ds_index_root_blk actual) file (ds_key_range actual) (ds_lsn_range actual)
      max_vectored_read_bytes in
  match summary with
  | Some e =>
      let expected :=
        mkDeltaSummary (ds_magic e) (ds_format_version e) (ds_tenant_id e) (ds_timeline_id actual) (ds_key_range e)
          (ds_lsn_range e) (ds_index_start_blk actual) (ds_index_root_blk actual) in
      if decide (actual = expected) then Ok loaded
      else Err "in-file summary does not match expected summary"
  | None => Ok loaded
  end.

Definition image_load (file : VirtualFile) (lsn : Lsn) (summary : option ImageSummary)
    (max_vectored_read_bytes : option Z) : outcome string ImageLayerInner :=
  summary_blk ← file_read_blk file 0;
  actual ← of_sum (image_des_prefix summary_blk);
  let loaded :=
    mkImageLayer (is_index_start_blk actual) (is_index_root_blk actual) (is_key_range actual) lsn file
      max_vectored_read_bytes in
  match summary with
  | Some e =>
      let expected :=
        mkImageSummary (is_magic e) (is_format_version e) (is_tenant_id e) (is_timeline_id actual) (is_key_range e)
          (is_lsn e) (is_index_start_blk actual) (is_index_root_blk actual) in
      if decide (actual = expected) then Ok loaded
      else Err "in-file summary does not match expected summary"
  | None => Ok loaded
  end.

(** ** Planning the reads of a layer *)

Definition index_stream (fuel : nat) (file : VirtualFile) (start_blk root_blk : Z) (start_key : list byte) :
    list (list byte * Z) * outcome btree_fail unit :=
  into_stream (index_read_blk file) start_blk root_blk fuel start_key.

(** How an exhausted stream ends the loop of a range. *)
Definition stream_end (r : outcome btree_fail unit) : outcome gv_fail unit :=
  match r with
  | Ok _ => Ok tt
  | Err (BtreeError _) => Err (Gv (GvOther "index"))
  | Err NoFuel => Err GvNoFuel
  | Panic => Panic
  end.

(** The loop over the stream of one range; also whether it was left with [break]. *)
Fixpoint delta_plan_items (range : KRange) (lsn_range : Range Lsn) (items : list (list byte * Z))
    (planner : VectoredReadPlanner) : option (VectoredReadPlanner * bool) :=
  match items with
  | [] => Some (planner, false)
  | (raw_key, value) :: items =>
      key ← (slice 0 KEY_SIZE raw_key ≫= from_slice);
      lsn ← extract_lsn_from_buf raw_key;
      _ ← ensure (key_leb (start range) key);
      let outside_lsn_range := negb (bool_decide (start lsn_range <= lsn < end_ lsn_range)) in
      let flag :=
        if outside_lsn_range then FlagIgnore
        else if blob_ref_will_init value then FlagReplaceAll
        else FlagNone in
      at_end ←
        (if key_leb (end_ range) key then Some true
         else next ← key_next key; Some (bool_decide (next = end_ range) && bool_decide (end_ lsn_range <= lsn)));
      if at_end : bool then Some (handle_range_end planner (blob_ref_pos value), true)
      else delta_plan_items range lsn_range items (handle planner key lsn (blob_ref_pos value) flag)
  end.

Fixpoint delta_plan_ranges (fuel : nat) (self : DeltaLayerInner) (ranges : list KRange) (lsn_range : Range Lsn)
    (data_end_offset : Z) (planner : VectoredReadPlanner) : outcome gv_fail VectoredReadPlanner :=
  match ranges with
  | [] => Ok planner
  | range :: ranges =>
      let start_key := delta_key_from_key_lsn (start range) (start lsn_range) in
      let '(items, r) := index_stream fuel (dl_file self) (dl_index_start_blk self) (dl_index_root_blk self) start_key in
      '(planner, range_end_handled) ← of_option (delta_plan_items range lsn_range items planner);
      planner ←
        (if range_end_handled : bool then Ok planner
         else _ ← stream_end r; Ok (handle_range_end planner data_end_offset));
      delta_plan_ranges fuel self ranges lsn_range data_end_offset planner
  end.

Definition delta_plan_reads (fuel : nat) (self : DeltaLayerInner) (keyspace : KeySpace) (lsn_range : Range Lsn)
    (planner : VectoredReadPlanner) : outcome gv_fail (list VectoredRead) :=
  let data_end_offset := dl_index_start_blk self * Z.of_nat PAGE_SZ in
  planner ← delta_plan_ranges fuel self (ranges keyspace) lsn_range data_end_offset planner;
  of_option (planner_finish planner).

(** With a shard identity, the keys that are not of the shard are ignored. *)
Fixpoint image_plan_items (lsn : Lsn) (range : KRange) (shard_identity : option ShardIdentity)
    (items : list (list byte * Z)) (planner : VectoredReadPlanner) : option (VectoredReadPlanner * bool) :=
  match items with
  | [] => Some (planner, false)
  | (raw_key, offset) :: items =>
      key ← (slice 0 KEY_SIZE raw_key ≫= from_slice);
      _ ← ensure (key_leb (start range) key);
      flag ←
        match shard_identity with
        | Some shard_identity => b ← is_key_disposable shard_identity key; Some (if b : bool then FlagIgnore else FlagNone)
        | None => Some FlagNone
        end;
      if key_leb (end_ range) key then Some (handle_range_end planner offset, true)
      else image_plan_items lsn range shard_identity items (handle planner key lsn offset flag)
  end.

Fixpoint image_plan_ranges (fuel : nat) (self : ImageLayerInner) (ranges : list KRange)
    (shard_identity : option ShardIdentity) (planner : VectoredReadPlanner) : outcome gv_fail VectoredReadPlanner :=
  match ranges with
  | [] => Ok planner
  | range :: ranges =>
      let search_key := write_to_byte_slice (start range) in
      let '(items, r) := index_stream fuel (ml_file self) (ml_index_start_blk self) (ml_index_root_blk self) search_key in
      '(planner, range_end_handled) ← of_option (image_plan_items (ml_lsn self) range shard_identity items planner);
      planner ←
        (if range_end_handled : bool then Ok planner
         else _ ← stream_end r;
              let payload_end := ml_index_start_blk self * Z.of_nat PAGE_SZ in
              Ok (handle_range_end planner payload_end));
      image_plan_ranges fuel self ranges shard_identity planner
  end.

Definition image_plan_reads (fuel : nat) (self : ImageLayerInner) (keyspace : KeySpace)
    (shard_identity : option ShardIdentity) : outcome gv_fail (list VectoredRead) :=
  max ← of_option (ml_max_vectored_read_bytes self);
  planner ← image_plan_ranges fuel self (ranges keyspace) shard_identity (planner_new max);
  of_option (planner_finish planner).

(** ** Executing them *)

(** The [HashMap] of the I/Os of one read. *)
Abbreviation ios_map := (list (Key * Lsn * OnDiskValueIo)).

Definition ios_remove (k : Key * Lsn) (ios : ios_map) : option (OnDiskValueIo * ios_map) :=
  match filter (fun e => e.1 = k) ios with
  | e :: _ => Some (e.2, filter (fun e => e.1 <> k) ios)
  | [] => None
  end.

Definition ios_insert (k : Key * Lsn) (io : OnDiskValueIo) (ios : ios_map) : ios_map :=
  filter (fun e => e.1 <> k) ios ++ [(k, io)].

(** [update_key] for every blob. *)
Fixpoint update_blobs (completes : BlobMeta -> bool) (blobs : list (Z * BlobMeta)) (ios : ios_map)
    (st : ValuesReconstructState) : option (ios_map * ValuesReconstructState) :=
  match blobs with
  | [] => Some (ios, st)
  | (_, meta) :: blobs =>
      '(io, st) ← update_key (bm_key meta) (bm_lsn meta) (completes meta) st;
      update_blobs completes blobs (ios_insert (bm_key meta, bm_lsn meta) io ios) st
  end.

Fixpoint complete_blobs (on_disk : list byte -> OnDiskValue) (buf : list byte) (blobs : list VectoredBlob)
    (ios : ios_map) (st : ValuesReconstructState) : option (ios_map * ValuesReconstructState) :=
  match blobs with
  | [] => Some (ios, st)
  | blob :: blobs =>
      '(io, ios) ← ios_remove (bm_key (vb_meta blob), bm_lsn (vb_meta blob)) ios;
      res ← match vb_read blob buf with
            | Ok b => Some (inr (on_disk b))
            | Err e => Some (inl e)
            | Panic => None
            end;
      complete_blobs on_disk buf blobs ios (io_complete io res st)
  end.

Definition fail_ios (ios : ios_map) (st : ValuesReconstructState) : ValuesReconstructState :=
  fold_left (fun st e => io_complete e.2 (inl "vec read failed"%string) st) ios st.

(** The I/O of one read; [order] is the order in which its blobs are taken. *)
Definition execute_read (file : VirtualFile) (order : list VectoredBlob -> list VectoredBlob)
    (on_disk : list byte -> OnDiskValue) (buf_size : Z) (read : VectoredRead) (ios : ios_map)
    (st : ValuesReconstructState) : option ValuesReconstructState :=
  match read_blobs file read buf_size with
  | Ok (buf, blobs) =>
      '(ios, st) ← complete_blobs on_disk buf (order blobs) ios st;
      match ios with [] => Some st | _ => None end
  | Err _ => Some (fail_ios ios st)
  | Panic => None
  end.

Definition get_min_read_buffer_size (planned_reads : list VectoredRead) (read_size_soft_max : Z) : Z :=
  match planned_reads with
  | [] => read_size_soft_max
  | _ => fold_right (fun read acc => Z.max (vr_size read) acc) 0 planned_reads
  end.

Fixpoint delta_do_reads (file : VirtualFile) (buf_size : Z) (reads : list VectoredRead)
    (st : ValuesReconstructState) : option ValuesReconstructState :=
  match reads with
  | [] => Some st
  | read :: reads =>
      '(ios, st) ← update_blobs bm_will_init (rev (vm_data (vr_blobs_at read))) [] st;
      st ← execute_read file (@rev _) WalRecordOrImage buf_size read ios st;
      delta_do_reads file buf_size reads st
  end.

(** From the highest key and LSN down. *)
Definition delta_do_reads_and_update_state (self : DeltaLayerInner) (reads : list VectoredRead)
    (st : ValuesReconstructState) : option ValuesReconstructState :=
  max_vectored_read_bytes ← dl_max_vectored_read_bytes self;
  let buf_size := get_min_read_buffer_size reads max_vectored_read_bytes in
  delta_do_reads (dl_file self) buf_size (rev reads) st.

Definition delta_get_values_reconstruct_data (fuel : nat) (self : DeltaLayerInner) (keyspace : KeySpace)
    (lsn_range : Range Lsn) (st : ValuesReconstructState) : outcome gv_fail ValuesReconstructState :=
  max ← of_option (dl_max_vectored_read_bytes self);
  reads ← delta_plan_reads fuel self keyspace lsn_range (planner_new max);
  of_option (delta_do_reads_and_update_state self reads st).

Fixpoint image_do_reads_and_update_state (self : ImageLayerInner) (reads : list VectoredRead)
    (st : ValuesReconstructState) : option ValuesReconstructState :=
  match reads with
  | [] => Some st
  | read :: reads =>
      '(ios, st) ← update_blobs (fun _ => true) (vm_data (vr_blobs_at read)) [] st;
      st ← execute_read (ml_file self) id RawImage (vr_size read) read ios st;
      image_do_reads_and_update_state self reads st
  end.

Definition image_get_values_reconstruct_data (fuel : nat) (self : ImageLayerInner) (keyspace : KeySpace)
    (st : ValuesReconstructState) : outcome gv_fail ValuesReconstructState :=
  reads ← image_plan_reads fuel self keyspace None;
  st ← of_option (image_do_reads_and_update_state self reads st);
  of_option (on_image_layer_visited (ml_key_range self) st).

(** ** Other users of the planned reads of an image layer *)

Definition load_keys (fuel : nat) (self : ImageLayerInner) : outcome gv_fail (list Key) :=
  plan ← image_plan_reads fuel self (ks_single (ml_key_range self)) None;
  Ok (concat (map (fun read => map (fun e => bm_key e.2) (vm_data (vr_blobs_at read))) plan)).

(** The pages of one read that the shard keeps, copied as they are. *)
Fixpoint filter_blobs (buf : list byte) (blobs : list VectoredBlob) (writer : ImageLayerWriterInner) (key_count : Z) :
    outcome PutError (ImageLayerWriterInner * Z) :=
  match blobs with
  | [] => Ok (writer, key_count)
  | blob :: blobs =>
      raw ← of_option (raw_with_header blob buf);
      writer ← put_image_raw writer (bm_key (vb_meta blob)) raw;
      filter_blobs buf blobs writer (key_count + 1)
  end.

Fixpoint filter_reads (self : ImageLayerInner) (plan : list VectoredRead) (writer : ImageLayerWriterInner) (key_count : Z) :
    outcome PutError (ImageLayerWriterInner * Z) :=
  match plan with
  | [] => Ok (writer, key_count)
  | read :: plan =>
      match read_blobs (ml_file self) read (vr_size read) with
      | Ok (buf, blobs) =>
          '(writer, key_count) ← filter_blobs buf blobs writer key_count;
          filter_reads self plan writer key_count
      | Err e => Err (PutOther e)
      | Panic => Panic
      end
  end.

(** [ImageLayerInner::filter]. *)
Definition image_filter (fuel : nat) (self : ImageLayerInner) (shard_identity : ShardIdentity)
    (writer : ImageLayerWriterInner) : outcome PutError (ImageLayerWriterInner * Z) :=
  match image_plan_reads fuel self (ks_single (mkRange KEY_MIN KEY_MAX)) (Some shard_identity) with
  | Ok plan => filter_reads self plan writer 0
  | Err _ => Err (PutOther "plan_reads")
  | Panic => Panic
  end.
End layer_file.
