(* ===== verification/ReconstructFacts.v ===== *)
(** * The state of a read as a function of its keys

    What the channels of a key deliver, in order, and how updates change it.  Updating
    many keys first and completing their I/Os later leaves the same state as updating
    and completing one by one. *)

From S2P Require Import Prelude Lsn XlogUtils Key Shard KeySpace OrdMap LayerCoverage DiskBtree VecMap BlobIo.
From S2P Require Import ReconstructState LayerFile.

(** ** Views of a key *)

Definition situation_of (st : ValuesReconstructState) (k : Key) : ValueReconstructSituation :=
  match vs_keys st !! k with Some s => vv_situation s | None => Continue end.

Definition received (st : ValuesReconstructState) (k : Key) : list (Lsn * option OnDiskValueIoResult) :=
  match vs_keys st !! k with
  | Some s => map (fun e => (e.1, mjoin (vs_channels st !! e.2))) (vv_on_disk_values s)
  | None => []
  end.

Definition chans_ok (st : ValuesReconstructState) : Prop :=
  forall k s e, vs_keys st !! k = Some s -> e ∈ vv_on_disk_values s -> (e.2 < length (vs_channels st))%nat.

(** ** One value *)

(** A value of a key: its LSN, whether it completes the key, and what is read. *)
Record update := mkUpdate { up_key : Key; up_lsn : Lsn; up_completes : bool; up_value : OnDiskValue }.

Definition push_update (u : update) (st : ValuesReconstructState) : option ValuesReconstructState :=
  '(io, st) ← update_key (up_key u) (up_lsn u) (up_completes u) st;
  Some (io_complete io (inr (up_value u)) st).

Fixpoint push_list (us : list update) (st : ValuesReconstructState) : option ValuesReconstructState :=
  match us with
  | [] => Some st
  | u :: us => st ← push_update u st; push_list us st
  end.

Definition tracked (k : Key) : Prop := key_wf k /\ key_compact k.

Definition done_range (k : Key) : KRange := mkRange k (default KEY_MAX (key_next k)).

Lemma compact_next k : key_wf k -> key_compact k ->
  exists k', key_next k = Some k' /\ key_wf k' /\ key_Z k' = key_Z k + 1.
Proof.
  intros Hk [Hc _]. pose proof (key_add_Z k 1 Hk ltac:(done)) as H. unfold key_next.
  destruct (key_add k 1) as [k'|]; [by exists k'|]. exfalso. destruct Hk as (H1 & H2 & H3 & H4 & H5 & H6).
  unfold key_Z, in_u in *. lia.
Qed.

Lemma tracked_singleton k : tracked k -> singleton_range k = Some (done_range k).
Proof.
  intros (Hk & Hc). unfold singleton_range, done_range. by destruct (compact_next k Hk Hc) as (k' & -> & _).
Qed.

(** The code marks a key as done when its value is complete, unless it is sparse. *)
Definition marks_done (k : Key) (completes : bool) : bool := completes && negb (is_sparse k).

(** What an update leaves as it was. *)
Record same_rest (st st' : ValuesReconstructState) : Prop := {
  sr_coverage : vs_keys_with_image_coverage st' = vs_keys_with_image_coverage st;
  sr_chans : chans_ok st'
}.

Lemma received_app st (k : Key) s more :
  chans_ok st -> vs_keys st !! k = Some s ->
  map (fun e => (e.1, mjoin ((vs_channels st ++ more) !! e.2))) (vv_on_disk_values s) = received st k.
Proof.
  intros Hc Hk. unfold received. rewrite Hk. apply map_ext_in. intros e He%list_elem_of_In.
  rewrite lookup_app_l; [done|]. by eapply Hc.
Qed.

Lemma push_update_ok u st :
  chans_ok st -> tracked (up_key u) -> situation_of st (up_key u) = Continue ->
  exists st', push_update u st = Some st' /\ same_rest st st'
  /\ (forall k, received st' k = received st k ++ (if decide (up_key u = k) then [(up_lsn u, Some (inr (up_value u)))] else []))
  /\ (forall k, vs_keys st' !! k = vs_keys st !! k \/ up_key u = k)
  /\ is_Some (vs_keys st' !! up_key u)
  /\ situation_of st' (up_key u) = (if up_completes u then Complete else Continue)
  /\ vs_keys_done st' = vs_keys_done st ++ (if marks_done (up_key u) (up_completes u) then [done_range (up_key u)] else []).
Proof.
  intros Hc Ht Hs. unfold push_update, update_key.
  set (s := default vv_default (vs_keys st !! up_key u)).
  assert (vv_situation s = Continue) as ->.
  { unfold s, situation_of in *. by destruct (vs_keys st !! up_key u). }
  assert (exists keys_done, (if up_completes u && negb (is_sparse (up_key u))
    then range ← singleton_range (up_key u); Some (kra_add_range (vs_keys_done st) range)
    else Some (vs_keys_done st)) = Some keys_done
    /\ keys_done = vs_keys_done st ++ (if marks_done (up_key u) (up_completes u) then [done_range (up_key u)] else [])) as (kd & -> & Hkd).
  { unfold marks_done. destruct (up_completes u && negb (is_sparse (up_key u))); [|by rewrite app_nil_r; eexists].
    rewrite tracked_singleton by done. by eexists. }
  cbn [mbind option_bind]. eexists. split; [done|]. cbn [io_complete vs_channels].
  rewrite insert_app_r_alt by lia. rewrite Nat.sub_diag. cbn.
  assert (forall e, e ∈ vv_on_disk_values s -> (e.2 < length (vs_channels st))%nat) as Hse.
  { intros e He. unfold s in He. destruct (vs_keys st !! up_key u) as [s'|] eqn:E; cbn in He; [by eapply Hc|by apply not_elem_of_nil in He]. }
  split_and!.
  - split; [done|]. intros k s' e Hk He. cbn [vs_keys vs_channels] in *. rewrite length_app. cbn.
    destruct (decide (up_key u = k)) as [<-|Hne].
    + rewrite lookup_insert_eq in Hk. injection Hk as <-. cbn in He.
      apply elem_of_app in He as [He|He%list_elem_of_singleton]; [apply Hse in He; lia|subst e; cbn; lia].
    + rewrite lookup_insert_ne in Hk by done. specialize (Hc k s' e Hk He). lia.
  - intros k. unfold received at 1. cbn [vs_keys vs_channels]. case_decide as E.
    + subst k. rewrite lookup_insert_eq. cbn [vv_on_disk_values]. rewrite map_app. cbn.
      rewrite lookup_app_r, Nat.sub_diag by lia. f_equal. unfold s in *.
      destruct (vs_keys st !! up_key u) as [s'|] eqn:Es; cbn.
      * by apply received_app.
      * unfold received. by rewrite Es.
    + rewrite lookup_insert_ne by done. rewrite app_nil_r.
      destruct (vs_keys st !! k) as [s'|] eqn:Es; [by apply received_app|]. unfold received. by rewrite Es.
  - intros k. cbn [vs_keys]. destruct (decide (up_key u = k)); [by right|left; by rewrite lookup_insert_ne].
  - cbn [vs_keys]. rewrite lookup_insert_eq. by eexists.
  - unfold situation_of. cbn [vs_keys]. by rewrite lookup_insert_eq.
  - done.
Qed.

(** ** Many values *)

Definition mine (k : Key) (us : list update) : list update := filter (fun u => up_key u = k) us.

(** Nothing follows a value that completes its key. *)
Definition ends_at_completion (l : list update) : Prop :=
  forall l1 u l2, l = l1 ++ u :: l2 -> up_completes u = true -> l2 = [].

Definition delivered (us : list update) : list (Lsn * option OnDiskValueIoResult) :=
  map (fun u => (up_lsn u, Some (inr (up_value u)))) us.

Definition completed (us : list update) : list KRange :=
  map (fun u => done_range (up_key u)) (filter (fun u => marks_done (up_key u) (up_completes u) = true) us).

Record pushed (us : list update) (st st' : ValuesReconstructState) : Prop := {
  pu_rest : same_rest st st';
  pu_received k : received st' k = received st k ++ delivered (mine k us);
  pu_other k : mine k us = [] -> vs_keys st' !! k = vs_keys st !! k;
  pu_key k : mine k us <> [] -> is_Some (vs_keys st' !! k);
  pu_situation k : situation_of st' k = if existsb up_completes (mine k us) then Complete else situation_of st k;
  pu_done : vs_keys_done st' = vs_keys_done st ++ completed us
}.

Lemma mine_cons k u us : mine k (u :: us) = if decide (up_key u = k) then u :: mine k us else mine k us.
Proof. unfold mine. by rewrite filter_cons. Qed.

Lemma ends_tail u l : ends_at_completion (u :: l) -> ends_at_completion l.
Proof. intros H l1 v l2 ->. apply (H (u :: l1)). done. Qed.

Lemma push_list_ok us : forall st,
  chans_ok st -> Forall (fun u => tracked (up_key u)) us ->
  (forall k, mine k us <> [] -> situation_of st k = Continue) -> (forall k, ends_at_completion (mine k us)) ->
  exists st', push_list us st = Some st' /\ pushed us st st'.
Proof.
  induction us as [|u us IH]; intros st Hc Ht Hs He.
  - exists st. split; [done|]. split; cbn; try done; intros; by rewrite ?app_nil_r.
  - apply Forall_cons in Ht as [Hu Ht].
    assert (mine (up_key u) (u :: us) = u :: mine (up_key u) us) as Hm by (rewrite mine_cons, decide_True; done).
    destruct (push_update_ok u st Hc Hu) as (st1 & E & [R1 R2] & P1 & P2 & P3 & P4 & P5); [apply Hs; by rewrite Hm|].
    assert (forall k, up_key u <> k -> vs_keys st1 !! k = vs_keys st !! k) as P2' by (intros k Hk; by destruct (P2 k)).
    assert (forall k, up_key u <> k -> situation_of st1 k = situation_of st k) as P6
      by (intros k Hk; unfold situation_of; by rewrite P2').
    assert (up_completes u = true -> mine (up_key u) us = []) as Hlast.
    { intros Hcu. apply (He (up_key u) [] u (mine (up_key u) us)); [by rewrite Hm|done]. }
    destruct (IH st1) as (st' & E' & [[Q0 Q0'] Q1 Q2 Q3 Q4 Q5]); [done|done|..].
    { intros k Hk. destruct (decide (up_key u = k)) as [<-|Hne].
      - rewrite P4. destruct (up_completes u); [|done]. by rewrite Hlast in Hk.
      - rewrite P6 by done. apply Hs. by rewrite mine_cons, decide_False. }
    { intros k. specialize (He k). rewrite mine_cons in He. case_decide; [by eapply ends_tail|done]. }
    exists st'. cbn [push_list]. rewrite E. cbn [mbind option_bind]. split; [done|]. split.
    + split; [congruence|done].
    + intros k. rewrite Q1, P1, <- app_assoc, mine_cons. by case_decide.
    + intros k. rewrite mine_cons. case_decide; [done|]. intros Hk. rewrite Q2 by done. by apply P2'.
    + intros k. rewrite mine_cons. destruct (decide (mine k us = [])) as [E0|E0]; [|by intros _; apply Q3].
      case_decide as Ek; [|by rewrite E0]. intros _. subst k. by rewrite Q2.
    + intros k. rewrite Q4, mine_cons. case_decide as Ek.
      * subst k. cbn [existsb]. rewrite P4. destruct (up_completes u) eqn:Eu; cbn [orb].
        -- by rewrite Hlast.
        -- by rewrite Hs by (by rewrite Hm).
      * by rewrite P6.
    + rewrite Q5, P5, <- app_assoc. f_equal. unfold completed. rewrite filter_cons. destruct (marks_done (up_key u) (up_completes u)); by case_decide.
Qed.

(** ** Updating first, completing later *)

Lemma complete_commutes k lsn c tx res st :
  (tx < length (vs_channels st))%nat ->
  update_key k lsn c (io_complete (Required tx) res st)
  = ('(io, st') ← update_key k lsn c st; Some (io, io_complete (Required tx) res st')).
Proof.
  intros Htx. unfold update_key. cbn [io_complete vs_keys vs_keys_done vs_keys_with_image_coverage vs_layers_visited
    vs_delta_layers_visited vs_channels vs_num_active_ios].
  destruct (vv_situation (default vv_default (vs_keys st !! k))).
  - destruct (is_sparse k); done.
  - rewrite length_insert. destruct (if c && negb (is_sparse k) then _ else _) as [kd|]; [|done]. cbn [mbind option_bind].
    cbn [io_complete vs_keys vs_keys_done vs_keys_with_image_coverage vs_layers_visited
      vs_delta_layers_visited vs_channels vs_num_active_ios]. rewrite insert_app_l by done. do 3 f_equal. lia.
Qed.

(** What an I/O with a number below [n] leaves alone. *)
Definition io_below (n : nat) (io : OnDiskValueIo) : Prop :=
  match io with Required tx => (tx < n)%nat | Unnecessary => True end.

Lemma update_channels k lsn c st io st' :
  update_key k lsn c st = Some (io, st') ->
  (length (vs_channels st) <= length (vs_channels st'))%nat /\ io_below (length (vs_channels st')) io.
Proof.
  unfold update_key. destruct (vv_situation _).
  - destruct (is_sparse k); [|done]. by intros [= <- <-].
  - destruct (if c && negb (is_sparse k) then _ else _); [|done]. cbn. intros [= <- <-]. cbn. rewrite length_app. cbn. lia.
Qed.

Definition blob_key (b : BlobMeta) : Key * Lsn := (bm_key b, bm_lsn b).

Lemma update_blobs_commutes completes blobs : forall io res ios st,
  io_below (length (vs_channels st)) io ->
  update_blobs completes blobs ios (io_complete io res st)
  = ('(ios', st') ← update_blobs completes blobs ios st; Some (ios', io_complete io res st')).
Proof.
  induction blobs as [|[o meta] blobs IH]; intros io res ios st Hio; cbn [update_blobs]; [done|].
  destruct io as [tx|].
  - rewrite complete_commutes by done.
    destruct (update_key (bm_key meta) (bm_lsn meta) (completes meta) st) as [[io' st']|] eqn:E; [|done].
    cbn [mbind option_bind]. apply update_channels in E as [E _]. apply IH. cbn in *. lia.
  - cbn [io_complete]. destruct (update_key (bm_key meta) (bm_lsn meta) (completes meta) st) as [[io' st']|]; [|done].
    cbn [mbind option_bind]. by destruct (update_blobs completes blobs _ st') as [[]|].
Qed.

(** New I/Os are appended when their keys are new. *)
Lemma update_blobs_ios completes blobs : forall ios st ios1 st1,
  update_blobs completes blobs [] st = Some (ios1, st1) ->
  NoDup (map (fun b => blob_key b.2) blobs) -> (forall b, b ∈ blobs -> blob_key b.2 ∉ map fst ios) ->
  update_blobs completes blobs ios st = Some (ios ++ ios1, st1) /\ map fst ios1 = map (fun b => blob_key b.2) blobs.
Proof.
  induction blobs as [|[o meta] blobs IH]; intros ios st ios1 st1 E Hd Hf; cbn [update_blobs] in *.
  - injection E as <- <-. by rewrite app_nil_r.
  - destruct (update_key (bm_key meta) (bm_lsn meta) (completes meta) st) as [[io st']|]; [|done].
    cbn [mbind option_bind] in *. cbn [map snd] in Hd. apply NoDup_cons in Hd as [Hn Hd].
    assert (forall ios', blob_key meta ∉ map fst ios' -> ios_insert (bm_key meta, bm_lsn meta) io ios' = ios' ++ [(blob_key meta, io)]) as Hins.
    { intros ios' Hni. unfold ios_insert. f_equal. apply filter_all. intros e He Heq. apply Hni.
      apply list_elem_of_In, in_map_iff. exists e. split; [done|by apply list_elem_of_In]. }
    rewrite Hins in E by (cbn; apply not_elem_of_nil). cbn [app] in E.
    destruct (update_blobs completes blobs [] st') as [[ios2 st2]|] eqn:E2.
    + destruct (IH [(blob_key meta, io)] st' ios2 st2 E2 Hd) as [H1 H2].
      { intros b Hb Hin. apply list_elem_of_singleton in Hin. cbn in Hin. apply Hn. rewrite <- Hin.
        apply list_elem_of_In, in_map_iff. exists b. split; [done|by apply list_elem_of_In]. }
      rewrite H1 in E. injection E as <- <-. split; [|cbn; by f_equal].
      rewrite Hins by (apply (Hf (o, meta)); left).
      destruct (IH (ios ++ [(blob_key meta, io)]) st' ios2 st2 E2 Hd) as [H3 _].
      { intros b Hb. rewrite map_app, not_elem_of_app. split; [apply Hf; by right|]. cbn. rewrite list_elem_of_singleton.
        intros Hin. apply Hn. rewrite <- Hin. apply list_elem_of_In, in_map_iff. exists b. split; [done|by apply list_elem_of_In]. }
      rewrite H3, <- app_assoc. done.
    + exfalso. clear -E E2.
      assert (forall blobs ios ios' st, update_blobs completes blobs ios st = None -> update_blobs completes blobs ios' st = None) as Hnone.
      { clear. induction blobs as [|[o meta] blobs IH]; intros ios ios' st; cbn [update_blobs]; [done|].
        destruct (update_key _ _ _ st) as [[]|]; [|done]. cbn [mbind option_bind]. apply IH. }
      rewrite (Hnone _ _ _ _ E2) in E. done.
Qed.

Section two_phase.
Context `{!Zstd}.
Context (completes : BlobMeta -> bool) (on_disk : list byte -> OnDiskValue) (D : Z * BlobMeta -> list byte).

Definition blob_update (b : Z * BlobMeta) : update :=
  mkUpdate (bm_key b.2) (bm_lsn b.2) (completes b.2) (on_disk (D b)).

Lemma two_phase buf vbs blobs :
  Forall2 (fun vb b => vb_meta vb = b.2 /\ vb_read vb buf = Ok (D b)) vbs blobs ->
  NoDup (map (fun b => blob_key b.2) blobs) -> forall st st',
  push_list (map blob_update blobs) st = Some st' ->
  exists ios st1, update_blobs completes blobs [] st = Some (ios, st1)
  /\ complete_blobs on_disk buf vbs ios st1 = Some ([], st').
Proof.
  induction 1 as [|vb [o meta] vbs blobs [Hm Hr] _ IH]; intros Hd st st' Hp.
  - injection Hp as <-. by exists [], st.
  - cbn [map snd] in Hd. apply NoDup_cons in Hd as [Hn Hd]. cbn [map push_list] in Hp. unfold push_update in Hp.
    cbn [blob_update up_key up_lsn up_completes up_value snd] in Hp. cbn [update_blobs].
    destruct (update_key (bm_key meta) (bm_lsn meta) (completes meta) st) as [[io sta]|] eqn:Eu; [|done].
    cbn [mbind option_bind] in *. destruct (IH Hd _ _ Hp) as (ios & st1 & E1 & E2).
    rewrite update_blobs_commutes in E1 by by eapply update_channels.
    destruct (update_blobs completes blobs [] sta) as [[ios' st1a]|] eqn:E3; [|done]. cbn in E1. injection E1 as -> <-.
    destruct (update_blobs_ios completes blobs [(blob_key meta, io)] sta ios st1a E3 Hd) as [E4 E5].
    { intros b Hb Hin. apply list_elem_of_singleton in Hin. cbn in Hin. apply Hn. rewrite <- Hin.
      apply list_elem_of_In, in_map_iff. exists b. split; [done|by apply list_elem_of_In]. }
    exists ((blob_key meta, io) :: ios), st1a. split; [exact E4|]. cbn [complete_blobs]. rewrite Hm. cbn [snd].
    assert (filter (fun e : Key * Lsn * OnDiskValueIo => e.1 <> blob_key meta) ios = ios) as Hrest.
    { apply filter_all. intros e He Heq. apply Hn. rewrite <- E5, <- Heq.
      apply list_elem_of_In, in_map_iff. exists e. split; [done|by apply list_elem_of_In]. }
    assert (ios_remove (bm_key meta, bm_lsn meta) ((blob_key meta, io) :: ios) = Some (io, ios)) as ->.
    { unfold ios_remove. fold (blob_key meta). rewrite (filter_cons_True _ (blob_key meta, io)) by done.
      cbn [snd]. rewrite filter_cons_False by (cbn; tauto). by rewrite Hrest. }
    cbn [mbind option_bind]. rewrite Hr. done.
Qed.
End two_phase.
