(* ===== verification/LayerFileFacts.v ===== *)
(** * Reading layers

    A delta layer that holds a list of entries, read for a key space and a range of
    LSNs, delivers for each key of the key space the entries of the key in the range,
    from the newest down to the first that initializes the page; an image layer
    delivers its image of each key.  Files written by the writers hold what was put
    into them. *)

From stdpp Require Import sorting.
From S2P Require Import Prelude Lsn XlogUtils Key Shard KeySpace KeySpaceFacts KeySpaceSets OrdMap LayerCoverage LayerName.
From S2P Require Import DiskBtree DiskBtreeSearch VecMap BlobIo BlobIoFacts PlannerFacts ReconstructState LayerFile ReconstructFacts.

#[global] Instance member_dec l z : Decision (member l z).
Proof.
  destruct (decide (List.Exists (fun r => in_range r z) l)) as [H|H]; [left|right]; unfold member; by rewrite <- list.Exists_exists.
Defined.

(** ** Sorted lists *)

(** An upward closed part of a sorted list is a suffix. *)
Lemma filter_suffix {A} (R : A -> A -> Prop) (P : A -> Prop) `{!forall x, Decision (P x)} l :
  StronglySorted R l -> (forall x y, P x -> R x y -> P y) ->
  exists l1, l = l1 ++ filter P l /\ Forall (fun x => ~ P x) l1.
Proof.
  intros Hs Hup. induction Hs as [|x l Hs (l1 & E & Hl1) Hf]; [by exists []|].
  rewrite filter_cons. case_decide as Hx.
  - exists []. split; [|done]. cbn. f_equal. symmetry. apply filter_all. intros y Hy. rewrite Forall_forall in Hf. eauto.
  - exists (x :: l1). split; [cbn; by f_equal|by constructor].
Qed.

(** The first element with a property splits a list. *)
Lemma split_first {A} (p : A -> bool) l :
  (exists l1 y l2, l = l1 ++ y :: l2 /\ Forall (fun x => p x = false) l1 /\ p y = true) \/ Forall (fun x => p x = false) l.
Proof.
  induction l as [|x l [(l1 & y & l2 & -> & H1 & H2)|H]]; [by right| |].
  - destruct (p x) eqn:E; left; [by exists [], x, (l1 ++ y :: l2)|].
    exists (x :: l1), y, l2. split_and!; [done|by constructor|done].
  - destruct (p x) eqn:E; [left; by exists [], x, l|right; by constructor].
Qed.

(** ** Entries of a layer *)

Definition stored_Z (x : stored) : Z := key_Z (se_key x) * 2 ^ 64 + se_lsn x.
Definition stored_lt (x y : stored) : Prop := stored_Z x < stored_Z y.

Definition stored_wf (x : stored) : Prop :=
  key_wf (se_key x) /\ key_compact (se_key x) /\ in_u 64 (se_lsn x) /\ 0 <= se_pos x < se_end x /\ se_pos x < 2 ^ 38.

Lemma stored_lt_cases x y :
  stored_wf x -> stored_wf y -> stored_lt x y ->
  key_Z (se_key x) < key_Z (se_key y) \/ se_key x = se_key y /\ se_lsn x < se_lsn y.
Proof.
  intros (Hx & _ & Lx & _) (Hy & _ & Ly & _). unfold stored_lt, stored_Z, in_u in *. intros Hlt.
  destruct (Z.lt_trichotomy (key_Z (se_key x)) (key_Z (se_key y))) as [?|[E|?]]; [by left|right|nia].
  split; [by apply key_Z_inj|]. rewrite E in Hlt. lia.
Qed.

(** Positions grow along the entries. *)
Lemma chained_sorted es limit :
  chained es limit -> Forall stored_wf es ->
  Forall (fun x => se_end x <= limit) es /\ StronglySorted (fun x y => se_end x <= se_pos y) es.
Proof.
  induction es as [|x es IH]; cbn [chained]; [by intros; split; constructor|]. intros [Hx Hc] [Hw Hes]%Forall_cons.
  destruct (IH Hc Hes) as [Hl Hs]. destruct es as [|y es].
  - split; constructor; done || lia.
  - apply Forall_cons in Hes as [(_ & _ & _ & Hy & _) Hes']. apply Forall_cons in Hl as [Hly Hl].
    inversion_clear Hs as [|? ? Hs' Hf].
    split; [constructor; [lia|by constructor]|]. constructor; [by constructor|]. constructor; [lia|].
    eapply Forall_impl; [exact Hf|]. cbn. lia.
Qed.

(** The values of a key in a range of LSNs. *)
Definition in_lsns (lr : Range Lsn) (lsn : Lsn) : Prop := start lr <= lsn < end_ lr.

#[global] Instance in_lsns_dec lr lsn : Decision (in_lsns lr lsn).
Proof. unfold in_lsns. apply _. Defined.

Definition values_at (lr : Range Lsn) (k : Key) (es : list stored) : list stored :=
  filter (fun x => se_key x = k /\ in_lsns lr (se_lsn x)) es.

(** From the last one that initializes the page on. *)
Definition keep (acc : list stored) (x : stored) : list stored := if se_init x then [x] else acc ++ [x].
Definition needed_of (lr : Range Lsn) (k : Key) (es : list stored) : list stored := fold_left keep (values_at lr k es) [].

Lemma fold_keep_sub l : forall acc x, x ∈ fold_left keep l acc -> x ∈ acc \/ x ∈ l.
Proof.
  induction l as [|y l IH]; intros acc x Hx; [by left|]. cbn [fold_left] in Hx. apply IH in Hx as [Hx|Hx]; [|right; by right].
  unfold keep in Hx. destruct (se_init y).
  - apply list_elem_of_singleton in Hx as ->. right. by left.
  - apply elem_of_app in Hx as [Hx|Hx%list_elem_of_singleton]; [by left|subst; right; by left].
Qed.

Lemma fold_keep_sorted R l : forall acc,
  StronglySorted R (acc ++ l) -> StronglySorted R (fold_left keep l acc).
Proof.
  induction l as [|y l IH]; intros acc Hs; cbn [fold_left]; [by rewrite app_nil_r in Hs|]. apply IH. unfold keep.
  destruct (se_init y); [by apply StronglySorted_app_inv in Hs as (_ & Hs & _)|by rewrite <- app_assoc].
Qed.

(** Only the first of the values kept may initialize the page. *)
Lemma fold_keep_tail l : forall acc,
  Forall (fun x => se_init x = false) (tail acc) -> Forall (fun x => se_init x = false) (tail (fold_left keep l acc)).
Proof.
  induction l as [|y l IH]; intros acc Ha; [done|]. cbn [fold_left]. apply IH. unfold keep. destruct (se_init y) eqn:E; [constructor|].
  destruct acc as [|a acc]; cbn in *; [constructor|]. apply Forall_app. split; [done|]. by repeat constructor.
Qed.

Lemma needed_of_in lr k es x : x ∈ needed_of lr k es -> x ∈ es /\ se_key x = k /\ in_lsns lr (se_lsn x).
Proof.
  intros Hx. apply fold_keep_sub in Hx as [Hx|Hx]; [by apply not_elem_of_nil in Hx|].
  apply list_elem_of_filter in Hx. tauto.
Qed.

(** ** The plan of a delta layer *)

Definition delta_raw (x : stored) : list byte * Z :=
  (delta_key_from_key_lsn (se_key x) (se_lsn x), blob_ref_new (se_pos x) (se_init x)).

Lemma length_delta_key k lsn : length (delta_key_from_key_lsn k lsn) = DELTA_KEY_SIZE.
Proof. unfold delta_key_from_key_lsn. by rewrite length_app, length_write_to_byte_slice, length_be_bytes. Qed.

Lemma be_Z_delta_key k lsn : key_wf k -> in_u 64 lsn -> be_Z (delta_key_from_key_lsn k lsn) = key_Z k * 2 ^ 64 + lsn.
Proof.
  intros Hk Hl. unfold delta_key_from_key_lsn. rewrite be_Z_app, length_be_bytes, be_Z_write, be_Z_be_bytes_small by done. done.
Qed.

Lemma delta_key_parts k lsn :
  key_wf k -> in_u 64 lsn ->
  (slice 0 KEY_SIZE (delta_key_from_key_lsn k lsn) ≫= from_slice) = Some k
  /\ extract_lsn_from_buf (delta_key_from_key_lsn k lsn) = Some lsn.
Proof.
  intros Hk Hl. unfold delta_key_from_key_lsn, extract_lsn_from_buf. split.
  - rewrite slice_app_l by apply length_write_to_byte_slice. cbn. by apply from_slice_write.
  - rewrite length_app, slice_skip by (rewrite length_write_to_byte_slice, ?length_be_bytes; lia).
    rewrite length_write_to_byte_slice, length_be_bytes.
    replace (slice (KEY_SIZE - KEY_SIZE) (KEY_SIZE + 8 - KEY_SIZE) (be_bytes 8 lsn)) with (Some (be_bytes 8 lsn)) by done.
    cbn [mbind option_bind]. rewrite length_be_bytes, decide_True by done. by rewrite be_Z_be_bytes_small.
Qed.

Lemma blob_ref_parts pos init :
  0 <= pos < 2 ^ 38 ->
  blob_ref_pos (blob_ref_new pos init) = pos /\ blob_ref_will_init (blob_ref_new pos init) = init
  /\ 0 <= blob_ref_new pos init <= MAX_VALUE.
Proof.
  intros Hp. unfold blob_ref_pos, blob_ref_will_init, blob_ref_new, WILL_INIT, MAX_VALUE.
  rewrite wrap_small by (unfold in_u; rewrite Z.shiftl_mul_pow2 by done; lia).
  rewrite Z.shiftl_mul_pow2, Z.shiftr_div_pow2 by done. change (2 ^ 1) with 2.
  assert (Z.lor (pos * 2) 1 = pos * 2 + 1) as Hor.
  { pose proof (lor_shiftl_add pos 1 1 ltac:(lia) ltac:(lia)) as H. rewrite Z.shiftl_mul_pow2 in H by done. exact H. }
  assert (forall z, Z.land z 1 = z mod 2) as Hand by (intros z; apply (Z.land_ones z 1); done).
  destruct init; rewrite ?Hor, Hand.
  - rewrite bool_decide_false by (rewrite Z.add_comm, Z.mod_add by lia; done). split_and!; [|done|lia|lia].
    rewrite Z.div_add_l by lia. change (1 / 2) with 0. lia.
  - rewrite bool_decide_true by by rewrite Z.mod_mul. split_and!; [by rewrite Z.div_mul|done|lia|lia].
Qed.

Definition delta_flag (lr : Range Lsn) (x : stored) : BlobFlag :=
  if negb (bool_decide (start lr <= se_lsn x < end_ lr)) then FlagIgnore
  else if se_init x then FlagReplaceAll else FlagNone.

(** The entry ends the range: it has no key of it, or no more LSN of its last key. *)
Definition delta_at_end (range : KRange) (lr : Range Lsn) (x : stored) : bool :=
  bool_decide (re range <= key_Z (se_key x))
  || bool_decide (key_Z (se_key x) + 1 = re range) && bool_decide (end_ lr <= se_lsn x).

Definition delta_flagged (lr : Range Lsn) (l : list stored) : list (stored * BlobFlag) := map (fun x => (x, delta_flag lr x)) l.

Lemma delta_plan_step range lr x items pl :
  stored_wf x -> range_ok range -> rs range <= key_Z (se_key x) ->
  delta_plan_items range lr (delta_raw x :: items) pl
  = if delta_at_end range lr x then Some (handle_range_end pl (se_pos x), true)
    else delta_plan_items range lr items (handle pl (se_key x) (se_lsn x) (se_pos x) (delta_flag lr x)).
Proof.
  intros (Hk & Hc & Hl & Hpos & Hp) [[Ws We] _] Hge. cbn [delta_plan_items delta_raw].
  destruct (delta_key_parts (se_key x) (se_lsn x) Hk Hl) as [-> ->]. cbn [mbind option_bind].
  rewrite (key_leb_Z (start range)) by done.
  rewrite (bool_decide_true (key_Z (start range) <= key_Z (se_key x))) by exact Hge. cbn [ensure mbind option_bind].
  destruct (blob_ref_parts (se_pos x) (se_init x)) as (-> & -> & _); [lia|].
  rewrite key_leb_Z by done. fold (re range). unfold delta_at_end, delta_flag.
  destruct (bool_decide (re range <= key_Z (se_key x))); cbn [orb mbind option_bind]; [done|].
  destruct (compact_next (se_key x) Hk Hc) as (n & -> & Wn & Zn). cbn [mbind option_bind].
  assert (bool_decide (n = end_ range) = bool_decide (key_Z (se_key x) + 1 = re range)) as ->; [|done].
  apply bool_decide_ext. unfold re. rewrite <- Zn. split; [by intros ->|by apply key_Z_inj].
Qed.

(** The loop over the entries of a range, from planner to planner. *)
Lemma delta_plan_range range lr l blobs max limit :
  Forall stored_wf l -> range_ok range -> Forall (fun x => rs range <= key_Z (se_key x)) l -> chained l limit ->
  exists l1 l2 b, l = l1 ++ l2 /\ Forall (fun x => delta_at_end range lr x = false) l1
  /\ match l2 with [] => True | y :: _ => delta_at_end range lr y = true end
  /\ exists pl, delta_plan_items range lr (map delta_raw l) (mkPlanner blobs None max) = Some (pl, b)
  /\ (if b : bool then pl else handle_range_end pl limit) = mkPlanner (fold_left add_stored (delta_flagged lr l1) blobs) None max
  /\ (b = false -> l2 = []).
Proof.
  intros Hw Hr Hge Hc.
  assert (forall l1 l2 pl, Forall stored_wf l1 -> Forall (fun x => rs range <= key_Z (se_key x)) l1 ->
    Forall (fun x => delta_at_end range lr x = false) l1 ->
    delta_plan_items range lr (map delta_raw (l1 ++ l2)) pl
    = delta_plan_items range lr (map delta_raw l2) (run_handles (delta_flagged lr l1) pl)) as Hrun.
  { induction l1 as [|x l1 IH]; intros l2 pl H1 H2 H3; [done|]. apply Forall_cons in H1 as [Hx1 H1], H2 as [Hx2 H2], H3 as [Hx3 H3].
    cbn [app map]. rewrite delta_plan_step, Hx3 by done. rewrite IH by done. done. }
  assert (forall l1, (delta_flagged lr l1).*1 = l1) as Hfst.
  { intros l1. unfold delta_flagged. rewrite <- list_fmap_compose. apply list_fmap_id. }
  destruct (split_first (delta_at_end range lr) l) as [(l1 & y & l2 & -> & H1 & Hy)|H1].
  - apply Forall_app in Hw as [Hw1 [Hwy _]%Forall_cons], Hge as [Hg1 [Hgy _]%Forall_cons]. apply chained_app in Hc as [Hc1 _].
    exists l1, (y :: l2), true. split_and!; [done|done|done|]. eexists. rewrite Hrun by done. cbn [map].
    rewrite delta_plan_step, Hy by done. split_and!; [done| |done]. apply run_handles_ok. by rewrite Hfst.
  - exists l, [], false. rewrite app_nil_r. split_and!; [done|done|done|]. eexists.
    pose proof (Hrun l [] (mkPlanner blobs None max) Hw Hge H1) as E. rewrite app_nil_r in E. rewrite E.
    split_and!; [done| |done]. apply run_handles_ok. by rewrite Hfst.
Qed.

(** ** From the plan to the values *)

Definition place (x : stored) : placed := (se_pos x, se_end x, mkBlobMeta (se_key x) (se_lsn x) (se_init x)).

(** The contents of the entry that starts at [pos]. *)
Definition data_at (es : list stored) (pos : Z) : list byte :=
  match filter (fun x => se_pos x = pos) es with x :: _ => se_data x | [] => [] end.

Section entries.
Context (es : list stored) (limit : Z).
Context (Hw : Forall stored_wf es) (Hs : StronglySorted stored_lt es) (Hc : chained es limit).

Lemma entries_apart x y : x ∈ es -> y ∈ es -> x = y \/ se_end x <= se_pos y \/ se_end y <= se_pos x.
Proof using Hw Hc.
  destruct (chained_sorted es limit Hc Hw) as [_ Hp]. clear -Hp. induction Hp as [|z l Hp IH Hf]; [set_solver|].
  rewrite Forall_forall in Hf. rewrite !elem_of_cons. intros [->|Hx] [->|Hy]; auto.
Qed.

Lemma entries_order x y : x ∈ es -> y ∈ es -> stored_lt x y -> se_end x <= se_pos y.
Proof using Hw Hs Hc.
  destruct (chained_sorted es limit Hc Hw) as [_ Hp]. revert Hs Hp. clear. intros Hs Hp.
  induction Hp as [|z l Hp IH Hf]; [set_solver|]. inversion_clear Hs as [|? ? Hs' Hf'].
  rewrite Forall_forall in Hf, Hf'. unfold stored_lt in *. rewrite !elem_of_cons. intros [->|Hx] [->|Hy] Hlt; auto; [lia|].
  apply Hf' in Hx. lia.
Qed.

Lemma data_at_ok x : x ∈ es -> data_at es (se_pos x) = se_data x.
Proof using Hw Hc.
  intros Hx. unfold data_at. pose proof Hw as Hw'. rewrite Forall_forall in Hw'.
  destruct (filter _ es) as [|y l] eqn:E.
  - exfalso. eapply not_elem_of_nil. rewrite <- E. apply list_elem_of_filter. split; [reflexivity|exact Hx].
  - assert (y ∈ y :: l) as Hy by by left. rewrite <- E in Hy. apply list_elem_of_filter in Hy as [Hp Hy].
    destruct (Hw' x Hx) as (_ & _ & _ & ? & _). destruct (Hw' y Hy) as (_ & _ & _ & ? & _).
    destruct (entries_apart x y Hx Hy) as [->|[?|?]]; [done|lia|lia].
Qed.

(** Sorted entries of the layer are placed one after the other. *)
Lemma placed_sorted l : (forall x, x ∈ l -> x ∈ es) -> StronglySorted stored_lt l -> placed_ok (map place l).
Proof using Hw Hs Hc.
  intros Hin Hl. pose proof Hw as Hw'. rewrite Forall_forall in Hw'. induction Hl as [|x l Hl IH Hf]; [by split; constructor|].
  destruct IH as [IH1 IH2]; [intros y Hy; apply Hin; by right|]. cbn [map]. split; constructor; [|exact IH1|exact IH2|].
  - destruct (Hw' x (Hin x ltac:(by left))) as (_ & _ & _ & ? & _). exact H.
  - apply Forall_forall. intros p (y & -> & Hy)%list_elem_of_fmap_1. rewrite Forall_forall in Hf. cbn.
    apply entries_order; [apply Hin; by left|apply Hin; by right|by apply Hf].
Qed.
End entries.

(** The planned blobs of every key, in the order of the keys. *)
Definition planned_init (x : stored) : planned_blob := planned x (se_init x).

Lemma flat_stored (N : Key -> list stored) blobs :
  osorted blobs -> (forall k l, (k, l) ∈ blobs -> l = map planned_init (N k) /\ Forall (fun x => se_key x = k) (N k)) ->
  exists fl, flat_blobs blobs = map place fl /\ fl = concat (map (fun e => N e.1) blobs)
  /\ (forall k, filter (fun x => se_key x = k) fl = if decide (k ∈ map fst blobs) then N k else []).
Proof.
  intros Ho HN. eexists. split; [|split; [reflexivity|]].
  - induction blobs as [|[k l] blobs IH]; [done|]. apply osorted_cons in Ho as [_ Ho].
    change (flat_blobs ((k, l) :: blobs)) with (flat_key k l ++ flat_blobs blobs). cbn [map concat fst].
    rewrite map_app, IH; [|done|intros; apply HN; by right]. f_equal.
    destruct (HN k l ltac:(by left)) as [-> Hk]. clear -Hk. induction Hk as [|x l Hx _ IHl]; [done|]. cbn [map flat_key].
    unfold flat_key in IHl. rewrite IHl. f_equal. unfold place. cbn. by rewrite Hx.
  - intros q. induction blobs as [|[k l] blobs IH]; [done|]. apply osorted_cons in Ho as [Hf Ho]. cbn [map concat fst].
    rewrite filter_app, IH; [|done|intros; apply HN; by right]. destruct (HN k l ltac:(by left)) as [_ Hk].
    rewrite Forall_forall in Hk. rewrite Forall_forall in Hf. destruct (decide (q = k)) as [->|Hne].
    + rewrite filter_all by done. rewrite decide_False, decide_True; [by rewrite app_nil_r|by left|].
      intros ([k' l'] & Ek & He)%list_elem_of_fmap_1. apply Hf in He. cbn in Ek, He. subst k'. by apply klt_irrefl in He.
    + rewrite filter_none by (intros x Hx Hq; apply Hne; rewrite <- Hq; by apply Hk). cbn.
      apply decide_ext. rewrite elem_of_cons. tauto.
Qed.

Lemma flat_sorted (N : Key -> list stored) (blobs : ordmap Key (list planned_blob)) :
  osorted blobs -> (forall k, k ∈ map fst blobs -> key_wf k) ->
  (forall k x, k ∈ map fst blobs -> x ∈ N k -> se_key x = k /\ in_u 64 (se_lsn x)) ->
  (forall k, StronglySorted stored_lt (N k)) -> StronglySorted stored_lt (concat (map (fun e => N e.1) blobs)).
Proof.
  intros Ho Hk HN Hs. induction blobs as [|[k l] blobs IH]; [constructor|]. apply osorted_cons in Ho as [Hf Ho]. cbn [map concat fst].
  apply StronglySorted_app_2; [|apply Hs|].
  2:{ apply IH; [done|intros; apply Hk; by right|intros; apply HN; [by right|done]]. }
  - intros x y Hx Hy. rewrite list_elem_of_In, in_concat in Hy. destruct Hy as (ly & Hly & Hy).
    rewrite <- list_elem_of_In in Hy. rewrite <- list_elem_of_In in Hly.
    apply list_elem_of_fmap_1 in Hly as ([k' l'] & -> & He).
    rewrite Forall_forall in Hf. pose proof (Hf _ He) as Hlt. cbn [fst] in *.
    assert (k' ∈ map fst blobs) as Hk'. { by apply (list_elem_of_fmap_2 fst blobs (k', l')). }
    destruct (HN k x ltac:(by left) Hx) as [<- Hlx]. destruct (HN k' y ltac:(by right) Hy) as [<- Hly].
    unfold klt in Hlt. cbn [kcmp Key_order] in Hlt. rewrite key_cmp_Z in Hlt by (apply Hk; (by left) || by right).
    change (key_Z (se_key x) < key_Z (se_key y)) in Hlt. unfold stored_lt, stored_Z, in_u in *. nia.
Qed.

Lemma div_ceil_multiple a b m : 0 < b -> a <= m -> m mod b = 0 -> div_ceil a b * b <= m.
Proof.
  intros Hb Ha Hm. pose proof (div_ceil_bounds a b Hb). pose proof (Z.div_mod m b ltac:(lia)). rewrite Hm in *.
  enough (div_ceil a b <= m / b) by nia. enough (div_ceil a b < m / b + 1) by lia. nia.
Qed.

Lemma pl_lookup_in k l blobs : osorted blobs -> (k, l) ∈ blobs -> pl_lookup k blobs = l.
Proof.
  intros Ho Hin. unfold pl_lookup. induction blobs as [|[k' l'] blobs IH]; [by apply not_elem_of_nil in Hin|].
  apply osorted_cons in Ho as [Hf Ho]. rewrite Forall_forall in Hf. rewrite filter_cons. cbn [fst].
  apply elem_of_cons in Hin as [[= <- <-]|Hin].
  - rewrite decide_True, filter_none by (try done; intros e He Hk; apply Hf in He; cbn in *; subst; by apply klt_irrefl in He).
    cbn. by rewrite app_nil_r.
  - rewrite decide_False by (intros ->; apply Hf in Hin; by apply klt_irrefl in Hin). by apply IH.
Qed.

Lemma pl_lookup_not_in k blobs : k ∉ map fst blobs -> pl_lookup k blobs = [].
Proof.
  intros Hn. unfold pl_lookup. rewrite filter_none; [done|]. intros e He <-. apply Hn. by apply (list_elem_of_fmap_2 fst blobs e).
Qed.

Lemma stored_lt_NoDup l : Forall stored_wf l -> StronglySorted stored_lt l -> NoDup (map (fun p : placed => blob_key p.2) (map place l)).
Proof.
  intros Hw Hs. rewrite map_map. cbn. induction Hs as [|x l Hs IH Hf]; [constructor|]. apply Forall_cons in Hw as [Hx Hw].
  cbn [map]. constructor; [|by apply IH]. intros (y & E & Hy)%list_elem_of_fmap_1. rewrite Forall_forall in Hf. apply Hf in Hy.
  unfold blob_key in E. cbn in E. injection E as E1 E2. unfold stored_lt, stored_Z in Hy. rewrite E1, E2 in Hy. lia.
Qed.

(** From the blobs planned for each key to the reads. *)
Lemma plan_to_reads es limit blobs max (N : Key -> list stored) :
  Forall stored_wf es -> StronglySorted stored_lt es -> chained es limit -> limit mod CHUNK_SIZE = 0 -> osorted blobs ->
  (forall k, pl_lookup k blobs = map planned_init (N k)) -> (forall k, StronglySorted stored_lt (N k)) ->
  (forall k x, x ∈ N k -> x ∈ es /\ se_key x = k) -> (forall k, k ∈ map fst blobs -> key_wf k) ->
  exists reads groups fl, planner_finish (mkPlanner blobs None max) = Some reads
  /\ Forall2 group_ok reads groups /\ concat groups = map place fl /\ (forall x, x ∈ fl -> x ∈ es)
  /\ NoDup (map (fun p : placed => blob_key p.2) (map place fl)) /\ (forall k, filter (fun x => se_key x = k) fl = N k)
  /\ Forall (fun r => vr_end r <= limit) reads.
Proof.
  intros Hw Hs Hc Hlim Ho Hl Hsort Hsub Hk.
  destruct (flat_stored N blobs Ho) as (fl & E1 & E2 & E3).
  { intros k l Hin. rewrite <- Hl, (pl_lookup_in k l) by done. split; [done|]. apply Forall_forall. intros x Hx. by apply Hsub. }
  assert (forall x, x ∈ fl -> x ∈ es) as Hfl.
  { intros x Hx. assert (x ∈ filter (fun y => se_key y = se_key x) fl) as Hx' by by apply list_elem_of_filter.
    rewrite E3 in Hx'. case_decide; [by apply Hsub in Hx' as [??]|by apply not_elem_of_nil in Hx']. }
  assert (StronglySorted stored_lt fl) as Hfs.
  { rewrite E2. apply flat_sorted; [done..| |done]. intros k x _ Hx. apply Hsub in Hx as [Hx <-]. split; [done|].
    rewrite Forall_forall in Hw. apply (Hw x Hx). }
  pose proof (placed_sorted es limit Hw Hs Hc fl Hfl Hfs) as Hp.
  destruct (planner_finish_ok (mkPlanner blobs None max)) as (reads & groups & F1 & F2 & F3); [cbn [pl_blobs]; by rewrite E1|].
  cbn [pl_blobs] in F3. rewrite E1 in F3. exists reads, groups, fl. split_and!; [done..| | |].
  - apply stored_lt_NoDup; [|done]. rewrite Forall_forall in *. auto.
  - intros k. rewrite E3. case_decide as Hin; [done|]. pose proof (Hl k) as Hlk. rewrite pl_lookup_not_in in Hlk by done.
    by destruct (N k).
  - destruct (chained_sorted es limit Hc Hw) as [Hend _]. rewrite Forall_forall in Hend.
    assert (forall p, p ∈ concat groups -> p.1.2 <= limit) as Hpl.
    { intros p Hin. rewrite F3 in Hin. apply list_elem_of_fmap_1 in Hin as (x & -> & Hx). by apply Hend, Hfl. }
    clear F1 F3. induction F2 as [|read g reads groups Hg F2 IH]; constructor.
    + destruct (go_end _ _ Hg) as (b & Hb & ->). apply div_ceil_multiple; [done| |done]. apply Hpl. cbn [concat].
      apply elem_of_app. left. by apply last_Some_elem_of.
    + apply IH. intros p Hin. apply Hpl. cbn [concat]. set_solver.
Qed.

(** ** Executing the reads *)

Lemma push_list_app us1 us2 : forall st, push_list (us1 ++ us2) st = (st' ← push_list us1 st; push_list us2 st').
Proof.
  induction us1 as [|u us1 IH]; intros st; [done|]. cbn [app push_list]. destruct (push_update u st); [|done].
  cbn [mbind option_bind]. apply IH.
Qed.

Lemma Forall2_rev' {A B} (R : A -> B -> Prop) l1 l2 : Forall2 R l1 l2 -> Forall2 R (rev l1) (rev l2).
Proof. intros H. rewrite !rev_alt. by apply Forall2_reverse. Qed.

Section reads.
Context `{ZS : !Zstd}.
Context (file : VirtualFile) (limit : Z) (bytes : list byte) (completes : BlobMeta -> bool)
  (on_disk : list byte -> OnDiskValue) (D : Z -> list byte).
Context (Hf : file_holds file limit bytes).

Definition upd (p : placed) : update := mkUpdate (bm_key p.2) (bm_lsn p.2) (completes p.2) (on_disk (D p.1.1)).

Lemma one_read_ok (order : forall A, list A -> list A) read g cap st st' :
  (forall A (l : list A), order A l = l) \/ (forall A (l : list A), order A l = rev l) ->
  group_ok read g -> vr_end read <= limit -> vr_size read <= cap ->
  Forall (fun b => stored_at bytes b.1.1 b.1.2 (D b.1.1)) g -> NoDup (map (fun p : placed => blob_key p.2) g) ->
  push_list (map upd (order _ g)) st = Some st' ->
  ('(ios, st) ← update_blobs completes (order _ (vm_data (vr_blobs_at read))) [] st;
   execute_read file (order _) on_disk cap read ios st) = Some st'.
Proof.
  intros Hord Hg Hlim Hcap Hst Hnd Hp.
  destruct (read_blobs_ok file limit bytes read g (fun b => D b.1.1) cap Hf Hg Hlim Hcap Hst) as (buf & vbs & Hr & Hv).
  assert (Forall2 (fun vb b => vb_meta vb = b.2 /\ vb_read vb buf = Ok (D b.1)) (order _ vbs) (order _ (map (fun b => (b.1.1, b.2)) g))) as Hv'.
  { assert (Forall2 (fun vb (b : Z * BlobMeta) => vb_meta vb = b.2 /\ vb_read vb buf = Ok (D b.1)) vbs (map (fun b => (b.1.1, b.2)) g)) as H.
    { clear -Hv. induction Hv; constructor; done. }
    destruct Hord as [Ho|Ho]; rewrite !Ho; [done|by apply Forall2_rev']. }
  destruct (two_phase completes on_disk (fun b => D b.1) buf (order _ vbs) _ Hv') with (st := st) (st' := st') as (ios & st1 & E1 & E2).
  - destruct Hord as [Ho|Ho]; rewrite !Ho, ?map_rev, ?map_map; [exact Hnd|]. rewrite rev_alt.
    by rewrite (reverse_Permutation (map (fun p : placed => blob_key p.2) g)).
  - rewrite <- Hp. f_equal. destruct Hord as [Ho|Ho]; rewrite !Ho, ?map_rev, ?map_map; done.
  - rewrite (go_blobs _ _ Hg), E1. cbn [mbind option_bind]. unfold execute_read. rewrite Hr, E2. done.
Qed.
End reads.

(** ** What a layer delivers *)

(** The values of a layer, as a read delivers them: for each key of the key space the
    values needed, the newest first, for the other keys none. *)
Definition delivers (us : list update) (rgs : list KRange) (vals : Key -> list update) : Prop :=
  Forall (fun u => key_wf (up_key u)) us
  /\ forall k, key_wf k -> (member rgs (key_Z k) -> mine k us = vals k) /\ (~ member rgs (key_Z k) -> mine k us = []).

(** What the reader may already hold: a key that is complete needs nothing of this layer. *)
Definition ready (st : ValuesReconstructState) (rgs : list KRange) (vals : Key -> list update) : Prop :=
  chans_ok st /\ forall k, key_wf k -> member rgs (key_Z k) -> vals k <> [] ->
    tracked k /\ situation_of st k = Continue.

Lemma push_delivers us rgs vals st :
  delivers us rgs vals -> ready st rgs vals -> (forall k, ends_at_completion (vals k)) ->
  exists st', push_list us st = Some st' /\ pushed us st st'.
Proof.
  intros [Hwf Hdel] [Hch Hready] Hends. rewrite Forall_forall in Hwf.
  assert (forall u, u ∈ us -> mine (up_key u) us <> []) as Hus.
  { intros u Hu E. eapply not_elem_of_nil. rewrite <- E. by apply list_elem_of_filter. }
  assert (forall k, mine k us <> [] -> key_wf k) as Hkw.
  { intros k Hne. destruct (mine k us) as [|u t] eqn:E; [done|]. assert (u ∈ mine k us) as Hu by (rewrite E; by left).
    apply list_elem_of_filter in Hu as [<- Hu]. by apply Hwf. }
  assert (forall k, mine k us <> [] -> mine k us = vals k /\ tracked k /\ situation_of st k = Continue) as Hrk.
  { intros k Hne. pose proof (Hkw k Hne) as Hk. destruct (Hdel k Hk) as [D1 D2].
    destruct (decide (member rgs (key_Z k))) as [Hm|Hm]; [|by rewrite D2 in Hne].
    split; [by apply D1|]. apply Hready; [done|done|]. by rewrite <- D1. }
  apply push_list_ok; [done|apply Forall_forall; intros u Hu; by apply Hrk, Hus|intros k Hne; by apply Hrk|].
  intros k. destruct (mine k us) as [|u t] eqn:E; [by intros [] ? ?|]. rewrite <- E.
  destruct (Hrk k) as (-> & _); [by rewrite E|apply Hends].
Qed.

Lemma values_at_app lr k l1 l2 : values_at lr k (l1 ++ l2) = values_at lr k l1 ++ values_at lr k l2.
Proof. apply filter_app. Qed.

Lemma values_at_none lr k l :
  (forall x, x ∈ l -> se_key x = k -> in_lsns lr (se_lsn x) -> False) -> values_at lr k l = [].
Proof. intros H. apply filter_none. intros x Hx [H1 H2]. eauto. Qed.

Section range.
Context (es : list stored) (lr : Range Lsn) (range : KRange).
Context (Hw : Forall stored_wf es) (Hs : StronglySorted stored_lt es) (Hr : range_ok range) (Hlr : in_u 64 (start lr)).

Lemma delta_suffix :
  let k := delta_key_from_key_lsn (start range) (start lr) in
  exists l0 l, es = l0 ++ l /\ filter (fun e => be_Z k <= be_Z e.1) (map delta_raw es) = map delta_raw l
  /\ Forall (fun x => stored_Z x < rs range * 2 ^ 64 + start lr) l0
  /\ Forall (fun x => rs range * 2 ^ 64 + start lr <= stored_Z x) l.
Proof.
  intros k. destruct (filter_suffix stored_lt (fun x => be_Z k <= stored_Z x) es Hs) as (l0 & E & H0).
  { unfold stored_lt. lia. }
  assert (be_Z k = rs range * 2 ^ 64 + start lr) as Hk by (unfold k; rewrite be_Z_delta_key; [done|apply Hr|done]).
  clearbody k. exists l0, (filter (fun x => be_Z k <= stored_Z x) es). split_and!; [done| |..].
  - clear E H0. rewrite Forall_forall in Hw. assert (forall x, x ∈ es -> be_Z (delta_raw x).1 = stored_Z x) as Hz.
    { intros x Hx. destruct (Hw x Hx) as (H1 & _ & H2 & _). by apply be_Z_delta_key. }
    clear Hs Hw. induction es as [|x es' IH]; [done|]. cbn [map]. rewrite !filter_cons, Hz by by left. cbv beta.
    case_decide; [cbn [map]; f_equal|]; apply IH; intros y Hy; apply Hz; by right.
  - eapply Forall_impl; [exact H0|]. cbn. rewrite Hk. lia.
  - apply Forall_forall. intros x [Hx _]%list_elem_of_filter. cbn in Hx. by rewrite Hk in Hx.
Qed.

Lemma delta_range_values l0 l1 l2 :
  es = l0 ++ l1 ++ l2 ->
  Forall (fun x => stored_Z x < rs range * 2 ^ 64 + start lr) l0 ->
  Forall (fun x => rs range * 2 ^ 64 + start lr <= stored_Z x) (l1 ++ l2) ->
  Forall (fun x => delta_at_end range lr x = false) l1 ->
  match l2 with [] => True | y :: _ => delta_at_end range lr y = true end ->
  forall k, key_wf k ->
    (in_range range (key_Z k) -> values_at lr k l1 = values_at lr k es)
    /\ (~ in_range range (key_Z k) -> values_at lr k l1 = []).
Proof.
  intros E H0 H1 Hne Hend k Hk. rewrite !Forall_forall in *. unfold in_range, in_lsns, stored_Z, delta_at_end in *.
  assert (forall x, x ∈ l1 -> x ∈ es) as Sub1 by (intros x Hx; rewrite E; set_solver).
  split; intros Hin.
  - rewrite E, !values_at_app. rewrite (values_at_none lr k l0), (values_at_none lr k l2); [by rewrite app_nil_r|..].
    + intros z Hz <- Hl. destruct l2 as [|y l2]; [by apply not_elem_of_nil in Hz|].
      assert (y ∈ es /\ z ∈ es) as [Hy' Hz'] by (rewrite E; set_solver). pose proof (Hw y Hy') as Wy. pose proof (Hw z Hz') as Wz.
      assert (z = y \/ stored_lt y z) as Hyz.
      { rewrite E in Hs. apply StronglySorted_app_inv in Hs as (_ & Hs1 & _). apply StronglySorted_app_inv in Hs1 as (_ & Hs2 & _).
        inversion_clear Hs2 as [|? ? _ Hf]. rewrite Forall_forall in Hf. apply elem_of_cons in Hz as [->|Hz]; auto. }
      rewrite orb_true_iff, andb_true_iff, !bool_decide_eq_true in Hend. unfold in_lsns in Hl.
      destruct Hyz as [->|[Hlt|[Hke Hlt]]%stored_lt_cases]; [lia|lia| |done|done]. rewrite Hke in *. lia.
    + intros z Hz <- Hl. specialize (H0 z Hz). unfold in_lsns in Hl. lia.
  - apply values_at_none. intros z Hz <- Hl. apply Hin. specialize (Hne z Hz). rewrite orb_false_iff in Hne.
    destruct Hne as [Hne _]. apply bool_decide_eq_false in Hne. specialize (H1 z ltac:(set_solver)).
    destruct (Hw z (Sub1 z Hz)) as (_ & _ & Hlz & _). unfold in_u in *. split; [|lia].
    destruct (decide (rs range <= key_Z (se_key z))); [done|]. nia.
Qed.
End range.

Lemma key_steps lr k l : forall acc,
  fold_left key_step (filter (fun e => se_key e.1 = k) (delta_flagged lr l)) (map planned_init acc)
  = map planned_init (fold_left keep (values_at lr k l) acc).
Proof.
  induction l as [|x l IH]; intros acc; [done|]. unfold delta_flagged in *. cbn [map]. unfold values_at in *. rewrite !filter_cons.
  cbn [fst]. destruct (decide (se_key x = k)) as [Hk|Hk]; [|rewrite decide_False by tauto; apply IH].
  cbn [fold_left key_step]. unfold delta_flag. destruct (decide (in_lsns lr (se_lsn x))) as [Hl|Hl].
  - rewrite bool_decide_true by exact Hl. cbn [negb]. rewrite decide_True by done. cbn [fold_left]. unfold keep at 2.
    destruct (se_init x) eqn:Ei.
    + replace [planned x true] with (map planned_init [x]) by (cbn; unfold planned_init; by rewrite Ei). apply IH.
    + replace (map planned_init acc ++ [planned x false]) with (map planned_init (acc ++ [x]))
        by (rewrite map_app; cbn; unfold planned_init; by rewrite Ei). apply IH.
  - rewrite bool_decide_false by exact Hl. cbn [negb]. rewrite decide_False by tauto. apply IH.
Qed.

Lemma fold_add_keys L : forall blobs k, osorted blobs -> k ∈ map fst (fold_left add_stored L blobs) ->
  k ∈ map fst blobs \/ exists e, e ∈ L /\ se_key e.1 = k.
Proof.
  induction L as [|e L IH]; intros blobs k Ho Hk; [by left|]. cbn [fold_left] in Hk.
  apply IH in Hk as [Hk|(e' & He & <-)]; [|right; exists e'; split; [by right|done]|by apply add_stored_sorted].
  assert (k = se_key e.1 \/ k ∈ map fst blobs) as [->|H]; [|right; exists e; split; [by left|done]|by left].
  destruct e as [x []]; cbn [add_stored fst] in *; [|by right|];
    (apply list_elem_of_fmap_1 in Hk as ([k' v'] & -> & Hin); apply elem_of_oinsert in Hin as [[= -> _]|[Hin _]];
     [by left|right; by apply (list_elem_of_fmap_2 fst blobs (k', v'))|done]).
Qed.

Lemma filter_rev {A} (P : A -> Prop) `{!forall x, Decision (P x)} (l : list A) : filter P (rev l) = rev (filter P l).
Proof.
  induction l as [|x l IH]; [done|]. cbn [rev]. rewrite filter_app, IH, !filter_cons, filter_nil. case_decide; cbn; [done|].
  by rewrite app_nil_r.
Qed.

Lemma mine_map (f : stored -> update) k l :
  (forall x, up_key (f x) = se_key x) -> mine k (map f l) = map f (filter (fun x => se_key x = k) l).
Proof.
  intros Hf. unfold mine. induction l as [|x l IH]; [done|]. cbn [map]. rewrite !filter_cons, Hf. case_decide; cbn; by rewrite IH.
Qed.


(** The plan of one range. *)
Section plan.
Context (es : list stored) (limit : Z) (lr : Range Lsn) (max : Z).
Context (Hw : Forall stored_wf es) (Hs : StronglySorted stored_lt es) (Hc : chained es limit) (Hlr : in_u 64 (start lr)).

Definition range_items (range : KRange) : list (list byte * Z) :=
  filter (fun e => be_Z (delta_key_from_key_lsn (start range) (start lr)) <= be_Z e.1) (map delta_raw es).

Lemma plan_one range blobs :
  range_ok range ->
  exists pl b l1, delta_plan_items range lr (range_items range) (mkPlanner blobs None max) = Some (pl, b)
  /\ (if b : bool then pl else handle_range_end pl limit) = mkPlanner (fold_left add_stored (delta_flagged lr l1) blobs) None max
  /\ (forall x, x ∈ l1 -> x ∈ es)
  /\ forall k, key_wf k -> (in_range range (key_Z k) -> values_at lr k l1 = values_at lr k es)
                        /\ (~ in_range range (key_Z k) -> values_at lr k l1 = []).
Proof using Hw Hs Hc Hlr.
  intros Hr. destruct (delta_suffix es lr range Hw Hs Hr Hlr) as (l0 & l & E & Ef & F0 & F1). unfold range_items. rewrite Ef.
  assert (chained l limit) as Hcl by (rewrite E in Hc; by apply chained_app in Hc as [_ ?]).
  assert (Forall stored_wf l) as Hwl by (rewrite E in Hw; by apply Forall_app in Hw as [_ ?]).
  assert (Forall (fun x => rs range <= key_Z (se_key x)) l) as Hge.
  { rewrite Forall_forall in *. intros x Hx. specialize (F1 x Hx). destruct (Hwl x Hx) as (_ & _ & Hlx & _).
    unfold stored_Z, in_u in *. destruct (decide (rs range <= key_Z (se_key x))); [done|]. nia. }
  destruct (delta_plan_range range lr l blobs max limit Hwl Hr Hge Hcl) as (l1 & l2 & b & -> & P1 & P2 & pl & P3 & P4 & _).
  exists pl, b, l1. split_and!; [exact P3|exact P4| |].
  - intros x Hx. rewrite E. set_solver.
  - eapply (delta_range_values es lr range); done.
Qed.

(** The loop over the ranges, whatever its step does beside planning the range. *)
Context (plan_ranges : list KRange -> VectoredReadPlanner -> outcome gv_fail VectoredReadPlanner).
Context (Hnil : forall pl, plan_ranges [] pl = Ok pl).
Context (Hcons : forall range rgs blobs pl b, range_ok range ->
  delta_plan_items range lr (range_items range) (mkPlanner blobs None max) = Some (pl, b) ->
  plan_ranges (range :: rgs) (mkPlanner blobs None max) = plan_ranges rgs (if b : bool then pl else handle_range_end pl limit)).

Lemma plan_ranges_ok rgs : sorted rgs -> forall blobs,
  exists l, plan_ranges rgs (mkPlanner blobs None max) = Ok (mkPlanner (fold_left add_stored (delta_flagged lr l) blobs) None max)
  /\ (forall x, x ∈ l -> x ∈ es)
  /\ forall k, key_wf k -> (member rgs (key_Z k) -> values_at lr k l = values_at lr k es)
                        /\ (~ member rgs (key_Z k) -> values_at lr k l = []).
Proof using Hw Hs Hc Hlr Hnil Hcons.
  induction rgs as [|range rgs IH]; intros Hso blobs.
  - exists []. rewrite Hnil. split_and!; [done|set_solver|]. intros k _. rewrite member_nil. done.
  - apply sorted_cons in Hso as (Hr & Hlt & Hso). destruct (plan_one range blobs Hr) as (pl & b & l1 & E2 & E3 & Sub & Hv).
    destruct (IH Hso (fold_left add_stored (delta_flagged lr l1) blobs)) as (l & E4 & Sub' & Hv').
    exists (l1 ++ l). split_and!.
    + rewrite (Hcons range rgs blobs pl b Hr E2), E3. unfold delta_flagged at 2. rewrite map_app, fold_left_app. exact E4.
    + intros x [Hx|Hx]%elem_of_app; auto.
    + intros k Hk. specialize (Hv k Hk) as [V1 V2]. specialize (Hv' k Hk) as [V3 V4]. rewrite values_at_app, member_cons.
      destruct (decide (in_range range (key_Z k))) as [Hin|Hin].
      * assert (~ member rgs (key_Z k)) as Hnm.
        { intros (r & Hr' & Hr2). rewrite Forall_forall in Hlt. specialize (Hlt r Hr'). unfold in_range in *. lia. }
        rewrite V1, V4, app_nil_r by done. split; [done|tauto].
      * rewrite V2 by done. split; [intros [?|?]; [done|]; cbn; auto|intros; cbn; auto].
Qed.

(** The reads of a plan cover, for each key of the key space, the values needed. *)
Lemma plan_reads_ok rgs :
  limit mod CHUNK_SIZE = 0 -> sorted rgs ->
  exists reads groups fl, (planner ← plan_ranges rgs (planner_new max); of_option (planner_finish planner)) = Ok reads
  /\ Forall2 group_ok reads groups /\ concat groups = map place fl /\ (forall x, x ∈ fl -> x ∈ es)
  /\ NoDup (map (fun p : placed => blob_key p.2) (map place fl)) /\ Forall (fun r => vr_end r <= limit) reads
  /\ forall k, key_wf k -> (member rgs (key_Z k) -> filter (fun x => se_key x = k) fl = needed_of lr k es)
                        /\ (~ member rgs (key_Z k) -> filter (fun x => se_key x = k) fl = []).
Proof using Hw Hs Hc Hlr Hnil Hcons.
  intros Hlim Hso. destruct (plan_ranges_ok rgs Hso []) as (l & E1 & Hsub & Hv).
  set (blobs := fold_left add_stored (delta_flagged lr l) []) in *.
  set (N := fun k => fold_left keep (values_at lr k l) []).
  assert (osorted ([] : ordmap Key (list planned_blob))) as Hn by constructor.
  assert (osorted blobs) as Ho by by apply fold_add_sorted.
  assert (forall k x, x ∈ N k -> x ∈ l /\ se_key x = k) as HN.
  { intros k x Hx. apply (needed_of_in lr k l x) in Hx. tauto. }
  assert (forall x, x ∈ l -> key_wf (se_key x)) as Hwl. { intros x Hx%Hsub. rewrite Forall_forall in Hw. apply (Hw x Hx). }
  destruct (plan_to_reads es limit blobs max N) as (reads & groups & fl & F1 & F2 & F3 & F4 & F5 & F6 & F7); try done.
  { intros k. unfold blobs. rewrite pl_lookup_fold by done. apply (key_steps lr k l []). }
  { intros k. apply fold_keep_sorted. cbn [app]. destruct (values_at lr k l) as [|x0 t] eqn:Ev; [constructor|]. rewrite <- Ev.
    assert (x0 ∈ values_at lr k l) as Hx0 by (rewrite Ev; by left). apply list_elem_of_filter in Hx0 as [[<- _] Hx0].
    destruct (Hv (se_key x0) (Hwl x0 Hx0)) as [V1 V2]. destruct (decide (member rgs (key_Z (se_key x0)))).
    - rewrite V1 by done. by apply StronglySorted_filter'.
    - by rewrite V2 in Ev. }
  { intros k x Hx. apply HN in Hx as [??]. auto. }
  { intros k [Hk|(e & He & <-)]%fold_add_keys; [by apply not_elem_of_nil in Hk| |done].
    apply list_elem_of_fmap_1 in He as (x & -> & Hx). by apply Hwl. }
  exists reads, groups, fl. split_and!; try done.
  - unfold planner_new. rewrite E1. cbn [mbind outcome_bind]. by rewrite F1.
  - intros k Hk. rewrite F6. unfold N, needed_of. destruct (Hv k Hk) as [V1 V2]. split; intros Hm; [by rewrite V1|by rewrite V2].
Qed.
End plan.

(** The updates made of these values. *)
Lemma delivers_map (f : stored -> update) es fl rgs (V : Key -> list stored) :
  Forall stored_wf es -> (forall x, x ∈ fl -> x ∈ es) -> (forall x, up_key (f x) = se_key x) ->
  (forall k, key_wf k -> (member rgs (key_Z k) -> filter (fun x => se_key x = k) fl = V k)
                      /\ (~ member rgs (key_Z k) -> filter (fun x => se_key x = k) fl = [])) ->
  delivers (map f fl) rgs (fun k => map f (V k)).
Proof.
  intros Hw Hsub Hf Hv. rewrite Forall_forall in Hw. split.
  - apply Forall_forall. intros u (x & -> & Hx)%list_elem_of_fmap_1. rewrite Hf. by apply Hw, Hsub.
  - intros k Hk. rewrite mine_map by done. destruct (Hv k Hk) as [V1 V2]. split; intros Hm; [by rewrite V1|by rewrite V2].
Qed.
