(* ===== verification/LayerReadFacts.v ===== *)
(** * Reading delta and image layers

    A delta layer that holds a list of entries, read for a key space and a range of
    LSNs, delivers for each key of the key space the entries of the key in the range,
    from the newest down to the first that initializes the page; an image layer
    delivers its image of each key. *)

From S2P Require Import Prelude Lsn XlogUtils Key Shard KeySpace KeySpaceFacts KeySpaceSets OrdMap LayerCoverage LayerName.
From S2P Require Import DiskBtree DiskBtreeSearch VecMap BlobIo BlobIoFacts PlannerFacts ReconstructState LayerFile ReconstructFacts LayerFileFacts.

Lemma concat_rev {A} (l : list (list A)) : concat (map (@rev A) (rev l)) = rev (concat l).
Proof.
  induction l as [|x l IH]; [done|]. cbn [rev concat]. rewrite map_app, concat_app, IH, rev_app_distr. cbn.
  by rewrite app_nil_r.
Qed.

Lemma concat_rev_perm {A} (l : list (list A)) : concat (rev l) ≡ₚ concat l.
Proof. induction l as [|x l IH]; [done|]. cbn [rev]. rewrite concat_app, IH. cbn. rewrite app_nil_r. apply Permutation_app_comm. Qed.


(** What a delta layer holds: its index lists the entries in order, the blobs follow
    one another up to the index, and can be read. *)
Section delta.
Context `{ZS : !Zstd, VC : !ValueCodec, SC : !SummaryCodec}.

Definition dl_limit (d : DeltaLayerInner) : Z := dl_index_start_blk d * Z.of_nat PAGE_SZ.

Record delta_holds (fuel : nat) (d : DeltaLayerInner) (es : list stored) : Prop := {
  dh_index k : length k = DELTA_KEY_SIZE ->
    index_stream fuel (dl_file d) (dl_index_start_blk d) (dl_index_root_blk d) k
    = (filter (fun e => be_Z k <= be_Z e.1) (map delta_raw es), Ok tt);
  dh_wf : Forall stored_wf es;
  dh_sorted : StronglySorted stored_lt es;
  dh_chained : chained es (dl_limit d);
  dh_file : exists bytes, file_holds (dl_file d) (dl_limit d) bytes
    /\ Forall (fun x => stored_at bytes (se_pos x) (se_end x) (se_data x)) es;
  dh_max : is_Some (dl_max_vectored_read_bytes d)
}.

Definition delta_update (x : stored) : update :=
  mkUpdate (se_key x) (se_lsn x) (se_init x) (WalRecordOrImage (se_data x)).

Lemma delta_do_reads_ok file limit bytes D cap :
  file_holds file limit bytes -> forall reads groups, Forall2 group_ok reads groups ->
  Forall (fun r => vr_end r <= limit /\ vr_size r <= cap) reads ->
  Forall (fun b => stored_at bytes b.1.1 b.1.2 (D b.1.1)) (concat groups) ->
  NoDup (map (fun p : placed => blob_key p.2) (concat groups)) -> forall st st',
  push_list (map (upd bm_will_init WalRecordOrImage D) (concat (map (@rev _) groups))) st = Some st' ->
  delta_do_reads file cap reads st = Some st'.
Proof.
  intros Hf. induction 1 as [|read g reads groups Hg _ IH]; intros Hr Hst Hnd st st' Hp; [done|].
  apply Forall_cons in Hr as [[Hlim Hcap] Hr]. cbn [map concat] in Hst, Hnd, Hp. rewrite map_app in Hnd, Hp.
  apply Forall_app in Hst as [Hst1 Hst2]. apply NoDup_app in Hnd as (Hnd1 & _ & Hnd2). rewrite push_list_app in Hp.
  destruct (push_list _ st) as [st1|] eqn:E; [|done]. cbn [mbind option_bind] in Hp. cbn [delta_do_reads].
  pose proof (one_read_ok file limit bytes bm_will_init WalRecordOrImage D Hf (@rev) read g cap st st1) as H1.
  specialize (H1 ltac:(by right) Hg Hlim Hcap Hst1 Hnd1 E).
  destruct (update_blobs bm_will_init (rev (vm_data (vr_blobs_at read))) [] st) as [[ios st2]|]; [|done].
  cbn [mbind option_bind] in *. rewrite H1. cbn [mbind option_bind]. by apply IH.
Qed.

Lemma min_buffer_ok reads max r : r ∈ reads -> vr_size r <= get_min_read_buffer_size reads max.
Proof.
  intros Hr. unfold get_min_read_buffer_size. destruct reads as [|r0 reads]; [by apply not_elem_of_nil in Hr|].
  revert Hr. generalize (r0 :: reads). intros l. induction l as [|x l IH]; [set_solver|]. cbn [fold_right].
  intros [->|Hr]%elem_of_cons; [lia|]. specialize (IH Hr). lia.
Qed.

(** Going down, only the last value kept may complete the key. *)
Lemma needed_ends lr k l : ends_at_completion (map delta_update (rev (fold_left keep (values_at lr k l) []))).
Proof.
  pose proof (fold_keep_tail (values_at lr k l) [] ltac:(done)) as Ht.
  destruct (fold_left keep (values_at lr k l) []) as [|x t]; intros l1 u l2 E Hu.
  - by destruct l1.
  - cbn [rev tail] in *. rewrite map_app in E. destruct l2 as [|z l2' _] using rev_ind; [done|]. exfalso.
    rewrite app_comm_cons, app_assoc in E. apply app_inj_tail in E as [E _].
    assert (u ∈ map delta_update (rev t)) as Hin by (rewrite E; set_solver).
    apply list_elem_of_fmap_1 in Hin as (y & -> & Hy). rewrite Forall_forall in Ht. cbn in Hu.
    rewrite (Ht y) in Hu; [done|]. by apply list_elem_of_In, in_rev, list_elem_of_In.
Qed.

Definition delta_values (es : list stored) (lr : Range Lsn) (k : Key) : list update :=
  map delta_update (rev (needed_of lr k es)).

Lemma page_chunks blk : (blk * Z.of_nat PAGE_SZ) mod CHUNK_SIZE = 0.
Proof. unfold CHUNK_SIZE. change (Z.of_nat PAGE_SZ) with (16 * 512). by rewrite Z.mul_assoc, Z.mod_mul. Qed.

Lemma delta_plan_ok fuel d es ks lr max :
  delta_holds fuel d es -> sorted (ranges ks) -> in_u 64 (start lr) ->
  exists reads groups fl, delta_plan_reads fuel d ks lr (planner_new max) = Ok reads
  /\ Forall2 group_ok reads groups /\ concat groups = map place fl /\ (forall x, x ∈ fl -> x ∈ es)
  /\ NoDup (map (fun p : placed => blob_key p.2) (map place fl)) /\ Forall (fun r => vr_end r <= dl_limit d) reads
  /\ delivers (map delta_update (rev fl)) (ranges ks) (delta_values es lr).
Proof.
  intros Hd Hso Hlr. pose proof Hd as [Hi Hw Hs Hc _ _].
  destruct (plan_reads_ok es (dl_limit d) lr max Hw Hs Hc Hlr (fun rgs => delta_plan_ranges fuel d rgs lr (dl_limit d)))
    with (rgs := ranges ks) as (reads & groups & fl & F1 & F2 & F3 & F4 & F5 & F6 & F7); [done| |apply page_chunks|done|].
  - intros range rgs blobs pl b Hr E. cbn [delta_plan_ranges]. rewrite Hi by apply length_delta_key. fold (range_items es lr range).
    rewrite E. cbn [of_option mbind outcome_bind stream_end]. by destruct b.
  - exists reads, groups, fl. split_and!; try done. apply delivers_map with es; [done| |done|].
    + intros x Hx. apply F4. by apply list_elem_of_In, in_rev, list_elem_of_In.
    + intros k Hk. rewrite filter_rev. destruct (F7 k Hk) as [V1 V2]. split; intros Hm; [by rewrite V1|by rewrite V2].
Qed.

(** Reading a delta layer. *)
Lemma delta_read_ok fuel d es ks lr st :
  delta_holds fuel d es -> sorted (ranges ks) -> in_u 64 (start lr) -> ready st (ranges ks) (delta_values es lr) ->
  exists st' us, delta_get_values_reconstruct_data fuel d ks lr st = Ok st' /\ pushed us st st'
  /\ delivers us (ranges ks) (delta_values es lr).
Proof.
  intros Hd Hso Hlr Hready. pose proof Hd as [_ Hw Hs Hc (bytes & Hf & Hst) [max Hmax]].
  destruct (delta_plan_ok fuel d es ks lr max Hd Hso Hlr) as (reads & groups & fl & F1 & F2 & F3 & F4 & F5 & F6 & F7).
  destruct (push_delivers _ _ _ st F7 Hready) as (st' & Hp & Hpu); [intros k; apply needed_ends|].
  exists st'. eexists. split_and!; [|exact Hpu|exact F7].
  unfold delta_get_values_reconstruct_data, delta_do_reads_and_update_state.
  rewrite Hmax. cbn [of_option mbind outcome_bind option_bind]. rewrite F1. cbn [mbind outcome_bind].
  rewrite (delta_do_reads_ok (dl_file d) (dl_limit d) bytes (data_at es) (get_min_read_buffer_size reads max) Hf (rev reads) (rev groups)) with (st' := st').
  - done.
  - by apply Forall2_rev'.
  - rewrite Forall_forall in *. intros r Hr%list_elem_of_In%in_rev%list_elem_of_In. split; [auto|by apply min_buffer_ok].
  - apply Forall_forall. intros p Hin%list_elem_of_In%in_concat. destruct Hin as (g & Hg%in_rev & Hin).
    assert (p ∈ concat groups) as Hp' by (apply list_elem_of_In, in_concat; eauto). rewrite F3 in Hp'.
    apply list_elem_of_fmap_1 in Hp' as (x & -> & Hx). cbn [place fst snd]. rewrite (data_at_ok es (dl_limit d)) by auto.
    rewrite Forall_forall in Hst. by apply Hst, F4.
  - rewrite <- F3 in F5. by rewrite (Permutation_map _ (concat_rev_perm groups)).
  - rewrite concat_rev, F3, <- map_rev, map_map. rewrite <- Hp. f_equal. apply map_ext_in. intros x Hx%in_rev%list_elem_of_In.
    unfold upd, delta_update. cbn. by rewrite (data_at_ok es (dl_limit d)) by auto.
Qed.
End delta.
(** ** Image layers *)

Definition image_raw (x : stored) : list byte * Z := (write_to_byte_slice (se_key x), se_pos x).

Definition image_lsns (lsn : Lsn) : Range Lsn := mkRange lsn (lsn + 1).

Section image.
Context `{ZS : !Zstd, VC : !ValueCodec, SC : !SummaryCodec}.

Definition ml_limit (m : ImageLayerInner) : Z := ml_index_start_blk m * Z.of_nat PAGE_SZ.

(** The entries of an image layer have its LSN; none is a record. *)
Definition image_entry (lsn : Lsn) (x : stored) : Prop := se_lsn x = lsn /\ se_init x = false.

Record image_holds (fuel : nat) (m : ImageLayerInner) (es : list stored) : Prop := {
  ih_index k : length k = KEY_SIZE ->
    index_stream fuel (ml_file m) (ml_index_start_blk m) (ml_index_root_blk m) k
    = (filter (fun e => be_Z k <= be_Z e.1) (map image_raw es), Ok tt);
  ih_wf : Forall stored_wf es;
  ih_entry : Forall (image_entry (ml_lsn m)) es;
  ih_lsn : in_u 64 (ml_lsn m);
  ih_sorted : StronglySorted stored_lt es;
  ih_chained : chained es (ml_limit m);
  ih_file : exists bytes, file_holds (ml_file m) (ml_limit m) bytes
    /\ Forall (fun x => stored_at bytes (se_pos x) (se_end x) (se_data x)) es;
  ih_max : is_Some (ml_max_vectored_read_bytes m)
}.

Definition image_update (x : stored) : update := mkUpdate (se_key x) (se_lsn x) true (RawImage (se_data x)).

Definition image_values (es : list stored) (k : Key) : list update := map image_update (filter (fun x => se_key x = k) es).

(** Planning the reads of an image layer is planning those of a delta layer whose
    entries all have the LSN of the image. *)
Lemma image_plan_items_delta lsn range l : forall pl,
  Forall stored_wf l -> Forall (image_entry lsn) l -> Forall (fun x => rs range <= key_Z (se_key x)) l -> range_ok range ->
  image_plan_items lsn range None (map image_raw l) pl = delta_plan_items range (image_lsns lsn) (map delta_raw l) pl.
Proof.
  induction l as [|x l IH]; intros pl Hw He Hge Hr; [done|]. apply Forall_cons in Hw as [Hx Hw], He as [[Hl Hi] He], Hge as [Hgx Hge].
  cbn [map]. rewrite delta_plan_step by done. cbn [image_plan_items image_raw].
  destruct Hx as (Hk & _ & _ & _ & _). pose proof (from_slice_write _ Hk) as Hfs.
  replace (slice 0 KEY_SIZE (write_to_byte_slice (se_key x))) with (Some (write_to_byte_slice (se_key x)))
    by (rewrite <- (app_nil_r (write_to_byte_slice _)); rewrite slice_app_l; [by rewrite app_nil_r|done]).
  cbn [mbind option_bind]. rewrite Hfs. cbn [mbind option_bind]. destruct Hr as [[Ws We] Hlt] eqn:EHr. clear EHr.
  rewrite (key_leb_Z (start range)), bool_decide_true by done. cbn [ensure mbind option_bind].
  rewrite key_leb_Z by done. fold (re range). unfold delta_at_end, delta_flag, image_lsns. cbn [start end_]. rewrite Hl, Hi.
  rewrite (bool_decide_false (lsn + 1 <= lsn)), andb_false_r, orb_false_r by lia.
  rewrite (bool_decide_true (lsn <= lsn < lsn + 1)) by lia. cbn [negb].
  destruct (bool_decide (re range <= key_Z (se_key x))); [done|]. by apply IH.
Qed.

Lemma image_items lsn range es :
  Forall stored_wf es -> Forall (image_entry lsn) es -> in_u 64 lsn -> range_ok range ->
  exists l, filter (fun e => be_Z (write_to_byte_slice (start range)) <= be_Z e.1) (map image_raw es) = map image_raw l
  /\ range_items es (image_lsns lsn) range = map delta_raw l /\ (forall x, x ∈ l -> x ∈ es)
  /\ Forall (fun x => rs range <= key_Z (se_key x)) l.
Proof.
  intros Hw He Hlsn [[Ws We] Hlt]. unfold range_items. rewrite be_Z_write, be_Z_delta_key by done. cbn [image_lsns start].
  fold (rs range). induction es as [|x es IH]; [by exists []|]. apply Forall_cons in Hw as [Hx Hw], He as [[Hl Hi] He].
  destruct (IH Hw He) as (l & E1 & E2 & Hsub & Hf). cbn [map]. rewrite !filter_cons. cbn [fst image_raw delta_raw].
  destruct Hx as (Hk & _ & Hlx & _). rewrite be_Z_write, be_Z_delta_key, Hl by done.
  destruct (decide (rs range <= key_Z (se_key x))) as [Hin|Hin].
  - rewrite decide_True by nia. exists (x :: l). split_and!; [cbn; by f_equal|cbn; by f_equal|set_solver|by constructor].
  - rewrite decide_False by nia. exists l. split_and!; [done|done|set_solver|done].
Qed.

Lemma needed_of_image lsn k es : Forall (image_entry lsn) es -> needed_of (image_lsns lsn) k es = filter (fun x => se_key x = k) es.
Proof.
  intros He. assert (values_at (image_lsns lsn) k es = filter (fun x => se_key x = k) es) as Ev.
  { unfold values_at. induction He as [|x l [Hx _] _ IH]; [done|]. rewrite !filter_cons, IH.
    unfold in_lsns, image_lsns. cbn [start end_]. rewrite Hx.
    destruct (decide (se_key x = k)); [rewrite decide_True by (split; [done|lia])|rewrite decide_False by tauto]; done. }
  unfold needed_of. rewrite Ev. rewrite Forall_forall in He.
  assert (forall l acc, (forall x, x ∈ l -> se_init x = false) -> fold_left keep l acc = acc ++ l) as Hk.
  { induction l as [|x l IH]; intros acc Hi; cbn [fold_left]; [by rewrite app_nil_r|]. unfold keep at 2.
    rewrite (Hi x) by by left. rewrite IH, <- app_assoc by (intros; apply Hi; by right). done. }
  rewrite Hk; [done|]. intros x [_ Hx]%list_elem_of_filter. by apply He.
Qed.

Lemma image_plan_ok fuel m es ks :
  image_holds fuel m es -> sorted (ranges ks) ->
  exists reads groups fl, image_plan_reads fuel m ks None = Ok reads
  /\ Forall2 group_ok reads groups /\ concat groups = map place fl /\ (forall x, x ∈ fl -> x ∈ es)
  /\ NoDup (map (fun p : placed => blob_key p.2) (map place fl)) /\ Forall (fun r => vr_end r <= ml_limit m) reads
  /\ delivers (map image_update fl) (ranges ks) (image_values es).
Proof.
  intros [Hi Hw He Hl Hs Hc _ [max Hmax]] Hso.
  destruct (plan_reads_ok es (ml_limit m) (image_lsns (ml_lsn m)) max Hw Hs Hc Hl (fun rgs => image_plan_ranges fuel m rgs None))
    with (rgs := ranges ks) as (reads & groups & fl & F1 & F2 & F3 & F4 & F5 & F6 & F7); [done| |apply page_chunks|done|].
  - intros range rgs blobs pl b Hr E. cbn [image_plan_ranges]. rewrite Hi by done.
    destruct (image_items (ml_lsn m) range es Hw He Hl Hr) as (l & E1 & E2 & Hsub & Hge). rewrite E1. rewrite E2 in E.
    rewrite Forall_forall in Hw, He.
    rewrite image_plan_items_delta, E by first [done|apply Forall_forall; auto]. fold (ml_limit m).
    cbn [of_option mbind outcome_bind stream_end]. by destruct b.
  - exists reads, groups, fl. split_and!; try done.
    + unfold image_plan_reads. rewrite Hmax. exact F1.
    + apply delivers_map with es; [done|done|done|]. intros k Hk. rewrite <- (needed_of_image (ml_lsn m) k es) by done. by apply F7.
Qed.

Lemma image_do_reads_ok m limit bytes D :
  file_holds (ml_file m) limit bytes -> forall reads groups, Forall2 group_ok reads groups ->
  Forall (fun r => vr_end r <= limit) reads ->
  Forall (fun b => stored_at bytes b.1.1 b.1.2 (D b.1.1)) (concat groups) ->
  NoDup (map (fun p : placed => blob_key p.2) (concat groups)) -> forall st st',
  push_list (map (upd (fun _ => true) RawImage D) (concat groups)) st = Some st' ->
  image_do_reads_and_update_state m reads st = Some st'.
Proof.
  intros Hf. induction 1 as [|read g reads groups Hg _ IH]; intros Hr Hst Hnd st st' Hp; [done|].
  apply Forall_cons in Hr as [Hlim Hr]. cbn [concat] in Hst, Hnd, Hp. rewrite map_app in Hnd, Hp.
  apply Forall_app in Hst as [Hst1 Hst2]. apply NoDup_app in Hnd as (Hnd1 & _ & Hnd2). rewrite push_list_app in Hp.
  destruct (push_list _ st) as [st1|] eqn:E; [|done]. cbn [mbind option_bind] in Hp. cbn [image_do_reads_and_update_state].
  pose proof (one_read_ok (ml_file m) limit bytes (fun _ => true) RawImage D Hf (fun _ l => l) read g (vr_size read) st st1) as H1.
  specialize (H1 ltac:(by left) Hg Hlim ltac:(lia) Hst1 Hnd1 E).
  destruct (update_blobs (fun _ => true) (vm_data (vr_blobs_at read)) [] st) as [[ios st2]|]; [|done].
  cbn [mbind option_bind] in *. change (execute_read (ml_file m) id) with (execute_read (ml_file m) (fun l => l)).
  rewrite H1. cbn [mbind option_bind]. by apply IH.
Qed.

Lemma image_once lsn es k x y l : StronglySorted stored_lt es -> Forall (image_entry lsn) es ->
  filter (fun x => se_key x = k) es <> x :: y :: l.
Proof.
  intros Hs He E. rewrite Forall_forall in He. pose proof (StronglySorted_filter' stored_lt (fun x => se_key x = k) es Hs) as Hf.
  assert (forall z, z ∈ [x; y] -> z ∈ es /\ se_key z = k) as Hin.
  { intros z Hz. assert (z ∈ filter (fun x => se_key x = k) es) as Hz' by (rewrite E; set_solver).
    apply list_elem_of_filter in Hz'. tauto. }
  rewrite E in Hf. inversion_clear Hf as [|? ? _ Hlt]. apply Forall_cons in Hlt as [Hlt _]. unfold stored_lt, stored_Z in Hlt.
  destruct (Hin x ltac:(set_solver)) as [Hx <-]. destruct (Hin y ltac:(set_solver)) as [Hy Hk].
  destruct (He x Hx) as [Hlx _]. destruct (He y Hy) as [Hl _]. rewrite Hk, Hl, Hlx in Hlt. lia.
Qed.

(** Reading an image layer. *)
Lemma image_read_ok fuel m es ks st :
  image_holds fuel m es -> sorted (ranges ks) -> ready st (ranges ks) (image_values es) ->
  vs_keys_with_image_coverage st = None ->
  exists st1 st' us, image_get_values_reconstruct_data fuel m ks st = Ok st' /\ pushed us st st1
  /\ on_image_layer_visited (ml_key_range m) st1 = Some st' /\ delivers us (ranges ks) (image_values es).
Proof.
  intros Hm Hso Hready Hcov. pose proof Hm as [_ Hw He _ Hs Hc (bytes & Hf & Hst) _].
  destruct (image_plan_ok fuel m es ks Hm Hso) as (reads & groups & fl & F1 & F2 & F3 & F4 & F5 & F6 & F7).
  destruct (push_delivers _ _ _ st F7 Hready) as (st1 & Hp & Hpu).
  { intros k l1 u l2 E _. unfold image_values in E. destruct (filter _ es) as [|x [|y l]] eqn:Ef; [by destruct l1| |by apply (image_once (ml_lsn m)) in Ef].
    destruct l1 as [|? l1]; [by injection E as _ <-|]. destruct l1; done. }
  assert (exists st', on_image_layer_visited (ml_key_range m) st1 = Some st') as [st' Hv].
  { unfold on_image_layer_visited. rewrite (sr_coverage _ _ (pu_rest _ _ _ Hpu)), Hcov. by eexists. }
  exists st1, st'. eexists. split_and!; [|exact Hpu|done|exact F7].
  unfold image_get_values_reconstruct_data. rewrite F1. cbn [mbind outcome_bind].
  rewrite (image_do_reads_ok m (ml_limit m) bytes (data_at es) Hf reads groups) with (st' := st1); try done.
  - cbn [of_option mbind outcome_bind]. by rewrite Hv.
  - rewrite F3. apply Forall_forall. intros p (x & -> & Hx)%list_elem_of_fmap_1. cbn [place fst snd].
    rewrite (data_at_ok es (ml_limit m)) by auto. rewrite Forall_forall in Hst. by apply Hst, F4.
  - by rewrite F3.
  - rewrite F3, map_map. rewrite <- Hp. f_equal. apply map_ext_in. intros x Hx%list_elem_of_In.
    unfold upd, image_update. cbn. by rewrite (data_at_ok es (ml_limit m)) by auto.
Qed.
End image.
