(* ===== verification/LayerWriteFacts.v ===== *)
(** * Writing layers and reading them back

    The file a delta or image layer writer produces loads again, and reading it
    delivers what was put into the writer. *)

From stdpp Require Import sorting.
From S2P Require Import Prelude Lsn XlogUtils Key Shard KeySpace KeySpaceFacts KeySpaceSets OrdMap LayerCoverage LayerName.
From S2P Require Import DiskBtree DiskBtreeFacts DiskBtreeSearch VecMap BlobIo BlobIoFacts PlannerFacts ReconstructState LayerFile.
From S2P Require Import ReconstructFacts LayerFileFacts LayerReadFacts.

(** ** Fuel for all keys *)

(** Keys of one length are finitely many: one amount of fuel serves them all. *)
Lemma uniform_fuel L : forall P : list byte -> nat -> Prop,
  (forall k, length k = L -> exists n, forall fuel, (n <= fuel)%nat -> P k fuel) ->
  exists n, forall k fuel, length k = L -> (n <= fuel)%nat -> P k fuel.
Proof.
  induction L as [|L IH]; intros P HP.
  - destruct (HP [] eq_refl) as (n & Hn). exists n. intros [|b k] fuel Hk Hf; [auto|done].
  - assert (forall bs : list Z, exists n, forall b k fuel, b ∈ bs -> length k = L -> (n <= fuel)%nat -> P (Z_byte b :: k) fuel) as Hall.
    { induction bs as [|b bs (n1 & IHb)]; [exists O; set_solver|].
      destruct (IH (fun k => P (Z_byte b :: k))) as (n2 & H2); [intros k Hk; apply HP; cbn; lia|].
      exists (n1 + n2)%nat. intros c k fuel [->|Hc]%elem_of_cons Hk Hf; [apply H2|apply IHb]; done || lia. }
    destruct (Hall (seqZ 0 256)) as (n & Hn). exists n. intros [|b k] fuel Hk Hf; [done|].
    rewrite <- (Z_byte_byte_Z b). apply Hn; [|cbn in Hk; lia|done]. apply elem_of_seqZ. pose proof (byte_Z_bound b). lia.
Qed.

(** ** From the newest value down *)

(** Up to and with the first value that initializes the page. *)
Fixpoint until_init {A} (init : A -> bool) (l : list A) : list A :=
  match l with
  | [] => []
  | x :: l => x :: if init x then [] else until_init init l
  end.

Lemma until_init_app {A} (init : A -> bool) l1 l2 :
  until_init init (l1 ++ l2) = if existsb init l1 then until_init init l1 else l1 ++ until_init init l2.
Proof. induction l1 as [|x l1 IH]; cbn; [done|]. rewrite IH. destruct (init x); cbn; [done|]. by destruct (existsb init l1). Qed.

Lemma needed_until lr k es : rev (needed_of lr k es) = until_init se_init (rev (values_at lr k es)).
Proof.
  unfold needed_of. generalize (values_at lr k es). intros l. induction l as [|x l IH] using rev_ind; [done|].
  rewrite fold_left_app, rev_app_distr. cbn [fold_left rev app until_init]. unfold keep at 1. destruct (se_init x); [done|].
  rewrite rev_app_distr. cbn [rev app]. by rewrite IH.
Qed.

Lemma until_init_map {A B} (f : A -> B) (init : B -> bool) l : map f (until_init (fun x => init (f x)) l) = until_init init (map f l).
Proof. induction l as [|x l IH]; cbn; [done|]. destruct (init (f x)); cbn; [done|]. by rewrite IH. Qed.

Lemma map_filter_comm {A B} (f : A -> B) (P : A -> Prop) (Q : B -> Prop)
    `{!forall x, Decision (P x)} `{!forall x, Decision (Q x)} l :
  (forall x, P x <-> Q (f x)) -> map f (filter P l) = filter Q (map f l).
Proof.
  intros Hpq. induction l as [|x l IH]; [done|]. cbn [map]. rewrite !filter_cons. specialize (Hpq x).
  repeat case_decide; try tauto; cbn [map]; by rewrite IH.
Qed.

(** ** The layout of the file *)

(** A value put into a writer. *)
Record put := mkPut { pt_key : Key; pt_lsn : Lsn; pt_init : bool; pt_data : list byte }.

Definition put_of (x : stored) : put := mkPut (se_key x) (se_lsn x) (se_init x) (se_data x).

(** Where the blobs [encs] of the values end up, from [off] on; the room of the last
    one ends at [limit]. *)
Fixpoint lay (off limit : Z) (l : list (put * list byte)) : list stored :=
  match l with
  | [] => []
  | (p, enc) :: l =>
      mkStored (pt_key p) (pt_lsn p) (pt_init p) off (match l with [] => limit | _ => off + Z.of_nat (length enc) end) (pt_data p)
      :: lay (off + Z.of_nat (length enc)) limit l
  end.

Lemma lay_puts off limit l : map put_of (lay off limit l) = l.*1.
Proof. revert off. induction l as [|[[] enc] l IH]; intros off; [done|]. cbn. by rewrite IH. Qed.

Lemma lay_chained off limit l : chained (lay off limit l) limit.
Proof.
  revert off. induction l as [|[p enc] l IH]; intros off; [done|]. cbn [lay chained]. split; [|apply IH].
  by destruct l as [|[p' enc'] l].
Qed.

(** An upper bound on the room the values take. *)
Definition puts_len (puts : list put) : Z := foldr (fun p n => Z.of_nat (length (pt_data p)) + 4 + n) 0 puts.

Definition encs_len (l : list (put * list byte)) : Z := Z.of_nat (length (concat l.*2)).

Section layout.
Context `{ZS : !Zstd}.

Definition encoded (pe : put * list byte) : Prop := blob_encodes pe.2 (pt_data pe.1).

Lemma lay_bounds l : forall off limit,
  Forall encoded l -> off + encs_len l <= limit ->
  Forall (fun x => off <= se_pos x < se_end x /\ se_pos x < off + encs_len l /\ se_end x <= limit) (lay off limit l).
Proof.
  induction l as [|[p enc] l IH]; intros off limit He Hlim; [constructor|]. apply Forall_cons in He as [Hp He].
  apply encodes_length in Hp. cbn [snd] in Hp. unfold encs_len in *. cbn [fmap list_fmap snd concat] in *. rewrite length_app in *.
  cbn [lay]. constructor.
  - cbn [se_pos se_end]. destruct l; cbn in *; lia.
  - eapply Forall_impl; [apply (IH (off + Z.of_nat (length enc)) limit); [done|lia]|]. cbn. lia.
Qed.

Lemma lay_stored l : forall off limit pre post,
  Forall encoded l -> Z.of_nat (length pre) = off -> off + encs_len l <= limit ->
  Forall (fun x => stored_at (pre ++ concat l.*2 ++ post) (se_pos x) (se_end x) (se_data x)) (lay off limit l).
Proof.
  induction l as [|[p enc] l IH]; intros off limit pre post He Hpre Hlim; [constructor|]. apply Forall_cons in He as [Hp He].
  unfold encs_len in *. cbn [fmap list_fmap snd concat] in *. rewrite length_app in *. cbn [lay]. constructor.
  - exists pre, enc, (concat l.*2 ++ post). cbn [se_pos se_end se_data]. split_and!; [by rewrite <- app_assoc|done| |exact Hp].
    destruct l; cbn in *; lia.
  - rewrite <- app_assoc. rewrite (app_assoc pre enc). apply IH; [done|rewrite length_app; lia|lia].
Qed.

(** Summary, values, index. *)
Lemma zero_pad_length (bytes : list byte) :
  exists z, zero_pad PAGE_SZ bytes = bytes ++ z
  /\ Z.of_nat PAGE_SZ + Z.of_nat (length (zero_pad PAGE_SZ bytes))
     = div_ceil (Z.of_nat PAGE_SZ + Z.of_nat (length bytes)) (Z.of_nat PAGE_SZ) * Z.of_nat PAGE_SZ.
Proof.
  unfold zero_pad. set (r := (length bytes mod PAGE_SZ)%nat). set (q := Z.of_nat (length bytes / PAGE_SZ)).
  assert (Z.of_nat (length bytes) = Z.of_nat PAGE_SZ * q + Z.of_nat r) as Hn.
  { unfold q, r. rewrite <- Nat2Z.inj_mul, <- Nat2Z.inj_add. f_equal. by apply Nat.div_mod. }
  assert (r < PAGE_SZ)%nat as Hr by by apply Nat.mod_upper_bound.
  clearbody q r. unfold div_ceil. pose proof PAGE_SZ_Z as HP. case_decide as H0.
  - exists []. rewrite app_nil_r. split; [done|]. subst r. rewrite HP, Hn in *.
    replace (8192 + (8192 * q + Z.of_nat 0) + 8192 - 1) with ((q + 1) * 8192 + 8191) by lia.
    rewrite Z.div_add_l by lia. change (8191 / 8192) with 0. lia.
  - eexists. split; [done|]. rewrite length_app, length_replicate. rewrite Nat2Z.inj_add, Nat2Z.inj_sub, Hn, HP by lia.
    replace (8192 + (8192 * q + Z.of_nat r) + 8192 - 1) with ((q + 2) * 8192 + (Z.of_nat r - 1)) by lia.
    rewrite Z.div_add_l, (Z.div_small (Z.of_nat r - 1)) by lia. lia.
Qed.

Lemma file_of_holds bytes limit : limit <= Z.of_nat (length bytes) -> file_holds (file_of bytes) limit bytes.
Proof.
  intros Hl. split; [done|]. intros a n Ha Hn Han. unfold file_of, slice. rewrite decide_True by lia.
  by replace (Z.to_nat a + Z.to_nat n - Z.to_nat a)%nat with (Z.to_nat n) by lia.
Qed.

Lemma file_of_slice pre part post offset len :
  Z.of_nat (length pre) = offset -> Z.of_nat (length part) = len -> file_of (pre ++ part ++ post) offset len = inr part.
Proof.
  intros Ho Hl. unfold file_of. replace (Z.to_nat offset) with (length pre) by lia. replace (Z.to_nat len) with (length part) by lia.
  by rewrite slice_app_mid.
Qed.

(** The blocks of the index follow the values. *)
Lemma index_block pre blocks start_blk i page :
  Forall (fun page => length page = PAGE_SZ) blocks -> Z.of_nat (length pre) = start_blk * Z.of_nat PAGE_SZ ->
  blocks !! i = Some page -> index_read_blk (file_of (pre ++ concat blocks)) (start_blk + Z.of_nat i) = Ok page.
Proof.
  intros Hb Hpre Hi. unfold index_read_blk, file_read_blk. pose proof (Forall_lookup_1 _ _ _ _ Hb Hi) as Hpage.
  apply list_elem_of_split_length in Hi as (b1 & b2 & -> & Hlen). apply Forall_app in Hb as [Hb1 _].
  rewrite concat_app. cbn [concat]. rewrite app_assoc.
  rewrite (file_of_slice (pre ++ concat b1) page (concat b2)); [done| |by rewrite Hpage].
  rewrite length_app, (length_concat_const PAGE_SZ) by done. subst i. lia.
Qed.

(** ** The values written *)

Fixpoint writes (bw : BlobWriter) (algorithm : ImageCompressionAlgorithm) (l : list (put * list byte)) : Prop :=
  match l with
  | [] => True
  | (p, enc) :: l =>
      (exists info, write_blob_maybe_compressed bw (pt_data p) algorithm = Ok (bw_offset bw, info, bw_write_all bw enc))
      /\ writes (bw_write_all bw enc) algorithm l
  end.

Context {ZL : ZstdLaws}.

Lemma writes_exist algorithm puts : forall bw,
  Forall (fun p => Z.of_nat (length (pt_data p)) <= MAX_SUPPORTED_BLOB_LEN) puts ->
  exists l, l.*1 = puts /\ Forall encoded l /\ writes bw algorithm l /\ encs_len l <= puts_len puts.
Proof.
  induction puts as [|p puts IH]; intros bw Hl; [by exists []|]. apply Forall_cons in Hl as [Hp Hl].
  destruct (write_blob_ok bw (pt_data p) algorithm Hp) as (info & enc & He & Hle & Hw).
  destruct (IH (bw_write_all bw enc) Hl) as (l & <- & Hf & Hws & Hlen). exists ((p, enc) :: l). split_and!; [done| |split; [by exists info|done]|].
  - by constructor.
  - unfold encs_len, puts_len in *. cbn [fmap list_fmap fst snd concat foldr]. rewrite length_app. lia.
Qed.

Lemma writes_after (l : list (put * list byte)) : forall bw,
  fold_left (fun bw pe => bw_write_all bw pe.2) l bw
  = mkBlobWriter (bw_bytes bw ++ concat l.*2) (bw_offset bw + encs_len l).
Proof.
  induction l as [|[p enc] l IH]; intros bw; cbn [fold_left].
  - unfold encs_len. cbn. rewrite app_nil_r, Z.add_0_r. by destruct bw.
  - rewrite IH. unfold encs_len. cbn [fmap list_fmap snd concat bw_write_all bw_bytes bw_offset].
    rewrite length_app, app_assoc. f_equal. lia.
Qed.
End layout.

(** ** Delta layers *)

Section delta.
Context `{ZS : !Zstd, ZL : !ZstdLaws, VC : !ValueCodec, SC : !SummaryCodec, SL : !SummaryCodecLaws}.

Fixpoint delta_put_all (self : DeltaLayerWriterInner) (puts : list put) : outcome PutError DeltaLayerWriterInner :=
  match puts with
  | [] => Ok self
  | p :: puts =>
      self ← delta_put_value_bytes self (pt_key p) (pt_lsn p) (pt_data p) (pt_init p);
      delta_put_all self puts
  end.

Lemma delta_put_all_ok l limit : forall w b,
  Forall (fun p => start (dw_lsn_range w) <= pt_lsn p) l.*1 -> writes (dw_blob_writer w) Disabled l ->
  append_all DELTA_KEY_SIZE (dw_tree w) (map delta_raw (lay (bw_offset (dw_blob_writer w)) limit l)) = Ok b ->
  delta_put_all w l.*1
  = Ok (mkDeltaWriter (dw_timeline_id w) (dw_tenant_shard_id w) (dw_key_start w) (dw_lsn_range w) b
          (fold_left (fun bw pe => bw_write_all bw pe.2) l (dw_blob_writer w)) (dw_num_keys w + Z.of_nat (length l))).
Proof.
  induction l as [|[p enc] l IH]; intros w b Hl Hw Ha.
  - cbn in *. injection Ha as <-. rewrite Z.add_0_r. by destruct w.
  - apply Forall_cons in Hl as [Hp Hl]. destruct Hw as [[info Hi] Hw]. cbn [fst] in Hp. cbn [lay map append_all delta_raw se_key se_lsn se_pos se_init] in Ha.
    cbn [fmap list_fmap fst delta_put_all]. unfold delta_put_value_bytes. rewrite bool_decide_true by done.
    cbn [ensure of_option mbind outcome_bind]. rewrite Hi. cbn [of_write mbind outcome_bind].
    destruct (btree_append _ _ _ _) as [t| |]; [|done|done]. cbn [of_append mbind outcome_bind] in *.
    rewrite (IH _ b); cbn [dw_lsn_range dw_blob_writer dw_tree dw_num_keys]; [|done|done|exact Ha].
    cbn [dw_timeline_id dw_tenant_shard_id dw_key_start fold_left snd length]. do 2 f_equal. lia.
Qed.

(** What may be put into a delta layer. *)
Definition put_Z (p : put) : Z := key_Z (pt_key p) * 2 ^ 64 + pt_lsn p.

Record puts_ok (lr : Range Lsn) (puts : list put) : Prop := {
  po_nonempty : puts <> [];
  po_sorted : StronglySorted (fun p q => put_Z p < put_Z q) puts;
  po_wf : Forall (fun p => key_wf (pt_key p) /\ key_compact (pt_key p) /\ in_u 64 (pt_lsn p) /\ start lr <= pt_lsn p
                           /\ Z.of_nat (length (pt_data p)) <= MAX_SUPPORTED_BLOB_LEN) puts;
  po_len : puts_len puts < 2 ^ 37;
  po_count : Z.of_nat (length puts) < 2 ^ 31
}.

Lemma lay_sorted off limit l :
  StronglySorted (fun p q => put_Z p < put_Z q) l.*1 -> StronglySorted stored_lt (lay off limit l).
Proof.
  intros Hs. rewrite <- (lay_puts off limit l) in Hs. revert Hs. generalize (lay off limit l). clear.
  intros es. induction es as [|x es IH]; intros Hs; [constructor|]. cbn [map] in Hs. inversion_clear Hs as [|? ? Hs' Hf].
  constructor; [by apply IH|]. apply (Forall_map put_of (fun q => put_Z (put_of x) < put_Z q)) in Hf. exact Hf.
Qed.

Lemma lay_wf off limit l :
  Forall (fun p => key_wf (pt_key p) /\ key_compact (pt_key p) /\ in_u 64 (pt_lsn p)) l.*1 ->
  Forall encoded l -> 0 <= off -> off + encs_len l <= limit -> off + encs_len l < 2 ^ 38 -> Forall stored_wf (lay off limit l).
Proof.
  intros Hw He Ho Hlim Hmax. pose proof (lay_bounds l off limit He Hlim) as Hb. rewrite <- (lay_puts off limit l) in Hw.
  apply Forall_map in Hw. rewrite Forall_forall in *. intros x Hx. specialize (Hb x Hx). specialize (Hw x Hx). cbn in Hw.
  unfold stored_wf. split_and!; try apply Hw; lia.
Qed.

Lemma delta_entries_ok es : Forall stored_wf es -> StronglySorted stored_lt es -> entries_ok DELTA_KEY_SIZE (map delta_raw es).
Proof.
  intros Hw Hs. split.
  - induction Hs as [|x es Hs IH Hf]; [constructor|]. apply Forall_cons in Hw as [Hx Hw]. cbn [map]. constructor; [by apply IH|].
    apply Forall_forall. intros e (y & -> & Hy)%list_elem_of_fmap_1. rewrite Forall_forall in Hf, Hw. unfold key_lt. cbn [delta_raw fst].
    destruct Hx as (Hk & _ & Hl & _). destruct (Hw y Hy) as (Hk' & _ & Hl' & _). rewrite !be_Z_delta_key by done. by apply Hf.
  - apply Forall_map. eapply Forall_impl; [exact Hw|]. intros x (_ & _ & _ & Hp & Hm). cbn [delta_raw fst snd].
    split; [apply length_delta_key|]. apply blob_ref_parts. lia.
Qed.

Definition index_start (l : list (put * list byte)) : Z := div_ceil (Z.of_nat PAGE_SZ + encs_len l) (Z.of_nat PAGE_SZ).

Definition laid (l : list (put * list byte)) : list stored := lay (Z.of_nat PAGE_SZ) (index_start l * Z.of_nat PAGE_SZ) l.

Lemma index_start_bounds l :
  encs_len l < 2 ^ 37 ->
  Z.of_nat PAGE_SZ + encs_len l <= index_start l * Z.of_nat PAGE_SZ /\ 0 <= index_start l < 2 ^ 31.
Proof.
  intros Hl. unfold index_start. pose proof (div_ceil_bounds (Z.of_nat PAGE_SZ + encs_len l) (Z.of_nat PAGE_SZ) ltac:(done)).
  rewrite PAGE_SZ_Z in *. unfold encs_len in *. lia.
Qed.

(** The file: the summary's page, the values, the index. *)
Definition layer_bytes (summary : list byte) (l : list (put * list byte)) (blocks : list (list byte)) : list byte :=
  into_page summary ++ zero_pad PAGE_SZ (concat l.*2) ++ concat blocks.

Lemma into_page_length summary : (length summary <= PAGE_SZ)%nat -> length (into_page summary) = PAGE_SZ.
Proof. intros H. unfold into_page. rewrite length_app, length_replicate. lia. Qed.

Lemma layer_bytes_ok summary l blocks :
  (length summary <= PAGE_SZ)%nat -> Forall encoded l -> encs_len l < 2 ^ 37 ->
  Forall (fun page => length page = PAGE_SZ) blocks ->
  let file := layer_bytes summary l blocks in
  (exists z, file_read_blk (file_of file) 0 = Ok (summary ++ z))
  /\ (exists bytes, file_holds (file_of file) (index_start l * Z.of_nat PAGE_SZ) bytes
       /\ Forall (fun x => stored_at bytes (se_pos x) (se_end x) (se_data x)) (laid l))
  /\ (forall i page, blocks !! i = Some page -> index_read_blk (file_of file) (index_start l + Z.of_nat i) = Ok page)
  /\ Z.of_nat (length file) = (index_start l + Z.of_nat (length blocks)) * Z.of_nat PAGE_SZ.
Proof.
  intros Hs He Hlen Hb. cbv zeta. pose proof (into_page_length summary Hs) as Hp.
  destruct (zero_pad_length (concat l.*2)) as (z & Hz & Hzl). destruct (index_start_bounds l Hlen) as [Hlim _].
  fold (encs_len l) in Hzl. fold (index_start l) in Hzl.
  assert (Z.of_nat (length (into_page summary ++ zero_pad PAGE_SZ (concat l.*2))) = index_start l * Z.of_nat PAGE_SZ) as Hpre
    by (rewrite length_app; lia).
  split_and!.
  - exists (replicate (PAGE_SZ - length summary) (Z_byte 0)). unfold file_read_blk.
    pose proof (file_of_slice [] (into_page summary) (zero_pad PAGE_SZ (concat l.*2) ++ concat blocks) 0 (Z.of_nat PAGE_SZ) eq_refl
      ltac:(by rewrite Hp)) as E. change (0 * Z.of_nat PAGE_SZ) with 0. unfold layer_bytes. cbn [app] in E. by rewrite E.
  - eexists. split; [apply file_of_holds|].
    + unfold layer_bytes. rewrite app_assoc, length_app. lia.
    + unfold layer_bytes, laid. rewrite Hz, <- app_assoc. apply lay_stored; [done|by rewrite Hp|exact Hlim].
  - intros i page Hi. unfold layer_bytes. rewrite app_assoc. by apply index_block.
  - unfold layer_bytes. rewrite app_assoc, length_app, (length_concat_const PAGE_SZ) by done. lia.
Qed.

(** The blobs of the values, laid out in the file. *)
Lemma laid_ok algorithm lr puts :
  puts_ok lr puts ->
  exists l, l.*1 = puts /\ Forall encoded l /\ writes (bw_new (Z.of_nat PAGE_SZ)) algorithm l /\ encs_len l < 2 ^ 37
  /\ Forall stored_wf (laid l) /\ StronglySorted stored_lt (laid l) /\ laid l <> [] /\ Z.of_nat (length (laid l)) < 2 ^ 31
  /\ map put_of (laid l) = puts.
Proof.
  intros [Hne Hs Hw Hlen Hcnt]. destruct (writes_exist algorithm puts (bw_new (Z.of_nat PAGE_SZ))) as (l & <- & He & Hws & Hle).
  { eapply Forall_impl; [exact Hw|]. cbn. tauto. }
  assert (encs_len l < 2 ^ 37) as Hel by lia. destruct (index_start_bounds l Hel) as [Hlim Hisb].
  assert (map put_of (laid l) = l.*1) as Hp by apply lay_puts. exists l. split_and!; try done.
  - apply lay_wf; [|done|done|done|rewrite PAGE_SZ_Z; lia]. eapply Forall_impl; [exact Hw|]. cbn. tauto.
  - by apply lay_sorted.
  - intros E. rewrite E in Hp. by rewrite <- Hp in Hne.
  - rewrite <- Hp, length_map in Hcnt. exact Hcnt.
Qed.

(** The index written behind them. *)
Lemma index_written L (raw : stored -> list byte * Z) l :
  (0 < L <= 255)%nat -> entries_ok L (map raw (laid l)) -> laid l <> [] -> Z.of_nat (length (laid l)) < 2 ^ 31 ->
  Forall encoded l -> encs_len l < 2 ^ 37 ->
  exists b root blocks, append_all L (builder_new []) (map raw (laid l)) = Ok b /\ btree_finish L 64 b = Ok (root, blocks)
  /\ Forall (fun page => length page = PAGE_SZ) blocks
  /\ forall summary, (length summary <= PAGE_SZ)%nat ->
     let file := layer_bytes summary l blocks in Z.of_nat (length file) <= 2 ^ 44 ->
     exists n, forall k fuel, length k = L -> (n <= fuel)%nat ->
       index_stream fuel (file_of file) (index_start l) root k = (filter (fun e => be_Z k <= be_Z e.1) (map raw (laid l)), Ok tt).
Proof.
  intros HL Hes Hne Hcnt He Hel.
  destruct (btree_round_trip_lemma L (map raw (laid l)) HL Hes) as (b & root & blocks & Hb & Hf & Hbl & Hread).
  { by destruct (laid l). } { by rewrite length_map. }
  exists b, root, blocks. split_and!; [done..|]. intros summary Hs file Hsize.
  destruct (layer_bytes_ok summary l blocks Hs He Hel Hbl) as (_ & _ & Hix & Hfl). fold file in Hix, Hfl.
  apply (uniform_fuel L (fun k fuel => index_stream fuel (file_of file) (index_start l) root k
      = (filter (fun e => be_Z k <= be_Z e.1) (map raw (laid l)), Ok tt))).
  intros k Hk. destruct (Hread (index_read_blk (file_of file)) (index_start l) k Hix) as (n & Hn); [|done|].
  - rewrite Hfl, PAGE_SZ_Z in Hsize. lia.
  - exists n. intros fuel Hfu. apply (Hn fuel Hfu).
Qed.

Lemma finish_root L fuel b root blocks : btree_finish L fuel b = Ok (root, blocks) -> in_u 32 root.
Proof.
  unfold btree_finish, write_blk. destruct (finish_loop L fuel b) as [b'| |]; [|done|done]. cbn [mbind outcome_bind].
  destruct (last (bb_stack b')) as [n|]; [|done]. cbn [of_option mbind outcome_bind]. destruct (pack n) as [buf|]; [|done].
  cbn [of_option mbind outcome_bind]. destruct (ensure _); [|done]. cbn. intros [= <- _]. unfold in_u, wrap.
  apply Z.mod_pos_bound. done.
Qed.

(** The names the summary holds. *)
Definition names_wf (timeline_id : Id) (tsi : TenantShardId) (key_range : KRange) : Prop :=
  length timeline_id = 16%nat /\ length (ts_tenant_id tsi) = 16%nat /\ range_wf key_range.

Lemma delta_file_ok timeline_id tsi key_start key_end lsn_range puts :
  puts_ok lsn_range puts -> start lsn_range < end_ lsn_range -> in_u 64 (start lsn_range) -> in_u 64 (end_ lsn_range) ->
  names_wf timeline_id tsi (mkRange key_start key_end) ->
  exists w file es, delta_put_all (delta_writer_new timeline_id tsi key_start lsn_range) puts = Ok w /\ map put_of es = puts
  /\ delta_finish w key_end
     = (if decide (S3_UPLOAD_LIMIT < Z.of_nat (length file)) then Err (PutOther "above limit")
        else Ok (desc_new_delta tsi timeline_id (mkRange key_start key_end) lsn_range (Z.of_nat (length file)), file))
  /\ (Z.of_nat (length file) <= S3_UPLOAD_LIMIT ->
      exists n, forall fuel max, (n <= fuel)%nat -> exists d,
        delta_load (file_of file)
          (Some (delta_summary_expected (ts_tenant_id tsi) timeline_id (mkRange key_start key_end) lsn_range)) (Some max) = Ok d
        /\ delta_holds fuel d es).
Proof.
  intros Hok Hlr Hlr1 Hlr2 (Hn1 & Hn2 & Hn3). destruct (laid_ok Disabled lsn_range puts Hok) as (l & <- & He & Hws & Hel & Hwl & Hsl & Hne & Hcnt & Hp).
  destruct (index_written DELTA_KEY_SIZE delta_raw l) as (b & root & blocks & Hb & Hf & Hbl & Hix); try done.
  { unfold DELTA_KEY_SIZE, KEY_SIZE. lia. } { by apply delta_entries_ok. }
  set (summary := mkDeltaSummary DELTA_FILE_MAGIC STORAGE_FORMAT_VERSION (ts_tenant_id tsi) timeline_id (mkRange key_start key_end)
    lsn_range (index_start l) root).
  destruct (index_start_bounds l Hel) as [_ Hisb].
  assert (delta_summary_wf summary) as Hsw by (apply finish_root in Hf; unfold delta_summary_wf, in_u in *; cbn; split_and!; done || apply Hn3 || lia).
  set (file := layer_bytes (delta_ser summary) l blocks).
  destruct (layer_bytes_ok (delta_ser summary) l blocks (delta_ser_fits summary Hsw) He Hel Hbl) as ([z Hz] & Hst & _ & _).
  fold file in Hz, Hst. eexists _, file, (laid l). split_and!; [|done| |].
  - apply (delta_put_all_ok l (index_start l * Z.of_nat PAGE_SZ)); [|exact Hws|exact Hb].
    eapply Forall_impl; [apply (po_wf _ _ Hok)|]. cbn. tauto.
  - unfold delta_finish. cbn [dw_blob_writer dw_tree dw_lsn_range dw_key_start dw_tenant_shard_id dw_timeline_id].
    rewrite writes_after. cbn [bw_offset bw_bytes delta_writer_new dw_blob_writer bw_new]. rewrite Hf. cbn [of_append mbind outcome_bind].
    rewrite bool_decide_true by done. cbn [ensure of_option mbind outcome_bind]. fold (index_start l).
    rewrite (wrap_small 32) by (unfold in_u; lia). done.
  - intros Hsize. destruct (Hix (delta_ser summary) (delta_ser_fits summary Hsw)) as (n & Hn).
    { fold file. unfold S3_UPLOAD_LIMIT in Hsize. lia. }
    exists n. intros fuel max Hfu. eexists. split.
    + unfold delta_load. rewrite Hz. cbn [mbind outcome_bind]. rewrite delta_des_ser by done. cbn [of_sum mbind outcome_bind].
      rewrite decide_True by done. done.
    + split; cbn [dl_file dl_index_start_blk dl_index_root_blk dl_max_vectored_read_bytes dl_limit]; try done.
      * intros k Hk. by apply Hn.
      * apply lay_chained.
Qed.

(** ** Image layers *)

Fixpoint image_put_all (self : ImageLayerWriterInner) (puts : list put) : outcome PutError ImageLayerWriterInner :=
  match puts with
  | [] => Ok self
  | p :: puts => self ← put_image self (pt_key p) (pt_data p); image_put_all self puts
  end.

Record image_written (w w' : ImageLayerWriterInner) (b : DiskBtreeBuilder) (l : list (put * list byte)) : Prop := {
  iwr_timeline_id : iw_timeline_id w' = iw_timeline_id w;
  iwr_tenant_shard_id : iw_tenant_shard_id w' = iw_tenant_shard_id w;
  iwr_key_range : iw_key_range w' = iw_key_range w;
  iwr_lsn : iw_lsn w' = iw_lsn w;
  iwr_tree : iw_tree w' = b;
  iwr_blob_writer : iw_blob_writer w' = fold_left (fun bw pe => bw_write_all bw pe.2) l (iw_blob_writer w)
}.

Lemma image_put_all_ok l limit : forall w b,
  Forall (fun p => range_contains (iw_key_range w) (pt_key p) = true) l.*1 -> writes (iw_blob_writer w) (iw_compression w) l ->
  append_all KEY_SIZE (iw_tree w) (map image_raw (lay (bw_offset (iw_blob_writer w)) limit l)) = Ok b ->
  exists w', image_put_all w l.*1 = Ok w' /\ image_written w w' b l.
Proof.
  induction l as [|[p enc] l IH]; intros w b Hl Hw Ha.
  - cbn in *. injection Ha as <-. by exists w.
  - apply Forall_cons in Hl as [Hp Hl]. destruct Hw as [[info Hi] Hw]. cbn [fst] in Hp.
    cbn [lay map append_all image_raw se_key se_lsn se_pos se_init] in Ha.
    cbn [fmap list_fmap fst image_put_all]. unfold put_image. rewrite Hp. cbn [negb]. rewrite Hi. cbn [of_write mbind outcome_bind].
    destruct (btree_append _ _ _ _) as [t| |]; [|done|done]. cbn [of_append mbind outcome_bind] in *.
    match goal with |- exists _, image_put_all ?w1 _ = _ /\ _ => destruct (IH w1 b Hl Hw Ha) as (w' & Hw' & [W1 W2 W3 W4 W5 W6]) end.
    exists w'. split; [exact Hw'|by split].
Qed.

Lemma image_entries_ok lsn es : Forall stored_wf es -> Forall (image_entry lsn) es -> StronglySorted stored_lt es ->
  entries_ok KEY_SIZE (map image_raw es).
Proof.
  intros Hw He Hs. split.
  - induction Hs as [|x es Hs IH Hf]; [constructor|]. apply Forall_cons in Hw as [Hx Hw], He as [[Hlx _] He].
    cbn [map]. constructor; [by apply IH|].
    apply Forall_forall. intros e (y & -> & Hy)%list_elem_of_fmap_1. rewrite Forall_forall in Hf, Hw, He. unfold key_lt. cbn [image_raw fst].
    destruct Hx as (Hk & _). destruct (Hw y Hy) as (Hk' & _). rewrite !be_Z_write by done. specialize (Hf y Hy).
    destruct (He y Hy) as [Hly _]. unfold stored_lt, stored_Z in Hf. rewrite Hlx, Hly in Hf. lia.
  - apply Forall_map. eapply Forall_impl; [exact Hw|]. intros x (_ & _ & _ & Hp & Hm). cbn [image_raw fst snd].
    split; [done|]. unfold MAX_VALUE. lia.
Qed.

Lemma image_file_ok compression timeline_id tsi key_range lsn puts next :
  puts_ok (mkRange lsn (lsn + 1)) puts -> Forall (fun p => pt_lsn p = lsn /\ pt_init p = false) puts ->
  Forall (fun p => range_contains key_range (pt_key p) = true) puts -> image_layer_lsn_range lsn = Some next ->
  in_u 64 lsn -> names_wf timeline_id tsi key_range ->
  exists w desc file es, image_put_all (image_writer_new compression timeline_id tsi key_range lsn) puts = Ok w /\ map put_of es = puts
  /\ image_finish w None = Ok (desc, file)
  /\ (Z.of_nat (length file) <= 2 ^ 44 ->
      exists n, forall fuel max, (n <= fuel)%nat -> exists m,
        image_load (file_of file) lsn (Some (image_summary_expected (ts_tenant_id tsi) timeline_id key_range lsn)) (Some max) = Ok m
        /\ ml_lsn m = lsn /\ ml_key_range m = key_range /\ image_holds fuel m es).
Proof.
  intros Hok Hlsn Hin Hnext Hl64 (Hn1 & Hn2 & Hn3). destruct (laid_ok compression _ puts Hok) as (l & <- & He & Hws & Hel & Hwl & Hsl & Hne & Hcnt & Hp).
  assert (Forall (image_entry lsn) (laid l)) as Hie by (rewrite <- Hp in Hlsn; by apply Forall_map in Hlsn).
  destruct (index_written KEY_SIZE image_raw l) as (b & root & blocks & Hb & Hf & Hbl & Hix); try done.
  { unfold KEY_SIZE. lia. } { by apply (image_entries_ok lsn). }
  set (summary := mkImageSummary IMAGE_FILE_MAGIC STORAGE_FORMAT_VERSION (ts_tenant_id tsi) timeline_id key_range lsn (index_start l) root).
  destruct (index_start_bounds l Hel) as [_ Hisb].
  assert (image_summary_wf summary) as Hsw by (apply finish_root in Hf; unfold image_summary_wf, in_u in *; cbn; split_and!; done || apply Hn3 || lia).
  set (file := layer_bytes (image_ser summary) l blocks).
  destruct (layer_bytes_ok (image_ser summary) l blocks (image_ser_fits summary Hsw) He Hel Hbl) as ([z Hz] & Hst & _ & _).
  fold file in Hz, Hst.
  destruct (image_put_all_ok l (index_start l * Z.of_nat PAGE_SZ) (image_writer_new compression timeline_id tsi key_range lsn) b Hin Hws Hb)
    as (w & Hw & [W1 W2 W3 W4 W5 W6]).
  exists w. eexists _, file, (laid l). split_and!; [done|done| |].
  - unfold image_finish. rewrite W1, W2, W3, W4, W5, W6, writes_after. cbn [bw_offset bw_bytes image_writer_new iw_blob_writer bw_new].
    rewrite Hf. cbn [of_append mbind outcome_bind]. fold (index_start l). unfold desc_new_img. cbn [image_writer_new iw_lsn]. rewrite Hnext.
    rewrite (wrap_small 32) by (unfold in_u; lia). done.
  - intros Hsize. destruct (Hix (image_ser summary) (image_ser_fits summary Hsw) Hsize) as (n & Hn).
    exists n. intros fuel max Hfu. eexists. split.
    + unfold image_load. rewrite Hz. cbn [mbind outcome_bind]. rewrite image_des_ser by done. cbn [of_sum mbind outcome_bind].
      rewrite decide_True by done. done.
    + split_and!; [done|done|].
      split; cbn [ml_file ml_index_start_blk ml_index_root_blk ml_max_vectored_read_bytes ml_limit ml_lsn]; try done.
      * intros k Hk. by apply Hn.
      * apply lay_chained.
Qed.

(** ** Round trips *)

Lemma mine_received us st k rgs vals :
  pushed us vs_new st -> delivers us rgs vals -> key_wf k ->
  received st k = delivered (if decide (member rgs (key_Z k)) then vals k else []).
Proof.
  intros Hpu [_ Hdel] Hk. rewrite (pu_received _ _ _ Hpu). unfold received at 1. cbn [vs_new vs_keys]. rewrite lookup_empty.
  cbn [app]. f_equal. destruct (Hdel k Hk) as [D1 D2]. case_decide; auto.
Qed.

Lemma ready_new es rgs vals :
  Forall stored_wf es ->
  (forall k, vals k <> [] -> exists x, x ∈ es /\ se_key x = k) -> ready vs_new rgs vals.
Proof.
  intros Hw Hv. split; [by intros k s e|]. intros k Hk _ Hne. destruct (Hv k Hne) as (x & Hx & <-). split; [|done].
  rewrite Forall_forall in Hw. destruct (Hw x Hx) as (_ & Hc & _). by split.
Qed.

Definition put_value (p : put) : Lsn * option OnDiskValueIoResult := (pt_lsn p, Some (inr (WalRecordOrImage (pt_data p)))).
Definition put_page (p : put) : Lsn * option OnDiskValueIoResult := (pt_lsn p, Some (inr (RawImage (pt_data p)))).

Lemma delta_values_puts es lr k :
  delivered (delta_values es lr k)
  = map put_value (until_init pt_init (rev (filter (fun p => pt_key p = k /\ in_lsns lr (pt_lsn p)) (map put_of es)))).
Proof.
  unfold delivered, delta_values. rewrite needed_until, map_map.
  rewrite <- (map_filter_comm put_of (fun x => se_key x = k /\ in_lsns lr (se_lsn x)) (fun p => pt_key p = k /\ in_lsns lr (pt_lsn p))) by done.
  rewrite <- map_rev, <- (until_init_map put_of pt_init), map_map. done.
Qed.

Lemma image_values_puts es k :
  delivered (image_values es k) = map put_page (filter (fun p => pt_key p = k) (map put_of es)).
Proof.
  unfold delivered, image_values. rewrite map_map.
  by rewrite <- (map_filter_comm put_of (fun x => se_key x = k) (fun p => pt_key p = k)), map_map by done.
Qed.

(** C12: Delta layer files round trip.  Values, at least one, of keys that have a
    compact form, put into a delta layer writer in order of key and LSN are accepted; finishing produces a file unless it is above
    the upload limit; with enough fuel for the walks of the index the file loads
    against the summary expected of it, and reading it for a key space and a range of
    LSNs delivers, for every key of the key space, its values in the range from the
    newest down to the first that initializes the page, with the bytes that were put,
    and for other keys nothing. *)
Theorem delta_layer_round_trip (timeline_id : Id) (tsi : TenantShardId) (key_start key_end : Key) (lsn_range : Range Lsn)
    (puts : list put) :
  puts_ok lsn_range puts -> start lsn_range < end_ lsn_range -> in_u 64 (start lsn_range) -> in_u 64 (end_ lsn_range) ->
  names_wf timeline_id tsi (mkRange key_start key_end) ->
  exists w file, delta_put_all (delta_writer_new timeline_id tsi key_start lsn_range) puts = Ok w
  /\ delta_finish w key_end
     = (if decide (S3_UPLOAD_LIMIT < Z.of_nat (length file)) then Err (PutOther "above limit")
        else Ok (desc_new_delta tsi timeline_id (mkRange key_start key_end) lsn_range (Z.of_nat (length file)), file))
  /\ (Z.of_nat (length file) <= S3_UPLOAD_LIMIT ->
      exists n, forall fuel max ks lr, (n <= fuel)%nat -> sorted (ranges ks) -> in_u 64 (start lr) -> exists d st,
        delta_load (file_of file)
          (Some (delta_summary_expected (ts_tenant_id tsi) timeline_id (mkRange key_start key_end) lsn_range)) (Some max) = Ok d
        /\ delta_get_values_reconstruct_data fuel d ks lr vs_new = Ok st
        /\ forall k, key_wf k -> received st k
             = if decide (member (ranges ks) (key_Z k))
               then map put_value (until_init pt_init (rev (filter (fun p => pt_key p = k /\ in_lsns lr (pt_lsn p)) puts)))
               else []).
Proof.
  intros Hok Hlr H1 H2 Hn.
  destruct (delta_file_ok timeline_id tsi key_start key_end lsn_range puts Hok Hlr H1 H2 Hn) as (w & file & es & Hw & Hp & Hf & Hd).
  exists w, file. split_and!; [done|done|]. intros Hsize. destruct (Hd Hsize) as (n & Hl). exists n.
  intros fuel max ks lr Hfu Hso Hst. destruct (Hl fuel max Hfu) as (d & Hload & Hh). rewrite <- Hp.
  destruct (delta_read_ok fuel d es ks lr vs_new Hh Hso Hst) as (st & us & Hget & Hpu & Hdel).
  { apply (ready_new es); [apply Hh|]. intros k Hne. destruct (needed_of lr k es) as [|x t] eqn:E.
    - by unfold delta_values in Hne; rewrite E in Hne.
    - exists x. assert (x ∈ needed_of lr k es) as Hx by (rewrite E; by left). apply needed_of_in in Hx. tauto. }
  exists d, st. split_and!; [done|done|]. intros k Hk. rewrite (mine_received us st k _ _ Hpu Hdel Hk), <- delta_values_puts.
  destruct (decide (member (ranges ks) (key_Z k))); done.
Qed.

(** C13: Image layer files round trip.  Pages, at least one, of keys that have a
    compact form, put into an image layer writer in the order of their keys, within the
    key range of the layer, compressed or not, are accepted and the file is produced; with enough fuel the file loads against the
    summary expected of it, and reading it for a key space delivers the page of every
    key of the key space and nothing else. *)
Theorem image_layer_round_trip (compression : ImageCompressionAlgorithm) (timeline_id : Id) (tsi : TenantShardId)
    (key_range : KRange) (lsn : Lsn) (puts : list put) :
  puts_ok (mkRange lsn (lsn + 1)) puts -> Forall (fun p => pt_lsn p = lsn /\ pt_init p = false) puts ->
  Forall (fun p => range_contains key_range (pt_key p) = true) puts ->
  is_Some (image_layer_lsn_range lsn) -> in_u 64 lsn -> names_wf timeline_id tsi key_range ->
  exists w desc file, image_put_all (image_writer_new compression timeline_id tsi key_range lsn) puts = Ok w
  /\ image_finish w None = Ok (desc, file)
  /\ (Z.of_nat (length file) <= 2 ^ 44 ->
      exists n, forall fuel max ks, (n <= fuel)%nat -> sorted (ranges ks) -> exists m st,
        image_load (file_of file) lsn (Some (image_summary_expected (ts_tenant_id tsi) timeline_id key_range lsn)) (Some max) = Ok m
        /\ image_get_values_reconstruct_data fuel m ks vs_new = Ok st
        /\ vs_keys_with_image_coverage st = Some key_range
        /\ forall k, key_wf k -> received st k
             = if decide (member (ranges ks) (key_Z k)) then map put_page (filter (fun p => pt_key p = k) puts) else []).
Proof.
  intros Hok Hlsn Hin [next Hnext] Hl64 Hn.
  destruct (image_file_ok compression timeline_id tsi key_range lsn puts next Hok Hlsn Hin Hnext Hl64 Hn)
    as (w & desc & file & es & Hw & Hp & Hf & Hd).
  exists w, desc, file. split_and!; [done|done|]. intros Hsize. destruct (Hd Hsize) as (n & Hl). exists n.
  intros fuel max ks Hfu Hso. destruct (Hl fuel max Hfu) as (m & Hload & Hml & Hmr & Hh). rewrite <- Hp.
  destruct (image_read_ok fuel m es ks vs_new Hh Hso) as (st1 & st & us & Hget & Hpu & Hv & Hdel); [|done|].
  { apply (ready_new es); [apply Hh|]. intros k Hne. unfold image_values in Hne. destruct (filter _ es) as [|x t] eqn:E; [done|].
    exists x. assert (x ∈ filter (fun y => se_key y = k) es) as Hx by (rewrite E; by left). apply list_elem_of_filter in Hx. tauto. }
  exists m, st. unfold on_image_layer_visited in Hv. rewrite (sr_coverage _ _ (pu_rest _ _ _ Hpu)) in Hv. cbn [vs_keys_with_image_coverage vs_new] in Hv.
  injection Hv as <-. split_and!; [done|exact Hget|cbn; by rewrite Hmr|]. intros k Hk.
  change (received (mkValuesState _ _ _ _ _ _ _) k) with (received st1 k).
  rewrite (mine_received us st1 k _ _ Hpu Hdel Hk), <- image_values_puts.
  destruct (decide (member (ranges ks) (key_Z k))); done.
Qed.
End delta.

(** ** A codec *)

Definition split_at (n : nat) (l : list byte) : option (list byte * list byte) :=
  if decide (n <= length l)%nat then Some (take n l, drop n l) else None.

Lemma split_at_app a b n : length a = n -> split_at n (a ++ b) = Some (a, b).
Proof.
  intros <-. unfold split_at. rewrite decide_True by (rewrite length_app; lia). by rewrite take_app_length, drop_app_length.
Qed.

Definition be_int (n : nat) (l : list byte) : option (Z * list byte) := '(a, l) ← split_at n l; Some (be_Z a, l).
Definition be_key (l : list byte) : option (Key * list byte) := '(a, l) ← split_at KEY_SIZE l; k ← from_slice a; Some (k, l).

Lemma be_int_app n z l : in_u (8 * Z.of_nat n) z -> be_int n (be_bytes n z ++ l) = Some (z, l).
Proof.
  intros Hz. unfold be_int. rewrite split_at_app by apply length_be_bytes. cbn [mbind option_bind].
  by rewrite be_Z_be_bytes_small.
Qed.

Lemma be_key_app k l : key_wf k -> be_key (write_to_byte_slice k ++ l) = Some (k, l).
Proof. intros Hk. unfold be_key. rewrite split_at_app by done. cbn [mbind option_bind]. by rewrite from_slice_write. Qed.

#[global] Instance example_zstd : Zstd := { zstd_encode _ bytes := bytes; zstd_decode bytes := inr bytes }.
#[global] Instance example_zstd_laws : ZstdLaws.
Proof. by split. Qed.

(** The fields in their order, big-endian. *)
#[global] Instance example_summary : SummaryCodec := {
  delta_ser s :=
    be_bytes 2 (ds_magic s) ++ be_bytes 2 (ds_format_version s) ++ ds_tenant_id s ++ ds_timeline_id s
    ++ write_to_byte_slice (start (ds_key_range s)) ++ write_to_byte_slice (end_ (ds_key_range s))
    ++ be_bytes 8 (start (ds_lsn_range s)) ++ be_bytes 8 (end_ (ds_lsn_range s))
    ++ be_bytes 4 (ds_index_start_blk s) ++ be_bytes 4 (ds_index_root_blk s);
  delta_des_prefix l :=
    match
      '(magic, l) ← be_int 2 l; '(version, l) ← be_int 2 l; '(tenant, l) ← split_at 16 l; '(timeline, l) ← split_at 16 l;
      '(ks, l) ← be_key l; '(ke, l) ← be_key l; '(ls, l) ← be_int 8 l; '(le, l) ← be_int 8 l;
      '(sb, l) ← be_int 4 l; '(rb, l) ← be_int 4 l;
      Some (mkDeltaSummary magic version tenant timeline (mkRange ks ke) (mkRange ls le) sb rb)
    with Some s => inr s | None => inl "unexpected end of file"%string end;
  image_ser s :=
    be_bytes 2 (is_magic s) ++ be_bytes 2 (is_format_version s) ++ is_tenant_id s ++ is_timeline_id s
    ++ write_to_byte_slice (start (is_key_range s)) ++ write_to_byte_slice (end_ (is_key_range s))
    ++ be_bytes 8 (is_lsn s) ++ be_bytes 4 (is_index_start_blk s) ++ be_bytes 4 (is_index_root_blk s);
  image_des_prefix l :=
    match
      '(magic, l) ← be_int 2 l; '(version, l) ← be_int 2 l; '(tenant, l) ← split_at 16 l; '(timeline, l) ← split_at 16 l;
      '(ks, l) ← be_key l; '(ke, l) ← be_key l; '(lsn, l) ← be_int 8 l; '(sb, l) ← be_int 4 l; '(rb, l) ← be_int 4 l;
      Some (mkImageSummary magic version tenant timeline (mkRange ks ke) lsn sb rb)
    with Some s => inr s | None => inl "unexpected end of file"%string end
}.

Ltac read_fields :=
  repeat (match goal with
    | |- context [be_int ?n (be_bytes ?n ?z ++ ?l)] => rewrite (be_int_app n z l) by done
    | |- context [split_at 16 (?a ++ ?l)] => rewrite (split_at_app a l 16) by done
    | |- context [be_key (write_to_byte_slice ?k ++ ?l)] => rewrite (be_key_app k l) by done
    end; cbn [mbind option_bind]).

#[global] Instance example_summary_laws : SummaryCodecLaws.
Proof.
  split.
  - intros s rest (H1 & H2 & H3 & H4 & [H5 H6] & [H7 H8] & H9 & H10). cbn [delta_des_prefix example_summary delta_ser].
    rewrite <- !app_assoc.
    read_fields.
    by destruct s as [? ? ? ? [] [] ? ?].
  - intros s (_ & _ & H3 & H4 & _). cbn [example_summary delta_ser]. rewrite !length_app, !length_be_bytes, !length_write_to_byte_slice, H3, H4.
    apply Nat2Z.inj_le. rewrite PAGE_SZ_Z. unfold KEY_SIZE. lia.
  - intros s rest (H1 & H2 & H3 & H4 & [H5 H6] & H7 & H9 & H10). cbn [image_des_prefix example_summary image_ser].
    rewrite <- !app_assoc.
    read_fields.
    by destruct s as [? ? ? ? [] ? ? ?].
  - intros s (_ & _ & H3 & H4 & _). cbn [example_summary image_ser]. rewrite !length_app, !length_be_bytes, !length_write_to_byte_slice, H3, H4.
    apply Nat2Z.inj_le. rewrite PAGE_SZ_Z. unfold KEY_SIZE. lia.
Qed.

Definition example_id (n : Z) : Id := be_bytes 16 n.
Definition example_tsi : TenantShardId := mkTenantShardId (example_id 7) 0 0.
Definition example_key (blk : Z) : Key := mkKey 0 1663 5 16384 0 blk.

(** Two keys; the second has a record at 20, an image at 30 and a record at 40. *)
Definition example_puts : list put :=
  [mkPut (example_key 1) 20 true (be_bytes 200 1); mkPut (example_key 2) 20 false [Z_byte 2];
   mkPut (example_key 2) 30 true [Z_byte 3]; mkPut (example_key 2) 40 false [Z_byte 4]].

Lemma example_puts_ok : puts_ok (mkRange 10 50) example_puts.
Proof. split; [done|repeat constructor|repeat constructor; by vm_compute|by vm_compute|by vm_compute]. Qed.

Lemma example_names : names_wf (example_id 9) example_tsi (mkRange (example_key 1) (example_key 5)).
Proof. split_and!; [done|done|repeat constructor; by vm_compute]. Qed.

Lemma delta_layer_round_trip_witness :
  exists w file, delta_put_all (delta_writer_new (example_id 9) example_tsi (example_key 1) (mkRange 10 50)) example_puts = Ok w
  /\ delta_finish w (example_key 5)
     = (if decide (S3_UPLOAD_LIMIT < Z.of_nat (length file)) then Err (PutOther "above limit")
        else Ok (desc_new_delta example_tsi (example_id 9) (mkRange (example_key 1) (example_key 5)) (mkRange 10 50)
                   (Z.of_nat (length file)), file)).
Proof.
  destruct (delta_layer_round_trip (example_id 9) example_tsi (example_key 1) (example_key 5) (mkRange 10 50) example_puts)
    as (w & file & H1 & H2 & _); [apply example_puts_ok|done|done|done|apply example_names|].
  exists w, file. split; [exact H1|exact H2].
Defined.

Definition example_pages : list put :=
  [mkPut (example_key 1) 20 false (be_bytes 200 1); mkPut (example_key 2) 20 false [Z_byte 2]].

Lemma image_layer_round_trip_witness :
  exists w desc file,
    image_put_all (image_writer_new (ZstdLevel (Some 1)) (example_id 9) example_tsi (mkRange (example_key 1) (example_key 5)) 20) example_pages = Ok w
  /\ image_finish w None = Ok (desc, file).
Proof.
  destruct (image_layer_round_trip (ZstdLevel (Some 1)) (example_id 9) example_tsi (mkRange (example_key 1) (example_key 5)) 20 example_pages)
    as (w & desc & file & H1 & H2 & _);
    [split; [done|repeat constructor|repeat constructor; by vm_compute|by vm_compute|by vm_compute]
    |repeat constructor|repeat constructor; by vm_compute|by eexists|done|apply example_names|].
  exists w, desc, file. split; [exact H1|exact H2].
Defined.
