(* ===== verification/EphemeralFile.v ===== *)
(** * The buffered writer and the ephemeral file

    [pageserver/src/virtual_file/owned_buffers_io/write.rs] and [write/flush.rs]: a
    writer fills a buffer and hands it to a background task that writes it to the file,
    retrying on errors, until it is cancelled.  [pageserver/src/tenant/ephemeral_file.rs]:
    the file behind an in-memory layer, which is read while it is written: from the
    file, from the buffer that is being flushed and from the one being filled.

    What the background task does while the writer waits is a list of its steps, given
    to each flush; a writer that waits for something these steps do not bring is
    [Blocked], which is no behaviour of the code but a schedule that is too short.
    The bytes of the file are those that a read through the same process sees. *)

From S2P Require Import Prelude XlogUtils.

(** ** The file *)

(** [write_all_at]; a gap before [offset] reads as zeroes. *)
Definition file_write_at (offset : nat) (buf file : list byte) : list byte :=
  take offset (file ++ replicate (offset - length file) (Z_byte 0)) ++ buf ++ drop (offset + length buf) file.

Definition file_read_exact_at (offset len : nat) (file : list byte) : sum string (list byte) :=
  match slice offset (offset + len) file with
  | Some part => inr part
  | None => inl "failed to fill whole buffer"%string
  end.

(** ** The writer and its flush task *)

Record FlushRequest := mkFlushRequest { fr_slice : list byte; fr_offset : Z }.

Inductive FlushTaskError : Set := FlushCancelled | Blocked.

(** [bfw_requests]: the buffers sent to the task and not written yet, the first one
    being the one it works on; [bfw_attempting]: it is writing it.  [bfw_recycled]:
    buffers it has sent back.  [bfw_handle]: [FlushHandle::inner] is there. *)
Record BufferedWriter := mkBufferedWriter {
  bfw_maybe_flushed : option (list byte);
  bfw_mutable : option (list byte);
  bfw_cap : nat;
  bfw_bytes_submitted : Z;
  bfw_handle : bool;
  bfw_requests : list FlushRequest;
  bfw_attempting : bool;
  bfw_recycled : nat;
  bfw_running : bool;
  bfw_cancel : bool;
  bfw_file : list byte
}.

Definition bfw_new (start_offset : Z) (cap : nat) (file : list byte) : BufferedWriter :=
  mkBufferedWriter None (Some []) cap start_offset true [] false 1 true false file.

(** *** Steps of the task *)

Inductive bg : Set :=
  | BgCancel                 (** the token is cancelled *)
  | BgPoll                   (** the head of the loop over attempts *)
  | BgWritten                (** the attempt succeeds *)
  | BgFailed (n : nat).      (** the attempt fails after [n] bytes *)

Definition with_task (w : BufferedWriter) (requests : list FlushRequest) (attempting : bool) (recycled : nat)
    (running cancel : bool) (file : list byte) : BufferedWriter :=
  mkBufferedWriter (bfw_maybe_flushed w) (bfw_mutable w) (bfw_cap w) (bfw_bytes_submitted w) (bfw_handle w)
    requests attempting recycled running cancel file.

Definition bg_step (w : BufferedWriter) (b : bg) : BufferedWriter :=
  match b, bfw_running w, bfw_requests w with
  | BgCancel, running, requests =>
      with_task w requests (bfw_attempting w) (bfw_recycled w) running true (bfw_file w)
  | BgPoll, true, _ :: _ =>
      if bfw_attempting w then w
      else if bfw_cancel w then with_task w [] false (bfw_recycled w) false true (bfw_file w)
      else with_task w (bfw_requests w) true (bfw_recycled w) true false (bfw_file w)
  | BgWritten, true, r :: rest =>
      if bfw_attempting w then
        with_task w rest false (S (bfw_recycled w)) true (bfw_cancel w)
          (file_write_at (Z.to_nat (fr_offset r)) (fr_slice r) (bfw_file w))
      else w
  | BgFailed n, true, r :: _ =>
      if bfw_attempting w then
        with_task w (bfw_requests w) false (bfw_recycled w) true (bfw_cancel w)
          (file_write_at (Z.to_nat (fr_offset r)) (take n (fr_slice r)) (bfw_file w))
      else w
  | _, _, _ => w
  end.

Definition bg_run (w : BufferedWriter) (bs : list bg) : BufferedWriter := fold_left bg_step bs w.

(** *** Writing *)

(** What the task does until a flush has sent its request, and until it is given a
    buffer back. *)
Abbreviation sched := (list bg * list bg)%type.

Abbreviation bwM := (M FlushTaskError BufferedWriter).

(** [FlushHandle::handle_error]: the handle is taken. *)
Definition handle_error {A} : bwM A :=
  _ ← modify (fun w =>
    mkBufferedWriter (bfw_maybe_flushed w) (bfw_mutable w) (bfw_cap w) (bfw_bytes_submitted w) false
      (bfw_requests w) (bfw_attempting w) (bfw_recycled w) (bfw_running w) (bfw_cancel w) (bfw_file w));
  bail FlushCancelled.

(** [FlushHandle::flush]. *)
Definition send_flush (s : sched) (slice : list byte) (offset : Z) : bwM unit :=
  handle ← gets bfw_handle;
  _ ← assert handle;
  _ ← modify (fun w => bg_run w s.1);
  running ← gets bfw_running;
  if negb running then handle_error else
  _ ← modify (fun w =>
    with_task w (bfw_requests w ++ [mkFlushRequest slice offset]) (bfw_attempting w) (bfw_recycled w) true
      (bfw_cancel w) (bfw_file w));
  _ ← modify (fun w => bg_run w s.2);
  recycled ← gets bfw_recycled;
  match recycled with
  | S recycled =>
      modify (fun w =>
        with_task w (bfw_requests w) (bfw_attempting w) recycled (bfw_running w) (bfw_cancel w) (bfw_file w))
  | O =>
      running ← gets bfw_running;
      if negb running then handle_error else bail Blocked
  end.

Definition bfw_set (maybe_flushed mutable : option (list byte)) (bytes_submitted : Z) (w : BufferedWriter) : BufferedWriter :=
  mkBufferedWriter maybe_flushed mutable (bfw_cap w) bytes_submitted (bfw_handle w) (bfw_requests w)
    (bfw_attempting w) (bfw_recycled w) (bfw_running w) (bfw_cancel w) (bfw_file w).

(** [BufferedWriter::flush]. *)
Definition bfw_flush (s : sched) : bwM unit :=
  mutable ← gets bfw_mutable;
  buf ← unwrap mutable;
  match buf with
  | [] => mret tt
  | _ =>
      offset ← gets bfw_bytes_submitted;
      _ ← modify (bfw_set (Some buf) None (offset + Z.of_nat (length buf)));
      _ ← send_flush s buf offset;
      modify (fun w => bfw_set (bfw_maybe_flushed w) (Some []) (bfw_bytes_submitted w) w)
  end.

Definition next_sched (ss : list sched) : sched * list sched :=
  match ss with s :: ss => (s, ss) | [] => (([], []), []) end.

(** [write_buffered_borrowed_controlled]: one round of its loop per unit of fuel. *)
Fixpoint buffer_loop (fuel : nat) (ss : list sched) (chunk : list byte) : bwM unit :=
  match chunk, fuel with
  | [], _ => mret tt
  | _, O => bail Blocked
  | _, S fuel =>
      mutable ← gets bfw_mutable;
      buf ← unwrap mutable;
      cap ← gets bfw_cap;
      let need := (cap - length buf)%nat in
      let n := Nat.min need (length chunk) in
      let buf := buf ++ take n chunk in
      _ ← modify (fun w => bfw_set (bfw_maybe_flushed w) (Some buf) (bfw_bytes_submitted w) w);
      if decide (cap <= length buf)%nat then
        _ ← assert (bool_decide (length buf = cap));
        let '(s, ss) := next_sched ss in
        _ ← bfw_flush s;
        buffer_loop fuel ss (drop n chunk)
      else buffer_loop fuel ss (drop n chunk)
  end.

Definition write_buffered (ss : list sched) (chunk : list byte) : bwM nat :=
  _ ← buffer_loop (length chunk) ss chunk;
  mret (length chunk).

(** *** Shutting down *)

Inductive BufferedWriterShutdownMode : Set :=
  | DropTail | ZeroPadToNextMultiple (n : nat) | PadThenTruncate.

Definition next_multiple_of (len n : nat) : nat := ((len + (n - 1)) / n * n)%nat.

Definition set_file_len (len : nat) (file : list byte) : list byte :=
  take len (file ++ replicate (len - length file) (Z_byte 0)).

(** [FlushHandle::shutdown]: the task has to write what is left before it ends. *)
Definition handle_shutdown (bs : list bg) (set_len : option Z) : bwM unit :=
  handle ← gets bfw_handle;
  _ ← assert handle;
  running ← gets bfw_running;
  if negb running then handle_error else
  _ ← modify (fun w => bg_run w bs);
  w ← get;
  if negb (bfw_running w) then handle_error
  else match bfw_requests w with
  | [] =>
      if bfw_cancel w then handle_error
      else modify (fun w => with_task w [] false (bfw_recycled w) false (bfw_cancel w)
                              (match set_len with
                               | Some len => set_file_len (Z.to_nat len) (bfw_file w)
                               | None => bfw_file w
                               end))
  | _ => bail Blocked
  end.

Definition bfw_shutdown (s : sched) (bs : list bg) (mode : BufferedWriterShutdownMode) : bwM Z :=
  mutable ← gets bfw_mutable;
  buf ← unwrap mutable;
  cap ← gets bfw_cap;
  submitted ← gets bfw_bytes_submitted;
  let pad n :=
    let len := length buf in
    _ ← assert (bool_decide (len <= cap)%nat);
    let padded_len := next_multiple_of len n in
    _ ← assert (bool_decide (padded_len <= cap)%nat);
    _ ← modify (fun w => bfw_set (bfw_maybe_flushed w) (Some (buf ++ replicate (padded_len - len) (Z_byte 0)))
                           (bfw_bytes_submitted w) w);
    mret padded_len in
  '(final_len, set_len) ←
    match mode with
    | DropTail =>
        _ ← modify (fun w => bfw_set (bfw_maybe_flushed w) None (bfw_bytes_submitted w) w);
        mret (submitted, None)
    | ZeroPadToNextMultiple n =>
        padded_len ← pad n;
        mret (submitted + Z.of_nat padded_len, None)
    | PadThenTruncate =>
        padded_len ← pad cap;
        let final_len := submitted + Z.of_nat (length buf) in
        mret (final_len, if decide (length buf < padded_len)%nat then Some final_len else None)
    end;
  mutable ← gets bfw_mutable;
  _ ← match mutable with Some _ => bfw_flush s | None => mret tt end;
  _ ← handle_shutdown bs set_len;
  mret final_len.

(** ** The ephemeral file *)

Definition TAIL_SZ : nat := Z.to_nat 65536.

Record EphemeralFile := mkEphemeralFile { ef_writer : BufferedWriter; ef_bytes_written : Z }.

Definition ef_create : EphemeralFile := mkEphemeralFile (bfw_new 0 TAIL_SZ []) 0.

Definition ef_len (self : EphemeralFile) : Z := ef_bytes_written self.

Abbreviation efM := (M FlushTaskError EphemeralFile).

Definition write_raw (ss : list sched) (srcbuf : list byte) : efM Z :=
  nwritten ← zoom ef_writer (fun w self => mkEphemeralFile w (ef_bytes_written self)) (write_buffered ss srcbuf);
  _ ← assert (bool_decide (nwritten = length srcbuf));
  pos ← gets ef_bytes_written;
  _ ← modify (fun self => mkEphemeralFile (ef_writer self) (ef_bytes_written self + Z.of_nat (length srcbuf)));
  mret pos.

(** What the task does between calls. *)
Definition ef_background (bs : list bg) (self : EphemeralFile) : EphemeralFile :=
  mkEphemeralFile (bg_run (ef_writer self) bs) (ef_bytes_written self).

Definition u64_saturating_add (a b : Z) : Z := Z.min (a + b) u64_max.
Definition u64_saturating_sub (a b : Z) : Z := Z.max (a - b) 0.

(** [Range::len] of the function. *)
Definition range_len (a b : Z) : Z := if decide (b < a) then 0 else b - a.

Definition copy_into (dst : list byte) (at_ : nat) (src : list byte) : option (list byte) :=
  if decide (at_ + length src <= length dst)%nat then Some (take at_ dst ++ src ++ drop (at_ + length src) dst) else None.

(** The first bytes of the buffer that were read; [Panic] is a failing slice, [unwrap]
    or subtraction. *)
Definition read_exact_at_eof_ok (self : EphemeralFile) (start : Z) (dst_cap : nat) : outcome string (list byte) :=
  let writer := ef_writer self in
  let dst := replicate dst_cap (Z_byte 0) in
  let bytes_written := ef_bytes_written self in
  let end_ := Z.min (u64_saturating_add start (Z.of_nat dst_cap)) bytes_written in
  let submitted_offset := bfw_bytes_submitted writer in
  let maybe_flushed := bfw_maybe_flushed writer in
  let mutable := default [] (bfw_mutable writer) in
  let flushed := u64_saturating_sub submitted_offset (Z.of_nat TAIL_SZ) in
  let '(written_range, maybe_flushed_range) :=
    match maybe_flushed with
    | Some _ => ((start, Z.min end_ flushed), (Z.max start flushed, Z.min end_ submitted_offset))
    | None => ((start, Z.min end_ submitted_offset), (submitted_offset, 0))
    end in
  let len r := Z.to_nat (range_len r.1 r.2) in
  let mutable_range := (Z.max start submitted_offset, end_) in
  dst ←
    (if decide (0 < len mutable_range)%nat then
       let offset_in_buffer := Z.to_nat (mutable_range.1 - submitted_offset) in
       to_copy ← of_option (slice offset_in_buffer (offset_in_buffer + len mutable_range) mutable);
       of_option (copy_into dst (len written_range + len maybe_flushed_range) to_copy)
     else Ok dst);
  dst ←
    (if decide (0 < len maybe_flushed_range)%nat then
       offset_in_buffer ← of_option (if decide (flushed <= maybe_flushed_range.1) then Some (Z.to_nat (maybe_flushed_range.1 - flushed)) else None);
       maybe_flushed ← of_option maybe_flushed;
       to_copy ← of_option (slice offset_in_buffer (offset_in_buffer + len maybe_flushed_range) maybe_flushed);
       of_option (copy_into dst (len written_range) to_copy)
     else Ok dst);
  dst ←
    (if decide (0 < len written_range)%nat then
       match file_read_exact_at (Z.to_nat start) (len written_range) (bfw_file writer) with
       | inl e => Err e
       | inr part => of_option (copy_into dst 0 part)
       end
     else Ok dst);
  nread ← of_option (if decide (start <= end_) then Some (Z.to_nat (end_ - start)) else None);
  of_option (slice 0 nread dst).

Definition load_to_io_buf (self : EphemeralFile) : outcome string (list byte) :=
  let size := Z.to_nat (ef_len self) in
  buf ← read_exact_at_eof_ok self 0 size;
  _ ← of_option (if decide (length buf = size) then Some tt else None);
  Ok buf.
