(* ===== verification/EphemeralFacts.v ===== *)
(** * What an ephemeral file reads

    Whatever the flush task has done, a read returns the bytes that were written, until
    a flush fails because the task was cancelled. *)

From S2P Require Import Prelude XlogUtils EphemeralFile.

(** ** Writing to the file *)

Lemma write_at_prefix offset buf file base :
  base `prefix_of` file -> (length base <= offset)%nat -> base `prefix_of` file_write_at offset buf file.
Proof.
  intros [rest ->] Hl. unfold file_write_at. rewrite <- app_assoc, take_app_ge by done. rewrite <- app_assoc. by eexists.
Qed.

Lemma write_at_extends buf file base :
  base `prefix_of` file -> (base ++ buf) `prefix_of` file_write_at (length base) buf file.
Proof.
  intros [rest ->]. unfold file_write_at. rewrite <- app_assoc, take_app_length, app_assoc. by eexists.
Qed.

(** What is written of [c] after [base] leaves a file of the bytes [base ++ c ++ tl]. *)
Lemma write_at_within n base c tl file :
  base `prefix_of` file -> file `prefix_of` base ++ c ++ tl ->
  file_write_at (length base) (take n c) file `prefix_of` base ++ c ++ tl.
Proof.
  intros [rest ->] H. apply prefix_app_inv in H as [more H]. unfold file_write_at. rewrite <- app_assoc, take_app_length.
  apply prefix_app. rewrite drop_app_ge by lia. replace (length base + length (take n c) - length base)%nat with (length (take n c)) by lia.
  assert (c ++ tl = take n c ++ (drop n c ++ tl)) as E by (by rewrite app_assoc, take_drop). rewrite E in *.
  apply prefix_app. destruct (decide (length rest <= length (take n c))%nat); [rewrite drop_ge by done; apply prefix_nil|].
  exists more. rewrite <- (drop_app_le rest) by lia. rewrite <- H. by rewrite drop_app_length.
Qed.

(** ** The task *)

(** The requests for the chunks [rest], from [off] on. *)
Fixpoint requests_of (off : nat) (rest : list (list byte)) : list FlushRequest :=
  match rest with
  | [] => []
  | c :: rest => mkFlushRequest c (Z.of_nat off) :: requests_of (off + length c) rest
  end.

Lemma requests_of_snoc rest c : forall off,
  requests_of off (rest ++ [c]) = requests_of off rest ++ [mkFlushRequest c (Z.of_nat (off + length (concat rest)))].
Proof.
  induction rest as [|d rest IH]; intros off; cbn; [by rewrite Nat.add_0_r|]. rewrite IH, length_app. do 4 f_equal. lia.
Qed.

(** [s] has been submitted; the file has a part of it, and all of it but the chunks
    [rest].  [k] buffers are with the task or sent back. *)
Record task_inv (w : BufferedWriter) (s : list byte) (k : nat) : Prop := mkTaskInv {
  ti_split : exists base rest, s = base ++ concat rest /\ base `prefix_of` bfw_file w
    /\ Forall (fun c => length c = bfw_cap w) rest /\ (bfw_recycled w + length rest = k)%nat
    /\ bfw_requests w = if bfw_running w then requests_of (length base) rest else [];
  ti_file : bfw_file w `prefix_of` s
}.

Lemma bg_step_same b w :
  let w' := bg_step w b in
  bfw_maybe_flushed w' = bfw_maybe_flushed w /\ bfw_mutable w' = bfw_mutable w /\ bfw_cap w' = bfw_cap w
  /\ bfw_bytes_submitted w' = bfw_bytes_submitted w /\ bfw_handle w' = bfw_handle w.
Proof.
  destruct w as [mf mu cap sub h reqs att rec run can file]. unfold bg_step, with_task. cbn.
  destruct b, run, reqs; try done; destruct att, can; done.
Qed.

Lemma bg_step_inv b w s k : task_inv w s k -> task_inv (bg_step w b) s k.
Proof.
  intros [(base & rest & -> & Hp & Hc & Hk & Hr) Hfile]. destruct w as [mf mu cap sub h reqs att rec run can file]. cbn in *.
  unfold bg_step, with_task. cbn.
  assert (task_inv (mkBufferedWriter mf mu cap sub h reqs att rec run can file) (base ++ concat rest) k) as Hsame
    by (split; [by exists base, rest|done]).
  destruct b as [| | |n]; cbn.
  - split; [by exists base, rest|done].
  - destruct run; [|done]. destruct reqs as [|r reqs]; [done|]. destruct att; [done|].
    destruct can; (split; cbn; [by exists base, rest|done]).
  - destruct run; [|done]. destruct reqs as [|r reqs]; [done|]. destruct att; [|done].
    destruct rest as [|c rest]; [done|]. cbn in Hr. injection Hr as -> ->. apply Forall_cons in Hc as [Hc1 Hc].
    split; cbn [bfw_file fr_offset fr_slice concat] in *; rewrite Nat2Z.id.
    + exists (base ++ c), rest. cbn [fr_offset fr_slice length] in *. cbn. rewrite length_app.
      split_and!; [by rewrite app_assoc|by apply write_at_extends|done|lia|done].
    + rewrite <- (take_ge c (length c)) at 1 by lia. by apply write_at_within.
  - destruct run; [|done]. destruct reqs as [|r reqs]; [done|]. destruct att; [|done].
    destruct rest as [|c rest]; [done|]. cbn in Hr. injection Hr as -> ->.
    split; cbn [bfw_file fr_offset fr_slice concat] in *; rewrite Nat2Z.id; [|by apply write_at_within].
    exists base, (c :: rest). split_and!; try done. by apply write_at_prefix.
Qed.

Lemma bg_run_ok bs : forall w s k,
  task_inv w s k ->
  let w' := bg_run w bs in
  task_inv w' s k /\ bfw_maybe_flushed w' = bfw_maybe_flushed w /\ bfw_mutable w' = bfw_mutable w
  /\ bfw_cap w' = bfw_cap w /\ bfw_bytes_submitted w' = bfw_bytes_submitted w /\ bfw_handle w' = bfw_handle w.
Proof.
  induction bs as [|b bs IH]; intros w s k Hi; cbn [bg_run fold_left]; [by split_and!|].
  destruct (IH (bg_step w b) s k (bg_step_inv b w s k Hi)) as (H0 & H1 & H2 & H3 & H4 & H5). cbv zeta.
  destruct (bg_step_same b w) as (S1 & S2 & S3 & S4 & S5). unfold bg_run in *.
  rewrite H1, H2, H3, H4, H5. by split_and!.
Qed.

(** ** The writer between calls *)

(** [data] has been written: a part is submitted, the rest is in the buffer. *)
Record writer_ok (w : BufferedWriter) (data : list byte) : Prop := {
  wo_split : exists s m, data = s ++ m /\ bfw_mutable w = Some m /\ (length m < bfw_cap w)%nat
    /\ bfw_bytes_submitted w = Z.of_nat (length s) /\ task_inv w s 1
    /\ match bfw_maybe_flushed w with
       | None => s = []
       | Some f => length f = bfw_cap w /\ exists s', s = s' ++ f
       end;
  wo_handle : bfw_handle w = true;
  wo_cap : (0 < bfw_cap w)%nat
}.

Lemma bg_run_writer bs w data : writer_ok w data -> writer_ok (bg_run w bs) data.
Proof.
  intros [(s & m & -> & Hm & Hl & Hsub & Ht & Hf) Hh Hc].
  destruct (bg_run_ok bs w s 1 Ht) as (H0 & H1 & H2 & H3 & H4 & H5).
  split; [|by rewrite H5|by rewrite H3]. exists s, m. rewrite H1, H2, H3, H4. by split_and!.
Qed.

(** A task that has not been told to stop, and a schedule in which it keeps up with
    the writer. *)
Definition live (w : BufferedWriter) : Prop := bfw_running w = true /\ bfw_cancel w = false.
Definition keeps_up : sched := ([], [BgPoll; BgWritten; BgPoll; BgWritten]).
Definition succeeds {A} (r : outcome FlushTaskError A) : Prop := match r with Ok _ => True | _ => False end.

Lemma keeps_up_recycles w s :
  live w -> task_inv w s 2 -> live (bg_run w keeps_up.2) /\ (0 < bfw_recycled (bg_run w keeps_up.2))%nat.
Proof.
  intros [Hr Hc] [(base & rest & _ & _ & _ & Hk & Hq) _]. destruct w as [mf mu cap sub h reqs att rec run can file].
  cbn in Hr, Hc, Hk, Hq. subst run can. cbn in Hq. subst reqs.
  destruct rest as [|c1 [|c2 [|c3 rest]]]; cbn in Hk; [..|lia]; destruct att; (split; [by split|cbn; lia]).
Qed.

(** Sending a chunk to the task and waiting for a buffer. *)
Lemma send_flush_ok sch w s buf :
  bfw_handle w = true -> length buf = bfw_cap w -> task_inv w s 1 ->
  wp (send_flush sch buf (Z.of_nat (length s))) (fun r w' =>
    bfw_cap w' = bfw_cap w /\ (live w -> sch = keeps_up -> live w' /\ succeeds r) /\
    match r with
    | Ok _ => task_inv w' (s ++ buf) 1 /\ bfw_maybe_flushed w' = bfw_maybe_flushed w
              /\ bfw_bytes_submitted w' = bfw_bytes_submitted w /\ bfw_handle w' = true
    | Err _ => bfw_file w' `prefix_of` s ++ buf /\ bfw_maybe_flushed w' = bfw_maybe_flushed w
               /\ bfw_bytes_submitted w' = bfw_bytes_submitted w
    | Panic => False
    end) w.
Proof.
  intros Hh Hl Ht. unfold send_flush. wp_step. wp_step. rewrite Hh. wp_step. wp_step; [|done]. wp_step. wp_step.
  destruct (bg_run_ok sch.1 w s 1 Ht) as (H0 & H1 & _ & H3 & H4 & H5). cbv zeta in *. set (w1 := bg_run w sch.1) in *.
  assert (live w -> sch = keeps_up -> w1 = w) as Hlive1 by (intros _ ->; done). clearbody w1.
  wp_step. wp_step. destruct (bfw_running w1) eqn:Er; cbn [negb].
  2: { unfold handle_error. repeat wp_step. cbn. rewrite H3. split; [done|]. split; [|split_and!; [|done|done]].
       - intros L E. destruct (L) as [Lr _]. rewrite (Hlive1 L E) in Er. congruence.
       - etrans; [apply (ti_file _ _ _ H0)|by apply prefix_app_r]. }
  wp_step. wp_step. wp_step. wp_step.
  match goal with |- context [bg_run ?x sch.2] => set (w2 := x) end.
  assert (task_inv w2 (s ++ buf) 2) as Ht2.
  { destruct H0 as [(base & rest & -> & Hp & Hc & Hk & Hr) Hfile]. rewrite Er in Hr. split; [|etrans; [exact Hfile|by apply prefix_app_r]].
    exists base, (rest ++ [buf]). cbn.
    rewrite concat_app, requests_of_snoc, !length_app, <- Hr. cbn. rewrite app_nil_r, app_assoc. split_and!; try done.
    1: { apply Forall_app. split; [done|]. constructor; [congruence|constructor]. }
    1: { lia. } }
  assert (bfw_maybe_flushed w2 = bfw_maybe_flushed w /\ bfw_cap w2 = bfw_cap w /\ bfw_bytes_submitted w2 = bfw_bytes_submitted w
    /\ bfw_handle w2 = true) as (J1 & J2 & J3 & J4) by (cbn; rewrite H1, H3, H4, H5; done).
  assert (live w -> sch = keeps_up -> live w2) as Hlive2 by (intros L E; rewrite <- (Hlive1 L E) in L; destruct L; by split).
  clearbody w2. destruct (bg_run_ok sch.2 w2 (s ++ buf) 2 Ht2) as (K0 & K1 & _ & K3 & K4 & K5). cbv zeta in *.
  assert (live w -> sch = keeps_up -> live (bg_run w2 sch.2) /\ (0 < bfw_recycled (bg_run w2 sch.2))%nat) as Hlive3.
  { intros L E. specialize (Hlive2 L E). subst sch. by apply (keeps_up_recycles w2 (s ++ buf)). }
  set (w3 := bg_run w2 sch.2) in *. clearbody w3. wp_step. wp_step. destruct (bfw_recycled w3) as [|rec] eqn:Erec.
  - assert (live w -> sch = keeps_up -> False) as Hno by (intros L E; destruct (Hlive3 L E); lia).
    wp_step. wp_step. destruct (bfw_running w3); cbn [negb]; [|unfold handle_error]; repeat wp_step; cbn;
      (rewrite K1, K3, K4, J1, J2, J3; split; [done|]; split; [intros L E; by destruct (Hno L E)|];
       split_and!; [apply (ti_file _ _ _ K0)|done|done]).
  - wp_step. cbn. rewrite K1, K3, K4, K5, J1, J2, J3, J4. split; [done|]. split.
    { intros L E. destruct (Hlive3 L E) as [L3 _]. by split. }
    split_and!; try done. destruct K0 as [(base & rest & E & Hp & Hc & Hk & Hr) Hfile]. split; [|done]. cbn.
    exists base, rest. split_and!; try done. lia.
Qed.

(** After a failed flush: [s] has been submitted, its last buffer is still in memory,
    and the file has a part of it. *)
Record flush_failed (w : BufferedWriter) (s : list byte) : Prop := {
  ff_file : bfw_file w `prefix_of` s;
  ff_submitted : bfw_bytes_submitted w = Z.of_nat (length s);
  ff_last : exists s' f, s = s' ++ f /\ bfw_maybe_flushed w = Some f /\ length f = bfw_cap w
}.

(** Submitting a full buffer. *)
Lemma bfw_flush_ok sch w s m :
  bfw_mutable w = Some m -> length m = bfw_cap w -> (0 < bfw_cap w)%nat -> bfw_bytes_submitted w = Z.of_nat (length s) ->
  task_inv w s 1 -> bfw_handle w = true ->
  wp (bfw_flush sch) (fun r w' =>
    bfw_cap w' = bfw_cap w /\ (live w -> sch = keeps_up -> live w' /\ succeeds r) /\
    match r with Ok _ => writer_ok w' (s ++ m) | Err _ => flush_failed w' (s ++ m) | Panic => False end) w.
Proof.
  intros Hm Hl Hc Hsub Ht Hh. unfold bfw_flush. wp_step. wp_step. rewrite Hm. cbn [unwrap]. wp_step. wp_step.
  destruct m as [|b0 m0] eqn:Em; [cbn in Hl; lia|]. rewrite <- Em in *. clear Em b0 m0.
  wp_step. wp_step. wp_step. wp_step. wp_step. rewrite Hsub.
  match goal with |- wp _ _ ?x => set (w0 := x) end.
  assert (task_inv w0 s 1) as Ht0 by (destruct Ht as [Ht Hfile]; split; [exact Ht|exact Hfile]).
  eapply wp_mono; [by apply (send_flush_ok sch w0 s m)|]. cbn beta. intros o w' (Hcap & Hlive & Ho).
  destruct o as [[]|e|]; [| |by split_and!]; cycle 1.
  { split; [exact Hcap|]. split; [exact Hlive|]. destruct Ho as (K0 & K1 & K2). split; [done|rewrite K2, length_app; cbn; lia|].
    exists s, m. rewrite K1, Hcap. by split_and!. }
  destruct Ho as (K0 & K1 & K2 & K3). wp_step. split; [exact Hcap|].
  split; [exact Hlive|].
  split; [|exact K3|cbn; by rewrite Hcap]. exists (s ++ m), []. cbn. rewrite app_nil_r, Hcap, K1, K2. cbn.
  split_and!; try done; [rewrite length_app; lia|destruct K0 as [K0 K0']; by split|by exists s].
Qed.

(** What goes into the buffer. *)
Lemma fill_ok w s m extra :
  writer_ok w (s ++ m) -> bfw_mutable w = Some m -> bfw_bytes_submitted w = Z.of_nat (length s) -> task_inv w s 1 ->
  (length (m ++ extra) < bfw_cap w)%nat ->
  writer_ok (bfw_set (bfw_maybe_flushed w) (Some (m ++ extra)) (bfw_bytes_submitted w) w) ((s ++ m) ++ extra).
Proof.
  intros [(s0 & m0 & E & Hm0 & Hl & Hsub0 & _ & Hf) Hh Hc] Hm Hsub Ht Hlen.
  assert (m0 = m) as -> by congruence. assert (s0 = s) as -> by (by apply app_inv_tail in E).
  split; [|done|done]. exists s, (m ++ extra). cbn. rewrite app_assoc. split_and!; try done. destruct Ht as [Ht Hfile]. by split.
Qed.

Lemma buffer_loop_ok fuel : forall ss chunk w data,
  writer_ok w data -> (length chunk <= fuel)%nat ->
  wp (buffer_loop fuel ss chunk) (fun r w' =>
    bfw_cap w' = bfw_cap w
    /\ (live w -> Forall (eq keeps_up) ss -> (length chunk <= length ss)%nat -> live w' /\ succeeds r) /\
    match r with
    | Ok _ => writer_ok w' (data ++ chunk)
    | Err _ => exists s, flush_failed w' s /\ data `prefix_of` s
    | Panic => False
    end) w.
Proof.
  induction fuel as [|fuel IH]; intros ss chunk w data Hw Hf.
  { destruct chunk; [|cbn in Hf; lia]. cbn. wp_step. by rewrite app_nil_r. }
  destruct chunk as [|b chunk]; [cbn; wp_step; by rewrite app_nil_r|]. cbn [buffer_loop].
  assert (exists c, b :: chunk = c) as [c Hchunk] by by eexists. assert (0 < length c)%nat as Hpos by (subst c; cbn; lia).
  rewrite Hchunk in *. clear Hchunk b chunk.
  pose proof Hw as [(s & m & -> & Hm & Hl & Hsub & Ht & Hfl) Hh Hcap].
  wp_step. wp_step. rewrite Hm. cbn [unwrap]. wp_step. wp_step. wp_step. wp_step. wp_step. wp_step.
  set (n := Nat.min (bfw_cap w - length m) (length c)). set (w1 := bfw_set _ _ _ w).
  assert (0 < n)%nat as Hn by (unfold n; lia).
  assert (length (take n c) = n) as Htn by (rewrite length_take; unfold n; lia).
  assert (length (drop n c) <= fuel)%nat as Hd by (rewrite length_drop; lia).
  assert ((s ++ m) ++ c = ((s ++ m) ++ take n c) ++ drop n c) as Hsplit by (by rewrite <- (app_assoc _ (take n c)), take_drop).
  rewrite Hsplit. wp_step.
  - assert (length (m ++ take n c) = bfw_cap w) as Hfull by (rewrite length_app, Htn in *; unfold n in *; lia).
    wp_step. wp_step; [|rewrite bool_decide_true in *; done]. destruct (next_sched ss) as [sch ss'] eqn:Ess. wp_step.
    eapply wp_mono; [apply (bfw_flush_ok sch w1 s (m ++ take n c)); try done|].
    { destruct Ht as [Ht Hfile]. by split. }
    intros o w' (Hc & Hlive & Ho).
    assert (Forall (eq keeps_up) ss -> (length c <= length ss)%nat ->
      sch = keeps_up /\ Forall (eq keeps_up) ss' /\ (length (drop n c) <= length ss')%nat) as Hss.
    { intros Hall Hlen. destruct ss as [|x ss]; [cbn in Hlen; lia|]. injection Ess as <- <-. apply Forall_cons in Hall as [<- Hall].
      split_and!; try done. rewrite length_drop. cbn in Hlen. lia. }
    destruct o as [[]|e|].
    3: done.
    2:{ split; [done|]. split; [by intros L Ha Hb; destruct (Hss Ha Hb) as (? & _); apply Hlive|].
        eexists. split; [exact Ho|]. rewrite app_assoc. by apply prefix_app_r. }
    rewrite app_assoc in Ho.
    eapply wp_mono; [apply (IH ss' (drop n c) w' _ Ho Hd)|]. cbn beta. intros o w'' (Hc' & Hl' & Ho'). rewrite Hc', Hc.
    split; [done|]. split; [intros L Ha Hb; destruct (Hss Ha Hb) as (E1 & E2 & E3); apply Hl'; try done; by apply Hlive|].
    destruct o as [[]|e|]; [done| |done]. destruct Ho' as (s' & Hs' & Hpre). exists s'. split; [done|].
    etrans; [|exact Hpre]. by apply prefix_app_r.
  - assert (writer_ok w1 ((s ++ m) ++ take n c)) as Hw1 by (apply (fill_ok w s m (take n c) Hw Hm Hsub Ht); lia).
    eapply wp_mono; [apply (IH ss (drop n c) w1 _ Hw1 Hd)|]. cbn beta. intros o w'' (Hc' & Hl' & Ho'). split; [done|].
    split; [intros L Ha Hb; apply Hl'; try done; rewrite length_drop; lia|].
    destruct o as [[]|e|]; [done| |done]. destruct Ho' as (s' & Hs' & Hpre). exists s'. split; [done|].
    etrans; [|exact Hpre]. by apply prefix_app_r.
Qed.

(** ** Reading *)

Lemma take_same {A} (l : list A) x y : Nat.min x (length l) = Nat.min y (length l) -> take x l = take y l.
Proof.
  intros H. destruct (decide (x <= length l)%nat), (decide (y <= length l)%nat);
    [f_equal; lia|rewrite (take_ge l y) by lia; apply take_ge; lia
    |rewrite (take_ge l x) by lia; symmetry; apply take_ge; lia|by rewrite !take_ge by lia].
Qed.

Lemma range_app (X Y : list byte) a e :
  take (e - a) (drop a (X ++ Y))
  = take (Nat.min e (length X) - a) (drop a X) ++ take (e - Nat.max a (length X)) (drop (Nat.max a (length X) - length X) Y).
Proof.
  rewrite drop_app, take_app, length_drop. f_equal.
  - apply take_same. rewrite length_drop. lia.
  - replace (Nat.max a (length X) - length X)%nat with (a - length X)%nat by lia. f_equal. lia.
Qed.

(** A range of three adjacent parts. *)
Lemma pieces (A B C : list byte) a e :
  take (e - a) (drop a (A ++ B ++ C))
  = take (Nat.min e (length A) - a) (drop a A)
    ++ take (Nat.min e (length A + length B) - Nat.max a (length A)) (drop (Nat.max a (length A) - length A) B)
    ++ take (e - Nat.max a (length A + length B)) (drop (Nat.max a (length A + length B) - (length A + length B)) C).
Proof.
  rewrite range_app. f_equal. set (a' := (Nat.max a (length A) - length A)%nat).
  assert (e - Nat.max a (length A) = (e - length A) - a')%nat as -> by (unfold a'; lia).
  rewrite range_app. subst a'. generalize (length A) (length B). intros p q.
  assert (Nat.min (e - p) q - (Nat.max a p - p) = Nat.min e (p + q) - Nat.max a p)%nat as -> by (destruct (decide (a <= p)%nat); lia).
  assert (Nat.max (Nat.max a p - p) q - q = Nat.max a (p + q) - (p + q))%nat as -> by lia.
  assert (e - p - Nat.max (Nat.max a p - p) q = e - Nat.max a (p + q))%nat as -> by lia. done.
Qed.

Lemma pieces_total (p q r a e : nat) :
  (a <= e <= p + q + r)%nat ->
  ((Nat.min e p - a) + (Nat.min e (p + q) - Nat.max a p) + (e - Nat.max a (p + q)) = e - a)%nat.
Proof. intros H. destruct (decide (a <= p)%nat), (decide (e <= p)%nat), (decide (e <= p + q)%nat); lia. Qed.

Lemma slice_Some i j (l : list byte) : (i <= j <= length l)%nat -> slice i j l = Some (take (j - i) (drop i l)).
Proof. intros H. unfold slice. by rewrite decide_True. Qed.

Lemma copy_step z1 z2 t (src : list byte) at_ :
  length z1 = at_ -> length z2 = length src -> copy_into (z1 ++ z2 ++ t) at_ src = Some (z1 ++ src ++ t).
Proof.
  intros <- H. unfold copy_into. rewrite decide_True by (rewrite !length_app; lia). f_equal.
  rewrite take_app_length. f_equal. f_equal. rewrite app_assoc, drop_app_ge by (rewrite length_app; lia).
  rewrite length_app. replace (_ - _)%nat with O by lia. done.
Qed.

(** The three copies. *)
Lemma copies (lw lm lu n : nat) (w mf mu : list byte) :
  length w = lw -> length mf = lm -> length mu = lu -> (lw + lm + lu <= n)%nat ->
  exists d1 d2 d3 z, copy_into (replicate n (Z_byte 0)) (lw + lm) mu = Some d1 /\ copy_into d1 lw mf = Some d2
  /\ copy_into d2 0 w = Some d3 /\ d3 = w ++ mf ++ mu ++ z.
Proof.
  intros Hw Hm Hu Hn. set (z k := replicate k (Z_byte 0)).
  assert (replicate n (Z_byte 0) = (z lw ++ z lm) ++ z lu ++ z (n - lw - lm - lu)%nat) as ->.
  { unfold z. rewrite <- !replicate_add. f_equal. lia. }
  exists ((z lw ++ z lm) ++ mu ++ z (n - lw - lm - lu)%nat), (z lw ++ mf ++ mu ++ z (n - lw - lm - lu)%nat),
    (w ++ mf ++ mu ++ z (n - lw - lm - lu)%nat), (z (n - lw - lm - lu)%nat). unfold z.
  split_and!; [apply copy_step| | |done].
  - by rewrite length_app, !length_replicate.
  - by rewrite length_replicate.
  - rewrite <- app_assoc. apply copy_step; by rewrite length_replicate.
  - apply (copy_step []); [done|by rewrite length_replicate].
Qed.

Record ef_ok (ef : EphemeralFile) (data : list byte) : Prop := {
  eo_writer : writer_ok (ef_writer ef) data;
  eo_cap : bfw_cap (ef_writer ef) = TAIL_SZ;
  eo_written : ef_bytes_written ef = Z.of_nat (length data)
}.

(** What is where: on disk, in the buffer being flushed, in the buffer being filled. *)
Lemma ef_parts ef data :
  ef_ok ef data ->
  exists A B C, data = A ++ B ++ C /\ bfw_mutable (ef_writer ef) = Some C
  /\ bfw_bytes_submitted (ef_writer ef) = Z.of_nat (length A + length B)
  /\ A `prefix_of` bfw_file (ef_writer ef)
  /\ match bfw_maybe_flushed (ef_writer ef) with
     | Some f => f = B /\ length B = TAIL_SZ
     | None => A = [] /\ B = []
     end.
Proof.
  intros [[(s & m & -> & Hm & _ & Hsub & [(base & rest & Hs & Hp & Hr & Hk & _) _] & Hf) _ _] Hcap _]. rewrite Hcap in *.
  destruct (bfw_maybe_flushed (ef_writer ef)) as [f|].
  - destruct Hf as [Hl (s' & ->)]. exists s', f, m. rewrite <- app_assoc, length_app in *. split_and!; try done.
    destruct rest as [|c [|c' rest]]; [| |cbn in Hk; lia].
    + cbn in Hs. rewrite app_nil_r in Hs. subst base. etrans; [by apply prefix_app_r|exact Hp].
    + apply Forall_cons in Hr as [Hc _]. cbn in Hs. rewrite app_nil_r in Hs. apply app_inj_2 in Hs as [-> _]; [done|congruence].
  - clear Hs. subst s. exists [], [], m. split_and!; try done. apply prefix_nil.
Qed.

Lemma read_from_file A file a lw :
  A `prefix_of` file -> (a + lw <= length A)%nat ->
  file_read_exact_at a lw file = inr (take lw (drop a A)).
Proof.
  intros [r ->] Hl.
  unfold file_read_exact_at. rewrite slice_Some by (rewrite length_app; lia).
  replace (a + lw - a)%nat with lw by lia. rewrite drop_app_le by lia. rewrite take_app_le by (rewrite length_drop; lia). done.
Qed.

Lemma range_len_nat a b : Z.to_nat (range_len (Z.of_nat a) (Z.of_nat b)) = (b - a)%nat.
Proof. unfold range_len. case_decide; lia. Qed.

(** A copy of nothing may be left out. *)
Lemma stage_ok {E} (dst d : list byte) at_ (src : list byte) l (m : outcome E (list byte)) :
  length src = l -> copy_into dst at_ src = Some d -> ((0 < l)%nat -> m = of_option (copy_into dst at_ src)) ->
  (if decide (0 < l)%nat then m else Ok dst) = Ok d.
Proof.
  intros Hl Hc Hm. case_decide as Hpos; [by rewrite Hm, Hc|]. destruct src; [|cbn in Hl; lia].
  unfold copy_into in Hc. case_decide; [|done]. cbn in Hc. rewrite Nat.add_0_r, take_drop in Hc. by injection Hc as ->.
Qed.

Lemma ephemeral_read_ok ef data start n :
  ef_ok ef data -> 0 <= start <= Z.of_nat (length data) -> Z.of_nat (length data) <= u64_max ->
  read_exact_at_eof_ok ef start n = Ok (take n (drop (Z.to_nat start) data)).
Proof.
  intros Hok Hs Hmax. destruct (ef_parts ef data Hok) as (A & B & C & -> & Hmu & Hsub & Hp & Hf).
  pose proof (eo_written _ _ Hok) as Hw. unfold read_exact_at_eof_ok. rewrite Hw, Hsub, Hmu. change (default [] (Some C)) with C.
  assert (exists a, start = Z.of_nat a) as [a ->] by (exists (Z.to_nat start); lia). rewrite Nat2Z.id.
  rewrite !length_app in *.
  set (e := Nat.min (a + n) (length A + length B + length C)).
  assert (Z.min (u64_saturating_add (Z.of_nat a) (Z.of_nat n)) (Z.of_nat (length A + (length B + length C))) = Z.of_nat e) as ->
    by (unfold u64_saturating_add, e; lia).
  assert (take n (drop a (A ++ B ++ C)) = take (e - a) (drop a (A ++ B ++ C))) as ->.
  { apply take_same. rewrite length_drop, !length_app. unfold e. lia. }
  rewrite pieces. assert (a <= e <= length A + length B + length C /\ e - a <= n)%nat as [He Hen] by (unfold e; lia).
  pose proof (pieces_total _ _ _ _ _ He) as Htot. clearbody e.
  set (lw := (Nat.min e (length A) - a)%nat) in *.
  set (lm := (Nat.min e (length A + length B) - Nat.max a (length A))%nat) in *.
  set (lu := (e - Nat.max a (length A + length B))%nat) in *.
  set (w := take lw (drop a A)). set (mf := take lm _). set (mu := take lu _).
  assert (length w = lw) as Hlw by (unfold w; rewrite length_take, length_drop; unfold lw; lia).
  assert (length mf = lm) as Hlm by (unfold mf; rewrite length_take, length_drop; unfold lm; lia).
  assert (length mu = lu) as Hlu by (unfold mu; rewrite length_take, length_drop; unfold lu; lia).
  destruct (copies lw lm lu n w mf mu Hlw Hlm Hlu ltac:(lia)) as (d1 & d2 & d3 & z & C1 & C2 & C3 & Hd3).
  assert (slice 0 (e - a) d3 = Some (w ++ mf ++ mu)) as Hres.
  { subst d3. rewrite slice_Some by (rewrite !length_app; lia). rewrite Nat.sub_0_r, drop_0, !app_assoc.
    rewrite take_app_le by (rewrite !length_app; lia). by rewrite take_ge by (rewrite !length_app; lia). }
  assert (slice (Nat.max a (length A + length B) - (length A + length B))
    (Nat.max a (length A + length B) - (length A + length B) + lu) C = Some mu) as Hmu'.
  { rewrite slice_Some; [by rewrite Nat.add_comm, Nat.add_sub|]. unfold lu. lia. }
  assert ((0 < lw)%nat -> file_read_exact_at a lw (bfw_file (ef_writer ef)) = inr w) as Hfile.
  { intros Hpos. apply (read_from_file A); [done|]. unfold lw in *. lia. }
  assert ((0 < lm)%nat -> slice (Nat.max a (length A) - length A) (Nat.max a (length A) - length A + lm) B = Some mf) as Hmf.
  { intros Hpos. rewrite slice_Some; [by rewrite Nat.add_comm, Nat.add_sub|]. unfold lm in *. lia. }
  clearbody w mf mu.
  destruct (bfw_maybe_flushed (ef_writer ef)) as [f|].
  - destruct Hf as [-> HB].
    assert (u64_saturating_sub (Z.of_nat (length A + length B)) (Z.of_nat TAIL_SZ) = Z.of_nat (length A)) as ->
      by (unfold u64_saturating_sub; lia).
    cbn [fst snd]. rewrite <- !Nat2Z.inj_min, <- !Nat2Z.inj_max, !range_len_nat. fold lw lm lu.
    rewrite (stage_ok _ d1 (lw + lm) mu lu); [|done|done|].
    2:{ intros _. rewrite <- Nat2Z.inj_sub, Nat2Z.id by lia. by rewrite Hmu'. }
    rewrite ok_bind, (stage_ok _ d2 lw mf lm); [|done|done|].
    2:{ intros Hpos. rewrite decide_True by lia. cbn [of_option]. rewrite ok_bind. cbn [of_option]. rewrite ok_bind.
        rewrite <- Nat2Z.inj_sub, Nat2Z.id by lia. by rewrite Hmf. }
    rewrite ok_bind, (stage_ok _ d3 0 w lw); [|done|done|intros Hpos; by rewrite Hfile].
    rewrite ok_bind, decide_True by lia. cbn [of_option]. rewrite ok_bind, <- Nat2Z.inj_sub, Nat2Z.id by lia. by rewrite Hres.
  - destruct Hf as [-> ->]. cbn [fst snd length Nat.add] in *.
    change (Z.to_nat (range_len (Z.of_nat 0) 0)) with O. rewrite <- !Nat2Z.inj_min, <- !Nat2Z.inj_max, !range_len_nat.
    fold lw lu. assert (lm = O /\ lw = O) as [Elm Elw] by (unfold lm, lw; lia). rewrite Elm, Elw in *.
    rewrite (stage_ok _ d1 (0 + 0) mu lu); [|done|done|].
    2:{ intros _. rewrite <- Nat2Z.inj_sub, Nat2Z.id by lia. by rewrite Hmu'. }
    rewrite ok_bind, (stage_ok _ d2 0 mf 0); [|done|done|lia].
    rewrite ok_bind, (stage_ok _ d3 0 w 0); [|done|done|lia].
    rewrite ok_bind, decide_True by lia. cbn [of_option]. rewrite ok_bind, <- Nat2Z.inj_sub, Nat2Z.id by lia. by rewrite Hres.
Qed.

Lemma load_ok ef data : ef_ok ef data -> Z.of_nat (length data) <= u64_max -> load_to_io_buf ef = Ok data.
Proof.
  intros Hok Hmax. unfold load_to_io_buf, ef_len. rewrite (eo_written _ _ Hok), Nat2Z.id, (ephemeral_read_ok ef data) by (done || lia).
  cbn [mbind outcome_bind]. rewrite drop_0, take_ge by lia. by rewrite decide_True.
Qed.

(** ** Runs *)

Lemma ef_create_ok : ef_ok ef_create [].
Proof.
  split; [|done|done]. split; [|done|cbn; unfold TAIL_SZ; lia]. exists [], []. split_and!; try done; [cbn; unfold TAIL_SZ; lia|].
  split; [|done]. exists [], []. by split_and!.
Qed.

Lemma write_raw_ok ss src ef data :
  ef_ok ef data ->
  wp (write_raw ss src) (fun r ef' =>
    (live (ef_writer ef) -> Forall (eq keeps_up) ss -> (length src <= length ss)%nat ->
       live (ef_writer ef') /\ succeeds r) /\
    match r with
    | Ok pos => pos = Z.of_nat (length data) /\ ef_ok ef' (data ++ src)
    | Err _ => ef_bytes_written ef' = Z.of_nat (length data) /\ bfw_cap (ef_writer ef') = TAIL_SZ
               /\ exists s, flush_failed (ef_writer ef') s /\ data `prefix_of` s
    | Panic => False
    end) ef.
Proof.
  intros [Hw Hc Hb]. unfold write_raw, write_buffered. wp_step. apply wp_zoom. wp_step.
  eapply wp_mono; [by apply (buffer_loop_ok (length src) ss src _ data Hw)|]. cbn beta. intros o w' (Hcap & Hlive & Ho).
  destruct o as [[]|e|]; [| |by split]; [|split; [exact Hlive|]; by rewrite <- Hc]. wp_step. wp_step. rewrite bool_decide_true by done. wp_step; [|done].
  wp_step. wp_step. wp_step. wp_step. wp_step. cbn [ef_writer ef_bytes_written]. split; [exact Hlive|]. split; [done|].
  split; cbn; [done|congruence|rewrite length_app; lia].
Qed.

Lemma background_ok bs ef data : ef_ok ef data -> ef_ok (ef_background bs ef) data.
Proof.
  intros [Hw Hc Hb]. split; cbn; [by apply bg_run_writer| |done].
  destruct Hw as [(s & m & _ & _ & _ & _ & Ht & _) _ _]. destruct (bg_run_ok bs (ef_writer ef) s 1 Ht) as (_ & _ & _ & -> & _). done.
Qed.

(** A file that has been written to with success, with the bytes written; the flush
    task takes its steps at any time. *)
Inductive ef_run : EphemeralFile -> list byte -> Prop :=
  | run_create : ef_run ef_create []
  | run_write ef data ss src pos ef' :
      ef_run ef data -> write_raw ss src ef = (Ok pos, ef') -> ef_run ef' (data ++ src)
  | run_background ef data bs : ef_run ef data -> ef_run (ef_background bs ef) data.

Lemma ef_run_ok ef data : ef_run ef data -> ef_ok ef data.
Proof.
  induction 1 as [|ef data ss src pos ef' _ IH E|ef data bs _ IH]; [apply ef_create_ok| |by apply background_ok].
  by apply (wp_elim _ _ _ _ _ (write_raw_ok ss src ef data IH)) in E as (_ & _ & ?).
Qed.

Lemma run_written ef data ss src pos :
  ef_run ef data -> (write_raw ss src ef).1 = Ok pos -> ef_run (write_raw ss src ef).2 (data ++ src).
Proof. intros H E. apply (run_write ef data ss src pos); [done|]. by rewrite <- E, <- surjective_pairing. Qed.

(** C14: An ephemeral file reads what was written.  Whatever the background task has
    flushed, failed to flush and retried, or been told to cancel, and however the
    writes were cut into buffers, a read of any range within the file returns exactly
    the bytes written there, cut at the end of the file, and a write returns the
    position its bytes are read at and never panics; it succeeds when the task was not
    told to stop and keeps up with it. *)
Theorem ephemeral_file_reads_written (ef : EphemeralFile) (data : list byte) :
  ef_run ef data -> Z.of_nat (length data) <= u64_max ->
  (forall start n, 0 <= start <= Z.of_nat (length data) ->
     read_exact_at_eof_ok ef start n = Ok (take n (drop (Z.to_nat start) data)))
  /\ load_to_io_buf ef = Ok data
  /\ (forall ss src, match (write_raw ss src ef).1 with
                     | Ok pos => pos = Z.of_nat (length data)
                     | Err _ => True
                     | Panic => False
                     end)
  /\ forall src, live (ef_writer ef) -> succeeds (write_raw (replicate (length src) keeps_up) src ef).1.
Proof.
  intros Hrun Hmax. pose proof (ef_run_ok ef data Hrun) as Hok. split_and!.
  - intros start n Hs. by apply ephemeral_read_ok.
  - by apply load_ok.
  - intros ss src. pose proof (write_raw_ok ss src ef data Hok) as Hw. unfold wp in Hw.
    destruct (write_raw ss src ef) as [[pos|e|] ef']; [by destruct Hw as (_ & ? & _)|done|by destruct Hw].
  - intros src L. pose proof (write_raw_ok (replicate (length src) keeps_up) src ef data Hok) as Hw. unfold wp in Hw.
    destruct (write_raw _ src ef) as [r ef']. destruct Hw as [Hw _]. apply (Hw L).
    + apply Forall_replicate. done.
    + by rewrite length_replicate.
Qed.

Lemma ephemeral_file_reads_written_witness :
  exists ef, ef_run ef [Z_byte 1; Z_byte 2; Z_byte 3]
  /\ read_exact_at_eof_ok ef 1 512 = Ok [Z_byte 2; Z_byte 3].
Proof.
  set (e1 := (write_raw [] [Z_byte 1; Z_byte 2] ef_create).2). set (e2 := ef_background [BgCancel; BgPoll] e1).
  set (e3 := (write_raw [] [Z_byte 3] e2).2). exists e3.
  assert (ef_run e3 [Z_byte 1; Z_byte 2; Z_byte 3]) as Hrun.
  { apply (run_written e2 [Z_byte 1; Z_byte 2] [] [Z_byte 3] 2); [|by vm_compute]. apply run_background.
    apply (run_written ef_create [] [] [Z_byte 1; Z_byte 2] 0); [apply run_create|by vm_compute]. }
  split; [exact Hrun|]. destruct (ephemeral_file_reads_written e3 _ Hrun ltac:(by vm_compute)) as [Hr _].
  rewrite (Hr 1 512%nat) by (vm_compute; split; discriminate). done.
Defined.

Lemma slice_byte (l : list byte) i b : l !! i = Some b -> slice i (i + 1) l = Some [b].
Proof.
  intros H. pose proof (lookup_lt_Some _ _ _ H). rewrite slice_Some by lia. replace (i + 1 - i)%nat with 1%nat by lia.
  by rewrite (drop_S _ b) by done.
Qed.

(** One byte after a failed flush. *)
Lemma failed_read_byte ef data s pos b :
  ef_bytes_written ef = Z.of_nat (length data) -> bfw_cap (ef_writer ef) = TAIL_SZ -> flush_failed (ef_writer ef) s ->
  data `prefix_of` s -> Z.of_nat (length data) <= u64_max -> data !! pos = Some b ->
  read_exact_at_eof_ok ef (Z.of_nat pos) 1
  = if decide (pos < length (bfw_file (ef_writer ef)) \/ length s <= pos + TAIL_SZ)%nat then Ok [b]
    else Err "failed to fill whole buffer"%string.
Proof.
  intros Hw Hcap [Hfile Hsub (s' & f & -> & Hf & Hlf)] Hpre Hmax Hb. rewrite Hcap in Hlf. rewrite length_app in *.
  pose proof (lookup_lt_Some _ _ _ Hb) as Hpos. pose proof (prefix_length _ _ Hpre) as Hlen. rewrite length_app in Hlen.
  pose proof (prefix_lookup_Some _ _ _ _ Hb Hpre) as Hs. unfold read_exact_at_eof_ok. rewrite Hw, Hsub, Hf.
  assert (Z.min (u64_saturating_add (Z.of_nat pos) (Z.of_nat 1)) (Z.of_nat (length data)) = Z.of_nat (pos + 1)) as ->
    by (unfold u64_saturating_add; lia).
  assert (u64_saturating_sub (Z.of_nat (length s' + length f)) (Z.of_nat TAIL_SZ) = Z.of_nat (length s')) as ->
    by (unfold u64_saturating_sub; lia).
  cbn [fst snd]. rewrite <- !Nat2Z.inj_min, <- !Nat2Z.inj_max, !range_len_nat.
  rewrite (decide_False (P := (0 < pos + 1 - _ `max` _)%nat)) by lia. rewrite ok_bind.
  destruct (decide (pos < length s')%nat) as [Hold|Hnew].
  - replace (Nat.min (pos + 1) (length s' + length f) - Nat.max pos (length s'))%nat with 0%nat by lia.
    replace (Nat.min (pos + 1) (length s') - pos)%nat with 1%nat by lia.
    rewrite (decide_False (P := (0 < 0)%nat)), ok_bind, (decide_True (P := (0 < 1)%nat)) by lia. unfold file_read_exact_at. rewrite Nat2Z.id.
    destruct (decide (pos < length (bfw_file (ef_writer ef)))%nat) as [Hin|Hout].
    + rewrite (slice_byte _ _ b).
      2:{ destruct (lookup_lt_is_Some_2 _ _ Hin) as [b' Hb']. rewrite Hb'. rewrite (prefix_lookup_Some _ _ _ _ Hb' Hfile) in Hs. done. }
      rewrite (decide_True (P := (_ \/ _))) by lia. cbn. rewrite decide_True by lia.
      replace (Z.to_nat (Z.of_nat (pos + 1) - Z.of_nat pos)) with 1%nat by lia. done.
    + assert (slice pos (pos + 1) (bfw_file (ef_writer ef)) = None) as -> by (unfold slice; rewrite decide_False; [done|lia]).
      by rewrite (decide_False (P := (_ \/ _))) by lia.
  - replace (Nat.min (pos + 1) (length s' + length f) - Nat.max pos (length s'))%nat with 1%nat by lia.
    replace (Nat.min (pos + 1) (length s') - pos)%nat with 0%nat by lia.
    rewrite (decide_True (P := (0 < 1)%nat)), (decide_True (P := (Z.of_nat (length s') <= _))) by lia. cbn [of_option]. rewrite !ok_bind.
    replace (Z.to_nat (Z.of_nat (Nat.max pos (length s')) - Z.of_nat (length s'))) with (pos - length s')%nat by lia.
    rewrite (slice_byte _ _ b) by (by rewrite lookup_app_r in Hs by lia). cbn [of_option]. rewrite ok_bind.
    cbn. rewrite decide_True by lia. rewrite (decide_True (P := (_ \/ _))) by lia.
    replace (Z.to_nat (Z.of_nat (pos + 1) - Z.of_nat pos)) with 1%nat by lia. done.
Qed.

(** C40: Which bytes a cancelled flush takes away from readers.  A write fails because
    the flush task was cancelled.  Each byte that had been written before could be read
    then; it can be read now exactly if the task has written it to the file or it is in
    the buffer submitted last.  The rest, which is what the task had not written of the
    buffer submitted before that, is lost to readers: they get an error. *)
Theorem cancelled_flush_loses_reads ef data ss src ef' pos b :
  ef_run ef data -> Z.of_nat (length data) <= u64_max -> write_raw ss src ef = (Err FlushCancelled, ef') ->
  data !! pos = Some b ->
  read_exact_at_eof_ok ef (Z.of_nat pos) 1 = Ok [b]
  /\ read_exact_at_eof_ok ef' (Z.of_nat pos) 1
     = if decide (Z.of_nat pos < Z.of_nat (length (bfw_file (ef_writer ef')))
                  \/ bfw_bytes_submitted (ef_writer ef') <= Z.of_nat pos + Z.of_nat TAIL_SZ)
       then Ok [b] else Err "failed to fill whole buffer"%string.
Proof.
  intros Hrun Hmax E Hb. pose proof (ef_run_ok ef data Hrun) as Hok. pose proof (lookup_lt_Some _ _ _ Hb) as Hpos. split.
  - rewrite (ephemeral_read_ok ef data) by (done || lia). rewrite Nat2Z.id, (drop_S _ b) by done. done.
  - apply (wp_elim _ _ _ _ _ (write_raw_ok ss src ef data Hok)) in E as (_ & Hw & Hcap & s & Hs & Hpre).
    rewrite (failed_read_byte ef' data s pos b) by done. rewrite (ff_submitted _ _ Hs). apply decide_ext. lia.
Qed.

(** The first buffer is full and not yet written when the token is cancelled. *)
Lemma cancelled_flush_loses_reads_witness :
  exists ef, ef_run ef (replicate TAIL_SZ (Z_byte 1))
  /\ (write_raw [([], [BgPoll])] (replicate TAIL_SZ (Z_byte 2)) ef).1 = Err FlushCancelled
  /\ read_exact_at_eof_ok ef 7 1 = Ok [Z_byte 1]
  /\ read_exact_at_eof_ok (write_raw [([], [BgPoll])] (replicate TAIL_SZ (Z_byte 2)) ef).2 7 1 = Err "failed to fill whole buffer"%string.
Proof.
  pose proof (run_written ef_create [] [] (replicate TAIL_SZ (Z_byte 1)) 0 run_create ltac:(by vm_compute)) as Hrun.
  rewrite app_nil_l in Hrun. set (ef := ef_background [BgCancel] (write_raw [] (replicate TAIL_SZ (Z_byte 1)) ef_create).2).
  exists ef. apply (run_background _ _ [BgCancel]) in Hrun. fold ef in Hrun. split; [exact Hrun|].
  assert ((write_raw [([], [BgPoll])] (replicate TAIL_SZ (Z_byte 2)) ef).1 = Err FlushCancelled) as E by (vm_compute; reflexivity).
  split; [exact E|].
  pose proof (cancelled_flush_loses_reads ef (replicate TAIL_SZ (Z_byte 1)) [([], [BgPoll])] (replicate TAIL_SZ (Z_byte 2))
    (write_raw [([], [BgPoll])] (replicate TAIL_SZ (Z_byte 2)) ef).2 7 (Z_byte 1) Hrun) as H.
  destruct H as [H1 H2]; [vm_compute; discriminate|rewrite <- E; apply surjective_pairing|vm_compute; reflexivity|].
  split; [exact H1|]. change (Z.of_nat 7) with 7 in H2. rewrite H2. rewrite decide_False; [reflexivity|].
  vm_compute. intros [?|?]; congruence.
Defined.
