(* ===== verification/DioRead.v ===== *)
(** * Vectored direct reads ([pageserver/src/tenant/storage_layer/inmemory_layer/vectored_dio_read.rs])

    Many small reads of a file are turned into few reads of whole, aligned chunks: the
    parts of chunks each read is interested in are collected per chunk, adjacent chunks
    are merged into physical reads, and what these return is cut up again and appended
    to the buffers of the logical reads.

    The logical reads are a list and an interest holds the index of its read, where
    the code holds a reference to a shared cell.  [None] is a panic.  The checks that
    debug builds make of the [Buffer] implementation are not modelled: [Vec] passes
    them. *)

From S2P Require Import Prelude XlogUtils.

(** ** Logical reads *)

(** [Buffer] as implemented for [Vec<u8>]. *)
Record Vec := mkVec { vec_cap : nat; vec_data : list byte }.

Definition vec_with_capacity (cap : nat) : Vec := mkVec cap [].

Definition vec_extend_from_slice (self : Vec) (src : list byte) : option Vec :=
  if decide (vec_cap self < length (vec_data self) + length src)%nat then None
  else Some (mkVec (vec_cap self) (vec_data self ++ src)).

(** [UnexpectedEof] made here, or an error of the file. *)
Inductive dio_error : Type := DioEof | DioFile (e : string).

Inductive LogicalReadState : Type :=
| NotStarted (buf : Vec)
| Ongoing (buf : Vec)
| LrOk (buf : Vec)
| LrError (e : dio_error)
| Undefined.

Record LogicalRead := mkLogicalRead { lr_pos : Z; lr_state : LogicalReadState }.

Definition logical_read_new (pos : Z) (buf : Vec) : LogicalRead := mkLogicalRead pos (NotStarted buf).

(** The outer [None] is the [unreachable!]. *)
Definition into_result (self : LogicalRead) : option (option (sum dio_error (list byte))) :=
  match lr_state self with
  | LrOk buf => Some (Some (inr (vec_data buf)))
  | LrError e => Some (Some (inl e))
  | NotStarted _ | Ongoing _ => Some None
  | Undefined => None
  end.

Definition is_terminal (st : LogicalReadState) : option bool :=
  match st with
  | NotStarted _ | Ongoing _ => Some false
  | LrOk _ | LrError _ => Some true
  | Undefined => None
  end.

Definition transition_to_terminal (err : option dio_error) (st : LogicalReadState) : option LogicalReadState :=
  match st with
  | Ongoing buf => Some (match err with None => LrOk buf | Some e => LrError e end)
  | _ => None
  end.

(** ** Planning *)

(** The alignment of I/O buffers in the default build. *)
Definition DIO_CHUNK_SIZE : Z := 512.

(** In chunks. *)
Definition MAX_CHUNK_BATCH_SIZE : nat := Z.to_nat (128 * 1024 / DIO_CHUNK_SIZE).

Record Interest := mkInterest { in_logical_read : nat; in_offset_in_chunk : Z; in_len : Z }.

(** A [BTreeMap] in the order of its keys. *)
Abbreviation by_chunk_map := (list (Z * list Interest)).

(** [by_chunk.entry(chunk_no).or_default().push(x)]. *)
Fixpoint entry_push (chunk_no : Z) (x : Interest) (by_chunk : by_chunk_map) : by_chunk_map :=
  match by_chunk with
  | [] => [(chunk_no, [x])]
  | (c, l) :: rest =>
      if decide (chunk_no < c) then (chunk_no, [x]) :: by_chunk
      else if decide (chunk_no = c) then (c, l ++ [x]) :: rest
      else (c, l) :: entry_push chunk_no x rest
  end.

(** The loop over the chunks of a read; each takes at least a byte. *)
Fixpoint plan_chunks (fuel : nat) (read : nat) (remaining chunk_no offset_in_chunk : Z) (by_chunk : by_chunk_map) :
    by_chunk_map :=
  match fuel with
  | O => by_chunk
  | S fuel =>
      if decide (0 < remaining) then
        let remaining_in_chunk := Z.min remaining (DIO_CHUNK_SIZE - offset_in_chunk) in
        let by_chunk := entry_push chunk_no (mkInterest read offset_in_chunk remaining_in_chunk) by_chunk in
        plan_chunks fuel read (remaining - remaining_in_chunk) (chunk_no + 1) 0 by_chunk
      else by_chunk
  end.

(** The transition to [Ongoing]. *)
Definition start_read (r : LogicalRead) : option (nat * LogicalRead) :=
  match lr_state r with
  | NotStarted buf =>
      match vec_data buf with
      | [] => Some (vec_cap buf, mkLogicalRead (lr_pos r) (Ongoing buf))
      | _ => None
      end
  | _ => None
  end.

Fixpoint plan_logical_reads (read : nat) (reads : list LogicalRead) (by_chunk : by_chunk_map) :
    option (list LogicalRead * by_chunk_map) :=
  match reads with
  | [] => Some ([], by_chunk)
  | r :: reads =>
      '(req_len, r) ← start_read r;
      let by_chunk :=
        plan_chunks req_len read (Z.of_nat req_len) (lr_pos r / DIO_CHUNK_SIZE) (lr_pos r `mod` DIO_CHUNK_SIZE) by_chunk in
      '(reads, by_chunk) ← plan_logical_reads (S read) reads by_chunk;
      Some (r :: reads, by_chunk)
  end.

(** ** Merging *)

(** [peeking_take_while] of itertools under a [take(n)]: items are taken while the
    closure, which has a state, accepts them and [n] is not reached; the others stay
    in the iterator. *)
Class Peeking := {
  peeking_take_while {A St} : (St -> A -> option St) -> St -> nat -> list A -> list A * list A
}.

Class PeekingLaws `{!Peeking} := {
  peeking_done {A St} (f : St -> A -> option St) st l : peeking_take_while f st 0 l = ([], l);
  peeking_empty {A St} (f : St -> A -> option St) st n : peeking_take_while f st n [] = ([], []);
  peeking_step {A St} (f : St -> A -> option St) st n x l :
    peeking_take_while f st (S n) (x :: l)
    = match f st x with
      | Some st' => let '(a, b) := peeking_take_while f st' n l in (x :: a, b)
      | None => ([], x :: l)
      end
}.

Record PhysicalInterest := mkPhysicalInterest { pi_logical_read : nat; pi_offset_in_physical_read : Z; pi_len : Z }.

Record PhysicalRead := mkPhysicalRead { pr_start_chunk_no : Z; pr_nchunks : nat; pr_dsts : list PhysicalInterest }.

(** The closure: [last_chunk_no] is its state. *)
Definition adjacent (last_chunk_no : option Z) (e : Z * list Interest) : option (option Z) :=
  match last_chunk_no with
  | Some last => if decide (e.1 <> last + 1) then None else Some (Some e.1)
  | None => Some (Some e.1)
  end.

Definition physical_interests (i : nat) (e : Z * list Interest) : list PhysicalInterest :=
  map (fun x => mkPhysicalInterest (in_logical_read x) (Z.of_nat i * DIO_CHUNK_SIZE + in_offset_in_chunk x) (in_len x)) e.2.

(** [File::read_exact_at_eof_ok]: the bytes that were read. *)
Abbreviation DioFileRead := (Z -> nat -> outcome string (list byte)).

Section execute.
Context `{!Peeking}.

(** One physical read per round; a round takes at least one chunk. *)
Fixpoint merge_chunks (fuel : nat) (by_chunk : by_chunk_map) : list PhysicalRead :=
  match fuel with
  | O => []
  | S fuel =>
      let '(to_merge, by_chunk) := peeking_take_while adjacent None MAX_CHUNK_BATCH_SIZE by_chunk in
      match to_merge with
      | [] => []
      | (start_chunk_no, _) :: _ =>
          mkPhysicalRead start_chunk_no (length to_merge) (concat (imap physical_interests to_merge))
          :: merge_chunks fuel by_chunk
      end
  end.

(** ** Reading *)

Definition checked_mul (a b : Z) : option Z := if decide (a * b <= u64_max) then Some (a * b) else None.

Definition set_read_state (i : nat) (st : LogicalReadState) (reads : list LogicalRead) : option (list LogicalRead) :=
  r ← reads !! i; Some (<[i := mkLogicalRead (lr_pos r) st]> reads).

Fixpoint all_done (dsts : list PhysicalInterest) (reads : list LogicalRead) : option bool :=
  match dsts with
  | [] => Some true
  | d :: dsts =>
      r ← reads !! pi_logical_read d;
      terminal ← is_terminal (lr_state r);
      if (terminal : bool) then all_done dsts reads else Some false
  end.

Fixpoint fail_dsts (e : string) (dsts : list PhysicalInterest) (reads : list LogicalRead) : option (list LogicalRead) :=
  match dsts with
  | [] => Some reads
  | d :: dsts => reads ← set_read_state (pi_logical_read d) (LrError (DioFile e)) reads; fail_dsts e dsts reads
  end.

(** What a physical read gives to one interest. *)
Definition fill_dst (io_buf : list byte) (d : PhysicalInterest) (reads : list LogicalRead) : option (list LogicalRead) :=
  r ← reads !! pi_logical_read d;
  match lr_state r with
  | NotStarted _ | Undefined => None
  | LrOk _ | LrError _ => Some reads
  | Ongoing buf =>
      let start := pi_offset_in_physical_read d in
      let end_ := start + pi_len d in
      if decide (Z.of_nat (length io_buf) < end_) then
        st ← transition_to_terminal (Some DioEof) (lr_state r);
        set_read_state (pi_logical_read d) st reads
      else
        data ← slice (Z.to_nat start) (Z.to_nat end_) io_buf;
        buf ← vec_extend_from_slice buf data;
        st ← (if decide (length (vec_data buf) = vec_cap buf) then transition_to_terminal None (Ongoing buf)
              else Some (Ongoing buf));
        set_read_state (pi_logical_read d) st reads
  end.

Fixpoint fill_dsts (io_buf : list byte) (dsts : list PhysicalInterest) (reads : list LogicalRead) : option (list LogicalRead) :=
  match dsts with
  | [] => Some reads
  | d :: dsts => reads ← fill_dst io_buf d reads; fill_dsts io_buf dsts reads
  end.

Definition execute_physical (file : DioFileRead) (p : PhysicalRead) (reads : list LogicalRead) : option (list LogicalRead) :=
  done ← all_done (pr_dsts p) reads;
  if (done : bool) then Some reads else
  read_offset ← checked_mul (pr_start_chunk_no p) DIO_CHUNK_SIZE;
  let req_len := (pr_nchunks p * Z.to_nat DIO_CHUNK_SIZE)%nat in
  match file read_offset req_len with
  | Ok io_buf =>
      if decide (length io_buf <= req_len)%nat then fill_dsts io_buf (pr_dsts p) reads else None
  | Err e => fail_dsts e (pr_dsts p) reads
  | Panic => None
  end.

Fixpoint execute_physicals (file : DioFileRead) (ps : list PhysicalRead) (reads : list LogicalRead) : option (list LogicalRead) :=
  match ps with
  | [] => Some reads
  | p :: ps => reads ← execute_physical file p reads; execute_physicals file ps reads
  end.

(** The assertion of debug builds at the end: every read has ended. *)
Fixpoint assert_logical_reads (reads : list LogicalRead) : option unit :=
  match reads with
  | [] => Some tt
  | r :: reads =>
      terminal ← is_terminal (lr_state r);
      if (terminal : bool) then assert_logical_reads reads else None
  end.

Definition dio_execute (debug_assertions : bool) (file : DioFileRead) (reads : list LogicalRead) : option (list LogicalRead) :=
  '(reads, by_chunk) ← plan_logical_reads 0 reads [];
  reads ← execute_physicals file (merge_chunks (length by_chunk) by_chunk) reads;
  _ ← (if debug_assertions then assert_logical_reads reads else Some tt);
  Some reads.
End execute.
