(* ===== verification/DioReadFacts.v ===== *)
(** * Vectored direct reads return the bytes of the file

    The plan cuts every logical read into consecutive parts, merging chunks keeps the
    parts and their order, and executing the physical reads appends them one by one. *)

From S2P Require Import Prelude XlogUtils DioRead.

(** ** Parts of reads *)

(** A part of a read: the read, the position in the file, the length. *)
Record part := mkPart { pt_read : nat; pt_at : Z; pt_len : Z }.

Definition chunk_parts (e : Z * list Interest) : list part :=
  map (fun x => mkPart (in_logical_read x) (e.1 * DIO_CHUNK_SIZE + in_offset_in_chunk x) (in_len x)) e.2.

Definition parts (m : by_chunk_map) : list part := concat (map chunk_parts m).

Definition dst_part (start : Z) (d : PhysicalInterest) : part :=
  mkPart (pi_logical_read d) (start * DIO_CHUNK_SIZE + pi_offset_in_physical_read d) (pi_len d).

Definition physical_parts (p : PhysicalRead) : list part := map (dst_part (pr_start_chunk_no p)) (pr_dsts p).

Definition parts_of (i : nat) (l : list part) : list part := filter (fun t => pt_read t = i) l.

(** Consecutive parts that cover [r] bytes from [p]. *)
Fixpoint chain (p r : Z) (l : list part) : Prop :=
  match l with
  | [] => r = 0
  | t :: l => pt_at t = p /\ 0 < pt_len t <= r /\ chain (p + pt_len t) (r - pt_len t) l
  end.

Lemma chain_snoc l : forall p r a, chain p r l -> 0 < pt_len a -> pt_at a = p + r -> chain p (r + pt_len a) (l ++ [a]).
Proof.
  induction l as [|t l IH]; intros p r a H Ha Hp; cbn in *; [lia|].
  destruct H as (H1 & H2 & H3). split_and!; [done|lia|lia|].
  replace (r + pt_len a - pt_len t) with (r - pt_len t + pt_len a) by lia. apply IH; [done|done|lia].
Qed.

Lemma parts_of_app i l1 l2 : parts_of i (l1 ++ l2) = parts_of i l1 ++ parts_of i l2.
Proof. apply filter_app. Qed.

(** ** The map of chunks *)

(** Chunks in order, each with parts that lie within it. *)
Definition in_chunk (x : Interest) : Prop :=
  0 <= in_offset_in_chunk x /\ 0 < in_len x /\ in_offset_in_chunk x + in_len x <= DIO_CHUNK_SIZE.

Record chunks_ok (m : by_chunk_map) : Prop := {
  co_sorted : StronglySorted (fun a b => a.1 < b.1) m;
  co_parts : Forall (fun e => 0 <= e.1 /\ e.2 <> [] /\ Forall in_chunk e.2) m
}.

(** The parts of a read lie in chunks before [c]. *)
Definition before (i : nat) (c : Z) (m : by_chunk_map) : Prop :=
  forall e x, e ∈ m -> x ∈ e.2 -> in_logical_read x = i -> e.1 < c.

Lemma parts_of_chunk_none i e : (forall x, x ∈ e.2 -> in_logical_read x <> i) -> parts_of i (chunk_parts e) = [].
Proof.
  intros H. unfold parts_of, chunk_parts. destruct e as [c l]. cbn [fst snd] in *. induction l as [|x l IH]; [done|]. cbn [map].
  rewrite filter_cons_False by (cbn; apply H; left). apply IH. intros y Hy. apply H. by right.
Qed.

Lemma parts_of_none i m : (forall e x, e ∈ m -> x ∈ e.2 -> in_logical_read x <> i) -> parts_of i (parts m) = [].
Proof.
  intros H. induction m as [|e m IH]; [done|]. unfold parts in *. cbn [map concat]. rewrite parts_of_app, IH, app_nil_r.
  - apply parts_of_chunk_none. intros x Hx. apply (H e x); [left|done].
  - intros e' x He Hx. apply (H e' x); [by right|done].
Qed.

Lemma after_none i c m :
  before i c m -> Forall (fun e => c <= e.1) m -> parts_of i (parts m) = [].
Proof.
  intros Hb Hf. apply parts_of_none. intros e x He Hx Hi. rewrite Forall_forall in Hf.
  specialize (Hb e x He Hx Hi). specialize (Hf e He). lia.
Qed.

Definition new_part (c : Z) (x : Interest) : part :=
  mkPart (in_logical_read x) (c * DIO_CHUNK_SIZE + in_offset_in_chunk x) (in_len x).

Lemma entry_push_keys c x m e : e ∈ entry_push c x m -> e.1 = c \/ exists l, (e.1, l) ∈ m.
Proof.
  induction m as [|[c' l] m IH]; cbn; [intros ->%list_elem_of_singleton; by left|].
  repeat case_decide; intros [->|He]%elem_of_cons; cbn; eauto using list_elem_of_here, list_elem_of_further.
  - right. exists e.2. by rewrite <- surjective_pairing.
  - right. exists e.2. rewrite <- surjective_pairing. by right.
  - destruct (IH He) as [->|[l' Hl]]; [by left|]. right. exists l'. by right.
Qed.

Lemma entry_push_ok c x m : 0 <= c -> in_chunk x -> chunks_ok m -> chunks_ok (entry_push c x m).
Proof.
  intros Hc Hx [Hs Hp]. split.
  - induction m as [|[c' l] m IH]; cbn; [repeat constructor|]. apply StronglySorted_inv in Hs as [Hs Hf].
    apply Forall_cons in Hp as [_ Hp]. repeat case_decide.
    + constructor; [by constructor|]. constructor; [done|]. eapply Forall_impl; [exact Hf|]. cbn. intros e He. lia.
    + by constructor.
    + constructor; [by apply IH|]. apply Forall_forall. intros e He. rewrite Forall_forall in Hf.
      apply entry_push_keys in He as [->|[l' Hl]]; [cbn; lia|]. by apply (Hf (e.1, l')).
  - clear Hs. induction m as [|[c' l] m IH]; cbn; [apply Forall_singleton; cbn; by rewrite Forall_singleton|].
    apply Forall_cons in Hp as [(H1 & H2 & H3) Hp]. repeat case_decide.
    + constructor; [cbn; by rewrite Forall_singleton|]. by constructor.
    + constructor; [|done]. cbn. split_and!; [done|by destruct l|]. by rewrite Forall_app, Forall_singleton.
    + constructor; [by split_and!|by apply IH].
Qed.

Lemma before_weaken i c c' m : c <= c' -> before i c m -> before i c' m.
Proof. intros Hc Hb e x He Hx Hi. specialize (Hb e x He Hx Hi). lia. Qed.

Lemma before_cons i c e m : before i c (e :: m) -> before i c m.
Proof. intros Hb e' x He. apply Hb. by right. Qed.

Lemma before_push i c x m c' :
  before i c' m -> (in_logical_read x = i -> c < c') -> before i c' (entry_push c x m).
Proof.
  intros Hb Hx. induction m as [|[d l] m IH]; cbn.
  - intros e y ->%list_elem_of_singleton Hy%list_elem_of_singleton Hi. subst y. cbn. auto.
  - repeat case_decide; intros e y [->|He]%elem_of_cons Hy Hi.
    + apply list_elem_of_singleton in Hy. subst y. cbn. auto.
    + by apply (Hb e y).
    + cbn in *. subst d. apply elem_of_app in Hy as [Hy|Hy%list_elem_of_singleton].
      * by apply (Hb (c, l) y); [left|..].
      * subst y. auto.
    + apply (Hb e y); [by right|done|done].
    + apply (Hb (d, l) y); [left|done|done].
    + apply (IH (before_cons _ _ _ _ Hb) e y); done.
Qed.

(** Pushing a part adds it to the parts of its read, and to no other. *)
Lemma entry_push_parts c x m i :
  StronglySorted (fun a b : Z * list Interest => a.1 < b.1) m -> before (in_logical_read x) c m ->
  parts_of i (parts (entry_push c x m))
  = parts_of i (parts m) ++ (if decide (in_logical_read x = i) then [new_part c x] else []).
Proof.
  intros Hs Hb.
  assert (forall m, parts_of i (new_part c x :: m) = (if decide (in_logical_read x = i) then [new_part c x] else []) ++ parts_of i m) as Hcons.
  { intros l. unfold parts_of. rewrite filter_cons. cbn. by case_decide. }
  induction m as [|[d l] m IH]; cbn [entry_push].
  { change (parts [(c, [x])]) with [new_part c x]. by rewrite Hcons, app_nil_r. }
  apply StronglySorted_inv in Hs as [Hs Hf].
  assert (c <= d -> in_logical_read x = i -> parts_of i (parts m) = []) as Hm.
  { intros Hcd Hi. apply (after_none i c); [rewrite <- Hi; by eapply before_cons|].
    eapply Forall_impl; [exact Hf|]. cbn. intros e He. lia. }
  destruct (decide (c < d)); [|destruct (decide (c = d)) as [->|]].
  - change (parts ((c, [x]) :: (d, l) :: m)) with (new_part c x :: parts ((d, l) :: m)). rewrite Hcons.
    case_decide as E; [|by rewrite app_nil_r].
    rewrite (after_none i c ((d, l) :: m)); [done|by rewrite <- E|].
    constructor; [cbn; lia|]. eapply Forall_impl; [exact Hf|]. cbn. intros e He. lia.
  - unfold parts in *. cbn [map concat]. unfold chunk_parts at 1. cbn [fst snd]. rewrite map_app, <- app_assoc, !parts_of_app.
    cbn [map app]. rewrite Hcons, <- !app_assoc. f_equal. case_decide as E; [|by rewrite app_nil_r].
    by rewrite Hm by (done || lia).
  - unfold parts in *. cbn [map concat]. rewrite !parts_of_app, IH, app_assoc; [done|done|by eapply before_cons].
Qed.

(** ** The plan of a read *)

Lemma plan_chunks_ok i fuel : forall remaining c off m p,
  (Z.to_nat remaining <= fuel)%nat -> 0 <= c -> 0 <= off < DIO_CHUNK_SIZE -> 0 <= remaining -> p = c * DIO_CHUNK_SIZE + off ->
  chunks_ok m -> before i c m ->
  let m' := plan_chunks fuel i remaining c off m in
  chunks_ok m' /\ (forall j, j <> i -> parts_of j (parts m') = parts_of j (parts m))
  /\ (exists new, parts_of i (parts m') = parts_of i (parts m) ++ new /\ chain p remaining new)
  /\ forall j c', j <> i -> before j c' m -> before j c' m'.
Proof.
  induction fuel as [|fuel IH]; intros remaining c off m p Hf Hc Ho Hr -> Hok Hb; cbn [plan_chunks].
  - cbv zeta. split_and!; try done. exists []. rewrite app_nil_r. cbn. split; [done|lia].
  - case_decide as Hpos.
    2: { cbv zeta. split_and!; try done. exists []. rewrite app_nil_r. cbn. split; [done|lia]. }
    set (n := Z.min remaining (DIO_CHUNK_SIZE - off)). set (x := mkInterest i off n).
    assert (0 < n) as Hn by (unfold n, DIO_CHUNK_SIZE in *; lia).
    assert (in_chunk x) as Hx by (unfold in_chunk, x, n; cbn; unfold DIO_CHUNK_SIZE in *; lia).
    assert (chunks_ok (entry_push c x m)) as Hok' by by apply entry_push_ok.
    assert (before i (c + 1) (entry_push c x m)) as Hb'.
    { apply before_push; [|cbn; lia]. apply (before_weaken _ c); [lia|done]. }
    pose proof (fun j => entry_push_parts c x m j (co_sorted _ Hok) Hb) as Hparts.
    destruct (IH (remaining - n) (c + 1) 0 (entry_push c x m) ((c + 1) * DIO_CHUNK_SIZE + 0)) as (K1 & K2 & (new & K3 & K4) & K5);
      try done; try lia.
    cbv zeta. split_and!; [done|..].
    + intros j Hj. rewrite K2, Hparts by done. cbn. rewrite decide_False by done. by rewrite app_nil_r.
    + exists (new_part c x :: new). rewrite K3, Hparts. cbn. rewrite decide_True by done. rewrite <- app_assoc.
      split; [done|]. split_and!; [done|lia|unfold n; lia|].
      destruct (decide (remaining <= DIO_CHUNK_SIZE - off)) as [Hle|Hle].
      * replace (remaining - n) with 0 in * by (unfold n; lia). destruct new as [|t new]; [done|]. cbn in K4. lia.
      * replace n with (DIO_CHUNK_SIZE - off) in * by (unfold n; lia).
        replace (c * DIO_CHUNK_SIZE + off + (DIO_CHUNK_SIZE - off)) with ((c + 1) * DIO_CHUNK_SIZE + 0) by lia. done.
    + intros j c' Hj Hbj. apply K5; [done|]. apply before_push; [done|]. cbn. congruence.
Qed.

(** *** All reads *)

(** A read that has not been started. *)
Definition fresh (r : LogicalRead) : Prop :=
  0 <= lr_pos r /\ exists cap, lr_state r = NotStarted (vec_with_capacity cap)
    /\ lr_pos r + Z.of_nat cap <= u64_max.

Definition read_cap (r : LogicalRead) : nat :=
  match lr_state r with NotStarted v => vec_cap v | _ => 0 end.

Definition started (r : LogicalRead) : LogicalRead := mkLogicalRead (lr_pos r) (Ongoing (vec_with_capacity (read_cap r))).

Lemma plan_logical_reads_ok reads : forall i m,
  Forall fresh reads -> chunks_ok m -> (forall j c, (i <= j)%nat -> before j c m) ->
  exists m', plan_logical_reads i reads m = Some (map started reads, m') /\ chunks_ok m'
  /\ (forall j, (j < i)%nat -> parts_of j (parts m') = parts_of j (parts m))
  /\ (forall k r, reads !! k = Some r -> chain (lr_pos r) (Z.of_nat (read_cap r)) (parts_of (i + k) (parts m')))
  /\ (forall j c, (i + length reads <= j)%nat -> before j c m').
Proof.
  induction reads as [|r reads IH]; intros i m Hf Hok Hnew; cbn [plan_logical_reads].
  - exists m. split_and!; try done. intros j c Hj. apply Hnew. cbn in Hj. lia.
  - apply Forall_cons in Hf as [(Hp & cap & Hst & Hmax) Hf]. unfold start_read. rewrite Hst. cbn [vec_data vec_with_capacity].
    cbn [mbind option_bind lr_pos]. change (vec_cap (vec_with_capacity cap)) with cap.
    destruct (plan_chunks_ok i cap (Z.of_nat cap) (lr_pos r / DIO_CHUNK_SIZE) (lr_pos r `mod` DIO_CHUNK_SIZE) m (lr_pos r))
      as (K1 & K2 & (new & K3 & K4) & K5); try done; try lia.
    { by apply Z.div_pos. }
    { by apply Z.mod_pos_bound. }
    { rewrite (Z.div_mod (lr_pos r) DIO_CHUNK_SIZE) at 1 by done. lia. }
    { by apply Hnew. }
    cbv zeta in *. set (m1 := plan_chunks cap i _ _ _ m) in *.
    destruct (IH (S i) m1) as (m' & E & L1 & L2 & L3 & L4); [done|done| |].
    { intros j c Hj. apply K5; [lia|]. apply Hnew. lia. }
    exists m'. rewrite E. cbn [mbind option_bind map]. split_and!.
    + unfold started, read_cap. rewrite Hst. done.
    + done.
    + intros j Hj. rewrite L2, K2 by lia. done.
    + intros [|k] r' Hr; cbn in Hr.
      * injection Hr as <-. rewrite Nat.add_0_r, L2, K3 by lia. rewrite (parts_of_none i m), app_nil_l.
        -- unfold read_cap. by rewrite Hst.
        -- intros e x He Hx Hi. specialize (Hnew i e.1 ltac:(lia) e x He Hx Hi). lia.
      * replace (i + S k)%nat with (S i + k)%nat by lia. by apply L3.
    + intros j c Hj. apply L4. cbn in Hj. lia.
Qed.

(** ** Merging *)

Section facts.
Context `{PK : !Peeking, PKL : !PeekingLaws}.

Definition numbered (c : Z) (a : by_chunk_map) : Prop := forall k e, a !! k = Some e -> e.1 = c + Z.of_nat k.

Lemma numbered_cons c e a : e.1 = c -> numbered (c + 1) a -> numbered c (e :: a).
Proof. intros He Ha [|k] e' Hk; cbn in Hk; [injection Hk as <-; lia|]. specialize (Ha k e' Hk). lia. Qed.

Lemma take_adjacent n : forall last m a b,
  peeking_take_while adjacent last n m = (a, b) ->
  m = a ++ b /\ match last with
                | Some l => numbered (l + 1) a
                | None => (forall e, head a = Some e -> numbered e.1 a) /\ (a = [] -> n = O \/ m = [])
                end.
Proof.
  induction n as [|n IH]; intros last m a b E.
  { rewrite peeking_done in E. injection E as <- <-. destruct last; split; try done. split; [done|]. by left. }
  destruct m as [|e m].
  { rewrite peeking_empty in E. injection E as <- <-. destruct last; split; try done. split; [done|]. by right. }
  rewrite peeking_step in E. unfold adjacent at 1 in E. destruct last as [l|].
  - case_decide as Hd; [injection E as <- <-; by split|].
    destruct (peeking_take_while adjacent (Some e.1) n m) as [a' b'] eqn:E'. injection E as <- <-.
    apply IH in E' as [-> Hn]. split; [done|]. apply numbered_cons; [lia|]. by replace (l + 1 + 1) with (e.1 + 1) by lia.
  - destruct (peeking_take_while adjacent (Some e.1) n m) as [a' b'] eqn:E'. injection E as <- <-.
    apply IH in E' as [-> Hn]. split; [done|]. split; [|done]. intros e' [= <-]. by apply numbered_cons.
Qed.

Lemma merged_parts start a : forall k,
  (forall j e, a !! j = Some e -> e.1 = start + Z.of_nat (k + j)) ->
  map (dst_part start) (concat (imap (fun i => physical_interests (k + i)) a)) = parts a.
Proof.
  induction a as [|e a IH]; intros k Hk; [done|]. rewrite imap_cons. cbn [concat]. rewrite map_app. unfold parts. cbn [map concat]. f_equal.
  - unfold physical_interests, chunk_parts. rewrite map_map. apply map_ext. intros x. unfold dst_part. cbn.
    specialize (Hk O e ltac:(done)). f_equal. rewrite Hk. lia.
  - fold (parts a). rewrite <- (IH (S k)).
    + do 2 f_equal. apply imap_ext. intros i x _. cbn. by rewrite Nat.add_succ_r.
    + intros j e' Hj. rewrite (Hk (S j) e' Hj). lia.
Qed.

(** A physical read: its parts lie within it, and one of them in its first chunk. *)
Record physical_ok (p : PhysicalRead) : Prop := {
  po_start : 0 <= pr_start_chunk_no p;
  po_dsts : Forall (fun d => 0 <= pi_offset_in_physical_read d /\ 0 < pi_len d
    /\ pi_offset_in_physical_read d + pi_len d <= Z.of_nat (pr_nchunks p) * DIO_CHUNK_SIZE) (pr_dsts p);
  po_first : exists t, t ∈ physical_parts p /\ pr_start_chunk_no p * DIO_CHUNK_SIZE <= pt_at t
}.

Lemma interests_within a : forall k n,
  Forall (fun e => 0 <= e.1 /\ e.2 <> [] /\ Forall in_chunk e.2) a -> (k + length a <= n)%nat ->
  Forall (fun d => 0 <= pi_offset_in_physical_read d /\ 0 < pi_len d
    /\ pi_offset_in_physical_read d + pi_len d <= Z.of_nat n * DIO_CHUNK_SIZE)
    (concat (imap (fun i => physical_interests (k + i)) a)).
Proof.
  induction a as [|e a IH]; intros k n Ha Hn; [constructor|]. rewrite imap_cons. cbn [concat length] in *.
  apply Forall_cons in Ha as [(_ & _ & Ha1) Ha]. apply Forall_app. split.
  - unfold physical_interests. apply Forall_map. eapply Forall_impl; [exact Ha1|]. intros x (H1 & H2 & H3).
    cbn [pi_offset_in_physical_read pi_len compose]. unfold DIO_CHUNK_SIZE in *. lia.
  - erewrite imap_ext; [apply (IH (S k) n Ha); lia|]. intros i x _. cbn. by rewrite Nat.add_succ_r.
Qed.

Lemma chunks_ok_app a b : chunks_ok (a ++ b) -> chunks_ok a /\ chunks_ok b.
Proof.
  intros [Hs Hp]. apply Forall_app in Hp as [Hp1 Hp2]. split; split; try done.
  - induction a as [|e a IH]; [constructor|]. cbn in Hs. apply StronglySorted_inv in Hs as [Hs Hf]. apply Forall_cons in Hp1 as [_ Hp1].
    apply Forall_app in Hf as [Hf _]. constructor; [by apply IH|done].
  - clear Hp1 Hp2. induction a as [|e a IH]; [done|]. cbn in Hs. apply StronglySorted_inv in Hs as [Hs _]. by apply IH.
Qed.

Lemma merge_chunks_ok fuel : forall m,
  (length m <= fuel)%nat -> chunks_ok m ->
  Forall physical_ok (merge_chunks fuel m) /\ concat (map physical_parts (merge_chunks fuel m)) = parts m.
Proof.
  induction fuel as [|fuel IH]; intros m Hf Hok; cbn [merge_chunks].
  { destruct m; [|cbn in Hf; lia]. done. }
  destruct (peeking_take_while adjacent None MAX_CHUNK_BATCH_SIZE m) as [a b] eqn:E.
  apply take_adjacent in E as [-> [Hn Hempty]]. destruct a as [|[c l] a].
  { destruct (Hempty eq_refl) as [H|H]; [done|]. cbn in H. by subst b. }
  apply chunks_ok_app in Hok as [Ha Hb]. rewrite length_app in Hf. cbn [length] in Hf.
  destruct (IH b ltac:(lia) Hb) as [I1 I2]. specialize (Hn (c, l) ltac:(done)). cbn [fst] in Hn.
  assert (map (dst_part c) (concat (imap physical_interests ((c, l) :: a))) = parts ((c, l) :: a)) as Hparts.
  { apply (merged_parts c ((c, l) :: a) 0). intros j e Hj. by apply Hn. }
  split.
  - constructor; [|done]. pose proof (co_parts _ Ha) as Hp. pose proof Hp as Hp'. apply Forall_cons in Hp' as [(H1 & H2 & H3) _]. cbn in H1, H2, H3.
    split; cbn [pr_start_chunk_no pr_nchunks pr_dsts]; [done|by apply (interests_within ((c, l) :: a) 0)|].
    unfold physical_parts. cbn [pr_start_chunk_no pr_dsts]. rewrite Hparts. destruct l as [|x l]; [done|].
    exists (new_part c x). split; [left|]. apply Forall_cons in H3 as [(H3 & _) _]. cbn. lia.
  - cbn [map concat]. rewrite I2. unfold physical_parts at 1. cbn [pr_start_chunk_no pr_dsts]. rewrite Hparts.
    unfold parts. by rewrite map_app, concat_app.
Qed.

(** ** Executing *)

Context (file : DioFileRead) (data : list byte) (reads0 : list LogicalRead).
Implicit Types (reads : list LogicalRead) (todo : list part).

(** The file is read within its length, or at any position when some read goes beyond
    its end. *)
Definition dio_in_range (r : LogicalRead) : Prop := lr_pos r + Z.of_nat (read_cap r) <= Z.of_nat (length data).

Definition asked (start : Z) : Prop := 0 <= start /\ (start < Z.of_nat (length data) \/ ~ Forall dio_in_range reads0).

(** The state of a read of which the parts [todo] are still to come. *)
Definition good (r0 r : LogicalRead) todo : Prop :=
  lr_pos r = lr_pos r0 /\
  match lr_state r with
  | Ongoing v =>
      vec_cap v = read_cap r0 /\ vec_data v = take (length (vec_data v)) (drop (Z.to_nat (lr_pos r0)) data)
      /\ chain (lr_pos r0 + Z.of_nat (length (vec_data v))) (Z.of_nat (read_cap r0) - Z.of_nat (length (vec_data v))) todo
      /\ (length (vec_data v) < read_cap r0 \/ read_cap r0 = 0)%nat
  | LrOk v =>
      todo = [] /\ (0 < read_cap r0)%nat /\ lr_pos r0 + Z.of_nat (read_cap r0) <= Z.of_nat (length data)
      /\ vec_data v = take (read_cap r0) (drop (Z.to_nat (lr_pos r0)) data)
  | LrError DioEof => (0 < read_cap r0)%nat /\ Z.of_nat (length data) < lr_pos r0 + Z.of_nat (read_cap r0)
  | LrError (DioFile e) => (0 < read_cap r0)%nat /\ exists start n, asked start /\ file start n = Err e
  | _ => False
  end.

Record all_good reads todo : Prop := {
  ag_length : length reads = length reads0;
  ag_good i r0 r : reads0 !! i = Some r0 -> reads !! i = Some r -> good r0 r (parts_of i todo)
}.

(** A part lies within the read it is a part of. *)
Definition within (t : part) : Prop :=
  exists r0, reads0 !! pt_read t = Some r0 /\ 0 <= lr_pos r0 <= pt_at t /\ 0 < pt_len t
  /\ pt_at t + pt_len t <= lr_pos r0 + Z.of_nat (read_cap r0) <= u64_max.

Lemma all_good_at reads todo i r0 : all_good reads todo -> reads0 !! i = Some r0 ->
  exists r, reads !! i = Some r /\ good r0 r (parts_of i todo).
Proof.
  intros [Hl Hg] H0. destruct (lookup_lt_is_Some_2 reads i) as [r Hr]; [rewrite Hl; by eapply lookup_lt_Some|].
  exists r. split; [done|by apply Hg].
Qed.

Lemma all_good_update reads t todo r0 r' :
  all_good reads (t :: todo) -> reads0 !! pt_read t = Some r0 -> good r0 r' (parts_of (pt_read t) todo) ->
  all_good (<[pt_read t := r']> reads) todo.
Proof.
  intros Hag H0 Hg. split; [rewrite length_insert; by destruct Hag|]. intros i r0' r Hi Hr.
  destruct (decide (pt_read t = i)) as [<-|Hne].
  - rewrite list_lookup_insert_eq in Hr; [congruence|]. rewrite (ag_length _ _ Hag). by eapply lookup_lt_Some.
  - rewrite list_lookup_insert_ne in Hr by done. pose proof (ag_good _ _ Hag i r0' r Hi Hr) as H.
    unfold parts_of in H. by rewrite filter_cons_False in H.
Qed.

Lemma all_good_keep reads t todo r0 r :
  all_good reads (t :: todo) -> reads0 !! pt_read t = Some r0 -> reads !! pt_read t = Some r ->
  good r0 r (parts_of (pt_read t) todo) -> all_good reads todo.
Proof. intros Hag H0 Hr Hg. rewrite <- (list_insert_id reads (pt_read t) r Hr). by eapply all_good_update. Qed.

Lemma parts_of_head t todo : parts_of (pt_read t) (t :: todo) = t :: parts_of (pt_read t) todo.
Proof. unfold parts_of. by rewrite filter_cons_True. Qed.

(** The bytes of the next part. *)
Lemma next_bytes (v : list byte) pos a n s l :
  v = take (length v) (drop pos data) -> (s + a = pos + length v)%nat -> (s + a + n <= length data)%nat -> (a + n <= l)%nat ->
  v ++ take n (drop a (take l (drop s data))) = take (length v + n) (drop pos data).
Proof.
  intros Hv Ha Hn Hl. rewrite skipn_firstn_comm, take_take, Nat.min_l, drop_drop by lia.
  replace (drop (s + a) data) with (drop (length v) (drop pos data)) by (rewrite drop_drop; f_equal; lia).
  rewrite Hv at 1. apply take_take_drop.
Qed.

Lemma fill_dst_ok s nchunks d reads todo :
  all_good reads (dst_part s d :: todo) -> within (dst_part s d) -> 0 <= s ->
  0 <= pi_offset_in_physical_read d -> pi_offset_in_physical_read d + pi_len d <= Z.of_nat nchunks * DIO_CHUNK_SIZE ->
  let io := take (nchunks * Z.to_nat DIO_CHUNK_SIZE) (drop (Z.to_nat (s * DIO_CHUNK_SIZE)) data) in
  exists reads', fill_dst io d reads = Some reads' /\ all_good reads' todo.
Proof.
  intros Hag (r0 & H0 & Hpos & Hlen & Hend & Hmax) Hs Hoff Hin io. cbn [pt_read dst_part pt_at pt_len] in *.
  destruct (all_good_at _ _ _ _ Hag H0) as (r & Hr & Hgp & Hg). unfold fill_dst. rewrite Hr. cbn [mbind option_bind].
  rewrite (parts_of_head (dst_part s d)) in Hg.
  destruct (lr_state r) as [v|v|v|e|] eqn:Est; [done| |by destruct Hg as [? _]| |done].
  2: { exists reads. split; [done|]. eapply all_good_keep; [exact Hag|exact H0|exact Hr|]. split; [done|]. by rewrite Est. }
  destruct Hg as (Hcap & Hv & (Hat & Hl & Hch) & Hlt). cbn [pt_at pt_len dst_part] in *.
  assert (length io = Nat.min (nchunks * Z.to_nat DIO_CHUNK_SIZE) (length data - Z.to_nat (s * DIO_CHUNK_SIZE))) as Hio
    by (unfold io; rewrite length_take, length_drop; done).
  case_decide as Heof; rewrite Hio in Heof.
  - cbn [transition_to_terminal mbind option_bind]. unfold set_read_state. rewrite Hr. cbn [mbind option_bind]. eexists. split; [done|].
    eapply (all_good_update reads (dst_part s d)); [exact Hag|exact H0|]. split; [done|]. cbn. unfold DIO_CHUNK_SIZE in *. lia.
  - set (off := Z.to_nat (pi_offset_in_physical_read d)). set (n := Z.to_nat (pi_len d)).
    replace (Z.to_nat (pi_offset_in_physical_read d + pi_len d)) with (off + n)%nat by (unfold off, n; lia).
    unfold slice. rewrite decide_True by (rewrite Hio; unfold off, n, DIO_CHUNK_SIZE in *; lia). cbn [mbind option_bind].
    replace (off + n - off)%nat with n by lia.
    assert (vec_data v ++ take n (drop off io) = take (length (vec_data v) + n) (drop (Z.to_nat (lr_pos r0)) data)) as Hnext.
    { apply next_bytes; [done|..]; unfold off, n, DIO_CHUNK_SIZE in *; lia. }
    assert (length (vec_data v ++ take n (drop off io)) = length (vec_data v) + n)%nat as Hlen'.
    { rewrite Hnext, length_take, length_drop. unfold off, n, DIO_CHUNK_SIZE in *. lia. }
    unfold vec_extend_from_slice. rewrite <- length_app, Hlen', Hcap, decide_False by (unfold n; lia). cbn [mbind option_bind vec_data vec_cap].
    rewrite Hlen'. case_decide as Hfull; cbn [transition_to_terminal mbind option_bind]; unfold set_read_state; rewrite Hr; cbn [mbind option_bind];
      (eexists; split; [done|]; eapply (all_good_update reads (dst_part s d)); [exact Hag|exact H0|]; split; [done|]; cbn [lr_state vec_data vec_cap]).
    + split_and!; [|lia| |by rewrite Hnext, Hfull].
      * destruct (parts_of _ todo) as [|t todo'] eqn:Et; [done|]. cbn in Hch. unfold n in *. lia.
      * unfold off, n, DIO_CHUNK_SIZE in *. lia.
    + rewrite Hlen'. split_and!; [done|by rewrite Hnext| |unfold n in *; lia].
      replace (lr_pos r0 + Z.of_nat (length (vec_data v) + n)) with (lr_pos r0 + Z.of_nat (length (vec_data v)) + pi_len d) by (unfold n; lia).
      replace (Z.of_nat (read_cap r0) - Z.of_nat (length (vec_data v) + n)) with (Z.of_nat (read_cap r0) - Z.of_nat (length (vec_data v)) - pi_len d)
        by (unfold n; lia). exact Hch.
Qed.

Lemma fill_dsts_ok s nchunks dsts : forall reads todo,
  all_good reads (map (dst_part s) dsts ++ todo) -> Forall within (map (dst_part s) dsts) -> 0 <= s ->
  Forall (fun d => 0 <= pi_offset_in_physical_read d /\ 0 < pi_len d
    /\ pi_offset_in_physical_read d + pi_len d <= Z.of_nat nchunks * DIO_CHUNK_SIZE) dsts ->
  let io := take (nchunks * Z.to_nat DIO_CHUNK_SIZE) (drop (Z.to_nat (s * DIO_CHUNK_SIZE)) data) in
  exists reads', fill_dsts io dsts reads = Some reads' /\ all_good reads' todo.
Proof.
  induction dsts as [|d dsts IH]; intros reads todo Hag Hw Hs Hd; [by exists reads|]. cbn [map app] in *.
  apply Forall_cons in Hw as [Hw1 Hw]. apply Forall_cons in Hd as [(D1 & _ & D2) Hd]. cbv zeta in *. cbn [fill_dsts].
  destruct (fill_dst_ok s nchunks d reads (map (dst_part s) dsts ++ todo)) as (reads1 & E & Hag1); try done.
  rewrite E. cbn [mbind option_bind]. by apply IH.
Qed.

(** A read that is still going on and has a part left wants at least a byte. *)
Lemma good_part r0 r t todo : good r0 r (t :: todo) -> (0 < read_cap r0)%nat.
Proof.
  intros [_ Hg]. destruct (lr_state r) as [v|v|v|[|e]|]; try done; try tauto.
  destruct Hg as (_ & _ & (_ & H & _) & _). lia.
Qed.

Lemma fail_dsts_ok e s dsts : (exists start n, asked start /\ file start n = Err e) -> forall reads todo,
  all_good reads (map (dst_part s) dsts ++ todo) -> Forall within (map (dst_part s) dsts) ->
  exists reads', fail_dsts e dsts reads = Some reads' /\ all_good reads' todo.
Proof.
  intros He. induction dsts as [|d dsts IH]; intros reads todo Hag Hw; [by exists reads|]. cbn [map app] in *.
  apply Forall_cons in Hw as [(r0 & H0 & _) Hw]. cbn [fail_dsts]. unfold set_read_state. cbn [pt_read dst_part] in H0.
  destruct (all_good_at _ _ _ _ Hag H0) as (r & Hr & Hg). rewrite Hr. cbn [mbind option_bind].
  apply IH; [|done]. eapply (all_good_update reads (dst_part s d)); [exact Hag|exact H0|].
  rewrite (parts_of_head (dst_part s d)) in Hg. split; [by destruct Hg|]. cbn. split; [by eapply good_part|done].
Qed.

Lemma all_done_ok s dsts : forall reads todo,
  all_good reads (map (dst_part s) dsts ++ todo) -> Forall within (map (dst_part s) dsts) ->
  exists b, all_done dsts reads = Some b /\ (b = true -> all_good reads todo).
Proof.
  induction dsts as [|d dsts IH]; intros reads todo Hag Hw; [by exists true|]. cbn [map app] in *.
  apply Forall_cons in Hw as [(r0 & H0 & _) Hw]. cbn [all_done pt_read dst_part] in *.
  destruct (all_good_at _ _ _ _ Hag H0) as (r & Hr & Hg). rewrite Hr. cbn [mbind option_bind].
  pose proof Hg as Hg'. rewrite (parts_of_head (dst_part s d)) in Hg'. destruct Hg' as [Hgp Hg'].
  destruct (lr_state r) as [v|v|v|e|] eqn:Est; try done; cbn [is_terminal mbind option_bind]; [by exists false|by destruct Hg' as [? _]|].
  apply IH; [|done]. eapply (all_good_keep reads (dst_part s d)); [exact Hag|exact H0|exact Hr|]. split; [done|]. by rewrite Est.
Qed.

(** What is asked of the file: a read at such a position returns the bytes there or
    fails. *)
Definition file_reads : Prop := forall start n,
  asked start -> file start n = Ok (take n (drop (Z.to_nat start) data)) \/ exists e, file start n = Err e.

Lemma execute_physical_ok p reads todo :
  file_reads -> physical_ok p -> all_good reads (physical_parts p ++ todo) -> Forall within (physical_parts p) ->
  exists reads', execute_physical file p reads = Some reads' /\ all_good reads' todo.
Proof.
  intros Hfile [Hs Hd (t & Ht & Hfirst)] Hag Hw. unfold execute_physical, physical_parts in *.
  destruct (all_done_ok _ _ _ _ Hag Hw) as ([|] & -> & Hdone); cbn [mbind option_bind]; [exists reads; split; [done|by apply Hdone]|].
  pose proof Hw as Hw'. rewrite Forall_forall in Hw'. destruct (Hw' t Ht) as (r0 & H0 & Hpos & Hlen & Hend & Hmax).
  unfold checked_mul. rewrite decide_True by lia. cbn [mbind option_bind].
  assert (asked (pr_start_chunk_no p * DIO_CHUNK_SIZE)) as Hask.
  { split; [unfold DIO_CHUNK_SIZE; lia|].
    destruct (decide (lr_pos r0 + Z.of_nat (read_cap r0) <= Z.of_nat (length data))) as [Hin|Hout]; [left; lia|right].
    intros Hall. rewrite Forall_forall in Hall. apply Hout, Hall. by eapply list_elem_of_lookup_2. }
  destruct (Hfile (pr_start_chunk_no p * DIO_CHUNK_SIZE) (pr_nchunks p * Z.to_nat DIO_CHUNK_SIZE)%nat Hask) as [->|[e He]].
  - rewrite decide_True by (rewrite length_take; lia). by apply fill_dsts_ok.
  - rewrite He. apply (fail_dsts_ok e (pr_start_chunk_no p)); [by eexists _, _|done|done].
Qed.

Lemma execute_physicals_ok ps : forall reads,
  file_reads -> Forall physical_ok ps -> all_good reads (concat (map physical_parts ps)) ->
  Forall within (concat (map physical_parts ps)) ->
  exists reads', execute_physicals file ps reads = Some reads' /\ all_good reads' [].
Proof.
  induction ps as [|p ps IH]; intros reads Hfile Hok Hag Hw; [by exists reads|]. cbn [map concat] in *.
  apply Forall_cons in Hok as [Hp Hok]. apply Forall_app in Hw as [Hw1 Hw]. cbn [execute_physicals].
  destruct (execute_physical_ok p reads _ Hfile Hp Hag Hw1) as (reads1 & -> & Hag1). cbn [mbind option_bind]. by apply IH.
Qed.

Lemma chain_within l : forall p r t, chain p r l -> t ∈ l -> p <= pt_at t /\ 0 < pt_len t /\ pt_at t + pt_len t <= p + r.
Proof.
  induction l as [|a l IH]; intros p r t H Ht; [by apply not_elem_of_nil in Ht|]. cbn in H. destruct H as (H1 & H2 & H3).
  apply elem_of_cons in Ht as [->|Ht]; [lia|]. destruct (IH _ _ _ H3 Ht) as (? & ? & ?). lia.
Qed.

Lemma fresh_started r0 todo :
  fresh r0 -> chain (lr_pos r0) (Z.of_nat (read_cap r0)) todo -> good r0 (started r0) todo.
Proof.
  intros (_ & cap & Hst & _) Hch. split; [done|]. cbn. split_and!; [done|done|by rewrite Z.add_0_r, Z.sub_0_r|lia].
Qed.

Lemma dio_execute_ok :
  Forall fresh reads0 -> file_reads -> exists reads', dio_execute false file reads0 = Some reads' /\ all_good reads' [].
Proof.
  intros Hf Hfile. unfold dio_execute.
  destruct (plan_logical_reads_ok reads0 0 []) as (m & -> & Hok & _ & Hch & Hb); [done|split; constructor|..].
  { intros j c _ e x He. by apply not_elem_of_nil in He. }
  cbn [mbind option_bind plus] in *. destruct (merge_chunks_ok (length m) m) as [Hp Hc]; [done|done|].
  enough (exists reads', execute_physicals file (merge_chunks (length m) m) (map started reads0) = Some reads' /\ all_good reads' [])
    as (reads' & -> & ?) by (by exists reads').
  apply execute_physicals_ok; [done|done|rewrite Hc..].
  - split; [by rewrite length_map|]. intros i r0 r H0 Hr. change (map started reads0) with (started <$> reads0) in Hr. rewrite list_lookup_fmap, H0 in Hr. injection Hr as <-.
    rewrite Forall_forall in Hf. apply fresh_started; [|by apply Hch]. apply Hf. by eapply list_elem_of_lookup_2.
  - apply Forall_forall. intros t Ht.
    assert (t ∈ parts_of (pt_read t) (parts m)) as Hm by (by apply list_elem_of_filter).
    destruct (reads0 !! pt_read t) as [r0|] eqn:H0.
    + destruct (chain_within _ _ _ _ (Hch _ _ H0) Hm) as (? & ? & ?). exists r0. rewrite Forall_forall in Hf.
      destruct (Hf r0) as (? & cap & Hst & ?); [by eapply list_elem_of_lookup_2|]. unfold read_cap in *. rewrite Hst in *. cbn in *. split_and!; try done; lia.
    + exfalso. apply lookup_ge_None in H0. rewrite parts_of_none in Hm; [by apply not_elem_of_nil in Hm|].
      intros e x He Hx Hi. specialize (Hb (pt_read t) e.1 ltac:(lia) e x He Hx Hi). lia.
Qed.
End facts.

(** ** The contract *)

(** What a read should get of a file with these bytes. *)
Definition read_result (file : DioFileRead) (data : list byte) (reads : list LogicalRead) (r : LogicalRead) (res : option (sum dio_error (list byte))) : Prop :=
  match res with
  | None => read_cap r = O
  | Some (inr bytes) =>
      (0 < read_cap r)%nat /\ dio_in_range data r /\ bytes = take (read_cap r) (drop (Z.to_nat (lr_pos r)) data)
  | Some (inl DioEof) => (0 < read_cap r)%nat /\ ~ dio_in_range data r
  | Some (inl (DioFile e)) => (0 < read_cap r)%nat /\ exists start n, asked data reads start /\ file start n = Err e
  end.

Lemma good_result file data reads r0 r :
  good file data reads r0 r [] -> exists res, into_result r = Some res /\ read_result file data reads r0 res.
Proof.
  intros [_ Hg]. unfold into_result, read_result, dio_in_range. destruct (lr_state r) as [v|v|v|[|e]|]; try done.
  - destruct Hg as (Hcap & _ & Hch & Hlt). exists None. split; [done|]. cbn in Hch. lia.
  - destruct Hg as (_ & H1 & H2 & H3). by eexists.
  - destruct Hg as [H1 H2]. eexists. split; [done|]. cbn. lia.
  - destruct Hg as [H1 H2]. by eexists.
Qed.

(** The results of the reads, in a release build. *)
Lemma dio_release_results `{!Peeking, !PeekingLaws} (file : DioFileRead) (data : list byte) (reads : list LogicalRead) :
  Forall fresh reads -> file_reads file data reads ->
  exists reads', dio_execute false file reads = Some reads'
  /\ Forall2 (fun r r' => exists res, into_result r' = Some res /\ read_result file data reads r res) reads reads'.
Proof.
  intros Hf Hfile. destruct (dio_execute_ok file data reads Hf Hfile) as (reads' & E & [Hl Hg]). exists reads'. split; [done|].
  apply Forall2_same_length_lookup_2; [done|]. intros i r r' Hr Hr'. by apply (good_result file data reads), (Hg i).
Qed.

(** A debug build does the same and checks the results. *)
Lemma dio_execute_debug `{!Peeking} file reads :
  dio_execute true file reads = (reads' ← dio_execute false file reads; _ ← assert_logical_reads reads'; Some reads').
Proof.
  unfold dio_execute. destruct (plan_logical_reads 0 reads []) as [[? ?]|]; [|done]. cbn [mbind option_bind].
  by destruct (execute_physicals _ _ _).
Qed.

(** Whether a read of at least one byte is asked for. *)
Definition nonempty (r : LogicalRead) : Prop := (0 < read_cap r)%nat.
#[global] Instance nonempty_dec r : Decision (nonempty r).
Proof. unfold nonempty. apply _. Defined.

Lemma assert_logical_reads_ok file data reads0 reads reads' :
  Forall2 (fun r r' => exists res, into_result r' = Some res /\ read_result file data reads0 r res) reads reads' ->
  assert_logical_reads reads' = if decide (Forall nonempty reads) then Some tt else None.
Proof.
  unfold nonempty. induction 1 as [|r r' reads reads' (res & Er & Hr) _ IH]; [done|]. cbn [assert_logical_reads].
  unfold into_result in Er. destruct (lr_state r') eqn:Es; simplify_eq; cbn [is_terminal mbind option_bind]; cbn in Hr.
  1, 2: rewrite decide_False; [done|]; rewrite Forall_cons; unfold nonempty; lia.
  all: rewrite IH; apply decide_ext; rewrite Forall_cons; unfold nonempty; try destruct e; tauto.
Qed.

(** What a build does with a list of reads. *)
Lemma dio_results `{!Peeking, !PeekingLaws} (debug_assertions : bool) (file : DioFileRead) (data : list byte) (reads : list LogicalRead) :
  Forall fresh reads -> file_reads file data reads ->
  exists reads', Forall2 (fun r r' => exists res, into_result r' = Some res /\ read_result file data reads r res) reads reads'
  /\ dio_execute debug_assertions file reads
     = if decide (debug_assertions = true /\ ~ Forall nonempty reads) then None else Some reads'.
Proof.
  intros Hf Hfile. destruct (dio_release_results file data reads Hf Hfile) as (reads' & E & H2). exists reads'. split; [done|].
  destruct debug_assertions; [|by rewrite decide_False by (by intros [])].
  rewrite dio_execute_debug, E. cbn [mbind option_bind]. rewrite (assert_logical_reads_ok _ _ _ _ _ H2).
  destruct (decide (Forall nonempty reads)); [by rewrite decide_False by tauto|by rewrite decide_True].
Qed.

(** C17: Vectored reads return the bytes asked for.  A list of fresh logical reads, at
    any positions and of any lengths, is executed on a file whose reads return its bytes
    or fail.  When every read asks for at least one byte, no build panics: a read that
    lies within the file ends with exactly the bytes of its range or an error the file
    returned, and one that goes beyond the end of the file with an error.  Where some
    reads ask for no bytes, a debug build panics; a release build treats the others in
    the same way and leaves those without a result. *)
Theorem vectored_reads_return_slices `{!Peeking, !PeekingLaws} (debug_assertions : bool) (file : DioFileRead) (data : list byte)
    (reads : list LogicalRead) :
  Forall fresh reads -> file_reads file data reads ->
  exists reads', Forall2 (fun r r' => exists res, into_result r' = Some res /\ read_result file data reads r res) reads reads'
  /\ dio_execute debug_assertions file reads
     = if decide (debug_assertions = true /\ ~ Forall nonempty reads) then None else Some reads'.
Proof. apply dio_results. Qed.

(** *** A concrete instance *)

Fixpoint take_accepted {A St} (f : St -> A -> option St) (st : St) (n : nat) (l : list A) : list A * list A :=
  match n, l with
  | S n, x :: l' =>
      match f st x with
      | Some st' => let '(a, b) := take_accepted f st' n l' in (x :: a, b)
      | None => ([], l)
      end
  | _, _ => ([], l)
  end.

#[global] Instance example_peeking : Peeking := { peeking_take_while A St := take_accepted }.

#[global] Instance example_peeking_laws : PeekingLaws.
Proof. split; intros; [by destruct l|by destruct n|done]. Qed.

(** A file of 600 bytes, with reads within a chunk, across two, of nothing and beyond
    the end. *)
Definition example_dio_data : list byte := replicate 510 (Z_byte 1) ++ replicate 90 (Z_byte 2).

Definition example_dio_file : DioFileRead := fun start n => Ok (take n (drop (Z.to_nat start) example_dio_data)).

Definition example_dio_reads : list LogicalRead :=
  map (fun e => logical_read_new e.1 (vec_with_capacity e.2)) [(508, 6%nat); (0, 2%nat); (7, O); (599, 2%nat)].

Lemma vectored_reads_return_slices_witness :
  Forall fresh example_dio_reads /\ file_reads example_dio_file example_dio_data example_dio_reads
  /\ (exists reads', dio_execute false example_dio_file example_dio_reads = Some reads'
      /\ Forall2 (fun r r' => exists res, into_result r' = Some res /\ read_result example_dio_file example_dio_data example_dio_reads r res)
           example_dio_reads reads')
  /\ dio_execute true example_dio_file example_dio_reads = None.
Proof.
  assert (Forall fresh example_dio_reads) as Hf.
  { unfold example_dio_reads. apply Forall_map. repeat constructor; try done; eexists; (split; [done|]); cbn; unfold u64_max; lia. }
  assert (file_reads example_dio_file example_dio_data example_dio_reads) as Hr by (intros start n _; by left).
  assert (~ Forall nonempty example_dio_reads) as Hne.
  { intros H. rewrite Forall_forall in H. specialize (H (logical_read_new 7 (vec_with_capacity 0)) ltac:(right; right; left)).
    unfold nonempty in H. cbn in H. lia. }
  split; [done|]. split; [done|]. split.
  - destruct (vectored_reads_return_slices false example_dio_file example_dio_data example_dio_reads Hf Hr) as (reads' & H2 & E).
    exists reads'. split; [|exact H2]. rewrite E. by rewrite decide_False by (by intros []).
  - destruct (vectored_reads_return_slices true example_dio_file example_dio_data example_dio_reads Hf Hr) as (reads' & _ & E).
    rewrite E. by rewrite decide_True.
Defined.
