(* ===== verification/SerializedBatch.v ===== *)
(** * Batches of serialized values ([libs/wal_decoder/src/serialized_batch.rs])

    What the WAL decoder hands to the pageserver: the serialized values one after the
    other, with a list that says which value of which key lies where.  A value that
    only shard 0 keeps track of is "observed" and has no bytes.  The checks of debug
    builds are not modelled, nor is building a batch from a decoded WAL record. *)

From S2P Require Import Prelude Lsn XlogUtils Key Shard KeySpace ReconstructState.

Record SerializedValueMeta := mkSerializedMeta {
  sm_key : Z;             (** a [CompactKey] *)
  sm_lsn : Lsn;
  sm_batch_offset : Z;
  sm_len : Z;
  sm_will_init : bool
}.

Inductive ValueMeta : Type := Serialized (ser : SerializedValueMeta) | Observed (key : Z) (lsn : Lsn).

Definition meta_key (self : ValueMeta) : Z := match self with Serialized ser => sm_key ser | Observed key _ => key end.
Definition meta_lsn (self : ValueMeta) : Lsn := match self with Serialized ser => sm_lsn ser | Observed _ lsn => lsn end.

Record SerializedValueBatch := mkBatch {
  sb_raw : list byte;
  sb_metadata : list ValueMeta;
  sb_max_lsn : Lsn;
  sb_len : Z
}.

Definition batch_default : SerializedValueBatch := mkBatch [] [] 0 0.

Section batch.
Context `{VC : !ValueCodec}.

(** [from_values]; the callers pass the size of the serialized value. *)
Fixpoint from_values_loop (batch : list (Z * Lsn * Z * Value)) (self : SerializedValueBatch) : SerializedValueBatch :=
  match batch with
  | [] => self
  | (key, lsn, val_ser_size, val) :: batch =>
      let relative_off := Z.of_nat (length (sb_raw self)) in
      from_values_loop batch
        (mkBatch (sb_raw self ++ value_ser val)
           (sb_metadata self ++ [Serialized (mkSerializedMeta key lsn relative_off val_ser_size (value_will_init val))])
           (Z.max (sb_max_lsn self) lsn) (sb_len self))
  end.

Definition from_values (batch : list (Z * Lsn * Z * Value)) : SerializedValueBatch :=
  from_values_loop batch (mkBatch [] [] 0 (Z.of_nat (length batch))).

Definition batch_put (self : SerializedValueBatch) (key : Z) (value : Value) (lsn : Lsn) : SerializedValueBatch :=
  let relative_off := Z.of_nat (length (sb_raw self)) in
  let raw := sb_raw self ++ value_ser value in
  let val_ser_size := Z.of_nat (length raw) - relative_off in
  mkBatch raw (sb_metadata self ++ [Serialized (mkSerializedMeta key lsn relative_off val_ser_size (value_will_init value))])
    (Z.max (sb_max_lsn self) lsn) (sb_len self + 1).

Definition shift_meta (offset : Z) (meta : ValueMeta) : ValueMeta :=
  match meta with
  | Serialized ser =>
      Serialized (mkSerializedMeta (sm_key ser) (sm_lsn ser) (sm_batch_offset ser + offset) (sm_len ser) (sm_will_init ser))
  | Observed _ _ => meta
  end.

Definition batch_extend (self other : SerializedValueBatch) : SerializedValueBatch :=
  let extend_batch_start_offset := Z.of_nat (length (sb_raw self)) in
  mkBatch (sb_raw self ++ sb_raw other) (sb_metadata self ++ map (shift_meta extend_batch_start_offset) (sb_metadata other))
    (Z.max (sb_max_lsn self) (sb_max_lsn other)) (sb_len self + sb_len other).

Definition has_data (self : SerializedValueBatch) : bool := match sb_raw self with [] => false | _ => true end.

Definition batch_is_empty (self : SerializedValueBatch) : bool :=
  negb (has_data self) && match sb_metadata self with [] => true | _ => false end.

Definition is_observed (self : SerializedValueBatch) : bool :=
  negb (has_data self) && match sb_metadata self with [] => false | _ => true end.

Definition updates_key (self : SerializedValueBatch) (key : Key) : option bool :=
  ck ← to_i128 key;
  Some (existsb (fun meta => match meta with Serialized ser => bool_decide (ck = sm_key ser) | Observed _ _ => false end)
          (sb_metadata self)).

(** ** What a batch holds *)

(** A value of a key: the compact key, the LSN, whether it initializes the page, and
    its bytes. *)
Record entry := mkEntry { en_key : Z; en_lsn : Lsn; en_init : bool; en_data : list byte }.

Definition meta_entries (raw : list byte) (meta : ValueMeta) : list entry :=
  match meta with
  | Serialized ser =>
      [mkEntry (sm_key ser) (sm_lsn ser) (sm_will_init ser) (take (Z.to_nat (sm_len ser)) (drop (Z.to_nat (sm_batch_offset ser)) raw))]
  | Observed _ _ => []
  end.

Definition contents (self : SerializedValueBatch) : list entry := concat (map (meta_entries (sb_raw self)) (sb_metadata self)).

Definition meta_within (raw : list byte) (meta : ValueMeta) : Prop :=
  match meta with
  | Serialized ser => 0 <= sm_batch_offset ser /\ 0 <= sm_len ser /\ sm_batch_offset ser + sm_len ser <= Z.of_nat (length raw)
  | Observed _ _ => True
  end.

Definition batch_ok (self : SerializedValueBatch) : Prop := Forall (meta_within (sb_raw self)) (sb_metadata self).

Definition entry_of (key : Z) (lsn : Lsn) (v : Value) : entry := mkEntry key lsn (value_will_init v) (value_ser v).

Lemma meta_entries_app raw more meta : meta_within raw meta -> meta_entries (raw ++ more) meta = meta_entries raw meta.
Proof.
  destruct meta as [ser|]; [|done]. intros (H1 & H2 & H3). cbn. do 2 f_equal.
  rewrite drop_app_le, take_app_le by (rewrite ?length_drop; lia). done.
Qed.

Lemma contents_app raw more metas : Forall (meta_within raw) metas ->
  concat (map (meta_entries (raw ++ more)) metas) = concat (map (meta_entries raw) metas).
Proof.
  intros H. f_equal. apply map_ext_in. intros meta Hm%list_elem_of_In. apply meta_entries_app. rewrite Forall_forall in H. auto.
Qed.

Lemma within_app raw more metas : Forall (meta_within raw) metas -> Forall (meta_within (raw ++ more)) metas.
Proof.
  intros H. eapply Forall_impl; [exact H|]. intros [ser|] Hm; [|done]. cbn in *. rewrite length_app. lia.
Qed.

Lemma shift_entries raw more meta :
  meta_within more meta -> meta_entries (raw ++ more) (shift_meta (Z.of_nat (length raw)) meta) = meta_entries more meta.
Proof.
  destruct meta as [ser|]; [|done]. intros (H1 & H2 & H3). cbn. do 2 f_equal.
  rewrite drop_app_ge by lia. do 2 f_equal. lia.
Qed.

Lemma put_contents self key v lsn :
  batch_ok self -> batch_ok (batch_put self key v lsn)
  /\ contents (batch_put self key v lsn) = contents self ++ [entry_of key lsn v].
Proof.
  intros Hok. unfold batch_ok, contents, batch_put in *. cbn [sb_raw sb_metadata]. rewrite length_app. split.
  - apply Forall_app. split; [by apply within_app|]. apply Forall_singleton. cbn. rewrite length_app. lia.
  - rewrite map_app, concat_app, contents_app by done. f_equal. cbn. unfold entry_of. do 2 f_equal.
    rewrite Nat2Z.id, drop_app_length, take_ge by lia. done.
Qed.

Lemma extend_contents self other :
  batch_ok self -> batch_ok other ->
  batch_ok (batch_extend self other) /\ contents (batch_extend self other) = contents self ++ contents other.
Proof.
  intros H1 H2. unfold batch_ok, contents, batch_extend in *. cbn [sb_raw sb_metadata]. split.
  - apply Forall_app. split; [by apply within_app|]. apply Forall_map. eapply Forall_impl; [exact H2|].
    intros [ser|] Hm; [|done]. cbn in *. rewrite length_app. lia.
  - rewrite map_app, concat_app, contents_app by done. f_equal. rewrite map_map. f_equal. apply map_ext_in.
    intros meta Hm%list_elem_of_In. apply shift_entries. rewrite Forall_forall in H2. auto.
Qed.

Lemma from_values_contents l : forall self,
  batch_ok self -> Forall (fun e => e.1.2 = Z.of_nat (length (value_ser e.2))) l ->
  batch_ok (from_values_loop l self)
  /\ contents (from_values_loop l self) = contents self ++ map (fun e => entry_of e.1.1.1 e.1.1.2 e.2) l.
Proof.
  induction l as [|[[[key lsn] n] v] l IH]; intros self Hok Hl; [by rewrite app_nil_r|].
  apply Forall_cons in Hl as [Hn Hl]. cbn [fst snd] in Hn. subst n. cbn [from_values_loop].
  set (self' := mkBatch _ _ _ _).
  destruct (put_contents self key v lsn Hok) as [P1 P2].
  assert (batch_ok self' /\ contents self' = contents (batch_put self key v lsn)) as [Q1 Q2].
  { unfold batch_ok, contents, batch_put in *. cbn [sb_raw sb_metadata self'] in *. rewrite length_app in *.
    replace (Z.of_nat (length (sb_raw self) + length (value_ser v)) - Z.of_nat (length (sb_raw self)))
      with (Z.of_nat (length (value_ser v))) in * by lia. done. }
  destruct (IH self' Q1 Hl) as [I1 I2]. split; [done|]. rewrite I2, Q2, P2, <- app_assoc. done.
Qed.

(** A batch holds the values it was built from.  Values encoded with their sizes,
    a value put into a batch and the values of a batch that extends another one are
    found where the metadata says, in order, with their keys, LSNs and bytes. *)
Theorem batch_holds_values (l : list (Z * Lsn * Z * Value)) (a b : SerializedValueBatch) (key : Z) (v : Value) (lsn : Lsn) :
  Forall (fun e => e.1.2 = Z.of_nat (length (value_ser e.2))) l -> batch_ok a -> batch_ok b ->
  (batch_ok (from_values l) /\ contents (from_values l) = map (fun e => entry_of e.1.1.1 e.1.1.2 e.2) l)
  /\ (batch_ok (batch_put a key v lsn) /\ contents (batch_put a key v lsn) = contents a ++ [entry_of key lsn v])
  /\ (batch_ok (batch_extend a b) /\ contents (batch_extend a b) = contents a ++ contents b).
Proof.
  intros Hl Ha Hb. split; [|split; [by apply put_contents|by apply extend_contents]].
  apply (from_values_contents l (mkBatch [] [] 0 (Z.of_nat (length l)))); [constructor|done].
Qed.
End batch.
