(* ===== verification/GlobalResources.v ===== *)
(** * Accounting of in-memory layers ([GlobalResources] of [inmemory_layer.rs])

    All in-memory layers of a pageserver share counters: the bytes they hold and their
    number.  Each layer publishes its size now and then, and takes its share away when
    it is dropped; when the total is above a configured maximum, publishing returns the
    average size, from which on layers are to be frozen.

    The counters are atomics: a call is a sequence of atomic steps, and calls for
    different layers interleave.  [None] is a panic (arithmetic out of range, division
    by zero). *)

From stdpp Require Import gmap.
From S2P Require Import Prelude.

(** ** One call *)

Record GlobalResources := mkGlobals { gl_max_dirty_bytes : Z; gl_dirty_bytes : Z; gl_dirty_layers : Z }.

(** [GlobalResourceUnits::MAX_SIZE_DRIFT]. *)
Definition MAX_SIZE_DRIFT : Z := 10 * 1024 * 1024.

(** [GlobalResourceUnits::new]. *)
Definition units_new (g : GlobalResources) : GlobalResources :=
  mkGlobals (gl_max_dirty_bytes g) (gl_dirty_bytes g) (wrap 64 (gl_dirty_layers g + 1)).

Definition drop_layer (g : GlobalResources) : GlobalResources :=
  mkGlobals (gl_max_dirty_bytes g) (gl_dirty_bytes g) (wrap 64 (gl_dirty_layers g - 1)).

(** The update of the counter, with the new total as this call sees it. *)
Definition publish_adjust (dirty_bytes size : Z) (g : GlobalResources) : option (Z * GlobalResources) :=
  let set n := mkGlobals (gl_max_dirty_bytes g) (wrap 64 n) (gl_dirty_layers g) in
  match size ?= dirty_bytes with
  | Eq => Some (gl_dirty_bytes g, g)
  | Gt =>
      let delta := size - dirty_bytes in
      let old := gl_dirty_bytes g in
      if decide (old + delta <= u64_max) then Some (old + delta, set (old + delta)) else None
  | Lt =>
      let delta := dirty_bytes - size in
      let old := gl_dirty_bytes g in
      if decide (delta <= old) then Some (old - delta, set (old - delta)) else None
  end.

(** The limit that is returned. *)
Definition publish_limit (new_global_dirty_bytes : Z) (g : GlobalResources) : option (option Z) :=
  if decide (0 < gl_max_dirty_bytes g /\ gl_max_dirty_bytes g < new_global_dirty_bytes) then
    if decide (gl_dirty_layers g = 0) then None else Some (Some (new_global_dirty_bytes / gl_dirty_layers g))
  else Some None.

(** [publish_size]: the limit, what the layer has published, and the counters. *)
Definition publish_size (dirty_bytes size : Z) (g : GlobalResources) : option (option Z * Z * GlobalResources) :=
  '(new_global_dirty_bytes, g) ← publish_adjust dirty_bytes size g;
  limit ← publish_limit new_global_dirty_bytes g;
  Some (limit, size, g).

Definition maybe_publish_size (dirty_bytes size : Z) (g : GlobalResources) : option (Z * GlobalResources) :=
  let publish :=
    match size ?= dirty_bytes with
    | Eq => false
    | Gt => bool_decide (MAX_SIZE_DRIFT < size - dirty_bytes)
    | Lt => bool_decide (MAX_SIZE_DRIFT < dirty_bytes - size)
    end in
  if publish then '(_, dirty_bytes, g) ← publish_size dirty_bytes size g; Some (dirty_bytes, g) else Some (dirty_bytes, g).

(** [Drop for GlobalResourceUnits]. *)
Definition units_drop (dirty_bytes : Z) (g : GlobalResources) : option GlobalResources :=
  let g := drop_layer g in
  '(_, _, g) ← publish_size dirty_bytes 0 g;
  Some g.

(** ** Calls one after the other *)

(** The counters and what each live layer has published. *)
Record accounts := mkAccounts { ac_globals : GlobalResources; ac_units : gmap nat Z }.

Inductive acc_call : Set := CallNew (i : nat) | CallPublish (i : nat) (size : Z) | CallMaybe (i : nat) (size : Z) | CallDrop (i : nat).

Definition acc_call_step (c : acc_call) (s : accounts) : option accounts :=
  match c with
  | CallNew i => Some (mkAccounts (units_new (ac_globals s)) (<[i := 0]> (ac_units s)))
  | CallPublish i size =>
      d ← ac_units s !! i;
      '(_, d, g) ← publish_size d size (ac_globals s);
      Some (mkAccounts g (<[i := d]> (ac_units s)))
  | CallMaybe i size =>
      d ← ac_units s !! i;
      '(d, g) ← maybe_publish_size d size (ac_globals s);
      Some (mkAccounts g (<[i := d]> (ac_units s)))
  | CallDrop i =>
      d ← ac_units s !! i;
      g ← units_drop d (ac_globals s);
      Some (mkAccounts g (delete i (ac_units s)))
  end.

Definition total (units : gmap nat Z) : Z := map_fold (fun _ d n => d + n) 0 units.

Record accounts_ok (s : accounts) : Prop := {
  ao_dirty : gl_dirty_bytes (ac_globals s) = total (ac_units s);
  ao_layers : gl_dirty_layers (ac_globals s) = Z.of_nat (size (ac_units s));
  ao_nonneg i d : ac_units s !! i = Some d -> 0 <= d;
  ao_bound : total (ac_units s) <= u64_max /\ Z.of_nat (size (ac_units s)) <= u64_max
}.

(** A call for a layer that is there, with sizes that the counters can hold. *)
Definition acc_call_ok (c : acc_call) (s : accounts) : Prop :=
  match c with
  | CallNew i => ac_units s !! i = None /\ Z.of_nat (size (ac_units s)) < u64_max
  | CallPublish i n | CallMaybe i n =>
      0 <= n /\ exists d, ac_units s !! i = Some d /\ total (ac_units s) - d + n <= u64_max
  | CallDrop i => is_Some (ac_units s !! i)
  end.

Lemma total_insert i d units : units !! i = None -> total (<[i := d]> units) = d + total units.
Proof. intros H. unfold total. apply map_fold_insert_L; [|done]. intros. lia. Qed.

Lemma total_delete i d units : units !! i = Some d -> total units = d + total (delete i units).
Proof.
  intros H. rewrite <- (insert_delete_id units i d H) at 1. apply total_insert. apply lookup_delete_eq.
Qed.

Lemma total_update i d d' units : units !! i = Some d -> total (<[i := d']> units) = total units - d + d'.
Proof.
  intros H. rewrite (total_delete i d units H), <- insert_delete_eq, total_insert; [lia|]. apply lookup_delete_eq.
Qed.

Lemma total_nonneg units : (forall i d, units !! i = Some d -> 0 <= d) -> 0 <= total units.
Proof.
  unfold total. induction units as [|i d units Hi IH] using map_ind; intros H; [done|].
  fold (total (<[i := d]> units)). rewrite total_insert by done. specialize (H i d) as Hd. rewrite lookup_insert_eq in Hd. specialize (Hd eq_refl).
  enough (0 <= total units) by lia. apply IH. intros j e Hj. apply (H j). rewrite lookup_insert_ne; [done|]. intros ->. congruence.
Qed.

Lemma total_pos units : 0 < total units -> (0 < size units)%nat.
Proof.
  intros H. destruct (decide (units = ∅)) as [->|Hne]; [done|].
  enough (size units <> 0%nat) by lia. by rewrite map_size_non_empty_iff.
Qed.

(** Publishing, seen from the total: the counter follows, and the limit is the average
    whenever some layer is counted. *)
Lemma publish_size_total d n g t :
  gl_dirty_bytes g = t -> 0 <= d <= t -> 0 <= n -> t - d + n <= u64_max ->
  (0 < t - d + n -> 0 < gl_dirty_layers g) ->
  publish_size d n g =
    Some (if decide (0 < gl_max_dirty_bytes g /\ gl_max_dirty_bytes g < t - d + n)
          then Some ((t - d + n) / gl_dirty_layers g) else None,
          n, mkGlobals (gl_max_dirty_bytes g) (t - d + n) (gl_dirty_layers g)).
Proof.
  intros Ht Hd Hn Hmax Hl.
  assert (publish_adjust d n g = Some (t - d + n, mkGlobals (gl_max_dirty_bytes g) (t - d + n) (gl_dirty_layers g))) as E.
  { unfold publish_adjust. destruct (Z.compare_spec n d); cbn zeta; rewrite ?Ht.
    - subst n. replace (t - d + d) with t by lia. destruct g; cbn in *. by subst.
    - rewrite decide_True by lia. replace (t - (d - n)) with (t - d + n) by lia. rewrite wrap_small; [done|]. unfold in_u, u64_max in *. lia.
    - rewrite decide_True by lia. replace (t + (n - d)) with (t - d + n) by lia. rewrite wrap_small; [done|]. unfold in_u, u64_max in *. lia. }
  unfold publish_size. rewrite E. cbn. unfold publish_limit. cbn. case_decide; [|done]. rewrite decide_False by lia. done.
Qed.

Lemma publish_keeps_accounts s i d n :
  accounts_ok s -> ac_units s !! i = Some d -> 0 <= n -> total (ac_units s) - d + n <= u64_max ->
  exists limit g,
    publish_size d n (ac_globals s) = Some (limit, n, g) /\ accounts_ok (mkAccounts g (<[i := n]> (ac_units s))).
Proof.
  intros [Hd Hl Hn Hb] Hi Hn0 Hmax.
  assert (0 <= d <= total (ac_units s)) as Hdt.
  { split; [by eapply Hn|]. rewrite (total_delete _ _ _ Hi). enough (0 <= total (delete i (ac_units s))) by lia.
    apply total_nonneg. intros j e Hj. apply lookup_delete_Some in Hj as [_ Hj]. by eapply Hn. }
  assert (size (<[i := n]> (ac_units s)) = size (ac_units s)) as Hs by (apply map_size_insert_Some; eauto).
  do 2 eexists. split; [apply (publish_size_total _ _ _ (total (ac_units s))); try done|].
  - intros _. rewrite Hl. enough (size (ac_units s) <> 0%nat) by lia. intros E. apply map_size_empty_inv in E. by rewrite E, lookup_empty in Hi.
  - split; cbn; rewrite ?Hs, ?(total_update _ d) by done; [lia|done| |lia].
    intros j e Hj. apply lookup_insert_Some in Hj as [[_ <-]|[_ Hj]]; [done|by eapply Hn].
Qed.

Lemma drop_keeps_accounts s i d :
  accounts_ok s -> ac_units s !! i = Some d ->
  exists g, units_drop d (ac_globals s) = Some g /\ accounts_ok (mkAccounts g (delete i (ac_units s))).
Proof.
  intros [Hd Hl Hn Hb] Hi. pose proof (total_delete _ _ _ Hi) as Ht.
  assert (forall j e, delete i (ac_units s) !! j = Some e -> 0 <= e) as Hn'.
  { intros j e Hj. apply lookup_delete_Some in Hj as [_ Hj]. by eapply Hn. }
  pose proof (total_nonneg _ Hn') as H0. pose proof (Hn _ _ Hi) as Hd0.
  assert (Z.of_nat (size (ac_units s)) = Z.of_nat (size (delete i (ac_units s))) + 1) as Hs.
  { rewrite <- (insert_delete_id _ _ _ Hi) at 1. rewrite map_size_insert_None by apply lookup_delete_eq. lia. }
  assert (gl_dirty_layers (drop_layer (ac_globals s)) = Z.of_nat (size (delete i (ac_units s)))) as Hl'.
  { cbn. rewrite Hl, Hs, wrap_small; [lia|]. unfold in_u, u64_max in *. lia. }
  eexists. split.
  - unfold units_drop. cbn zeta. rewrite (publish_size_total _ _ _ (total (ac_units s))); [reflexivity|done|lia|done|lia|].
    intros Hp. rewrite Hl'. enough (0 < size (delete i (ac_units s)))%nat by lia. apply total_pos. lia.
  - split; cbn [ac_globals ac_units gl_dirty_bytes gl_dirty_layers]; [lia|done|done|lia].
Qed.

Lemma acc_call_step_ok c s : accounts_ok s -> acc_call_ok c s -> exists s', acc_call_step c s = Some s' /\ accounts_ok s'.
Proof.
  intros Hok Hc. destruct c as [i|i n|i n|i]; cbn in *.
  - destruct Hc as [Hi Hs], Hok as [Hd Hl Hn Hb]. eexists. split; [done|].
    split; cbn; rewrite ?total_insert, ?map_size_insert_None by done; [lia| | |lia].
    + rewrite Hl, wrap_small; [lia|]. unfold in_u, u64_max in *. lia.
    + intros j e Hj. apply lookup_insert_Some in Hj as [[_ <-]|[_ Hj]]; [done|by eapply Hn].
  - destruct Hc as (Hn & d & Hi & Hmax). rewrite Hi. cbn.
    destruct (publish_keeps_accounts s i d n) as (limit & g & -> & Hok'); eauto.
  - destruct Hc as (Hn & d & Hi & Hmax). rewrite Hi. cbn. unfold maybe_publish_size.
    destruct (match n ?= d with Eq => _ | Lt => _ | Gt => _ end).
    + destruct (publish_keeps_accounts s i d n) as (limit & g & -> & Hok'); eauto.
    + cbn. eexists. split; [done|]. rewrite insert_id by done. by destruct s.
  - destruct Hc as [d Hi]. rewrite Hi. cbn. destruct (drop_keeps_accounts s i d) as (g & -> & Hok'); eauto.
Qed.

(** What calls made one after the other reach. *)
Inductive accounting (max : Z) : accounts -> Prop :=
| accounting_start : accounting max (mkAccounts (mkGlobals max 0 0) ∅)
| accounting_call s c s' : accounting max s -> acc_call_ok c s -> acc_call_step c s = Some s' -> accounting max s'.

Lemma accounting_ok max s : accounting max s -> accounts_ok s.
Proof.
  induction 1 as [|s c s' _ IH Hc E]; [by split|]. destruct (acc_call_step_ok c s IH Hc) as (? & ? & ?). by simplify_eq.
Qed.

(** C37: Calls that do not overlap keep exact accounts and never panic: the counters are the
    sum of the published sizes and the number of live layers. *)
Theorem sequential_accounting max s :
  accounting max s ->
  gl_dirty_bytes (ac_globals s) = total (ac_units s) /\
  gl_dirty_layers (ac_globals s) = Z.of_nat (size (ac_units s)) /\
  (forall c, acc_call_ok c s -> is_Some (acc_call_step c s)).
Proof.
  intros H. pose proof (accounting_ok _ _ H) as Hok. split; [apply Hok|split; [apply Hok|]].
  intros c Hc. destruct (acc_call_step_ok c s Hok Hc) as (s' & -> & _). by eexists.
Qed.

Lemma accounting_new max t k u i :
  accounting max (mkAccounts (mkGlobals max t k) u) -> u !! i = None -> k < u64_max ->
  accounting max (mkAccounts (mkGlobals max t (k + 1)) (<[i := 0]> u)).
Proof.
  intros H Hi Hk. pose proof (ao_layers _ (accounting_ok _ _ H)) as Hl. cbn in Hl.
  eapply (accounting_call _ _ (CallNew i)); [exact H|cbn; split; [done|lia]|].
  cbn. unfold units_new. cbn. rewrite wrap_small; [done|]. unfold in_u, u64_max in *. lia.
Qed.

Lemma accounting_publish max t k u i d n :
  accounting max (mkAccounts (mkGlobals max t k) u) -> u !! i = Some d -> 0 <= n -> t - d + n <= u64_max ->
  accounting max (mkAccounts (mkGlobals max (t - d + n) k) (<[i := n]> u)).
Proof.
  intros H Hi Hn Hb. pose proof (accounting_ok _ _ H) as Hok. pose proof (ao_dirty _ Hok) as Ht. cbn in Ht.
  destruct (publish_keeps_accounts _ i d n Hok Hi Hn) as (limit & g & E & Hok'); [cbn; lia|].
  eapply (accounting_call _ _ (CallPublish i n)); [exact H|cbn; split; [done|]; exists d; split; [done|lia]|].
  pose proof (ao_dirty _ Hok') as Hd. pose proof (ao_layers _ Hok') as Hl. pose proof (ao_layers _ Hok) as Hl0.
  cbn in Hd, Hl, Hl0. rewrite map_size_insert_Some in Hl by eauto. rewrite (total_update _ d) in Hd by done.
  cbn in E |- *. rewrite Hi. cbn. rewrite E. cbn. do 2 f_equal. destruct g as [m b l]. cbn in *. f_equal; [|lia|lia].
  unfold publish_size, publish_adjust in E. cbn in E. destruct (n ?= d); repeat case_decide; cbn in E;
    try destruct (publish_limit _ _); cbn in E; by simplify_eq.
Qed.

(** ** Calls that overlap *)

(** The atomic steps of the calls.  [StepAdjust i n] is the update of [dirty_bytes] by
    layer [i]'s [publish_size(n)], and [StepLimit i] the rest of that call. *)
Inductive atomic_step : Set := StepNew (i : nat) | StepAdjust (i : nat) (n : Z) | StepLimit (i : nat) | StepDrop (i : nat).

(** Besides the accounts, the total that each call under way has seen. *)
Definition atomic (a : atomic_step) (st : accounts * gmap nat Z) : option (accounts * gmap nat Z) :=
  let '(s, seen) := st in
  match a with
  | StepNew i => Some (mkAccounts (units_new (ac_globals s)) (<[i := 0]> (ac_units s)), seen)
  | StepAdjust i n =>
      d ← ac_units s !! i;
      '(t, g) ← publish_adjust d n (ac_globals s);
      Some (mkAccounts g (<[i := n]> (ac_units s)), <[i := t]> seen)
  | StepLimit i => t ← seen !! i; _ ← publish_limit t (ac_globals s); Some (s, delete i seen)
  | StepDrop i => Some (mkAccounts (drop_layer (ac_globals s)) (ac_units s), seen)
  end.

Fixpoint atomics (l : list atomic_step) (st : accounts * gmap nat Z) : option (accounts * gmap nat Z) :=
  match l with
  | [] => Some st
  | a :: l => st ← atomic a st; atomics l st
  end.

Lemma atomics_app l1 l2 st : atomics (l1 ++ l2) st = (st ← atomics l1 st; atomics l2 st).
Proof. revert st. induction l1 as [|a l1 IH]; intros st; [done|]. cbn. destruct (atomic a st); cbn; [apply IH|done]. Qed.

(** [publish_size] is its two steps, one right after the other. *)
Lemma publish_size_atomic s seen i d n :
  ac_units s !! i = Some d -> seen !! i = None ->
  atomics [StepAdjust i n; StepLimit i] (s, seen) =
    ('(_, n, g) ← publish_size d n (ac_globals s); Some (mkAccounts g (<[i := n]> (ac_units s)), seen)).
Proof.
  intros Hi Hs. cbn. rewrite Hi. cbn. unfold publish_size. destruct (publish_adjust _ _ _) as [[t g]|]; [|done]. cbn.
  rewrite lookup_insert_eq. cbn. destruct (publish_limit t g); [|done]. cbn. by rewrite delete_insert_id.
Qed.

Lemma publish_adjust_up d n g :
  0 <= gl_dirty_bytes g -> d < n -> gl_dirty_bytes g + (n - d) <= u64_max ->
  publish_adjust d n g =
    Some (gl_dirty_bytes g + (n - d), mkGlobals (gl_max_dirty_bytes g) (gl_dirty_bytes g + (n - d)) (gl_dirty_layers g)).
Proof.
  intros H0 Hd Hb. unfold publish_adjust. rewrite (proj2 (Z.compare_gt_iff _ _)) by done. cbn zeta.
  rewrite decide_True by done. rewrite wrap_small; [done|]. unfold in_u, u64_max in *. lia.
Qed.

Lemma publish_adjust_down d n g :
  n < d -> d - n <= gl_dirty_bytes g -> gl_dirty_bytes g <= u64_max ->
  publish_adjust d n g =
    Some (gl_dirty_bytes g - (d - n), mkGlobals (gl_max_dirty_bytes g) (gl_dirty_bytes g - (d - n)) (gl_dirty_layers g)).
Proof.
  intros Hd H0 Hb. unfold publish_adjust. rewrite (proj2 (Z.compare_lt_iff _ _)) by done. cbn zeta.
  rewrite decide_True by done. rewrite wrap_small; [done|]. unfold in_u, u64_max in *. lia.
Qed.

(** Two layers of [n] bytes each, after they published their size. *)
Definition two_layers (max n : Z) : accounts := mkAccounts (mkGlobals max (2 * n) 2) {[0%nat := n; 1%nat := n]}.

Lemma two_layers_accounting max n : 0 <= n -> 2 * n <= u64_max -> accounting max (two_layers max n).
Proof.
  intros Hn Hb. unfold two_layers.
  assert (accounting max (mkAccounts (mkGlobals max n 1) {[0%nat := n]})) as H.
  { pose proof (accounting_publish max 0 1 {[0%nat := 0]} 0 0 n) as P. rewrite insert_singleton_eq in P.
    apply P; [|apply lookup_singleton_eq|done|lia]. by apply (accounting_new max 0 0 ∅ 0 (accounting_start max)). }
  apply (accounting_new _ _ _ _ 1) in H; [|done|done].
  apply (accounting_publish _ _ _ _ 1 0 n) in H; [|apply lookup_insert_eq|done|lia].
  rewrite insert_insert_eq in H.
  replace (2 * n) with (n - 0 + n) by lia. exact H.
Qed.

(** C38: Two layers that are dropped at the same time can panic.  Both have left the count of
    layers before the first takes its bytes away: the rest is above the maximum, and its
    average is over no layers. *)
Theorem concurrent_drops_divide_by_zero max n :
  0 < max -> max < n -> 2 * n <= u64_max ->
  accounting max (two_layers max n) /\
  is_Some (atomics [StepDrop 0; StepDrop 1; StepAdjust 0 0] (two_layers max n, ∅)) /\
  atomics [StepDrop 0; StepDrop 1; StepAdjust 0 0; StepLimit 0] (two_layers max n, ∅) = None.
Proof.
  intros Hmax Hn Hb. split; [apply two_layers_accounting; lia|].
  assert (atomics [StepDrop 0; StepDrop 1; StepAdjust 0 0] (two_layers max n, ∅) =
    Some (mkAccounts (mkGlobals max n 0) (<[0%nat := 0]> {[0%nat := n; 1%nat := n]}), {[0%nat := n]})) as E.
  { cbn [atomics atomic mbind option_bind two_layers ac_globals ac_units]. rewrite lookup_insert_eq. cbn [mbind option_bind].
    rewrite publish_adjust_down by (cbn; lia). cbn [gl_dirty_bytes drop_layer gl_max_dirty_bytes gl_dirty_layers].
    replace (2 * n - (n - 0)) with n by lia. reflexivity. }
  rewrite E. split; [by eexists|].
  change [StepDrop 0; StepDrop 1; StepAdjust 0 0; StepLimit 0] with ([StepDrop 0; StepDrop 1; StepAdjust 0 0] ++ [StepLimit 0]).
  rewrite atomics_app, E. cbn [mbind option_bind atomics atomic]. rewrite lookup_singleton_eq. cbn. unfold publish_limit. cbn. by rewrite decide_True by lia.
Qed.

Lemma sequential_accounting_witness :
  gl_dirty_bytes (ac_globals (two_layers 50 100)) = total (ac_units (two_layers 50 100)) /\
  gl_dirty_layers (ac_globals (two_layers 50 100)) = Z.of_nat (size (ac_units (two_layers 50 100))) /\
  is_Some (acc_call_step (CallDrop 0) (two_layers 50 100)).
Proof.
  assert (accounting 50 (two_layers 50 100)) as H by (apply two_layers_accounting; unfold u64_max; lia).
  destruct (sequential_accounting 50 (two_layers 50 100) H) as (Hd & Hl & Hc).
  split; [exact Hd|split; [exact Hl|]]. apply Hc. by eexists.
Defined.

Lemma concurrent_drops_divide_by_zero_witness :
  accounting 50 (two_layers 50 100) /\
  is_Some (atomics [StepDrop 0; StepDrop 1; StepAdjust 0 0] (two_layers 50 100, ∅)) /\
  atomics [StepDrop 0; StepDrop 1; StepAdjust 0 0; StepLimit 0] (two_layers 50 100, ∅) = None.
Proof. apply (concurrent_drops_divide_by_zero 50 100); unfold u64_max; lia. Defined.
