(* ===== verification/InMemoryLayer.v ===== *)
(** * The in-memory layer ([pageserver/src/tenant/storage_layer/inmemory_layer.rs])

    The layer that takes the newest WAL of a timeline: the values lie in an ephemeral
    file, in the order in which they came, and an index maps each key and LSN to the
    place of its value.  It is read while it is written; when it is frozen, it is
    written to disk as a delta layer.  The locks of the code are held by whole calls
    here; the I/O of a read is done where it is spawned.

    The accounting of the bytes of all layers is in [GlobalResources].  Not modelled:
    what a layer is called in logs. *)

From S2P Require Import Prelude Lsn XlogUtils Key Shard KeySpace OrdMap LayerCoverage LayerName.
From S2P Require Import DiskBtree VecMap BlobIo ReconstructState LayerFile EphemeralFile DioRead SerializedBatch.

(** ** Index entries *)

(** The [bit_field] crate: bits [lo] to [hi] (exclusive) of a [u64].  Setting panics
    ([None]) when the value has more bits. *)
Class BitField := {
  set_bits : Z -> Z -> Z -> Z -> option Z;
  get_bits : Z -> Z -> Z -> Z
}.

(** Its documentation: the bits of the range are set and the others stay as they are. *)
Class BitFieldLaws `{!BitField} := {
  set_bits_ok d lo hi v :
    0 <= lo < hi -> hi <= 64 -> in_u 64 d -> in_u (hi - lo) v ->
    exists d', set_bits d lo hi v = Some d' /\ in_u 64 d' /\ get_bits d' lo hi = v
    /\ forall a b, 0 <= a < b -> b <= 64 -> b <= lo \/ hi <= a -> get_bits d' a b = get_bits d a b
}.

(** [trailing_ones] of [MAX_SUPPORTED_BLOB_LEN]. *)
Definition MAX_SUPPORTED_BLOB_LEN_BITS : Z := 28.
Definition MAX_SUPPORTED_POS_BITS : Z := 64 - 1 - MAX_SUPPORTED_BLOB_LEN_BITS.
Definition MAX_SUPPORTED_POS : Z := Z.shiftl 1 MAX_SUPPORTED_POS_BITS - 1.

Definition LEN_LO : Z := 1.
Definition LEN_HI : Z := 1 + MAX_SUPPORTED_BLOB_LEN_BITS.
Definition POS_LO : Z := LEN_HI.
Definition POS_HI : Z := POS_LO + MAX_SUPPORTED_POS_BITS.

Record IndexEntryUnpacked := mkUnpacked { ie_will_init : bool; ie_len : Z; ie_pos : Z }.

Section index_entry.
Context `{BF : !BitField}.

Definition index_entry_new (base_offset batch_offset len : Z) (will_init : bool) : outcome string Z :=
  let pos := base_offset + batch_offset in
  if decide (u64_max < pos) then Err "base_offset + batch_offset overflows u64"%string
  else if decide (MAX_SUPPORTED_POS < pos) then Err "base_offset+batch_offset exceeds the maximum supported value"%string
  else if decide (MAX_SUPPORTED_BLOB_LEN < len) then Err "len exceeds the maximum supported length"%string
  else
    data ← of_option (set_bits 0 0 1 (if will_init then 1 else 0));
    data ← of_option (set_bits data LEN_LO LEN_HI len);
    of_option (set_bits data POS_LO POS_HI pos).

Definition unpack (self : Z) : IndexEntryUnpacked :=
  mkUnpacked (negb (bool_decide (get_bits self 0 1 = 0))) (get_bits self LEN_LO LEN_HI) (get_bits self POS_LO POS_HI).

Definition validate_checkpoint_distance (checkpoint_distance : Z) : sum string unit :=
  if decide (MAX_SUPPORTED_POS < checkpoint_distance) then inl "exceeds the maximum supported value"%string
  else if decide (u64_max < checkpoint_distance + MAX_SUPPORTED_BLOB_LEN)
       then inl "checkpoint distance + max supported blob len overflows in-memory addition"%string
  else inr tt.
End index_entry.

(** ** The layer *)

(** The index is a [BTreeMap] from compact keys. *)
Record InMemoryLayer := mkInMemoryLayer {
  il_tenant_shard_id : TenantShardId;
  il_timeline_id : Id;
  il_start_lsn : Lsn;
  il_end_lsn : option Lsn;
  il_index : ordmap Z (VecMap Z);
  il_file : EphemeralFile;
  il_estimated_in_mem_size : Z
}.

Definition il_create (timeline_id : Id) (tenant_shard_id : TenantShardId) (start_lsn : Lsn) : InMemoryLayer :=
  mkInMemoryLayer tenant_shard_id timeline_id start_lsn None [] ef_create 0.

Definition end_lsn_or_max (self : InMemoryLayer) : Lsn := default LSN_MAX (il_end_lsn self).
Definition il_get_lsn_range (self : InMemoryLayer) : Range Lsn := mkRange (il_start_lsn self) (end_lsn_or_max self).

Inductive PutBatchError : Type := PbFlush (e : FlushTaskError) | PbOther (msg : string).

Abbreviation ilM := (M PutBatchError InMemoryLayer).

Definition with_file (file : EphemeralFile) (self : InMemoryLayer) : InMemoryLayer :=
  mkInMemoryLayer (il_tenant_shard_id self) (il_timeline_id self) (il_start_lsn self) (il_end_lsn self) (il_index self) file
    (il_estimated_in_mem_size self).

Definition with_index (index : ordmap Z (VecMap Z)) (size : Z) (self : InMemoryLayer) : InMemoryLayer :=
  mkInMemoryLayer (il_tenant_shard_id self) (il_timeline_id self) (il_start_lsn self) (il_end_lsn self) index (il_file self) size.

(** [index.get(key)]. *)
Definition oget {V} (k : Z) (m : ordmap Z V) : option V :=
  match filter (fun e => e.1 = k) m with e :: _ => Some e.2 | [] => None end.

(** Sizes of [CompactKey], [Lsn] and [IndexEntry]. *)
Definition ENTRY_SIZE : Z := 16 + 8 + 8.

Definition assert_writable : ilM unit := end_lsn ← gets il_end_lsn; assert (bool_decide (end_lsn = None)).

Record ValueRead := mkValueRead { vd_entry_lsn : Lsn; vd_read : LogicalRead }.

(** The [HashMap] from keys to their reads, that of the I/Os, and both with the state
    of the read. *)
Abbreviation reads_map := (list (Key * list ValueRead)).
Abbreviation io_map := (list (Key * Lsn * OnDiskValueIo)).
Abbreviation read_plan := (reads_map * io_map * ValuesReconstructState)%type.

Section layer.
Context `{BF : !BitField}.

(** The loop over the metadata of a batch. *)
Fixpoint put_metas (base_offset : Z) (metadata : list ValueMeta) : ilM unit :=
  match metadata with
  | [] => mret tt
  | Observed _ _ :: metadata => put_metas base_offset metadata
  | Serialized ser :: metadata =>
      index_entry ← map_err PbOther
        (lift (index_entry_new base_offset (sm_batch_offset ser) (sm_len ser) (sm_will_init ser)));
      index ← gets il_index;
      let vec_map := default vm_default (oget (sm_key ser) index) in
      '(_, vec_map) ← unwrap (match append_or_update_last vec_map (sm_lsn ser) index_entry with inr r => Some r | inl _ => None end);
      _ ← modify (fun self =>
        with_index (oinsert (sm_key ser) vec_map index) (wrap 64 (il_estimated_in_mem_size self + ENTRY_SIZE)) self);
      put_metas base_offset metadata
  end.

Definition put_batch (ss : list sched) (serialized_batch : SerializedValueBatch) : ilM unit :=
  _ ← assert_writable;
  base_offset ← gets (fun self => ef_len (il_file self));
  let raw := sb_raw serialized_batch in
  _ ← map_err PbFlush (zoom il_file with_file (write_raw ss raw));
  new_size ← gets (fun self => ef_len (il_file self));
  let expected_new_len := base_offset + Z.of_nat (length raw) in
  _ ← assert (bool_decide (expected_new_len <= u64_max));
  _ ← assert (bool_decide (new_size = expected_new_len));
  put_metas base_offset (sb_metadata serialized_batch).

Definition freeze (debug_assertions : bool) (end_lsn : Lsn) : ilM unit :=
  start_lsn ← gets il_start_lsn;
  _ ← assert (bool_decide (start_lsn < end_lsn));
  old ← gets il_end_lsn;
  _ ← assert (bool_decide (old = None));
  _ ← modify (fun self =>
    mkInMemoryLayer (il_tenant_shard_id self) (il_timeline_id self) (il_start_lsn self) (Some end_lsn) (il_index self)
      (il_file self) (il_estimated_in_mem_size self));
  index ← gets il_index;
  assert (negb debug_assertions
          || forallb (fun e => forallb (fun v => bool_decide (v.1 < end_lsn)) (vm_data e.2)) index).

(** ** Reading *)

Fixpoint reads_push (key : Key) (v : ValueRead) (reads : reads_map) : reads_map :=
  match reads with
  | [] => [(key, [v])]
  | (k, vs) :: rest => if decide (k = key) then (k, vs ++ [v]) :: rest else (k, vs) :: reads_push key v rest
  end.

(** The entries of a key from the newest one down. *)
Fixpoint plan_entries (key : Key) (entries : list (Lsn * Z)) (p : read_plan) : option read_plan :=
  match entries with
  | [] => Some p
  | (entry_lsn, index_entry) :: entries =>
      let '(reads, ios, st) := p in
      let u := unpack index_entry in
      let reads :=
        reads_push key (mkValueRead entry_lsn (logical_read_new (ie_pos u) (vec_with_capacity (Z.to_nat (ie_len u))))) reads in
      '(io, st) ← update_key key entry_lsn (ie_will_init u) st;
      let p := (reads, ios_insert (key, entry_lsn) io ios, st) in
      if ie_will_init u then Some p else plan_entries key entries p
  end.

Fixpoint plan_keys (lsn_range : Range Lsn) (entries : list (Z * VecMap Z)) (p : read_plan) : option read_plan :=
  match entries with
  | [] => Some p
  | (key, vec_map) :: entries =>
      slice ← slice_range vec_map (Included (start lsn_range)) (Excluded (end_ lsn_range));
      p ← plan_entries (from_i128 key) (rev slice) p;
      plan_keys lsn_range entries p
  end.

(** [BTreeMap::range] panics on a range whose start is above its end. *)
Fixpoint plan_key_ranges (index : ordmap Z (VecMap Z)) (lsn_range : Range Lsn) (ranges : list KRange) (p : read_plan) :
    option read_plan :=
  match ranges with
  | [] => Some p
  | range :: ranges =>
      a ← to_i128 (start range);
      b ← to_i128 (end_ range);
      _ ← ensure (bool_decide (a <= b));
      p ← plan_keys lsn_range (orange a b index) p;
      plan_key_ranges index lsn_range ranges p
  end.

Fixpoint complete_values (values : list (Key * Lsn * LogicalRead)) (ios : io_map) (st : ValuesReconstructState) :
    option (io_map * ValuesReconstructState) :=
  match values with
  | [] => Some (ios, st)
  | (k, read) :: values =>
      '(io, ios) ← ios_remove k ios;
      result ← mjoin (into_result read);
      let res :=
        match result with
        | inl _ => inl "dio vec read failed"%string
        | inr value_buf => inr (WalRecordOrImage value_buf)
        end in
      complete_values values ios (io_complete io res st)
  end.

Definition planned_values (reads : reads_map) : list (Key * Lsn * LogicalRead) :=
  concat (map (fun e => map (fun v => (e.1, vd_entry_lsn v, vd_read v)) e.2) reads).

Context `{PK : !Peeking}.

(** [order]: the order in which the [HashMap] of reads is iterated over. *)
Definition il_get_values_reconstruct_data (debug_assertions : bool) (order : reads_map -> reads_map) (self : InMemoryLayer) (keyspace : KeySpace)
    (lsn_range : Range Lsn) (st : ValuesReconstructState) : option ValuesReconstructState :=
  '(reads, ios, st) ← plan_key_ranges (il_index self) lsn_range (ranges keyspace) ([], [], st);
  let values := planned_values (order reads) in
  results ← dio_execute debug_assertions (read_exact_at_eof_ok (il_file self)) (map snd values);
  '(ios, st) ← complete_values (zip (map fst values) results) ios st;
  match ios with [] => Some st | _ => None end.

(** ** Writing the layer to disk *)

Context `{ZS : !Zstd, VC : !ValueCodec, SC : !SummaryCodec}.

Fixpoint write_entries (file_contents : list byte) (key : Key) (entries : list (Lsn * Z)) (w : DeltaLayerWriterInner) :
    outcome PutError DeltaLayerWriterInner :=
  match entries with
  | [] => Ok w
  | (lsn, entry) :: entries =>
      let u := unpack entry in
      buf ← of_option (slice (Z.to_nat (ie_pos u)) (Z.to_nat (ie_pos u + ie_len u)) file_contents);
      w ← delta_put_value_bytes w key lsn buf (ie_will_init u);
      write_entries file_contents key entries w
  end.

Fixpoint write_keys (file_contents : list byte) (index : list (Z * VecMap Z)) (w : DeltaLayerWriterInner) :
    outcome PutError DeltaLayerWriterInner :=
  match index with
  | [] => Ok w
  | (key, vec_map) :: index =>
      w ← write_entries file_contents (from_i128 key) (vm_data vec_map) w;
      write_keys file_contents index w
  end.

(** [None] when there is nothing to write; the key range only decides that. *)
Definition write_to_disk (self : InMemoryLayer) (key_range : option KRange) :
    outcome PutError (option (PersistentLayerDesc * list byte)) :=
  end_lsn ← of_option (il_end_lsn self);
  key_count ←
    match key_range with
    | Some key_range =>
        a ← of_option (to_i128 (start key_range));
        b ← of_option (to_i128 (end_ key_range));
        Ok (length (filter (fun e => a <= e.1 /\ e.1 < b) (il_index self)))
    | None => Ok (length (il_index self))
    end;
  match key_count with
  | O => Ok None
  | _ =>
      let delta_layer_writer :=
        delta_writer_new (il_timeline_id self) (il_tenant_shard_id self) KEY_MIN (mkRange (il_start_lsn self) end_lsn) in
      file_contents ← match load_to_io_buf (il_file self) with Ok b => Ok b | Err e => Err (PutOther e) | Panic => Panic end;
      w ← write_keys file_contents (il_index self) delta_layer_writer;
      r ← delta_finish w KEY_MAX;
      Ok (Some r)
  end.
End layer.
