(* ===== verification/InMemoryFacts.v ===== *)
(** * What an in-memory layer holds

    The index of the layer and its file together hold the values that were put, in the
    order of keys and LSNs, each found at its place; putting a batch adds its values,
    the last one of a key and an LSN replacing earlier ones. *)

From stdpp Require Import sorting.
From S2P Require Import Prelude Lsn XlogUtils Key Shard KeySpace OrdMap LayerCoverage LayerName.
From S2P Require Import DiskBtree VecMap BlobIo ReconstructState LayerFile EphemeralFile EphemeralFacts DioRead SerializedBatch InMemoryLayer.

(** ** Index entries *)

Section entries.
Context `{BF : !BitField, BFL : !BitFieldLaws}.

Lemma index_entry_new_ok base off len init :
  0 <= base -> 0 <= off -> 0 <= len ->
  match index_entry_new base off len init with
  | Ok e => unpack e = mkUnpacked init len (base + off) /\ base + off <= MAX_SUPPORTED_POS /\ len <= MAX_SUPPORTED_BLOB_LEN
  | Err _ => MAX_SUPPORTED_POS < base + off \/ MAX_SUPPORTED_BLOB_LEN < len
  | Panic => False
  end.
Proof.
  intros Hb Ho Hl. unfold index_entry_new.
  assert (MAX_SUPPORTED_POS = 34359738367) as Hmax by done. rewrite Hmax.
  case_decide; [unfold u64_max in *; lia|]. case_decide; [lia|]. case_decide; [by right|].
  assert (in_u 1 (if init then 1 else 0)) as Hbit by (unfold in_u; by destruct init).
  destruct (set_bits_ok 0 0 1 _ ltac:(lia) ltac:(lia) ltac:(done) Hbit) as (d1 & -> & D1 & G1 & K1). cbn [of_option mbind outcome_bind].
  unfold MAX_SUPPORTED_BLOB_LEN in *.
  destruct (set_bits_ok d1 LEN_LO LEN_HI len ltac:(done) ltac:(done) D1) as (d2 & -> & D2 & G2 & K2).
  { unfold in_u. change (2 ^ (LEN_HI - LEN_LO)) with 268435456. lia. }
  cbn [of_option mbind outcome_bind].
  destruct (set_bits_ok d2 POS_LO POS_HI (base + off) ltac:(done) ltac:(done) D2) as (d3 & -> & D3 & G3 & K3).
  { unfold in_u. change (2 ^ (POS_HI - POS_LO)) with 34359738368. lia. }
  cbn [of_option]. split; [|lia]. unfold unpack. rewrite G3. f_equal.
  - rewrite K3 by (try done; left; done). rewrite K2 by (try done; left; done). rewrite G1. by destruct init.
  - rewrite K3 by (try done; left; done). done.
Qed.
End entries.

(** ** The index *)

Lemma oget_in {V} k (v : V) (m : ordmap Z V) : osorted m -> oget k m = Some v <-> (k, v) ∈ m.
Proof.
  intros Hs. unfold oget. destruct (filter (fun e => e.1 = k) m) as [|[k' v'] l] eqn:E.
  - split; [done|]. intros Hin. exfalso. eapply not_elem_of_nil. rewrite <- E. apply list_elem_of_filter. split; [|exact Hin]. done.
  - assert ((k', v') ∈ filter (fun e => e.1 = k) m) as [Hk Hin]%list_elem_of_filter by (rewrite E; left). cbn in Hk. subst k'. cbn.
    split; [by intros [= <-]|]. intros Hv. f_equal. by apply (osorted_unique m k).
Qed.

Lemma oget_insert {V} k k' (v : V) (m : ordmap Z V) :
  osorted m -> oget k (oinsert k' v m) = if decide (k = k') then Some v else oget k m.
Proof.
  intros Hs. pose proof (oinsert_sorted k' v m Hs) as Hs'. case_decide as E.
  - subst k'. apply oget_in; [done|]. apply elem_of_oinsert; [done|]. by left.
  - destruct (oget k m) as [w|] eqn:Ew.
    + apply oget_in in Ew; [|done]. apply oget_in; [done|]. apply elem_of_oinsert; [done|]. by right.
    + destruct (oget k (oinsert k' v m)) as [w|] eqn:Ew'; [|done]. apply oget_in in Ew'; [|done].
      apply elem_of_oinsert in Ew' as [[= <- _]|[Hin _]]; [done| |done]. apply (oget_in k w m Hs) in Hin. congruence.
Qed.

(** [append_or_update_last] on a map in order. *)
Lemma append_or_update_ok {V} (vm : VecMap V) k v :
  vm_ok vm -> vm_ordering vm = Greater -> (forall e, last (vm_data vm) = Some e -> e.1 <= k) ->
  exists old vm', append_or_update_last vm k v = inr (old, vm') /\ vm_ok vm' /\ vm_ordering vm' = Greater
  /\ ((exists l e, vm_data vm = l ++ [e] /\ e.1 = k /\ vm_data vm' = l ++ [(k, v)])
      \/ ((forall e, last (vm_data vm) = Some e -> e.1 < k) /\ vm_data vm' = vm_data vm ++ [(k, v)])).
Proof.
  intros Hok Ho Hle. unfold append_or_update_last, vm_ok in *. rewrite Ho in *.
  destruct (vm_data vm) as [|e l _] using rev_ind.
  { cbn. eexists _, _. split_and!; [done|..]; cbn; [by repeat constructor|done|by right]. }
  rewrite last_snoc. destruct e as [lk lv]. specialize (Hle (lk, lv)). rewrite last_snoc in Hle. specialize (Hle eq_refl). cbn in Hle.
  destruct (Z.compare_spec k lk) as [->|Hlt|Hgt]; [| lia|].
  - eexists _, _. split_and!; [done|..]; cbn [vm_ordering vm_data].
    + cbn [length]. rewrite length_app, Nat.add_sub, take_app_length. apply StronglySorted_app_inv in Hok as (H1 & _ & H2). apply sorted_snoc; [done|].
      intros x Hx. apply last_Some_elem_of in Hx. apply (H2 x (lk, lv) Hx). by left.
    + done.
    + left. exists l, (lk, lv). by rewrite length_app, Nat.add_sub, take_app_length.
  - eexists _, _. split_and!; [done|..]; cbn [vm_ordering vm_data].
    + apply sorted_snoc; [done|]. intros x. rewrite last_snoc. intros [= <-]. cbn. lia.
    + done.
    + right. split; [|done]. by intros x [= <-].
Qed.

(** ** The values of the layer *)

Section view.
Context `{BF : !BitField}.

(** A value of the index, with the bytes it refers to. *)
Definition entry_at (data : list byte) (ck : Z) (le : Lsn * Z) : entry :=
  let u := unpack le.2 in
  mkEntry ck le.1 (ie_will_init u) (take (Z.to_nat (ie_len u)) (drop (Z.to_nat (ie_pos u)) data)).

Definition entries_of (data : list byte) (e : Z * VecMap Z) : list entry := map (entry_at data e.1) (vm_data e.2).

Definition vals (data : list byte) (index : ordmap Z (VecMap Z)) (ck : Z) : list entry :=
  match oget ck index with Some vm => entries_of data (ck, vm) | None => [] end.

(** Every entry of the index refers to bytes of the file. *)
Definition entry_within (data : list byte) (le : Lsn * Z) : Prop :=
  let u := unpack le.2 in
  in_u 64 le.1 /\ 0 <= ie_pos u /\ 0 < ie_len u <= MAX_SUPPORTED_BLOB_LEN /\ ie_pos u + ie_len u <= Z.of_nat (length data).

Record index_ok (data : list byte) (index : ordmap Z (VecMap Z)) : Prop := {
  ix_sorted : osorted index;
  ix_keys e : e ∈ index -> 0 <= e.1 < 2 ^ 127 /\ vm_ok e.2 /\ vm_ordering e.2 = Greater /\ vm_data e.2 <> []
    /\ Forall (entry_within data) (vm_data e.2)
}.

Lemma entry_at_app data more ck le : entry_within data le -> entry_at (data ++ more) ck le = entry_at data ck le.
Proof.
  intros (_ & H1 & H2 & H3). unfold entry_at. f_equal. rewrite drop_app_le, take_app_le by (rewrite ?length_drop; lia). done.
Qed.

Lemma index_ok_app data more index : index_ok data index -> index_ok (data ++ more) index.
Proof.
  intros [Hs Hk]. split; [done|]. intros e He. destruct (Hk e He) as (? & ? & ? & ? & Hf). do 4 (split; [done|]).
  eapply Forall_impl; [exact Hf|]. intros le (L1 & L2 & L3 & L4). unfold entry_within. rewrite length_app. split_and!; done || lia.
Qed.

Lemma vals_app data more index ck : index_ok data index -> vals (data ++ more) index ck = vals data index ck.
Proof.
  intros [Hs Hk]. unfold vals. destruct (oget ck index) as [vm|] eqn:E; [|done]. apply oget_in in E; [|done].
  destruct (Hk _ E) as (_ & _ & _ & _ & Hf). unfold entries_of. apply map_ext_in. intros le Hle%list_elem_of_In.
  apply entry_at_app. rewrite Forall_forall in Hf. auto.
Qed.
End view.

(** *** What putting values means *)

(** The newest value of a key is replaced when its LSN comes again. *)
Definition upsert (l : list entry) (e : entry) : list entry :=
  match last l with
  | Some x => if decide (en_lsn x = en_lsn e) then take (length l - 1) l ++ [e] else l ++ [e]
  | None => l ++ [e]
  end.

Definition put_entry (f : Z -> list entry) (e : entry) : Z -> list entry :=
  fun ck => if decide (ck = en_key e) then upsert (f ck) e else f ck.

(** LSNs of a key do not go back. *)
Fixpoint in_lsn_order (f : Z -> list entry) (es : list entry) : Prop :=
  match es with
  | [] => True
  | e :: es => (forall x, last (f (en_key e)) = Some x -> en_lsn x <= en_lsn e) /\ in_lsn_order (put_entry f e) es
  end.

Lemma in_lsn_order_ext es : forall f g, (forall ck, f ck = g ck) -> in_lsn_order f es -> in_lsn_order g es.
Proof.
  induction es as [|e es IH]; intros f g Hfg H; [done|]. destruct H as [H1 H2]. split; [by rewrite <- Hfg|].
  apply (IH (put_entry f e)); [|done]. intros ck. unfold put_entry. by rewrite Hfg.
Qed.

Lemma fold_put_ext es : forall f g, (forall ck, f ck = g ck) -> forall ck, fold_left put_entry es f ck = fold_left put_entry es g ck.
Proof.
  induction es as [|e es IH]; intros f g Hfg ck; [done|]. cbn. apply IH. intros c. unfold put_entry. by rewrite Hfg.
Qed.

Definition entry_ok (e : entry) : Prop := 0 <= en_key e < 2 ^ 127 /\ in_u 64 (en_lsn e) /\ (0 < length (en_data e))%nat.

(** ** Putting a batch *)

Lemma wp_map_err {E E' S A} (f : E -> E') (m : M E S A) (Q : outcome E' A -> S -> Prop) s :
  wp m (fun o s' => Q (match o with Ok a => Ok a | Err e => Err (f e) | Panic => Panic end) s') s -> wp (map_err f m) Q s.
Proof. unfold wp, map_err. by destruct (m s) as [[a|e|] s']. Qed.

Section put.
Context `{BF : !BitField, BFL : !BitFieldLaws}.

Lemma last_map {A B} (f : A -> B) l : last (map f l) = f <$> last l.
Proof. apply (fmap_last f). Qed.

Lemma map_upsert data ck (l : list (Lsn * Z)) le :
  upsert (map (entry_at data ck) l) (entry_at data ck le)
  = map (entry_at data ck)
      (match last l with
       | Some x => if decide (x.1 = le.1) then take (length l - 1) l ++ [le] else l ++ [le]
       | None => l ++ [le]
       end).
Proof.
  unfold upsert. rewrite last_map. destruct (last l) as [x|]; cbn [fmap option_fmap option_map].
  - cbn [entry_at en_lsn]. rewrite length_map. case_decide; rewrite map_app; [|done]. by rewrite <- firstn_map.
  - by rewrite map_app.
Qed.

Lemma in_oinsert_cases {V} (k : Z) (v : V) m e : osorted m -> e ∈ oinsert k v m -> e = (k, v) \/ e ∈ m.
Proof. intros Hs He. apply elem_of_oinsert in He as [->|[He _]]; [by left|by right|done]. Qed.

(** Adding one value to the index. *)
Lemma index_add_ok data index ck lsn e :
  index_ok data index -> 0 <= ck < 2 ^ 127 -> entry_within data (lsn, e) ->
  (forall x, last (vals data index ck) = Some x -> en_lsn x <= lsn) ->
  exists old vm', append_or_update_last (default vm_default (oget ck index)) lsn e = inr (old, vm')
  /\ index_ok data (oinsert ck vm' index)
  /\ forall c, vals data (oinsert ck vm' index) c = put_entry (vals data index) (entry_at data ck (lsn, e)) c.
Proof.
  intros [Hs Hk] Hck He Hlast. set (vm := default vm_default (oget ck index)).
  assert (vm_ok vm /\ vm_ordering vm = Greater /\ Forall (entry_within data) (vm_data vm)
    /\ vals data index ck = map (entry_at data ck) (vm_data vm)) as (V1 & V2 & V3 & V4).
  { unfold vm, vals. destruct (oget ck index) as [v|] eqn:E; cbn [default]; [|by split_and!; [constructor|..]].
    apply oget_in in E; [|done]. destruct (Hk _ E) as (_ & ? & ? & _ & ?). by split_and!. }
  rewrite V4 in Hlast.
  destruct (append_or_update_ok vm lsn e V1 V2) as (old & vm' & E & W1 & W2 & W3).
  { intros x Hx. specialize (Hlast (entry_at data ck x)). rewrite last_map, Hx in Hlast. by apply Hlast. }
  exists old, vm'. split; [done|].
  assert (vm_data vm' <> [] /\ Forall (entry_within data) (vm_data vm')) as [W4 W5].
  { destruct W3 as [(l & x & Hd & _ & ->)|[_ ->]].
    - split; [by destruct l|]. rewrite Hd in V3. apply Forall_app in V3 as [V3 _]. apply Forall_app. by rewrite Forall_singleton.
    - split; [by destruct (vm_data vm)|]. apply Forall_app. by rewrite Forall_singleton. }
  split.
  - split; [by apply oinsert_sorted|]. intros x [->|Hx]%in_oinsert_cases; [done|by apply Hk|done].
  - intros c. unfold vals, put_entry. rewrite oget_insert by done. cbn [en_key entry_at]. case_decide as Ec; [|done]. subst c.
    fold (vals data index ck). rewrite V4. unfold entries_of. cbn [fst snd]. fold (entry_at data ck (lsn, e)). rewrite map_upsert. f_equal.
    destruct W3 as [(l & x & Hd & Hx & ->)|[Hlt ->]].
    + rewrite Hd, last_snoc. cbn [fst]. rewrite decide_True by done. by rewrite length_app, Nat.add_sub, take_app_length.
    + destruct (last (vm_data vm)) as [x|] eqn:El; [|done]. specialize (Hlt x eq_refl). cbn [fst]. rewrite decide_False by lia. done.
Qed.

(** The loop over the metadata: [data] is the file with the batch in it. *)
Lemma put_metas_ok base raw metas : forall data pre self,
  data = pre ++ raw -> base = Z.of_nat (length pre) -> Forall (meta_within raw) metas ->
  Forall entry_ok (concat (map (meta_entries raw) metas)) -> index_ok data (il_index self) ->
  in_lsn_order (vals data (il_index self)) (concat (map (meta_entries raw) metas)) ->
  wp (put_metas base metas) (fun r self' =>
    match r with
    | Ok _ => index_ok data (il_index self') /\ il_file self' = il_file self /\ il_start_lsn self' = il_start_lsn self
        /\ il_end_lsn self' = il_end_lsn self /\ il_timeline_id self' = il_timeline_id self
        /\ il_tenant_shard_id self' = il_tenant_shard_id self
        /\ forall ck, vals data (il_index self') ck
             = fold_left put_entry (concat (map (meta_entries raw) metas)) (vals data (il_index self)) ck
    | Err _ => MAX_SUPPORTED_POS < Z.of_nat (length data)
               \/ List.Exists (fun e => MAX_SUPPORTED_BLOB_LEN < Z.of_nat (length (en_data e))) (concat (map (meta_entries raw) metas))
    | Panic => False
    end) self.
Proof.
  induction metas as [|[ser|k l] metas IH]; intros data pre self Hdata Hbase Hw He Hix Hord.
  - cbn. wp_step. by split_and!.
  - apply Forall_cons in Hw as [(W1 & W2 & W3) Hw]. cbn [map concat meta_entries app] in *. apply Forall_cons in He as [(E1 & E2 & E3) He].
    cbn [en_key en_lsn en_data] in E1, E2, E3. destruct Hord as [Hord1 Hord]. cbn [en_key en_lsn] in Hord1.
    rewrite length_take, length_drop in E3. cbn [put_metas]. wp_step.
    pose proof (index_entry_new_ok base (sm_batch_offset ser) (sm_len ser) (sm_will_init ser) ltac:(lia) W1 W2) as Hnew.
    apply wp_map_err, wp_lift. destruct (index_entry_new base _ _ _) as [e|msg|]; [| |done].
    2: { destruct Hnew as [Hnew|Hnew]; [left|right; left]; rewrite ?Hdata, ?length_app; cbn [en_data]; rewrite ?length_take, ?length_drop; lia. }
    destruct Hnew as (Hu & Hp & Hlen).
    assert (entry_at data (sm_key ser) (sm_lsn ser, e)
      = mkEntry (sm_key ser) (sm_lsn ser) (sm_will_init ser) (take (Z.to_nat (sm_len ser)) (drop (Z.to_nat (sm_batch_offset ser)) raw))) as Hent.
    { unfold entry_at. cbn [fst snd]. rewrite Hu. cbn [ie_will_init ie_len ie_pos]. do 2 f_equal. rewrite Hdata, drop_app_ge by lia. f_equal. lia. }
    destruct (index_add_ok data (il_index self) (sm_key ser) (sm_lsn ser) e Hix E1) as (old & vm' & Ea & Hix' & Hv); [|done|].
    { unfold entry_within. cbn [fst snd]. rewrite Hu. cbn [ie_pos ie_len]. rewrite Hdata, length_app. unfold in_u in *. lia. }
    wp_step. wp_step. rewrite Ea. cbn [unwrap]. wp_step. wp_step. wp_step. wp_step. rewrite Hent in Hv.
    eapply wp_mono; [apply (IH data pre); try done|].
    { cbn [il_index with_index]. eapply in_lsn_order_ext; [|exact Hord]. done. }
    cbn beta. cbn [il_index with_index il_file il_start_lsn il_end_lsn il_timeline_id il_tenant_shard_id].
    intros [u|msg|] self' H; [|destruct H; [by left|right; by right]|done]. destruct H as (I1 & I2 & I3 & I4 & I5 & I6 & I7).
    split_and!; try done. intros c. rewrite I7. cbn [fold_left]. by apply fold_put_ext.
  - apply Forall_cons in Hw as [_ Hw]. cbn [map concat meta_entries app] in *. by apply (IH data pre).
Qed.
Lemma write_raw_run ss src ef data :
  ef_run ef data ->
  wp (write_raw ss src) (fun r ef' => match r with Ok _ => ef_run ef' (data ++ src) | Err _ => True | Panic => False end) ef.
Proof.
  intros Hrun. pose proof (write_raw_ok ss src ef data (ef_run_ok _ _ Hrun)) as H. unfold wp in *.
  destruct (write_raw ss src ef) as [[pos|e|] ef'] eqn:E; [|done|by destruct H]. by eapply run_write.
Qed.

(** The layer, with the bytes of its file. *)
Record layer_ok (self : InMemoryLayer) (data : list byte) : Prop := {
  lo_file : ef_run (il_file self) data;
  lo_size : Z.of_nat (length data) <= u64_max;
  lo_index : index_ok data (il_index self)
}.

Definition layer_vals (self : InMemoryLayer) (data : list byte) : Z -> list entry := vals data (il_index self).

(** What a batch must be for the layer to take it. *)
Record batch_fits (self : InMemoryLayer) (data : list byte) (b : SerializedValueBatch) : Prop := {
  bf_ok : batch_ok b;
  bf_entries : Forall entry_ok (contents b);
  bf_size : Z.of_nat (length data + length (sb_raw b)) <= u64_max;
  bf_order : in_lsn_order (layer_vals self data) (contents b)
}.

Lemma put_batch_ok ss b self data :
  layer_ok self data -> il_end_lsn self = None -> batch_fits self data b ->
  wp (put_batch ss b) (fun r self' =>
    match r with
    | Ok _ => layer_ok self' (data ++ sb_raw b) /\ il_start_lsn self' = il_start_lsn self /\ il_end_lsn self' = None
        /\ il_timeline_id self' = il_timeline_id self /\ il_tenant_shard_id self' = il_tenant_shard_id self
        /\ forall ck, layer_vals self' (data ++ sb_raw b) ck = fold_left put_entry (contents b) (layer_vals self data) ck
    | Err (PbOther _) => MAX_SUPPORTED_POS < Z.of_nat (length (data ++ sb_raw b))
        \/ List.Exists (fun e => MAX_SUPPORTED_BLOB_LEN < Z.of_nat (length (en_data e))) (contents b)
    | Err (PbFlush _) => True
    | Panic => False
    end) self.
Proof.
  intros [Hf Hsz Hix] Hend [B1 B2 B3 B4]. unfold put_batch, assert_writable. pose proof (ef_run_ok _ _ Hf) as Hok.
  assert (ef_len (il_file self) = Z.of_nat (length data)) as Hlen by apply Hok.
  wp_step. wp_step. wp_step. rewrite Hend. wp_step; [|done]. wp_step. wp_step. rewrite Hlen. wp_step. apply wp_map_err, wp_zoom.
  eapply wp_mono; [by apply (write_raw_run ss (sb_raw b) _ data)|]. cbn beta. intros [pos|e|] ef' Hw; [|done|done].
  assert (ef_len ef' = Z.of_nat (length (data ++ sb_raw b))) as Hlen' by apply (ef_run_ok _ _ Hw).
  rewrite length_app in Hlen'. wp_step. wp_step. cbn [il_file with_file]. wp_step. rewrite bool_decide_true by lia. wp_step; [|done].
  wp_step. rewrite bool_decide_true by lia. wp_step; [|done].
  eapply wp_mono; [apply (put_metas_ok _ (sb_raw b) _ (data ++ sb_raw b) data (with_file ef' self)); try done|].
  - cbn [il_index with_file]. by apply index_ok_app.
  - cbn [il_index with_file]. eapply in_lsn_order_ext; [|exact B4]. intros ck. unfold layer_vals. by rewrite vals_app.
  - cbn beta. cbn [il_index il_file il_start_lsn il_end_lsn il_timeline_id il_tenant_shard_id with_file].
    intros [u|[e|msg]|] self' Hm; [|done|done|done]. destruct Hm as (I1 & I2 & I3 & I4 & I5 & I6 & I7). split_and!; try congruence.
    + split; [by rewrite I2|rewrite length_app; lia|done].
    + intros ck. unfold layer_vals. rewrite I7. apply fold_put_ext. intros c. by apply vals_app.
Qed.
End put.
