(* ===== verification/InMemoryReadFacts.v ===== *)
(** * Reading an in-memory layer

    A read of the layer delivers, for each key of the key space, its values in the
    range of LSNs from the newest down to the first that initializes the page, in
    whatever order the hash map of reads is iterated over. *)

From stdpp Require Import sorting.
From S2P Require Import Prelude Lsn XlogUtils Key Shard KeySpace KeySpaceFacts KeySpaceSets OrdMap LayerCoverage LayerName.
From S2P Require Import DiskBtree VecMap BlobIo ReconstructState LayerFile ReconstructFacts LayerFileFacts LayerReadFacts LayerWriteFacts.
From S2P Require Import EphemeralFile EphemeralFacts DioRead DioReadFacts SerializedBatch InMemoryLayer InMemoryFacts.

(** ** Completing I/Os in any order *)

(** What is delivered for a key and an LSN. *)
Abbreviation outcome_of := (Key * Lsn * OnDiskValueIoResult)%type.

Fixpoint complete_list (l : list outcome_of) (ios : io_map) (st : ValuesReconstructState) : option (io_map * ValuesReconstructState) :=
  match l with
  | [] => Some (ios, st)
  | (k, res) :: l => '(io, ios) ← ios_remove k ios; complete_list l ios (io_complete io res st)
  end.

(** Different keys have different channels. *)
Definition ios_distinct (ios : io_map) : Prop :=
  forall e1 e2 tx, e1 ∈ ios -> e2 ∈ ios -> e1.2 = Required tx -> e2.2 = Required tx -> e1.1 = e2.1.

Lemma ios_remove_sub k ios io ios' :
  ios_remove k ios = Some (io, ios') -> (k, io) ∈ ios /\ ios' = filter (fun e => e.1 <> k) ios.
Proof.
  unfold ios_remove. destruct (filter (fun e => e.1 = k) ios) as [|e l] eqn:E; [done|]. intros [= <- <-]. split; [|done].
  assert (e ∈ filter (fun e => e.1 = k) ios) as [Hk Hin]%list_elem_of_filter by (rewrite E; left). destruct e. cbn in *. by subst.
Qed.

Lemma ios_remove_other k k' ios : k <> k' ->
  ios_remove k (filter (fun e => e.1 <> k') ios)
  = ('(io, ios') ← ios_remove k ios; Some (io, filter (fun e => e.1 <> k') ios')).
Proof.
  intros Hne. unfold ios_remove. rewrite !list_filter_filter.
  rewrite (list_filter_iff (fun e : Key * Lsn * OnDiskValueIo => e.1 = k /\ e.1 <> k') (fun e => e.1 = k)) by (intros e; naive_solver).
  destruct (filter (fun e => e.1 = k) ios) as [|e l]; [done|]. cbn. do 2 f_equal. rewrite list_filter_filter.
  apply list_filter_iff. intros x. tauto.
Qed.

Lemma io_complete_comm io1 io2 r1 r2 st :
  (forall tx, io1 = Required tx -> io2 = Required tx -> False) ->
  io_complete io1 r1 (io_complete io2 r2 st) = io_complete io2 r2 (io_complete io1 r1 st).
Proof.
  intros H. destruct io1 as [a|], io2 as [b|]; try done. cbn. rewrite list_insert_insert_ne; [done|].
  intros E. subst. by eapply H.
Qed.

Lemma distinct_filter k ios : ios_distinct ios -> ios_distinct (filter (fun e => e.1 <> k) ios).
Proof. intros H e1 e2 tx [_ H1]%list_elem_of_filter [_ H2]%list_elem_of_filter. by apply H. Qed.

Lemma complete_perm l l' : l ≡ₚ l' -> NoDup (map fst l) -> forall ios st,
  ios_distinct ios -> complete_list l ios st = complete_list l' ios st.
Proof.
  induction 1 as [|[k r] l l' Hp IH|[k1 r1] [k2 r2] l|l1 l2 l3 H1 IH1 H2 IH2]; intros Hnd ios st Hd.
  - done.
  - cbn [map] in Hnd. apply NoDup_cons in Hnd as [_ Hnd]. cbn [complete_list].
    destruct (ios_remove k ios) as [[io ios']|] eqn:E; [|done]. cbn [mbind option_bind].
    apply ios_remove_sub in E as [_ ->]. apply IH; [done|by apply distinct_filter].
  - cbn [map fst] in Hnd. apply NoDup_cons in Hnd as [Hn _]. assert (k1 <> k2) as Hne by (intros ->; apply Hn; left).
    cbn [complete_list].
    destruct (ios_remove k1 ios) as [[io1 ios1]|] eqn:E1, (ios_remove k2 ios) as [[io2 ios2]|] eqn:E2; cbn [mbind option_bind].
    + pose proof E1 as [I1 ->]%ios_remove_sub. pose proof E2 as [I2 ->]%ios_remove_sub.
      rewrite (ios_remove_other k2 k1), E2, (ios_remove_other k1 k2), E1 by done. cbn [mbind option_bind].
      rewrite list_filter_filter, list_filter_filter.
      rewrite (list_filter_iff (fun e : Key * Lsn * OnDiskValueIo => e.1 <> k1 /\ e.1 <> k2) (fun e => e.1 <> k2 /\ e.1 <> k1)) by (intros x; tauto).
      rewrite (io_complete_comm io2 io1); [done|]. intros tx -> ->. apply Hne. symmetry. by apply (Hd _ _ tx I2 I1).
    + pose proof E1 as [I1 ->]%ios_remove_sub. rewrite (ios_remove_other k2 k1), E2 by done. done.
    + pose proof E2 as [I2 ->]%ios_remove_sub. rewrite (ios_remove_other k1 k2), E1 by done. done.
    + done.
  - rewrite IH1 by done. apply IH2; [|done]. by rewrite <- (Permutation_map fst H1).
Qed.

(** Updating all keys first and completing them in order later. *)
Section two_phase.
Context {A : Type} (completes : BlobMeta -> bool) (blob : A -> Z * BlobMeta) (value : A -> OnDiskValue).

Definition value_update (x : A) : update :=
  mkUpdate (bm_key (blob x).2) (bm_lsn (blob x).2) (completes (blob x).2) (value x).

Lemma two_phase_values xs :
  NoDup (map (fun x => blob_key (blob x).2) xs) -> forall st st',
  push_list (map value_update xs) st = Some st' ->
  exists ios st1, update_blobs completes (map blob xs) [] st = Some (ios, st1)
  /\ complete_list (map (fun x => (blob_key (blob x).2, inr (value x))) xs) ios st1 = Some ([], st').
Proof.
  induction xs as [|x xs IH]; intros Hd st st' Hp.
  - injection Hp as <-. by exists [], st.
  - cbn [map] in Hd. apply NoDup_cons in Hd as [Hn Hd]. cbn [map push_list] in Hp. unfold push_update in Hp.
    cbn [value_update up_key up_lsn up_completes up_value] in Hp. cbn [map update_blobs].
    destruct (blob x) as [o meta] eqn:Ex. cbn [snd] in *.
    destruct (update_key (bm_key meta) (bm_lsn meta) (completes meta) st) as [[io sta]|] eqn:Eu; [|done].
    cbn [mbind option_bind] in *. destruct (IH Hd _ _ Hp) as (ios & st1 & E1 & E2).
    rewrite update_blobs_commutes in E1 by by eapply update_channels.
    destruct (update_blobs completes (map blob xs) [] sta) as [[ios' st1a]|] eqn:E3; [|done]. cbn in E1. injection E1 as -> <-.
    assert (forall b, b ∈ map blob xs -> blob_key b.2 ∉ map fst [(blob_key meta, io)]) as Hfresh.
    { intros b (y & -> & Hy)%list_elem_of_fmap_1 Hin. apply list_elem_of_singleton in Hin. cbn in Hin. apply Hn. rewrite <- Hin.
      by apply (list_elem_of_fmap_2 (fun x => blob_key (blob x).2)). }
    destruct (update_blobs_ios completes (map blob xs) [(blob_key meta, io)] sta ios st1a E3) as [E4 E5]; [by rewrite map_map|done|].
    rewrite map_map in E5.
    exists ((blob_key meta, io) :: ios), st1a. split; [exact E4|]. cbn [map complete_list snd].
    assert (ios_remove (blob_key meta) ((blob_key meta, io) :: ios) = Some (io, ios)) as ->.
    { unfold ios_remove. rewrite (filter_cons_True _ (blob_key meta, io)) by done. cbn [snd].
      rewrite filter_cons_False by (cbn; tauto). rewrite filter_all; [done|]. intros e He Heq. apply Hn. rewrite <- E5, <- Heq.
      apply list_elem_of_In, in_map_iff. exists e. split; [done|by apply list_elem_of_In]. }
    done.
Qed.

(** The channels of the I/Os are all new ones. *)
Lemma update_key_required k lsn c st tx st' :
  update_key k lsn c st = Some (Required tx, st') -> tx = length (vs_channels st) /\ length (vs_channels st') = S tx.
Proof.
  unfold update_key. destruct (vv_situation _).
  - destruct (is_sparse k); [|done]. by intros [=].
  - destruct (if c && negb (is_sparse k) then _ else _); [|done]. cbn. intros [= <- <-]. cbn. rewrite length_app. cbn. lia.
Qed.

Lemma update_blobs_distinct blobs : forall ios st ios1 st1,
  update_blobs completes blobs ios st = Some (ios1, st1) ->
  (forall e tx, e ∈ ios -> e.2 = Required tx -> (tx < length (vs_channels st))%nat) -> ios_distinct ios -> ios_distinct ios1.
Proof.
  induction blobs as [|[o meta] blobs IH]; intros ios st ios1 st1 E Hb Hd; cbn [update_blobs] in E; [by injection E as <- <-|].
  destruct (update_key (bm_key meta) (bm_lsn meta) (completes meta) st) as [[io st']|] eqn:Eu; [|done]. cbn [mbind option_bind] in E.
  pose proof (update_channels _ _ _ _ _ _ Eu) as [Hle _].
  apply IH in E; [done|..].
  - intros e tx He Het. unfold ios_insert in He. apply elem_of_app in He as [[_ He]%list_elem_of_filter|He%list_elem_of_singleton].
    + specialize (Hb e tx He Het). lia.
    + subst e. cbn in Het. subst io. apply update_key_required in Eu as [-> ->]. lia.
  - intros e1 e2 tx H1 H2 T1 T2. unfold ios_insert in H1, H2.
    apply elem_of_app in H1 as [[_ H1]%list_elem_of_filter|H1%list_elem_of_singleton],
      H2 as [[_ H2]%list_elem_of_filter|H2%list_elem_of_singleton].
    + by apply (Hd e1 e2 tx).
    + subst e2. cbn in T2. subst io. apply update_key_required in Eu as [-> _]. specialize (Hb e1 _ H1 T1). lia.
    + subst e1. cbn in T1. subst io. apply update_key_required in Eu as [-> _]. specialize (Hb e2 _ H2 T2). lia.
    + by subst.
Qed.
End two_phase.

(** ** The plan *)

Record item := mkItem { it_key : Key; it_lsn : Lsn; it_init : bool; it_pos : Z; it_len : Z }.

Definition item_read (it : item) : LogicalRead := logical_read_new (it_pos it) (vec_with_capacity (Z.to_nat (it_len it))).
Definition item_blob (it : item) : Z * BlobMeta := (it_pos it, mkBlobMeta (it_key it) (it_lsn it) (it_init it)).
Definition item_value (it : item) : Key * Lsn * LogicalRead := (it_key it, it_lsn it, item_read it).

Definition push_read (reads : reads_map) (it : item) : reads_map := reads_push (it_key it) (mkValueRead (it_lsn it) (item_read it)) reads.

Fixpoint push_items (its : list item) (p : read_plan) : option read_plan :=
  match its with
  | [] => Some p
  | it :: its =>
      let '(reads, ios, st) := p in
      '(io, st) ← update_key (it_key it) (it_lsn it) (it_init it) st;
      push_items its (push_read reads it, ios_insert (it_key it, it_lsn it) io ios, st)
  end.

Lemma push_items_app its1 its2 : forall p, push_items (its1 ++ its2) p = (p ← push_items its1 p; push_items its2 p).
Proof.
  induction its1 as [|it its1 IH]; intros p; [done|]. destruct p as [[reads ios] st]. cbn [app push_items].
  destruct (update_key _ _ _ st) as [[io st']|]; [|done]. cbn [mbind option_bind]. apply IH.
Qed.

Lemma push_items_blobs its : forall reads ios st,
  push_items its (reads, ios, st)
  = ('(ios, st) ← update_blobs bm_will_init (map item_blob its) ios st; Some (fold_left push_read its reads, ios, st)).
Proof.
  induction its as [|it its IH]; intros reads ios st; [done|]. cbn [push_items map update_blobs item_blob bm_key bm_lsn bm_will_init fold_left].
  destruct (update_key _ _ _ st) as [[io st']|]; [|done]. cbn [mbind option_bind]. apply IH.
Qed.

Lemma planned_push key v reads : planned_values (reads_push key v reads) ≡ₚ planned_values reads ++ [(key, vd_entry_lsn v, vd_read v)].
Proof.
  unfold planned_values. induction reads as [|[k vs] reads IH]; [done|]. cbn [reads_push]. case_decide as E; cbn [map concat fst snd].
  - subst k. rewrite map_app, <- !app_assoc. cbn. f_equiv. apply Permutation_cons_append.
  - by rewrite IH, app_assoc.
Qed.

Lemma planned_fold its : forall reads, planned_values (fold_left push_read its reads) ≡ₚ planned_values reads ++ map item_value its.
Proof.
  induction its as [|it its IH]; intros reads; cbn [fold_left map]; [by rewrite app_nil_r|].
  rewrite IH. unfold push_read. rewrite planned_push. cbn. by rewrite <- app_assoc.
Qed.

Lemma planned_order (order : reads_map -> reads_map) reads : order reads ≡ₚ reads -> planned_values (order reads) ≡ₚ planned_values reads.
Proof. intros H. unfold planned_values. by rewrite H. Qed.

Section plan.
Context `{BF : !BitField}.

Definition item_of (key : Key) (le : Lsn * Z) : item :=
  let u := unpack le.2 in mkItem key le.1 (ie_will_init u) (ie_pos u) (ie_len u).

Definition key_items (lr : Range Lsn) (e : Z * VecMap Z) : list item :=
  until_init it_init (map (item_of (from_i128 e.1)) (rev (filter (fun le => start lr <= le.1 /\ le.1 < end_ lr) (vm_data e.2)))).

Definition range_items_of (index : ordmap Z (VecMap Z)) (lr : Range Lsn) (r : KRange) : list item :=
  concat (map (key_items lr) (orange (i128_bits (start r)) (i128_bits (end_ r)) index)).

Definition all_items (index : ordmap Z (VecMap Z)) (lr : Range Lsn) (rgs : list KRange) : list item :=
  concat (map (range_items_of index lr) rgs).

Lemma plan_entries_items key entries : forall p,
  plan_entries key entries p = push_items (until_init it_init (map (item_of key) entries)) p.
Proof.
  induction entries as [|[lsn e] entries IH]; intros [[reads ios] st]; [done|].
  cbn [plan_entries map until_init push_items item_of fst snd it_init it_key it_lsn].
  destruct (update_key _ _ _ st) as [[io st']|]; [|done]. cbn [mbind option_bind].
  destruct (ie_will_init (unpack e)); [done|apply IH].
Qed.

Lemma slice_range_filter {V} (vm : VecMap V) a b :
  vm_ok vm -> vm_ordering vm = Greater -> a <= b ->
  slice_range vm (Included a) (Excluded b) = Some (filter (fun e => a <= e.1 /\ e.1 < b) (vm_data vm)).
Proof.
  intros Hok Ho Hab. unfold slice_range. destruct (place_bounds vm a Ho Hok) as [-> _]. destruct (place_bounds vm b Ho Hok) as [-> _].
  unfold vm_ok in Hok. rewrite Ho in Hok. destruct (slice_between _ a b Hok Hab) as [Hle Hsl]. by rewrite decide_True, Hsl.
Qed.

Lemma plan_keys_items lr l : forall p,
  start lr <= end_ lr -> Forall (fun e => vm_ok e.2 /\ vm_ordering e.2 = Greater) l ->
  plan_keys lr l p = push_items (concat (map (key_items lr) l)) p.
Proof.
  induction l as [|[ck vm] l IH]; intros p Hlr Hf; [done|]. apply Forall_cons in Hf as [[H1 H2] Hf]. cbn [fst snd] in *.
  cbn [plan_keys map concat]. rewrite slice_range_filter by done. cbn [mbind option_bind]. rewrite plan_entries_items, push_items_app.
  unfold key_items at 1. cbn [fst snd]. destruct (push_items _ p) as [p'|]; [|done]. cbn [mbind option_bind]. by apply IH.
Qed.

(** Ranges whose bounds are those of compact keys. *)
Definition il_compact_range (r : KRange) : Prop := range_ok r /\ key_compact (start r) /\ key_compact (end_ r).

Lemma il_compact_range_bits r : il_compact_range r -> i128_bits (start r) < i128_bits (end_ r).
Proof.
  intros ([[Ws We] Hlt] & Cs & Ce). pose proof (i128_bits_mono _ _ Ws Cs We Ce) as H. unfold rs, re in Hlt.
  destruct (Z.compare_spec (key_Z (start r)) (key_Z (end_ r))); destruct (Z.compare_spec (i128_bits (start r)) (i128_bits (end_ r))); done || lia.
Qed.

Lemma plan_ranges_items data index lr rgs : forall p,
  index_ok data index -> start lr <= end_ lr -> Forall il_compact_range rgs ->
  plan_key_ranges index lr rgs p = push_items (all_items index lr rgs) p.
Proof.
  induction rgs as [|r rgs IH]; intros p Hix Hlr Hr; [done|]. apply Forall_cons in Hr as [Hc Hr]. cbn [plan_key_ranges].
  pose proof (il_compact_range_bits r Hc) as Hlt. destruct Hc as (_ & Cs & Ce). rewrite !to_i128_compact by done. cbn [mbind option_bind].
  rewrite bool_decide_true by lia. cbn [ensure mbind option_bind]. rewrite plan_keys_items; [|done|].
  - unfold all_items. cbn [map concat]. rewrite push_items_app. fold (range_items_of index lr r).
    destruct (push_items (range_items_of index lr r) p) as [p'|]; [|done]. cbn [mbind option_bind]. by apply IH.
  - apply Forall_forall. intros e [_ He]%list_elem_of_filter. destruct (ix_keys _ _ Hix e He) as (_ & ? & ? & _). done.
Qed.
End plan.

(** ** What the plan holds of a key *)

Lemma list_filter_concat {A} (P : A -> Prop) `{!forall x, Decision (P x)} (l : list (list A)) :
  filter P (concat l) = concat (map (filter P) l).
Proof. induction l as [|x l IH]; [done|]. cbn [concat map]. by rewrite filter_app, IH. Qed.

Lemma until_init_sub {A} (init : A -> bool) l : until_init init l `sublist_of` l.
Proof.
  induction l as [|x l IH]; [done|]. cbn. constructor. destruct (init x); [apply sublist_nil_l|done].
Qed.

(** Only the last one may initialize the page. *)
Lemma until_init_ends {A} (init : A -> bool) l : forall l1 x l2, until_init init l = l1 ++ x :: l2 -> init x = true -> l2 = [].
Proof.
  induction l as [|y l IH]; intros l1 x l2 E Hx; [by destruct l1|]. cbn in E. destruct l1 as [|z l1]; injection E as -> E.
  - by rewrite Hx in E.
  - destruct (init z); [by destruct l1|]. by eapply IH.
Qed.

Lemma NoDup_by_key {A K L} `{!EqDecision K} (key : A -> K) (g : A -> L) (l : list A) :
  (forall k, NoDup (map g (filter (fun x => key x = k) l))) -> NoDup (map (fun x => (key x, g x)) l).
Proof.
  induction l as [|x l IH]; intros H; [constructor|]. cbn [map]. constructor.
  - intros (y & E & Hy)%list_elem_of_fmap_1. injection E as E1 E2. specialize (H (key x)). rewrite filter_cons_True in H by done.
    cbn [map] in H. apply NoDup_cons in H as [Hn _]. apply Hn. rewrite E2. apply list_elem_of_fmap_2, list_elem_of_filter. by split.
  - apply IH. intros k. specialize (H k). rewrite filter_cons in H. case_decide; [|done]. cbn in H. by apply NoDup_cons in H as [_ ?].
Qed.

Section deliver.
Context `{BF : !BitField}.
Context (data : list byte) (index : ordmap Z (VecMap Z)) (Hix : index_ok data index).

Definition keyed (k : Key) : list (Z * VecMap Z) := filter (fun e => from_i128 e.1 = k) index.

Lemma keyed_cases k : keyed k = [] \/ exists e, keyed k = [e] /\ e ∈ index.
Proof using Hix.
  unfold keyed. pose proof (ix_sorted _ _ Hix) as Hs.
  pose proof (fun e He => proj1 (ix_keys _ _ Hix e He)) as Hk. revert Hs Hk. generalize index. clear.
  intros l Hs Hk. induction l as [|[c v] l IH]; [by left|]. apply osorted_cons in Hs as [Hf Hs]. rewrite filter_cons. cbn [fst]. case_decide as E.
  - right. exists (c, v). split; [|left]. f_equal. apply filter_none. intros e He Hek. rewrite Forall_forall in Hf. specialize (Hf e He).
    assert (e.1 = c) as Hec.
    { apply from_i128_inj; [apply Hk; by right|apply (Hk (c, v)); left|congruence]. }
    rewrite Hec in Hf. by apply klt_irrefl in Hf.
  - destruct IH as [->|(e & -> & He)]; [done|intros e He; apply Hk; by right|by left|]. right. exists e. split; [done|by right].
Qed.

Lemma key_items_key lr e it : it ∈ key_items lr e -> it_key it = from_i128 e.1.
Proof.
  intros H. eapply elem_of_sublist in H; [|apply until_init_sub]. by apply list_elem_of_fmap_1 in H as (le & -> & _).
Qed.

Lemma filter_key_items lr e k : filter (fun it => it_key it = k) (key_items lr e) = if decide (from_i128 e.1 = k) then key_items lr e else [].
Proof.
  case_decide as E.
  - apply filter_all. intros it Hit. by rewrite (key_items_key lr e it Hit).
  - apply filter_none. intros it Hit Hk. apply E. by rewrite <- (key_items_key lr e it Hit).
Qed.

Lemma orange_Z {V} a b (m : ordmap Z V) : orange a b m = filter (fun e => a <= e.1 /\ e.1 < b) m.
Proof. unfold orange. apply list_filter_iff. intros e. unfold kle, klt. cbn [kcmp Z_order]. rewrite Z.compare_lt_iff. done. Qed.

Lemma range_items_key lr r k : il_compact_range r ->
  filter (fun it => it_key it = k) (range_items_of index lr r)
  = if decide (in_range r (key_Z k)) then concat (map (key_items lr) (keyed k)) else [].
Proof using Hix.
  intros ([[Ws We] _] & Cs & Ce). unfold range_items_of, keyed. rewrite orange_Z, list_filter_concat, map_map.
  assert (forall e, e ∈ index -> from_i128 e.1 = k -> (i128_bits (start r) <= e.1 /\ e.1 < i128_bits (end_ r)) <-> in_range r (key_Z k)) as Hin.
  { intros e He <-. destruct (ix_keys _ _ Hix e He) as [Hr _]. destruct (from_i128_wf e.1) as [Wk Ck].
    pose proof (i128_bits_mono _ _ Ws Cs Wk Ck) as H1. pose proof (i128_bits_mono _ _ Wk Ck We Ce) as H2.
    rewrite i128_bits_from_i128 in H1, H2 by done. unfold in_range, rs, re. rewrite <- Z.compare_le_iff, <- Z.compare_lt_iff, H1, H2.
    by rewrite Z.compare_le_iff, Z.compare_lt_iff. }
  clear Hix. induction index as [|e l IH]; [by destruct (decide _)|].
  assert (forall e', e' ∈ l -> from_i128 e'.1 = k -> (i128_bits (start r) <= e'.1 /\ e'.1 < i128_bits (end_ r)) <-> in_range r (key_Z k)) as Hin'
    by (intros e' He'; apply Hin; by right). specialize (IH Hin'). specialize (Hin e ltac:(left)).
  rewrite !filter_cons. destruct (decide (from_i128 e.1 = k)) as [E|E].
  - specialize (Hin E). destruct (decide (in_range r (key_Z k))) as [Hr|Hr].
    + rewrite decide_True by tauto. cbn [map concat]. rewrite filter_key_items, decide_True by done. by rewrite IH.
    + rewrite decide_False by tauto. done.
  - destruct (decide (i128_bits (start r) <= e.1 /\ e.1 < i128_bits (end_ r))); cbn [map concat]; [|done].
    rewrite filter_key_items, decide_False by done. done.
Qed.

Lemma all_items_key lr rgs k : sorted rgs -> Forall il_compact_range rgs ->
  filter (fun it => it_key it = k) (all_items index lr rgs)
  = if decide (member rgs (key_Z k)) then concat (map (key_items lr) (keyed k)) else [].
Proof using Hix.
  intros [Ho Hs] Hc. unfold all_items. induction rgs as [|r rgs IH].
  { rewrite decide_False; [done|]. by intros ?%member_nil. }
  apply Forall_cons in Ho as [_ Ho]. apply Forall_cons in Hc as [Hr Hc]. inversion_clear Hs as [|? ? Hs' Hf].
  cbn [map concat]. rewrite filter_app, range_items_key, IH by done.
  destruct (decide (in_range r (key_Z k))) as [Hi|Hi].
  - rewrite (decide_False (P := member rgs (key_Z k))).
    + rewrite app_nil_r, decide_True; [done|]. exists r. split; [left|done].
    + intros (r' & Hr' & Hi'). rewrite Forall_forall in Hf. specialize (Hf r' Hr'). unfold in_range in *. lia.
  - cbn [app]. apply decide_ext. unfold member. split; intros (r' & Hr' & Hi').
    + exists r'. split; [by right|done].
    + apply elem_of_cons in Hr' as [->|Hr']; [done|]. by exists r'.
Qed.
End deliver.

(** ** The values of the layer as puts *)

Definition entry_put (e : entry) : put := mkPut (from_i128 (en_key e)) (en_lsn e) (en_init e) (en_data e).

Definition put_update (p : put) : update := mkUpdate (pt_key p) (pt_lsn p) (pt_init p) (WalRecordOrImage (pt_data p)).

(** What a read of a range of LSNs needs of a key. *)
Definition needed_puts (puts : list put) (lr : Range Lsn) (k : Key) : list put :=
  until_init pt_init (rev (filter (fun p => pt_key p = k /\ in_lsns lr (pt_lsn p)) puts)).

Definition put_values (puts : list put) (lr : Range Lsn) (k : Key) : list update := map put_update (needed_puts puts lr k).

Section puts.
Context `{BF : !BitField}.

Definition layer_puts (data : list byte) (index : ordmap Z (VecMap Z)) : list put :=
  concat (map (fun e => map entry_put (entries_of data e)) index).

Definition item_update (data : list byte) (it : item) : update :=
  mkUpdate (it_key it) (it_lsn it) (it_init it) (WalRecordOrImage (take (Z.to_nat (it_len it)) (drop (Z.to_nat (it_pos it)) data))).

Lemma layer_puts_key data index k : filter (fun p => pt_key p = k) (layer_puts data index)
  = concat (map (fun e => map entry_put (entries_of data e)) (keyed index k)).
Proof.
  unfold layer_puts, keyed. rewrite list_filter_concat, map_map. induction index as [|e l IH]; [done|]. cbn [map concat]. rewrite IH, filter_cons.
  case_decide as E; cbn [map concat].
  - f_equal. apply filter_all. intros p Hp. apply list_elem_of_fmap_1 in Hp as (x & -> & Hx). by apply list_elem_of_fmap_1 in Hx as (le & -> & _).
  - rewrite filter_none; [done|]. intros p Hp. apply list_elem_of_fmap_1 in Hp as (x & -> & Hx).
    by apply list_elem_of_fmap_1 in Hx as (le & -> & _).
Qed.

Lemma filter_and {A} (P Q : A -> Prop) `{!forall x, Decision (P x)} `{!forall x, Decision (Q x)} (l : list A) :
  filter (fun x => P x /\ Q x) l = filter Q (filter P l).
Proof. rewrite list_filter_filter. apply list_filter_iff. intros x. tauto. Qed.

Lemma key_items_puts data lr e :
  map (item_update data) (key_items lr e)
  = map put_update (until_init pt_init (rev (filter (fun p => in_lsns lr (pt_lsn p)) (map entry_put (entries_of data e))))).
Proof.
  unfold key_items, entries_of. rewrite map_map.
  rewrite <- (map_filter_comm (fun le => entry_put (entry_at data e.1 le)) (fun le => start lr <= le.1 /\ le.1 < end_ lr)
    (fun p => in_lsns lr (pt_lsn p))) by done.
  generalize (filter (fun le : Lsn * Z => start lr <= le.1 /\ le.1 < end_ lr) (vm_data e.2)). intros l.
  rewrite <- map_rev, <- (until_init_map (fun le => entry_put (entry_at data e.1 le)) pt_init), <- (until_init_map (item_of (from_i128 e.1)) it_init), !map_map.
  done.
Qed.

Lemma keyed_items_values data index lr k :
  index_ok data index ->
  map (item_update data) (concat (map (key_items lr) (keyed index k))) = put_values (layer_puts data index) lr k.
Proof.
  intros Hix. unfold put_values, needed_puts. rewrite filter_and, layer_puts_key.
  destruct (keyed_cases data index Hix k) as [->|(e & -> & _)]; [done|]. cbn [map concat]. rewrite !app_nil_r. apply key_items_puts.
Qed.

Lemma items_deliver data index lr rgs :
  index_ok data index -> sorted rgs -> Forall il_compact_range rgs ->
  delivers (map (item_update data) (all_items index lr rgs)) rgs (put_values (layer_puts data index) lr).
Proof.
  intros Hix Hs Hc. split.
  - apply Forall_map, Forall_forall. intros it Hit. cbn [up_key item_update]. unfold all_items, range_items_of in Hit.
    apply list_elem_of_In, in_concat in Hit as (l & Hl & Hit). apply in_map_iff in Hl as (r & <- & _).
    apply in_concat in Hit as (l & Hl & Hit). apply in_map_iff in Hl as (e & <- & _). apply list_elem_of_In in Hit.
    rewrite (key_items_key lr e it Hit). apply from_i128_wf.
  - intros k _. unfold mine.
    rewrite <- (map_filter_comm (item_update data) (fun it => it_key it = k) (fun u => up_key u = k)) by done.
    rewrite (all_items_key data index Hix) by done. rewrite <- keyed_items_values by done.
    split; intros Hm; [by rewrite decide_True|by rewrite decide_False].
Qed.

Lemma items_NoDup data index lr rgs :
  index_ok data index -> sorted rgs -> Forall il_compact_range rgs ->
  NoDup (map (fun it => (it_key it, it_lsn it)) (all_items index lr rgs)).
Proof.
  intros Hix Hs Hc. apply NoDup_by_key. intros k. rewrite (all_items_key data index Hix) by done.
  destruct (decide (member rgs (key_Z k))); [|constructor]. destruct (keyed_cases data index Hix k) as [->|(e & -> & He)]; [constructor|].
  cbn [map concat]. rewrite app_nil_r. destruct (ix_keys _ _ Hix e He) as (_ & Hok & Ho & _). unfold vm_ok in Hok. rewrite Ho in Hok.
  eapply sublist_NoDup; [|apply (fmap_sublist it_lsn), until_init_sub].
  change (NoDup (map it_lsn (map (item_of (from_i128 e.1)) (rev (filter (fun le => start lr <= le.1 /\ le.1 < end_ lr) (vm_data e.2)))))).
  rewrite map_map, map_rev, <- Permutation_rev.
  eapply sublist_NoDup; [|apply (fmap_sublist fst), sublist_filter]. clear -Hok. induction Hok as [|x l _ IH Hf]; [constructor|].
  cbn. constructor; [|exact IH]. intros (y & E & Hy)%list_elem_of_fmap_1. rewrite Forall_forall in Hf. specialize (Hf y Hy). cbn in *. lia.
Qed.

Lemma put_values_ends puts lr k : ends_at_completion (put_values puts lr k).
Proof.
  intros l1 u l2 E Hu. unfold put_values, needed_puts in E.
  apply (until_init_ends up_completes (map put_update (rev (filter (fun p => pt_key p = k /\ in_lsns lr (pt_lsn p)) puts))) l1 u l2); [|done].
  by rewrite <- E, <- (until_init_map put_update up_completes).
Qed.
End puts.

(** ** Reading *)

Section read.
Context `{BF : !BitField, PK : !Peeking, PKL : !PeekingLaws}.

Definition item_within (data : list byte) (it : item) : Prop :=
  0 <= it_pos it /\ 0 < it_len it /\ it_pos it + it_len it <= Z.of_nat (length data).

Lemma items_within data index lr rgs : index_ok data index -> Forall (item_within data) (all_items index lr rgs).
Proof.
  intros Hix. apply Forall_forall. intros it Hit. unfold all_items, range_items_of in Hit.
  apply list_elem_of_In, in_concat in Hit as (l & Hl & Hit). apply in_map_iff in Hl as (r & <- & _).
  apply in_concat in Hit as (l & Hl & Hit). apply in_map_iff in Hl as (e & <- & He). apply list_elem_of_In in Hit.
  apply list_elem_of_In in He. unfold orange in He. apply list_elem_of_filter in He as [_ He].
  eapply elem_of_sublist in Hit; [|apply until_init_sub]. apply list_elem_of_fmap_1 in Hit as (le & -> & Hle).
  rewrite list_elem_of_In, <- in_rev, <- list_elem_of_In in Hle. apply list_elem_of_filter in Hle as [_ Hle].
  destruct (ix_keys _ _ Hix e He) as (_ & _ & _ & _ & Hf). rewrite Forall_forall in Hf. destruct (Hf le Hle) as (_ & H1 & H2 & H3).
  unfold item_within, item_of. cbn [it_pos it_len]. lia.
Qed.

(** The bytes of all items, read from the ephemeral file. *)
Lemma items_read debug ef data its :
  ef_run ef data -> Z.of_nat (length data) <= u64_max -> Forall (item_within data) its ->
  exists results, dio_execute debug (read_exact_at_eof_ok ef) (map item_read its) = Some results
  /\ Forall2 (fun it r => into_result r = Some (Some (inr (take (Z.to_nat (it_len it)) (drop (Z.to_nat (it_pos it)) data))))) its results.
Proof.
  intros Hrun Hmax Hw. pose proof (ef_run_ok ef data Hrun) as Hok.
  assert (forall it, item_within data it -> dio_in_range data (item_read it) /\ fresh (item_read it)) as Hitem.
  { intros it (H1 & H2 & H3). unfold dio_in_range, fresh, item_read, read_cap, logical_read_new. cbn [lr_pos lr_state vec_cap vec_with_capacity].
    split; [lia|]. split; [done|]. eexists. split; [done|]. lia. }
  assert (Forall (dio_in_range data) (map item_read its)) as Hin.
  { apply Forall_map. eapply Forall_impl; [exact Hw|]. intros it H. by apply Hitem. }
  assert (forall start n, asked data (map item_read its) start -> read_exact_at_eof_ok ef start n = Ok (take n (drop (Z.to_nat start) data))) as Hfile.
  { intros start n [H1 [H2|H2]]; [|done]. apply ephemeral_read_ok; [done|lia|done]. }
  assert (forall it, item_within data it -> nonempty (item_read it)) as Hne.
  { intros it (_ & Hlen & _). unfold nonempty, item_read, read_cap, logical_read_new, vec_with_capacity. cbn [lr_state vec_cap]. lia. }
  destruct (dio_results debug (read_exact_at_eof_ok ef) data (map item_read its)) as (results & Hr & E).
  - apply Forall_map. eapply Forall_impl; [exact Hw|]. intros it H. by apply Hitem.
  - intros start n Hask. left. by apply Hfile.
  - rewrite decide_False in E.
    2:{ intros [_ Hn]. apply Hn, Forall_map. eapply Forall_impl; [exact Hw|]. exact Hne. }
    exists results. split; [done|]. apply Forall2_fmap_l in Hr. apply Forall2_same_length_lookup_2; [by eapply Forall2_length|].
    intros i it r Hi Hri. destruct (Forall2_lookup_lr _ _ _ _ _ _ Hr Hi Hri) as (res & -> & Hres).
    rewrite Forall_forall in Hw. pose proof (Hw it ltac:(by eapply list_elem_of_lookup_2)) as Hit.
    destruct (Hitem it Hit) as [Hrng _]. pose proof (Hne it Hit) as Hcap. unfold nonempty in Hcap.
    destruct res as [[[|e]|bytes]|]; cbn [read_result] in Hres.
    + by destruct Hres as [_ []].
    + destruct Hres as [_ (start & n & Hask & He)]. rewrite Hfile in He by done. done.
    + destruct Hres as (_ & _ & ->). done.
    + lia.
Qed.

Lemma complete_values_list its : forall results ios st,
  Forall2 (fun it r => into_result r = Some (Some (inr it.2))) its results ->
  complete_values (zip (map fst its) results) ios st
  = complete_list (map (fun it : Key * Lsn * list byte => (it.1, inr (WalRecordOrImage it.2))) its) ios st.
Proof.
  intros results ios st H. revert ios st. induction H as [|[k b] r its results Hr _ IH]; intros ios st; [done|].
  cbn [map zip_with fst complete_values complete_list]. destruct (ios_remove k ios) as [[io ios']|]; [|done].
  cbn [mbind option_bind]. rewrite Hr. cbn [mjoin option_join mbind option_bind snd]. apply IH.
Qed.

(** Reading an in-memory layer. *)
Lemma il_read_ok debug order self data ks lr st :
  layer_ok self data -> (forall reads, order reads ≡ₚ reads) -> sorted (ranges ks) -> Forall il_compact_range (ranges ks) ->
  start lr <= end_ lr -> ready st (ranges ks) (put_values (layer_puts data (il_index self)) lr) ->
  exists st' us, il_get_values_reconstruct_data debug order self ks lr st = Some st' /\ pushed us st st'
  /\ delivers us (ranges ks) (put_values (layer_puts data (il_index self)) lr).
Proof.
  intros [Hrun Hsz Hix] Hord Hso Hc Hlr Hready. set (its := all_items (il_index self) lr (ranges ks)).
  pose proof (items_deliver data (il_index self) lr (ranges ks) Hix Hso Hc) as Hdel. fold its in Hdel.
  destruct (push_delivers _ _ _ st Hdel Hready) as (st' & Hp & Hpu); [intros k; apply put_values_ends|].
  exists st'. eexists. split_and!; [|exact Hpu|exact Hdel].
  set (bytes := fun it => take (Z.to_nat (it_len it)) (drop (Z.to_nat (it_pos it)) data)).
  pose proof (items_NoDup data (il_index self) lr (ranges ks) Hix Hso Hc) as Hnd. fold its in Hnd.
  destruct (two_phase_values bm_will_init item_blob (fun it => WalRecordOrImage (bytes it)) its Hnd st st' Hp) as (ios & st1 & E1 & E2).
  unfold il_get_values_reconstruct_data. rewrite (plan_ranges_items data) by done. rewrite push_items_blobs. fold its. rewrite E1.
  cbn [mbind option_bind].
  assert (planned_values (order (fold_left push_read its [])) ≡ₚ map item_value its) as Hperm.
  { rewrite planned_order by done. by rewrite planned_fold. }
  apply Permutation_map_inv in Hperm as (its' & -> & Hits).
  assert (Forall (item_within data) its') as Hw by (rewrite <- Hits; by apply items_within).
  destruct (items_read debug (il_file self) data its' Hrun Hsz Hw) as (results & E & Hr).
  rewrite !map_map. change (map (fun x => (item_value x).2) its') with (map item_read its'). rewrite E. cbn [mbind option_bind].
  assert (complete_values (zip (map (fun x => (item_value x).1) its') results) ios st1 = Some ([], st')) as ->; [|done].
  transitivity (complete_list (map (fun it => (it_key it, it_lsn it, inr (WalRecordOrImage (bytes it)))) its') ios st1).
  - pose proof (complete_values_list (map (fun it => (it_key it, it_lsn it, bytes it)) its') results ios st1) as Hcv.
    rewrite !map_map in Hcv. apply Hcv. apply Forall2_fmap_l. exact Hr.
  - rewrite <- E2. symmetry. apply complete_perm.
    + by rewrite Hits.
    + rewrite map_map. exact Hnd.
    + eapply update_blobs_distinct; [exact E1|by intros ? ? ?%not_elem_of_nil|by intros ? ? ? ?%not_elem_of_nil].
Qed.
End read.
