(* ===== verification/InMemoryFlushFacts.v ===== *)
(** * The life of an in-memory layer

    Runs of a layer: batches are put, the flush task of its file works in the
    background, it is frozen and written to disk.  Reads return what was put, and
    return the same from the delta layer it is written to. *)

From stdpp Require Import sorting.
From S2P Require Import Prelude Lsn XlogUtils Key Shard KeySpace KeySpaceFacts KeySpaceSets OrdMap LayerCoverage LayerName.
From S2P Require Import DiskBtree VecMap BlobIo ReconstructState LayerFile ReconstructFacts LayerFileFacts LayerReadFacts LayerWriteFacts.
From S2P Require Import EphemeralFile EphemeralFacts DioRead DioReadFacts SerializedBatch InMemoryLayer InMemoryFacts InMemoryReadFacts.

(** ** Runs *)

Section run.
Context `{BF : !BitField, BFL : !BitFieldLaws}.

(** The layer, the bytes written to its file and the values put, in order. *)
Inductive il_run : InMemoryLayer -> list byte -> list entry -> Prop :=
  | ir_create timeline_id tsi start_lsn : il_run (il_create timeline_id tsi start_lsn) [] []
  | ir_put self data es ss b self' :
      il_run self data es -> batch_fits self data b -> put_batch ss b self = (Ok tt, self') ->
      il_run self' (data ++ sb_raw b) (es ++ contents b)
  | ir_background self data es bs : il_run self data es -> il_run (with_file (ef_background bs (il_file self)) self) data es
  | ir_freeze self data es debug end_lsn self' : il_run self data es -> freeze debug end_lsn self = (Ok tt, self') -> il_run self' data es.

Definition history (es : list entry) (ck : Z) : list entry := fold_left upsert (filter (fun e => en_key e = ck) es) [].

Lemma fold_put_history es : forall f ck, fold_left put_entry es f ck = fold_left upsert (filter (fun e => en_key e = ck) es) (f ck).
Proof.
  induction es as [|e es IH]; intros f ck; [done|]. cbn [fold_left]. rewrite IH, filter_cons. unfold put_entry.
  destruct (decide (ck = en_key e)) as [->|Hne]; [by rewrite decide_True|by rewrite decide_False].
Qed.

Lemma freeze_spec debug end_lsn self self' :
  freeze debug end_lsn self = (Ok tt, self') ->
  il_start_lsn self < end_lsn /\ il_end_lsn self = None /\ il_end_lsn self' = Some end_lsn /\ il_index self' = il_index self
  /\ il_file self' = il_file self /\ il_start_lsn self' = il_start_lsn self.
Proof.
  intros E. assert (wp (freeze debug end_lsn) (fun r self' => match r with Ok _ =>
    il_start_lsn self < end_lsn /\ il_end_lsn self = None /\ il_end_lsn self' = Some end_lsn /\ il_index self' = il_index self
    /\ il_file self' = il_file self /\ il_start_lsn self' = il_start_lsn self | _ => True end) self) as Hwp.
  { unfold freeze. wp_step. wp_step. wp_step. wp_step; [|done]. wp_step. wp_step. wp_step. wp_step; [|done]. wp_step.
    wp_step. wp_step. wp_step. apply bool_decide_eq_true in H, H0. wp_step; done. }
  apply (wp_elim _ _ _ _ _ Hwp E).
Qed.

Lemma put_batch_open ss b self self' : put_batch ss b self = (Ok tt, self') -> il_end_lsn self = None.
Proof.
  intros E. assert (wp (put_batch ss b) (fun r _ => r = Ok tt -> il_end_lsn self = None) self) as Hwp.
  { unfold put_batch, assert_writable. wp_step. wp_step. wp_step. wp_step; [|done]. apply bool_decide_eq_true in H.
    unfold wp. by destruct (_ self). }
  by apply (wp_elim _ _ _ _ _ Hwp E).
Qed.

Lemma il_run_ok self data es :
  il_run self data es -> layer_ok self data /\ forall ck, layer_vals self data ck = history es ck.
Proof.
  induction 1 as [tl tsi s|self data es ss b self' _ [IH IHv] Hb E|self data es bs _ [IH IHv]|self data es debug end_lsn self' _ [IH IHv] E].
  - split; [|done]. split; [apply run_create|done|]. split; [constructor|]. by intros e He%not_elem_of_nil.
  - assert (il_end_lsn self = None) as Hend.
    { by eapply put_batch_open. }
    pose proof (wp_elim _ _ _ _ _ (put_batch_ok ss b self data IH Hend Hb) E) as (H1 & _ & _ & _ & _ & H2). split; [done|].
    intros ck. rewrite H2. unfold history. rewrite fold_put_history, IHv. unfold history. by rewrite filter_app, fold_left_app.
  - split; [|done]. destruct IH as [H1 H2 H3]. split; cbn [il_file with_file il_index]; [by apply run_background|done|done].
  - apply freeze_spec in E as (_ & _ & _ & E1 & E2 & _). unfold layer_vals in *. rewrite E1. split; [|done].
    destruct IH as [H1 H2 H3]. split; [by rewrite E2|done|by rewrite E1].
Qed.

(** A frozen layer has a range of LSNs. *)
Lemma il_run_end self data es end_lsn : il_run self data es -> il_end_lsn self = Some end_lsn -> il_start_lsn self < end_lsn.
Proof.
  intros Hrun. revert end_lsn. induction Hrun as [tl tsi s|self data es ss b self' Hrun IH Hb E|self data es bs _ IH|self data es debug e self' _ IH E]; intros end_lsn Hend.
  - done.
  - pose proof (put_batch_open _ _ _ _ E) as Hopen. destruct (il_run_ok _ _ _ Hrun) as [Hok _].
    pose proof (wp_elim _ _ _ _ _ (put_batch_ok ss b self data Hok Hopen Hb) E) as (_ & _ & He & _). congruence.
  - by apply IH.
  - apply freeze_spec in E as (H1 & _ & H2 & _ & _ & H3). rewrite H2 in Hend. injection Hend as <-. by rewrite H3.
Qed.

Lemma history_sub es ck x : x ∈ history es ck -> x ∈ es /\ en_key x = ck.
Proof.
  unfold history. assert (forall l acc, x ∈ fold_left upsert l acc -> x ∈ acc \/ x ∈ l) as H.
  { induction l as [|e l IH]; intros acc Hx; [by left|]. cbn [fold_left] in Hx. apply IH in Hx as [Hx|Hx]; [|right; by right].
    assert (x ∈ acc \/ x = e) as [?| ->]; [|by left|right; by left]. unfold upsert in Hx.
    destruct (last acc); [case_decide|]; apply elem_of_app in Hx as [Hx|Hx%list_elem_of_singleton]; auto.
    left. rewrite <- (take_drop (length acc - 1) acc). apply elem_of_app. by left. }
  intros [Hx|Hx]%H; [by apply not_elem_of_nil in Hx|]. apply list_elem_of_filter in Hx. tauto.
Qed.

Lemma layer_puts_vals self data k :
  layer_ok self data -> key_wf k -> key_compact k ->
  filter (fun p => pt_key p = k) (layer_puts data (il_index self)) = map entry_put (layer_vals self data (i128_bits k)).
Proof.
  intros [_ _ Hix] Hk Hc. rewrite layer_puts_key. unfold layer_vals, vals.
  destruct (keyed_cases data (il_index self) Hix k) as [E|(e & E & He)].
  - rewrite E. destruct (oget (i128_bits k) (il_index self)) as [vm|] eqn:Eo; [|done].
    apply oget_in in Eo; [|apply Hix]. exfalso. eapply (not_elem_of_nil (i128_bits k, vm)). rewrite <- E. apply list_elem_of_filter.
    split; [cbn; by apply from_i128_bits|done].
  - rewrite E. cbn [map concat]. rewrite app_nil_r.
    assert (from_i128 e.1 = k) as Hek by (assert (e ∈ keyed (il_index self) k) as [? _]%list_elem_of_filter by (rewrite E; left); done).
    assert (e.1 = i128_bits k) as Heq.
    { rewrite <- Hek, i128_bits_from_i128; [done|]. by destruct (ix_keys _ _ Hix e He). }
    destruct e as [ck vm]. cbn [fst] in Heq. subst ck. rewrite (proj2 (oget_in (i128_bits k) vm (il_index self) (ix_sorted _ _ Hix)) He). done.
Qed.

Lemma layer_puts_wf self data p :
  layer_ok self data -> p ∈ layer_puts data (il_index self) ->
  key_wf (pt_key p) /\ key_compact (pt_key p) /\ in_u 64 (pt_lsn p) /\ Z.of_nat (length (pt_data p)) <= MAX_SUPPORTED_BLOB_LEN.
Proof.
  intros [_ _ Hix] Hp. unfold layer_puts in Hp. apply list_elem_of_In, in_concat in Hp as (l & Hl & Hp). apply in_map_iff in Hl as (e & <- & He).
  apply list_elem_of_In in He. apply list_elem_of_In, list_elem_of_fmap_1 in Hp as (x & -> & Hx). apply list_elem_of_fmap_1 in Hx as (le & -> & Hle).
  destruct (ix_keys _ _ Hix e He) as (_ & _ & _ & _ & Hf). rewrite Forall_forall in Hf. destruct (Hf le Hle) as (H1 & H2 & H3 & H4).
  destruct (from_i128_wf e.1) as [W C]. split_and!; try done; try apply W; try apply C; try apply H1.
  cbn [entry_put pt_data entry_at en_data]. rewrite length_take. lia.
Qed.

Lemma ready_puts self data rgs lr :
  layer_ok self data ->
  ready vs_new rgs (put_values (layer_puts data (il_index self)) lr).
Proof.
  intros Hok. split; [by intros k s e|]. intros k Hk _ Hne. split; [|done].
  assert (exists p, p ∈ layer_puts data (il_index self) /\ pt_key p = k) as (p & Hp & <-).
  { unfold put_values, needed_puts in Hne. destruct (filter (fun p => pt_key p = k /\ in_lsns lr (pt_lsn p)) (layer_puts data (il_index self))) as [|p l] eqn:E; [done|].
    exists p. assert (p ∈ p :: l) as Hin by left. rewrite <- E in Hin. apply list_elem_of_filter in Hin. tauto. }
  destruct (layer_puts_wf self data p Hok Hp) as (_ & Hc & _). by split.
Qed.
End run.

(** ** Writing the layer to disk *)

Section flush.
Context `{BF : !BitField, BFL : !BitFieldLaws, PK : !Peeking, PKL : !PeekingLaws}.
Context `{ZS : !Zstd, ZL : !ZstdLaws, VC : !ValueCodec, SC : !SummaryCodec, SL : !SummaryCodecLaws}.

Lemma delta_put_all_app l1 l2 : forall w, delta_put_all w (l1 ++ l2) = (w ← delta_put_all w l1; delta_put_all w l2).
Proof.
  induction l1 as [|p l1 IH]; intros w; [done|]. cbn [app delta_put_all]. destruct (delta_put_value_bytes w _ _ _ _); [|done|done].
  cbn [mbind outcome_bind]. apply IH.
Qed.

Lemma write_entries_puts data ck l : forall w,
  Forall (entry_within data) l ->
  write_entries data (from_i128 ck) l w = delta_put_all w (map entry_put (map (entry_at data ck) l)).
Proof.
  induction l as [|[lsn e] l IH]; intros w Hf; [done|]. apply Forall_cons in Hf as [(_ & H1 & H2 & H3) Hf]. cbn [fst snd] in *.
  cbn [write_entries map delta_put_all entry_put entry_at pt_key pt_lsn pt_init pt_data en_key en_lsn en_init en_data fst snd].
  unfold slice. rewrite decide_True by lia. cbn [of_option mbind outcome_bind].
  replace (Z.to_nat (ie_pos (unpack e) + ie_len (unpack e)) - Z.to_nat (ie_pos (unpack e)))%nat with (Z.to_nat (ie_len (unpack e))) by lia.
  destruct (delta_put_value_bytes w _ _ _ _); [|done|done]. cbn [mbind outcome_bind]. by apply IH.
Qed.

Lemma write_keys_puts data index : forall w,
  (forall e, e ∈ index -> Forall (entry_within data) (vm_data e.2)) ->
  write_keys data index w = delta_put_all w (layer_puts data index).
Proof.
  induction index as [|[ck vm] index IH]; intros w Hf; [done|]. cbn [write_keys]. unfold layer_puts. cbn [map concat].
  rewrite delta_put_all_app, write_entries_puts by (apply (Hf (ck, vm)); left). unfold entries_of at 1. cbn [fst snd].
  destruct (delta_put_all w _); [|done|done]. cbn [mbind outcome_bind]. apply IH. intros e He. apply Hf. by right.
Qed.

Lemma layer_puts_sorted data index :
  index_ok data index -> StronglySorted (fun p q => put_Z p < put_Z q) (layer_puts data index).
Proof.
  intros [Hs Hk]. unfold layer_puts. induction index as [|[ck vm] l IH]; [constructor|]. apply osorted_cons in Hs as [Hf Hs].
  cbn [map concat]. destruct (Hk (ck, vm) ltac:(left)) as (Hck & Hok & Ho & _ & Hw). cbn [fst snd] in *.
  unfold vm_ok in Hok. rewrite Ho in Hok. apply StronglySorted_app_2.
  - intros p q Hp Hq. unfold entries_of in Hp. cbn [fst snd] in Hp. rewrite map_map in Hp. apply list_elem_of_fmap_1 in Hp as (le & -> & Hle).
    apply list_elem_of_In, in_concat in Hq as (lq & Hlq & Hq). apply in_map_iff in Hlq as (e & <- & He). apply list_elem_of_In in He.
    unfold entries_of in Hq. rewrite map_map in Hq. apply in_map_iff in Hq as (le' & <- & Hle'). apply list_elem_of_In in Hle'.
    rewrite Forall_forall in Hf. specialize (Hf e He). unfold klt in Hf. cbn [kcmp Z_order] in Hf. rewrite Z.compare_lt_iff in Hf. cbn [fst] in Hf.
    destruct (Hk e ltac:(by right)) as (He1 & _ & _ & _ & Hw').
    rewrite Forall_forall in Hw. rewrite Forall_forall in Hw'. destruct (Hw le Hle) as (L1 & _). destruct (Hw' le' Hle') as (L2 & _).
    pose proof (from_i128_cmp ck e.1 Hck He1) as Hc. rewrite key_cmp_Z in Hc by apply from_i128_wf.
    rewrite (proj2 (Z.compare_lt_iff ck e.1)) in Hc by done. rewrite Z.compare_lt_iff in Hc.
    unfold put_Z. cbn [pt_key pt_lsn entry_put entry_at en_key en_lsn fst]. unfold in_u in *. nia.
  - unfold entries_of. cbn [fst snd]. rewrite map_map. clear -Hok. induction Hok as [|x l _ IHl Hf]; [constructor|]. cbn [map]. constructor; [done|].
    apply Forall_map. eapply Forall_impl; [exact Hf|]. intros y Hy. unfold put_Z. cbn in *. lia.
  - apply IH; [done|]. intros e He. apply Hk. by right.
Qed.

(** What must hold for the layer to fit into a delta layer. *)
Record fits_on_disk (self : InMemoryLayer) (data : list byte) : Prop := {
  fd_start : Forall (fun p => il_start_lsn self <= pt_lsn p) (layer_puts data (il_index self));
  fd_len : puts_len (layer_puts data (il_index self)) < 2 ^ 37;
  fd_count : Z.of_nat (length (layer_puts data (il_index self))) < 2 ^ 31
}.

Lemma layer_puts_nonempty data index : index_ok data index -> index <> [] -> layer_puts data index <> [].
Proof.
  intros [_ Hk] Hne. destruct index as [|e l]; [done|]. destruct (Hk e ltac:(left)) as (_ & _ & _ & Hd & _).
  unfold layer_puts, entries_of. cbn [map concat]. by destruct (vm_data e.2).
Qed.

Lemma layer_puts_ok self data end_lsn :
  layer_ok self data -> il_index self <> [] -> fits_on_disk self data ->
  puts_ok (mkRange (il_start_lsn self) end_lsn) (layer_puts data (il_index self)).
Proof.
  intros Hok Hne [F1 F2 F3]. split; [by apply layer_puts_nonempty; [apply Hok|]|by apply layer_puts_sorted, Hok| |done|done].
  apply Forall_forall. intros p Hp. destruct (layer_puts_wf self data p Hok Hp) as (W1 & W2 & W3 & W4).
  rewrite Forall_forall in F1. specialize (F1 p Hp). cbn [start]. split; [exact W1|]. split; [exact W2|]. split; [exact W3|]. by split.
Qed.

Lemma write_to_disk_ok self data end_lsn :
  layer_ok self data -> il_end_lsn self = Some end_lsn -> il_index self <> [] ->
  write_to_disk self None
  = (w ← delta_put_all (delta_writer_new (il_timeline_id self) (il_tenant_shard_id self) KEY_MIN (mkRange (il_start_lsn self) end_lsn))
           (layer_puts data (il_index self));
     r ← delta_finish w KEY_MAX; Ok (Some r)).
Proof.
  intros [Hrun Hsz Hix] Hend Hne. unfold write_to_disk. rewrite Hend. cbn [of_option mbind outcome_bind].
  destruct (length (il_index self)) eqn:El; [by destruct (il_index self)|]. cbn [mbind outcome_bind].
  rewrite (load_ok (il_file self) data) by (done || by apply ef_run_ok). cbn [mbind outcome_bind].
  rewrite write_keys_puts; [done|]. intros e He. by destruct (ix_keys _ _ Hix e He) as (_ & _ & _ & _ & ?).
Qed.
(** The values of a key as a read delivers them. *)
Definition entry_value (e : entry) : Lsn * option OnDiskValueIoResult := (en_lsn e, Some (inr (WalRecordOrImage (en_data e)))).

Definition needed_history (es : list entry) (lr : Range Lsn) (ck : Z) : list entry :=
  until_init en_init (rev (filter (fun e => in_lsns lr (en_lsn e)) (history es ck))).

Lemma put_values_history self data es lr k :
  il_run self data es -> key_wf k -> key_compact k ->
  delivered (put_values (layer_puts data (il_index self)) lr k) = map entry_value (needed_history es lr (i128_bits k)).
Proof.
  intros Hrun Hk Hc. destruct (il_run_ok _ _ _ Hrun) as [Hok Hv]. unfold put_values, needed_puts, needed_history, delivered.
  rewrite filter_and, (layer_puts_vals self data) by done. rewrite Hv.
  rewrite <- (map_filter_comm entry_put (fun e => in_lsns lr (en_lsn e)) (fun p => in_lsns lr (pt_lsn p))) by done.
  rewrite <- map_rev, <- (until_init_map entry_put pt_init), !map_map. done.
Qed.

Lemma run_ready self data es rgs lr :
  il_run self data es -> ready vs_new rgs (put_values (layer_puts data (il_index self)) lr).
Proof. intros Hrun. apply ready_puts. by apply (il_run_ok _ _ es). Qed.

(** C16: An in-memory layer returns what was put into it.  Batches of values that are
    not empty were put into a layer, in the order of the LSNs of each key, the last value
    of a key and an LSN counting, while the flush task of its
    file did whatever it did.  A read for a key space of compact keys and a range of
    LSNs does not panic and delivers, for every key of the key space, its values in the
    range from the newest down to the first that initializes the page, and for other
    keys nothing, in whatever order the hash map of the reads is iterated over. *)
Theorem in_memory_layer_reads_what_was_put (debug_assertions : bool) (order : reads_map -> reads_map) (self : InMemoryLayer) (data : list byte)
    (es : list entry) (ks : KeySpace) (lr : Range Lsn) :
  il_run self data es -> (forall reads, order reads ≡ₚ reads) -> sorted (ranges ks) ->
  Forall il_compact_range (ranges ks) -> start lr <= end_ lr ->
  exists st, il_get_values_reconstruct_data debug_assertions order self ks lr vs_new = Some st
  /\ forall k, key_wf k -> key_compact k -> received st k
       = if decide (member (ranges ks) (key_Z k)) then map entry_value (needed_history es lr (i128_bits k)) else [].
Proof.
  intros Hrun Hord Hso Hc Hlr. destruct (il_run_ok _ _ _ Hrun) as [Hok _].
  destruct (il_read_ok debug_assertions order self data ks lr vs_new Hok Hord Hso Hc Hlr (run_ready _ _ _ _ _ Hrun)) as (st & us & E & Hpu & Hdel).
  exists st. split; [done|]. intros k Hk Hkc. rewrite (mine_received us st k _ _ Hpu Hdel Hk).
  rewrite <- (put_values_history self data) by done. by destruct (decide (member (ranges ks) (key_Z k))).
Qed.

(** C15: Flushing a layer does not change what is read.  A frozen in-memory layer that
    fits into a file is written as a delta layer, unless the file is above the upload
    limit; with enough fuel for the walks of its index the file loads, and a read of it,
    for any key space of compact keys and range of LSNs, delivers for every key exactly
    what the same read of the in-memory layer delivers. *)
Theorem flush_preserves_reads (self : InMemoryLayer) (data : list byte) (es : list entry) (end_lsn : Lsn) :
  il_run self data es -> il_end_lsn self = Some end_lsn -> il_index self <> [] -> fits_on_disk self data ->
  in_u 64 (il_start_lsn self) -> in_u 64 end_lsn ->
  names_wf (il_timeline_id self) (il_tenant_shard_id self) (mkRange KEY_MIN KEY_MAX) ->
  let lsns := mkRange (il_start_lsn self) end_lsn in
  let tsi := il_tenant_shard_id self in
  exists file, write_to_disk self None
     = (if decide (S3_UPLOAD_LIMIT < Z.of_nat (length file)) then Err (PutOther "above limit")
        else Ok (Some (desc_new_delta tsi (il_timeline_id self) (mkRange KEY_MIN KEY_MAX) lsns (Z.of_nat (length file)), file)))
  /\ (Z.of_nat (length file) <= S3_UPLOAD_LIMIT ->
      exists n, forall fuel max debug_assertions order ks lr, (n <= fuel)%nat -> (forall reads, order reads ≡ₚ reads) -> sorted (ranges ks) ->
        Forall il_compact_range (ranges ks) -> in_u 64 (start lr) -> start lr <= end_ lr -> exists d st st',
        delta_load (file_of file)
          (Some (delta_summary_expected (ts_tenant_id tsi) (il_timeline_id self) (mkRange KEY_MIN KEY_MAX) lsns)) (Some max) = Ok d
        /\ il_get_values_reconstruct_data debug_assertions order self ks lr vs_new = Some st
        /\ delta_get_values_reconstruct_data fuel d ks lr vs_new = Ok st'
        /\ forall k, key_wf k -> received st' k = received st k).
Proof.
  intros Hrun Hend Hne Hfit H1 H2 Hn. cbv zeta. destruct (il_run_ok _ _ _ Hrun) as [Hok _].
  pose proof (il_run_end _ _ _ _ Hrun Hend) as Hlt. pose proof (layer_puts_ok self data end_lsn Hok Hne Hfit) as Hpo.
  destruct (delta_file_ok (il_timeline_id self) (il_tenant_shard_id self) KEY_MIN KEY_MAX (mkRange (il_start_lsn self) end_lsn)
    (layer_puts data (il_index self)) Hpo Hlt H1 H2 Hn) as (w & file & des & Hw & Hp & Hf & Hd).
  exists file. split.
  { rewrite (write_to_disk_ok self data end_lsn) by done. rewrite Hw. cbn [mbind outcome_bind]. rewrite Hf. by case_decide. }
  intros Hsize. destruct (Hd Hsize) as (n & Hl). exists n. intros fuel max debug order ks lr Hfu Hord Hso Hc Hst Hlr.
  destruct (Hl fuel max Hfu) as (d & Hload & Hh).
  destruct (il_read_ok debug order self data ks lr vs_new Hok Hord Hso Hc Hlr (run_ready _ _ _ _ _ Hrun)) as (st & us & E & Hpu & Hdel).
  assert (forall k, delivered (delta_values des lr k) = delivered (put_values (layer_puts data (il_index self)) lr k)) as Hsame.
  { intros k. rewrite delta_values_puts, Hp. unfold put_values, needed_puts, delivered. by rewrite map_map. }
  assert (forall k, delta_values des lr k <> [] -> put_values (layer_puts data (il_index self)) lr k <> []) as Hnonempty.
  { intros k Hk Hnil. specialize (Hsame k). rewrite Hnil in Hsame. by destruct (delta_values des lr k). }
  destruct (delta_read_ok fuel d des ks lr vs_new Hh Hso Hst) as (st' & us' & E' & Hpu' & Hdel').
  { destruct (run_ready self data es (ranges ks) lr Hrun) as [R1 R2]. split; [done|]. intros k Hk Hm Hv. apply R2; auto. }
  exists d, st, st'. split_and!; [done|done|done|]. intros k Hk.
  rewrite (mine_received us st k _ _ Hpu Hdel Hk), (mine_received us' st' k _ _ Hpu' Hdel' Hk). destruct (decide (member (ranges ks) (key_Z k))); [apply Hsame|done].
Qed.
(** The key range given to [write_to_disk] does not select what is written, though its
    comment says so: a range that holds a key of the layer writes the whole layer. *)
Theorem key_range_selects_nothing (self : InMemoryLayer) (r : KRange) (a b : Z) :
  to_i128 (start r) = Some a -> to_i128 (end_ r) = Some b -> (exists e, e ∈ il_index self /\ a <= e.1 < b) ->
  write_to_disk self (Some r) = write_to_disk self None.
Proof.
  intros Ha Hb (e & He & Hr). unfold write_to_disk. destruct (il_end_lsn self) as [end_lsn|]; [|done]. cbn [of_option mbind outcome_bind].
  rewrite Ha, Hb. cbn [of_option mbind outcome_bind].
  destruct (filter (fun e : Z * VecMap Z => a <= e.1 /\ e.1 < b) (il_index self)) as [|x l] eqn:E.
  - exfalso. eapply (not_elem_of_nil e). rewrite <- E. apply list_elem_of_filter. split; [lia|done].
  - cbn [length]. destruct (il_index self) as [|y m]; [by apply not_elem_of_nil in He|done].
Qed.
End flush.

(** ** A concrete instance *)

#[global] Instance example_bit_field : BitField := {
  set_bits d lo hi v :=
    if decide (v < 2 ^ (hi - lo)) then Some (d - d / 2 ^ lo mod 2 ^ (hi - lo) * 2 ^ lo + v * 2 ^ lo) else None;
  get_bits d lo hi := d / 2 ^ lo mod 2 ^ (hi - lo)
}.

(** Bits below [b] are those of the remainder. *)
Lemma get_bits_mod d a b : 0 <= a < b -> get_bits d a b = d mod 2 ^ b / 2 ^ a.
Proof.
  intros Hab. cbn. replace (2 ^ b) with (2 ^ a * 2 ^ (b - a)) by (rewrite <- Z.pow_add_r by lia; f_equal; lia).
  rewrite Z.rem_mul_r by lia. rewrite Z.mul_comm, Z.div_add by lia.
  rewrite (Z.div_small (d mod 2 ^ a)); [lia|]. apply Z.mod_pos_bound. lia.
Qed.

#[global] Instance example_bit_field_laws : BitFieldLaws.
Proof.
  split. intros d lo hi v Hlo Hhi [Hd0 Hd] [Hv0 Hv]. set (w := 2 ^ (hi - lo)) in *. set (p := 2 ^ lo).
  assert (0 < p) by (unfold p; lia). assert (0 < w) by (unfold w; lia).
  assert (2 ^ hi = p * w) as Hpw by (unfold p, w; rewrite <- Z.pow_add_r by lia; f_equal; lia).
  pose proof (Z.div_mod d p ltac:(lia)) as D1. pose proof (Z.mod_pos_bound d p ltac:(lia)) as B1.
  pose proof (Z.div_mod (d / p) w ltac:(lia)) as D2. pose proof (Z.mod_pos_bound (d / p) w ltac:(lia)) as B2.
  set (C := d mod p) in *. set (B := (d / p) mod w) in *. set (A := d / p / w) in *.
  assert (0 <= A) as HA by (apply Z.div_pos; [apply Z.div_pos|]; lia).
  exists (A * (p * w) + (v * p + C)). cbn [set_bits get_bits example_bit_field]. fold w p B.
  assert (d - B * p + v * p = A * (p * w) + (v * p + C)) as Heq by nia.
  assert (p * w * 2 ^ (64 - hi) = 2 ^ 64) as H64 by (rewrite <- Hpw, <- Z.pow_add_r by lia; f_equal; lia).
  assert (A < 2 ^ (64 - hi)) as HA2 by nia.
  split; [by rewrite decide_True, Heq|]. split; [unfold in_u; nia|]. split.
  - replace (A * (p * w) + (v * p + C)) with ((A * w + v) * p + C) by lia. rewrite Z.div_add_l by lia.
    rewrite (Z.div_small C p), Z.add_0_r by lia. rewrite Z.add_comm, Z.mod_add by lia. by apply Z.mod_small.
  - intros a b Hab Hb [Hle|Hle].
    + change ((A * (p * w) + (v * p + C)) / 2 ^ a mod 2 ^ (b - a)) with (get_bits (A * (p * w) + (v * p + C)) a b).
      change (d / 2 ^ a mod 2 ^ (b - a)) with (get_bits d a b). rewrite !get_bits_mod by lia. f_equal.
      assert (p = 2 ^ (lo - b) * 2 ^ b) as Hp by (unfold p; rewrite <- Z.pow_add_r by lia; f_equal; lia).
      replace (A * (p * w) + (v * p + C)) with (C + (A * w + v) * 2 ^ (lo - b) * 2 ^ b) by nia.
      replace d with (C + (d / p) * 2 ^ (lo - b) * 2 ^ b) by nia. by rewrite !Z.mod_add by lia.
    + f_equal. assert (2 ^ a = p * w * 2 ^ (a - hi)) as -> by (rewrite <- Hpw, <- Z.pow_add_r by lia; f_equal; lia).
      rewrite <- !Z.div_div by nia.
      replace (A * (p * w) + (v * p + C)) with ((A * w + v) * p + C) by lia. rewrite Z.div_add_l by lia.
      rewrite (Z.div_small C p), Z.add_0_r by lia. rewrite (Z.div_add_l A w v) by lia. rewrite (Z.div_small v w) by lia. do 2 f_equal. lia.
Qed.

(** Two versions of a page, in a layer that is then frozen. *)
Definition example_ck : Z := i128_bits (example_key 1).

Definition example_batch : SerializedValueBatch :=
  mkBatch [Z_byte 1; Z_byte 2; Z_byte 3]
    [Serialized (mkSerializedMeta example_ck 20 0 2 true); Observed 5 25; Serialized (mkSerializedMeta example_ck 30 2 1 false)] 30 2.

Definition example_open : InMemoryLayer := il_create (example_id 9) example_tsi 10.
Definition example_written : InMemoryLayer := (put_batch [] example_batch example_open).2.
Definition example_frozen : InMemoryLayer := (freeze true 50 example_written).2.

Lemma ok_pair {E S A} (r : outcome E A * S) a : r.1 = Ok a -> r = (Ok a, r.2).
Proof. destruct r. cbn. by intros ->. Qed.

Lemma example_run : il_run example_frozen (sb_raw example_batch) (contents example_batch).
Proof.
  apply (ir_freeze example_written _ _ true 50); [|apply ok_pair; by vm_compute].
  apply (ir_put example_open [] [] [] example_batch); [apply ir_create| |apply ok_pair; by vm_compute].
  split; [by repeat constructor|by repeat constructor|by vm_compute|].
  split; [intros x Hx; vm_compute in Hx; done|]. split; [|done]. intros x Hx. vm_compute in Hx. by injection Hx as <-.
Qed.

Definition example_ks : KeySpace := mkKeySpace [mkRange (example_key 0) (example_key 9)].

Lemma example_ks_ok : sorted (ranges example_ks) /\ Forall il_compact_range (ranges example_ks).
Proof. split; [split|]; repeat constructor; by vm_compute. Qed.

Lemma example_key_ok : key_wf (example_key 1) /\ key_compact (example_key 1) /\ member (ranges example_ks) (key_Z (example_key 1)).
Proof.
  split; [unfold key_wf, in_u; cbn [example_key field1 field2 field3 field4 field5 field6]; lia|].
  split; [by vm_compute|]. eexists. split; [left|by vm_compute].
Qed.

Lemma in_memory_layer_reads_what_was_put_witness :
  il_run example_frozen (sb_raw example_batch) (contents example_batch)
  /\ exists st, il_get_values_reconstruct_data true (@rev _) example_frozen example_ks (mkRange 10 40) vs_new = Some st
  /\ received st (example_key 1)
     = [(30, Some (inr (WalRecordOrImage [Z_byte 3]))); (20, Some (inr (WalRecordOrImage [Z_byte 1; Z_byte 2])))].
Proof.
  split; [apply example_run|]. destruct example_ks_ok as [H1 H2].
  destruct (in_memory_layer_reads_what_was_put true (@rev _) example_frozen (sb_raw example_batch) (contents example_batch) example_ks
    (mkRange 10 40) example_run) as (st & E & Hst); [|exact H1|exact H2|by vm_compute|].
  - intros reads. symmetry. apply Permutation_rev.
  - exists st. split; [exact E|]. destruct example_key_ok as (K1 & K2 & K3). rewrite (Hst _ K1 K2), decide_True by exact K3. by vm_compute.
Defined.

Lemma flush_preserves_reads_witness :
  il_run example_frozen (sb_raw example_batch) (contents example_batch) /\ exists file, write_to_disk example_frozen None
     = (if decide (S3_UPLOAD_LIMIT < Z.of_nat (length file)) then Err (PutOther "above limit")
        else Ok (Some (desc_new_delta example_tsi (example_id 9) (mkRange KEY_MIN KEY_MAX) (mkRange 10 50) (Z.of_nat (length file)), file))).
Proof.
  split; [apply example_run|].
  destruct (flush_preserves_reads example_frozen (sb_raw example_batch) (contents example_batch) 50 example_run)
    as (file & H & _).
  - by vm_compute.
  - by vm_compute.
  - split; [by repeat constructor|by vm_compute|by vm_compute].
  - by vm_compute.
  - by vm_compute.
  - split_and!; [by vm_compute|by vm_compute|repeat constructor; by vm_compute].
  - exists file. exact H.
Defined.
